(* ===== verification/_CoqProject ===== *)
-Q . S2P
Prelude.v
Queue.v
Wire.v
Client.v
Dequeue.v
DequeueSpec.v
Event.v
Double.v
Exact.v
Containers.v
Discovery.v
Trace.v
Server.v
ServerSpec.v
ServerZone.v
ZoneSpec.v
ZoneForest.v
ServerLock.v
LockSpec.v
LockRefine.v
LockMarks.v
ServerMem.v
MemSpec.v
MemRefine.v
ServerFrame.v
FrameSpec.v
ServerSection.v
SectionSpec.v
ServerPlot.v
PlotSpec.v
ServerMessage.v
MessageSpec.v
ServerGpu.v
GpuSpec.v
GpuRefine.v
ServerCtx.v
CtxSpec.v
TraceFile.v
FileSpec.v
Timeline.v
TimelineSpec.v
ServerCallstack.v
ServerSymbol.v
CallstackSpec.v
ServerSample.v
GhostSpec.v
GhostLoop.v
ServerImage.v
Dispatch.v
Respect.v
QuerySpec.v
Link.v
ClientQuery.v
AnswerSpec.v
TransferSpec.v
ImageSpec.v
MemFile.v
MemPlot.v
MemHistory.v
MemFileSpec.v
MemTrace.v
LockFile.v
LockFileSpec.v
CtxUsage.v
CtxUsageSpec.v
DequeueItems.v
