(* ===== verification/Prelude.v ===== *)
(** * Tracy: a verification library of its wire protocol and trace server

    Tracy is the C++ part of the repository ([src/tracy/tracy]): a profiler the
    simulator embeds.  The instrumented program queues items; the client part
    ([public/client]) takes them off the queues, makes their times relative, puts the
    data they point to in front of them and sends frames of bytes; the server
    ([server]) reads the frames, event by event, and builds the trace.  Paths below
    are relative to [src/tracy/tracy].

    ** The parts and their files

    - [Prelude]: machine integers, the state-and-failure monad [M] with its weakest
      preconditions [wp], record updates, lists, tactics.
    - [Queue] ([public/common/TracyQueue.hpp], [TracyAlign.hpp]): the items, as
      layouts over bytes; [Wire] ([TracyProtocol.hpp], [Worker::DispatchProcess]):
      how events are delimited in a frame.
    - [Client] and [Dequeue] ([public/client/TracyProfiler.cpp]): the send buffer,
      the senders of payloads and the loops that drain the queues; [DequeueSpec]
      says when they run and that they are safe, and [DequeueItems], in bytes, what
      they send.  [ClientQuery] is the other direction: the queries
      of the server, and the jobs they make, with [AnswerSpec] and [TransferSpec].
    - [Event], [Trace] ([server/TracyEvent.hpp]): the packed records of the server
      and the other objects of a trace; [Double]: binary64 numbers.
    - [Containers], [Discovery] ([server/TracySortedVector.hpp], [TracyVector.hpp],
      [TracyThreadCompress.cpp], [TracyStringDiscovery.hpp]).
    - [Server] ([server/TracyWorker.cpp]): the state [W] of [Worker] and the services
      that handlers share, with their specifications in [ServerSpec].  One file per
      group of handlers follows, each with the files that say what it promises:
      [ServerZone] ([ZoneSpec], [ZoneForest]), [ServerLock] ([LockSpec],
      [LockRefine], [LockMarks]), [ServerMem] ([MemSpec], [MemRefine]),
      [ServerFrame] ([FrameSpec]), [ServerSection] ([SectionSpec]), [ServerPlot]
      ([PlotSpec]), [ServerMessage] ([MessageSpec]), [ServerGpu] ([GpuSpec],
      [GpuRefine]), [ServerCtx] ([CtxSpec]) and the counts of busy processors [CtxUsage]
      ([CtxUsageSpec]), [ServerCallstack] ([CallstackSpec]),
      [ServerSymbol], [ServerSample] ([GhostSpec], [GhostLoop]), [ServerImage]
      ([ImageSpec]).
      [Dispatch] puts them together: the switch over the types of events, the frames,
      the queries and the main loop of [Worker::Exec].  What every handler does to the
      whole state is shown with [Respect] (a relation between states that a handler
      respects), in [QuerySpec] and [Link].
    - Trace files: [TraceFile] ([server/TracyFileWrite.hpp], [TracyFileRead.hpp]),
      the blocks that a ring of compression streams writes and reads, with its
      promise in [FileSpec]; [Timeline] ([Worker::WriteTimeline] and
      [Worker::ReadTimeline]), the zones of a thread in such a file, with
      [TimelineSpec]; [MemFile] ([Worker::Write], the loading constructor,
      [Worker::ReconstructMemAllocPlot]), the memory pools and the plot that is rebuilt
      from them, with [MemPlot] (a plot is the drawing of a history, over the exact
      integers of [Exact]), [MemHistory] (the handlers extend the history),
      [MemFileSpec] and [MemTrace]; [LockFile], the locks, with [LockFileSpec].

    ** The model

    A member of a class is a field of a record with the name it has in the source, a
    member function is a definition in [M S A], which is a function from the state to
    its result and the next state or to nothing: a failed [assert], a null pointer
    that is followed, a container that is read out of range and a [double] that does
    not fit its integer give nothing.  Integers are in [Z], and every conversion and
    every addition of the source that can wrap is written with [uint] or [sint].
    Objects that are pointed to live in heaps: lists in which the position of an
    object is its address.  [wp m Q w] says that [m] gives a result from [w] and that
    [Q] holds of it, so every theorem below with a [wp] also says that no assertion
    fails.  Third-party code and what the source leaves open are parameters: the
    compressors ([FileSpec]), the disassembler, the files of the server, parallel
    sorting and the order of hash maps ([ServerSymbol], [ServerCallstack],
    [ServerSample], [ServerMem], [MemFile]).  Definitions recurse on their data or are
    folds; the loops whose recursion is not structural carry fuel, and the theorems are
    about the fuel the handlers themselves provide.

    ** What is shown

    - Client: what the loops append to the frames is a function of the items, given
      as bytes ([Dequeue_block_refines], [DequeueSerial_refines]), the frames are read back as
      those events in that order ([Dequeue_readable], [read_frame_encode]), the send
      buffer is never overrun and every payload is freed once.
    - Zones: the handlers keep the call forest of every thread, the source locations
      and the statistics of the zones; the protocol errors of a client are recognised.
    - Locks: the handlers accept the legal events of an abstract lock and keep its
      state; marks are found.  Memory: the handlers keep the map of the live blocks.
    - Frames, plots, messages: what arrives out of order is put in its place; names
      that are learned late merge what was recorded apart.  Frame images keep their looks
      ([AddFrameImageData_near]).  Sections: the order of
      arrival of entries and exits does not matter.
    - GPU zones: every timestamp reaches the zone that waits for it, whichever turn of
      the counter it belongs to.
    - Context switches: the regions of threads and processors follow each other, and
      running times are the sums of the regions.
    - Call stacks: equal stacks get one number, and the client is asked once for every
      address ([AddCallstackPayload_interns]).  Samples: the open ghost zones of a
      thread are the call stack of its last sample ([AddGhostZone_opens]), and the
      round over the samples that wait for frames ends
      ([HandlePostponedGhostZones_ends]).
    - Trace files: for every schedule of the worker threads the bytes that are read
      are those that were written, in whatever pieces ([trace_file_roundtrip]); a
      call tree that is saved and loaded is the same tree ([timeline_roundtrip]), and
      so are the memory pools ([memory_roundtrip]); the plot that is rebuilt from a
      loaded pool is the one that was drawn live ([ReconstructMemAllocPlot_redraws]),
      and the state of a lock after every event, which the file does not hold, is
      computed again as it was ([locks_roundtrip]).  The counts of busy processors are
      those of the slices at every time ([ReconstructContextSwitchUsage_counts]).
    - Client and server: after whatever the client sends, the reference times of both
      are the same ([Link]), so the server works with the times of the program.
    - Queries: the main loop sends every query that a handler asks for, in a bounded
      number of turns ([Exec_loop_sends_queries]); the client answers each of them once,
      in whatever order its threads work ([client_answers_once]); the names of source
      files arrive as they were sent ([QuerySourceFile_arrives]).
    - Packed records and containers: accessors, sorting and thread compression.

    ** Not modelled

    The simulator itself is Odin.  Not modelled of Tracy: its user interface, its
    command-line tools and bindings, its vendored libraries, sockets, threads and the
    interfaces of operating systems and GPUs; of the server, the other sections of
    trace files, the handshake, and the statistics that background threads
    compute.  Locks around shared state are
    not modelled: a handler runs alone. *)
From Stdlib Require Export ZArith Lia Bool.
From stdpp Require Export base list numbers option.
From stdpp Require Export gmap strings.
#[global] Set Default Goal Selector "!".
Open Scope Z_scope.

Declare Scope tracy_scope.
Delimit Scope tracy_scope with tracy.
Open Scope tracy_scope.

Create HintDb tracy.
Create HintDb bytes.
Create Rewrite HintDb bytes.
Create Rewrite HintDb tracy.

(** ** Machine integers

    A [w]-bit unsigned value is its representative in [0, 2^w); a signed one
    its representative in [-2^(w-1), 2^(w-1)).  [uint] and [sint] are the
    conversions of C++ ([uint32_t(x)], [int64_t(x)], ...), which wrap. *)
Definition uint (w : Z) (z : Z) : Z := z mod 2 ^ w.

Definition sint (w : Z) (z : Z) : Z :=
  let u := uint w z in if u <? 2 ^ (w - 1) then u else u - 2 ^ w.

Definition in_uint (w z : Z) : Prop := 0 <= z < 2 ^ w.
Definition in_sint (w z : Z) : Prop := - 2 ^ (w - 1) <= z < 2 ^ (w - 1).

Lemma pow2_pos (w : Z) : 0 <= w -> 0 < 2 ^ w.
Proof. intros; apply Z.pow_pos_nonneg; lia. Qed.

Lemma pow2_half (w : Z) : 0 < w -> 2 ^ w = 2 * 2 ^ (w - 1).
Proof. intros. rewrite <- Z.pow_succ_r by lia. f_equal; lia. Qed.

Lemma uint_range (w z : Z) : 0 <= w -> in_uint w (uint w z).
Proof. intros. apply Z.mod_pos_bound, pow2_pos; lia. Qed.

Lemma uint_small (w z : Z) : in_uint w z -> uint w z = z.
Proof. apply Z.mod_small. Qed.

Lemma uint_uint (w z : Z) : 0 <= w -> uint w (uint w z) = uint w z.
Proof. intros; apply uint_small, uint_range; lia. Qed.

Lemma sint_range (w z : Z) : 0 < w -> in_sint w (sint w z).
Proof.
  intros Hw. unfold in_sint, sint.
  pose proof (uint_range w z ltac:(lia)) as Hr; unfold in_uint in Hr.
  pose proof (pow2_half w Hw).
  destruct (Z.ltb_spec (uint w z) (2 ^ (w - 1))); lia.
Qed.

Lemma sint_small (w z : Z) : 0 < w -> in_sint w z -> sint w z = z.
Proof.
  intros Hw Hz. unfold sint, uint. red in Hz. pose proof (pow2_half w Hw).
  destruct (Z_lt_le_dec z 0).
  - replace (z mod 2 ^ w) with (z + 2 ^ w).
    + destruct (Z.ltb_spec (z + 2 ^ w) (2 ^ (w - 1))); lia.
    + rewrite <- (Z_mod_plus_full z 1), Z.mul_1_l, Z.mod_small; lia.
  - rewrite Z.mod_small by lia.
    destruct (Z.ltb_spec z (2 ^ (w - 1))); lia.
Qed.

(** The signed reading of a word depends only on the word. *)
Lemma sint_mod_eq (w a b : Z) : uint w a = uint w b -> sint w a = sint w b.
Proof. unfold sint. now intros ->. Qed.

Lemma uint_sint (w z : Z) : 0 < w -> uint w (sint w z) = uint w z.
Proof.
  intros Hw. unfold sint.
  destruct (uint w z <? 2 ^ (w - 1)).
  - apply uint_uint; lia.
  - unfold uint. rewrite <- (Z_mod_plus_full (_ - _) 1).
    rewrite Z.mul_1_l, Z.sub_add. apply uint_uint; lia.
Qed.

Lemma sint_uint (w z : Z) : 0 <= w -> sint w (uint w z) = sint w z.
Proof. intros; apply sint_mod_eq, uint_uint; lia. Qed.

Lemma sint_sint (w z : Z) : 0 < w -> sint w (sint w z) = sint w z.
Proof. intros; apply sint_mod_eq, uint_sint; lia. Qed.

(** Delta encoding of words: adding back the difference restores the word,
    whether or not the difference overflows. *)
Lemma sint_add_delta (w r t : Z) :
  0 < w -> sint w (r + sint w (t - r)) = sint w t.
Proof.
  intros Hw. apply sint_mod_eq. unfold uint.
  rewrite Zplus_mod. fold (uint w (sint w (t - r))).
  rewrite uint_sint by lia. unfold uint.
  rewrite <- Zplus_mod. f_equal; lia.
Qed.

(** Packing two fields in a word, and reading them back: the shifts and masks
    of the packed event structures as arithmetic. *)
Lemma lor_shiftl (b n a : Z) :
  0 <= n -> 0 <= a < 2 ^ n -> Z.lor (Z.shiftl b n) a = b * 2 ^ n + a.
Proof.
  intros Hn Ha. rewrite <- Z.shiftl_mul_pow2 by lia.
  assert (E : Z.land (Z.shiftl b n) a = 0).
  { apply Z.bits_inj'; intros i Hi. rewrite Z.land_spec, Z.bits_0.
    destruct (Z.ltb_spec i n).
    - now rewrite Z.shiftl_spec_low.
    - replace (Z.testbit a i) with false; [apply andb_false_r |].
      rewrite <- (Z.mod_small a (2 ^ n)) by lia. now rewrite Z.mod_pow2_bits_high by lia. }
  rewrite Z.add_nocarry_lxor by exact E. symmetry. now apply Z.lxor_lor.
Qed.

Lemma land_mask_high (a n k : Z) :
  0 <= n -> 0 <= k ->
  Z.land a (Z.shiftl (Z.ones k) n) = Z.shiftl (Z.land (Z.shiftr a n) (Z.ones k)) n.
Proof.
  intros Hn Hk. apply Z.bits_inj'; intros i Hi. rewrite Z.land_spec.
  destruct (Z.ltb_spec i n).
  - rewrite !Z.shiftl_spec_low by lia. apply andb_false_r.
  - rewrite !Z.shiftl_spec, Z.land_spec, Z.shiftr_spec by lia. do 2 f_equal. lia.
Qed.

(** [bits lo n w]: the [n] bits of [w] from bit [lo] on; [put lo n v w]: the word
    with these bits replaced by those of [v], as a [memcpy] of [n/8] bytes into
    the middle of [w] does. *)
Definition bits (lo n w : Z) : Z := (w / 2 ^ lo) mod 2 ^ n.
Definition put (lo n v w : Z) : Z :=
  w mod 2 ^ lo + 2 ^ lo * (v mod 2 ^ n) + 2 ^ (lo + n) * (w / 2 ^ (lo + n)).

Lemma bits_range lo n w : 0 <= n -> in_uint n (bits lo n w).
Proof. intros. apply uint_range; lia. Qed.

Lemma put_div lo n v w :
  0 <= lo -> 0 <= n -> put lo n v w / 2 ^ lo = v mod 2 ^ n + 2 ^ n * (w / 2 ^ (lo + n)).
Proof.
  intros Hlo Hn. unfold put. rewrite Z.pow_add_r by lia.
  pose proof (pow2_pos lo Hlo).
  replace (w mod 2 ^ lo + 2 ^ lo * (v mod 2 ^ n) + 2 ^ lo * 2 ^ n * (w / (2 ^ lo * 2 ^ n)))
    with ((v mod 2 ^ n + 2 ^ n * (w / (2 ^ lo * 2 ^ n))) * 2 ^ lo + w mod 2 ^ lo) by ring.
  rewrite Z.div_add_l by lia. rewrite (Z.div_small (w mod _)) by (apply Z.mod_pos_bound; lia).
  lia.
Qed.

Lemma bits_put lo n v w : 0 <= lo -> 0 <= n -> bits lo n (put lo n v w) = uint n v.
Proof.
  intros Hlo Hn. unfold bits. rewrite put_div by lia. pose proof (pow2_pos n Hn).
  rewrite Z.mul_comm, Z_mod_plus_full. apply Z.mod_mod. lia.
Qed.

(** The bits below and above the replaced ones. *)
Lemma bits_put_low lo n v w lo' n' :
  0 <= lo' -> 0 <= n' -> lo' + n' <= lo -> 0 <= n -> bits lo' n' (put lo n v w) = bits lo' n' w.
Proof.
  intros Hlo' Hn' Hle Hn. unfold bits.
  assert (E : forall x, (x / 2 ^ lo') mod 2 ^ n' = ((x mod 2 ^ lo) / 2 ^ lo') mod 2 ^ n').
  { intros x. replace lo with (lo' + (n' + (lo - lo' - n'))) by lia.
    rewrite (Z.pow_add_r 2 lo'), Z.rem_mul_r by (try apply pow2_pos; lia).
    rewrite Z.mul_comm, Z.div_add, (Z.div_small (x mod _))
      by (try apply Z.mod_pos_bound; pose proof (pow2_pos lo' Hlo'); lia).
    rewrite Z.add_0_l, Z.pow_add_r by lia.
    symmetry. apply Z.mod_mod_divide.
    now exists (2 ^ (lo - lo' - n')); rewrite Z.mul_comm. }
  rewrite E, (E w). do 2 f_equal. unfold put. rewrite Z.pow_add_r by lia.
  replace (w mod 2 ^ lo + 2 ^ lo * (v mod 2 ^ n) + 2 ^ lo * 2 ^ n * (w / (2 ^ lo * 2 ^ n)))
    with (w mod 2 ^ lo + (v mod 2 ^ n + 2 ^ n * (w / (2 ^ lo * 2 ^ n))) * 2 ^ lo) by ring.
  rewrite Z_mod_plus_full. apply Z.mod_mod. pose proof (pow2_pos lo). lia.
Qed.

Lemma bits_put_high lo n v w lo' n' :
  0 <= lo -> 0 <= n -> lo + n <= lo' -> bits lo' n' (put lo n v w) = bits lo' n' w.
Proof.
  intros Hlo Hn Hle. unfold bits. f_equal.
  replace lo' with (lo + (n + (lo' - lo - n))) by lia.
  rewrite !(Z.pow_add_r 2 lo), !(Z.pow_add_r 2 n) by lia.
  pose proof (pow2_pos lo Hlo). pose proof (pow2_pos n Hn).
  pose proof (pow2_pos (lo' - lo - n)).
  rewrite <- !Z.div_div by (try apply Z.mul_pos_pos; lia). rewrite put_div by lia.
  f_equal. rewrite Z.mul_comm, Z.div_add, (Z.div_small (v mod _)) by
    (try apply Z.mod_pos_bound; lia).
  rewrite Z.add_0_l, Z.pow_add_r, Z.div_div by lia. done.
Qed.

Lemma put_range lo n v w W :
  0 <= lo -> 0 <= n -> lo + n <= W -> in_uint W w -> in_uint W (put lo n v w).
Proof.
  intros Hlo Hn HW [Hw1 Hw2]. unfold in_uint, put.
  pose proof (Z.mod_pos_bound w (2 ^ lo) (pow2_pos lo Hlo)).
  pose proof (Z.mod_pos_bound v (2 ^ n) (pow2_pos n Hn)).
  pose proof (pow2_pos (lo + n)).
  assert (0 <= w / 2 ^ (lo + n)) by (apply Z.div_pos; lia).
  assert (w / 2 ^ (lo + n) < 2 ^ (W - lo - n)).
  { apply Z.div_lt_upper_bound; [lia |]. rewrite <- Z.pow_add_r by lia.
    replace (lo + n + (W - lo - n)) with W by lia. done. }
  assert (EW : 2 ^ W = 2 ^ (lo + n) * 2 ^ (W - lo - n))
    by (rewrite <- Z.pow_add_r by lia; f_equal; lia).
  assert (El : 2 ^ (lo + n) = 2 ^ lo * 2 ^ n) by (apply Z.pow_add_r; lia).
  assert (w mod 2 ^ lo + 2 ^ lo * (v mod 2 ^ n) < 2 ^ (lo + n)) by (rewrite El; nia).
  rewrite EW. nia.
Qed.

(** An arithmetic right shift of the word as a signed number reads its upper
    bits as a signed number. *)
Lemma shiftr_sint lo n w :
  0 <= lo -> 0 < n -> in_uint (lo + n) w ->
  Z.shiftr (sint (lo + n) w) lo = sint n (bits lo n w).
Proof.
  intros Hlo Hn Hw. rewrite Z.shiftr_div_pow2 by lia. unfold sint at 1.
  rewrite (uint_small (lo + n) w Hw). destruct Hw as [Hw1 Hw2].
  pose proof (pow2_pos lo Hlo). pose proof (pow2_half n Hn).
  pose proof (pow2_pos (n - 1) ltac:(lia)).
  rewrite Z.pow_add_r in Hw2 by lia.
  assert (Hd : 0 <= w / 2 ^ lo < 2 ^ n)
    by (split; [apply Z.div_pos; lia | apply Z.div_lt_upper_bound; lia]).
  assert (Eb : uint n (bits lo n w) = w / 2 ^ lo)
    by (unfold bits, uint; rewrite Z.mod_mod, Z.mod_small; lia).
  unfold sint. rewrite Eb.
  replace (2 ^ (lo + n - 1)) with (2 ^ lo * 2 ^ (n - 1)) by (rewrite <- Z.pow_add_r by lia; f_equal; lia).
  replace (2 ^ (lo + n)) with (2 ^ lo * 2 ^ n) by (rewrite <- Z.pow_add_r by lia; done).
  pose proof (Z.div_mod w (2 ^ lo) ltac:(lia)).
  pose proof (Z.mod_pos_bound w (2 ^ lo) ltac:(lia)).
  destruct (Z.ltb_spec w (2 ^ lo * 2 ^ (n - 1))), (Z.ltb_spec (w / 2 ^ lo) (2 ^ (n - 1)));
    [done | nia | nia |].
  replace (w - 2 ^ lo * 2 ^ n) with (w + (- 2 ^ n) * 2 ^ lo) by ring.
  rewrite Z.div_add by lia. lia.
Qed.

(** ** Bytes

    Memory is a list of bytes, each a [Z]; words are little-endian, as on
    every platform the program supports. *)
Fixpoint le_bytes (n : nat) (z : Z) : list Z :=
  match n with
  | O => []
  | S n => z mod 256 :: le_bytes n (z / 256)
  end.

Fixpoint le_val (bs : list Z) : Z :=
  match bs with
  | [] => 0
  | b :: bs => b + 256 * le_val bs
  end.

Definition byte_ok (b : Z) : Prop := 0 <= b < 256.

(** [rd off n m]: the [n]-byte word at [off]; [wr off n v m]: the memory after
    [memcpy( m+off, &v, n )]. *)
Definition rd (off n : nat) (m : list Z) : Z := le_val (take n (drop off m)).

Definition wr (off n : nat) (v : Z) (m : list Z) : list Z :=
  take off m ++ le_bytes n v ++ drop (off + n) m.

Lemma length_le_bytes n z : length (le_bytes n z) = n.
Proof. revert z; induction n; intros; simpl; auto. Qed.

Lemma le_bytes_ok n z : Forall byte_ok (le_bytes n z).
Proof.
  revert z; induction n; intros z; simpl; constructor; auto.
  red. apply Z.mod_pos_bound. lia.
Qed.

Lemma pow256 (n : nat) : 2 ^ (8 * Z.of_nat (S n)) = 256 * 2 ^ (8 * Z.of_nat n).
Proof.
  replace (8 * Z.of_nat (S n)) with (8 + 8 * Z.of_nat n) by lia.
  rewrite Z.pow_add_r by lia. reflexivity.
Qed.

Lemma le_val_bytes n z : le_val (le_bytes n z) = uint (8 * Z.of_nat n) z.
Proof.
  revert z; induction n; intros z.
  - simpl. unfold uint. now rewrite Z.mod_1_r.
  - cbn [le_bytes le_val]. rewrite IHn. unfold uint. rewrite pow256.
    rewrite Z.rem_mul_r by (try apply pow2_pos; lia). lia.
Qed.

Lemma le_val_range bs :
  Forall byte_ok bs -> 0 <= le_val bs < 2 ^ (8 * Z.of_nat (length bs)).
Proof.
  induction 1; [simpl; lia |].
  cbn [le_val length]. rewrite pow256. red in H. lia.
Qed.

Lemma le_bytes_val bs : Forall byte_ok bs -> le_bytes (length bs) (le_val bs) = bs.
Proof.
  induction 1 as [| b bs Hb Hbs IH]; [done |]. red in Hb.
  cbn [length le_bytes le_val].
  rewrite (Z.mul_comm 256), Z_mod_plus_full, Z.div_add, Z.mod_small, Z.div_small by lia.
  now rewrite Z.add_0_l, IH.
Qed.

Lemma length_wr off n v m :
  (off + n <= length m)%nat -> length (wr off n v m) = length m.
Proof.
  intros. unfold wr. rewrite !length_app, length_take, length_drop, length_le_bytes. lia.
Qed.

Lemma wr_ok off n v m : Forall byte_ok m -> Forall byte_ok (wr off n v m).
Proof.
  intros. unfold wr. rewrite !Forall_app.
  eauto using le_bytes_ok, Forall_take, Forall_drop.
Qed.

Lemma rd_range off n m :
  Forall byte_ok m -> 0 <= rd off n m < 2 ^ (8 * Z.of_nat n).
Proof.
  intros Hm. unfold rd.
  assert (Hf : Forall byte_ok (take n (drop off m))) by eauto using Forall_take, Forall_drop.
  pose proof (le_val_range _ Hf).
  assert (length (take n (drop off m)) <= n)%nat by (rewrite length_take; lia).
  assert (2 ^ (8 * Z.of_nat (length (take n (drop off m)))) <= 2 ^ (8 * Z.of_nat n))
    by (apply Z.pow_le_mono_r; lia).
  lia.
Qed.

Lemma rd_wr_same off n v m :
  (off + n <= length m)%nat -> rd off n (wr off n v m) = uint (8 * Z.of_nat n) v.
Proof.
  intros. unfold rd, wr.
  rewrite drop_app_length' by (rewrite length_take; lia).
  rewrite take_app_length' by (now rewrite length_le_bytes).
  apply le_val_bytes.
Qed.

Lemma take_wr off n v m k :
  (off + n <= length m)%nat -> (k <= off)%nat -> take k (wr off n v m) = take k m.
Proof.
  intros. unfold wr. rewrite take_app_le by (rewrite length_take; lia).
  rewrite take_take. f_equal. lia.
Qed.

Lemma drop_wr off n v m k :
  (off + n <= length m)%nat -> (off + n <= k)%nat -> drop k (wr off n v m) = drop k m.
Proof.
  intros. unfold wr.
  rewrite drop_app_ge by (rewrite length_take; lia).
  rewrite drop_app_ge by (rewrite length_take, length_le_bytes; lia).
  rewrite drop_drop, length_take, length_le_bytes. f_equal. lia.
Qed.

(** A read that does not overlap a write sees the old memory. *)
Lemma rd_wr_other off n v m off' n' :
  (off + n <= length m)%nat ->
  (off' + n' <= off \/ off + n <= off')%nat ->
  rd off' n' (wr off n v m) = rd off' n' m.
Proof.
  intros Hm [Hd | Hd]; unfold rd; f_equal.
  - rewrite !take_drop_commute. f_equal. apply take_wr; lia.
  - f_equal. apply drop_wr; lia.
Qed.

#[export] Hint Rewrite length_le_bytes le_val_bytes : bytes.
#[export] Hint Resolve wr_ok le_bytes_ok : bytes.

(** ** Field update

    [r <| p := v |>] is the record [r] with field [p] set to [v], and
    [r <| p ::= f |>] the one with [f] applied to it.  A record type opts in by
    an eta-expansion ([Eta]); the setter of a field is computed from it. *)
Class Eta (R : Type) := eta : R -> R.
Class FieldSet {R T : Type} (p : R -> T) := over : (T -> T) -> R -> R.
Arguments over {R T} p {_} f r : assert.

Ltac field_set R T p :=
  unfold FieldSet;
  let f := fresh "f" in
  let x := fresh "x" in
  intros f x;
  let e := constr:(eta (R := R)) in
  let b := eval hnf in (e x) in
  let b' := eval pattern (p x) in b in
  lazymatch b' with
  | ?g (p x) => let r := eval cbv beta in (g (f (p x))) in exact r
  end.

#[export] Hint Extern 1 (@FieldSet ?R ?T ?p) => field_set R T p : typeclass_instances.

Notation "r <| p ::= f |>" := (over p f r)
  (at level 1, left associativity, p at level 9, f at level 200,
   format "r  <|  p  ::=  f  |>") : tracy_scope.
Notation "r <| p := v |>" := (over p (fun _ => v) r)
  (at level 1, left associativity, p at level 9, v at level 200,
   format "r  <|  p  :=  v  |>") : tracy_scope.

(** ** Handlers

    A handler of the server is a state transformer that can stop: [None] is a
    violated [assert] (or the access through a missing map entry that the
    assertion excludes), after which the C++ program has no defined behaviour.
    [mret], [≫=] and the [x ← m; k] notation are stdpp's. *)
Definition M (S A : Type) : Type := S -> option (A * S).

#[export] Instance M_ret S : MRet (M S) := fun A a s => Some (a, s).
#[export] Instance M_bind S : MBind (M S) := fun A B k m s =>
  match m s with Some (a, s') => k a s' | None => None end.

Definition gets {S A} (f : S -> A) : M S A := fun s => Some (f s, s).
Definition modify {S} (f : S -> S) : M S unit := fun s => Some (tt, f s).
Definition assert_ {S} (b : bool) : M S unit := fun s => if b then Some (tt, s) else None.
Definition stop {S A} : M S A := fun _ => None.
Definition expect {S A} (o : option A) : M S A := fun s =>
  match o with Some a => Some (a, s) | None => None end.
Definition when {S} (b : bool) (m : M S unit) : M S unit := if b then m else mret tt.

(** [for_each l f]: the range-based [for] loop over a vector. *)
Fixpoint for_each {S A} (l : list A) (f : A -> M S unit) : M S unit :=
  match l with
  | [] => mret tt
  | a :: l => f a ;; for_each l f
  end.

(** [wlp m Q s]: if [m] runs to the end from [s], its result satisfies [Q];
    [wp m Q s]: it does run to the end, and its result satisfies [Q]. *)
Definition wlp {S A} (m : M S A) (Q : A -> S -> Prop) (s : S) : Prop :=
  match m s with Some (a, s') => Q a s' | None => True end.
Definition wp {S A} (m : M S A) (Q : A -> S -> Prop) (s : S) : Prop :=
  match m s with Some (a, s') => Q a s' | None => False end.

Section WP.
Context {S : Type}.
Implicit Types s : S.

Lemma wlp_ret {A} (a : A) Q s : Q a s -> wlp (mret a) Q s.
Proof. done. Qed.

Lemma wlp_bind {A B} (m : M S A) (k : A -> M S B) Q s :
  wlp m (fun a => wlp (k a) Q) s -> wlp (m ≫= k) Q s.
Proof. unfold wlp, mbind, M_bind. destruct (m s) as [[a s'] |]; auto. Qed.

Lemma wlp_gets {A} (f : S -> A) Q s : Q (f s) s -> wlp (gets f) Q s.
Proof. done. Qed.

Lemma wlp_modify (f : S -> S) Q s : Q tt (f s) -> wlp (modify f) Q s.
Proof. done. Qed.

Lemma wlp_assert b Q s : (b = true -> Q tt s) -> wlp (assert_ b) Q s.
Proof. destruct b; cbv; auto. Qed.

Lemma wlp_expect {A} (o : option A) Q s :
  (forall a, o = Some a -> Q a s) -> wlp (expect o) Q s.
Proof. destruct o; cbv; auto. Qed.

Lemma wlp_when b m (Q : unit -> S -> Prop) s :
  (b = true -> wlp m Q s) -> (b = false -> Q tt s) -> wlp (when b m) Q s.
Proof. intros Ht Hf. destruct b; [now apply Ht | apply wlp_ret; auto]. Qed.

Lemma wlp_if {A} (b : bool) (m1 m2 : M S A) Q s :
  (b = true -> wlp m1 Q s) -> (b = false -> wlp m2 Q s) ->
  wlp (if b then m1 else m2) Q s.
Proof. destruct b; auto. Qed.

Lemma wlp_mono {A} (m : M S A) (Q Q' : A -> S -> Prop) s :
  wlp m Q s -> (forall a s', Q a s' -> Q' a s') -> wlp m Q' s.
Proof. unfold wlp. destruct (m s) as [[a s'] |]; auto. Qed.

Lemma wlp_run {A} (m : M S A) Q s a s' : wlp m Q s -> m s = Some (a, s') -> Q a s'.
Proof. unfold wlp. intros H E. now rewrite E in H. Qed.

Lemma wp_ret {A} (a : A) (Q : A -> S -> Prop) s : Q a s -> wp (mret a) Q s.
Proof. done. Qed.

Lemma wp_bind {A B} (m : M S A) (k : A -> M S B) (Q : B -> S -> Prop) s :
  wp m (fun a => wp (k a) Q) s -> wp (m ≫= k) Q s.
Proof. unfold wp, mbind, M_bind. destruct (m s) as [[a s'] |]; auto. Qed.

Lemma wp_unbind {A B} (m : M S A) (k : A -> M S B) (Q : B -> S -> Prop) s :
  wp (m ≫= k) Q s -> wp m (fun a => wp (k a) Q) s.
Proof. unfold wp, mbind, M_bind. destruct (m s) as [[a s'] |]; auto. Qed.

Lemma wp_bind_assoc {A B C} (m : M S A) (k : B -> M S C) (n : A -> M S B) (Q : C -> S -> Prop) s :
  wp ((m ≫= n) ≫= k) Q s -> wp (m ≫= fun a => n a ≫= k) Q s.
Proof. unfold wp, mbind, M_bind. destruct (m s) as [[a s'] |]; auto. Qed.

Lemma wp_gets {A} (f : S -> A) (Q : A -> S -> Prop) s : Q (f s) s -> wp (gets f) Q s.
Proof. done. Qed.

Lemma wp_modify (f : S -> S) (Q : unit -> S -> Prop) s : Q tt (f s) -> wp (modify f) Q s.
Proof. done. Qed.

Lemma wp_assert b (Q : unit -> S -> Prop) s : b = true -> Q tt s -> wp (assert_ b) Q s.
Proof. intros ->. done. Qed.

Lemma wp_expect {A} (o : option A) a (Q : A -> S -> Prop) s :
  o = Some a -> Q a s -> wp (expect o) Q s.
Proof. intros ->. done. Qed.

Lemma wp_if {A} (b : bool) (m1 m2 : M S A) Q s :
  (b = true -> wp m1 Q s) -> (b = false -> wp m2 Q s) -> wp (if b then m1 else m2) Q s.
Proof. destruct b; auto. Qed.

Lemma wp_mono {A} (m : M S A) (Q Q' : A -> S -> Prop) s :
  wp m Q s -> (forall a s', Q a s' -> Q' a s') -> wp m Q' s.
Proof. unfold wp. destruct (m s) as [[a s'] |]; auto. Qed.

Lemma wp_wlp {A} (m : M S A) (Q : A -> S -> Prop) s : wp m Q s -> wlp m Q s.
Proof. unfold wp, wlp. destruct (m s) as [[a s'] |]; auto. Qed.

(** [outcome m Q F s]: [m] ends in a state of [Q], or an assertion fails and [F]
    holds. *)
Definition outcome {A} (m : M S A) (Q : A -> S -> Prop) (F : Prop) s : Prop :=
  match m s with Some (a, s') => Q a s' | None => F end.

Lemma outcome_bind {A B} (m : M S A) (k : A -> M S B) Q (F : Prop) s :
  outcome m (fun a => outcome (k a) Q F) F s -> outcome (m ≫= k) Q F s.
Proof. unfold outcome, mbind, M_bind. destruct (m s) as [[a s'] |]; auto. Qed.

Lemma outcome_wp {A} (m : M S A) Q (F : Prop) s : wp m Q s -> outcome m Q F s.
Proof. unfold wp, outcome. destruct (m s) as [[a s'] |]; [auto | done]. Qed.

Lemma outcome_expect {A} (o : option A) Q (F : Prop) s :
  (forall a, o = Some a -> Q a s) -> (o = None -> F) -> outcome (expect o) Q F s.
Proof. destruct o; cbv; auto. Qed.

Lemma outcome_mono {A} (m : M S A) (Q Q' : A -> S -> Prop) (F F' : Prop) s :
  outcome m Q F s -> (forall a s', Q a s' -> Q' a s') -> (F -> F') -> outcome m Q' F' s.
Proof. unfold outcome. destruct (m s) as [[a s'] |]; auto. Qed.

(** A handler that keeps an invariant whatever state it starts in. *)
Definition keeps (I : S -> Prop) {A} (m : M S A) : Prop :=
  forall s, I s -> wlp m (fun _ => I) s.

Lemma keeps_ret (I : S -> Prop) {A} (a : A) : keeps I (mret a).
Proof. intros s Hs; exact Hs. Qed.

Lemma keeps_bind (I : S -> Prop) {A B} (m : M S A) (k : A -> M S B) :
  keeps I m -> (forall a, keeps I (k a)) -> keeps I (m ≫= k).
Proof.
  intros Hm Hk s Hs. apply wlp_bind. eapply wlp_mono; [apply Hm, Hs |].
  intros a s' Hs'. apply Hk, Hs'.
Qed.

Lemma keeps_gets (I : S -> Prop) {A} (f : S -> A) : keeps I (gets f).
Proof. intros s Hs; exact Hs. Qed.

Lemma keeps_modify (I : S -> Prop) (f : S -> S) :
  (forall s, I s -> I (f s)) -> keeps I (modify f).
Proof. intros H s Hs; apply H, Hs. Qed.

Lemma keeps_assert (I : S -> Prop) b : keeps I (assert_ b).
Proof. intros s Hs. apply wlp_assert; auto. Qed.

Lemma keeps_expect (I : S -> Prop) {A} (o : option A) : keeps I (expect o).
Proof. intros s Hs. apply wlp_expect; auto. Qed.

Lemma keeps_stop (I : S -> Prop) {A} : keeps I (stop (A := A)).
Proof. intros s Hs; exact Logic.I. Qed.

Lemma keeps_when (I : S -> Prop) b m : keeps I m -> keeps I (when b m).
Proof. intros Hm. destruct b; [exact Hm | apply keeps_ret]. Qed.

Lemma keeps_for_each (I : S -> Prop) {A} (l : list A) f :
  (forall a, keeps I (f a)) -> keeps I (for_each l f).
Proof.
  intros H; induction l; simpl; [apply keeps_ret |].
  apply keeps_bind; auto.
Qed.
End WP.

Create HintDb keeps.
#[export] Hint Resolve keeps_ret keeps_gets keeps_assert keeps_expect keeps_stop : keeps.

(** [keeps_auto] reduces [keeps I m] to its component handlers (found in the
    [keeps] database) and its [modify]s. *)
Ltac keeps_step :=
  lazymatch goal with
  | |- forall _, _ => intro
  | |- keeps _ (_ ≫= _) => apply keeps_bind
  | |- keeps _ (when _ _) => apply keeps_when
  | |- keeps _ (for_each _ _) => apply keeps_for_each
  | |- keeps _ (match ?x with _ => _ end) => destruct x
  | |- keeps _ (let '_ := ?x in _) => destruct x
  | |- keeps _ _ => solve [auto with keeps]
  end.
Ltac keeps_auto := repeat keeps_step.

(** [wlp_step] takes one step of a handler; the result of a call is left to the
    lemma on the callee ([wlp_call]). *)
Ltac wlp_step :=
  lazymatch goal with
  | |- wlp (_ ≫= _) _ _ => apply wlp_bind
  | |- wlp (gets _) _ _ => apply wlp_gets
  | |- wlp (modify _) _ _ => apply wlp_modify
  | |- wlp (mret _) _ _ => apply wlp_ret
  | |- wlp (assert_ _) _ _ => apply wlp_assert; intros ?
  | |- wlp (expect _) _ _ => apply wlp_expect; intros ? ?
  | |- wlp stop _ _ => exact Logic.I
  end.
Ltac wlp_steps := repeat wlp_step.
Tactic Notation "wlp_call" uconstr(spec) := (eapply wlp_mono; [eapply spec |]).

(** The same for [wp]; the conditions of assertions are left as goals. *)
Ltac wp_step :=
  lazymatch goal with
  | |- wp (_ ≫= _) _ _ => apply wp_bind
  | |- wp (gets _) _ _ => apply wp_gets
  | |- wp (modify _) _ _ => apply wp_modify
  | |- wp (mret _) _ _ => apply wp_ret
  | |- wp (assert_ _) _ _ => apply wp_assert; [try solve [reflexivity | assumption | lia] |]
  end.
Ltac wp_steps := repeat wp_step.
Tactic Notation "wp_call" uconstr(spec) := (eapply wp_mono; [eapply spec |]).

(** A step of [outcome] that cannot fail, by the rules of [wp]. *)
Tactic Notation "oc_wp" := (apply outcome_bind, outcome_wp; wp_steps).

(** Boolean comparisons of integers in the context, as propositions. *)
Ltac zbool :=
  repeat match goal with
  | H : (_ <=? _) = true |- _ => apply Z.leb_le in H
  | H : (_ <=? _) = false |- _ => apply Z.leb_gt in H
  | H : (_ <? _) = true |- _ => apply Z.ltb_lt in H
  | H : (_ <? _) = false |- _ => apply Z.ltb_ge in H
  | H : (_ =? _) = true |- _ => apply Z.eqb_eq in H
  | H : (_ =? _) = false |- _ => apply Z.eqb_neq in H
  | H : negb _ = true |- _ => apply negb_true_iff in H
  | H : negb _ = false |- _ => apply negb_false_iff in H
  | H : (_ && _)%bool = true |- _ => apply andb_true_iff in H as [? ?]
  | H : (_ || _)%bool = false |- _ => apply orb_false_iff in H as [? ?]
  end.

(** ** Generic lemmas *)
Lemma lookup_insert_some `{Countable K} {A} (m : gmap K A) i j a b :
  <[i := a]> m !! j = Some b -> (i = j /\ a = b) \/ (i <> j /\ m !! j = Some b).
Proof. rewrite lookup_insert_Some. tauto. Qed.

Lemma Forall_snoc {A} (P : A -> Prop) l a : Forall P (l ++ [a]) <-> Forall P l /\ P a.
Proof. rewrite Forall_app, Forall_singleton. done. Qed.

Lemma last_snoc_inv {A} (l : list A) a : last l = Some a -> exists l', l = l' ++ [a].
Proof. intros Hl. apply last_Some in Hl. done. Qed.

(** [m.emplace( k, v )] of the C++ maps: an existing entry stays. *)
Definition emplace `{Countable K} {A} (k : K) (v : A) (m : gmap K A) : gmap K A :=
  match m !! k with Some _ => m | None => <[k := v]> m end.

Lemma emplace_fresh `{Countable K} {A} (k : K) (v : A) (m : gmap K A) :
  m !! k = None -> emplace k v m = <[k := v]> m.
Proof. unfold emplace. now intros ->. Qed.

Lemma lookup_emplace `{Countable K} {A} (k : K) (v : A) (m : gmap K A) :
  emplace k v m !! k = Some (default v (m !! k)).
Proof. unfold emplace. destruct (m !! k) eqn:E; [exact E | apply lookup_insert_eq]. Qed.

Lemma insert_emplace `{Countable K} {A} (k : K) (v v' : A) (m : gmap K A) :
  <[k := v']> (emplace k v m) = <[k := v']> m.
Proof. unfold emplace. destruct (m !! k); [done | apply insert_insert_eq]. Qed.

(** The last element of a vector replaced, as through [back()]. *)
Definition set_back {A} (a : A) (l : list A) : list A := removelast l ++ [a].

Lemma removelast_snoc {A} (l : list A) a : removelast (l ++ [a]) = l.
Proof. rewrite removelast_app by done. simpl. apply app_nil_r. Qed.
