(* ===== verification/Queue.v ===== *)
(** * Queue items: the structures of [public/common/TracyQueue.hpp]

    Every event the instrumented program reports is a [QueueItem]: a one-byte
    type and a union of packed structures.  The same bytes are kept in the
    client's queues, rewritten in place by the client's dequeue loops and sent
    over the wire, where the server reads them back through the structures.  An
    item is therefore its bytes, and a structure is a [layout] that gives each
    member its offset and type; [MemRead] and [MemWrite] are the accessors of
    the same name in [public/common/TracyAlign.hpp]. *)
From S2P Require Import Prelude.

(** ** Packed structures *)
Inductive ctype : Set :=
| U8 | U16 | U32 | U64 | I8 | I16 | I32 | I64 | F32 | F64 | Chars (n : nat).

Definition sizeof_type (t : ctype) : nat :=
  match t with
  | U8 | I8 => 1 | U16 | I16 => 2 | U32 | I32 | F32 => 4 | U64 | I64 | F64 => 8
  | Chars n => n
  end.

(** The value a member of type [t] takes when assigned [v]; floating-point and
    character members are their bit patterns. *)
Definition cast (t : ctype) (v : Z) : Z :=
  match t with
  | I8 => sint 8 v | I16 => sint 16 v | I32 => sint 32 v | I64 => sint 64 v
  | _ => uint (8 * Z.of_nat (sizeof_type t)) v
  end.

(** A packed structure: its members in order, those of the base class first. *)
Definition layout : Type := list (string * ctype).

Fixpoint sizeof (l : layout) : nat :=
  match l with [] => 0 | (_, t) :: l => sizeof_type t + sizeof l end.

Fixpoint offset_of (f : string) (l : layout) : option (nat * ctype) :=
  match l with
  | [] => None
  | (g, t) :: l =>
      if String.eqb f g then Some (O, t)
      else match offset_of f l with
           | Some (o, t') => Some (sizeof_type t + o, t')%nat
           | None => None
           end
  end.

(** The union of a [QueueItem] follows its one-byte header. *)
(* TracyQueue.hpp:849-856 QueueHeader *)
Definition sizeof_hdr : nat := 1.
Definition MemReadHdr (m : list Z) : Z := rd 0 sizeof_hdr m.
Definition MemWriteHdr (idx : Z) (m : list Z) : list Z := wr 0 sizeof_hdr idx m.

(* TracyAlign.hpp:11-17 *)
Definition MemRead (l : layout) (f : string) (m : list Z) : Z :=
  match offset_of f l with
  | Some (o, t) => cast t (rd (sizeof_hdr + o) (sizeof_type t) m)
  | None => 0
  end.

(* TracyAlign.hpp:19-24 *)
Definition MemWrite (l : layout) (f : string) (v : Z) (m : list Z) : list Z :=
  match offset_of f l with
  | Some (o, t) => wr (sizeof_hdr + o) (sizeof_type t) v m
  | None => m
  end.

(** ** The structures *)
Open Scope string_scope.
Open Scope list_scope.
Definition QueueThreadContext : layout := [("thread", U32)].
Definition QueueZoneBeginLean : layout := [("time", I64)].
Definition QueueZoneBegin : layout := QueueZoneBeginLean ++ [("srcloc", U64)].
Definition QueueZoneBeginThread : layout := QueueZoneBegin ++ [("thread", U32)].
Definition QueueZoneBegin32 : layout := [("time", U32); ("srcloc", U64)].
Definition QueueZoneBegin16 : layout := [("time", U16); ("srcloc", U64)].
Definition QueueZoneEnd : layout := [("time", I64)].
Definition QueueZoneEnd32 : layout := [("time", U32)].
Definition QueueZoneEnd16 : layout := [("time", U16)].
Definition QueueZoneEndThread : layout := QueueZoneEnd ++ [("thread", U32)].
Definition QueueZoneValidation : layout := [("id", U32)].
Definition QueueZoneValidationThread : layout := QueueZoneValidation ++ [("thread", U32)].
Definition QueueZoneColor : layout := [("b", U8); ("g", U8); ("r", U8)].
Definition QueueZoneColorThread : layout := QueueZoneColor ++ [("thread", U32)].
Definition QueueZoneValue : layout := [("value", U64)].
Definition QueueZoneValueThread : layout := QueueZoneValue ++ [("thread", U32)].
Definition QueueStringTransfer : layout := [("ptr", U64)].
Definition QueueFrameMark : layout := [("time", I64); ("name", U64)].
Definition QueueFrameVsync : layout := [("time", I64); ("id", U32)].
Definition QueueFrameImage : layout := [("frame", U32); ("w", U16); ("h", U16); ("flip", U8)].
Definition QueueFrameImageFat : layout := QueueFrameImage ++ [("image", U64)].
Definition QueueSourceLocation : layout :=
  [("name", U64); ("function", U64); ("file", U64); ("line", U32); ("b", U8); ("g", U8);
   ("r", U8)].
Definition QueueZoneTextFat : layout := [("text", U64); ("size", U16)].
Definition QueueZoneTextFatThread : layout := QueueZoneTextFat ++ [("thread", U32)].
Definition QueueLockAnnounce : layout :=
  [("id", U32); ("time", I64); ("lckloc", U64); ("type", U8)].
Definition QueueFiberEnter : layout :=
  [("time", I64); ("fiber", U64); ("thread", U32); ("groupHint", I32)].
Definition QueueFiberLeave : layout := [("time", I64); ("thread", U32)].
Definition QueueSectionEnter : layout := [("time", I64); ("id", U32); ("category", U16)].
Definition QueueSectionEnterFat : layout := QueueSectionEnter ++ [("text", U64); ("size", U16)].
Definition QueueSectionLeave : layout := [("time", I64); ("id", U32)].
Definition QueueSectionSetup : layout := [("category", U16)].
Definition QueueSectionSetupFat : layout := QueueSectionSetup ++ [("text", U64); ("size", U16)].
Definition QueueLockTerminate : layout := [("id", U32); ("time", I64)].
Definition QueueLockWait : layout := [("thread", U32); ("id", U32); ("time", I64)].
Definition QueueLockObtain : layout := [("thread", U32); ("id", U32); ("time", I64)].
Definition QueueLockRelease : layout := [("id", U32); ("time", I64)].
Definition QueueLockReleaseShared : layout := QueueLockRelease ++ [("thread", U32)].
Definition QueueLockMark : layout := [("thread", U32); ("id", U32); ("srcloc", U64)].
Definition QueueLockName : layout := [("id", U32)].
Definition QueueLockNameFat : layout := QueueLockName ++ [("name", U64); ("size", U16)].
Definition QueuePlotDataBase : layout := [("name", U64); ("time", I64)].
Definition QueuePlotDataInt : layout := QueuePlotDataBase ++ [("val", I64)].
Definition QueuePlotDataFloat : layout := QueuePlotDataBase ++ [("val", F32)].
Definition QueuePlotDataDouble : layout := QueuePlotDataBase ++ [("val", F64)].
Definition QueueMessage : layout := [("time", I64)].
Definition QueueMessageColor : layout := QueueMessage ++ [("b", U8); ("g", U8); ("r", U8)].
Definition QueueMessageMetadata : layout := QueueMessage ++ [("metadata", U8)].
Definition QueueMessageColorMetadata : layout := QueueMessageColor ++ [("metadata", U8)].
Definition QueueMessageLiteral : layout := QueueMessage ++ [("textAndMetadata", U64)].
Definition QueueMessageLiteralThread : layout := QueueMessageLiteral ++ [("thread", U32)].
Definition QueueMessageColorLiteral : layout := QueueMessageColor ++ [("textAndMetadata", U64)].
Definition QueueMessageColorLiteralThread : layout :=
  QueueMessageColorLiteral ++ [("thread", U32)].
Definition QueueMessageFat : layout :=
  QueueMessage ++ [("textAndMetadata", U64); ("size", U16)].
Definition QueueMessageFatThread : layout := QueueMessageFat ++ [("thread", U32)].
Definition QueueMessageColorFat : layout :=
  QueueMessageColor ++ [("textAndMetadata", U64); ("size", U16)].
Definition QueueMessageColorFatThread : layout := QueueMessageColorFat ++ [("thread", U32)].
Definition QueueGpuNewContext : layout :=
  [("cpuTime", I64); ("gpuTime", I64); ("thread", U32); ("period", F32); ("context", U8);
   ("flags", U8); ("type", U8)].
Definition QueueGpuZoneBeginLean : layout :=
  [("cpuTime", I64); ("thread", U32); ("queryId", U16); ("context", U8)].
Definition QueueGpuZoneBegin : layout := QueueGpuZoneBeginLean ++ [("srcloc", U64)].
Definition QueueGpuZoneEnd : layout :=
  [("cpuTime", I64); ("thread", U32); ("queryId", U16); ("context", U8)].
Definition QueueGpuZoneAnnotation : layout :=
  [("noteId", I64); ("value", F64); ("thread", U32); ("queryId", U16); ("context", U8)].
Definition QueueGpuTime : layout := [("gpuTime", I64); ("queryId", U16); ("context", U8)].
Definition QueueGpuCalibration : layout :=
  [("gpuTime", I64); ("cpuTime", I64); ("cpuDelta", I64); ("context", U8)].
Definition QueueGpuTimeSync : layout := [("gpuTime", I64); ("cpuTime", I64); ("context", U8)].
Definition QueueGpuContextName : layout := [("context", U8)].
Definition QueueGpuContextNameFat : layout :=
  QueueGpuContextName ++ [("ptr", U64); ("size", U16)].
Definition QueueGpuAnnotationName : layout := [("noteId", I64); ("context", U8)].
Definition QueueGpuAnnotationNameFat : layout :=
  QueueGpuAnnotationName ++ [("ptr", U64); ("size", U16)].
Definition QueueMemNamePayload : layout := [("name", U64)].
Definition QueueThreadGroupHint : layout := [("thread", U32); ("groupHint", I32)].
Definition QueueMemAlloc : layout :=
  [("time", I64); ("thread", U32); ("ptr", U64); ("size", Chars 6)].
Definition QueueMemFree : layout := [("time", I64); ("thread", U32); ("ptr", U64)].
Definition QueueMemDiscard : layout := [("time", I64); ("thread", U32); ("name", U64)].
Definition QueueCallstackFat : layout := [("ptr", U64)].
Definition QueueCallstackFatThread : layout := QueueCallstackFat ++ [("thread", U32)].
Definition QueueCallstackAllocFat : layout := [("ptr", U64); ("nativePtr", U64)].
Definition QueueCallstackAllocFatThread : layout := QueueCallstackAllocFat ++ [("thread", U32)].
Definition QueueCallstackSample : layout := [("thread", U32); ("time", I64)].
Definition QueueCallstackSampleFat : layout := QueueCallstackSample ++ [("ptr", U64)].
Definition QueueCallstackSample32 : layout := [("thread", U32); ("time", U32)].
Definition QueueCallstackSample16 : layout := [("thread", U32); ("time", U16)].
Definition QueueCallstackFrameSize : layout := [("ptr", U64); ("size", U8)].
Definition QueueCallstackFrameSizeFat : layout :=
  QueueCallstackFrameSize ++ [("data", U64); ("imageName", U64)].
Definition QueueCallstackFrame : layout := [("line", U32); ("symAddr", U64); ("symLen", U32)].
Definition QueueSymbolInformation : layout := [("line", U32); ("symAddr", U64)].
Definition QueueSymbolInformationFat : layout :=
  QueueSymbolInformation ++ [("fileString", U64); ("needFree", U8)].
Definition QueueCrashReport : layout := [("time", I64); ("text", U64)].
Definition QueueCrashReportThread : layout := [("thread", U32)].
Definition QueueSysTime : layout := [("time", I64); ("sysTime", F32)].
Definition QueueSysPower : layout := [("time", I64); ("delta", U64); ("name", U64)].
Definition QueueContextSwitch : layout :=
  [("time", I64); ("oldThread", U32); ("newThread", U32); ("cpu", U8);
   ("oldThreadWaitReason", U8); ("oldThreadState", U8); ("previousCState", U8);
   ("newThreadPriority", I8); ("oldThreadPriority", I8)].
Definition QueueThreadWakeup : layout :=
  [("time", I64); ("thread", U32); ("cpu", U8); ("adjustReason", I8);
   ("adjustIncrement", I8)].
Definition QueueTidToPid : layout := [("tid", U64); ("pid", U64)].
Definition QueueHwSample : layout := [("ip", U64); ("time", I64)].
Definition QueuePlotConfig : layout :=
  [("name", U64); ("type", U8); ("step", U8); ("fill", U8); ("color", U32)].
Definition QueueParamSetup : layout :=
  [("idx", U32); ("name", U64); ("type", U8); ("val", I32)].
Definition QueueSourceCodeNotAvailable : layout := [("id", U32)].
Definition QueueCpuTopology : layout :=
  [("package", U32); ("die", U32); ("core", U32); ("thread", U32)].
Definition QueueExternalNameMetadata : layout :=
  [("thread", U64); ("name", U64); ("threadName", U64)].
Definition QueueSymbolCodeMetadata : layout := [("symbol", U64); ("ptr", U64); ("size", U32)].
Definition QueueSourceCodeMetadata : layout := [("ptr", U64); ("size", U32); ("id", U32)].

(** The members of the anonymous union of [QueueItem]. *)
(* TracyQueue.hpp:858-964 QueueItem *)
Definition QueueItem_union : list (string * layout) :=
  [
   ("threadCtx", QueueThreadContext); ("zoneBegin", QueueZoneBegin);
   ("zoneBeginLean", QueueZoneBeginLean); ("zoneBeginThread", QueueZoneBeginThread);
   ("zoneBegin32", QueueZoneBegin32); ("zoneBegin16", QueueZoneBegin16);
   ("zoneEnd", QueueZoneEnd); ("zoneEnd32", QueueZoneEnd32); ("zoneEnd16", QueueZoneEnd16);
   ("zoneEndThread", QueueZoneEndThread); ("zoneValidation", QueueZoneValidation);
   ("zoneValidationThread", QueueZoneValidationThread); ("zoneColor", QueueZoneColor);
   ("zoneColorThread", QueueZoneColorThread); ("zoneValue", QueueZoneValue);
   ("zoneValueThread", QueueZoneValueThread); ("stringTransfer", QueueStringTransfer);
   ("frameMark", QueueFrameMark); ("frameVsync", QueueFrameVsync);
   ("frameImage", QueueFrameImage); ("frameImageFat", QueueFrameImageFat);
   ("srcloc", QueueSourceLocation); ("zoneTextFat", QueueZoneTextFat);
   ("zoneTextFatThread", QueueZoneTextFatThread); ("lockAnnounce", QueueLockAnnounce);
   ("lockTerminate", QueueLockTerminate); ("lockWait", QueueLockWait);
   ("lockObtain", QueueLockObtain); ("lockRelease", QueueLockRelease);
   ("lockReleaseShared", QueueLockReleaseShared); ("lockMark", QueueLockMark);
   ("lockName", QueueLockName); ("lockNameFat", QueueLockNameFat);
   ("plotDataInt", QueuePlotDataInt); ("plotDataFloat", QueuePlotDataFloat);
   ("plotDataDouble", QueuePlotDataDouble); ("message", QueueMessage);
   ("messageMetadata", QueueMessageMetadata); ("messageColor", QueueMessageColor);
   ("messageColorMetadata", QueueMessageColorMetadata);
   ("messageLiteral", QueueMessageLiteral);
   ("messageLiteralThread", QueueMessageLiteralThread);
   ("messageColorLiteral", QueueMessageColorLiteral);
   ("messageColorLiteralThread", QueueMessageColorLiteralThread);
   ("messageFat", QueueMessageFat); ("messageFatThread", QueueMessageFatThread);
   ("messageColorFat", QueueMessageColorFat);
   ("messageColorFatThread", QueueMessageColorFatThread);
   ("gpuNewContext", QueueGpuNewContext); ("gpuZoneBegin", QueueGpuZoneBegin);
   ("gpuZoneBeginLean", QueueGpuZoneBeginLean); ("gpuZoneEnd", QueueGpuZoneEnd);
   ("gpuTime", QueueGpuTime); ("gpuCalibration", QueueGpuCalibration);
   ("gpuTimeSync", QueueGpuTimeSync); ("gpuContextName", QueueGpuContextName);
   ("gpuContextNameFat", QueueGpuContextNameFat);
   ("gpuAnnotationName", QueueGpuAnnotationName);
   ("gpuAnnotationNameFat", QueueGpuAnnotationNameFat); ("memAlloc", QueueMemAlloc);
   ("memFree", QueueMemFree); ("memDiscard", QueueMemDiscard);
   ("memName", QueueMemNamePayload); ("threadGroupHint", QueueThreadGroupHint);
   ("callstackFat", QueueCallstackFat); ("callstackFatThread", QueueCallstackFatThread);
   ("callstackAllocFat", QueueCallstackAllocFat);
   ("callstackAllocFatThread", QueueCallstackAllocFatThread);
   ("callstackSample", QueueCallstackSample);
   ("callstackSampleFat", QueueCallstackSampleFat);
   ("callstackSample32", QueueCallstackSample32);
   ("callstackSample16", QueueCallstackSample16);
   ("callstackFrameSize", QueueCallstackFrameSize);
   ("callstackFrameSizeFat", QueueCallstackFrameSizeFat);
   ("callstackFrame", QueueCallstackFrame); ("symbolInformation", QueueSymbolInformation);
   ("symbolInformationFat", QueueSymbolInformationFat); ("crashReport", QueueCrashReport);
   ("crashReportThread", QueueCrashReportThread); ("sysTime", QueueSysTime);
   ("sysPower", QueueSysPower); ("contextSwitch", QueueContextSwitch);
   ("threadWakeup", QueueThreadWakeup); ("tidToPid", QueueTidToPid);
   ("hwSample", QueueHwSample); ("plotConfig", QueuePlotConfig);
   ("paramSetup", QueueParamSetup); ("cpuTopology", QueueCpuTopology);
   ("externalNameMetadata", QueueExternalNameMetadata);
   ("symbolCodeMetadata", QueueSymbolCodeMetadata);
   ("sourceCodeMetadata", QueueSourceCodeMetadata);
   ("sourceCodeNotAvailable", QueueSourceCodeNotAvailable);
   ("fiberEnter", QueueFiberEnter); ("fiberLeave", QueueFiberLeave);
   ("sectionEnter", QueueSectionEnter); ("sectionEnterFat", QueueSectionEnterFat);
   ("sectionLeave", QueueSectionLeave); ("sectionSetup", QueueSectionSetup);
   ("sectionSetupFat", QueueSectionSetupFat); ("zoneAnnotation", QueueGpuZoneAnnotation)].
Close Scope string_scope.

Definition sizeof_union (u : list (string * layout)) : nat :=
  foldr (fun p n => Nat.max (sizeof p.2) n) O u.

(* TracyQueue.hpp:968-968 *)
Definition QueueItemSize : nat := (sizeof_hdr + sizeof_union QueueItem_union)%nat.

(** ** Event types *)
Module QueueType.
(* TracyQueue.hpp:12-147 QueueType *)
Inductive t : Set :=
  | ZoneText | ZoneName | Message | MessageColor | MessageCallstack | MessageColorCallstack
  | MessageAppInfo | ZoneBeginAllocSrcLoc | ZoneBeginAllocSrcLocCallstack | CallstackSerial
  | Callstack | CallstackAlloc | CallstackSample | CallstackSample32 | CallstackSample16
  | CallstackSampleContextSwitch | CallstackSampleContextSwitch32
  | CallstackSampleContextSwitch16 | FrameImage | ZoneBegin | ZoneBegin32 | ZoneBegin16
  | ZoneBeginCallstack | ZoneBeginCallstack32 | ZoneBeginCallstack16 | ZoneEnd | ZoneEnd32
  | ZoneEnd16 | LockWait | LockObtain | LockRelease | LockSharedWait | LockSharedObtain
  | LockSharedRelease | LockName | MemAlloc | MemAllocNamed | MemFree | MemFreeNamed
  | MemAllocCallstack | MemAllocCallstackNamed | MemFreeCallstack | MemFreeCallstackNamed
  | MemDiscard | MemDiscardCallstack | GpuZoneBegin | GpuZoneBeginCallstack
  | GpuZoneBeginAllocSrcLoc | GpuZoneBeginAllocSrcLocCallstack | GpuZoneEnd
  | GpuZoneBeginSerial | GpuZoneBeginCallstackSerial | GpuZoneBeginAllocSrcLocSerial
  | GpuZoneBeginAllocSrcLocCallstackSerial | GpuZoneEndSerial | PlotDataInt | PlotDataFloat
  | PlotDataDouble | ContextSwitch | ThreadWakeup | GpuTime | GpuContextName
  | GpuAnnotationName | CallstackFrameSize | SymbolInformation | ExternalNameMetadata
  | SymbolCodeMetadata | SourceCodeMetadata | FiberEnter | FiberLeave | SectionEnter
  | SectionLeave | SectionSetup | Terminate | KeepAlive | ThreadContext | GpuCalibration
  | GpuTimeSync | Crash | CrashReport | ZoneValidation | ZoneColor | ZoneValue
  | FrameMarkMsg | FrameMarkMsgStart | FrameMarkMsgEnd | FrameVsync | SourceLocation
  | LockAnnounce | LockTerminate | LockMark | MessageLiteral | MessageLiteralColor
  | MessageLiteralCallstack | MessageLiteralColorCallstack | GpuNewContext | CallstackFrame
  | SysTimeReport | SysPowerReport | TidToPid | HwSampleCpuCycle
  | HwSampleInstructionRetired | HwSampleCacheReference | HwSampleCacheMiss
  | HwSampleBranchRetired | HwSampleBranchMiss | PlotConfig | ParamSetup
  | AckServerQueryNoop | AckSourceCodeNotAvailable | AckSymbolCodeNotAvailable
  | CpuTopology | SingleStringData | SecondStringData | SingleStringData8
  | SecondStringData8 | MemNamePayload | ThreadGroupHint | GpuZoneAnnotation | StringData
  | ThreadName | PlotName | SourceLocationPayload | CallstackPayload
  | CallstackAllocPayload | FrameName | FrameImageData | ExternalName | ExternalThreadName
  | SymbolCode | SourceCode | FiberName.

Definition all : list t :=
  [ZoneText; ZoneName; Message; MessageColor; MessageCallstack; MessageColorCallstack;
   MessageAppInfo; ZoneBeginAllocSrcLoc; ZoneBeginAllocSrcLocCallstack; CallstackSerial;
   Callstack; CallstackAlloc; CallstackSample; CallstackSample32; CallstackSample16;
   CallstackSampleContextSwitch; CallstackSampleContextSwitch32;
   CallstackSampleContextSwitch16; FrameImage; ZoneBegin; ZoneBegin32; ZoneBegin16;
   ZoneBeginCallstack; ZoneBeginCallstack32; ZoneBeginCallstack16; ZoneEnd; ZoneEnd32;
   ZoneEnd16; LockWait; LockObtain; LockRelease; LockSharedWait; LockSharedObtain;
   LockSharedRelease; LockName; MemAlloc; MemAllocNamed; MemFree; MemFreeNamed;
   MemAllocCallstack; MemAllocCallstackNamed; MemFreeCallstack; MemFreeCallstackNamed;
   MemDiscard; MemDiscardCallstack; GpuZoneBegin; GpuZoneBeginCallstack;
   GpuZoneBeginAllocSrcLoc; GpuZoneBeginAllocSrcLocCallstack; GpuZoneEnd;
   GpuZoneBeginSerial; GpuZoneBeginCallstackSerial; GpuZoneBeginAllocSrcLocSerial;
   GpuZoneBeginAllocSrcLocCallstackSerial; GpuZoneEndSerial; PlotDataInt; PlotDataFloat;
   PlotDataDouble; ContextSwitch; ThreadWakeup; GpuTime; GpuContextName; GpuAnnotationName;
   CallstackFrameSize; SymbolInformation; ExternalNameMetadata; SymbolCodeMetadata;
   SourceCodeMetadata; FiberEnter; FiberLeave; SectionEnter; SectionLeave; SectionSetup;
   Terminate; KeepAlive; ThreadContext; GpuCalibration; GpuTimeSync; Crash; CrashReport;
   ZoneValidation; ZoneColor; ZoneValue; FrameMarkMsg; FrameMarkMsgStart; FrameMarkMsgEnd;
   FrameVsync; SourceLocation; LockAnnounce; LockTerminate; LockMark; MessageLiteral;
   MessageLiteralColor; MessageLiteralCallstack; MessageLiteralColorCallstack;
   GpuNewContext; CallstackFrame; SysTimeReport; SysPowerReport; TidToPid;
   HwSampleCpuCycle; HwSampleInstructionRetired; HwSampleCacheReference; HwSampleCacheMiss;
   HwSampleBranchRetired; HwSampleBranchMiss; PlotConfig; ParamSetup; AckServerQueryNoop;
   AckSourceCodeNotAvailable; AckSymbolCodeNotAvailable; CpuTopology; SingleStringData;
   SecondStringData; SingleStringData8; SecondStringData8; MemNamePayload; ThreadGroupHint;
   GpuZoneAnnotation; StringData; ThreadName; PlotName; SourceLocationPayload;
   CallstackPayload; CallstackAllocPayload; FrameName; FrameImageData; ExternalName;
   ExternalThreadName; SymbolCode; SourceCode; FiberName].

Definition idx (q : t) : Z :=
  match q with
  | ZoneText => 0 | ZoneName => 1 | Message => 2 | MessageColor => 3
  | MessageCallstack => 4 | MessageColorCallstack => 5 | MessageAppInfo => 6
  | ZoneBeginAllocSrcLoc => 7 | ZoneBeginAllocSrcLocCallstack => 8 | CallstackSerial => 9
  | Callstack => 10 | CallstackAlloc => 11 | CallstackSample => 12
  | CallstackSample32 => 13 | CallstackSample16 => 14 | CallstackSampleContextSwitch => 15
  | CallstackSampleContextSwitch32 => 16 | CallstackSampleContextSwitch16 => 17
  | FrameImage => 18 | ZoneBegin => 19 | ZoneBegin32 => 20 | ZoneBegin16 => 21
  | ZoneBeginCallstack => 22 | ZoneBeginCallstack32 => 23 | ZoneBeginCallstack16 => 24
  | ZoneEnd => 25 | ZoneEnd32 => 26 | ZoneEnd16 => 27 | LockWait => 28 | LockObtain => 29
  | LockRelease => 30 | LockSharedWait => 31 | LockSharedObtain => 32
  | LockSharedRelease => 33 | LockName => 34 | MemAlloc => 35 | MemAllocNamed => 36
  | MemFree => 37 | MemFreeNamed => 38 | MemAllocCallstack => 39
  | MemAllocCallstackNamed => 40 | MemFreeCallstack => 41 | MemFreeCallstackNamed => 42
  | MemDiscard => 43 | MemDiscardCallstack => 44 | GpuZoneBegin => 45
  | GpuZoneBeginCallstack => 46 | GpuZoneBeginAllocSrcLoc => 47
  | GpuZoneBeginAllocSrcLocCallstack => 48 | GpuZoneEnd => 49 | GpuZoneBeginSerial => 50
  | GpuZoneBeginCallstackSerial => 51 | GpuZoneBeginAllocSrcLocSerial => 52
  | GpuZoneBeginAllocSrcLocCallstackSerial => 53 | GpuZoneEndSerial => 54
  | PlotDataInt => 55 | PlotDataFloat => 56 | PlotDataDouble => 57 | ContextSwitch => 58
  | ThreadWakeup => 59 | GpuTime => 60 | GpuContextName => 61 | GpuAnnotationName => 62
  | CallstackFrameSize => 63 | SymbolInformation => 64 | ExternalNameMetadata => 65
  | SymbolCodeMetadata => 66 | SourceCodeMetadata => 67 | FiberEnter => 68
  | FiberLeave => 69 | SectionEnter => 70 | SectionLeave => 71 | SectionSetup => 72
  | Terminate => 73 | KeepAlive => 74 | ThreadContext => 75 | GpuCalibration => 76
  | GpuTimeSync => 77 | Crash => 78 | CrashReport => 79 | ZoneValidation => 80
  | ZoneColor => 81 | ZoneValue => 82 | FrameMarkMsg => 83 | FrameMarkMsgStart => 84
  | FrameMarkMsgEnd => 85 | FrameVsync => 86 | SourceLocation => 87 | LockAnnounce => 88
  | LockTerminate => 89 | LockMark => 90 | MessageLiteral => 91 | MessageLiteralColor => 92
  | MessageLiteralCallstack => 93 | MessageLiteralColorCallstack => 94
  | GpuNewContext => 95 | CallstackFrame => 96 | SysTimeReport => 97 | SysPowerReport => 98
  | TidToPid => 99 | HwSampleCpuCycle => 100 | HwSampleInstructionRetired => 101
  | HwSampleCacheReference => 102 | HwSampleCacheMiss => 103 | HwSampleBranchRetired => 104
  | HwSampleBranchMiss => 105 | PlotConfig => 106 | ParamSetup => 107
  | AckServerQueryNoop => 108 | AckSourceCodeNotAvailable => 109
  | AckSymbolCodeNotAvailable => 110 | CpuTopology => 111 | SingleStringData => 112
  | SecondStringData => 113 | SingleStringData8 => 114 | SecondStringData8 => 115
  | MemNamePayload => 116 | ThreadGroupHint => 117 | GpuZoneAnnotation => 118
  | StringData => 119 | ThreadName => 120 | PlotName => 121 | SourceLocationPayload => 122
  | CallstackPayload => 123 | CallstackAllocPayload => 124 | FrameName => 125
  | FrameImageData => 126 | ExternalName => 127 | ExternalThreadName => 128
  | SymbolCode => 129 | SourceCode => 130 | FiberName => 131
  end.

(* TracyQueue.hpp:146-146 *)
Definition NUM_TYPES : nat := 132.

(** [(QueueType)idx] *)
Definition of_idx (i : Z) : option t :=
  if i <? 0 then None else all !! Z.to_nat i.

Lemma of_idx_idx (q : t) : of_idx (idx q) = Some q.
Proof. destruct q; reflexivity. Qed.

Lemma idx_inj (p q : t) : idx p = idx q -> p = q.
Proof.
  intros H. pose proof (of_idx_idx p) as Hp.
  rewrite H, of_idx_idx in Hp. congruence.
Qed.

#[global] Instance eq_dec : EqDecision t.
Proof.
  intros p q. destruct (decide (idx p = idx q)) as [e | n].
  - left. now apply idx_inj.
  - right. congruence.
Defined.

Definition eqb (p q : t) : bool := idx p =? idx q.

Lemma eqb_eq (p q : t) : eqb p q = true <-> p = q.
Proof. unfold eqb. rewrite Z.eqb_eq. split; [apply idx_inj | congruence]. Qed.

Lemma idx_range (q : t) : 0 <= idx q < Z.of_nat NUM_TYPES.
Proof. destruct q; split; first [discriminate | reflexivity]. Qed.
End QueueType.

(** The number of bytes of an item of each type that go over the wire. *)
(* TracyQueue.hpp:970-1105 *)
Definition QueueDataSize : list nat :=
  [
   sizeof_hdr; sizeof_hdr; sizeof_hdr + sizeof QueueMessageMetadata;
   sizeof_hdr + sizeof QueueMessageColorMetadata; sizeof_hdr + sizeof QueueMessageMetadata;
   sizeof_hdr + sizeof QueueMessageColorMetadata; sizeof_hdr + sizeof QueueMessage;
   sizeof_hdr + sizeof QueueZoneBeginLean; sizeof_hdr + sizeof QueueZoneBeginLean;
   sizeof_hdr; sizeof_hdr; sizeof_hdr; sizeof_hdr + sizeof QueueCallstackSample;
   sizeof_hdr + sizeof QueueCallstackSample32; sizeof_hdr + sizeof QueueCallstackSample16;
   sizeof_hdr + sizeof QueueCallstackSample; sizeof_hdr + sizeof QueueCallstackSample32;
   sizeof_hdr + sizeof QueueCallstackSample16; sizeof_hdr + sizeof QueueFrameImage;
   sizeof_hdr + sizeof QueueZoneBegin; sizeof_hdr + sizeof QueueZoneBegin32;
   sizeof_hdr + sizeof QueueZoneBegin16; sizeof_hdr + sizeof QueueZoneBegin;
   sizeof_hdr + sizeof QueueZoneBegin32; sizeof_hdr + sizeof QueueZoneBegin16;
   sizeof_hdr + sizeof QueueZoneEnd; sizeof_hdr + sizeof QueueZoneEnd32;
   sizeof_hdr + sizeof QueueZoneEnd16; sizeof_hdr + sizeof QueueLockWait;
   sizeof_hdr + sizeof QueueLockObtain; sizeof_hdr + sizeof QueueLockRelease;
   sizeof_hdr + sizeof QueueLockWait; sizeof_hdr + sizeof QueueLockObtain;
   sizeof_hdr + sizeof QueueLockReleaseShared; sizeof_hdr + sizeof QueueLockName;
   sizeof_hdr + sizeof QueueMemAlloc; sizeof_hdr + sizeof QueueMemAlloc;
   sizeof_hdr + sizeof QueueMemFree; sizeof_hdr + sizeof QueueMemFree;
   sizeof_hdr + sizeof QueueMemAlloc; sizeof_hdr + sizeof QueueMemAlloc;
   sizeof_hdr + sizeof QueueMemFree; sizeof_hdr + sizeof QueueMemFree;
   sizeof_hdr + sizeof QueueMemDiscard; sizeof_hdr + sizeof QueueMemDiscard;
   sizeof_hdr + sizeof QueueGpuZoneBegin; sizeof_hdr + sizeof QueueGpuZoneBegin;
   sizeof_hdr + sizeof QueueGpuZoneBeginLean; sizeof_hdr + sizeof QueueGpuZoneBeginLean;
   sizeof_hdr + sizeof QueueGpuZoneEnd; sizeof_hdr + sizeof QueueGpuZoneBegin;
   sizeof_hdr + sizeof QueueGpuZoneBegin; sizeof_hdr + sizeof QueueGpuZoneBeginLean;
   sizeof_hdr + sizeof QueueGpuZoneBeginLean; sizeof_hdr + sizeof QueueGpuZoneEnd;
   sizeof_hdr + sizeof QueuePlotDataInt; sizeof_hdr + sizeof QueuePlotDataFloat;
   sizeof_hdr + sizeof QueuePlotDataDouble; sizeof_hdr + sizeof QueueContextSwitch;
   sizeof_hdr + sizeof QueueThreadWakeup; sizeof_hdr + sizeof QueueGpuTime;
   sizeof_hdr + sizeof QueueGpuContextName; sizeof_hdr + sizeof QueueGpuAnnotationName;
   sizeof_hdr + sizeof QueueCallstackFrameSize; sizeof_hdr + sizeof QueueSymbolInformation;
   sizeof_hdr; sizeof_hdr; sizeof_hdr; sizeof_hdr + sizeof QueueFiberEnter;
   sizeof_hdr + sizeof QueueFiberLeave; sizeof_hdr + sizeof QueueSectionEnter;
   sizeof_hdr + sizeof QueueSectionLeave; sizeof_hdr + sizeof QueueSectionSetup;
   sizeof_hdr; sizeof_hdr; sizeof_hdr + sizeof QueueThreadContext;
   sizeof_hdr + sizeof QueueGpuCalibration; sizeof_hdr + sizeof QueueGpuTimeSync;
   sizeof_hdr; sizeof_hdr + sizeof QueueCrashReport;
   sizeof_hdr + sizeof QueueZoneValidation; sizeof_hdr + sizeof QueueZoneColor;
   sizeof_hdr + sizeof QueueZoneValue; sizeof_hdr + sizeof QueueFrameMark;
   sizeof_hdr + sizeof QueueFrameMark; sizeof_hdr + sizeof QueueFrameMark;
   sizeof_hdr + sizeof QueueFrameVsync; sizeof_hdr + sizeof QueueSourceLocation;
   sizeof_hdr + sizeof QueueLockAnnounce; sizeof_hdr + sizeof QueueLockTerminate;
   sizeof_hdr + sizeof QueueLockMark; sizeof_hdr + sizeof QueueMessageLiteral;
   sizeof_hdr + sizeof QueueMessageColorLiteral; sizeof_hdr + sizeof QueueMessageLiteral;
   sizeof_hdr + sizeof QueueMessageColorLiteral; sizeof_hdr + sizeof QueueGpuNewContext;
   sizeof_hdr + sizeof QueueCallstackFrame; sizeof_hdr + sizeof QueueSysTime;
   sizeof_hdr + sizeof QueueSysPower; sizeof_hdr + sizeof QueueTidToPid;
   sizeof_hdr + sizeof QueueHwSample; sizeof_hdr + sizeof QueueHwSample;
   sizeof_hdr + sizeof QueueHwSample; sizeof_hdr + sizeof QueueHwSample;
   sizeof_hdr + sizeof QueueHwSample; sizeof_hdr + sizeof QueueHwSample;
   sizeof_hdr + sizeof QueuePlotConfig; sizeof_hdr + sizeof QueueParamSetup; sizeof_hdr;
   sizeof_hdr + sizeof QueueSourceCodeNotAvailable; sizeof_hdr;
   sizeof_hdr + sizeof QueueCpuTopology; sizeof_hdr; sizeof_hdr; sizeof_hdr; sizeof_hdr;
   sizeof_hdr + sizeof QueueMemNamePayload; sizeof_hdr + sizeof QueueThreadGroupHint;
   sizeof_hdr + sizeof QueueGpuZoneAnnotation; sizeof_hdr + sizeof QueueStringTransfer;
   sizeof_hdr + sizeof QueueStringTransfer; sizeof_hdr + sizeof QueueStringTransfer;
   sizeof_hdr + sizeof QueueStringTransfer; sizeof_hdr + sizeof QueueStringTransfer;
   sizeof_hdr + sizeof QueueStringTransfer; sizeof_hdr + sizeof QueueStringTransfer;
   sizeof_hdr + sizeof QueueStringTransfer; sizeof_hdr + sizeof QueueStringTransfer;
   sizeof_hdr + sizeof QueueStringTransfer; sizeof_hdr + sizeof QueueStringTransfer;
   sizeof_hdr + sizeof QueueStringTransfer; sizeof_hdr + sizeof QueueStringTransfer]%nat.

Definition QueueDataSize_at (idx : Z) : nat := nth (Z.to_nat idx) QueueDataSize O.

(** ** Message metadata and tagged addresses *)
Module MessageSourceType.
(* TracyQueue.hpp:415-420 MessageSourceType *)
Inductive t : Set := User | Tracy.
Definition COUNT : Z := 2.
Definition to_Z (s : t) : Z := match s with User => 0 | Tracy => 1 end.
Definition of_Z (z : Z) : option t :=
  match z with 0 => Some User | 1 => Some Tracy | _ => None end.
End MessageSourceType.

Module MessageSeverity.
(* TracyQueue.hpp:422-431 MessageSeverity *)
Inductive t : Set := Trace | Debug | Info | Warning | Error | Fatal.
Definition COUNT : Z := 6.
Definition to_Z (s : t) : Z :=
  match s with Trace => 0 | Debug => 1 | Info => 2 | Warning => 3 | Error => 4 | Fatal => 5 end.
Definition of_Z (z : Z) : option t :=
  match z with
  | 0 => Some Trace | 1 => Some Debug | 2 => Some Info
  | 3 => Some Warning | 4 => Some Error | 5 => Some Fatal | _ => None
  end.
End MessageSeverity.

(* TracyQueue.hpp:433-438 *)
Definition MakeMessageMetadata (source : MessageSourceType.t) (severity : MessageSeverity.t) : Z :=
  uint 8 (Z.lor (Z.shiftl (MessageSeverity.to_Z severity) 4) (MessageSourceType.to_Z source)).

(** [None]: the assertion on the range of the enumeration fails. *)
(* TracyQueue.hpp:440-444 *)
Definition MessageSourceFromMetadata (metadata : Z) : option MessageSourceType.t :=
  MessageSourceType.of_Z (Z.land metadata 15).
(* TracyQueue.hpp:446-450 *)
Definition MessageSeverityFromMetadata (metadata : Z) : option MessageSeverity.t :=
  MessageSeverity.of_Z (Z.shiftr (Z.land metadata 240) 4).

(** [TaggedUserlandAddress]: a 56-bit address with an 8-bit tag below it. *)
Module TaggedUserlandAddress.
(* TracyTaggedUserlandAddress.hpp:14-14 *)
Definition ptrShift : Z := 8.
(* TracyTaggedUserlandAddress.hpp:15-15 *)
Definition highBits : Z := 0xFF00000000000000.
(* TracyTaggedUserlandAddress.hpp:19-23 TaggedUserlandAddress *)
Definition make (address tag : Z) : option Z :=
  if Z.land address highBits =? 0 then Some (Z.lor (uint 64 (Z.shiftl address ptrShift)) tag)
  else None.
(* TracyTaggedUserlandAddress.hpp:25-25 *)
Definition GetAddress (storage : Z) : Z := Z.shiftr storage ptrShift.
(* TracyTaggedUserlandAddress.hpp:26-26 *)
Definition GetTag (storage : Z) : Z := uint 8 (Z.land storage 255).
End TaggedUserlandAddress.

(** ** Sizes *)
Lemma QueueItemSize_32 : QueueItemSize = 32%nat.
Proof. reflexivity. Qed.

(** The compile-time contract of the item tables: an item is 32 bytes,
    every type has an entry in [QueueDataSize], the entry holds the header and
    fits the item, and the types from [StringData] on, which the server reads
    as string transfers, are exactly a header and a 64-bit pointer. *)
Theorem queue_sizes :
  QueueItemSize = 32%nat /\ length QueueDataSize = QueueType.NUM_TYPES /\
  (forall q, (sizeof_hdr <= QueueDataSize_at (QueueType.idx q) <= QueueItemSize)%nat) /\
  (forall q, QueueType.idx QueueType.StringData <= QueueType.idx q ->
     QueueDataSize_at (QueueType.idx q) = (sizeof_hdr + sizeof QueueStringTransfer)%nat).
Proof.
  repeat split.
  1,2: destruct q; vm_compute; lia.
  intros q; destruct q; intros H; first [reflexivity | now elim H].
Qed.

(** ** Access laws *)
Lemma offset_of_bound f l o t :
  offset_of f l = Some (o, t) -> (o + sizeof_type t <= sizeof l)%nat.
Proof.
  revert o; induction l as [| [g u] l IH]; simpl; [done |]; intros o H.
  destruct (String.eqb f g); [simplify_eq; lia |].
  destruct (offset_of f l) as [[o' t'] |] eqn:E; [| done].
  simplify_eq. specialize (IH _ eq_refl). lia.
Qed.

Lemma offset_of_disjoint f g l o t o' t' :
  f <> g -> offset_of f l = Some (o, t) -> offset_of g l = Some (o', t') ->
  (o' + sizeof_type t' <= o \/ o + sizeof_type t <= o')%nat.
Proof.
  intros Hfg. revert o o'; induction l as [| [h u] l IH]; simpl; [done |]; intros o o' H H'.
  destruct (String.eqb_spec f h) as [-> | Hf]; destruct (String.eqb_spec g h) as [-> | Hg];
    [done | | |].
  - destruct (offset_of g l) as [[] |] eqn:E; [| done]. simplify_eq. right; lia.
  - destruct (offset_of f l) as [[] |] eqn:E; [| done]. simplify_eq. left; lia.
  - destruct (offset_of f l) as [[] |] eqn:E; [| done].
    destruct (offset_of g l) as [[] |] eqn:E'; [| done]. simplify_eq.
    destruct (IH _ _ eq_refl eq_refl); lia.
Qed.

Lemma cast_uint t v : cast t (uint (8 * Z.of_nat (sizeof_type t)) v) = cast t v.
Proof. destruct t; cbn [cast sizeof_type]; first [apply sint_uint; lia | apply uint_uint; lia]. Qed.

Lemma length_MemWrite l f v m :
  (sizeof_hdr + sizeof l <= length m)%nat -> length (MemWrite l f v m) = length m.
Proof.
  intros Hm. unfold MemWrite. destruct (offset_of f l) as [[o t] |] eqn:E; [| done].
  apply offset_of_bound in E. apply length_wr. lia.
Qed.

Lemma length_MemWriteHdr idx m :
  (sizeof_hdr <= length m)%nat -> length (MemWriteHdr idx m) = length m.
Proof. intros. apply length_wr. unfold sizeof_hdr in *; lia. Qed.

Lemma MemWrite_ok l f v m : Forall byte_ok m -> Forall byte_ok (MemWrite l f v m).
Proof. unfold MemWrite. destruct (offset_of f l) as [[] |]; auto with bytes. Qed.

Lemma MemWriteHdr_ok idx m : Forall byte_ok m -> Forall byte_ok (MemWriteHdr idx m).
Proof. unfold MemWriteHdr; auto with bytes. Qed.

Lemma MemRead_write_same l f o t v m :
  offset_of f l = Some (o, t) -> (sizeof_hdr + sizeof l <= length m)%nat ->
  MemRead l f (MemWrite l f v m) = cast t v.
Proof.
  intros E Hm. unfold MemRead, MemWrite. rewrite E. apply offset_of_bound in E.
  rewrite rd_wr_same by lia. apply cast_uint.
Qed.

Lemma MemRead_write_other l f g v m :
  f <> g -> (sizeof_hdr + sizeof l <= length m)%nat ->
  MemRead l g (MemWrite l f v m) = MemRead l g m.
Proof.
  intros Hfg Hm. unfold MemRead, MemWrite.
  destruct (offset_of f l) as [[o t] |] eqn:E; [| done].
  destruct (offset_of g l) as [[o' t'] |] eqn:E'; [| done].
  pose proof (offset_of_disjoint _ _ _ _ _ _ _ Hfg E E').
  apply offset_of_bound in E. rewrite rd_wr_other by lia. done.
Qed.

Lemma MemReadHdr_write l f v m :
  (sizeof_hdr + sizeof l <= length m)%nat -> MemReadHdr (MemWrite l f v m) = MemReadHdr m.
Proof.
  intros Hm. unfold MemReadHdr, MemWrite.
  destruct (offset_of f l) as [[o t] |] eqn:E; [| done].
  apply offset_of_bound in E. apply rd_wr_other; unfold sizeof_hdr in *; lia.
Qed.

Lemma MemReadHdr_writeHdr idx m :
  (sizeof_hdr <= length m)%nat -> MemReadHdr (MemWriteHdr idx m) = uint 8 idx.
Proof. intros. apply (rd_wr_same 0 1); unfold sizeof_hdr in *; lia. Qed.

Lemma MemRead_writeHdr l f idx m :
  (sizeof_hdr <= length m)%nat -> MemRead l f (MemWriteHdr idx m) = MemRead l f m.
Proof.
  intros. unfold MemRead, MemWriteHdr. destruct (offset_of f l) as [[o t] |]; [| done].
  rewrite rd_wr_other; unfold sizeof_hdr in *; [done | lia | lia].
Qed.

(** Writing a member of a packed structure in an item stores the
    value converted to the member's type, and changes no other member, not the
    header, and not the size of the item. *)
Theorem MemWrite_spec (l : layout) (f : string) (o : nat) (t : ctype) (v : Z) (m : list Z) :
  offset_of f l = Some (o, t) -> (sizeof_hdr + sizeof l <= length m)%nat ->
  MemRead l f (MemWrite l f v m) = cast t v /\
  (forall g, g <> f -> MemRead l g (MemWrite l f v m) = MemRead l g m) /\
  MemReadHdr (MemWrite l f v m) = MemReadHdr m /\
  length (MemWrite l f v m) = length m.
Proof.
  intros E Hm. repeat split.
  - eapply MemRead_write_same; eauto.
  - intros g Hg. apply MemRead_write_other; auto.
  - now apply MemReadHdr_write.
  - now apply length_MemWrite.
Qed.

Lemma MemWrite_spec_witness :
  MemRead QueueLockWait "time" (MemWrite QueueLockWait "time" (-5) (repeat 7 32)) = -5.
Proof.
  apply (MemWrite_spec QueueLockWait "time" 8 I64 (-5) (repeat 7 32)).
  - reflexivity.
  - vm_compute. lia.
Defined.

(** The metadata byte of a message holds both its source and its
    severity. *)
Theorem MessageMetadata_roundtrip (source : MessageSourceType.t) (severity : MessageSeverity.t) :
  MessageSourceFromMetadata (MakeMessageMetadata source severity) = Some source /\
  MessageSeverityFromMetadata (MakeMessageMetadata source severity) = Some severity.
Proof. destruct source, severity; split; reflexivity. Qed.

(** A userland address and its tag are both recovered from the tagged
    word; the constructor accepts exactly the 56-bit addresses. *)
Theorem TaggedUserlandAddress_roundtrip (address tag : Z) :
  in_uint 64 address -> in_uint 8 tag ->
  (in_uint 56 address -> exists s,
     TaggedUserlandAddress.make address tag = Some s /\ in_uint 64 s /\
     TaggedUserlandAddress.GetAddress s = address /\ TaggedUserlandAddress.GetTag s = tag) /\
  (~ in_uint 56 address -> TaggedUserlandAddress.make address tag = None).
Proof.
  intros Ha Ht. unfold TaggedUserlandAddress.make.
  change TaggedUserlandAddress.highBits with (Z.shiftl (Z.ones 8) 56).
  rewrite (land_mask_high address 56 8) by lia.
  unfold in_uint in *.
  assert (E : Z.land (Z.shiftr address 56) (Z.ones 8) = address / 2 ^ 56).
  { rewrite Z.land_ones, Z.shiftr_div_pow2 by lia. apply Z.mod_small.
    split; [apply Z.div_pos; lia | apply Z.div_lt_upper_bound; lia]. }
  rewrite E. split; intros H.
  - rewrite Z.div_small by lia. simpl.
    eexists; split; [reflexivity |].
    unfold TaggedUserlandAddress.GetAddress, TaggedUserlandAddress.GetTag,
      TaggedUserlandAddress.ptrShift.
    rewrite uint_small by (unfold in_uint; rewrite Z.shiftl_mul_pow2; lia).
    rewrite lor_shiftl by lia. change 255 with (Z.ones 8).
    rewrite Z.land_ones, Z.shiftr_div_pow2 by lia. repeat split; try lia.
    + rewrite Z.div_add_l, Z.div_small; lia.
    + rewrite Z.add_comm, Z_mod_plus_full, Z.mod_small by lia. apply uint_small. red; lia.
  - assert (1 <= address / 2 ^ 56) by (apply Z.div_le_lower_bound; lia).
    rewrite Z.shiftl_mul_pow2 by lia.
    destruct (Z.eqb_spec (address / 2 ^ 56 * 2 ^ 56) 0); [lia | done].
Qed.

Lemma TaggedUserlandAddress_roundtrip_witness :
  exists s, TaggedUserlandAddress.make 0x7fff12345678 3 = Some s /\
    TaggedUserlandAddress.GetTag s = 3.
Proof.
  destruct (TaggedUserlandAddress_roundtrip 0x7fff12345678 3) as [H _].
  - split; [discriminate | reflexivity].
  - split; [discriminate | reflexivity].
  - destruct H as (s & E & _ & _ & T); [split; [discriminate | reflexivity] |].
    exists s. split; [exact E | exact T].
Defined.
