(* ===== verification/Wire.v ===== *)
(** * The stream of events

    What the client appends to a frame and the server takes off it, event by
    event: an item of the size its type says, a string transfer with the length
    of its data in two or four bytes, or one of the two strings an item may be
    preceded by.  [encode] says what bytes an event is (the client's senders are
    shown to append exactly these, in [Client] and [Dequeue]); [read_event] is
    the part of [Worker::DispatchProcess] that advances the read pointer, for
    any handler of the event. *)
From S2P Require Import Prelude Queue.
Import QueueType(t(..)).

(* TracyProtocol.hpp:158-158 *)
Definition ProtocolOffset8Bit : Z := 2 ^ 8.
(* TracyProtocol.hpp:159-159 *)
Definition ProtocolOffset16Bit : Z := 2 ^ 16.
(* TracyProtocol.hpp:160-160 *)
Definition ProtocolOffset32Bit : Z := 2 ^ 16 + 2 ^ 32.

Inductive event : Type :=
| Fixed (item : list Z)
| Transfer (ty : QueueType.t) (ptr : Z) (data : list Z)
| Single (data : list Z)
| Second (data : list Z).

Definition is_transfer (ty : QueueType.t) : bool := QueueType.idx StringData <=? QueueType.idx ty.
Definition is_long (ty : QueueType.t) : bool :=
  match ty with FrameImageData | SymbolCode | SourceCode => true | _ => false end.
Definition is_string (ty : QueueType.t) : bool :=
  match ty with
  | SingleStringData | SecondStringData | SingleStringData8 | SecondStringData8 => true
  | _ => false
  end.
Definition size_width (ty : QueueType.t) : nat := if is_long ty then 4 else 2.

Definition len (l : list Z) : Z := Z.of_nat (length l).

Definition encode_string (t8 t16 : QueueType.t) (data : list Z) : list Z :=
  if len data <=? 255 then QueueType.idx t8 :: le_bytes 1 (len data) ++ data
  else QueueType.idx t16 :: le_bytes 2 (len data - ProtocolOffset8Bit) ++ data.

Definition encode (e : event) : list Z :=
  match e with
  | Fixed item => item
  | Transfer ty ptr data =>
      QueueType.idx ty :: le_bytes 8 ptr ++ le_bytes (size_width ty) (len data) ++ data
  | Single data => encode_string SingleStringData8 SingleStringData data
  | Second data => encode_string SecondStringData8 SecondStringData data
  end.

(** The events the protocol can carry. *)
Definition event_ok (e : event) : Prop :=
  match e with
  | Fixed item => exists ty, MemReadHdr item = QueueType.idx ty /\
      is_transfer ty = false /\ is_string ty = false /\
      length item = QueueDataSize_at (QueueType.idx ty)
  | Transfer ty ptr data => is_transfer ty = true /\ in_uint 64 ptr /\
      len data < 2 ^ (8 * Z.of_nat (size_width ty))
  | Single data | Second data => len data < 2 ^ 16
  end.

(** Taking [n] bytes; reading past the end of the frame is no behaviour. *)
Definition take_bytes (n : nat) (m : list Z) : option (list Z * list Z) :=
  if (n <=? length m)%nat then Some (take n m, drop n m) else None.

Definition read_size (n : nat) (m : list Z) : option (Z * list Z) :=
  '(b, m) ← take_bytes n m; Some (le_val b, m).

(** A string whose length field has [n] bytes and is offset by [off]; the length
    is computed in a 16-bit variable. *)
Definition read_string (n : nat) (off : Z) (m : list Z) : option (list Z * list Z) :=
  '(_, m) ← take_bytes sizeof_hdr m;
  '(sz, m) ← read_size n m;
  take_bytes (Z.to_nat (uint 16 (sz + off))) m.

(* TracyWorker.cpp:3326-3449 DispatchProcess *)
Definition read_event (m : list Z) : option (event * list Z) :=
  let idx := MemReadHdr m in
  ty ← QueueType.of_idx idx;
  if QueueType.idx StringData <=? idx then
    '(hdr, m) ← take_bytes (sizeof_hdr + sizeof QueueStringTransfer) m;
    let ptr := MemRead QueueStringTransfer "ptr" hdr in
    '(sz, m) ← read_size (size_width ty) m;
    '(data, m) ← take_bytes (Z.to_nat sz) m;
    Some (Transfer ty ptr data, m)
  else match ty with
  | SingleStringData =>
      '(data, m) ← read_string 2 ProtocolOffset8Bit m; Some (Single data, m)
  | SecondStringData =>
      '(data, m) ← read_string 2 ProtocolOffset8Bit m; Some (Second data, m)
  | SingleStringData8 => '(data, m) ← read_string 1 0 m; Some (Single data, m)
  | SecondStringData8 => '(data, m) ← read_string 1 0 m; Some (Second data, m)
  | _ => '(item, m) ← take_bytes (QueueDataSize_at idx) m; Some (Fixed item, m)
  end.

(** The loop over a frame, [while( ptr < end )].  Every event has at least one
    byte, so as many rounds as there are bytes are enough. *)
Fixpoint read_events (fuel : nat) (m : list Z) : option (list event) :=
  match m, fuel with
  | [], _ => Some []
  | _, O => None
  | _, S fuel => '(e, m) ← read_event m; es ← read_events fuel m; Some (e :: es)
  end.

(* TracyWorker.cpp:2940-2949 Exec *)
Definition read_frame (m : list Z) : option (list event) := read_events (length m) m.

(** ** Reading back what was written *)
Ltac bind_red := cbn [mbind option_bind].

Lemma take_bytes_app a b : take_bytes (length a) (a ++ b) = Some (a, b).
Proof.
  unfold take_bytes. rewrite length_app.
  destruct (Nat.leb_spec (length a) (length a + length b)); [| lia].
  now rewrite take_app_length, drop_app_length.
Qed.

Lemma take_bytes_app' n a b : n = length a -> take_bytes n (a ++ b) = Some (a, b).
Proof. intros ->. apply take_bytes_app. Qed.

Lemma read_size_app n z rest :
  0 <= z < 2 ^ (8 * Z.of_nat n) -> read_size n (le_bytes n z ++ rest) = Some (z, rest).
Proof.
  intros Hz. unfold read_size. rewrite take_bytes_app' by now rewrite length_le_bytes.
  simpl. now rewrite le_val_bytes, uint_small.
Qed.

Lemma len_nonneg l : 0 <= len l.
Proof. unfold len. lia. Qed.

Lemma len_to_nat l : Z.to_nat (len l) = length l.
Proof. apply Nat2Z.id. Qed.

Lemma MemReadHdr_cons b m : MemReadHdr (b :: m) = b.
Proof. unfold MemReadHdr, rd. simpl. lia. Qed.

Lemma MemReadHdr_app item m : (0 < length item)%nat -> MemReadHdr (item ++ m) = MemReadHdr item.
Proof. destruct item; simpl; [lia |]. intros _. now rewrite !MemReadHdr_cons. Qed.

Lemma read_string_app n off b data rest :
  0 <= len data - off < 2 ^ (8 * Z.of_nat n) -> len data < 2 ^ 16 ->
  read_string n off (b :: (le_bytes n (len data - off) ++ data) ++ rest) = Some (data, rest).
Proof.
  intros Hd H16. unfold read_string.
  change (b :: ?m) with ([b] ++ m). rewrite take_bytes_app' by done. bind_red.
  rewrite <- app_assoc, read_size_app by done. bind_red.
  rewrite Z.sub_add, uint_small by (pose proof (len_nonneg data); red; lia).
  rewrite len_to_nat. apply take_bytes_app.
Qed.

Lemma read_event_transfer ty ptr data rest :
  event_ok (Transfer ty ptr data) ->
  read_event (encode (Transfer ty ptr data) ++ rest) = Some (Transfer ty ptr data, rest).
Proof.
  intros (Hty & Hptr & Hlen). unfold read_event, encode. cbn [app].
  rewrite MemReadHdr_cons, QueueType.of_idx_idx. unfold is_transfer in Hty.
  bind_red. rewrite Hty.
  replace (QueueType.idx ty :: (_ ++ _ ++ data) ++ rest) with
    ((QueueType.idx ty :: le_bytes 8 ptr) ++ le_bytes (size_width ty) (len data) ++ data ++ rest)
    by (cbn [app]; now rewrite <- !app_assoc).
  rewrite take_bytes_app' by now rewrite length_cons, length_le_bytes.
  bind_red. rewrite read_size_app by (pose proof (len_nonneg data); lia).
  bind_red. rewrite len_to_nat, take_bytes_app. bind_red. do 3 f_equal.
  change (uint 64 (le_val (le_bytes 8 ptr)) = ptr).
  rewrite le_val_bytes. now rewrite !uint_small by (rewrite ?uint_small; done).
Qed.

Lemma read_event_fixed item rest :
  event_ok (Fixed item) -> read_event (encode (Fixed item) ++ rest) = Some (Fixed item, rest).
Proof.
  intros (ty & Hh & Ht & Hs & Hlen). unfold read_event, encode, is_transfer in *.
  rewrite MemReadHdr_app, Hh, QueueType.of_idx_idx
    by (rewrite Hlen; destruct ty; vm_compute; lia).
  bind_red. rewrite Ht, take_bytes_app' by done. now destruct ty.
Qed.

(** A string as a small or a large one; [wrap] is [Single] or [Second]. *)
Lemma read_encode_string (wrap : list Z -> event) t8 t16 data rest :
  (forall m, read_event (QueueType.idx t8 :: m) =
     ('(data, m) ← read_string 1 0 (QueueType.idx t8 :: m); Some (wrap data, m))) ->
  (forall m, read_event (QueueType.idx t16 :: m) =
     ('(data, m) ← read_string 2 ProtocolOffset8Bit (QueueType.idx t16 :: m);
      Some (wrap data, m))) ->
  len data < 2 ^ 16 ->
  read_event (encode_string t8 t16 data ++ rest) = Some (wrap data, rest).
Proof.
  intros H8 H16 Hlen. pose proof (len_nonneg data). unfold encode_string.
  destruct (Z.leb_spec (len data) 255); cbn [app].
  - rewrite H8. rewrite <- (Z.sub_0_r (len data)).
    now rewrite read_string_app by lia.
  - rewrite H16. now rewrite read_string_app by (unfold ProtocolOffset8Bit; lia).
Qed.

(** Reading is the inverse of writing: whatever the server reads next
    from the bytes of an event is that event, and it stops at its end. *)
Lemma read_encode (e : event) (rest : list Z) :
  event_ok e -> read_event (encode e ++ rest) = Some (e, rest).
Proof.
  destruct e; [apply read_event_fixed | apply read_event_transfer | |];
    intros H; apply read_encode_string; auto; intros m;
    unfold read_event; now rewrite MemReadHdr_cons.
Qed.

Lemma encode_nonempty e : event_ok e -> encode e <> [].
Proof.
  destruct e as [item | | |]; simpl; unfold encode_string.
  - intros (ty & _ & _ & _ & H) ->. destruct ty; discriminate H.
  - done.
  - destruct (_ <=? _); done.
  - destruct (_ <=? _); done.
Qed.

Lemma read_events_encode es fuel :
  Forall event_ok es -> (length (mjoin (encode <$> es)) <= fuel)%nat ->
  read_events fuel (mjoin (encode <$> es)) = Some es.
Proof.
  intros Hes. revert fuel. induction Hes as [| e es He Hes IH]; intros fuel Hf.
  - now destruct fuel.
  - change (mjoin (encode <$> e :: es)) with (encode e ++ mjoin (encode <$> es)) in *.
    pose proof (encode_nonempty e He) as Hne.
    assert (Hpos : (0 < length (encode e))%nat) by (destruct (encode e); [done | simpl; lia]).
    rewrite length_app in Hf. destruct fuel as [| fuel]; [lia |].
    destruct (encode e ++ mjoin (encode <$> es)) eqn:E.
    { apply (f_equal length) in E. rewrite length_app in E. simpl in E. lia. }
    cbn [read_events]. rewrite <- E, read_encode by done. bind_red.
    now rewrite IH by lia.
Qed.

(** A frame made of whole events is read as exactly these events. *)
Theorem read_frame_encode (es : list event) :
  Forall event_ok es -> read_frame (mjoin (encode <$> es)) = Some es.
Proof. intros H. now apply read_events_encode. Qed.

Lemma read_frame_encode_witness :
  read_frame (mjoin (encode <$> [Single [104; 105]; Transfer StringData 4096 [97; 98]])) =
    Some [Single [104; 105]; Transfer StringData 4096 [97; 98]].
Proof.
  apply read_frame_encode. repeat constructor; vm_compute; try reflexivity; discriminate.
Defined.
