(* ===== verification/Client.v ===== *)
(** * The client: framing, payloads and dequeue loops of the profiler

    [public/client/TracyProfiler.cpp] takes the items the instrumented threads
    queued, replaces their time stamps by differences, moves the data they point
    to in front of them and hands frames of bytes to the network.

    The state is the part of [Profiler] these functions use: the send buffer,
    its two offsets, the thread context and reference times, the frames sent so
    far, and the memory of the process with the blocks freed in it.  LZ4 and the
    socket are not the program's: [m_sent] holds the data of each frame as it is
    given to the compressor, and the result of the n-th send is [send_ok n].  The
    spin locks around the serial queue are not modelled: an operation sees the
    queue as it is when the lock is taken. *)
From S2P Require Import Prelude Queue Wire.
Import QueueType(t(..)).

(** ** Memory *)
Definition memory : Type := Z -> Z.

Definition memcpy (dst : Z) (data : list Z) (m : memory) : memory := fun a =>
  if (dst <=? a) && (a <? dst + Z.of_nat (length data)) then nth (Z.to_nat (a - dst)) data 0
  else m a.

(** The [n] bytes at [a]. *)
Definition slice (m : memory) (a : Z) (n : nat) : list Z :=
  map (fun i => m (a + Z.of_nat i)) (seq 0 n).

Definition ld (n : nat) (a : Z) (m : memory) : Z := le_val (slice m a n).
Definition st (n : nat) (a v : Z) (m : memory) : memory := memcpy a (le_bytes n v) m.

(** The length of the C string at [a]; [None] if it is longer than the fuel. *)
Fixpoint strlen (fuel : nat) (a : Z) (m : memory) : option Z :=
  match fuel with
  | O => None
  | S fuel => if m a =? 0 then Some 0 else n ← strlen fuel (a + 1) m; Some (n + 1)
  end.

Definition strlen_fuel : nat := Z.to_nat 65536.

Lemma strlen_fuel_eq : Z.of_nat strlen_fuel = 2 ^ 16.
Proof. unfold strlen_fuel. rewrite Z2Nat.id; lia. Qed.

#[global] Opaque strlen_fuel.

Fixpoint string_of_bytes (l : list Z) : string :=
  match l with
  | [] => EmptyString
  | b :: l => String (Ascii.ascii_of_N (Z.to_N b)) (string_of_bytes l)
  end.

(** ** Protocol constants *)
(* TracyProtocol.hpp:18-18 *)
Definition TargetFrameSize : Z := 256 * 1024.
(** ** The profiler *)
Record Profiler := mkProfiler {
  m_buffer : memory;          (* 3 * TargetFrameSize bytes *)
  m_bufferOffset : Z;
  m_bufferStart : Z;
  m_threadCtx : Z;
  m_refTimeThread : Z;
  m_refTimeSerial : Z;
  m_refTimeCtx : Z;
  m_refTimeGpu : Z;
  m_serialQueue : list (list Z);    (* the items of all threads, as queued *)
  m_serialDequeue : list (list Z);  (* those being sent *)
  m_sent : list (list Z);     (* the frames given to SendData, oldest first *)
  heap : memory;              (* the memory of the process *)
  freed : list Z              (* the blocks freed, oldest first *)
}.

#[export] Instance eta_Profiler : Eta Profiler := fun r =>
  mkProfiler (m_buffer r) (m_bufferOffset r) (m_bufferStart r) (m_threadCtx r)
    (m_refTimeThread r) (m_refTimeSerial r) (m_refTimeCtx r) (m_refTimeGpu r)
    (m_serialQueue r) (m_serialDequeue r) (m_sent r) (heap r) (freed r).

(** How the client was built, and what is not part of its own code: the success
    of each send, the symbol resolver of the platform. *)
Class Platform := {
  TRACY_ON_DEMAND : bool;
  TRACY_FIBERS : bool;
  TRACY_HAS_CALLSTACK : bool;
  TRACY_HAS_SYSTEM_TRACING : bool;
  send_ok : nat -> bool;
  DecodeCallstackPtrFast : Z -> string
}.

(* TracyProfiler.hpp:960-960 ThreadCtxStatus *)
Inductive ThreadCtxStatus : Set := Same | Changed | CtxConnectionLost.
(* TracyProfiler.hpp:959-959 DequeueStatus *)
Inductive DequeueStatus : Set := DataDequeued | ConnectionLost | QueueEmpty.

Section Profiler.
Context {P : Platform}.

Definition tracy_free_fast (ptr : Z) : M Profiler unit :=
  modify (fun s => s <| freed ::= fun l => if ptr =? 0 then l else l ++ [ptr] |>).

(** ** Framing *)
(* TracyProfiler.cpp:3466-3471 *)
Definition SendData (data : list Z) : M Profiler bool :=
  n ← gets (fun s => length (m_sent s));
  modify (fun s => s <| m_sent ::= fun l => l ++ [data] |>);;
  mret (send_ok n).

(* TracyProfiler.cpp:3396-3402 *)
Definition CommitData : M Profiler bool :=
  data ← gets (fun s => slice (m_buffer s) (m_bufferStart s)
                          (Z.to_nat (m_bufferOffset s - m_bufferStart s)));
  ret ← SendData data;
  modify (fun s => if TargetFrameSize * 2 <? m_bufferOffset s
                   then s <| m_bufferOffset := 0 |> else s);;
  modify (fun s => s <| m_bufferStart := m_bufferOffset s |>);;
  mret ret.

(* TracyProfiler.hpp:994-1003 *)
Definition NeedDataSize (len : Z) : M Profiler bool :=
  assert_ (len <=? TargetFrameSize);;
  full ← gets (fun s => TargetFrameSize <? m_bufferOffset s - m_bufferStart s + len);
  if full : bool then CommitData else mret true.

(* TracyProfiler.hpp:1005-1009 *)
Definition AppendDataUnsafe (data : list Z) : M Profiler unit :=
  modify (fun s => s <| m_buffer ::= memcpy (m_bufferOffset s) data |>
                     <| m_bufferOffset ::= Z.add (Z.of_nat (length data)) |>).

(* TracyProfiler.hpp:987-992 *)
Definition AppendData (data : list Z) : M Profiler bool :=
  ret ← NeedDataSize (Z.of_nat (length data));
  AppendDataUnsafe data;;
  mret ret.

(** [AppendData( &item, QueueDataSize[idx] )] *)
Definition wire (idx : Z) (item : list Z) : list Z := take (QueueDataSize_at idx) item.

(** ** Payloads *)

(** A local [QueueItem]; the bytes that are sent are all written first. *)
Definition QueueItem_local (ty : QueueType.t) : list Z :=
  MemWriteHdr (QueueType.idx ty) (repeat 0 QueueItemSize).

(** The common end of the payload senders: the header and its size field and
    data are appended as one block, which a frame boundary never splits. *)
Definition append_block (hdr size data : list Z) : M Profiler unit :=
  _ ← NeedDataSize (Z.of_nat (length (hdr ++ size ++ data)));
  AppendDataUnsafe hdr;;
  AppendDataUnsafe size;;
  AppendDataUnsafe data.

Definition heap_bytes (ptr len : Z) : M Profiler (list Z) :=
  gets (fun s => slice (heap s) ptr (Z.to_nat len)).

Definition is_string_type (ty : QueueType.t) : bool :=
  match ty with
  | StringData | ThreadName | PlotName | FrameName | ExternalName | ExternalThreadName
  | FiberName => true
  | _ => false
  end.

(* TracyProfiler.cpp:3473-3495 *)
Definition SendString (str ptr len : Z) (ty : QueueType.t) : M Profiler unit :=
  assert_ (is_string_type ty);;
  let item := MemWrite QueueStringTransfer "ptr" str (QueueItem_local ty) in
  assert_ (len <=? 65535);;
  data ← heap_bytes ptr len;
  append_block (wire (QueueType.idx ty) item) (le_bytes 2 len) data.

(* TracyProfiler.cpp:3497-3510 *)
Definition SendSingleString8 (ptr len : Z) : M Profiler unit :=
  let item := QueueItem_local SingleStringData8 in
  assert_ (len <=? 255);;
  data ← heap_bytes ptr len;
  append_block (wire (QueueType.idx SingleStringData8) item) (le_bytes 1 len) data.

(* TracyProfiler.cpp:3512-3527 *)
Definition SendSingleString16 (ptr len : Z) : M Profiler unit :=
  let item := QueueItem_local SingleStringData in
  assert_ (255 <? len);;
  assert_ (len <=? 65535);;
  data ← heap_bytes ptr len;
  append_block (wire (QueueType.idx SingleStringData) item)
    (le_bytes 2 (uint 16 (len - ProtocolOffset8Bit))) data.

(* TracyProfiler.cpp:3529-3542 *)
Definition SendSecondString8 (ptr len : Z) : M Profiler unit :=
  let item := QueueItem_local SecondStringData8 in
  assert_ (len <=? 255);;
  data ← heap_bytes ptr len;
  append_block (wire (QueueType.idx SecondStringData8) item) (le_bytes 1 len) data.

(* TracyProfiler.cpp:3544-3559 *)
Definition SendSecondString16 (ptr len : Z) : M Profiler unit :=
  let item := QueueItem_local SecondStringData in
  assert_ (255 <? len);;
  assert_ (len <=? 65535);;
  data ← heap_bytes ptr len;
  append_block (wire (QueueType.idx SecondStringData) item)
    (le_bytes 2 (uint 16 (len - ProtocolOffset8Bit))) data.

(* TracyProfiler.hpp:908-908 *)
Definition SendSingleString (ptr len : Z) : M Profiler unit :=
  if len <=? 255 then SendSingleString8 ptr len else SendSingleString16 ptr len.

(* TracyProfiler.hpp:910-910 *)
Definition SendSecondString (ptr len : Z) : M Profiler unit :=
  if len <=? 255 then SendSecondString8 ptr len else SendSecondString16 ptr len.

(** [strlen] on a string that the senders accept: they assert at most 65535
    bytes, so 65536 steps reach the terminator. *)
Definition strlen16 (ptr : Z) : M Profiler Z :=
  o ← gets (fun s => strlen strlen_fuel ptr (heap s));
  expect o.

(* TracyProfiler.hpp:907-907 SendSingleString *)
Definition SendSingleString_z (ptr : Z) : M Profiler unit :=
  len ← strlen16 ptr; SendSingleString ptr len.
(* TracyProfiler.hpp:909-909 SendSecondString *)
Definition SendSecondString_z (ptr : Z) : M Profiler unit :=
  len ← strlen16 ptr; SendSecondString ptr len.
(* TracyProfiler.hpp:905-905 SendString *)
Definition SendString_z (str ptr : Z) (ty : QueueType.t) : M Profiler unit :=
  len ← strlen16 ptr; SendString str ptr len ty.

(* TracyProfiler.cpp:3561-3580 *)
Definition SendLongString (str ptr len : Z) (ty : QueueType.t) : M Profiler unit :=
  assert_ (is_long ty);;
  let item := MemWrite QueueStringTransfer "ptr" str (QueueItem_local ty) in
  assert_ (len <=? 2 ^ 32 - 1);;
  assert_ (Z.of_nat (QueueDataSize_at (QueueType.idx ty)) + 4 + len <=? TargetFrameSize);;
  data ← heap_bytes ptr len;
  append_block (wire (QueueType.idx ty) item) (le_bytes 4 len) data.

(** [SourceLocationData]: three pointers, the line and the color. *)
(* TracyProfiler.cpp:3582-3595 *)
Definition SendSourceLocation (ptr : Z) : M Profiler unit :=
  h ← gets heap;
  let name := ld 8 ptr h in
  let function := ld 8 (ptr + 8) h in
  let file := ld 8 (ptr + 16) h in
  let line := ld 4 (ptr + 24) h in
  let color := ld 4 (ptr + 28) h in
  let item := MemWrite QueueSourceLocation "name" name (QueueItem_local SourceLocation) in
  let item := MemWrite QueueSourceLocation "file" file item in
  let item := MemWrite QueueSourceLocation "function" function item in
  let item := MemWrite QueueSourceLocation "line" line item in
  let item := MemWrite QueueSourceLocation "b" (Z.land color 255) item in
  let item := MemWrite QueueSourceLocation "g" (Z.land (Z.shiftr color 8) 255) item in
  let item := MemWrite QueueSourceLocation "r" (Z.land (Z.shiftr color 16) 255) item in
  _ ← AppendData (wire (QueueType.idx SourceLocation) item);
  mret tt.

(* TracyProfiler.cpp:3597-3616 *)
Definition SendSourceLocationPayload (_ptr : Z) : M Profiler unit :=
  let item :=
    MemWrite QueueStringTransfer "ptr" _ptr (QueueItem_local SourceLocationPayload) in
  h ← gets heap;
  let len := ld 2 _ptr h in
  assert_ (2 <? len);;
  let len := uint 16 (len - 2) in
  let ptr := _ptr + 2 in
  data ← heap_bytes ptr len;
  append_block (wire (QueueType.idx SourceLocationPayload) item) (le_bytes 2 len) data.

(** The number of entries comes first; the entries are 64-bit words. *)
(* TracyProfiler.cpp:3618-3647 *)
Definition SendCallstackPayload (_ptr : Z) : M Profiler unit :=
  let item := MemWrite QueueStringTransfer "ptr" _ptr (QueueItem_local CallstackPayload) in
  h ← gets heap;
  let sz := ld 8 _ptr h in
  let ptr := _ptr + 8 in
  let len := uint 64 (sz * 8) in
  let l16 := uint 16 len in
  data ← heap_bytes ptr len;
  _ ← NeedDataSize (Z.of_nat (QueueDataSize_at (QueueType.idx CallstackPayload)) + 2 + l16);
  AppendDataUnsafe (wire (QueueType.idx CallstackPayload) item);;
  AppendDataUnsafe (le_bytes 2 l16);;
  AppendDataUnsafe data.

(* TracyProfiler.cpp:3649-3666 *)
Definition SendCallstackPayload64 (_ptr : Z) : M Profiler unit :=
  let item := MemWrite QueueStringTransfer "ptr" _ptr (QueueItem_local CallstackPayload) in
  h ← gets heap;
  let sz := ld 8 _ptr h in
  let ptr := _ptr + 8 in
  let len := uint 64 (sz * 8) in
  let l16 := uint 16 len in
  data ← heap_bytes ptr len;
  _ ← NeedDataSize (Z.of_nat (QueueDataSize_at (QueueType.idx CallstackPayload)) + 2 + l16);
  AppendDataUnsafe (wire (QueueType.idx CallstackPayload) item);;
  AppendDataUnsafe (le_bytes 2 l16);;
  AppendDataUnsafe data.

(* TracyProfiler.cpp:3668-3685 *)
Definition SendCallstackAlloc (_ptr : Z) : M Profiler unit :=
  let item :=
    MemWrite QueueStringTransfer "ptr" _ptr (QueueItem_local CallstackAllocPayload) in
  h ← gets heap;
  let len := ld 2 _ptr h in
  let ptr := _ptr + 2 in
  data ← heap_bytes ptr len;
  append_block (wire (QueueType.idx CallstackAllocPayload) item) (le_bytes 2 len) data.

(** ** Cutting a call stack *)

(** [strstr( name, pat ) != nullptr] *)
Definition strstr (name pat : string) : bool :=
  match String.index 0 pat name with Some _ => true | None => false end.

(** The index after the first frame, from the [i]-th on, whose name contains
    [pat]. *)
Fixpoint find_frame (pat : string) (data : list Z) (i : Z) : option Z :=
  match data with
  | [] => None
  | d :: data => if strstr (DecodeCallstackPtrFast d) pat then Some (i + 1)
                 else find_frame pat data (i + 1)
  end.

Fixpoint cut_index (skipBefore : list string) (data : list Z) : option Z :=
  match skipBefore with
  | [] => None
  | pat :: skipBefore =>
      match find_frame pat data 0 with
      | Some i => Some i
      | None => cut_index skipBefore data
      end
  end.

Definition words (h : memory) (a sz : Z) : list Z :=
  map (fun i => ld 8 (a + 8 * Z.of_nat i) h) (seq 0 (Z.to_nat sz)).

(* TracyProfiler.cpp:4356-4385 CutCallstack *)
Definition cut_callstack (callstack : Z) (skipBefore : list string) (h : memory) : memory :=
  if TRACY_HAS_CALLSTACK then
    let sz := ld 8 callstack h in
    let data := callstack + 8 in
    match cut_index skipBefore (words h data sz) with
    | None => h
    | Some i =>
        if i =? sz then h else
        st 8 callstack (sz - i)
          (memcpy data (slice h (data + 8 * i) (Z.to_nat (8 * (sz - i)))) h)
    end
  else h.

Definition CutCallstack (callstack : Z) (skipBefore : list string) : M Profiler unit :=
  modify (fun s => s <| heap ::= cut_callstack callstack skipBefore |>).
End Profiler.

(** ** The send buffer

    The buffer holds three frames.  A frame is built from [m_bufferStart] on;
    once it is sent the next one starts after it, or at the beginning when two
    frames no longer fit. *)

Lemma length_slice m a n : length (slice m a n) = n.
Proof. unfold slice. now rewrite length_map, length_seq. Qed.

Lemma slice_ext m m' a n :
  (forall x, a <= x < a + Z.of_nat n -> m x = m' x) -> slice m a n = slice m' a n.
Proof.
  intros H. unfold slice. apply map_ext_in. intros i Hi%in_seq. apply H. lia.
Qed.

Lemma slice_app m a n k :
  slice m a (n + k) = slice m a n ++ slice m (a + Z.of_nat n) k.
Proof.
  unfold slice. rewrite seq_app, map_app. f_equal. simpl.
  rewrite <- (Nat.add_0_r n) at 1. rewrite <- fmap_add_seq.
  change (Nat.add n <$> seq 0 k) with (map (Nat.add n) (seq 0 k)). rewrite map_map.
  apply map_ext; intros; f_equal; lia.
Qed.

Lemma memcpy_other dst d m a :
  (a < dst \/ dst + Z.of_nat (length d) <= a) -> memcpy dst d m a = m a.
Proof.
  intros H. unfold memcpy.
  destruct (Z.leb_spec dst a), (Z.ltb_spec a (dst + Z.of_nat (length d))); simpl; lia || done.
Qed.

Lemma slice_memcpy_same dst d m : slice (memcpy dst d m) dst (length d) = d.
Proof.
  unfold slice.
  apply (list_eq_same_length _ _ (length d)); [done | now rewrite length_map, length_seq |].
  intros i x y Hi Hx Hy. apply list_lookup_fmap_Some in Hx as (j & -> & Hj).
  apply lookup_seq in Hj as [-> _]. unfold memcpy.
  destruct (Z.leb_spec dst (dst + Z.of_nat (0 + i))); [| lia].
  destruct (Z.ltb_spec (dst + Z.of_nat (0 + i)) (dst + Z.of_nat (length d))); [| lia].
  simpl. replace (Z.to_nat (dst + Z.of_nat i - dst)) with i by lia.
  now apply nth_lookup_Some.
Qed.

Lemma slice_memcpy_other dst d m a n :
  (a + Z.of_nat n <= dst \/ dst + Z.of_nat (length d) <= a) ->
  slice (memcpy dst d m) a n = slice m a n.
Proof. intros H. apply slice_ext. intros x Hx. apply memcpy_other. lia. Qed.

(** The bytes of the frame being built. *)
Definition pending (s : Profiler) : list Z :=
  slice (m_buffer s) (m_bufferStart s) (Z.to_nat (m_bufferOffset s - m_bufferStart s)).

(** The invariant of the buffer: the offsets are in range, no byte outside of
    the buffer differs from the initial memory [m0], and the last frame sent,
    which the streaming compressor refers back to, is still in place outside of
    the space of the current one. *)
Record buffer_ok (m0 : memory) (s : Profiler) : Prop := {
  ok_start : 0 <= m_bufferStart s <= TargetFrameSize * 2;
  ok_offset : m_bufferStart s <= m_bufferOffset s <= m_bufferStart s + TargetFrameSize;
  ok_outside : forall a, a < 0 \/ 3 * TargetFrameSize <= a -> m_buffer s a = m0 a;
  ok_last : forall f, last (m_sent s) = Some f -> exists p,
    0 <= p /\ slice (m_buffer s) p (length f) = f /\
    (p + Z.of_nat (length f) <= m_bufferStart s \/ m_bufferStart s + TargetFrameSize <= p)
}.

(** [es] are the events appended so far: each frame holds whole events, in
    order, and the pending bytes are the events of the frame being built and the
    part [part] of an event that is being appended. *)
Definition encode_frame (es : list event) : list Z := mjoin (encode <$> es).

Definition framed (s : Profiler) (es : list event) (part : list Z) : Prop :=
  exists (gs : list (list event)) (cur : list event),
    m_sent s = encode_frame <$> gs /\ pending s = encode_frame cur ++ part /\
    es = mjoin gs ++ cur /\ Forall event_ok es.

Lemma encode_frame_snoc es e : encode_frame (es ++ [e]) = encode_frame es ++ encode e.
Proof. unfold encode_frame. rewrite fmap_app, join_app. simpl. now rewrite app_nil_r. Qed.

(** What framing does not touch. *)
Definition same_refs (s s' : Profiler) : Prop :=
  m_threadCtx s' = m_threadCtx s /\ m_refTimeThread s' = m_refTimeThread s /\
  m_refTimeSerial s' = m_refTimeSerial s /\ m_refTimeCtx s' = m_refTimeCtx s /\
  m_refTimeGpu s' = m_refTimeGpu s /\ m_serialQueue s' = m_serialQueue s /\
  m_serialDequeue s' = m_serialDequeue s /\ heap s' = heap s /\ freed s' = freed s.

#[export] Instance same_refs_refl : Reflexive same_refs.
Proof. done. Qed.
#[export] Instance same_refs_trans : Transitive same_refs.
Proof.
  intros x y z (?&?&?&?&?&?&?&?&?) (?&?&?&?&?&?&?&?&?). repeat split; congruence.
Qed.

(** The invariant and the record of what was sent, as one assertion. *)
Definition logged (m0 : memory) (es : list event) (part : list Z) (s : Profiler) : Prop :=
  buffer_ok m0 s /\ framed s es part.

Section Buffer.
Context {P : Platform} (m0 : memory).

Lemma SendData_spec data s :
  wp (SendData data) (fun _ s' => s' = s <| m_sent ::= fun l => l ++ [data] |>) s.
Proof. done. Qed.

Lemma commit_logged es s t :
  logged m0 es [] s -> m_sent t = m_sent s ++ [pending s] -> m_buffer t = m_buffer s ->
  m_bufferStart t = m_bufferOffset t ->
  m_bufferOffset s <= TargetFrameSize * 2 /\ m_bufferOffset t = m_bufferOffset s \/
    TargetFrameSize * 2 < m_bufferOffset s /\ m_bufferOffset t = 0 ->
  logged m0 es [] t.
Proof.
  unfold TargetFrameSize.
  intros [[Hs Ho Hout Hl] (gs & cur & Hg & Hp & -> & Hok)] Hm Hb Hst Hoff.
  unfold TargetFrameSize in *. split; [split |].
  - unfold TargetFrameSize. lia.
  - unfold TargetFrameSize. lia.
  - now rewrite Hb.
  - rewrite Hm, last_snoc. intros f [= <-]. exists (m_bufferStart s).
    unfold pending at 1 3. unfold TargetFrameSize.
    rewrite length_slice, Hb. split; [lia |]. split; [done | lia].
  - rewrite app_nil_r in Hp. exists (gs ++ [cur]), [].
    rewrite Hm, Hg, fmap_app, Hp. split; [done |].
    split; [unfold pending; now rewrite Hst, Z.sub_diag |].
    rewrite join_app. simpl. now rewrite !app_nil_r.
Qed.

Lemma CommitData_spec es s :
  logged m0 es [] s ->
  wp CommitData (fun _ s' => logged m0 es [] s' /\ same_refs s s' /\
    m_bufferOffset s' = m_bufferStart s') s.
Proof.
  intros H. unfold CommitData, SendData. wp_steps.
  destruct (_ <? _) eqn:Hw; cbn in Hw;
    [apply Z.ltb_lt in Hw | apply Z.ltb_ge in Hw];
    (split; [apply (commit_logged es s); auto; cbn; lia | split; [repeat split | done]]).
Qed.

Lemma NeedDataSize_spec len es s :
  logged m0 es [] s -> 0 <= len <= TargetFrameSize ->
  wp (NeedDataSize len) (fun _ s' => logged m0 es [] s' /\ same_refs s s' /\
    m_bufferOffset s' + len <= m_bufferStart s' + TargetFrameSize) s.
Proof.
  intros H Hlen. unfold NeedDataSize.
  apply wp_bind, wp_assert; [now apply Z.leb_le |].
  apply wp_bind, wp_gets. apply wp_if.
  - intros _. wp_call CommitData_spec; [exact H |].
    intros _ s' (? & ? & ?). split; [done |]. split; [done | lia].
  - intros Hf%Z.ltb_ge. wp_step. split; [done |]. split; [reflexivity | lia].
Qed.

Lemma AppendDataUnsafe_spec data es part s :
  logged m0 es part s ->
  m_bufferOffset s + Z.of_nat (length data) <= m_bufferStart s + TargetFrameSize ->
  wp (AppendDataUnsafe data) (fun _ s' => logged m0 es (part ++ data) s' /\ same_refs s s' /\
    m_bufferStart s' = m_bufferStart s /\
    m_bufferOffset s' = m_bufferOffset s + Z.of_nat (length data)) s.
Proof.
  intros [[Hs Ho Hout Hl] (gs & cur & Hg & Hp & -> & Hok)] Hlen. apply wp_modify. cbn.
  split; [split; [split |] |]; cbn; try done; unfold TargetFrameSize in *; try lia.
  - intros a Ha. rewrite memcpy_other by lia. apply Hout; lia.
  - intros f Hf. destruct (Hl f Hf) as (p & Hp0 & Hsl & Hd). exists p.
    split; [done |]. split; [| done]. rewrite slice_memcpy_other by lia. done.
  - exists gs, cur. split; [done |]. split; [| done]. unfold pending in *. cbn.
    replace (Z.to_nat _) with
      (Z.to_nat (m_bufferOffset s - m_bufferStart s) + length data)%nat by lia.
    rewrite slice_app, slice_memcpy_other, Hp, <- app_assoc by lia. do 2 f_equal.
    rewrite Z2Nat.id, Zplus_minus by lia. apply slice_memcpy_same.
  - split; [repeat split |]. split; [done | lia].
Qed.

(** A part that is complete is an event. *)
Lemma logged_close es e s :
  event_ok e -> logged m0 es (encode e) s -> logged m0 (es ++ [e]) [] s.
Proof.
  intros He [Hb (gs & cur & Hg & Hp & -> & Hok)]. split; [done |]. exists gs, (cur ++ [e]).
  split; [done |]. split; [now rewrite Hp, encode_frame_snoc, app_nil_r |].
  split; [now rewrite app_assoc |]. now apply Forall_snoc.
Qed.

(** The handlers that append the events [new] and change nothing else. *)
Definition sends {A} (new : list event) (m : M Profiler A) (s : Profiler) : Prop :=
  forall es, logged m0 es [] s ->
    wp m (fun _ s' => logged m0 (es ++ new) [] s' /\ same_refs s s') s.

(** An event that fits a frame. *)
Definition fits (e : event) : Prop := len (encode e) <= TargetFrameSize.

Lemma fixed_fits item : event_ok (Fixed item) -> fits (Fixed item).
Proof.
  intros (ty & _ & _ & _ & Hl). unfold fits, len, TargetFrameSize. cbn [encode]. rewrite Hl.
  destruct ty; vm_compute; discriminate.
Qed.

Lemma AppendData_spec data s :
  event_ok (Fixed data) -> sends [Fixed data] (AppendData data) s.
Proof.
  intros Hok es H. pose proof (fixed_fits data Hok) as Hf. unfold fits, len in Hf.
  unfold AppendData. wp_step. wp_call NeedDataSize_spec; [done | cbn in Hf; lia |].
  intros ok s' (H' & Hr & Hn). wp_step.
  wp_call AppendDataUnsafe_spec; [done | lia |].
  intros _ s'' (H'' & Hr' & _). wp_step. split; [| etrans; eauto].
  now apply logged_close.
Qed.

Lemma append_block_spec hdr size data e s :
  event_ok e -> fits e -> encode e = hdr ++ size ++ data ->
  sends [e] (append_block hdr size data) s.
Proof.
  intros Hok Hf He es H. unfold append_block. unfold fits, len in Hf. rewrite He in Hf.
  rewrite !length_app in *. wp_step. wp_call NeedDataSize_spec; [done | lia |].
  intros ok s1 (H1 & Hr1 & Hn). wp_step.
  wp_call AppendDataUnsafe_spec; [done | lia |].
  intros _ s2 (H2 & Hr2 & E2 & E2'). wp_step.
  wp_call AppendDataUnsafe_spec; [done | lia |].
  intros _ s3 (H3 & Hr3 & E3 & E3').
  wp_call AppendDataUnsafe_spec; [done | lia |].
  intros _ s4 (H4 & Hr4 & _). split.
  - apply logged_close; [done |]. now rewrite He, app_assoc.
  - etrans; [exact Hr1 |]. etrans; [exact Hr2 |]. etrans; eauto.
Qed.
End Buffer.

(** ** What the senders append *)
Lemma wire_transfer ty str :
  is_transfer ty = true ->
  wire (QueueType.idx ty) (MemWrite QueueStringTransfer "ptr" str (QueueItem_local ty)) =
    QueueType.idx ty :: le_bytes 8 str.
Proof. destruct ty; first [discriminate 1 | intros _; reflexivity]. Qed.

Lemma len_slice m a n : 0 <= n -> len (slice m a (Z.to_nat n)) = n.
Proof. intros. unfold len. rewrite length_slice. lia. Qed.

Lemma ld_range n a m : (forall x, byte_ok (m x)) -> 0 <= ld n a m < 2 ^ (8 * Z.of_nat n).
Proof.
  intros Hm. unfold ld. rewrite <- (length_slice m a n) at 3. apply le_val_range.
  unfold slice. apply Forall_fmap, Forall_true. intros x. apply Hm.
Qed.

Lemma size_width_pow ty :
  2 ^ (8 * Z.of_nat (size_width ty)) = if is_long ty then 2 ^ 32 else 2 ^ 16.
Proof. unfold size_width. now destruct (is_long ty). Qed.

Section Senders.
Context {P : Platform} (m0 : memory).

(** A transfer of the [n] bytes at [ptr] of the heap. *)
Definition transfer (ty : QueueType.t) (str ptr n : Z) (h : memory) : event :=
  Transfer ty str (slice h ptr (Z.to_nat n)).

Lemma transfer_block ty str ptr n h s :
  is_transfer ty = true -> in_uint 64 str -> 0 <= n < 2 ^ (8 * Z.of_nat (size_width ty)) ->
  Z.of_nat (QueueDataSize_at (QueueType.idx ty)) + 4 + n <= TargetFrameSize ->
  sends m0 [transfer ty str ptr n h]
    (append_block (wire (QueueType.idx ty)
                     (MemWrite QueueStringTransfer "ptr" str (QueueItem_local ty)))
       (le_bytes (size_width ty) n) (slice h ptr (Z.to_nat n))) s.
Proof.
  intros Hty Hstr Hn Hf. apply append_block_spec.
  - split; [done |]. split; [done |]. rewrite len_slice; lia.
  - unfold fits, transfer, encode, len. rewrite length_cons, !length_app, !length_le_bytes.
    rewrite length_slice. assert (QueueDataSize_at (QueueType.idx ty) = 9%nat)
      by (destruct ty; first [discriminate | reflexivity]).
    unfold size_width. destruct (is_long ty); lia.
  - rewrite wire_transfer by done. simpl. rewrite len_slice by lia. done.
Qed.

Lemma SendString_spec str ptr n ty s :
  is_string_type ty = true -> in_uint 64 str -> 0 <= n < 2 ^ 16 ->
  sends m0 [transfer ty str ptr n (heap s)] (SendString str ptr n ty) s.
Proof.
  intros Hty Hstr Hn es H. unfold SendString, heap_bytes. wp_steps.
  replace 2%nat with (size_width ty) by (destruct ty; done).
  apply (transfer_block ty str ptr n (heap s)); try done.
  - destruct ty; first [discriminate | done].
  - rewrite size_width_pow. destruct ty; first [discriminate | cbn [is_long]; lia].
  - replace (QueueDataSize_at (QueueType.idx ty)) with 9%nat
      by (destruct ty; first [discriminate | reflexivity]).
    unfold TargetFrameSize. lia.
Qed.

Lemma SendLongString_spec str ptr n ty s :
  is_long ty = true -> in_uint 64 str -> 0 <= n -> 9 + 4 + n <= TargetFrameSize ->
  sends m0 [transfer ty str ptr n (heap s)] (SendLongString str ptr n ty) s.
Proof.
  intros Hty Hstr Hn Hf es H. unfold TargetFrameSize in *.
  assert (E : Z.of_nat (QueueDataSize_at (QueueType.idx ty)) = 9)
    by (destruct ty; first [discriminate | reflexivity]).
  unfold SendLongString, heap_bytes. wp_steps; [rewrite E; unfold TargetFrameSize; lia |].
  replace 4%nat with (size_width ty) by (unfold size_width; now rewrite Hty).
  apply (transfer_block ty str ptr n (heap s)); try done.
  - destruct ty; first [discriminate | done].
  - rewrite size_width_pow, Hty. lia.
  - rewrite E. unfold TargetFrameSize. lia.
Qed.

(** Both strings, small or large, are the event of the same data. *)
Lemma string_block (wrap : list Z -> event) t8 t16 n data size ty s :
  len data = n -> n < 2 ^ 16 ->
  (forall d, event_ok (wrap d) = (len d < 2 ^ 16)) ->
  (forall d, encode (wrap d) = encode_string t8 t16 d) ->
  is_transfer t8 = false -> is_transfer t16 = false ->
  (ty, size) = (if n <=? 255 then (t8, le_bytes 1 n)
                else (t16, le_bytes 2 (uint 16 (n - ProtocolOffset8Bit)))) ->
  is_string ty = true ->
  sends m0 [wrap data] (append_block (wire (QueueType.idx ty) (QueueItem_local ty)) size data) s.
Proof.
  intros <- Hn Hok He H8 H16 E Hs. pose proof (len_nonneg data).
  apply append_block_spec; [now rewrite Hok | |].
  { unfold fits. rewrite He. unfold encode_string, TargetFrameSize, len in *.
    case_match; rewrite length_cons, length_app, length_le_bytes; lia. }
  rewrite He. unfold encode_string, ProtocolOffset8Bit in *.
  assert (Hw : wire (QueueType.idx ty) (QueueItem_local ty) = [QueueType.idx ty])
    by (destruct ty; first [discriminate | reflexivity]).
  rewrite Hw. destruct (Z.leb_spec (len data) 255); simplify_eq; simpl; [done |].
  now rewrite uint_small by (red; lia).
Qed.

Lemma SendSingleString_spec ptr n s :
  0 <= n < 2 ^ 16 -> sends m0 [Single (slice (heap s) ptr (Z.to_nat n))] (SendSingleString ptr n) s.
Proof.
  intros [Hn Hn'] es H. unfold SendSingleString, SendSingleString8, SendSingleString16, heap_bytes.
  destruct (n <=? 255) eqn:E; wp_steps;
    (eapply (string_block Single SingleStringData8 SingleStringData n);
     rewrite ?E; auto using len_slice; zbool; lia).
Qed.

Lemma SendSecondString_spec ptr n s :
  0 <= n < 2 ^ 16 -> sends m0 [Second (slice (heap s) ptr (Z.to_nat n))] (SendSecondString ptr n) s.
Proof.
  intros [Hn Hn'] es H. unfold SendSecondString, SendSecondString8, SendSecondString16, heap_bytes.
  destruct (n <=? 255) eqn:E; wp_steps;
    (eapply (string_block Second SecondStringData8 SecondStringData n);
     rewrite ?E; auto using len_slice; zbool; lia).
Qed.

Definition memory_ok (h : memory) : Prop := forall a, byte_ok (h a).

Lemma strlen_bound fuel a h n : strlen fuel a h = Some n -> 0 <= n < Z.of_nat fuel.
Proof.
  revert a n; induction fuel as [| fuel IH]; simpl; [done |]; intros a n.
  destruct (h a =? 0); [intros [= <-]; lia |].
  destruct (strlen fuel (a + 1) h) eqn:E; [| done].
  intros [= <-]. apply IH in E. lia.
Qed.

(** The C string at [a], without its terminator. *)
Definition cstring (h : memory) (a : Z) : list Z :=
  match strlen strlen_fuel a h with Some n => slice h a (Z.to_nat n) | None => [] end.

(** There is one, of a length that can be sent. *)
Definition cstring_ok (h : memory) (a : Z) : Prop := is_Some (strlen strlen_fuel a h).

Lemma strlen16_spec {A} (k : Z -> M Profiler A) ptr e s :
  cstring_ok (heap s) ptr ->
  (forall n, 0 <= n < 2 ^ 16 -> cstring (heap s) ptr = slice (heap s) ptr (Z.to_nat n) ->
     sends m0 e (k n) s) ->
  sends m0 e (len ← strlen16 ptr; k len) s.
Proof.
  intros [n Hn] Hk es H. unfold strlen16. wp_steps.
  eapply wp_expect; [exact Hn |]. apply Hk; [| | exact H].
  - rewrite <- strlen_fuel_eq. exact (strlen_bound _ _ _ _ Hn).
  - unfold cstring. now rewrite Hn.
Qed.

Lemma SendSingleString_z_spec ptr s :
  cstring_ok (heap s) ptr ->
  sends m0 [Single (cstring (heap s) ptr)] (SendSingleString_z ptr) s.
Proof.
  intros Hp. apply strlen16_spec; [done |]. intros n Hn ->. now apply SendSingleString_spec.
Qed.

Lemma SendSecondString_z_spec ptr s :
  cstring_ok (heap s) ptr ->
  sends m0 [Second (cstring (heap s) ptr)] (SendSecondString_z ptr) s.
Proof.
  intros Hp. apply strlen16_spec; [done |]. intros n Hn ->. now apply SendSecondString_spec.
Qed.

Lemma SendString_z_spec str ptr ty s :
  is_string_type ty = true -> in_uint 64 str -> cstring_ok (heap s) ptr ->
  sends m0 [Transfer ty str (cstring (heap s) ptr)] (SendString_z str ptr ty) s.
Proof.
  intros Ht Hs Hp. apply strlen16_spec; [done |]. intros n Hn ->. now apply SendString_spec.
Qed.

(** An allocated source location holds more than its size field. *)
Definition srcloc_ok (ptr : Z) (h : memory) : Prop := 2 < ld 2 ptr h.

Lemma SendSourceLocationPayload_spec ptr s :
  memory_ok (heap s) -> in_uint 64 ptr -> srcloc_ok ptr (heap s) ->
  sends m0 [transfer SourceLocationPayload ptr (ptr + 2) (ld 2 ptr (heap s) - 2) (heap s)]
    (SendSourceLocationPayload ptr) s.
Proof.
  intros Hm Hp Hs es H. pose proof (ld_range 2 ptr (heap s) Hm). red in Hs.
  unfold SendSourceLocationPayload, heap_bytes. wp_steps.
  rewrite uint_small by (red; lia).
  apply (transfer_block SourceLocationPayload); try done.
  - rewrite size_width_pow. cbn [is_long]. lia.
  - change (QueueDataSize_at _) with 9%nat. unfold TargetFrameSize. lia.
Qed.

Lemma SendCallstackAlloc_spec ptr s :
  memory_ok (heap s) -> in_uint 64 ptr ->
  sends m0 [transfer CallstackAllocPayload ptr (ptr + 2) (ld 2 ptr (heap s)) (heap s)]
    (SendCallstackAlloc ptr) s.
Proof.
  intros Hm Hp es H. pose proof (ld_range 2 ptr (heap s) Hm).
  unfold SendCallstackAlloc, heap_bytes. wp_steps.
  apply (transfer_block CallstackAllocPayload); try done.
  change (QueueDataSize_at _) with 9%nat. unfold TargetFrameSize. lia.
Qed.

(** The senders of call stacks reserve space for the length as it is sent, in
    16 bits: a call stack has to have less than 8192 entries. *)
Definition callstack_ok (ptr : Z) (h : memory) : Prop := ld 8 ptr h < 8192.

Lemma SendCallstackPayload64_spec ptr s :
  memory_ok (heap s) -> in_uint 64 ptr -> callstack_ok ptr (heap s) ->
  sends m0 [transfer CallstackPayload ptr (ptr + 8) (ld 8 ptr (heap s) * 8) (heap s)]
    (SendCallstackPayload64 ptr) s.
Proof.
  intros Hm Hp Hc es H. pose proof (ld_range 8 ptr (heap s) Hm). red in Hc.
  unfold SendCallstackPayload64, heap_bytes. do 4 wp_step.
  rewrite (uint_small 64), (uint_small 16) by (red; lia).
  pose proof (transfer_block CallstackPayload ptr (ptr + 8) (ld 8 ptr (heap s) * 8) (heap s) s
    eq_refl Hp ltac:(rewrite size_width_pow; cbn [is_long]; lia)
    ltac:(change (QueueDataSize_at _) with 9%nat; unfold TargetFrameSize; lia) es H) as Hb.
  assert (Hl : length (wire (QueueType.idx CallstackPayload)
    (MemWrite QueueStringTransfer "ptr" ptr (QueueItem_local CallstackPayload))) = 9%nat).
  { rewrite wire_transfer by done. cbn [length]. now rewrite length_le_bytes. }
  unfold append_block in Hb. rewrite !length_app, length_slice, Hl, length_le_bytes in Hb.
  change (size_width CallstackPayload) with 2%nat in Hb.
  change (Z.of_nat (QueueDataSize_at _)) with 9.
  replace (Z.of_nat (9 + _)) with (9 + 2 + ld 8 ptr (heap s) * 8) in Hb by lia.
  unfold wp, mbind, M_bind in *.
  destruct (NeedDataSize _ s) as [[ok s1] |] eqn:E; [| done]. exact Hb.
Qed.

Lemma SendCallstackPayload_spec ptr s :
  memory_ok (heap s) -> in_uint 64 ptr -> callstack_ok ptr (heap s) ->
  sends m0 [transfer CallstackPayload ptr (ptr + 8) (ld 8 ptr (heap s) * 8) (heap s)]
    (SendCallstackPayload ptr) s.
Proof. apply SendCallstackPayload64_spec. Qed.
End Senders.
