(* ===== verification/Dequeue.v ===== *)
(** * The client's dequeue loops

    [Dequeue] drains the lock-free queue of one thread, [DequeueSerial] the
    queue shared by all, [DequeueContextSwitches] the context switches left at
    shutdown.  Each rewrites an item in place, sends what it points to, and
    appends the item to the frame. *)
From S2P Require Import Prelude Queue Wire Client.
Import QueueType(t(..)).

(** The local copies of the reference times a loop works on. *)
Record Refs := mkRefs { refThread : Z; refSerial : Z; refCtx : Z; refGpu : Z }.
#[export] Instance eta_Refs : Eta Refs := fun r =>
  mkRefs (refThread r) (refSerial r) (refCtx r) (refGpu r).

(** [int64_t t = ...; int64_t dt = t - ref; ref = t; MemWrite( ..., dt );] for
    the reference [p] and the member [f] of the structure [l]. *)
(* TracyProfiler.cpp:2730-2733 Dequeue *)
Definition rebase (p : Refs -> Z) `{!FieldSet p} (l : layout) (f : string)
    (r : Refs) (item : list Z) : Refs * list Z :=
  let t := MemRead l f item in
  let dt := sint 64 (t - p r) in
  (r <| p := t |>, MemWrite l f dt item).

(** The variable-width encoding of a non-negative difference: 16 bits, 32 bits
    less the values 16 bits can hold, or 64 bits less both ranges.  Gives the
    type to send, and the difference to store. *)
(* TracyProfiler.cpp:2635-2653 Dequeue *)
Definition narrow (dt : Z) (full t32 t16 : QueueType.t) : QueueType.t * Z :=
  if 0 <=? dt then
    if dt <? ProtocolOffset16Bit then (t16, dt)
    else if dt <? ProtocolOffset32Bit then (t32, sint 64 (dt - ProtocolOffset16Bit))
    else (full, sint 64 (dt - ProtocolOffset32Bit))
  else (full, dt).

Definition set_type (ty : QueueType.t) (item : list Z) : list Z :=
  MemWriteHdr (QueueType.idx ty) item.

Section Dequeue.
Context {P : Platform}.

(* TracyProfiler.cpp:3384-3394 *)
Definition ThreadCtxCheck (threadId : Z) : M Profiler ThreadCtxStatus :=
  ctx ← gets m_threadCtx;
  if ctx =? threadId then mret Same else
  let item := MemWrite QueueThreadContext "thread" threadId (QueueItem_local ThreadContext) in
  ok ← AppendData (wire (QueueType.idx ThreadContext) item);
  if negb ok then mret CtxConnectionLost else
  modify (fun s => s <| m_threadCtx := threadId |> <| m_refTimeThread := 0 |>);;
  mret Changed.

(** The cases that both loops share. *)
Definition send_and_free (ptr size : Z) : M Profiler unit :=
  SendSingleString ptr size;; tracy_free_fast ptr.

(** The memory of a deferred message stays allocated in on-demand builds. *)
Definition send_deferred (ptr size : Z) : M Profiler unit :=
  SendSingleString ptr size;; when (negb TRACY_ON_DEMAND) (tracy_free_fast ptr).

(* TracyProfiler.cpp:2667-2701 Dequeue *)
Definition ZoneBegin_case (ty : QueueType.t) (r : Refs) (item : list Z) : Refs * list Z :=
  let t := MemRead QueueZoneBegin "time" item in
  let dt := sint 64 (t - refThread r) in
  let r := r <| refThread := t |> in
  let srcloc := MemRead QueueZoneBegin "srcloc" item in
  match narrow dt ty (if QueueType.eqb ty ZoneBegin then ZoneBegin32 else ZoneBeginCallstack32)
                     (if QueueType.eqb ty ZoneBegin then ZoneBegin16 else ZoneBeginCallstack16) with
  | ((ZoneBegin16 | ZoneBeginCallstack16) as ty', dt) =>
      let item := set_type ty' item in
      let item := MemWrite QueueZoneBegin16 "time" (uint 16 dt) item in
      (r, MemWrite QueueZoneBegin16 "srcloc" srcloc item)
  | ((ZoneBegin32 | ZoneBeginCallstack32) as ty', dt) =>
      let item := set_type ty' item in
      let item := MemWrite QueueZoneBegin32 "time" (uint 32 dt) item in
      (r, MemWrite QueueZoneBegin32 "srcloc" srcloc item)
  | (_, dt) => (r, MemWrite QueueZoneBegin "time" dt item)
  end.

(* TracyProfiler.cpp:2702-2726 Dequeue *)
Definition ZoneEnd_case (r : Refs) (item : list Z) : Refs * list Z :=
  let t := MemRead QueueZoneEnd "time" item in
  let dt := sint 64 (t - refThread r) in
  let r := r <| refThread := t |> in
  let (ty, dt) := narrow dt ZoneEnd ZoneEnd32 ZoneEnd16 in
  let item := if QueueType.eqb ty ZoneEnd then item else set_type ty item in
  (r, MemWrite QueueZoneEnd "time" dt item).

(* TracyProfiler.cpp:2627-2656 Dequeue *)
Definition CallstackSample_case (ty : QueueType.t) (r : Refs) (item : list Z) :
    Refs * list Z :=
  let t := MemRead QueueCallstackSampleFat "time" item in
  let dt := sint 64 (t - refCtx r) in
  let r := r <| refCtx := t |> in
  let plain := QueueType.eqb ty CallstackSample in
  let (ty', dt) :=
    narrow dt ty (if plain then CallstackSample32 else CallstackSampleContextSwitch32)
                 (if plain then CallstackSample16 else CallstackSampleContextSwitch16) in
  let item := if QueueType.eqb ty' ty then item else set_type ty' item in
  (r, MemWrite QueueCallstackSampleFat "time" dt item).

(* TracyProfiler.cpp:2609-2613 Dequeue *)
Definition Callstack_case (item : list Z) : M Profiler unit :=
  let ptr := MemRead QueueCallstackFat "ptr" item in
  SendCallstackPayload ptr;; tracy_free_fast ptr.

(* TracyProfiler.cpp:2614-2626 Dequeue *)
Definition CallstackAlloc_case (item : list Z) : M Profiler unit :=
  let ptr := MemRead QueueCallstackAllocFat "nativePtr" item in
  when (negb (ptr =? 0))
    (CutCallstack ptr ["lua_pcall"%string];; SendCallstackPayload ptr;;
     tracy_free_fast ptr);;
  let ptr := MemRead QueueCallstackAllocFat "ptr" item in
  SendCallstackAlloc ptr;; tracy_free_fast ptr.

(** Sends the payload at [srcloc] and frees it. *)
Definition srcloc_payload (ptr : Z) : M Profiler unit :=
  SendSourceLocationPayload ptr;; tracy_free_fast ptr.

(** The entries of the [CallstackEntry] array at [data]: name, file, line,
    symbol length and address. *)
(* TracyProfiler.cpp:2814-2831 Dequeue *)
Fixpoint CallstackFrames (data : Z) (n : nat) : M Profiler unit :=
  match n with
  | O => mret tt
  | S n =>
      h ← gets heap;
      let name := ld 8 data h in
      let file := ld 8 (data + 8) h in
      SendSingleString_z name;; SendSecondString_z file;;
      let item := QueueItem_local CallstackFrame in
      let item := MemWrite QueueCallstackFrame "line" (ld 4 (data + 16) h) item in
      let item := MemWrite QueueCallstackFrame "symAddr" (ld 8 (data + 24) h) item in
      let item := MemWrite QueueCallstackFrame "symLen" (ld 4 (data + 20) h) item in
      _ ← AppendData (wire (QueueType.idx CallstackFrame) item);
      tracy_free_fast name;; tracy_free_fast file;;
      CallstackFrames (data + 32) n
  end.

(** What a case of the switch leaves: the reference times, and the item to
    append, or [None] when the case has done all its work ([continue]). *)
Definition pure_case {A} (p : Refs * A) : M Profiler (Refs * option A) :=
  mret (p.1, Some p.2).
Definition after (m : M Profiler unit) (r : Refs) (item : list Z) :
    M Profiler (Refs * option (list Z)) :=
  m;; mret (r, Some item).
Definition skip (m : M Profiler unit) (r : Refs) : M Profiler (Refs * option (list Z)) :=
  m;; mret (r, None).

Definition message_ptr (l : layout) (item : list Z) : Z :=
  TaggedUserlandAddress.GetAddress (MemRead l "textAndMetadata" item).

Definition rebase_after (p : Refs * list Z) (m : M Profiler unit) :
    M Profiler (Refs * option (list Z)) :=
  m;; pure_case p.

(* TracyProfiler.cpp:2560-2608 Dequeue *)
Definition Dequeue_switch_1 (ty : QueueType.t) (r : Refs) (item : list Z) :
    M Profiler (Refs * option (list Z)) :=
  match ty with
  | ZoneText | ZoneName =>
      after (send_and_free (MemRead QueueZoneTextFat "text" item)
               (MemRead QueueZoneTextFat "size" item)) r item
  | Message | MessageCallstack =>
      after (send_and_free (message_ptr QueueMessageFat item)
               (MemRead QueueMessageFat "size" item)) r item
  | MessageColor | MessageColorCallstack =>
      after (send_and_free (message_ptr QueueMessageColorFat item)
               (MemRead QueueMessageColorFat "size" item)) r item
  | MessageAppInfo =>
      after (send_deferred (message_ptr QueueMessageFat item)
               (MemRead QueueMessageFat "size" item)) r item
  | ZoneBeginAllocSrcLoc | ZoneBeginAllocSrcLocCallstack =>
      rebase_after (rebase refThread QueueZoneBegin "time" r item)
        (srcloc_payload (MemRead QueueZoneBegin "srcloc" item))
  | Callstack => after (Callstack_case item) r item
  | CallstackAlloc => after (CallstackAlloc_case item) r item
  | CallstackSample | CallstackSampleContextSwitch =>
      let ptr := MemRead QueueCallstackSampleFat "ptr" item in
      rebase_after (CallstackSample_case ty r item)
        (SendCallstackPayload64 ptr;; tracy_free_fast ptr)
  | FrameImage =>
      let ptr := MemRead QueueFrameImageFat "image" item in
      let w := MemRead QueueFrameImageFat "w" item in
      let h := MemRead QueueFrameImageFat "h" item in
      after (SendLongString ptr ptr (uint 64 (Z.quot (sint 32 (w * h)) 2)) FrameImageData;;
             tracy_free_fast ptr) r item
  | ZoneBegin | ZoneBeginCallstack => pure_case (ZoneBegin_case ty r item)
  | ZoneEnd => pure_case (ZoneEnd_case r item)
  | _ => stop
  end.

(* TracyProfiler.cpp:2728-2877 Dequeue *)
Definition Dequeue_switch_2 (ty : QueueType.t) (r : Refs) (item : list Z) :
    M Profiler (Refs * option (list Z)) :=
  match ty with
  | GpuZoneBegin | GpuZoneBeginCallstack =>
      pure_case (rebase refThread QueueGpuZoneBegin "cpuTime" r item)
  | GpuZoneBeginAllocSrcLoc | GpuZoneBeginAllocSrcLocCallstack =>
      rebase_after (rebase refThread QueueGpuZoneBegin "cpuTime" r item)
        (srcloc_payload (MemRead QueueGpuZoneBegin "srcloc" item))
  | GpuZoneEnd => pure_case (rebase refThread QueueGpuZoneEnd "cpuTime" r item)
  | GpuContextName =>
      after (send_deferred (MemRead QueueGpuContextNameFat "ptr" item)
               (MemRead QueueGpuContextNameFat "size" item)) r item
  | GpuAnnotationName =>
      after (send_and_free (MemRead QueueGpuAnnotationNameFat "ptr" item)
               (MemRead QueueGpuAnnotationNameFat "size" item)) r item
  | PlotDataInt | PlotDataFloat | PlotDataDouble =>
      pure_case (rebase refThread QueuePlotDataInt "time" r item)
  | ContextSwitch => pure_case (rebase refCtx QueueContextSwitch "time" r item)
  | ThreadWakeup => pure_case (rebase refCtx QueueThreadWakeup "time" r item)
  | GpuTime => pure_case (rebase refGpu QueueGpuTime "gpuTime" r item)
  | CallstackFrameSize =>
      if TRACY_HAS_CALLSTACK then
        let data := MemRead QueueCallstackFrameSizeFat "data" item in
        let datasz := MemRead QueueCallstackFrameSizeFat "size" item in
        skip (SendSingleString_z (MemRead QueueCallstackFrameSizeFat "imageName" item);;
              _ ← AppendData (wire (QueueType.idx CallstackFrameSize) item);
              CallstackFrames data (Z.to_nat datasz);;
              tracy_free_fast data) r
      else stop
  | SymbolInformation =>
      if TRACY_HAS_CALLSTACK then
        let fileString := MemRead QueueSymbolInformationFat "fileString" item in
        let needFree := MemRead QueueSymbolInformationFat "needFree" item in
        after (SendSingleString_z fileString;;
               when (negb (needFree =? 0)) (tracy_free_fast fileString)) r item
      else stop
  | SymbolCodeMetadata =>
      if TRACY_HAS_CALLSTACK then
        let ptr := MemRead QueueSymbolCodeMetadata "ptr" item in
        skip (SendLongString (MemRead QueueSymbolCodeMetadata "symbol" item) ptr
                (MemRead QueueSymbolCodeMetadata "size" item) SymbolCode;;
              tracy_free_fast ptr) r
      else stop
  | ExternalNameMetadata =>
      if TRACY_HAS_SYSTEM_TRACING then
        let thread := MemRead QueueExternalNameMetadata "thread" item in
        let name := MemRead QueueExternalNameMetadata "name" item in
        let threadName := MemRead QueueExternalNameMetadata "threadName" item in
        skip (SendString_z thread threadName ExternalThreadName;;
              SendString_z thread name ExternalName;;
              tracy_free_fast threadName;; tracy_free_fast name) r
      else stop
  | SourceCodeMetadata =>
      let ptr := MemRead QueueSourceCodeMetadata "ptr" item in
      skip (SendLongString (MemRead QueueSourceCodeMetadata "id" item) ptr
              (MemRead QueueSourceCodeMetadata "size" item) SourceCode;;
            tracy_free_fast ptr) r
  | SectionEnter =>
      rebase_after (rebase refThread QueueSectionEnter "time" r item)
        (send_and_free (MemRead QueueSectionEnterFat "text" item)
           (MemRead QueueSectionEnterFat "size" item))
  | SectionLeave => pure_case (rebase refThread QueueSectionLeave "time" r item)
  | SectionSetup =>
      after (send_deferred (MemRead QueueSectionSetupFat "text" item)
               (MemRead QueueSectionSetupFat "size" item)) r item
  | _ => Dequeue_switch_1 ty r item
  end.

(** ** The loop over the items of a thread *)

(** One round of the loop; the result says whether the connection holds. *)
(* TracyProfiler.cpp:2555-2561 Dequeue *)
Definition Dequeue_item (r : Refs) (item : list Z) : M Profiler (Refs * bool) :=
  let idx := MemReadHdr item in
  out ← (if idx <? QueueType.idx Terminate then
           ty ← expect (QueueType.of_idx idx); Dequeue_switch_2 ty r item
         else mret (r, Some item));
  match out with
  | (r, None) => mret (r, true)
  | (r, Some item) => ok ← AppendData (wire (MemReadHdr item) item); mret (r, ok)
  end.

(* TracyProfiler.cpp:2911-2919 Dequeue *)
Fixpoint Dequeue_loop (r : Refs) (items : list (list Z)) : M Profiler (Refs * bool) :=
  match items with
  | [] => mret (r, true)
  | item :: items =>
      '(r, ok) ← Dequeue_item r item;
      if ok : bool then Dequeue_loop r items else mret (r, false)
  end.

Definition get_refs : M Profiler Refs :=
  gets (fun s => mkRefs (m_refTimeThread s) (m_refTimeSerial s) (m_refTimeCtx s)
                   (m_refTimeGpu s)).

(** The second callback of the bulk dequeue, on one run of items. *)
(* TracyProfiler.cpp:2546-2554 Dequeue *)
Definition Dequeue_block (items : list (list Z)) : M Profiler bool :=
  assert_ (negb (Nat.eqb (length items) 0));;
  r ← get_refs;
  '(r, ok) ← Dequeue_loop r items;
  modify (fun s => s <| m_refTimeThread := refThread r |> <| m_refTimeCtx := refCtx r |>
                     <| m_refTimeGpu := refGpu r |>);;
  mret ok.

Fixpoint Dequeue_blocks (blocks : list (list (list Z))) : M Profiler bool :=
  match blocks with
  | [] => mret true
  | items :: blocks =>
      ok ← Dequeue_block items;
      if ok : bool then Dequeue_blocks blocks else mret false
  end.

(** [bulk] is what the queue hands over: nothing, or the thread the items are
    of and the runs they are stored in. *)
(* TracyProfiler.cpp:2537-2545 *)
Definition Dequeue (bulk : option (Z * list (list (list Z)))) : M Profiler DequeueStatus :=
  match bulk with
  | None => mret QueueEmpty
  | Some (threadId, blocks) =>
      ctx ← ThreadCtxCheck threadId;
      match ctx with
      | CtxConnectionLost => mret ConnectionLost
      | _ => ok ← Dequeue_blocks blocks;
             mret (if ok : bool then DataDequeued else ConnectionLost)
      end
  end.

(** ** Memory owned by an item that is dropped *)

(** The name and file of each entry of a [CallstackEntry] array. *)
Fixpoint FreeCallstackEntries (data : Z) (n : nat) : M Profiler unit :=
  match n with
  | O => mret tt
  | S n =>
      h ← gets heap;
      tracy_free_fast (ld 8 data h);; tracy_free_fast (ld 8 (data + 8) h);;
      FreeCallstackEntries (data + 32) n
  end.

(* TracyProfiler.cpp:2369-2502 *)
Definition FreeAssociatedMemory (item : list Z) : M Profiler unit :=
  if QueueType.idx Terminate <=? MemReadHdr item then mret tt else
  match QueueType.of_idx (MemReadHdr item) with
  | Some (ZoneText | ZoneName) => tracy_free_fast (MemRead QueueZoneTextFat "text" item)
  | Some (MessageColor | MessageColorCallstack) =>
      tracy_free_fast (message_ptr QueueMessageColorFat item)
  | Some (Message | MessageCallstack) =>
      tracy_free_fast (message_ptr QueueMessageFat item)
  | Some MessageAppInfo =>
      when (negb TRACY_ON_DEMAND) (tracy_free_fast (message_ptr QueueMessageFat item))
  | Some (ZoneBeginAllocSrcLoc | ZoneBeginAllocSrcLocCallstack) =>
      tracy_free_fast (MemRead QueueZoneBegin "srcloc" item)
  | Some (GpuZoneBeginAllocSrcLoc | GpuZoneBeginAllocSrcLocCallstack
         | GpuZoneBeginAllocSrcLocSerial | GpuZoneBeginAllocSrcLocCallstackSerial) =>
      tracy_free_fast (MemRead QueueGpuZoneBegin "srcloc" item)
  | Some (CallstackSerial | Callstack) =>
      tracy_free_fast (MemRead QueueCallstackFat "ptr" item)
  | Some CallstackAlloc =>
      tracy_free_fast (MemRead QueueCallstackAllocFat "nativePtr" item);;
      tracy_free_fast (MemRead QueueCallstackAllocFat "ptr" item)
  | Some (CallstackSample | CallstackSampleContextSwitch) =>
      tracy_free_fast (MemRead QueueCallstackSampleFat "ptr" item)
  | Some FrameImage => tracy_free_fast (MemRead QueueFrameImageFat "image" item)
  | Some CallstackFrameSize =>
      when TRACY_HAS_CALLSTACK
        (let size := MemRead QueueCallstackFrameSizeFat "size" item in
         let data := MemRead QueueCallstackFrameSizeFat "data" item in
         FreeCallstackEntries data (Z.to_nat size);; tracy_free_fast data)
  | Some SymbolInformation =>
      when (TRACY_HAS_CALLSTACK
            && negb (MemRead QueueSymbolInformationFat "needFree" item =? 0))
        (tracy_free_fast (MemRead QueueSymbolInformationFat "fileString" item))
  | Some SymbolCodeMetadata =>
      when TRACY_HAS_CALLSTACK (tracy_free_fast (MemRead QueueSymbolCodeMetadata "ptr" item))
  | Some LockName =>
      when (negb TRACY_ON_DEMAND) (tracy_free_fast (MemRead QueueLockNameFat "name" item))
  | Some GpuContextName =>
      when (negb TRACY_ON_DEMAND)
        (tracy_free_fast (MemRead QueueGpuContextNameFat "ptr" item))
  | Some GpuAnnotationName => tracy_free_fast (MemRead QueueGpuAnnotationNameFat "ptr" item)
  | Some ExternalNameMetadata =>
      when TRACY_HAS_SYSTEM_TRACING
        (tracy_free_fast (MemRead QueueExternalNameMetadata "name" item);;
         tracy_free_fast (MemRead QueueExternalNameMetadata "threadName" item))
  | Some SourceCodeMetadata => tracy_free_fast (MemRead QueueSourceCodeMetadata "ptr" item)
  | Some SectionEnter => tracy_free_fast (MemRead QueueSectionEnterFat "text" item)
  | Some SectionSetup =>
      when (negb TRACY_ON_DEMAND) (tracy_free_fast (MemRead QueueSectionSetupFat "text" item))
  | _ => mret tt
  end.

(* TracyProfiler.cpp:2515-2535 *)
Definition ClearSerial : M Profiler unit :=
  queue ← gets m_serialQueue;
  for_each queue FreeAssociatedMemory;;
  modify (fun s => s <| m_serialQueue := [] |>);;
  dequeue ← gets m_serialDequeue;
  for_each dequeue FreeAssociatedMemory;;
  modify (fun s => s <| m_serialDequeue := [] |>).

(** [blocks]: the items of all the bulk dequeues until the queue is empty. *)
(* TracyProfiler.cpp:2504-2513 *)
Definition ClearQueues (items : list (list Z)) : M Profiler unit :=
  for_each items FreeAssociatedMemory;; ClearSerial.

(** ** Context switches left at shutdown *)

(** [timeStop] becomes negative to stop: -1 after the last switch of interest,
    -2 when the connection is lost. *)
Definition cs_item (l : layout) (ty : QueueType.t) (r timeStop : Z) (item : list Z) :
    M Profiler (Z * Z * bool) :=
  let csTime := MemRead l "time" item in
  if timeStop <? csTime then mret (r, -1, false) else
  let dt := sint 64 (csTime - r) in
  let item := MemWrite l "time" dt item in
  ok ← AppendData (wire (QueueType.idx ty) item);
  mret (if ok : bool then (csTime, timeStop, true) else (csTime, -2, false)).

(** The last component: whether the local reference is still to be stored; the
    loop does not store it when it is entered with the stop already set. *)
(* TracyProfiler.cpp:2936-2978 DequeueContextSwitches *)
Fixpoint DequeueContextSwitches_loop (r timeStop : Z) (items : list (list Z)) :
    M Profiler (Z * Z * bool) :=
  match items with
  | [] => mret (r, timeStop, true)
  | item :: items =>
      FreeAssociatedMemory item;;
      if timeStop <? 0 then mret (r, timeStop, false) else
      let idx := MemReadHdr item in
      '(r, timeStop, more) ←
            (if idx =? QueueType.idx ContextSwitch
             then cs_item QueueContextSwitch ContextSwitch r timeStop item
             else if idx =? QueueType.idx ThreadWakeup
             then cs_item QueueThreadWakeup ThreadWakeup r timeStop item
             else mret (r, timeStop, true));
      if more : bool then DequeueContextSwitches_loop r timeStop items
      else mret (r, timeStop, true)
  end.

Fixpoint DequeueContextSwitches_blocks (timeStop : Z) (blocks : list (list (list Z))) :
    M Profiler Z :=
  match blocks with
  | [] => mret timeStop
  | items :: blocks =>
      assert_ (negb (Nat.eqb (length items) 0));;
      r ← gets m_refTimeCtx;
      '(r, timeStop, store) ← DequeueContextSwitches_loop r timeStop items;
      when store (modify (fun s => s <| m_refTimeCtx := r |>));;
      DequeueContextSwitches_blocks timeStop blocks
  end.

(* TracyProfiler.cpp:2929-2987 *)
Definition DequeueContextSwitches (timeStop : Z) (blocks : list (list (list Z))) :
    M Profiler (DequeueStatus * Z) :=
  timeStop ← DequeueContextSwitches_blocks timeStop blocks;
  mret (if timeStop =? -2 then ConnectionLost
        else if (timeStop =? -1) || negb (Nat.eqb (length blocks) 0) then DataDequeued
        else QueueEmpty, timeStop).

(** ** The serial queue *)

(** [None]: the function returns because the connection is lost. *)
Definition serial_result : Type := option (Refs * list Z).

Definition ret_case (p : Refs * list Z) : M Profiler serial_result := mret (Some p).

(* TracyProfiler.cpp:2989-2997 *)
Definition ThreadCtxCheckSerial (l : layout) (r : Refs) (item : list Z)
    (k : Refs -> M Profiler serial_result) : M Profiler serial_result :=
  status ← ThreadCtxCheck (MemRead l "thread" item);
  match status with
  | Same => k r
  | Changed => ref ← gets m_refTimeThread; assert_ (ref =? 0);; k (r <| refThread := 0 |>)
  | CtxConnectionLost => mret None
  end.

Definition then_case (m : M Profiler unit) (p : Refs * list Z) : M Profiler serial_result :=
  m;; ret_case p.

(* TracyProfiler.cpp:3031-3168 DequeueSerial *)
Definition DequeueSerial_switch_1 (ty : QueueType.t) (r : Refs) (item : list Z) :
    M Profiler serial_result :=
  match ty with
  | CallstackSerial => then_case (Callstack_case item) (r, item)
  | LockWait | LockSharedWait => ret_case (rebase refSerial QueueLockWait "time" r item)
  | LockObtain | LockSharedObtain =>
      ret_case (rebase refSerial QueueLockObtain "time" r item)
  | LockRelease | LockSharedRelease =>
      ret_case (rebase refSerial QueueLockRelease "time" r item)
  | LockName =>
      then_case (send_deferred (MemRead QueueLockNameFat "name" item)
                   (MemRead QueueLockNameFat "size" item)) (r, item)
  | MemAlloc | MemAllocNamed | MemAllocCallstack | MemAllocCallstackNamed =>
      ret_case (rebase refSerial QueueMemAlloc "time" r item)
  | MemFree | MemFreeNamed | MemFreeCallstack | MemFreeCallstackNamed =>
      ret_case (rebase refSerial QueueMemFree "time" r item)
  | MemDiscard | MemDiscardCallstack =>
      ret_case (rebase refSerial QueueMemDiscard "time" r item)
  | GpuZoneBeginSerial | GpuZoneBeginCallstackSerial =>
      ret_case (rebase refSerial QueueGpuZoneBegin "cpuTime" r item)
  | GpuZoneBeginAllocSrcLocSerial | GpuZoneBeginAllocSrcLocCallstackSerial =>
      then_case (srcloc_payload (MemRead QueueGpuZoneBegin "srcloc" item))
        (rebase refSerial QueueGpuZoneBegin "cpuTime" r item)
  | GpuZoneEndSerial => ret_case (rebase refSerial QueueGpuZoneEnd "cpuTime" r item)
  | GpuTime => ret_case (rebase refGpu QueueGpuTime "gpuTime" r item)
  | GpuContextName =>
      then_case (send_deferred (MemRead QueueGpuContextNameFat "ptr" item)
                   (MemRead QueueGpuContextNameFat "size" item)) (r, item)
  | GpuAnnotationName =>
      then_case (send_and_free (MemRead QueueGpuAnnotationNameFat "ptr" item)
                   (MemRead QueueGpuAnnotationNameFat "size" item)) (r, item)
  | _ => stop
  end.

(* TracyProfiler.cpp:3169-3324 DequeueSerial *)
Definition DequeueSerial_switch_2 (ty : QueueType.t) (r : Refs) (item : list Z) :
    M Profiler serial_result :=
  if negb TRACY_FIBERS then DequeueSerial_switch_1 ty r item else
  match ty with
  | ZoneBegin | ZoneBeginCallstack =>
      ThreadCtxCheckSerial QueueZoneBeginThread r item (fun r =>
        ret_case (ZoneBegin_case ty r item))
  | ZoneBeginAllocSrcLoc | ZoneBeginAllocSrcLocCallstack =>
      ThreadCtxCheckSerial QueueZoneBeginThread r item (fun r =>
        then_case (srcloc_payload (MemRead QueueZoneBegin "srcloc" item))
          (rebase refThread QueueZoneBegin "time" r item))
  | ZoneEnd =>
      ThreadCtxCheckSerial QueueZoneEndThread r item (fun r => ret_case (ZoneEnd_case r item))
  | ZoneText | ZoneName =>
      ThreadCtxCheckSerial QueueZoneTextFatThread r item (fun r =>
        then_case (send_and_free (MemRead QueueZoneTextFat "text" item)
                     (MemRead QueueZoneTextFat "size" item)) (r, item))
  | Message | MessageCallstack =>
      ThreadCtxCheckSerial QueueMessageFatThread r item (fun r =>
        then_case (send_and_free (message_ptr QueueMessageFat item)
                     (MemRead QueueMessageFat "size" item)) (r, item))
  | MessageColor | MessageColorCallstack =>
      ThreadCtxCheckSerial QueueMessageColorFatThread r item (fun r =>
        then_case (send_and_free (message_ptr QueueMessageColorFat item)
                     (MemRead QueueMessageColorFat "size" item)) (r, item))
  | Callstack =>
      ThreadCtxCheckSerial QueueCallstackFatThread r item (fun r =>
        then_case (Callstack_case item) (r, item))
  | CallstackAlloc =>
      ThreadCtxCheckSerial QueueCallstackAllocFatThread r item (fun r =>
        then_case (CallstackAlloc_case item) (r, item))
  | FiberEnter =>
      ThreadCtxCheckSerial QueueFiberEnter r item (fun r =>
        ret_case (rebase refThread QueueFiberEnter "time" r item))
  | FiberLeave =>
      ThreadCtxCheckSerial QueueFiberLeave r item (fun r =>
        ret_case (rebase refThread QueueFiberLeave "time" r item))
  | _ => DequeueSerial_switch_1 ty r item
  end.

(** The types that are sent as they are; with fibers, some name a thread. *)
(* TracyProfiler.cpp:3325-3366 DequeueSerial *)
Definition DequeueSerial_other (ty : QueueType.t) (r : Refs) (item : list Z) :
    M Profiler serial_result :=
  let check l := ThreadCtxCheckSerial l r item (fun r => ret_case (r, item)) in
  if negb TRACY_FIBERS then ret_case (r, item) else
  match ty with
  | ZoneColor => check QueueZoneColorThread
  | ZoneValue => check QueueZoneValueThread
  | ZoneValidation => check QueueZoneValidationThread
  | MessageLiteral | MessageLiteralCallstack => check QueueMessageLiteralThread
  | MessageLiteralColor | MessageLiteralColorCallstack => check QueueMessageColorLiteralThread
  | CrashReport => check QueueCrashReportThread
  | _ => ret_case (r, item)
  end.

(** Once a send has failed the items are still processed, but not appended. *)
(* TracyProfiler.cpp:3024-3030 DequeueSerial *)
Fixpoint DequeueSerial_loop (r : Refs) (status : DequeueStatus) (items : list (list Z)) :
    M Profiler (option (Refs * DequeueStatus)) :=
  match items with
  | [] => mret (Some (r, status))
  | item :: items =>
      let idx := MemReadHdr item in
      ty ← expect (QueueType.of_idx idx);
      out ← (if idx <? QueueType.idx Terminate then DequeueSerial_switch_2 ty r item
             else DequeueSerial_other ty r item);
      match out, status with
      | None, _ => mret None
      | Some (r, _), ConnectionLost => DequeueSerial_loop r status items
      | Some (r, item), _ =>
          ok ← AppendData (wire (MemReadHdr item) item);
          DequeueSerial_loop r (if ok : bool then status else ConnectionLost) items
      end
  end.

(* TracyProfiler.cpp:2999-3023 *)
Definition DequeueSerial : M Profiler DequeueStatus :=
  modify (fun s => if Nat.eqb (length (m_serialQueue s)) 0 then s
                   else s <| m_serialQueue := m_serialDequeue s |>
                          <| m_serialDequeue := m_serialQueue s |>);;
  items ← gets m_serialDequeue;
  if Nat.eqb (length items) 0 then mret QueueEmpty else
  r ← get_refs;
  out ← DequeueSerial_loop r DataDequeued items;
  match out with
  | None => mret ConnectionLost
  | Some (r, status) =>
      modify (fun s => s <| m_refTimeSerial := refSerial r |> <| m_refTimeGpu := refGpu r |>
                         <| m_refTimeThread ::= fun t => if TRACY_FIBERS then refThread r else t |>
                         <| m_serialDequeue := [] |>);;
      mret status
  end.
End Dequeue.
