(* ===== verification/DequeueSpec.v ===== *)
(** * What the dequeue loops send

    The specification of the loops of [Dequeue]: for every type of item, the
    events that are appended, the item as it is sent, the reference times
    afterwards, the blocks that are freed and the effect on the heap, as
    functions of the item, the reference times and the heap.  The loops are
    shown to implement it: every frame is read back as the events of the items,
    in order; the send buffer is never overrun; an item's memory is freed exactly
    when it is sent.  What an item is on the wire is written here as the code
    computes it; [DequeueItems] says it in bytes. *)
From S2P Require Import Prelude Queue Wire Client Dequeue.
Import QueueType(t(..)).

(** ** The specification *)
Section Spec.
Context {P : Platform}.

Definition single (h : memory) (ptr n : Z) : event := Single (slice h ptr (Z.to_nat n)).

Definition native_ptr (item : list Z) : Z := MemRead QueueCallstackAllocFat "nativePtr" item.

(** The heap after the item is sent: only cutting a call stack changes it. *)
Definition item_heap (ty : QueueType.t) (item : list Z) (h : memory) : memory :=
  match ty with
  | CallstackAlloc =>
      if native_ptr item =? 0 then h
      else cut_callstack (native_ptr item) ["lua_pcall"%string] h
  | _ => h
  end.

Definition callstack_event (ptr : Z) (h : memory) : event :=
  transfer CallstackPayload ptr (ptr + 8) (ld 8 ptr h * 8) h.
Definition srcloc_event (ptr : Z) (h : memory) : event :=
  transfer SourceLocationPayload ptr (ptr + 2) (ld 2 ptr h - 2) h.

Fixpoint frame_events (data : Z) (n : nat) (h : memory) : list event :=
  match n with
  | O => []
  | S n =>
      let item := QueueItem_local CallstackFrame in
      let item := MemWrite QueueCallstackFrame "line" (ld 4 (data + 16) h) item in
      let item := MemWrite QueueCallstackFrame "symAddr" (ld 8 (data + 24) h) item in
      let item := MemWrite QueueCallstackFrame "symLen" (ld 4 (data + 20) h) item in
      [Single (cstring h (ld 8 data h)); Second (cstring h (ld 8 (data + 8) h));
       Fixed (wire (QueueType.idx CallstackFrame) item)] ++ frame_events (data + 32) n h
  end.

Definition frame_image_size (item : list Z) : Z :=
  uint 64 (Z.quot (sint 32 (MemRead QueueFrameImageFat "w" item *
                            MemRead QueueFrameImageFat "h" item)) 2).

(** The events before the item itself; for the types that are not sent as an
    item, all there are. *)
Definition payload (ty : QueueType.t) (item : list Z) (h : memory) : list event :=
  match ty with
  | ZoneText | ZoneName =>
      [single h (MemRead QueueZoneTextFat "text" item) (MemRead QueueZoneTextFat "size" item)]
  | Message | MessageCallstack | MessageAppInfo =>
      [single h (message_ptr QueueMessageFat item) (MemRead QueueMessageFat "size" item)]
  | MessageColor | MessageColorCallstack =>
      [single h (message_ptr QueueMessageColorFat item)
         (MemRead QueueMessageColorFat "size" item)]
  | ZoneBeginAllocSrcLoc | ZoneBeginAllocSrcLocCallstack =>
      [srcloc_event (MemRead QueueZoneBegin "srcloc" item) h]
  | Callstack | CallstackSerial => [callstack_event (MemRead QueueCallstackFat "ptr" item) h]
  | CallstackAlloc =>
      let h := item_heap ty item h in
      let ptr := MemRead QueueCallstackAllocFat "ptr" item in
      (if native_ptr item =? 0 then [] else [callstack_event (native_ptr item) h]) ++
      [transfer CallstackAllocPayload ptr (ptr + 2) (ld 2 ptr h) h]
  | CallstackSample | CallstackSampleContextSwitch =>
      [callstack_event (MemRead QueueCallstackSampleFat "ptr" item) h]
  | FrameImage =>
      let ptr := MemRead QueueFrameImageFat "image" item in
      [transfer FrameImageData ptr ptr (frame_image_size item) h]
  | GpuZoneBeginAllocSrcLoc | GpuZoneBeginAllocSrcLocCallstack
  | GpuZoneBeginAllocSrcLocSerial | GpuZoneBeginAllocSrcLocCallstackSerial =>
      [srcloc_event (MemRead QueueGpuZoneBegin "srcloc" item) h]
  | GpuContextName =>
      [single h (MemRead QueueGpuContextNameFat "ptr" item)
         (MemRead QueueGpuContextNameFat "size" item)]
  | GpuAnnotationName =>
      [single h (MemRead QueueGpuAnnotationNameFat "ptr" item)
         (MemRead QueueGpuAnnotationNameFat "size" item)]
  | LockName =>
      [single h (MemRead QueueLockNameFat "name" item) (MemRead QueueLockNameFat "size" item)]
  | CallstackFrameSize =>
      Single (cstring h (MemRead QueueCallstackFrameSizeFat "imageName" item)) ::
      Fixed (wire (QueueType.idx ty) item) ::
      frame_events (MemRead QueueCallstackFrameSizeFat "data" item)
        (Z.to_nat (MemRead QueueCallstackFrameSizeFat "size" item)) h
  | SymbolInformation =>
      [Single (cstring h (MemRead QueueSymbolInformationFat "fileString" item))]
  | SymbolCodeMetadata =>
      [transfer SymbolCode (MemRead QueueSymbolCodeMetadata "symbol" item)
         (MemRead QueueSymbolCodeMetadata "ptr" item)
         (MemRead QueueSymbolCodeMetadata "size" item) h]
  | ExternalNameMetadata =>
      let thread := MemRead QueueExternalNameMetadata "thread" item in
      [Transfer ExternalThreadName thread
         (cstring h (MemRead QueueExternalNameMetadata "threadName" item));
       Transfer ExternalName thread
         (cstring h (MemRead QueueExternalNameMetadata "name" item))]
  | SourceCodeMetadata =>
      [transfer SourceCode (MemRead QueueSourceCodeMetadata "id" item)
         (MemRead QueueSourceCodeMetadata "ptr" item)
         (MemRead QueueSourceCodeMetadata "size" item) h]
  | SectionEnter =>
      [single h (MemRead QueueSectionEnterFat "text" item)
         (MemRead QueueSectionEnterFat "size" item)]
  | SectionSetup =>
      [single h (MemRead QueueSectionSetupFat "text" item)
         (MemRead QueueSectionSetupFat "size" item)]
  | _ => []
  end.

(** The item as it is sent, with the reference times after it. *)
Definition sent_item (ty : QueueType.t) (r : Refs) (item : list Z) : Refs * list Z :=
  match ty with
  | ZoneBegin | ZoneBeginCallstack => ZoneBegin_case ty r item
  | ZoneEnd => ZoneEnd_case r item
  | CallstackSample | CallstackSampleContextSwitch => CallstackSample_case ty r item
  | ZoneBeginAllocSrcLoc | ZoneBeginAllocSrcLocCallstack =>
      rebase refThread QueueZoneBegin "time" r item
  | GpuZoneBegin | GpuZoneBeginCallstack | GpuZoneBeginAllocSrcLoc
  | GpuZoneBeginAllocSrcLocCallstack => rebase refThread QueueGpuZoneBegin "cpuTime" r item
  | GpuZoneEnd => rebase refThread QueueGpuZoneEnd "cpuTime" r item
  | PlotDataInt | PlotDataFloat | PlotDataDouble =>
      rebase refThread QueuePlotDataInt "time" r item
  | ContextSwitch => rebase refCtx QueueContextSwitch "time" r item
  | ThreadWakeup => rebase refCtx QueueThreadWakeup "time" r item
  | GpuTime => rebase refGpu QueueGpuTime "gpuTime" r item
  | SectionEnter => rebase refThread QueueSectionEnter "time" r item
  | SectionLeave => rebase refThread QueueSectionLeave "time" r item
  | LockWait | LockSharedWait => rebase refSerial QueueLockWait "time" r item
  | LockObtain | LockSharedObtain => rebase refSerial QueueLockObtain "time" r item
  | LockRelease | LockSharedRelease => rebase refSerial QueueLockRelease "time" r item
  | MemAlloc | MemAllocNamed | MemAllocCallstack | MemAllocCallstackNamed =>
      rebase refSerial QueueMemAlloc "time" r item
  | MemFree | MemFreeNamed | MemFreeCallstack | MemFreeCallstackNamed =>
      rebase refSerial QueueMemFree "time" r item
  | MemDiscard | MemDiscardCallstack => rebase refSerial QueueMemDiscard "time" r item
  | GpuZoneBeginSerial | GpuZoneBeginCallstackSerial | GpuZoneBeginAllocSrcLocSerial
  | GpuZoneBeginAllocSrcLocCallstackSerial =>
      rebase refSerial QueueGpuZoneBegin "cpuTime" r item
  | GpuZoneEndSerial => rebase refSerial QueueGpuZoneEnd "cpuTime" r item
  | FiberEnter => rebase refThread QueueFiberEnter "time" r item
  | FiberLeave => rebase refThread QueueFiberLeave "time" r item
  | _ => (r, item)
  end.

(** The types whose payload is all that is sent. *)
Definition no_item (ty : QueueType.t) : bool :=
  match ty with
  | CallstackFrameSize | SymbolCodeMetadata | ExternalNameMetadata | SourceCodeMetadata => true
  | _ => false
  end.

Definition item_events (ty : QueueType.t) (r : Refs) (item : list Z) (h : memory) : list event :=
  payload ty item h ++
  (if no_item ty then []
   else let item := (sent_item ty r item).2 in [Fixed (wire (MemReadHdr item) item)]).

(** Freeing the null pointer has no effect. *)
Definition free_of (ptr : Z) : list Z := if ptr =? 0 then [] else [ptr].

Fixpoint frees_of_entries (data : Z) (n : nat) (h : memory) : list Z :=
  match n with
  | O => []
  | S n => free_of (ld 8 data h) ++ free_of (ld 8 (data + 8) h) ++
           frees_of_entries (data + 32) n h
  end.

(** The blocks an item owns. *)
Definition item_frees (ty : QueueType.t) (item : list Z) (h : memory) : list Z :=
  match ty with
  | ZoneText | ZoneName => free_of (MemRead QueueZoneTextFat "text" item)
  | Message | MessageCallstack => free_of (message_ptr QueueMessageFat item)
  | MessageColor | MessageColorCallstack => free_of (message_ptr QueueMessageColorFat item)
  | MessageAppInfo =>
      if TRACY_ON_DEMAND then [] else free_of (message_ptr QueueMessageFat item)
  | ZoneBeginAllocSrcLoc | ZoneBeginAllocSrcLocCallstack =>
      free_of (MemRead QueueZoneBegin "srcloc" item)
  | Callstack | CallstackSerial => free_of (MemRead QueueCallstackFat "ptr" item)
  | CallstackAlloc =>
      free_of (native_ptr item) ++ free_of (MemRead QueueCallstackAllocFat "ptr" item)
  | CallstackSample | CallstackSampleContextSwitch =>
      free_of (MemRead QueueCallstackSampleFat "ptr" item)
  | FrameImage => free_of (MemRead QueueFrameImageFat "image" item)
  | GpuZoneBeginAllocSrcLoc | GpuZoneBeginAllocSrcLocCallstack
  | GpuZoneBeginAllocSrcLocSerial | GpuZoneBeginAllocSrcLocCallstackSerial =>
      free_of (MemRead QueueGpuZoneBegin "srcloc" item)
  | GpuContextName =>
      if TRACY_ON_DEMAND then [] else free_of (MemRead QueueGpuContextNameFat "ptr" item)
  | GpuAnnotationName => free_of (MemRead QueueGpuAnnotationNameFat "ptr" item)
  | LockName => if TRACY_ON_DEMAND then [] else free_of (MemRead QueueLockNameFat "name" item)
  | CallstackFrameSize =>
      let data := MemRead QueueCallstackFrameSizeFat "data" item in
      frees_of_entries data (Z.to_nat (MemRead QueueCallstackFrameSizeFat "size" item)) h ++
      free_of data
  | SymbolInformation =>
      if MemRead QueueSymbolInformationFat "needFree" item =? 0 then []
      else free_of (MemRead QueueSymbolInformationFat "fileString" item)
  | SymbolCodeMetadata => free_of (MemRead QueueSymbolCodeMetadata "ptr" item)
  | ExternalNameMetadata =>
      free_of (MemRead QueueExternalNameMetadata "threadName" item) ++
      free_of (MemRead QueueExternalNameMetadata "name" item)
  | SourceCodeMetadata => free_of (MemRead QueueSourceCodeMetadata "ptr" item)
  | SectionEnter => free_of (MemRead QueueSectionEnterFat "text" item)
  | SectionSetup =>
      if TRACY_ON_DEMAND then [] else free_of (MemRead QueueSectionSetupFat "text" item)
  | _ => []
  end.

Definition entries_ok (data : Z) (n : nat) (h : memory) : Prop :=
  forall i, (i < n)%nat -> cstring_ok h (ld 8 (data + 32 * Z.of_nat i) h) /\
    cstring_ok h (ld 8 (data + 32 * Z.of_nat i + 8) h).

(** The memory an item points to can be sent: its call stacks have less than
    8192 entries, its strings end, its large blocks fit a frame. *)
Definition sendable (ty : QueueType.t) (item : list Z) (h : memory) : Prop :=
  match ty with
  | Callstack | CallstackSerial => callstack_ok (MemRead QueueCallstackFat "ptr" item) h
  | CallstackSample | CallstackSampleContextSwitch =>
      callstack_ok (MemRead QueueCallstackSampleFat "ptr" item) h
  | CallstackAlloc => callstack_ok (native_ptr item) h
  | ZoneBeginAllocSrcLoc | ZoneBeginAllocSrcLocCallstack =>
      srcloc_ok (MemRead QueueZoneBegin "srcloc" item) h
  | GpuZoneBeginAllocSrcLoc | GpuZoneBeginAllocSrcLocCallstack
  | GpuZoneBeginAllocSrcLocSerial | GpuZoneBeginAllocSrcLocCallstackSerial =>
      srcloc_ok (MemRead QueueGpuZoneBegin "srcloc" item) h
  | FrameImage => 9 + 4 + frame_image_size item <= TargetFrameSize
  | CallstackFrameSize =>
      cstring_ok h (MemRead QueueCallstackFrameSizeFat "imageName" item) /\
      entries_ok (MemRead QueueCallstackFrameSizeFat "data" item)
        (Z.to_nat (MemRead QueueCallstackFrameSizeFat "size" item)) h
  | SymbolInformation =>
      cstring_ok h (MemRead QueueSymbolInformationFat "fileString" item)
  | SymbolCodeMetadata =>
      9 + 4 + MemRead QueueSymbolCodeMetadata "size" item <= TargetFrameSize
  | SourceCodeMetadata =>
      9 + 4 + MemRead QueueSourceCodeMetadata "size" item <= TargetFrameSize
  | ExternalNameMetadata =>
      cstring_ok h (MemRead QueueExternalNameMetadata "threadName" item) /\
      cstring_ok h (MemRead QueueExternalNameMetadata "name" item)
  | _ => True
  end.

(** The types the queue of a thread may hold; some exist in some builds only. *)
Definition thread_type (ty : QueueType.t) : bool :=
  match ty with
  | ZoneText | ZoneName | Message | MessageCallstack | MessageColor | MessageColorCallstack
  | MessageAppInfo | ZoneBeginAllocSrcLoc | ZoneBeginAllocSrcLocCallstack | Callstack
  | CallstackAlloc | CallstackSample | CallstackSampleContextSwitch | FrameImage | ZoneBegin
  | ZoneBeginCallstack | ZoneEnd | GpuZoneBegin | GpuZoneBeginCallstack
  | GpuZoneBeginAllocSrcLoc | GpuZoneBeginAllocSrcLocCallstack | GpuZoneEnd | GpuContextName
  | GpuAnnotationName | PlotDataInt | PlotDataFloat | PlotDataDouble | ContextSwitch
  | ThreadWakeup | GpuTime | SourceCodeMetadata | SectionEnter | SectionLeave
  | SectionSetup => true
  | CallstackFrameSize | SymbolInformation | SymbolCodeMetadata => TRACY_HAS_CALLSTACK
  | ExternalNameMetadata => TRACY_HAS_SYSTEM_TRACING
  | _ => QueueType.idx Terminate <=? QueueType.idx ty
  end.

(** The types the serial queue may hold in builds without fibers. *)
Definition serial_type (ty : QueueType.t) : bool :=
  match ty with
  | CallstackSerial | LockWait | LockSharedWait | LockObtain | LockSharedObtain | LockRelease
  | LockSharedRelease | LockName | MemAlloc | MemAllocNamed | MemAllocCallstack
  | MemAllocCallstackNamed | MemFree | MemFreeNamed | MemFreeCallstack
  | MemFreeCallstackNamed | MemDiscard | MemDiscardCallstack | GpuZoneBeginSerial
  | GpuZoneBeginCallstackSerial | GpuZoneBeginAllocSrcLocSerial
  | GpuZoneBeginAllocSrcLocCallstackSerial | GpuZoneEndSerial | GpuTime | GpuContextName
  | GpuAnnotationName => true
  | _ => QueueType.idx Terminate <=? QueueType.idx ty
  end.

(** An item as the queues hold it. *)
Definition item_ok (ty : QueueType.t) (item : list Z) : Prop :=
  MemReadHdr item = QueueType.idx ty /\ length item = QueueItemSize /\
  is_transfer ty = false /\ is_string ty = false.
End Spec.

(** ** Sequences of sends and frees *)

(** Neither sending nor freeing touches the reference times or the queues. *)
Definition same_ctx (s s' : Profiler) : Prop :=
  m_threadCtx s' = m_threadCtx s /\ m_refTimeThread s' = m_refTimeThread s /\
  m_refTimeSerial s' = m_refTimeSerial s /\ m_refTimeCtx s' = m_refTimeCtx s /\
  m_refTimeGpu s' = m_refTimeGpu s /\ m_serialQueue s' = m_serialQueue s /\
  m_serialDequeue s' = m_serialDequeue s.

#[export] Instance same_ctx_refl : Reflexive same_ctx.
Proof. done. Qed.
#[export] Instance same_ctx_trans : Transitive same_ctx.
Proof. intros x y z (?&?&?&?&?&?&?) (?&?&?&?&?&?&?). repeat split; congruence. Qed.

Section Emits.
Context {P : Platform} (m0 : memory).

(** From [s], [m] appends the events [new], frees [fr], leaves the heap [h']
    and gives a result that satisfies [R]. *)
Definition emits {A} (new : list event) (fr : list Z) (h' : memory) (R : A -> Prop)
    (m : M Profiler A) (s : Profiler) : Prop :=
  forall es, logged m0 es [] s ->
    wp m (fun a s' => logged m0 (es ++ new) [] s' /\ same_ctx s s' /\ heap s' = h' /\
             freed s' = freed s ++ fr /\ R a) s.

Lemma emits_ret {A} (a : A) (R : A -> Prop) h s :
  R a -> heap s = h -> emits [] [] h R (mret a) s.
Proof. intros HR Hh es H. apply wp_ret. now rewrite !app_nil_r. Qed.

Lemma emits_bind {A B} n1 n2 f1 f2 h1 h2 (R1 : A -> Prop) (R2 : B -> Prop)
    (m : M Profiler A) (k : A -> M Profiler B) s :
  emits n1 f1 h1 R1 m s ->
  (forall a s1, heap s1 = h1 -> R1 a -> emits n2 f2 h2 R2 (k a) s1) ->
  emits (n1 ++ n2) (f1 ++ f2) h2 R2 (m ≫= k) s.
Proof.
  intros Hm Hk es H. apply wp_bind. eapply wp_mono; [apply Hm, H |].
  intros a s1 (H1 & Hc1 & Hh1 & Hf1 & HR1).
  eapply wp_mono; [apply (Hk a s1 Hh1 HR1), H1 |].
  intros b s2 (H2 & Hc2 & Hh2 & Hf2 & HR2). rewrite <- !app_assoc in *.
  split; [done |]. split; [etrans; eauto |]. split; [done |]. split; [| done].
  now rewrite Hf2, Hf1, app_assoc.
Qed.

Lemma emits_sends {A} new (m : M Profiler A) s :
  sends m0 new m s -> emits new [] (heap s) (fun _ => True) m s.
Proof.
  intros Hm es H. eapply wp_mono; [apply Hm, H |].
  intros a s' (H' & ? & ? & ? & ? & ? & ? & ? & ? & ?). rewrite app_nil_r.
  repeat split; auto; apply H'.
Qed.

Lemma emits_sends' {A} new h (m : M Profiler A) s :
  sends m0 new m s -> heap s = h -> emits new [] h (fun _ => True) m s.
Proof. intros Hm <-. now apply emits_sends. Qed.

Lemma logged_mono es part s s' :
  logged m0 es part s -> m_buffer s' = m_buffer s -> m_bufferStart s' = m_bufferStart s ->
  m_bufferOffset s' = m_bufferOffset s -> m_sent s' = m_sent s -> logged m0 es part s'.
Proof.
  intros [[H1 H2 H3 H4] (gs & cur & Hg & Hp & Hes & Hok)] Eb Es Eo Em.
  split; [split; rewrite ?Es, ?Eo, ?Eb, ?Em; auto |].
  exists gs, cur. unfold pending in *. rewrite Em, Eb, Es, Eo. auto.
Qed.

Lemma emits_free ptr h s :
  heap s = h -> emits [] (free_of ptr) h (fun _ => True) (tracy_free_fast ptr) s.
Proof.
  intros <- es H. apply wp_modify. rewrite app_nil_r.
  split; [eapply logged_mono; [exact H | reflexivity ..] |]. split; [repeat split |].
  split; [done |].
  cbn. unfold free_of. split; [case_match; [now rewrite app_nil_r | done] | done].
Qed.

Lemma emits_when b new fr h m s :
  heap s = h -> (b = true -> emits new fr h (fun _ => True) m s) ->
  emits (if b then new else []) (if b then fr else []) h (fun _ => True) (when b m) s.
Proof. intros Hh Hm. destruct b; [now apply Hm | now apply emits_ret]. Qed.

Lemma emits_cut ptr pats h s :
  heap s = h ->
  emits [] [] (cut_callstack ptr pats h) (fun _ => True) (CutCallstack ptr pats) s.
Proof.
  intros <- es H. apply wp_modify. rewrite !app_nil_r.
  split; [eapply logged_mono; [exact H | reflexivity ..] |]. split; [repeat split |]. done.
Qed.

(** ** The cases of the switches *)
Lemma emits_conv {A} n n' f f' h (R R' : A -> Prop) m s :
  emits n f h R m s -> n = n' -> f = f' -> (forall a, R a -> R' a) -> emits n' f' h R' m s.
Proof.
  intros Hm <- <- HR es H. eapply wp_mono; [apply Hm, H |].
  intros a s' (? & ? & ? & ? & ?). naive_solver.
Qed.

(** A call followed by a pure result. *)
Lemma emits_then {A B} n f h (R : A -> Prop) (R' : B -> Prop) m (b : B) s :
  emits n f h R m s -> R' b -> emits n f h R' (m ≫= fun _ => mret b) s.
Proof.
  intros Hm HR. eapply emits_conv.
  - eapply emits_bind with (R2 := R'); [exact Hm |]. intros a s1 Hh _. now apply emits_ret.
  - apply app_nil_r.
  - apply app_nil_r.
  - done.
Qed.

(** A call that sends, followed by freeing what was sent. *)
Lemma emits_send_free {A} n h (m : M Profiler A) ptr s :
  sends m0 n m s -> heap s = h ->
  emits n (free_of ptr) h (fun _ => True) (m;; tracy_free_fast ptr) s.
Proof.
  intros Hm Hh. eapply emits_conv.
  - eapply emits_bind; [apply emits_sends'; [exact Hm | exact Hh] |].
    intros a s1 Hh1 _. apply emits_free, Hh1.
  - apply app_nil_r.
  - done.
  - done.
Qed.

Lemma emits_send_and_free ptr n h s :
  heap s = h -> 0 <= n < 2 ^ 16 ->
  emits [single h ptr n] (free_of ptr) h (fun _ => True) (send_and_free ptr n) s.
Proof. intros <- Hn. apply emits_send_free; [now apply SendSingleString_spec | done]. Qed.

Lemma emits_send_deferred ptr n h s :
  heap s = h -> 0 <= n < 2 ^ 16 ->
  emits [single h ptr n] (if TRACY_ON_DEMAND then [] else free_of ptr) h (fun _ => True)
    (send_deferred ptr n) s.
Proof.
  intros Hh Hn. unfold send_deferred.
  eapply emits_conv.
  - eapply emits_bind; [apply emits_sends'; [now apply SendSingleString_spec | exact Hh] |].
    intros a s1 Hh1 _. apply emits_when with (new := []); [exact Hh1 |].
    intros _. apply emits_free, Hh1.
  - rewrite Hh. now destruct TRACY_ON_DEMAND.
  - now destruct TRACY_ON_DEMAND.
  - done.
Qed.

(** Members of unsigned types are in range. *)
Lemma MemRead_uint l f o t item :
  offset_of f l = Some (o, t) ->
  match t with I8 | I16 | I32 | I64 => False | _ => True end ->
  in_uint (8 * Z.of_nat (sizeof_type t)) (MemRead l f item).
Proof.
  intros E Ht. unfold MemRead. rewrite E. destruct t; first [done | apply uint_range; lia].
Qed.

Lemma MemRead_u64 l f o item :
  offset_of f l = Some (o, U64) -> in_uint 64 (MemRead l f item).
Proof. intros E. apply (MemRead_uint l f o U64 item E). done. Qed.

Lemma MemRead_u32 l f o item :
  offset_of f l = Some (o, U32) -> in_uint 32 (MemRead l f item).
Proof. intros E. apply (MemRead_uint l f o U32 item E). done. Qed.

Lemma MemRead_u16 l f o item :
  offset_of f l = Some (o, U16) -> in_uint 16 (MemRead l f item).
Proof. intros E. apply (MemRead_uint l f o U16 item E). done. Qed.

Lemma u32_u64 x : in_uint 32 x -> in_uint 64 x.
Proof. unfold in_uint. lia. Qed.

Lemma ptr_range p : in_uint 64 p -> in_uint 64 (TaggedUserlandAddress.GetAddress p).
Proof.
  unfold in_uint, TaggedUserlandAddress.GetAddress. intros H.
  rewrite Z.shiftr_div_pow2 by done. unfold TaggedUserlandAddress.ptrShift.
  split; [apply Z.div_pos; lia | apply Z.div_lt_upper_bound; lia].
Qed.
End Emits.

(** ** Cutting a call stack keeps the heap well-formed *)
Lemma ld_st n a v h : ld n a (st n a v h) = uint (8 * Z.of_nat n) v.
Proof.
  unfold ld, st. rewrite <- (length_le_bytes n v) at 2. rewrite slice_memcpy_same.
  apply le_val_bytes.
Qed.

Lemma memory_ok_memcpy a d h :
  memory_ok h -> Forall byte_ok d -> memory_ok (memcpy a d h).
Proof.
  intros Hh Hd x. unfold memcpy. destruct (_ && _); [| apply Hh].
  destruct (nth_in_or_default (Z.to_nat (x - a)) d 0) as [Hin | ->]; [| done].
  apply list_elem_of_In in Hin. rewrite Forall_forall in Hd. now apply Hd.
Qed.

Lemma memory_ok_slice a n h : memory_ok h -> Forall byte_ok (slice h a n).
Proof. intros Hh. unfold slice. apply Forall_fmap, Forall_true. intros x. apply Hh. Qed.

Section Cut.
Context {P : Platform}.

Lemma find_frame_bound pat data i j :
  find_frame pat data i = Some j -> i < j <= i + Z.of_nat (length data).
Proof.
  revert i; induction data as [| d data IH]; intros i; simpl; [done |].
  destruct (strstr _ _); [intros [= <-]; lia |]. intros H%IH. lia.
Qed.

Lemma cut_index_bound pats data j :
  cut_index pats data = Some j -> 0 < j <= Z.of_nat (length data).
Proof.
  induction pats as [| pat pats IH]; simpl; [done |].
  destruct (find_frame pat data 0) eqn:E; [| done].
  intros [= <-]. now apply find_frame_bound in E.
Qed.

Lemma cut_callstack_ok ptr pats h : memory_ok h -> memory_ok (cut_callstack ptr pats h).
Proof.
  intros Hh. unfold cut_callstack. destruct TRACY_HAS_CALLSTACK; [| done].
  destruct (cut_index _ _); [| done]. destruct (_ =? _); [done |].
  apply memory_ok_memcpy; [| apply le_bytes_ok].
  apply memory_ok_memcpy; [done | now apply memory_ok_slice].
Qed.

Lemma cut_callstack_size ptr pats h :
  memory_ok h -> ld 8 ptr (cut_callstack ptr pats h) <= ld 8 ptr h.
Proof.
  intros Hh. pose proof (ld_range 8 ptr h Hh). unfold cut_callstack.
  destruct TRACY_HAS_CALLSTACK; [| lia].
  destruct (cut_index _ _) as [i |] eqn:E; [| lia]. destruct (_ =? _); [lia |].
  apply cut_index_bound in E. unfold words in E. rewrite length_map, length_seq in E.
  rewrite ld_st, uint_small by (red; lia). lia.
Qed.
End Cut.

Section Cases.
Context {P : Platform} (m0 : memory).
Implicit Types (h : memory) (s : Profiler) (item : list Z).

Lemma Callstack_case_spec item h s :
  heap s = h -> memory_ok h -> callstack_ok (MemRead QueueCallstackFat "ptr" item) h ->
  emits m0 [callstack_event (MemRead QueueCallstackFat "ptr" item) h]
    (free_of (MemRead QueueCallstackFat "ptr" item)) h (fun _ => True) (Callstack_case item) s.
Proof.
  intros <- Hm Hc. apply emits_send_free; [| done].
  apply SendCallstackPayload_spec; [done | now apply (MemRead_u64 _ _ 0) | done].
Qed.

Lemma srcloc_payload_spec ptr h s :
  heap s = h -> memory_ok h -> in_uint 64 ptr -> srcloc_ok ptr h ->
  emits m0 [srcloc_event ptr h] (free_of ptr) h (fun _ => True) (srcloc_payload ptr) s.
Proof.
  intros <- Hm Hp Hs. apply emits_send_free; [| done].
  now apply SendSourceLocationPayload_spec.
Qed.

Lemma CallstackAlloc_case_spec item h s :
  heap s = h -> memory_ok h -> callstack_ok (native_ptr item) h ->
  emits m0 (payload CallstackAlloc item h) (item_frees CallstackAlloc item h)
    (item_heap CallstackAlloc item h) (fun _ => True) (CallstackAlloc_case item) s.
Proof.
  intros Hh Hm Hc. unfold CallstackAlloc_case, payload, item_frees, item_heap.
  fold (native_ptr item). set (h' := cut_callstack (native_ptr item) ["lua_pcall"%string] h).
  assert (Hm' : memory_ok h') by now apply cut_callstack_ok.
  assert (Hc' : callstack_ok (native_ptr item) h').
  { red. eapply Z.le_lt_trans; [now apply cut_callstack_size | exact Hc]. }
  assert (Hp : in_uint 64 (native_ptr item)) by now apply (MemRead_u64 _ _ 8).
  eapply emits_bind with (f2 := free_of (MemRead QueueCallstackAllocFat "ptr" item))
    (h1 := if native_ptr item =? 0 then h else h') (R1 := fun _ => True).
  - unfold free_of. destruct (native_ptr item =? 0) eqn:E; simpl; [now apply emits_ret |].
    eapply emits_conv.
    + eapply emits_bind; [apply emits_cut, Hh |]. intros _ s1 Hh1 _.
      apply emits_send_free with (n := [callstack_event (native_ptr item) h']); [| exact Hh1].
      fold h' in Hh1. unfold callstack_event. rewrite <- Hh1.
      apply SendCallstackPayload_spec; rewrite ?Hh1; done.
    + done.
    + unfold free_of. now rewrite E.
    + done.
  - intros _ s1 Hh1 _. apply emits_send_free; [| done]. rewrite <- Hh1.
    apply SendCallstackAlloc_spec; [| now apply (MemRead_u64 _ _ 0)].
    rewrite Hh1. now case_match.
Qed.

Definition unsigned_type (t : ctype) : bool :=
  match t with I8 | I16 | I32 | I64 => false | _ => true end.

Lemma MemRead_nonneg l f o t item :
  offset_of f l = Some (o, t) -> unsigned_type t = true -> 0 <= MemRead l f item.
Proof.
  intros E Ht. apply (MemRead_uint _ _ _ _ item) in E; [| now destruct t]. apply E.
Qed.

Lemma ld8_u64 a h : memory_ok h -> in_uint 64 (ld 8 a h).
Proof. intros Hm. apply (ld_range 8 a h Hm). Qed.

Lemma event_ok_wire ty item :
  item_ok ty item -> event_ok (Fixed (wire (QueueType.idx ty) item)).
Proof.
  intros (Hh & Hlen & Ht & Hs). exists ty. unfold wire.
  assert (Hb : (1 <= QueueDataSize_at (QueueType.idx ty) <= QueueItemSize)%nat)
    by (destruct ty; vm_compute; lia).
  rewrite length_take, Hlen. repeat split; auto; try lia.
  transitivity (MemReadHdr item); [| done]. unfold MemReadHdr, rd.
  rewrite !drop_0, take_take. do 2 f_equal.
  unfold sizeof_hdr. lia.
Qed.

Lemma MemReadHdr_local ty : MemReadHdr (QueueItem_local ty) = QueueType.idx ty.
Proof. destruct ty; reflexivity. Qed.

Lemma local_ok ty :
  is_transfer ty = false -> is_string ty = false -> item_ok ty (QueueItem_local ty).
Proof. intros Ht Hs. split; [apply MemReadHdr_local | done]. Qed.

Lemma item_ok_write ty l f v item :
  (sizeof l <= 31)%nat -> item_ok ty item -> item_ok ty (MemWrite l f v item).
Proof.
  intros Hl (Hh & Hlen & Ht & Hs). rewrite QueueItemSize_32 in Hlen.
  repeat split; auto.
  - now rewrite MemReadHdr_write by (unfold sizeof_hdr; lia).
  - now rewrite length_MemWrite by (unfold sizeof_hdr; lia).
Qed.

Lemma CallstackFrames_spec data n h s :
  heap s = h -> memory_ok h -> entries_ok data n h ->
  emits m0 (frame_events data n h) (frees_of_entries data n h) h (fun _ => True)
    (CallstackFrames data n) s.
Proof.
  intros Hh Hm. revert data s Hh; induction n as [| n IH]; intros data s Hh Hok; simpl;
    [now apply emits_ret |].
  destruct (Hok O ltac:(lia)) as [Hname Hfile]. rewrite Z.add_0_r in *.
  eapply emits_bind with (n1 := []) (f1 := []) (h1 := h) (R1 := fun a => a = h).
  { intros es H. apply wp_gets. rewrite !app_nil_r. done. }
  intros ? s1 Hh1 ->.
  apply emits_bind with (n1 := [_]) (f1 := []) (h1 := h) (R1 := fun _ => True).
  { apply emits_sends'; [| done]. rewrite <- Hh1. apply SendSingleString_z_spec.
    now rewrite Hh1. }
  intros _ s2 Hh2 _.
  apply emits_bind with (n1 := [_]) (f1 := []) (h1 := h) (R1 := fun _ => True).
  { apply emits_sends'; [| done]. rewrite <- Hh2. apply SendSecondString_z_spec.
    now rewrite Hh2. }
  intros _ s3 Hh3 _.
  apply emits_bind with (n1 := [_]) (f1 := []) (h1 := h) (R1 := fun _ => True).
  { apply emits_sends'; [| done]. apply AppendData_spec, (event_ok_wire CallstackFrame).
    repeat (apply item_ok_write; [vm_compute; lia |]). now apply local_ok. }
  intros _ s4 Hh4 _.
  apply emits_bind with (n1 := []) (h1 := h) (R1 := fun _ => True); [now apply emits_free |].
  intros _ s5 Hh5 _.
  apply emits_bind with (n1 := []) (h1 := h) (R1 := fun _ => True); [now apply emits_free |].
  intros _ s6 Hh6 _. apply IH; [done |]. intros i Hi.
  destruct (Hok (S i) ltac:(lia)) as [H1 H2].
  replace (data + 32 + 32 * Z.of_nat i) with (data + 32 * Z.of_nat (S i)) by lia.
  exact (conj H1 H2).
Qed.

(** What the switch leaves for the rest of the loop. *)
Definition switch_result (ty : QueueType.t) (r : Refs) (item : list Z) :
    Refs * option (list Z) :=
  if no_item ty then (r, None) else ((sent_item ty r item).1, Some (sent_item ty r item).2).

Ltac member_range :=
  first [ eapply MemRead_nonneg; reflexivity
        | eapply MemRead_u16; reflexivity
        | eapply MemRead_u64; reflexivity
        | eapply u32_u64, MemRead_u32; reflexivity
        | done ].

Lemma long_string_spec id ptr n ty h s :
  heap s = h -> is_long ty = true -> in_uint 64 id -> 0 <= n -> 9 + 4 + n <= TargetFrameSize ->
  emits m0 [transfer ty id ptr n h] (free_of ptr) h (fun _ => True)
    (SendLongString id ptr n ty;; tracy_free_fast ptr) s.
Proof.
  intros <- Hty Hp Hn Hf. apply emits_send_free; [| done]. now apply SendLongString_spec.
Qed.

Lemma CallstackSample_payload_spec ptr h s :
  heap s = h -> memory_ok h -> in_uint 64 ptr -> callstack_ok ptr h ->
  emits m0 [callstack_event ptr h] (free_of ptr) h (fun _ => True)
    (SendCallstackPayload64 ptr;; tracy_free_fast ptr) s.
Proof.
  intros <- Hm Hp Hc. apply emits_send_free; [| done]. now apply SendCallstackPayload64_spec.
Qed.

Lemma CallstackFrameSize_spec item h s :
  heap s = h -> memory_ok h -> item_ok CallstackFrameSize item ->
  sendable CallstackFrameSize item h ->
  emits m0 (payload CallstackFrameSize item h) (item_frees CallstackFrameSize item h) h
    (fun _ => True)
    (SendSingleString_z (MemRead QueueCallstackFrameSizeFat "imageName" item);;
     _ ← AppendData (wire (QueueType.idx CallstackFrameSize) item);
     CallstackFrames (MemRead QueueCallstackFrameSizeFat "data" item)
       (Z.to_nat (MemRead QueueCallstackFrameSizeFat "size" item));;
     tracy_free_fast (MemRead QueueCallstackFrameSizeFat "data" item)) s.
Proof.
  intros Hh Hm Hi [Himg Hent]. unfold payload.
  apply emits_bind with (n1 := [_]) (f1 := []) (h1 := h) (R1 := fun _ => True).
  { apply emits_sends'; [| done]. rewrite <- Hh. apply SendSingleString_z_spec.
    now rewrite Hh. }
  intros _ s1 Hh1 _.
  apply emits_bind with (n1 := [_]) (f1 := []) (h1 := h) (R1 := fun _ => True).
  { apply emits_sends'; [| done]. now apply AppendData_spec, event_ok_wire. }
  intros _ s2 Hh2 _. rewrite <- (app_nil_r (frame_events _ _ _)).
  apply emits_bind with (h1 := h) (R1 := fun _ => True); [now apply CallstackFrames_spec |].
  intros _ s3 Hh3 _. now apply emits_free.
Qed.

Lemma SymbolInformation_spec item h s :
  heap s = h -> sendable SymbolInformation item h ->
  emits m0 (payload SymbolInformation item h) (item_frees SymbolInformation item h) h
    (fun _ => True)
    (SendSingleString_z (MemRead QueueSymbolInformationFat "fileString" item);;
     when (negb (MemRead QueueSymbolInformationFat "needFree" item =? 0))
       (tracy_free_fast (MemRead QueueSymbolInformationFat "fileString" item))) s.
Proof.
  intros Hh Hs. eapply emits_conv.
  - eapply emits_bind with (h1 := h) (R1 := fun _ => True).
    + apply emits_sends'; [apply SendSingleString_z_spec; now rewrite Hh | exact Hh].
    + intros _ s1 Hh1 _. apply emits_when with (new := []); [exact Hh1 |].
      intros _. apply emits_free, Hh1.
  - rewrite Hh. simpl. now destruct (_ =? 0).
  - simpl. now destruct (_ =? 0).
  - done.
Qed.

Lemma ExternalName_spec item h s :
  heap s = h -> sendable ExternalNameMetadata item h ->
  emits m0 (payload ExternalNameMetadata item h) (item_frees ExternalNameMetadata item h) h
    (fun _ => True)
    (SendString_z (MemRead QueueExternalNameMetadata "thread" item)
       (MemRead QueueExternalNameMetadata "threadName" item) ExternalThreadName;;
     SendString_z (MemRead QueueExternalNameMetadata "thread" item)
       (MemRead QueueExternalNameMetadata "name" item) ExternalName;;
     tracy_free_fast (MemRead QueueExternalNameMetadata "threadName" item);;
     tracy_free_fast (MemRead QueueExternalNameMetadata "name" item)) s.
Proof.
  intros Hh [Ht Hn]. unfold payload.
  apply emits_bind with (n1 := [_]) (f1 := []) (h1 := h) (R1 := fun _ => True).
  { apply emits_sends'; [| done]. rewrite <- Hh.
    apply SendString_z_spec; [done | member_range | now rewrite Hh]. }
  intros _ s1 Hh1 _.
  apply emits_bind with (n1 := [_]) (n2 := []) (f1 := []) (h1 := h) (R1 := fun _ => True).
  { apply emits_sends'; [| done]. rewrite <- Hh1.
    apply SendString_z_spec; [done | member_range | now rewrite Hh1]. }
  intros _ s2 Hh2 _.
  apply emits_bind with (n1 := []) (h1 := h) (R1 := fun _ => True); [now apply emits_free |].
  intros _ s3 Hh3 _. now apply emits_free.
Qed.

Lemma emits_after n f h m r item (res : Refs * option (list Z)) s :
  emits m0 n f h (fun _ => True) m s -> res = (r, Some item) ->
  emits m0 n f h (fun a => a = res) (after m r item) s.
Proof. intros Hm ->. eapply emits_then; [exact Hm | reflexivity]. Qed.

Lemma emits_rebase_after n f h m p (res : Refs * option (list Z)) s :
  emits m0 n f h (fun _ => True) m s -> res = (p.1, Some p.2) ->
  emits m0 n f h (fun a => a = res) (rebase_after p m) s.
Proof. intros Hm ->. eapply emits_then; [exact Hm | reflexivity]. Qed.

Lemma emits_skip n f h m r (res : Refs * option (list Z)) s :
  emits m0 n f h (fun _ => True) m s -> res = (r, None) ->
  emits m0 n f h (fun a => a = res) (skip m r) s.
Proof. intros Hm ->. eapply emits_then; [exact Hm | reflexivity]. Qed.

Lemma emits_then_case n f h m p res s :
  emits m0 n f h (fun _ => True) m s -> res = Some p ->
  emits m0 n f h (fun a => a = res) (then_case m p) s.
Proof. intros Hm ->. eapply emits_then; [exact Hm | reflexivity]. Qed.

(** The payload of a case, by the lemma on its sender. *)
Ltac payload_spec :=
  lazymatch goal with
  | |- emits _ _ _ _ _ (send_and_free _ _) _ => apply emits_send_and_free; [done | member_range]
  | |- emits _ _ _ _ _ (send_deferred _ _) _ => apply emits_send_deferred; [done | member_range]
  | |- emits _ _ _ _ _ (srcloc_payload _) _ =>
      apply srcloc_payload_spec; [done | done | member_range | done]
  | |- emits _ _ _ _ _ (Callstack_case _) _ => now apply Callstack_case_spec
  | |- emits _ _ _ _ _ (CallstackAlloc_case _) _ => now apply CallstackAlloc_case_spec
  | |- emits _ _ _ _ _ (SendCallstackPayload64 _;; _) _ =>
      apply CallstackSample_payload_spec; [done | done | member_range | done]
  | |- emits _ _ _ _ _ (SendLongString _ _ _ _;; _) _ =>
      apply long_string_spec;
        [done | done | member_range | first [member_range | apply uint_range; lia] | done]
  | |- emits _ _ _ _ _ (SendSingleString_z _;; when _ _) _ => now apply SymbolInformation_spec
  | |- emits _ _ _ _ _ (SendSingleString_z _;; _) _ => now apply CallstackFrameSize_spec
  | |- emits _ _ _ _ _ (SendString_z _ _ _;; _) _ => now apply ExternalName_spec
  end.

Ltac switch_case :=
  lazymatch goal with
  | H : false = true |- _ => discriminate H
  | |- emits _ _ _ _ _ (pure_case _) _ => apply emits_ret; [reflexivity | assumption]
  | |- emits _ _ _ _ _ (after _ _ _) _ => apply emits_after; [payload_spec | reflexivity]
  | |- emits _ _ _ _ _ (rebase_after _ _) _ =>
      apply emits_rebase_after; [payload_spec | reflexivity]
  | |- emits _ _ _ _ _ (ret_case _) _ => apply emits_ret; [reflexivity | assumption]
  | |- emits _ _ _ _ _ (then_case _ _) _ =>
      apply emits_then_case; [payload_spec | reflexivity]
  | |- emits _ _ _ _ _ (skip _ _) _ => apply emits_skip; [payload_spec | reflexivity]
  | H : ?b = true |- emits _ _ _ _ _ (if ?b then _ else _) _ => rewrite H; switch_case
  end.

#[local] Opaque MemRead MemWrite.

(** One item of a thread's queue. *)
Lemma Dequeue_switch_spec ty r item h s :
  heap s = h -> memory_ok h -> item_ok ty item -> sendable ty item h ->
  thread_type ty = true -> QueueType.idx ty < QueueType.idx Terminate ->
  emits m0 (payload ty item h) (item_frees ty item h) (item_heap ty item h)
    (fun a => a = switch_result ty r item) (Dequeue_switch_2 ty r item) s.
Proof.
  intros Hh Hm Hi Hc Ht Hlt.
  destruct ty; try discriminate Ht; try (exfalso; vm_compute in Hlt; discriminate Hlt);
    clear Hlt; cbn [thread_type] in Ht;
    cbn [Dequeue_switch_2 Dequeue_switch_1 payload item_frees item_heap];
    switch_case.
Qed.

(** One item of the serial queue. *)
Lemma DequeueSerial_switch_spec ty r item h s :
  heap s = h -> memory_ok h -> item_ok ty item -> sendable ty item h ->
  TRACY_FIBERS = false -> serial_type ty = true ->
  QueueType.idx ty < QueueType.idx Terminate ->
  emits m0 (payload ty item h) (item_frees ty item h) (item_heap ty item h)
    (fun a => a = Some (sent_item ty r item)) (DequeueSerial_switch_2 ty r item) s.
Proof.
  intros Hh Hm Hi Hc Hf Ht Hlt. unfold DequeueSerial_switch_2. rewrite Hf. cbn [negb].
  destruct ty; try discriminate Ht; try (exfalso; vm_compute in Hlt; discriminate Hlt);
    clear Hlt Ht Hf; cbn [DequeueSerial_switch_1 payload item_frees item_heap];
    switch_case.
Qed.
End Cases.

(** ** The loop over the items of a thread *)
Lemma item_ok_set ty ty' item :
  item_ok ty item -> is_transfer ty' = false -> is_string ty' = false ->
  item_ok ty' (set_type ty' item).
Proof.
  intros (Hh & Hlen & Ht & Hs) Ht' Hs'. unfold set_type. rewrite QueueItemSize_32 in Hlen.
  repeat split; auto.
  - rewrite MemReadHdr_writeHdr by (unfold sizeof_hdr; lia).
    apply uint_small. pose proof (QueueType.idx_range ty').
    unfold QueueType.NUM_TYPES in *. red. lia.
  - now rewrite length_MemWriteHdr by (unfold sizeof_hdr; lia).
Qed.

(** [narrow] picks one of the three types. *)
Lemma narrow_type dt t64 t32 t16 :
  (narrow dt t64 t32 t16).1 = t64 \/ (narrow dt t64 t32 t16).1 = t32 \/
  (narrow dt t64 t32 t16).1 = t16.
Proof. unfold narrow. repeat case_match; auto. Qed.

Create HintDb item_ok.
#[local] Hint Extern 1 (sizeof _ <= 31)%nat => vm_compute; lia : item_ok.
#[local] Hint Extern 1 (_ = false) => reflexivity : item_ok.
#[local] Hint Resolve item_ok_write item_ok_set : item_ok.

Lemma ZoneBegin_case_ok ty r item :
  ty = ZoneBegin \/ ty = ZoneBeginCallstack -> item_ok ty item ->
  exists ty', item_ok ty' (ZoneBegin_case ty r item).2.
Proof.
  intros Hty Hi. unfold ZoneBegin_case. set (dt := sint 64 _).
  set (t32 := if QueueType.eqb ty ZoneBegin then ZoneBegin32 else ZoneBeginCallstack32).
  set (t16 := if QueueType.eqb ty ZoneBegin then ZoneBegin16 else ZoneBeginCallstack16).
  pose proof (narrow_type dt ty t32 t16) as Hn.
  destruct (narrow dt ty t32 t16) as [ty' dt']. cbn [fst] in Hn. exists ty'.
  destruct Hty as [-> | ->]; destruct Hn as [-> | [-> | ->]];
    subst t32 t16; cbn -[MemWrite MemRead set_type]; eauto 6 with item_ok.
Qed.

Lemma ZoneEnd_case_ok r item :
  item_ok ZoneEnd item -> exists ty', item_ok ty' (ZoneEnd_case r item).2.
Proof.
  intros Hi. unfold ZoneEnd_case. set (dt := sint 64 _).
  pose proof (narrow_type dt ZoneEnd ZoneEnd32 ZoneEnd16) as Hn.
  destruct (narrow dt _ _ _) as [ty' dt']. cbn [fst] in Hn. exists ty'.
  destruct Hn as [-> | [-> | ->]]; cbn -[MemWrite MemRead set_type]; eauto 6 with item_ok.
Qed.

Lemma CallstackSample_case_ok ty r item :
  ty = CallstackSample \/ ty = CallstackSampleContextSwitch -> item_ok ty item ->
  exists ty', item_ok ty' (CallstackSample_case ty r item).2.
Proof.
  intros Hty Hi. unfold CallstackSample_case. set (dt := sint 64 _).
  match goal with |- context [narrow dt ty ?a ?b] =>
    pose proof (narrow_type dt ty a b) as Hn;
    destruct (narrow dt ty a b) as [ty' dt'] end. cbn [fst] in Hn. exists ty'.
  destruct Hty as [-> | ->]; destruct Hn as [-> | [-> | ->]];
    cbn -[MemWrite MemRead set_type]; eauto 6 with item_ok.
Qed.

Lemma rebase_ok (p : Refs -> Z) `{!FieldSet p} ty l f r item :
  (sizeof l <= 31)%nat -> item_ok ty item -> exists ty', item_ok ty' (rebase p l f r item).2.
Proof. intros Hl Hi. exists ty. now apply item_ok_write. Qed.

Lemma sent_item_ok ty r item :
  item_ok ty item -> exists ty', item_ok ty' (sent_item ty r item).2.
Proof.
  intros Hi. destruct ty; cbn [sent_item];
    lazymatch goal with
    | |- exists _, item_ok _ (ZoneBegin_case _ _ _).2 => apply ZoneBegin_case_ok; auto
    | |- exists _, item_ok _ (ZoneEnd_case _ _).2 => apply ZoneEnd_case_ok; auto
    | |- exists _, item_ok _ (CallstackSample_case _ _ _).2 => apply CallstackSample_case_ok; auto
    | |- exists _, item_ok _ (rebase _ _ _ _ _).2 =>
        eapply rebase_ok; [vm_compute; lia | exact Hi]
    | |- _ => eexists; exact Hi
    end.
Qed.

(** The type an item has in the queue. *)
Definition item_type (item : list Z) : QueueType.t :=
  default Terminate (QueueType.of_idx (MemReadHdr item)).

Lemma item_type_ok ty item : item_ok ty item -> item_type item = ty.
Proof. intros (Hh & _). unfold item_type. now rewrite Hh, QueueType.of_idx_idx. Qed.

(** What the specification says of a list of items: the reference times
    afterwards, the events, the blocks freed and the heap. *)
Section Run.
Context {P : Platform}.

Fixpoint run_items (r : Refs) (items : list (list Z)) (h : memory) :
    Refs * list event * list Z * memory :=
  match items with
  | [] => (r, [], [], h)
  | item :: items =>
      let ty := item_type item in
      let '(r', es, fr, h') := run_items (sent_item ty r item).1 items (item_heap ty item h) in
      (r', item_events ty r item h ++ es, item_frees ty item h ++ fr, h')
  end.

(** [queued] are the types the queue may hold. *)
Fixpoint items_ok (queued : QueueType.t -> bool) (items : list (list Z)) (h : memory) : Prop :=
  match items with
  | [] => True
  | item :: items =>
      (item_ok (item_type item) item /\ queued (item_type item) = true /\
       sendable (item_type item) item h) /\
      items_ok queued items (item_heap (item_type item) item h)
  end.
End Run.

Section Loop.
Context {P : Platform} (m0 : memory).

Lemma item_heap_ok ty item h : memory_ok h -> memory_ok (item_heap ty item h).
Proof.
  intros Hm. destruct ty; try exact Hm. cbn [item_heap]. case_match; [done |].
  now apply cut_callstack_ok.
Qed.

Lemma fixed_ok ty item : item_ok ty item -> event_ok (Fixed (wire (MemReadHdr item) item)).
Proof. intros Hi. rewrite (proj1 Hi). now apply event_ok_wire. Qed.

Lemma no_switch ty r item h :
  QueueType.idx Terminate <= QueueType.idx ty ->
  payload ty item h = [] /\ item_frees ty item h = [] /\ item_heap ty item h = h /\
  sent_item ty r item = (r, item) /\ no_item ty = false.
Proof. destruct ty; intros H; first [exfalso; now apply H | repeat split]. Qed.

Lemma no_item_refs ty r item : no_item ty = true -> sent_item ty r item = (r, item).
Proof. destruct ty; done. Qed.

Lemma Dequeue_item_spec ty r item h s :
  heap s = h -> memory_ok h -> item_ok ty item -> thread_type ty = true ->
  sendable ty item h ->
  emits m0 (item_events ty r item h) (item_frees ty item h) (item_heap ty item h)
    (fun a => a.1 = (sent_item ty r item).1) (Dequeue_item r item) s.
Proof.
  intros Hh Hm Hi Ht Hc. unfold Dequeue_item, item_events.
  rewrite <- (app_nil_r (item_frees _ _ _)).
  apply emits_bind with (h1 := item_heap ty item h) (R1 := fun a => a = switch_result ty r item).
  - rewrite (proj1 Hi). destruct (Z.ltb_spec (QueueType.idx ty) (QueueType.idx Terminate)).
    + rewrite QueueType.of_idx_idx.
      apply emits_bind with (n1 := []) (f1 := []) (h1 := h) (R1 := fun a => a = ty).
      { now apply emits_ret. }
      intros ? s1 Hh1 ->. now apply Dequeue_switch_spec.
    + destruct (no_switch ty r item h H) as (E1 & E2 & E3 & E4 & E5).
      unfold switch_result. rewrite E1, E2, E3, E4, E5. now apply emits_ret.
  - intros ? s1 Hh1 ->. unfold switch_result. destruct (no_item ty) eqn:E.
    + rewrite no_item_refs by done. now apply emits_ret.
    + destruct (sent_item_ok ty r item Hi) as [ty' Hi'].
      eapply emits_conv; [eapply emits_bind with (n2 := []) (f2 := []) | | |].
      * apply emits_sends'; [now apply AppendData_spec, (fixed_ok ty') | exact Hh1].
      * intros ok s2 Hh2 _. apply emits_ret with (R := fun a => a.1 = (sent_item ty r item).1);
          [reflexivity | exact Hh2].
      * apply app_nil_r.
      * done.
      * done.
Qed.

(** The loop handles a prefix of the items: all of them, unless a send fails. *)
Lemma Dequeue_loop_spec items r h s es :
  heap s = h -> memory_ok h -> items_ok thread_type items h -> logged m0 es [] s ->
  wp (Dequeue_loop r items) (fun a s' => exists n,
    let '(r', new, fr, h') := run_items r (take n items) h in
    logged m0 (es ++ new) [] s' /\ same_ctx s s' /\ heap s' = h' /\
    freed s' = freed s ++ fr /\ a.1 = r' /\ (a.2 = true -> (length items <= n)%nat)) s.
Proof.
  revert r h s es; induction items as [| item items IH]; intros r h s es Hh Hm Hok H;
    cbn [Dequeue_loop].
  - apply wp_ret. exists O. cbn [firstn run_items]. rewrite !app_nil_r.
    split; [done |]. split; [done |]. split; [done |]. split; [done |]. done.
  - destruct Hok as ((Hi & Ht & Hc) & Hok). apply wp_bind.
    eapply wp_mono; [apply (Dequeue_item_spec _ r item h s Hh Hm Hi Ht Hc), H |].
    intros [r1 ok] s1 (H1 & Hx1 & Hh1 & Hf1 & Hr1). cbn [fst] in Hr1. subst r1.
    destruct ok.
    + eapply wp_mono;
        [apply (IH _ _ _ _ Hh1 (item_heap_ok _ _ _ Hm) Hok H1) |].
      intros [r2 ok] s2 (n & Hn). exists (S n). cbn [firstn run_items].
      destruct (run_items _ (take n items) _) as [[[r' new] fr] h'].
      destruct Hn as (H2 & Hx2 & Hh2 & Hf2 & Hr2 & Hn).
      rewrite <- app_assoc in H2. rewrite Hf1, <- app_assoc in Hf2.
      split; [done |]. split; [etrans; eauto |]. split; [done |]. split; [done |].
      split; [done |]. intros Hok'. cbn [length]. specialize (Hn Hok'). lia.
    + apply wp_ret. exists 1%nat. change (take 1 (item :: items)) with [item].
      cbn [run_items]. rewrite !app_nil_r.
      split; [done |]. split; [done |]. split; [done |]. split; [done |].
      split; [done |]. intros [=].
Qed.

(** The serial loop handles all items; once a send has failed, their payloads are
    still sent and freed but the items are not appended. *)
Lemma DequeueSerial_loop_spec items r status h s es :
  TRACY_FIBERS = false -> status <> QueueEmpty ->
  heap s = h -> memory_ok h -> items_ok serial_type items h -> logged m0 es [] s ->
  wp (DequeueSerial_loop r status items) (fun a s' => exists status' sent,
    let '(r', new, fr, h') := run_items r items h in
    a = Some (r', status') /\ status' <> QueueEmpty /\
    logged m0 (es ++ sent) [] s' /\ same_ctx s s' /\ heap s' = h' /\
    freed s' = freed s ++ fr /\
    (status' = DataDequeued -> status = DataDequeued /\ sent = new)) s.
Proof.
  intros Hf. revert r status h s es.
  induction items as [| item items IH]; intros r status h s es Hst Hh Hm Hok H;
    cbn [DequeueSerial_loop].
  { apply wp_ret. exists status, []. cbn [run_items]. rewrite !app_nil_r.
    do 3 (split; [done |]). split; [reflexivity |]. done. }
  destruct Hok as ((Hi & Ht & Hc) & Hok). set (ty := item_type item) in *.
  rewrite (proj1 Hi), QueueType.of_idx_idx. apply wp_bind. eapply wp_expect; [reflexivity |].
  apply wp_bind. eapply wp_mono with (Q := fun a s1 =>
    logged m0 (es ++ payload ty item h) [] s1 /\ same_ctx s s1 /\
    heap s1 = item_heap ty item h /\ freed s1 = freed s ++ item_frees ty item h /\
    a = Some (sent_item ty r item)).
  { destruct (Z.ltb_spec (QueueType.idx ty) (QueueType.idx Terminate)) as [Hlt | Hge].
    - now apply DequeueSerial_switch_spec.
    - destruct (no_switch ty r item h Hge) as (E1 & E2 & E3 & E4 & E5).
      unfold DequeueSerial_other. rewrite Hf, E1, E2, E3, E4. now apply emits_ret. }
  intros out s1 (H1 & Hx1 & Hh1 & Hf1 & ->).
  assert (Hm1 : memory_ok (item_heap ty item h)) by now apply item_heap_ok.
  assert (Hno : no_item ty = false) by (clear -Ht; now destruct ty).
  destruct (sent_item_ok ty r item Hi) as [ty' Hi'].
  pose proof (fixed_ok ty' _ Hi') as Hfix.
  destruct (sent_item ty r item) as [r1 item1] eqn:Es. cbn [snd] in *.
  assert (Hgo : forall status1 s2 sent1,
    logged m0 (es ++ payload ty item h ++ sent1) [] s2 -> same_ctx s s2 ->
    heap s2 = item_heap ty item h -> freed s2 = freed s ++ item_frees ty item h ->
    status1 <> QueueEmpty ->
    (status1 = DataDequeued -> status = DataDequeued /\
       sent1 = [Fixed (wire (MemReadHdr item1) item1)]) ->
    wp (DequeueSerial_loop r1 status1 items) (fun a s' => exists status' sent,
      let '(r', new, fr, h') := run_items r (item :: items) h in
      a = Some (r', status') /\ status' <> QueueEmpty /\
      logged m0 (es ++ sent) [] s' /\ same_ctx s s' /\ heap s' = h' /\
      freed s' = freed s ++ fr /\
      (status' = DataDequeued -> status = DataDequeued /\ sent = new)) s2).
  { intros status1 s2 sent1 H2 Hx2 Hh2 Hf2 Hne Hsent.
    eapply wp_mono; [apply (IH r1 status1 _ _ _ Hne Hh2 Hm1 Hok H2) |].
    intros a s3 (status' & sent & Hn). exists status', (payload ty item h ++ sent1 ++ sent).
    cbn [run_items]. fold ty. rewrite Es. cbn [fst].
    destruct (run_items r1 items _) as [[[r' new] fr] h'].
    destruct Hn as (-> & Hne' & H3 & Hx3 & Hh3 & Hf3 & Hd).
    rewrite <- !app_assoc in H3. rewrite Hf2, <- app_assoc in Hf3.
    do 2 (split; [done |]). split; [done |]. split; [etrans; eauto |].
    do 2 (split; [done |]). intros Hs. destruct (Hd Hs) as [Hs1 ->].
    destruct (Hsent Hs1) as [-> ->]. split; [done |].
    unfold item_events. now rewrite Hno, Es, <- app_assoc. }
  destruct status; [| | done].
  - apply wp_bind. eapply wp_mono; [apply (AppendData_spec m0 _ s1 Hfix _ H1) |].
    intros ok s2 (H2 & Hx2 & Hx2'). rewrite <- app_assoc in H2.
    eapply Hgo; [exact H2 | | | | |].
    + etrans; [exact Hx1 |]. destruct Hx2' as (?&?&?&?&?&?&?&?). repeat split; auto.
    + etrans; [apply Hx2' | exact Hh1].
    + etrans; [apply Hx2' | exact Hf1].
    + now destruct ok.
    + now destruct ok.
  - eapply Hgo with (sent1 := []); rewrite ?app_nil_r; try done.
Qed.

(** A run of the queue of a thread, for both theorems about it. *)
Lemma Dequeue_block_wp items es s :
  items <> [] -> memory_ok (heap s) -> items_ok thread_type items (heap s) -> logged m0 es [] s ->
  wp (Dequeue_block items) (fun ok s' => exists n,
    let r := mkRefs (m_refTimeThread s) (m_refTimeSerial s) (m_refTimeCtx s) (m_refTimeGpu s) in
    let '(r', new, fr, h') := run_items r (take n items) (heap s) in
    logged m0 (es ++ new) [] s' /\ heap s' = h' /\ freed s' = freed s ++ fr /\
    m_refTimeThread s' = refThread r' /\ m_refTimeCtx s' = refCtx r' /\
    m_refTimeGpu s' = refGpu r' /\ m_refTimeSerial s' = m_refTimeSerial s /\
    (ok = true -> take n items = items)) s.
Proof.
  intros Hne Hm Hok H. unfold Dequeue_block, get_refs. wp_steps.
  { destruct items; done. }
  eapply wp_mono; [apply (Dequeue_loop_spec items _ (heap s) s es); auto |].
  intros [r' ok] s1 (n & Hn). wp_steps. exists n. cbv zeta.
  destruct (run_items _ (take n items) _) as [[[r1 new] fr] h'].
  destruct Hn as (H1 & Hx1 & Hh1 & Hf1 & Hr1 & Hn). cbn in Hr1. subst r1.
  split; [eapply logged_mono; [exact H1 | reflexivity ..] |].
  repeat split; auto; [apply Hx1 |]. intros Ht. now apply take_ge, Hn.
Qed.

(** Parsing the frames that were sent, and the bytes that are still pending, gives
    the events [es] in order. *)
Definition readable (es : list event) (s : Profiler) : Prop :=
  exists gs cur, Forall2 (fun frame g => read_frame frame = Some g) (m_sent s) gs /\
    read_frame (pending s) = Some cur /\ es = mjoin gs ++ cur.

Lemma logged_readable es s : logged m0 es [] s -> readable es s.
Proof.
  intros [_ (gs & cur & Hg & Hp & -> & Hok)]. exists gs, cur.
  apply Forall_app in Hok as [Hgs Hcur]. rewrite Hg, Hp, app_nil_r.
  split; [| split; [now apply read_events_encode | done]].
  clear -Hgs. induction gs as [| g gs IH]; [constructor |].
  cbn in Hgs. apply Forall_app in Hgs as [Hg Hgs].
  constructor; [now apply read_events_encode | now apply IH].
Qed.

(** C7: what a client dequeues, the server reads: after a run of a thread's queue
    is drained, the server's framing rules parse every frame that was sent, and
    the bytes still pending, into whole events, and these are, in order, the
    events of before and then those that the drained items stand for. *)
Theorem Dequeue_readable (items : list (list Z)) (es : list event) (s : Profiler) :
  items <> [] -> memory_ok (heap s) -> items_ok thread_type items (heap s) -> logged m0 es [] s ->
  wp (Dequeue_block items) (fun ok s' => exists n,
    let r := mkRefs (m_refTimeThread s) (m_refTimeSerial s) (m_refTimeCtx s) (m_refTimeGpu s) in
    let '(_, new, _, _) := run_items r (take n items) (heap s) in
    readable (es ++ new) s' /\ (ok = true -> take n items = items)) s.
Proof.
  intros Hne Hm Hok H. eapply wp_mono; [now apply (Dequeue_block_wp items es) |].
  intros ok s1 (n & Hn). exists n. cbv zeta in *. destruct (run_items _ (take n items) _) as [[[r' new] fr] h'].
  split; [| apply Hn]. apply logged_readable, Hn.
Qed.

(** The serial queue, in builds without fibers. *)
Lemma DequeueSerial_wp (es : list event) (s : Profiler) :
  TRACY_FIBERS = false -> m_serialDequeue s = [] -> m_serialQueue s <> [] ->
  memory_ok (heap s) -> items_ok serial_type (m_serialQueue s) (heap s) ->
  logged m0 es [] s ->
  wp DequeueSerial (fun status s' => exists sent,
    let r := mkRefs (m_refTimeThread s) (m_refTimeSerial s) (m_refTimeCtx s) (m_refTimeGpu s) in
    let '(r', new, fr, h') := run_items r (m_serialQueue s) (heap s) in
    logged m0 (es ++ sent) [] s' /\ heap s' = h' /\ freed s' = freed s ++ fr /\
    m_refTimeSerial s' = refSerial r' /\ m_refTimeGpu s' = refGpu r' /\
    m_refTimeThread s' = m_refTimeThread s /\ m_refTimeCtx s' = m_refTimeCtx s /\
    m_serialQueue s' = [] /\ m_serialDequeue s' = [] /\
    (status = DataDequeued /\ sent = new \/ status = ConnectionLost)) s.
Proof.
  intros Hf Hd Hq Hm Hok H. unfold DequeueSerial. wp_steps.
  destruct (m_serialQueue s) as [| item items] eqn:Eq; [done |]. rewrite <- Eq in *.
  assert (En : Nat.eqb (length (m_serialQueue s)) 0 = false) by now rewrite Eq.
  rewrite En. cbn [m_serialDequeue over]. cbv zeta. cbn. rewrite En. cbn.
  unfold get_refs. wp_steps. cbn.
  eapply wp_mono; [eapply (DequeueSerial_loop_spec (m_serialQueue s) _ DataDequeued (heap s) _ es);
    auto; eapply logged_mono; [exact H | reflexivity ..] |].
  intros a s1 (status & sent & Hn).
  destruct (run_items _ (m_serialQueue s) _) as [[[r' new] fr] h'].
  destruct Hn as (-> & Hne & H1 & Hx1 & Hh1 & Hf1 & Hs). wp_steps. exists sent.
  split; [eapply logged_mono; [exact H1 | reflexivity ..] |].
  destruct Hx1 as (?&?&?&?&?&?&?). rewrite Hf. cbn in *.
  repeat (split; [congruence |]). destruct status; [| auto | done].
  left. split; [done |]. now apply Hs.
Qed.

End Loop.

(** ** Ownership *)
Section Free.
Context {P : Platform} (m0 : memory).

(** [m] frees the blocks [fr] and does nothing else. *)
Definition frees (fr : list Z) (m : M Profiler unit) (s : Profiler) : Prop :=
  m s = Some (tt, s <| freed ::= fun l => l ++ fr |>).

Lemma freed_twice f1 f2 s :
  s <| freed ::= fun l => l ++ f1 |> <| freed ::= fun l => l ++ f2 |> =
  s <| freed ::= fun l => l ++ (f1 ++ f2) |>.
Proof. destruct s; unfold over; cbn. now rewrite app_assoc. Qed.

Lemma freed_nil s : s <| freed ::= fun l => l ++ [] |> = s.
Proof. destruct s; unfold over; cbn. now rewrite app_nil_r. Qed.

Lemma frees_nil s : frees [] (mret tt) s.
Proof. unfold frees. now rewrite freed_nil. Qed.

Lemma frees_bind f1 f2 m1 m2 s :
  frees f1 m1 s -> frees f2 m2 (s <| freed ::= fun l => l ++ f1 |>) ->
  frees (f1 ++ f2) (m1;; m2) s.
Proof. unfold frees, mbind, M_bind. intros -> ->. now rewrite freed_twice. Qed.

Lemma frees_free ptr s : frees (free_of ptr) (tracy_free_fast ptr) s.
Proof.
  unfold frees, tracy_free_fast, modify, free_of. destruct (ptr =? 0); [| done].
  rewrite freed_nil. do 2 f_equal. now destruct s.
Qed.

Lemma frees_gets {A} (f : Profiler -> A) k fr s :
  frees fr (k (f s)) s -> frees fr (gets f ≫= k) s.
Proof. done. Qed.

Lemma frees_when (b : bool) fr m s :
  frees fr m s -> frees (if b then fr else []) (when b m) s.
Proof. intros Hm. destruct b; [exact Hm | apply frees_nil]. Qed.

Lemma frees_entries data n h s :
  heap s = h -> frees (frees_of_entries data n h) (FreeCallstackEntries data n) s.
Proof.
  revert data s; induction n as [| n IH]; intros data s Hh; [apply frees_nil |].
  cbn [frees_of_entries FreeCallstackEntries].
  apply frees_gets. rewrite Hh. apply frees_bind; [apply frees_free |].
  apply frees_bind; [apply frees_free |]. now apply IH.
Qed.

Lemma frees_deferred ptr s :
  frees (if TRACY_ON_DEMAND then [] else free_of ptr)
    (when (negb TRACY_ON_DEMAND) (tracy_free_fast ptr)) s.
Proof. destruct TRACY_ON_DEMAND; [apply frees_nil | apply frees_free]. Qed.

(** An item owns the same memory whether it is sent or dropped: for
    every type a queue can hold, the blocks [FreeAssociatedMemory] frees are, up
    to order, those the dequeue loops free after sending them, so no block is
    leaked or freed twice whichever of the two handles the item. *)
Theorem FreeAssociatedMemory_agrees (ty : QueueType.t) (item : list Z) (s : Profiler) :
  item_ok ty item -> thread_type ty = true \/ serial_type ty = true ->
  exists fr, fr ≡ₚ item_frees ty item (heap s) /\
    FreeAssociatedMemory item s = Some (tt, s <| freed ::= fun l => l ++ fr |>).
Proof.
  intros (Hh & _) Ht. unfold FreeAssociatedMemory. rewrite Hh, QueueType.of_idx_idx.
  destruct (Z.leb_spec (QueueType.idx Terminate) (QueueType.idx ty)) as [Hge | Hlt].
  { exists []. split; [| apply frees_nil].
    now rewrite (proj1 (proj2 (no_switch ty (mkRefs 0 0 0 0) item (heap s) Hge))). }
  destruct ty; try (destruct Ht as [Ht | Ht]; discriminate Ht);
    try (exfalso; vm_compute in Hlt; discriminate Hlt); clear Hlt;
    cbn [item_frees];
    try (eexists; split; [reflexivity |];
      first [ apply frees_free | apply frees_nil | apply frees_deferred
            | apply frees_bind; apply frees_free ]);
    assert (Hflag : forall b, b = true \/ false = true -> b = true) by (intros ? []; done);
    apply Hflag in Ht; cbn [thread_type] in Ht; rewrite Ht; clear Hflag.
  - eexists; split; [reflexivity |].
    apply frees_bind; [now apply frees_entries | apply frees_free].
  - eexists; split; [reflexivity |]. cbn [andb].
    destruct (_ =? 0); [apply frees_nil | apply frees_free].
  - eexists; split; [apply Permutation_app_comm |].
    apply frees_bind; apply frees_free.
  - eexists; split; [reflexivity |]. apply frees_free.
Qed.
End Free.

(** ** A concrete client

    A Linux build without fibers whose sends succeed, with a C string and a call
    stack of two entries in its memory. *)
Definition demo_platform : Platform := {|
  TRACY_ON_DEMAND := false; TRACY_FIBERS := false; TRACY_HAS_CALLSTACK := true;
  TRACY_HAS_SYSTEM_TRACING := true; send_ok := fun _ => true;
  DecodeCallstackPtrFast := fun _ => "main"%string
|}.

#[local] Existing Instance demo_platform.

Definition demo_heap : memory :=
  memcpy 0x1000 [104; 105; 0] (memcpy 0x2000 (le_bytes 8 2 ++ le_bytes 8 77 ++ le_bytes 8 78)
    (fun _ => 0)).

Definition demo_profiler (queue : list (list Z)) : Profiler :=
  mkProfiler (fun _ => 0) 0 0 0 0 0 0 0 queue [] [] demo_heap [].

Definition demo_item (ty : QueueType.t) (l : layout) (f : string) (v : Z) : list Z :=
  MemWrite l f v (QueueItem_local ty).

Definition demo_items : list (list Z) :=
  [demo_item ZoneBegin QueueZoneBegin "time" 1000;
   MemWrite QueueZoneTextFat "size" 2 (demo_item ZoneText QueueZoneTextFat "text" 0x1000);
   demo_item Callstack QueueCallstackFat "ptr" 0x2000;
   demo_item ZoneEnd QueueZoneEnd "time" 90000].

Definition demo_serial : list (list Z) :=
  [demo_item MemAlloc QueueMemAlloc "time" 500; demo_item MemFree QueueMemFree "time" 700].

Lemma demo_heap_ok : memory_ok demo_heap.
Proof.
  apply memory_ok_memcpy.
  - apply memory_ok_memcpy; [done |]. repeat constructor; vm_compute; done.
  - repeat constructor; vm_compute; done.
Qed.

Lemma demo_logged queue : logged (fun _ => 0) [] [] (demo_profiler queue).
Proof.
  split; [split |].
  - unfold TargetFrameSize. cbn. lia.
  - unfold TargetFrameSize. cbn. lia.
  - done.
  - done.
  - exists [], []. repeat split. constructor.
Qed.

Lemma demo_items_ok : items_ok (P := demo_platform) thread_type demo_items demo_heap.
Proof. vm_compute. repeat split; first [discriminate | reflexivity]. Qed.

Lemma demo_serial_ok : items_ok (P := demo_platform) serial_type demo_serial demo_heap.
Proof. vm_compute. repeat split; first [discriminate | reflexivity]. Qed.

Lemma Dequeue_readable_witness :
  wp (Dequeue_block demo_items) (fun ok s' => exists n,
    let '(_, new, _, _) := run_items (mkRefs 0 0 0 0) (take n demo_items) demo_heap in
    readable ([] ++ new) s' /\ (ok = true -> take n demo_items = demo_items)) (demo_profiler []).
Proof.
  apply (Dequeue_readable (fun _ => 0) demo_items [] (demo_profiler [])).
  - discriminate.
  - exact demo_heap_ok.
  - exact demo_items_ok.
  - exact (demo_logged []).
Defined.

Lemma FreeAssociatedMemory_agrees_witness :
  exists fr, fr ≡ₚ item_frees ZoneText (demo_item ZoneText QueueZoneTextFat "text" 0x1000)
      demo_heap /\
    FreeAssociatedMemory (P := demo_platform)
      (demo_item ZoneText QueueZoneTextFat "text" 0x1000) (demo_profiler []) =
      Some (tt, (demo_profiler []) <| freed ::= fun l => l ++ fr |>).
Proof.
  apply (FreeAssociatedMemory_agrees ZoneText _ (demo_profiler [])).
  - vm_compute. repeat split.
  - left. reflexivity.
Defined.
