(* ===== verification/Event.v ===== *)
(** * The server's event records: [server/TracyEvent.hpp]

    The server keeps millions of events and packs them: a 48-bit signed time
    shares a 64-bit word with a 16-bit index, a 32-bit child index is split over
    the free bytes of two words, a call stack number over two others.  A packed
    structure is the record of its words, and the accessors read and write bit
    ranges of them as the [memcpy]s and shifts of the source do.  The theorems
    say that each field reads back what was last written to it, converted to its
    width, whatever is written to the fields it shares words with.

    A setter that asserts that its argument fits gives [None] where the
    assertion fails. *)
From S2P Require Import Prelude Queue.

(** ** Shared words *)

(** [int64_t( w ) >> 16] *)
Definition time48 (w : Z) : Z := Z.shiftr (sint 64 w) 16.
(** The two [memcpy]s of the setters: four bytes at 2, two bytes at 6. *)
Definition set_time48 (t w : Z) : Z := put 48 16 (bits 32 16 (uint 64 t)) (put 16 32 t w).

(** [assert( t < (int64_t)( 1ull << 47 ) )] *)
Definition assert47 {A} (t : Z) (a : A) : option A := if t <? 2 ^ 47 then Some a else None.

Definition low16 (w : Z) : Z := Z.land w 0xFFFF.
Definition set_low16 (v w : Z) : Z := put 0 16 v w.

Lemma low16_bits w : low16 w = bits 0 16 w.
Proof.
  unfold low16, bits. change 0xFFFF with (Z.ones 16).
  now rewrite Z.land_ones, Z.div_1_r by lia.
Qed.

Lemma time48_bits w : in_uint 64 w -> time48 w = sint 48 (bits 16 48 w).
Proof. intros Hw. now apply (shiftr_sint 16 48). Qed.

Lemma set_time48_range t w : in_uint 64 w -> in_uint 64 (set_time48 t w).
Proof. intros Hw. unfold set_time48. repeat (apply put_range; try lia). exact Hw. Qed.

Lemma set_low16_range v w : in_uint 64 w -> in_uint 64 (set_low16 v w).
Proof. intros Hw. unfold set_low16. apply put_range; try lia. exact Hw. Qed.

(** A bit range is its two parts. *)
Lemma bits_split lo a b w :
  0 <= lo -> 0 <= a -> 0 <= b -> bits lo (a + b) w = bits lo a w + 2 ^ a * bits (lo + a) b w.
Proof.
  intros Hlo Ha Hb. unfold bits. rewrite !Z.pow_add_r by lia.
  pose proof (pow2_pos a Ha). pose proof (pow2_pos b Hb). pose proof (pow2_pos lo Hlo).
  rewrite Z.rem_mul_r by lia. now rewrite Z.div_div by lia.
Qed.

Lemma bits_uint lo n w W :
  0 <= lo -> 0 <= n -> lo + n <= W -> bits lo n (uint W w) = bits lo n w.
Proof.
  intros Hlo Hn HW. unfold bits, uint.
  replace W with (lo + (n + (W - lo - n))) by lia.
  rewrite (Z.pow_add_r 2 lo) by lia.
  pose proof (pow2_pos lo Hlo). pose proof (pow2_pos n Hn).
  pose proof (pow2_pos (n + (W - lo - n)) ltac:(lia)).
  rewrite Z.rem_mul_r, (Z.mul_comm (2 ^ lo)), Z.div_add, (Z.div_small (w mod _)), Z.add_0_l
    by (try apply Z.mod_pos_bound; lia).
  rewrite Z.pow_add_r by lia. apply Z.mod_mod_divide.
  now exists (2 ^ (W - lo - n)); rewrite Z.mul_comm.
Qed.

Lemma bits_48 w : bits 0 48 w = bits 0 32 w + 2 ^ 32 * bits 32 16 w.
Proof. exact (bits_split 0 32 16 w ltac:(lia) ltac:(lia) ltac:(lia)). Qed.

Lemma bits_24 w : bits 0 24 w = bits 0 16 w + 2 ^ 16 * bits 16 8 w.
Proof. exact (bits_split 0 16 8 w ltac:(lia) ltac:(lia) ltac:(lia)). Qed.

Lemma bits_0 n w : bits 0 n w = uint n w.
Proof. unfold bits, uint. now rewrite Z.div_1_r. Qed.

Lemma bits_set_time48 t w : bits 16 48 (set_time48 t w) = uint 48 t.
Proof.
  unfold set_time48. change (bits 16 48) with (bits 16 (32 + 16)).
  rewrite (bits_split 16 32 16) by lia. change (16 + 32) with 48.
  rewrite bits_put_low, !bits_put by lia.
  rewrite (uint_small 16) by (apply bits_range; lia).
  rewrite bits_uint, <- (bits_0 48), bits_48, bits_0 by lia. done.
Qed.

Lemma time48_set t w : in_uint 64 w -> time48 (set_time48 t w) = sint 48 t.
Proof.
  intros Hw. rewrite time48_bits by now apply set_time48_range.
  rewrite bits_set_time48. apply sint_uint. lia.
Qed.

Lemma time48_low v w : in_uint 64 w -> time48 (set_low16 v w) = time48 w.
Proof.
  intros Hw. rewrite !time48_bits by (try apply set_low16_range; done).
  unfold set_low16. now rewrite bits_put_high by lia.
Qed.

Lemma low16_set v w : low16 (set_low16 v w) = uint 16 v.
Proof. rewrite low16_bits. now apply bits_put. Qed.

Lemma low16_time t w : low16 (set_time48 t w) = low16 w.
Proof. rewrite !low16_bits. unfold set_time48. now rewrite !bits_put_low by lia. Qed.

Lemma low8_time t w lo n :
  0 <= lo -> 0 <= n -> lo + n <= 16 -> bits lo n (set_time48 t w) = bits lo n w.
Proof. intros. unfold set_time48. now rewrite !bits_put_low by lia. Qed.

(** [( time << 16 ) | low] *)
Definition pack48 (t v : Z) : Z := uint 64 (Z.lor (Z.shiftl t 16) (uint 16 v)).

Lemma pack48_eq t v : pack48 t v = uint 64 (t * 2 ^ 16 + uint 16 v).
Proof.
  unfold pack48. rewrite lor_shiftl; [done | lia |]. apply (uint_range 16). lia.
Qed.

Lemma time48_pack t v : time48 (pack48 t v) = sint 48 t.
Proof.
  rewrite pack48_eq, time48_bits by (apply uint_range; lia).
  rewrite bits_uint by lia. rewrite <- (sint_uint 48 t) by lia. unfold bits. f_equal.
  rewrite Z.div_add_l, (Z.div_small (uint _ _)), Z.add_0_r
    by (try apply (uint_range 16); lia). done.
Qed.

Lemma low16_pack t v : low16 (pack48 t v) = uint 16 v.
Proof.
  rewrite pack48_eq, low16_bits, bits_uint, bits_0 by lia. unfold uint at 1.
  rewrite Z.add_comm, Z_mod_plus_full. apply uint_uint. lia.
Qed.

Lemma pack48_range t v : in_uint 64 (pack48 t v).
Proof. apply uint_range. lia. Qed.

#[export] Hint Rewrite low16_set low16_time low16_pack time48_pack : tracy.
#[export] Hint Rewrite time48_set time48_low using assumption : tracy.
#[export] Hint Resolve set_time48_range set_low16_range pack48_range : tracy.

(** ** Small integers *)
Module Int24.
(* TracyEvent.hpp:123-150 Int24 *)
Definition t : Type := Z.  (* the three bytes *)
Definition empty : t := 0.
(* TracyEvent.hpp:132-137 *)
Definition SetVal (val : Z) (m : t) : t := put 16 8 (Z.shiftr (uint 32 val) 16) (put 0 16 val m).
Definition make (val : Z) : t := SetVal val empty.
(* TracyEvent.hpp:139-146 *)
Definition Val (m : t) : Z := Z.lor (Z.shiftl (bits 16 8 m) 16) (bits 0 16 m).

Lemma Val_bits m : Val m = bits 0 24 m.
Proof.
  unfold Val. rewrite lor_shiftl by (try apply bits_range; lia).
  rewrite bits_24. ring.
Qed.

Lemma Val_SetVal v m : Val (SetVal v m) = uint 24 v.
Proof.
  rewrite Val_bits, bits_24. unfold SetVal. rewrite bits_put_low, !bits_put by lia.
  rewrite <- (bits_0 24), bits_24, bits_0, Z.shiftr_div_pow2 by lia. do 2 f_equal.
  exact (bits_uint 16 8 v 32 ltac:(lia) ltac:(lia) ltac:(lia)).
Qed.
End Int24.

Module Int48.
(* TracyEvent.hpp:152-189 Int48 *)
Definition t : Type := Z.  (* the six bytes *)
(* TracyEvent.hpp:166-171 *)
Definition SetVal (val : Z) (m : t) : t := put 32 16 (Z.shiftr val 32) (put 0 32 val m).
Definition make (val : Z) : t := SetVal val 0.
(* TracyEvent.hpp:173-180 *)
Definition Val (m : t) : Z :=
  sint 64 (Z.lor (Z.shiftl (sint 16 (bits 32 16 m)) 32) (bits 0 32 m)).
(* TracyEvent.hpp:182-185 *)
Definition IsNonNegative (m : t) : bool := Z.shiftr (bits 40 8 m) 7 =? 0.

Lemma bits_SetVal v m : bits 0 48 (SetVal v m) = uint 48 v.
Proof.
  unfold SetVal. rewrite bits_48, bits_put_low, !bits_put by lia.
  rewrite <- (bits_0 48), bits_48, bits_0, Z.shiftr_div_pow2 by lia. done.
Qed.

Lemma Val48_bits m : Val m = sint 48 (bits 0 48 m).
Proof.
  unfold Val. rewrite lor_shiftl by (try apply bits_range; lia).
  pose proof (bits_range 0 32 m ltac:(lia)) as Hl.
  pose proof (bits_range 32 16 m ltac:(lia)) as Hh.
  pose proof (bits_48 m) as E. unfold in_uint in *.
  assert (Hs : sint 48 (bits 0 48 m) = sint 16 (bits 32 16 m) * 2 ^ 32 + bits 0 32 m).
  { unfold sint, uint. rewrite !Z.mod_small by lia. rewrite E.
    destruct (Z.ltb_spec (bits 32 16 m) (2 ^ (16 - 1)));
      destruct (Z.ltb_spec (bits 0 32 m + 2 ^ 32 * bits 32 16 m) (2 ^ (48 - 1))); lia. }
  rewrite <- Hs. apply sint_small; [lia |].
  pose proof (sint_range 48 (bits 0 48 m) ltac:(lia)). unfold in_sint in *. lia.
Qed.

Lemma Val48_SetVal v m : Val (SetVal v m) = sint 48 v.
Proof. rewrite Val48_bits, bits_SetVal. apply sint_uint. lia. Qed.

Lemma IsNonNegative_Val m : IsNonNegative m = (0 <=? Val m).
Proof.
  rewrite Val48_bits. unfold IsNonNegative. rewrite Z.shiftr_div_pow2 by lia.
  pose proof (bits_split 0 40 8 m ltac:(lia) ltac:(lia) ltac:(lia)) as E.
  change (40 + 8) with 48 in E. change (0 + 40) with 40 in E.
  pose proof (bits_range 0 40 m ltac:(lia)) as Hl.
  pose proof (bits_range 40 8 m ltac:(lia)) as Hh. unfold in_uint in *.
  unfold sint, uint. rewrite Z.mod_small by lia. rewrite E.
  destruct (Z.ltb_spec (bits 0 40 m + 2 ^ 40 * bits 40 8 m) (2 ^ (48 - 1))).
  - rewrite (Z.div_small (bits 40 8 m)) by lia.
    destruct (Z.leb_spec 0 (bits 0 40 m + 2 ^ 40 * bits 40 8 m)); [done | lia].
  - destruct (Z.leb_spec 0 (bits 0 40 m + 2 ^ 40 * bits 40 8 m - 2 ^ 48)); [lia |].
    apply Z.eqb_neq. assert (1 <= bits 40 8 m / 2 ^ 7) by (apply Z.div_le_lower_bound; lia). lia.
Qed.
End Int48.

Lemma val_make v : - 2 ^ 47 <= v < 2 ^ 47 -> Int48.Val (Int48.make v) = v.
Proof. intros. unfold Int48.make. rewrite Int48.Val48_SetVal. apply sint_small; [lia | red; lia]. Qed.
Lemma val_set v m : - 2 ^ 47 <= v < 2 ^ 47 -> Int48.Val (Int48.SetVal v m) = v.
Proof. intros. rewrite Int48.Val48_SetVal. apply sint_small; [lia | red; lia]. Qed.

(** ** String references *)
Module StringIdx.
(* TracyEvent.hpp:65-105 StringIdx *)
Definition t : Type := Z.  (* the three bytes; zero is no string *)
Definition none : t := 0.
(* TracyEvent.hpp:74-78 *)
Definition SetIdx (idx : Z) : t := bits 0 24 (uint 32 (idx + 1)).
(* TracyEvent.hpp:80-86 *)
Definition Idx (m : t) : option Z := if m =? 0 then None else Some (m - 1).
(* TracyEvent.hpp:95-99 *)
Definition Active (m : t) : bool := negb (m =? 0).
End StringIdx.

Module StringRef.
(* TracyEvent.hpp:25-25 Type *)
Inductive type : Set := Ptr | Idx.
(* TracyEvent.hpp:23-47 StringRef *)
Record t := mk { str : Z; isidx : bool; active : bool }.
Definition none : t := mk 0 false false.
(* TracyEvent.hpp:28-34 StringRef *)
Definition make (ty : type) (data : Z) : t :=
  mk data (match ty with Idx => true | Ptr => false end) true.
End StringRef.

(** ** Zones *)
Module ZoneEvent.
(* TracyEvent.hpp:209-230 ZoneEvent *)
Record t := mk { _start_srcloc : Z; _child2 : Z; _end_child1 : Z; extra : Z }.
#[global] Instance eta_t : Eta t := fun r =>
  mk (_start_srcloc r) (_child2 r) (_end_child1 r) (extra r).

Definition ok (z : t) : Prop :=
  in_uint 64 (_start_srcloc z) /\ in_uint 16 (_child2 z) /\ in_uint 64 (_end_child1 z).

(* TracyEvent.hpp:213-213 *)
Definition Start (z : t) : Z := time48 (_start_srcloc z).
(* TracyEvent.hpp:214-214 *)
Definition SetStart (start : Z) (z : t) : option t :=
  assert47 start (z <| _start_srcloc ::= set_time48 start |>).
(* TracyEvent.hpp:215-215 *)
Definition End_ (z : t) : Z := time48 (_end_child1 z).
(* TracyEvent.hpp:216-216 SetEnd *)
Definition SetEnd (end_ : Z) (z : t) : option t :=
  assert47 end_ (z <| _end_child1 ::= set_time48 end_ |>).
(* TracyEvent.hpp:217-217 *)
Definition IsEndValid (z : t) : bool := Z.shiftr (_end_child1 z) 63 =? 0.
(* TracyEvent.hpp:218-218 *)
Definition SrcLoc (z : t) : Z := sint 16 (low16 (_start_srcloc z)).
(* TracyEvent.hpp:219-219 *)
Definition SetSrcLoc (srcloc : Z) (z : t) : t := z <| _start_srcloc ::= set_low16 srcloc |>.
(** The four bytes from [_child2] on: its two, and the first two of the next
    word. *)
(* TracyEvent.hpp:220-220 *)
Definition Child (z : t) : Z :=
  sint 32 (bits 0 16 (_child2 z) + 2 ^ 16 * bits 0 16 (_end_child1 z)).
(* TracyEvent.hpp:221-221 *)
Definition SetChild (child : Z) (z : t) : t :=
  z <| _child2 ::= put 0 16 child |> <| _end_child1 ::= put 0 16 (bits 16 16 child) |>.
(* TracyEvent.hpp:222-222 *)
Definition HasChildren (z : t) : bool := Z.shiftr (bits 8 8 (_end_child1 z)) 7 =? 0.
(* TracyEvent.hpp:224-224 *)
Definition SetStartSrcLoc (start srcloc : Z) (z : t) : option t :=
  assert47 start (z <| _start_srcloc := pack48 start srcloc |>).

Lemma Child_SetChild c z : Child (SetChild c z) = sint 32 c.
Proof.
  unfold Child, SetChild. cbn. rewrite !bits_put by lia.
  rewrite (uint_small 16 (bits _ _ _)) by (apply bits_range; lia).
  rewrite <- (bits_0 16), <- (sint_uint 32 c), <- bits_0 by lia. f_equal.
  symmetry. exact (bits_split 0 16 16 c ltac:(lia) ltac:(lia) ltac:(lia)).
Qed.

Lemma top_bit b : 0 <= b < 2 ^ 8 -> b / 2 ^ 7 = 0 /\ b < 2 ^ 7 \/ b / 2 ^ 7 = 1 /\ 2 ^ 7 <= b.
Proof.
  intros Hb. destruct (Z.lt_ge_cases b (2 ^ 7)); [left; rewrite Z.div_small; lia | right].
  assert (b / 2 ^ 7 < 2) by (apply Z.div_lt_upper_bound; lia).
  assert (1 <= b / 2 ^ 7) by (apply Z.div_le_lower_bound; lia). lia.
Qed.

(** A zone has children exactly when its child index is not negative. *)
Lemma HasChildren_Child z : ok z -> HasChildren z = (0 <=? Child z).
Proof.
  intros _. unfold HasChildren, Child. rewrite Z.shiftr_div_pow2 by lia.
  pose proof (bits_split 0 8 8 (_end_child1 z) ltac:(lia) ltac:(lia) ltac:(lia)) as E.
  change (8 + 8) with 16 in E. change (0 + 8) with 8 in E.
  pose proof (bits_range 0 16 (_child2 z) ltac:(lia)) as H0.
  pose proof (bits_range 0 8 (_end_child1 z) ltac:(lia)) as H1.
  pose proof (bits_range 8 8 (_end_child1 z) ltac:(lia)) as H2. unfold in_uint in *.
  rewrite E. unfold sint, uint. rewrite Z.mod_small by lia.
  assert (Hd : bits 8 8 (_end_child1 z) / 2 ^ 7 = 0 /\ bits 8 8 (_end_child1 z) < 2 ^ 7 \/
               bits 8 8 (_end_child1 z) / 2 ^ 7 = 1 /\ 2 ^ 7 <= bits 8 8 (_end_child1 z))
    by (apply top_bit; lia).
  destruct (Z.ltb_spec (bits 0 16 (_child2 z) + 2 ^ 16 * (bits 0 8 (_end_child1 z) +
    2 ^ 8 * bits 8 8 (_end_child1 z))) (2 ^ (32 - 1)));
    destruct Hd as [[Hd ?] | [Hd ?]]; rewrite Hd;
    match goal with |- _ = (0 <=? ?x) => destruct (Z.leb_spec 0 x) end; try done; lia.
Qed.
End ZoneEvent.

Lemma assert47_some {A} t (a b : A) : assert47 t a = Some b -> b = a /\ t < 2 ^ 47.
Proof. unfold assert47. destruct (Z.ltb_spec t (2 ^ 47)); [| done]. now intros [= <-]. Qed.

(** The child index is not in the upper bits of its second word. *)
Lemma Child_time t w : in_uint 64 w -> bits 0 16 (set_time48 t w) = bits 0 16 w.
Proof. intros. now apply low8_time. Qed.

Section ZoneSetters.
Context (z : ZoneEvent.t) (v : Z) (Hz : ZoneEvent.ok z).

Lemma zone_SetEnd z' : ZoneEvent.SetEnd v z = Some z' ->
  ZoneEvent.ok z' /\ ZoneEvent.End_ z' = sint 48 v /\ ZoneEvent.Start z' = ZoneEvent.Start z /\
  ZoneEvent.SrcLoc z' = ZoneEvent.SrcLoc z /\ ZoneEvent.Child z' = ZoneEvent.Child z.
Proof.
  destruct Hz as (H1 & H2 & H3). unfold ZoneEvent.SetEnd. intros E.
  apply assert47_some in E as [-> _]. unfold ZoneEvent.ok, ZoneEvent.Start,
    ZoneEvent.End_, ZoneEvent.SrcLoc, ZoneEvent.Child. cbn.
  rewrite Child_time by done. autorewrite with tracy. auto 10 with tracy.
Qed.

Lemma zone_SetChild : let z' := ZoneEvent.SetChild v z in
  ZoneEvent.ok z' /\ ZoneEvent.Child z' = sint 32 v /\ ZoneEvent.Start z' = ZoneEvent.Start z /\
  ZoneEvent.End_ z' = ZoneEvent.End_ z /\ ZoneEvent.SrcLoc z' = ZoneEvent.SrcLoc z.
Proof.
  destruct Hz as (H1 & H2 & H3). cbv zeta. rewrite ZoneEvent.Child_SetChild.
  unfold ZoneEvent.SetChild, ZoneEvent.ok, ZoneEvent.Start, ZoneEvent.End_, ZoneEvent.SrcLoc. cbn.
  change (put 0 16 ?v (ZoneEvent._end_child1 z)) with (set_low16 v (ZoneEvent._end_child1 z)).
  autorewrite with tracy. split; [| auto]. split; [exact H1 |].
  split; [apply put_range; lia || exact H2 | auto with tracy].
Qed.

Lemma zone_SetStartSrcLoc s z' : ZoneEvent.SetStartSrcLoc v s z = Some z' ->
  ZoneEvent.ok z' /\ ZoneEvent.Start z' = sint 48 v /\ ZoneEvent.SrcLoc z' = sint 16 s /\
  ZoneEvent.End_ z' = ZoneEvent.End_ z /\ ZoneEvent.Child z' = ZoneEvent.Child z.
Proof.
  destruct Hz as (H1 & H2 & H3). unfold ZoneEvent.SetStartSrcLoc. intros E.
  apply assert47_some in E as [-> _]. unfold ZoneEvent.ok, ZoneEvent.Start,
    ZoneEvent.End_, ZoneEvent.SrcLoc, ZoneEvent.Child. cbn.
  autorewrite with tracy. rewrite sint_uint by lia. auto 10 with tracy.
Qed.
End ZoneSetters.

(** The fields of a zone are independent: each setter changes its own field,
    to the value converted to the field's width, and no other; start, end and
    child index share words pairwise. *)
Theorem ZoneEvent_fields (z : ZoneEvent.t) (v : Z) :
  ZoneEvent.ok z ->
  (forall z', ZoneEvent.SetStart v z = Some z' ->
     ZoneEvent.ok z' /\ ZoneEvent.Start z' = sint 48 v /\ ZoneEvent.End_ z' = ZoneEvent.End_ z /\
     ZoneEvent.SrcLoc z' = ZoneEvent.SrcLoc z /\ ZoneEvent.Child z' = ZoneEvent.Child z) /\
  (forall z', ZoneEvent.SetEnd v z = Some z' ->
     ZoneEvent.ok z' /\ ZoneEvent.End_ z' = sint 48 v /\ ZoneEvent.Start z' = ZoneEvent.Start z /\
     ZoneEvent.SrcLoc z' = ZoneEvent.SrcLoc z /\ ZoneEvent.Child z' = ZoneEvent.Child z) /\
  (let z' := ZoneEvent.SetSrcLoc v z in
     ZoneEvent.ok z' /\ ZoneEvent.SrcLoc z' = sint 16 v /\ ZoneEvent.Start z' = ZoneEvent.Start z /\
     ZoneEvent.End_ z' = ZoneEvent.End_ z /\ ZoneEvent.Child z' = ZoneEvent.Child z) /\
  (let z' := ZoneEvent.SetChild v z in
     ZoneEvent.ok z' /\ ZoneEvent.Child z' = sint 32 v /\ ZoneEvent.Start z' = ZoneEvent.Start z /\
     ZoneEvent.End_ z' = ZoneEvent.End_ z /\ ZoneEvent.SrcLoc z' = ZoneEvent.SrcLoc z) /\
  (forall s z', ZoneEvent.SetStartSrcLoc v s z = Some z' ->
     ZoneEvent.ok z' /\ ZoneEvent.Start z' = sint 48 v /\ ZoneEvent.SrcLoc z' = sint 16 s /\
     ZoneEvent.End_ z' = ZoneEvent.End_ z /\ ZoneEvent.Child z' = ZoneEvent.Child z).
Proof.
  intros Hz. split; [| split; [| split; [| split]]].
  - destruct Hz as (H1 & H2 & H3). unfold ZoneEvent.SetStart.
    intros z' E. apply assert47_some in E as [-> _]. unfold ZoneEvent.ok, ZoneEvent.Start,
      ZoneEvent.End_, ZoneEvent.SrcLoc, ZoneEvent.Child. cbn.
    autorewrite with tracy. auto 10 with tracy.
  - intros z' E. now apply zone_SetEnd.
  - destruct Hz as (H1 & H2 & H3).
    unfold ZoneEvent.SetSrcLoc, ZoneEvent.ok, ZoneEvent.Start, ZoneEvent.End_,
      ZoneEvent.SrcLoc, ZoneEvent.Child. cbn.
    autorewrite with tracy. rewrite sint_uint by lia. auto 10 with tracy.
  - now apply zone_SetChild.
  - intros s z' E. now apply zone_SetStartSrcLoc.
Qed.

Lemma ZoneEvent_fields_witness :
  exists z', ZoneEvent.SetStart 5 (ZoneEvent.mk 0 0 0 0) = Some z' /\ ZoneEvent.Start z' = 5.
Proof.
  eexists. split; [reflexivity |].
  destruct (ZoneEvent_fields (ZoneEvent.mk 0 0 0 0) 5) as [H _].
  - repeat split; vm_compute; discriminate || reflexivity.
  - destruct (H _ eq_refl) as (_ & E & _). exact E.
Defined.

(** ** Locks *)
Module LockEvent.
(* TracyEvent.hpp:312-320 Type *)
Inductive Type_ : Set := Wait | Obtain | Release | WaitShared | ObtainShared | ReleaseShared.
(** The last two members are those of [LockEventShared], zero for other locks. *)
(* TracyEvent.hpp:310-336 LockEvent *)
Record t := mk {
  _time_srcloc : Z; thread : Z; type : Type_; waitShared : Z; sharedList : Z }.
#[global] Instance eta_t : Eta t := fun r =>
  mk (_time_srcloc r) (thread r) (type r) (waitShared r) (sharedList r).

(* TracyEvent.hpp:322-322 *)
Definition Time (e : t) : Z := time48 (_time_srcloc e).
(* TracyEvent.hpp:323-323 *)
Definition SetTime (time : Z) (e : t) : option t :=
  assert47 time (e <| _time_srcloc ::= set_time48 time |>).
(* TracyEvent.hpp:324-324 *)
Definition SrcLoc (e : t) : Z := sint 16 (low16 (_time_srcloc e)).
(* TracyEvent.hpp:325-325 *)
Definition SetSrcLoc (srcloc : Z) (e : t) : t := e <| _time_srcloc ::= set_low16 srcloc |>.
End LockEvent.

(** An entry of the timeline of a lock: the event, and the state of the lock
    after it. *)
Module LockEventPtr.
(* TracyEvent.hpp:338-344 LockEventPtr *)
Record t := mk { ptr : LockEvent.t; lockingThread : Z; lockCount : Z; waitList : Z }.
#[global] Instance eta_t : Eta t := fun r =>
  mk (ptr r) (lockingThread r) (lockCount r) (waitList r).
End LockEventPtr.

(* TracyEvent.hpp:346-346 *)
Definition MaxLockThreads : Z := 64.

(** ** GPU zones *)
Module GpuEvent.
(* TracyEvent.hpp:385-408 GpuEvent *)
Record t := mk {
  _cpuStart_srcloc : Z; _cpuEnd_thread : Z; _gpuStart_child1 : Z; _gpuEnd_child2 : Z;
  callstack : Int24.t; query_id : Z }.
#[global] Instance eta_t : Eta t := fun r =>
  mk (_cpuStart_srcloc r) (_cpuEnd_thread r) (_gpuStart_child1 r) (_gpuEnd_child2 r)
    (callstack r) (query_id r).

Definition ok (e : t) : Prop :=
  in_uint 64 (_cpuStart_srcloc e) /\ in_uint 64 (_cpuEnd_thread e) /\
  in_uint 64 (_gpuStart_child1 e) /\ in_uint 64 (_gpuEnd_child2 e).

(* TracyEvent.hpp:387-387 *)
Definition CpuStart (e : t) : Z := time48 (_cpuStart_srcloc e).
(* TracyEvent.hpp:388-388 *)
Definition SetCpuStart (v : Z) (e : t) : option t :=
  assert47 v (e <| _cpuStart_srcloc ::= set_time48 v |>).
(* TracyEvent.hpp:389-389 *)
Definition CpuEnd (e : t) : Z := time48 (_cpuEnd_thread e).
(* TracyEvent.hpp:390-390 *)
Definition SetCpuEnd (v : Z) (e : t) : option t :=
  assert47 v (e <| _cpuEnd_thread ::= set_time48 v |>).
(* TracyEvent.hpp:391-391 *)
Definition GpuStart (e : t) : Z := time48 (_gpuStart_child1 e).
(* TracyEvent.hpp:392-392 *)
Definition SetGpuStart (v : Z) (e : t) : t := e <| _gpuStart_child1 ::= set_time48 v |>.
(* TracyEvent.hpp:393-393 *)
Definition GpuEnd (e : t) : Z := time48 (_gpuEnd_child2 e).
(* TracyEvent.hpp:394-394 *)
Definition SetGpuEnd (v : Z) (e : t) : option t :=
  assert47 v (e <| _gpuEnd_child2 ::= set_time48 v |>).
(* TracyEvent.hpp:395-395 *)
Definition SrcLoc (e : t) : Z := sint 16 (low16 (_cpuStart_srcloc e)).
(* TracyEvent.hpp:396-396 *)
Definition SetSrcLoc (v : Z) (e : t) : t := e <| _cpuStart_srcloc ::= set_low16 v |>.
(* TracyEvent.hpp:397-397 *)
Definition Thread (e : t) : Z := low16 (_cpuEnd_thread e).
(* TracyEvent.hpp:398-398 *)
Definition SetThread (v : Z) (e : t) : t := e <| _cpuEnd_thread ::= set_low16 v |>.
(* TracyEvent.hpp:399-399 *)
Definition Child (e : t) : Z :=
  sint 32 (Z.lor (Z.shiftl (low16 (_gpuEnd_child2 e)) 16) (low16 (_gpuStart_child1 e))).
(* TracyEvent.hpp:400-400 *)
Definition SetChild (child : Z) (e : t) : t :=
  e <| _gpuStart_child1 ::= set_low16 child |>
    <| _gpuEnd_child2 ::= set_low16 (bits 16 16 (uint 32 child)) |>.

Lemma SetChild_Child c e : Child (SetChild c e) = sint 32 c.
Proof.
  unfold Child, SetChild. cbn. autorewrite with tracy.
  rewrite lor_shiftl by (try apply (uint_range 16); lia).
  rewrite (uint_small 16 (bits _ _ _)) by (apply bits_range; lia).
  rewrite bits_uint, <- (bits_0 16), <- (sint_uint 32 c), <- bits_0 by lia. f_equal.
  pose proof (bits_split 0 16 16 c ltac:(lia) ltac:(lia) ltac:(lia)) as E.
  change (16 + 16) with 32 in E. change (0 + 16) with 16 in E. lia.
Qed.
End GpuEvent.

(** The same for GPU zones, whose child index is split over the low halves
    of the words of both GPU times. *)
Theorem GpuEvent_fields (e : GpuEvent.t) (v : Z) :
  GpuEvent.ok e ->
  (forall e', GpuEvent.SetCpuStart v e = Some e' ->
     GpuEvent.ok e' /\ GpuEvent.CpuStart e' = sint 48 v /\ GpuEvent.SrcLoc e' = GpuEvent.SrcLoc e) /\
  (forall e', GpuEvent.SetCpuEnd v e = Some e' ->
     GpuEvent.ok e' /\ GpuEvent.CpuEnd e' = sint 48 v /\ GpuEvent.Thread e' = GpuEvent.Thread e) /\
  (let e' := GpuEvent.SetGpuStart v e in
     GpuEvent.ok e' /\ GpuEvent.GpuStart e' = sint 48 v /\ GpuEvent.Child e' = GpuEvent.Child e /\
     GpuEvent.GpuEnd e' = GpuEvent.GpuEnd e) /\
  (forall e', GpuEvent.SetGpuEnd v e = Some e' ->
     GpuEvent.ok e' /\ GpuEvent.GpuEnd e' = sint 48 v /\ GpuEvent.Child e' = GpuEvent.Child e /\
     GpuEvent.GpuStart e' = GpuEvent.GpuStart e) /\
  (let e' := GpuEvent.SetChild v e in
     GpuEvent.ok e' /\ GpuEvent.Child e' = sint 32 v /\ GpuEvent.GpuStart e' = GpuEvent.GpuStart e /\
     GpuEvent.GpuEnd e' = GpuEvent.GpuEnd e) /\
  (let e' := GpuEvent.SetThread v e in
     GpuEvent.ok e' /\ GpuEvent.Thread e' = uint 16 v /\ GpuEvent.CpuEnd e' = GpuEvent.CpuEnd e) /\
  (let e' := GpuEvent.SetSrcLoc v e in
     GpuEvent.ok e' /\ GpuEvent.SrcLoc e' = sint 16 v /\ GpuEvent.CpuStart e' = GpuEvent.CpuStart e).
Proof.
  intros (H1 & H2 & H3 & H4). cbv zeta. rewrite GpuEvent.SetChild_Child.
  unfold GpuEvent.SetCpuStart, GpuEvent.SetCpuEnd, GpuEvent.SetGpuEnd.
  split_and!; try (intros e' E; apply assert47_some in E as [-> _]);
    unfold GpuEvent.ok, GpuEvent.CpuStart, GpuEvent.CpuEnd, GpuEvent.GpuStart, GpuEvent.GpuEnd,
      GpuEvent.SrcLoc, GpuEvent.Thread, GpuEvent.Child; cbn;
    autorewrite with tracy; rewrite ?sint_uint by lia; auto 10 with tracy.
Qed.

Lemma GpuEvent_fields_witness :
  GpuEvent.Child (GpuEvent.SetChild (-1) (GpuEvent.mk 0 0 0 0 0 0)) = -1.
Proof.
  destruct (GpuEvent_fields (GpuEvent.mk 0 0 0 0 0 0) (-1)) as (_ & _ & _ & _ & (_ & E & _) & _).
  - repeat split; vm_compute; discriminate || reflexivity.
  - exact E.
Defined.

(** ** Allocations *)
Module MemEvent.
(* TracyEvent.hpp:413-438 MemEvent *)
Record t := mk {
  _ptr_csalloc1 : Z; _size_csalloc2 : Z; csFree : Int24.t;
  _time_thread_alloc : Z; _time_thread_free : Z }.
#[global] Instance eta_t : Eta t := fun r =>
  mk (_ptr_csalloc1 r) (_size_csalloc2 r) (csFree r) (_time_thread_alloc r)
    (_time_thread_free r).
Definition zero : t := mk 0 0 0 0 0.

Definition ok (e : t) : Prop :=
  in_uint 64 (_ptr_csalloc1 e) /\ in_uint 64 (_size_csalloc2 e) /\
  in_uint 64 (_time_thread_alloc e) /\ in_uint 64 (_time_thread_free e).

(* TracyEvent.hpp:415-415 *)
Definition Ptr (e : t) : Z := uint 64 (Z.shiftr (sint 64 (_ptr_csalloc1 e)) 8).
(* TracyEvent.hpp:416-416 *)
Definition SetPtr (ptr : Z) (e : t) : t :=
  e <| _ptr_csalloc1 ::= fun w =>
       put 56 8 (bits 48 8 ptr) (put 40 16 (bits 32 16 ptr) (put 8 32 ptr w)) |>.
(* TracyEvent.hpp:417-417 *)
Definition Size (e : t) : Z := Z.shiftr (_size_csalloc2 e) 16.
(* TracyEvent.hpp:418-418 *)
Definition SetSize (size : Z) (e : t) : option t :=
  assert47 size (e <| _size_csalloc2 ::= set_time48 size |>).
(* TracyEvent.hpp:419-419 *)
Definition CsAlloc (e : t) : Z :=
  Z.lor (Z.shiftl (uint 16 (_size_csalloc2 e)) 8) (uint 8 (_ptr_csalloc1 e)).
(* TracyEvent.hpp:420-420 *)
Definition SetCsAlloc (csAlloc : Z) (e : t) : t :=
  e <| _ptr_csalloc1 ::= put 0 8 csAlloc |>
    <| _size_csalloc2 ::= set_low16 (bits 8 16 csAlloc) |>.
(* TracyEvent.hpp:421-421 *)
Definition TimeAlloc (e : t) : Z := time48 (_time_thread_alloc e).
(* TracyEvent.hpp:422-422 *)
Definition SetTimeAlloc (time : Z) (e : t) : option t :=
  assert47 time (e <| _time_thread_alloc ::= set_time48 time |>).
(* TracyEvent.hpp:423-423 *)
Definition TimeFree (e : t) : Z := time48 (_time_thread_free e).
(* TracyEvent.hpp:424-424 *)
Definition SetTimeFree (time : Z) (e : t) : option t :=
  assert47 time (e <| _time_thread_free ::= set_time48 time |>).
(* TracyEvent.hpp:425-425 *)
Definition ThreadAlloc (e : t) : Z := uint 16 (_time_thread_alloc e).
(* TracyEvent.hpp:426-426 *)
Definition SetThreadAlloc (thread : Z) (e : t) : t :=
  e <| _time_thread_alloc ::= set_low16 thread |>.
(* TracyEvent.hpp:427-427 *)
Definition ThreadFree (e : t) : Z := uint 16 (_time_thread_free e).
(* TracyEvent.hpp:428-428 *)
Definition SetThreadFree (thread : Z) (e : t) : t :=
  e <| _time_thread_free ::= set_low16 thread |>.
(* TracyEvent.hpp:430-430 *)
Definition SetTimeThreadAlloc (time thread : Z) (e : t) : t :=
  e <| _time_thread_alloc := pack48 time thread |>.
(* TracyEvent.hpp:431-431 *)
Definition SetTimeThreadFree (time thread : Z) (e : t) : t :=
  e <| _time_thread_free := pack48 time thread |>.
End MemEvent.

Lemma bits_set_ptr p w :
  bits 8 56 (put 56 8 (bits 48 8 p) (put 40 16 (bits 32 16 p) (put 8 32 p w))) = uint 56 p.
Proof.
  change (bits 8 56) with (bits 8 (32 + (16 + 8))).
  rewrite (bits_split 8 32), (bits_split (8 + 32) 16 8) by lia.
  change (8 + 32) with 40. change (40 + 16) with 56.
  rewrite (bits_put_low 56 8 _ _ 8 32), (bits_put_low 40 16 _ _ 8 32), bits_put by lia.
  rewrite (bits_put_low 56 8 _ _ 40 16), !bits_put by lia.
  rewrite (uint_small 16 (bits _ _ _)), (uint_small 8 (bits _ _ _)) by (apply bits_range; lia).
  rewrite <- (bits_0 56). change (bits 0 56) with (bits 0 (32 + (16 + 8))).
  rewrite (bits_split 0 32), (bits_split (0 + 32) 16 8), bits_0 by lia. done.
Qed.

Lemma shiftr_ptr w : in_uint 64 w -> Z.shiftr (sint 64 w) 8 = sint 56 (bits 8 56 w).
Proof. apply (shiftr_sint 8 56); lia. Qed.

Lemma shiftr_size w : in_uint 64 w -> Z.shiftr w 16 = bits 16 48 w.
Proof.
  intros [? ?]. rewrite Z.shiftr_div_pow2 by lia. unfold bits.
  rewrite Z.mod_small; [done |]. split; [apply Z.div_pos; lia |].
  apply Z.div_lt_upper_bound; lia.
Qed.

Lemma set_ptr_range p w : in_uint 64 w ->
  in_uint 64 (put 56 8 (bits 48 8 p) (put 40 16 (bits 32 16 p) (put 8 32 p w))).
Proof. intros. repeat (apply put_range; try lia). done. Qed.

Lemma uint16_pack t th : uint 16 (pack48 t th) = uint 16 th.
Proof. rewrite <- bits_0, <- low16_bits. apply low16_pack. Qed.

Ltac mem_fields := unfold MemEvent.ok, MemEvent.Ptr, MemEvent.Size, MemEvent.CsAlloc,
  MemEvent.TimeAlloc, MemEvent.TimeFree, MemEvent.ThreadAlloc, MemEvent.ThreadFree; cbn;
  autorewrite with tracy; rewrite ?uint16_pack.

Section MemSetters.
Context (e : MemEvent.t) (v thread : Z) (Hok : MemEvent.ok e).

Lemma mem_SetPtr : let e' := MemEvent.SetPtr v e in
  MemEvent.ok e' /\ MemEvent.Ptr e' = uint 64 (sint 56 v) /\
  MemEvent.Size e' = MemEvent.Size e /\ MemEvent.CsAlloc e' = MemEvent.CsAlloc e.
Proof.
  destruct Hok as (H1 & H2 & H3 & H4). mem_fields.
  rewrite shiftr_ptr by now apply set_ptr_range.
  rewrite bits_set_ptr, sint_uint, <- !(bits_0 8) by lia.
  rewrite !bits_put_low by lia. split_and!; auto using set_ptr_range.
Qed.

Lemma mem_SetSize e' : 0 <= v -> MemEvent.SetSize v e = Some e' ->
  MemEvent.ok e' /\ MemEvent.Size e' = v /\
  MemEvent.Ptr e' = MemEvent.Ptr e /\ MemEvent.CsAlloc e' = MemEvent.CsAlloc e.
Proof.
  destruct Hok as (H1 & H2 & H3 & H4). intros Hv E. unfold MemEvent.SetSize in E.
  apply assert47_some in E as [-> Hlt]. mem_fields.
  rewrite !shiftr_size by auto with tracy.
  rewrite bits_set_time48, <- !(bits_0 16), low8_time by lia.
  rewrite uint_small by (red; lia). split_and!; auto with tracy.
Qed.

Lemma mem_SetCsAlloc : let e' := MemEvent.SetCsAlloc v e in
  MemEvent.ok e' /\ MemEvent.CsAlloc e' = uint 24 v /\
  MemEvent.Ptr e' = MemEvent.Ptr e /\ MemEvent.Size e' = MemEvent.Size e.
Proof.
  destruct Hok as (H1 & H2 & H3 & H4). mem_fields. unfold set_low16.
  rewrite !shiftr_ptr, !shiftr_size by (try apply put_range; lia || auto with tracy).
  rewrite !bits_put_high, <- (bits_0 8 (put _ _ _ _)), <- (bits_0 16 (put _ _ _ _)) by lia.
  rewrite !bits_put, (uint_small 16 (bits _ _ _)) by (try apply bits_range; lia).
  rewrite lor_shiftl by (try apply (uint_range 8); lia).
  split_and!; auto; try (apply put_range; lia || done).
  pose proof (bits_split 0 8 16 v ltac:(lia) ltac:(lia) ltac:(lia)) as E.
  change (0 + 8) with 8 in E. change (8 + 16) with 24 in E. rewrite !bits_0 in E. lia.
Qed.

Lemma mem_SetTimeThreadAlloc : let e' := MemEvent.SetTimeThreadAlloc v thread e in
  MemEvent.ok e' /\ MemEvent.TimeAlloc e' = sint 48 v /\
  MemEvent.ThreadAlloc e' = uint 16 thread /\ MemEvent.TimeFree e' = MemEvent.TimeFree e.
Proof. destruct Hok as (H1 & H2 & H3 & H4). mem_fields. auto with tracy. Qed.

Lemma mem_SetTimeThreadFree : let e' := MemEvent.SetTimeThreadFree v thread e in
  MemEvent.ok e' /\ MemEvent.TimeFree e' = sint 48 v /\
  MemEvent.ThreadFree e' = uint 16 thread /\ MemEvent.TimeAlloc e' = MemEvent.TimeAlloc e.
Proof. destruct Hok as (H1 & H2 & H3 & H4). mem_fields. auto with tracy. Qed.
End MemSetters.

(** The fields of an allocation: pointer (56 bits, sign-extended as a canonical
    address), size, both times and threads read back what was written, and the
    call stack number lives in the three bytes the pointer and the size leave
    free. *)
Theorem MemEvent_fields (e : MemEvent.t) (v thread : Z) :
  MemEvent.ok e ->
  (let e' := MemEvent.SetPtr v e in
     MemEvent.ok e' /\ MemEvent.Ptr e' = uint 64 (sint 56 v) /\
     MemEvent.Size e' = MemEvent.Size e /\ MemEvent.CsAlloc e' = MemEvent.CsAlloc e) /\
  (forall e', 0 <= v -> MemEvent.SetSize v e = Some e' ->
     MemEvent.ok e' /\ MemEvent.Size e' = v /\
     MemEvent.Ptr e' = MemEvent.Ptr e /\ MemEvent.CsAlloc e' = MemEvent.CsAlloc e) /\
  (let e' := MemEvent.SetCsAlloc v e in
     MemEvent.ok e' /\ MemEvent.CsAlloc e' = uint 24 v /\
     MemEvent.Ptr e' = MemEvent.Ptr e /\ MemEvent.Size e' = MemEvent.Size e) /\
  (let e' := MemEvent.SetTimeThreadAlloc v thread e in
     MemEvent.ok e' /\ MemEvent.TimeAlloc e' = sint 48 v /\
     MemEvent.ThreadAlloc e' = uint 16 thread /\ MemEvent.TimeFree e' = MemEvent.TimeFree e) /\
  (let e' := MemEvent.SetTimeThreadFree v thread e in
     MemEvent.ok e' /\ MemEvent.TimeFree e' = sint 48 v /\
     MemEvent.ThreadFree e' = uint 16 thread /\ MemEvent.TimeAlloc e' = MemEvent.TimeAlloc e).
Proof.
  intros He. split; [now apply mem_SetPtr |]. split; [intros e'; now apply mem_SetSize |].
  split; [now apply mem_SetCsAlloc |].
  split; [now apply mem_SetTimeThreadAlloc | now apply mem_SetTimeThreadFree].
Qed.

Lemma MemEvent_fields_witness :
  MemEvent.Ptr (MemEvent.SetPtr 0xFFFF800000001000 MemEvent.zero) = 0xFFFF800000001000.
Proof.
  destruct (MemEvent_fields MemEvent.zero 0xFFFF800000001000 0) as ((_ & E & _) & _).
  - repeat split; vm_compute; discriminate || reflexivity.
  - exact E.
Defined.

(** ** Context switches *)
Module ContextSwitchData.
(* TracyEvent.hpp:520-523 CSReason *)
Definition Wakeup : Z := -2.
(* TracyEvent.hpp:522-522 CSReason *)
Definition Fiber : Z := 99.
(* TracyEvent.hpp:523-523 CSReason *)
Definition NoState : Z := 100.
(* TracyEvent.hpp:518-601 ContextSwitchData *)
Record t := mk {
  _start : Int48.t; _cpu : Z; _wakeupcpu : Z; _end : Int48.t; _reason : Z; _state : Z;
  _wakeup : Int48.t; _thread : Z }.
#[global] Instance eta_t : Eta t := fun r =>
  mk (_start r) (_cpu r) (_wakeupcpu r) (_end r) (_reason r) (_state r) (_wakeup r) (_thread r).
Definition zero : t := mk 0 0 0 0 0 0 0 0.

Definition Start (c : t) : Z := Int48.Val (_start c).
Definition SetStart (v : Z) (c : t) : option t := assert47 v (c <| _start := Int48.make v |>).
Definition End_ (c : t) : Z := Int48.Val (_end c).
Definition SetEnd (v : Z) (c : t) : option t := assert47 v (c <| _end := Int48.make v |>).
Definition IsEndValid (c : t) : bool := Int48.IsNonNegative (_end c).
Definition EndOrStart (c : t) : Z := if Int48.IsNonNegative (_end c) then End_ c else Start c.
Definition SetCpu (v : Z) (c : t) : t := c <| _cpu := uint 8 v |>.
Definition SetWakeupCpu (v : Z) (c : t) : t := c <| _wakeupcpu := uint 8 v |>.
Definition SetReason (v : Z) (c : t) : t := c <| _reason := sint 8 v |>.
Definition SetState (v : Z) (c : t) : t := c <| _state := sint 8 v |>.
Definition WakeupVal (c : t) : Z := Int48.Val (_wakeup c).
Definition SetWakeup (v : Z) (c : t) : option t := assert47 v (c <| _wakeup := Int48.make v |>).
Definition SetThread (v : Z) (c : t) : t := c <| _thread := uint 16 v |>.
End ContextSwitchData.

Module ContextSwitchCpu.
(* TracyEvent.hpp:604-618 ContextSwitchCpu *)
Record t := mk { _start_thread : Z; _end : Int48.t }.
#[global] Instance eta_t : Eta t := fun r => mk (_start_thread r) (_end r).

Definition Start (c : t) : Z := time48 (_start_thread c).
(** Reads the two bytes before [_end] along with it, and shifts them out. *)
Definition End_ (c : t) : Z :=
  Z.shiftr (sint 64 (bits 48 16 (_start_thread c) + 2 ^ 16 * bits 0 48 (_end c))) 16.
Definition SetEnd (v : Z) (c : t) : option t := assert47 v (c <| _end ::= Int48.SetVal v |>).
Definition IsEndValid (c : t) : bool := Int48.IsNonNegative (_end c).
Definition Thread (c : t) : Z := uint 16 (_start_thread c).
Definition SetStart (v : Z) (c : t) : option t := assert47 v (c <| _start_thread ::= set_time48 v |>).
Definition SetThread (v : Z) (c : t) : t := c <| _start_thread ::= set_low16 v |>.
Definition SetStartThread (start thread : Z) (c : t) : option t :=
  assert47 start (c <| _start_thread := pack48 start thread |>).
End ContextSwitchCpu.

Module ContextSwitchUsage.
(* TracyEvent.hpp:621-634 ContextSwitchUsage *)
Definition t : Type := Z.
Definition Time (w : t) : Z := time48 w.
Definition SetTime (v : Z) (w : t) : option t := assert47 v (set_time48 v w).
Definition Other (w : t) : Z := uint 8 w.
Definition SetOther (v : Z) (w : t) : t := put 0 8 v w.
Definition Own (w : t) : Z := bits 8 8 w.
Definition SetOwn (v : Z) (w : t) : t := put 8 8 v w.
Definition make (time other own : Z) : option t :=
  w ← SetTime time 0; Some (SetOwn own (SetOther other w)).
End ContextSwitchUsage.

(** Context switches: an unset end is recognised by its sign, reading the
    end of a CPU's switch together with two bytes of its neighbour gives the end
    alone, and the counts of running threads do not disturb the time they share
    a word with. *)
Theorem ContextSwitch_fields (c : ContextSwitchCpu.t) (v thread : Z) (d : ContextSwitchData.t)
    (other own : Z) :
  (forall c', ContextSwitchCpu.SetStartThread v thread c = Some c' ->
     ContextSwitchCpu.Start c' = sint 48 v /\ ContextSwitchCpu.Thread c' = uint 16 thread) /\
  (forall c', ContextSwitchCpu.SetEnd v c = Some c' ->
     ContextSwitchCpu.End_ c' = sint 48 v /\
     ContextSwitchCpu.IsEndValid c' = (0 <=? sint 48 v) /\
     ContextSwitchCpu.Start c' = ContextSwitchCpu.Start c) /\
  (forall d', ContextSwitchData.SetEnd v d = Some d' ->
     ContextSwitchData.End_ d' = sint 48 v /\
     ContextSwitchData.IsEndValid d' = (0 <=? sint 48 v) /\
     ContextSwitchData.Start d' = ContextSwitchData.Start d) /\
  (forall w, ContextSwitchUsage.make v other own = Some w ->
     ContextSwitchUsage.Time w = sint 48 v /\ ContextSwitchUsage.Other w = uint 8 other /\
     ContextSwitchUsage.Own w = uint 8 own).
Proof.
  split_and!.
  - intros c' E. apply assert47_some in E as [-> _].
    unfold ContextSwitchCpu.Start, ContextSwitchCpu.Thread. cbn. autorewrite with tracy.
    split; [done |]. rewrite <- (bits_0 16 (pack48 _ _)), <- low16_bits. apply low16_pack.
  - intros c' E. apply assert47_some in E as [-> _].
    unfold ContextSwitchCpu.End_, ContextSwitchCpu.IsEndValid, ContextSwitchCpu.Start. cbn.
    rewrite Int48.IsNonNegative_Val, Int48.Val48_SetVal, Int48.bits_SetVal.
    split; [| done]. pose proof (bits_range 48 16 (ContextSwitchCpu._start_thread c) ltac:(lia)).
    pose proof (uint_range 48 v ltac:(lia)). unfold in_uint in *.
    rewrite (shiftr_sint 16 48) by (unfold in_uint; lia). rewrite <- (sint_uint 48 v) by lia.
    f_equal. unfold bits at 1. rewrite Z.add_comm, Z.mul_comm, Z.div_add_l, (Z.div_small (bits _ _ _)),
      Z.add_0_r by lia. now apply uint_small.
  - intros d' E. apply assert47_some in E as [-> _].
    unfold ContextSwitchData.End_, ContextSwitchData.IsEndValid. cbn.
    unfold Int48.make. rewrite Int48.IsNonNegative_Val, Int48.Val48_SetVal. done.
  - intros w E. unfold ContextSwitchUsage.make in E.
    destruct (ContextSwitchUsage.SetTime v 0) as [w0 |] eqn:E0; [| done]. cbn in E. simplify_eq.
    apply assert47_some in E0 as [-> _].
    unfold ContextSwitchUsage.Time, ContextSwitchUsage.Other, ContextSwitchUsage.Own,
      ContextSwitchUsage.SetOwn, ContextSwitchUsage.SetOther.
    assert (H0 : in_uint 64 (set_time48 v 0)) by (apply set_time48_range; red; lia).
    rewrite time48_bits by (repeat (apply put_range; try lia); done).
    rewrite !bits_put_high, bits_set_time48, sint_uint, bits_put, <- (bits_0 8) by lia.
    rewrite bits_put_low, bits_put by lia. done.
Qed.

Lemma ContextSwitch_fields_witness :
  exists c', ContextSwitchCpu.SetEnd (-1) (ContextSwitchCpu.mk 0xFFFF000000000000 0) = Some c' /\
    ContextSwitchCpu.IsEndValid c' = false.
Proof.
  eexists. split; [reflexivity |].
  destruct (ContextSwitch_fields (ContextSwitchCpu.mk 0xFFFF000000000000 0) (-1) 0
    ContextSwitchData.zero 0 0) as (_ & H & _).
  destruct (H _ eq_refl) as (_ & E & _). exact E.
Defined.
