(* ===== verification/Double.v ===== *)
(** * Double-precision numbers

    The server's plots, statistics and clock conversion compute with [double]s.
    They are IEEE binary64 numbers in round-to-nearest, as the compilers the
    program supports implement them, through the Standard Library's executable
    specification of floating point; so no fact about rounding is assumed. *)
From Stdlib Require Export SpecFloat.
From S2P Require Import Prelude.

Definition prec : Z := 53.
Definition emax : Z := 1024.
Definition double : Set := spec_float.

(** [double( z )] of an integer: the nearest double. *)
Definition double_of_Z (z : Z) : double := binary_normalize prec emax z 0 false.
Definition dadd : double -> double -> double := SFadd prec emax.
Definition dmul : double -> double -> double := SFmul prec emax.
Definition dsub : double -> double -> double := SFsub prec emax.
Definition ddiv : double -> double -> double := SFdiv prec emax.
Definition dltb : double -> double -> bool := SFltb.
Definition deqb : double -> double -> bool := SFeqb.

(** [isfinite], and the number with these bits. *)
Definition isfinite (d : double) : bool :=
  match d with S754_zero _ | S754_finite _ _ _ => true | _ => false end.

Definition of_bits (mant_bits exp_bits : Z) (w : Z) : double :=
  let s := Z.testbit w (mant_bits + exp_bits) in
  let e := bits mant_bits exp_bits w in
  let m := bits 0 mant_bits w in
  let bias := 2 ^ (exp_bits - 1) - 1 in
  let signed z := if s then - z else z in
  if e =? 2 ^ exp_bits - 1 then (if m =? 0 then S754_infinity s else S754_nan)
  else if e =? 0 then binary_normalize prec emax (signed m) (1 - bias - mant_bits) s
  else binary_normalize prec emax (signed (m + 2 ^ mant_bits)) (e - bias - mant_bits) s.
Definition double_of_bits : Z -> double := of_bits 52 11.
Definition float_of_bits : Z -> double := of_bits 23 8.

(** [int64_t( d )]: truncation; undefined when the value does not fit. *)
Definition trunc64 (d : double) : option Z :=
  match d with
  | S754_zero _ => Some 0
  | S754_finite s m e =>
      let a := if 0 <=? e then Z.pos m * 2 ^ e else Z.pos m / 2 ^ (- e) in
      let v := if s then - a else a in
      if (- 2 ^ 63 <=? v) && (v <? 2 ^ 63) then Some v else None
  | _ => None
  end.

Lemma trunc64_range d v : trunc64 d = Some v -> in_sint 64 v.
Proof.
  unfold trunc64. destruct d as [| | | s m e]; try discriminate.
  - intros [= <-]. red. lia.
  - case_match; [| discriminate]. intros [= <-]. zbool. red. lia.
Qed.

(** ** The order of doubles

    Numbers that are not NaN are ordered as their keys: sign class, exponent and
    mantissa, lexicographically. *)
Definition is_number (d : double) : bool := match d with S754_nan => false | _ => true end.
Definition dkey (d : double) : Z * Z * Z :=
  match d with
  | S754_infinity true => (-2, 0, 0)
  | S754_finite true m e => (-1, - e, - Z.pos m)
  | S754_zero _ => (0, 0, 0)
  | S754_finite false m e => (1, e, Z.pos m)
  | S754_infinity false => (2, 0, 0)
  | S754_nan => (3, 0, 0)
  end.
Definition key_lt (a b : Z * Z * Z) : Prop :=
  let '(a1, a2, a3) := a in let '(b1, b2, b3) := b in
  a1 < b1 \/ a1 = b1 /\ (a2 < b2 \/ a2 = b2 /\ a3 < b3).

Lemma dltb_key a b : is_number a = true -> is_number b = true -> dltb a b = true <-> key_lt (dkey a) (dkey b).
Proof.
  intros Ha Hb. unfold dltb, SFltb.
  destruct a as [[] | [] | | [] ma ea], b as [[] | [] | | [] mb eb]; try discriminate; cbn -[Z.compare];
    try (split; [intros; try discriminate; lia | intros; try reflexivity; lia]).
  - change (Pos.compare_cont Eq ma mb) with (Pos.compare ma mb).
    destruct (Z.compare_spec ea eb) as [-> | |]; [destruct (Pos.compare_spec ma mb) as [-> | |] | |]; cbn;
      (split; [intros; try discriminate; lia | intros; try reflexivity; lia]).
  - change (Pos.compare_cont Eq ma mb) with (Pos.compare ma mb).
    destruct (Z.compare_spec ea eb) as [-> | |]; [destruct (Pos.compare_spec ma mb) as [-> | |] | |]; cbn;
      (split; [intros; try discriminate; lia | intros; try reflexivity; lia]).
Qed.

Lemma key_lt_irrefl a : ~ key_lt a a.
Proof. destruct a as [[a1 a2] a3]. cbn. lia. Qed.
Lemma key_lt_trans a b c : key_lt a b -> key_lt b c -> key_lt a c.
Proof. destruct a as [[? ?] ?], b as [[? ?] ?], c as [[? ?] ?]. cbn. lia. Qed.
Lemma key_le_lt_trans a b c : ~ key_lt b a -> key_lt b c -> key_lt a c.
Proof. destruct a as [[? ?] ?], b as [[? ?] ?], c as [[? ?] ?]. cbn. lia. Qed.
Lemma key_lt_le_trans a b c : key_lt a b -> ~ key_lt c b -> key_lt a c.
Proof. destruct a as [[? ?] ?], b as [[? ?] ?], c as [[? ?] ?]. cbn. lia. Qed.

Lemma isfinite_number d : isfinite d = true -> is_number d = true.
Proof. now destruct d. Qed.

(** [not_above a b]: [a] is not greater than [b]. *)
Definition not_above (a b : double) : Prop := dltb b a = false.
Lemma not_above_key a b :
  is_number a = true -> is_number b = true -> not_above a b <-> ~ key_lt (dkey b) (dkey a).
Proof.
  intros Ha Hb. unfold not_above. rewrite <- dltb_key by done.
  destruct (dltb b a); split; intros H; done.
Qed.
Lemma not_above_trans a b c :
  is_number a = true -> is_number b = true -> is_number c = true ->
  not_above a b -> not_above b c -> not_above a c.
Proof.
  intros Ha Hb Hc. rewrite !not_above_key by done. intros H1 H2 H3. apply H1.
  eapply key_le_lt_trans; eauto.
Qed.
Lemma not_above_refl a : is_number a = true -> not_above a a.
Proof. intros Ha. apply not_above_key; [done | done |]. apply key_lt_irrefl. Qed.
Lemma dltb_not_above a b : is_number a = true -> is_number b = true -> dltb a b = true -> not_above a b.
Proof.
  intros Ha Hb H. apply not_above_key; [done | done |]. apply dltb_key in H; [| done | done].
  intros H2. exact (key_lt_irrefl _ (key_lt_trans _ _ _ H H2)).
Qed.
