(* ===== verification/Exact.v ===== *)
(** * Integers as double-precision numbers

    Below 2^53 the conversion of a natural number to a [double] is exact, so sums,
    differences and comparisons of such numbers are those of the integers. *)
From S2P Require Import Prelude Double.

Lemma size_bounds (p : positive) : 2 ^ (Z.pos (digits2_pos p) - 1) <= Z.pos p < 2 ^ Z.pos (digits2_pos p).
Proof.
  induction p as [p IH | p IH |]; cbn [digits2_pos]; [| | lia]; rewrite Pos2Z.inj_succ;
    (replace (Z.succ (Z.pos (digits2_pos p)) - 1) with (Z.succ (Z.pos (digits2_pos p) - 1)) by lia);
    rewrite !Z.pow_succ_r by lia; lia.
Qed.

Lemma digits_unique (p : positive) d : 0 < d -> 2 ^ (d - 1) <= Z.pos p < 2 ^ d -> Z.pos (digits2_pos p) = d.
Proof.
  intros Hd [H1 H2]. destruct (size_bounds p) as [H3 H4].
  assert (d - 1 < Z.pos (digits2_pos p)) by (apply (Z.pow_lt_mono_r_iff 2); lia).
  assert (Z.pos (digits2_pos p) - 1 < d) by (apply (Z.pow_lt_mono_r_iff 2); lia). lia.
Qed.

Lemma digits_le (p : positive) d : 0 <= d -> Z.pos p < 2 ^ d -> Z.pos (digits2_pos p) <= d.
Proof.
  intros Hd H. destruct (size_bounds p).
  assert (Z.pos (digits2_pos p) - 1 < d) by (apply (Z.pow_lt_mono_r_iff 2); lia). lia.
Qed.

(** [p * 2^k] *)
Definition shl_pos (p : positive) (k : Z) : positive := Z.to_pos (Z.pos p * 2 ^ k).
Lemma shl_pos_Z p k : 0 <= k -> Z.pos (shl_pos p k) = Z.pos p * 2 ^ k.
Proof. intros. unfold shl_pos. apply Z2Pos.id. pose proof (pow2_pos k). lia. Qed.

Lemma shl_pos_0 p : shl_pos p 0 = p.
Proof. apply Pos2Z.inj. rewrite shl_pos_Z; lia. Qed.

Lemma digits_shl p k : 0 <= k -> Z.pos (digits2_pos (shl_pos p k)) = Z.pos (digits2_pos p) + k.
Proof.
  intros Hk. apply digits_unique; [lia |]. rewrite shl_pos_Z by done. destruct (size_bounds p).
  replace (Z.pos (digits2_pos p) + k - 1) with (Z.pos (digits2_pos p) - 1 + k) by lia.
  rewrite !Z.pow_add_r by lia. pose proof (pow2_pos k Hk). nia.
Qed.

Lemma shl_pos_shl p j k : 0 <= j -> 0 <= k -> shl_pos (shl_pos p j) k = shl_pos p (j + k).
Proof. intros. apply Pos2Z.inj. rewrite !shl_pos_Z, Z.pow_add_r by lia. lia. Qed.

Lemma iter_xO p d : Pos.iter xO p d = shl_pos p (Z.pos d).
Proof.
  induction d as [| d IH] using Pos.peano_ind; [now apply Pos2Z.inj; rewrite shl_pos_Z by lia; cbn; lia |].
  rewrite Pos.iter_succ, IH. apply Pos2Z.inj.
  rewrite Pos2Z.inj_xO, !shl_pos_Z by lia. rewrite Pos2Z.inj_succ, Z.pow_succ_r; lia.
Qed.

Lemma shl_align_eq p e e' : e' <= e -> shl_align p e e' = (shl_pos p (e - e'), e').
Proof.
  intros He. unfold shl_align. destruct (e' - e) as [| d | d] eqn:E; [| lia |].
  - replace (e - e') with 0 by lia. rewrite shl_pos_0. f_equal. lia.
  - replace (e - e') with (Z.pos d) by lia. now rewrite iter_xO.
Qed.

(** Shifting out zeros is exact. *)
Lemma iter_shr p n : iter_pos shr_1 n {| shr_m := Z.pos (shl_pos p (Z.pos n)); shr_r := false; shr_s := false |}
  = {| shr_m := Z.pos p; shr_r := false; shr_s := false |}.
Proof.
  revert p. induction n as [n IH | n IH |]; intros p; cbn [iter_pos].
  - assert (E : shr_1 {| shr_m := Z.pos (shl_pos p (Z.pos n~1)); shr_r := false; shr_s := false |} =
      {| shr_m := Z.pos (shl_pos (shl_pos p (Z.pos n)) (Z.pos n)); shr_r := false; shr_s := false |}).
    { rewrite shl_pos_shl by lia.
      replace (shl_pos p (Z.pos n~1)) with (xO (shl_pos p (Z.pos n + Z.pos n))); [done |].
      apply Pos2Z.inj. rewrite Pos2Z.inj_xO, !shl_pos_Z by lia.
      replace (Z.pos n~1) with (Z.succ (Z.pos n + Z.pos n)) by lia. rewrite Z.pow_succ_r; lia. }
    rewrite E. now rewrite IH, IH.
  - replace (shl_pos p (Z.pos n~0)) with (shl_pos (shl_pos p (Z.pos n)) (Z.pos n)); [now rewrite IH, IH |].
    rewrite shl_pos_shl by lia. f_equal; lia.
  - replace (shl_pos p 1) with (xO p); [done |]. apply Pos2Z.inj. rewrite shl_pos_Z; lia.
Qed.

(** The double of [p * 2^k * 2^e], when [p] has at most 53 digits. *)
Lemma round_exact s p k e : 0 <= k ->
  let d := Z.pos (digits2_pos p) in
  d <= prec -> -1021 <= e + k + d <= emax ->
  binary_round prec emax s (shl_pos p k) e =
    S754_finite s (shl_pos p (prec - d)) (e + k + d - prec).
Proof.
  intros Hk d Hd He. unfold binary_round. rewrite digits_shl by done. fold d.
  set (D := d + k + e).
  assert (Ef : fexp prec emax D = D - prec) by (unfold fexp, emin, D, prec, emax in *; lia).
  rewrite Ef.
  assert (Hz : forall m, Z.pos (digits2_pos m) = prec -> m = shl_pos p (prec - d) ->
    shr_fexp prec emax (Z.pos m) (D - prec) loc_Exact =
      ({| shr_m := Z.pos m; shr_r := false; shr_s := false |}, D - prec)).
  { intros m Hm _. unfold shr_fexp. cbn [Zdigits2]. rewrite Hm.
    replace (prec + (D - prec)) with D by lia. rewrite Ef.
    replace (D - prec - (D - prec)) with 0 by lia. reflexivity. }
  assert (Hfin : Z.pos (digits2_pos (shl_pos p (prec - d))) = prec) by (rewrite digits_shl; lia).
  assert (Hres : forall m, m = shl_pos p (prec - d) ->
    (let '(mrs'', e'') := shr_fexp prec emax (Z.pos m) (D - prec) loc_Exact in
     match shr_m mrs'' with
     | Z0 => S754_zero s
     | Z.pos m => if e'' <=? emax - prec then S754_finite s m e'' else S754_infinity s
     | Z.neg _ => S754_nan
     end) = S754_finite s (shl_pos p (prec - d)) (e + k + d - prec)).
  { intros m ->. rewrite Hz by done. cbn [shr_m].
    destruct (Z.leb_spec (D - prec) (emax - prec)); [| unfold D in *; lia].
    f_equal. unfold D. lia. }
  destruct (Z.le_gt_cases (D - prec) e) as [Hle | Hgt].
  - rewrite shl_align_eq by done. rewrite shl_pos_shl by lia.
    replace (k + (e - (D - prec))) with (prec - d) by (unfold D; lia).
    unfold binary_round_aux. rewrite Hz by done. cbn [shr_m loc_of_shr_record round_nearest_even].
    now apply Hres.
  - unfold shl_align. destruct (D - prec - e) as [| n | n] eqn:En; [lia | | lia].
    unfold binary_round_aux, shr_fexp at 1. cbn [Zdigits2]. rewrite digits_shl by done. fold d.
    replace (fexp prec emax (d + k + e) - e) with (Z.pos n) by (fold D; rewrite Ef; lia).
    cbn [shr shr_record_of_loc].
    replace (shl_pos p k) with (shl_pos (shl_pos p (prec - d)) (Z.pos n))
      by (rewrite shl_pos_shl by lia; f_equal; unfold D in En; lia).
    rewrite iter_shr. cbn [shr_m loc_of_shr_record round_nearest_even].
    replace (e + Z.pos n) with (D - prec) by lia. now apply Hres.
Qed.

(** An integer that is represented exactly. *)
Definition exact (z : Z) : Prop := 0 <= z < 2 ^ prec.

Lemma double_pos p : exact (Z.pos p) ->
  double_of_Z (Z.pos p) =
    S754_finite false (shl_pos p (prec - Z.pos (digits2_pos p))) (Z.pos (digits2_pos p) - prec).
Proof.
  intros [_ H]. pose proof (digits_le p prec ltac:(done) H). unfold double_of_Z, binary_normalize.
  rewrite <- (shl_pos_0 p) at 1. rewrite round_exact; [f_equal; lia | lia | done | unfold prec, emax in *; lia].
Qed.

(** A scaled integer. *)
Lemma double_scaled z k : exact z -> 0 <= k <= 53 ->
  binary_normalize prec emax (z * 2 ^ k) (- k) false = double_of_Z z.
Proof.
  intros Hz Hk. destruct z as [| p | p]; [reflexivity | | destruct Hz; lia].
  rewrite <- shl_pos_Z by lia. unfold binary_normalize. rewrite double_pos by done.
  destruct Hz as [_ H]. pose proof (digits_le p prec ltac:(done) H).
  rewrite round_exact; [f_equal; lia | lia | done | unfold prec, emax in *; lia].
Qed.

Lemma aligned p ez : exact (Z.pos p) -> ez <= Z.pos (digits2_pos p) - prec ->
  Z.pos (fst (shl_align (shl_pos p (prec - Z.pos (digits2_pos p))) (Z.pos (digits2_pos p) - prec) ez)) =
    Z.pos p * 2 ^ (- ez).
Proof.
  intros [_ H] He. pose proof (digits_le p prec ltac:(done) H). rewrite shl_align_eq by done. cbn [fst].
  rewrite shl_pos_shl, shl_pos_Z by lia. do 2 f_equal. lia.
Qed.

Lemma dadd_exact a b : exact a -> exact b -> exact (a + b) ->
  dadd (double_of_Z a) (double_of_Z b) = double_of_Z (a + b).
Proof.
  intros Ha Hb Hab. destruct a as [| p | p]; [| | destruct Ha; lia].
  { destruct b as [| q | q]; [done | rewrite Z.add_0_l, double_pos by done; reflexivity | destruct Hb; lia]. }
  destruct b as [| q | q]; [rewrite Z.add_0_r, double_pos by done; reflexivity | | destruct Hb; lia].
  rewrite (double_pos p), (double_pos q) by done. unfold dadd, SFadd, cond_Zopp.
  rewrite (aligned p), (aligned q) by (assumption || lia). rewrite <- Z.mul_add_distr_r. set (ez := Z.min _ _).
  replace ez with (- - ez) at 2 by lia. apply double_scaled; [done |].
  destruct Ha as [_ Ha]. apply digits_le in Ha; [| done]. unfold ez, prec in *. lia.
Qed.

Lemma dsub_exact a b : exact a -> exact b -> b <= a ->
  dsub (double_of_Z a) (double_of_Z b) = double_of_Z (a - b).
Proof.
  intros Ha Hb Hab. assert (Hd : exact (a - b)) by (unfold exact in *; lia).
  destruct b as [| q | q]; [| | destruct Hb; lia].
  { rewrite Z.sub_0_r. destruct a as [| p | p]; [done | rewrite double_pos by done; reflexivity | destruct Ha; lia]. }
  destruct a as [| p | p]; [lia | | lia].
  rewrite (double_pos p), (double_pos q) by done. unfold dsub, SFsub, cond_Zopp.
  rewrite (aligned p), (aligned q) by (assumption || lia). rewrite <- Z.mul_sub_distr_r. set (ez := Z.min _ _).
  replace ez with (- - ez) at 2 by lia. apply double_scaled; [done |].
  destruct Ha as [_ Ha]. apply digits_le in Ha; [| done]. unfold ez, prec in *. lia.
Qed.

Lemma compare_exact a b : exact a -> exact b ->
  SFcompare (double_of_Z a) (double_of_Z b) = Some (a ?= b).
Proof.
  intros Ha Hb. destruct a as [| p | p]; [| | destruct Ha; lia].
  { destruct b as [| q | q]; [done | rewrite double_pos by done; reflexivity | destruct Hb; lia]. }
  destruct b as [| q | q]; [rewrite double_pos by done; reflexivity | | destruct Hb; lia].
  rewrite (double_pos p), (double_pos q) by done. cbn [SFcompare].
  destruct (size_bounds p), (size_bounds q). f_equal.
  assert (Hmono : forall x y : positive, Z.pos x < Z.pos y -> 2 ^ Z.pos x <= 2 ^ (Z.pos y - 1))
    by (intros; apply Z.pow_le_mono_r; lia).
  destruct (Z.compare_spec (Z.pos (digits2_pos p) - prec) (Z.pos (digits2_pos q) - prec)) as [E | E | E].
  - match goal with |- context [Pos.compare_cont Eq ?m ?n] => change (Pos.compare_cont Eq m n) with (Pos.compare m n) end.
    destruct Ha as [_ Ha]. apply digits_le in Ha; [| done].
    rewrite Pos2Z.inj_compare, !shl_pos_Z by lia.
    replace (Z.pos (digits2_pos q)) with (Z.pos (digits2_pos p)) by lia.
    pose proof (pow2_pos (prec - Z.pos (digits2_pos p)) ltac:(lia)).
    symmetry. now apply Zmult_compare_compat_r, Z.lt_gt.
  - symmetry. apply Z.compare_lt_iff. specialize (Hmono (digits2_pos p) (digits2_pos q)). lia.
  - symmetry. apply Z.compare_gt_iff. specialize (Hmono (digits2_pos q) (digits2_pos p)). lia.
Qed.

Lemma dltb_exact a b : exact a -> exact b -> dltb (double_of_Z a) (double_of_Z b) = (a <? b).
Proof. intros. unfold dltb, SFltb, Z.ltb. rewrite compare_exact by done. now destruct (a ?= b). Qed.

(** ** The conversion of an integer is finite *)

(** Shifting does not make a mantissa greater or negative. *)
Definition shrunk_to (m : Z) (r : shr_record) : Prop := 0 <= shr_m r <= m.

Lemma shr_1_shrinks m r : shrunk_to m r -> shrunk_to m (shr_1 r).
Proof. unfold shrunk_to. destruct r as [[| [p | p |] | p] [] []]; cbn; lia. Qed.

Lemma iter_shrinks m n : forall r, shrunk_to m r -> shrunk_to m (iter_pos shr_1 n r).
Proof. induction n; intros r Hr; cbn [iter_pos]; auto using shr_1_shrinks. Qed.

Lemma shr_fexp_bounds m e l r e' : 0 <= m -> shr_fexp prec emax m e l = (r, e') ->
  shrunk_to m r /\ e' <= e + Z.max 0 (fexp prec emax (Zdigits2 m + e) - e).
Proof.
  intros Hm. unfold shr_fexp, shr. set (n := fexp prec emax (Zdigits2 m + e) - e).
  assert (H0 : shrunk_to m (shr_record_of_loc m l)) by (unfold shrunk_to; destruct l as [| []]; cbn; lia).
  destruct n; intros [= <- <-]; (split; [auto using iter_shrinks | lia]).
Qed.

Lemma round_le mrs : let m := shr_m mrs in
  0 <= m -> m <= round_nearest_even m (loc_of_shr_record mrs) <= m + 1.
Proof. cbn. destruct mrs as [m [] []]; cbn; [| destruct (Z.even m) | |]; lia. Qed.

Lemma Zdigits_le m d : 0 < d -> 0 <= m < 2 ^ d -> Zdigits2 m <= d.
Proof. intros Hd [H0 H]. destruct m; cbn; [lia | apply digits_le; lia | lia]. Qed.

Lemma round_int_finite s (m : positive) : Z.pos m < 2 ^ 64 ->
  isfinite (binary_round prec emax s m 0) = true.
Proof.
  intros Hm. assert (Hd : Z.pos (digits2_pos m) <= 64) by (apply digits_le; lia).
  destruct (Z.le_gt_cases (Z.pos (digits2_pos m)) prec) as [Hle | Hgt].
  { rewrite <- (shl_pos_0 m), round_exact; [done | lia | done | unfold prec, emax in *; lia]. }
  unfold binary_round.
  assert (Ef : fexp prec emax (Z.pos (digits2_pos m) + 0) = Z.pos (digits2_pos m) - prec)
    by (unfold fexp, emin, prec, emax in *; lia).
  assert (Es : shl_align m 0 (fexp prec emax (Z.pos (digits2_pos m) + 0)) = (m, 0))
    by (rewrite Ef; unfold shl_align, prec in *; destruct (_ - 0) eqn:E; [lia | done | lia]).
  rewrite Es. unfold binary_round_aux. destruct (shr_fexp _ _ (Z.pos m) 0 _) as [r e'] eqn:E1.
  destruct (shr_fexp_bounds (Z.pos m) 0 _ r e' ltac:(lia) E1) as [[Hr0 Hr] He].
  cbn [Zdigits2] in He. rewrite Ef in He. pose proof (round_le r Hr0) as [Hm1 Hm2]. cbv zeta in *.
  set (m' := round_nearest_even _ _) in *. destruct (shr_fexp _ _ m' e' _) as [r' e''] eqn:E2.
  destruct (shr_fexp_bounds m' e' _ r' e'' ltac:(lia) E2) as [[Hr'0 Hr'] He'].
  assert (Zdigits2 m' <= 65) by (apply Zdigits_le; lia).
  destruct (shr_m r') as [| p | p]; [done | | lia].
  destruct (Z.leb_spec e'' (emax - prec)); [done | unfold fexp, emin, prec, emax in *; lia].
Qed.

Lemma isfinite_int z : in_sint 64 z -> isfinite (double_of_Z z) = true.
Proof. intros [H1 H2]. destruct z as [| p | p]; [done | apply round_int_finite; lia ..]. Qed.
