(* ===== verification/Containers.v ===== *)
(** * Containers of the server

    [SortedVector] (a vector that remembers from where on it is out of order,
    and sorts by sorting the tail and merging it), [ThreadCompress] (64-bit
    thread numbers as 16-bit indices), and the [std] algorithms they call.  The
    parallel sort of the third-party [ppqsort] is a parameter: it permutes its
    range and leaves it in order. *)
From Stdlib Require Export Sorted Permutation.
From S2P Require Import Prelude.

(** ** Algorithms of the C++ library

    On a range partitioned by the predicate, [std::lower_bound] and
    [std::upper_bound] are the length of its first part; [std::inplace_merge] is the stable merge. *)
Section Algorithms.
Context {T : Type} (comp : T -> T -> bool).

Fixpoint lower_bound (v : list T) (x : T) : nat :=
  match v with
  | [] => 0
  | y :: v => if comp y x then S (lower_bound v x) else 0
  end.

Fixpoint upper_bound (v : list T) (x : T) : nat :=
  match v with
  | [] => 0
  | y :: v => if comp x y then 0 else S (upper_bound v x)
  end.

Fixpoint merge (l1 : list T) : list T -> list T :=
  fix go (l2 : list T) : list T :=
    match l1, l2 with
    | [], _ => l2
    | _, [] => l1
    | a :: l1', b :: l2' => if comp b a then b :: go l2' else a :: merge l1' l2
    end.

(** [comp] is a strict weak order: "not after" is a total preorder. *)
Class WeakOrder : Prop := {
  wo_trans : forall x y z, comp y x = false -> comp z y = false -> comp z x = false;
  wo_asym : forall x y, comp x y = true -> comp y x = false }.

Definition le_ (x y : T) : Prop := comp y x = false.
Definition sorted : list T -> Prop := StronglySorted le_.

Context `{WeakOrder}.

Lemma le_trans_ x y z : le_ x y -> le_ y z -> le_ x z.
Proof. apply wo_trans. Qed.

Lemma merge_perm l1 l2 : Permutation (merge l1 l2) (l1 ++ l2).
Proof.
  revert l2. induction l1 as [| a l1 IH]; intros l2; [now destruct l2 |].
  induction l2 as [| b l2 IH2]; simpl; [now rewrite app_nil_r |].
  destruct (comp b a).
  - change ((fix go (l2 : list T) : list T := match l2 with
      | [] => a :: l1
      | b :: l2' => if comp b a then b :: go l2' else a :: merge l1 l2 end) l2)
      with (merge (a :: l1) l2).
    rewrite IH2. simpl. rewrite <- Permutation_middle. apply perm_swap.
  - constructor. apply IH.
Qed.

Lemma merge_sorted l1 l2 : sorted l1 -> sorted l2 -> sorted (merge l1 l2).
Proof.
  intros H1. revert l2. induction H1 as [| a l1 H1 IH Ha]; intros l2 H2; [now destruct l2 |].
  induction H2 as [| b l2 H2 IH2 Hb]; [simpl; now constructor |].
  cbn [merge]. destruct (comp b a) eqn:E.
  - change (sorted (b :: merge (a :: l1) l2)).
    constructor; [exact IH2 |]. rewrite merge_perm. apply Forall_app. split; [| exact Hb].
    apply wo_asym in E. constructor; [exact E |].
    eapply Forall_impl; [exact Ha |]. intros z Hz. exact (le_trans_ _ _ _ E Hz).
  - constructor; [apply IH; now constructor |]. rewrite merge_perm.
    apply Forall_app. split; [exact Ha |]. constructor; [exact E |].
    eapply Forall_impl; [exact Hb |]. intros z Hz. exact (le_trans_ _ _ _ E Hz).
Qed.

Lemma lower_bound_le v x : (lower_bound v x <= length v)%nat.
Proof. induction v as [| y v IH]; simpl; [lia |]. destruct (comp y x); lia. Qed.

Lemma lower_bound_before v x : Forall (fun y => comp y x = true) (take (lower_bound v x) v).
Proof.
  induction v as [| y v IH]; simpl; [constructor |].
  destruct (comp y x) eqn:E; simpl; constructor; auto.
Qed.

Lemma lower_bound_after v x : sorted v -> Forall (le_ x) (drop (lower_bound v x) v).
Proof.
  induction 1 as [| y v Hv IH Hy]; simpl; [constructor |].
  destruct (comp y x) eqn:E; [exact IH |]. simpl. constructor; [exact E |].
  eapply Forall_impl; [exact Hy |]. intros z Hz. exact (le_trans_ _ _ _ E Hz).
Qed.

Lemma sorted_app l1 l2 :
  sorted (l1 ++ l2) <-> sorted l1 /\ sorted l2 /\ Forall (fun x => Forall (le_ x) l2) l1.
Proof.
  induction l1 as [| a l1 IH]; simpl.
  - split; [intros; split_and!; [constructor | done | constructor] | tauto].
  - split.
    + intros Hs. inversion_clear Hs as [| ? ? Hs' Ha]. apply IH in Hs' as (? & ? & ?).
      apply Forall_app in Ha as [? ?]. split_and!; [now constructor | done | now constructor].
    + intros (Hs & H2 & Hf). inversion_clear Hs. inversion_clear Hf.
      constructor; [apply IH; done |]. apply Forall_app. done.
Qed.
End Algorithms.
Arguments WeakOrder {T} comp.

(** ** Vectors

    A vector owns a block of [2^m_capacity] elements, or a block of exactly its
    size from the slab allocator ([reserve_exact]), which can no longer grow.
    [live] counts the blocks from [malloc] that it has not freed.  An operation
    whose assertion fails gives [None]. *)
Module Vector.
Definition MaxCapacity : Z := 0x7F.
Section Vector.
Context {T : Type}.

(* TracyVector.hpp:337-345 Vector *)
Record t := mk { items : list T; m_ptr : bool; m_capacity : Z; live : Z }.
(* TracyVector.hpp:32-35 Vector *)
Definition empty : t := mk [] false 0 0.
(* TracyVector.hpp:44-52 Vector *)
Definition make (value : T) : t := mk [value] true 0 1.

(* TracyVector.hpp:327-330 *)
Definition Capacity (v : t) : Z := if m_ptr v then Z.shiftl 1 (m_capacity v) else 0.
(* TracyVector.hpp:332-335 *)
Definition CapacityNoNullptrCheck (v : t) : Z := Z.shiftl 1 (m_capacity v).
Definition m_size (v : t) : Z := Z.of_nat (length (items v)).
Definition fixed (v : t) : bool := m_capacity v =? MaxCapacity.

(** The old block is freed inside the copying branch. *)
(* TracyVector.hpp:306-325 *)
Definition Realloc (v : t) : t :=
  mk (items v) true (m_capacity v) (live v + 1 - (if m_size v =? 0 then 0 else 1)).
(* TracyVector.hpp:288-304 *)
Definition AllocMore (v : t) : option t :=
  if fixed v then None
  else if m_ptr v then Some (Realloc (mk (items v) true (m_capacity v + 1) (live v)))
  else Some (mk (items v) true 0 (live v + 1)).

Definition append (x : T) (v : t) : t := mk (items v ++ [x]) (m_ptr v) (m_capacity v) (live v).
(* TracyVector.hpp:106-112 *)
Definition push_back (x : T) (v : t) : option t :=
  if fixed v then None else
  v ← (if m_size v =? Capacity v then AllocMore v else Some v); Some (append x v).
(* TracyVector.hpp:114-121 *)
Definition push_back_non_empty (x : T) (v : t) : option t :=
  if fixed v || negb (m_ptr v) then None else
  v ← (if m_size v =? CapacityNoNullptrCheck v then AllocMore v else Some v); Some (append x v).
(* TracyVector.hpp:226-231 *)
Definition pop_back (v : t) : option t :=
  if fixed v || (m_size v =? 0) then None
  else Some (mk (removelast (items v)) (m_ptr v) (m_capacity v) (live v)).
(* TracyVector.hpp:233-239 *)
Definition back_and_pop (v : t) : option (T * t) :=
  x ← last (items v); v ← pop_back v; Some (x, v).
(* TracyVector.hpp:278-282 *)
Definition clear (v : t) : option t :=
  if fixed v then None else Some (mk [] (m_ptr v) (m_capacity v) (live v)).

Fixpoint popcount (p : positive) : Z :=
  match p with xH => 1 | xO p => popcount p | xI p => 1 + popcount p end.
(* TracyPopcnt.hpp:8-11 *)
Definition TracyCountBits (z : Z) : Z := match z with Zpos p => popcount p | _ => 0 end.
(* TracyVector.hpp:247-260 *)
Definition reserve_non_zero (cap : Z) (v : t) : option t :=
  if fixed v then None else
  let cap := cap - 1 in
  let cap := Z.lor cap (Z.shiftr cap 1) in
  let cap := Z.lor cap (Z.shiftr cap 2) in
  let cap := Z.lor cap (Z.shiftr cap 4) in
  let cap := Z.lor cap (Z.shiftr cap 8) in
  let cap := Z.lor cap (Z.shiftr cap 16) in
  Some (Realloc (mk (items v) (m_ptr v) (TracyCountBits cap) (live v))).
(* TracyVector.hpp:241-245 *)
Definition reserve (cap : Z) (v : t) : option t :=
  if (cap =? 0) || (cap <=? Capacity v) then Some v else reserve_non_zero cap v.
(** [reserve_exact( sz, slab )] and the copy of the elements that follows it. *)
(* TracyVector.hpp:269-276 *)
Definition reserve_exact (l : list T) (v : t) : option t :=
  if m_ptr v then None else Some (mk l true MaxCapacity (live v)).

(** A growing vector has room for its elements and owns one block, or none. *)
Definition ok (v : t) : Prop :=
  if fixed v then m_ptr v = true else
  0 <= m_capacity v /\ m_size v <= Capacity v /\ live v = (if m_ptr v then 1 else 0).

Lemma push_back_spec x v :
  ok v -> fixed v = false -> m_capacity v + 1 < MaxCapacity ->
  exists v', push_back x v = Some v' /\ ok v' /\ items v' = items v ++ [x] /\
    fixed v' = false /\ m_ptr v' = true.
Proof.
  unfold ok, push_back. intros Hok Hf Hcap. rewrite Hf in Hok |- *. destruct Hok as (H0 & H1 & H2).
  unfold Capacity, m_size in *.
  destruct (Z.eqb_spec (Z.of_nat (length (items v))) (if m_ptr v then Z.shiftl 1 (m_capacity v) else 0))
    as [E | E].
  - unfold AllocMore. rewrite Hf. destruct (m_ptr v) eqn:Ep; simpl.
    + eexists. split; [reflexivity |]. unfold fixed, MaxCapacity in *. cbn.
      destruct (Z.eqb_spec (m_capacity v + 1) 127); [lia |].
      rewrite length_app. cbn [length]. rewrite !Z.shiftl_mul_pow2 in * by lia.
      rewrite Z.pow_add_r by lia. pose proof (pow2_pos (m_capacity v)).
      unfold m_size. cbn. split_and!; try lia; auto.
      destruct (Z.eqb_spec (Z.of_nat (length (items v))) 0); lia.
    + eexists. split; [reflexivity |]. cbn. rewrite length_app. cbn [length].
      change (Z.shiftl 1 0) with 1. split_and!; auto; lia.
  - simpl. eexists. split; [reflexivity |]. unfold append, fixed in *. cbn. rewrite Hf, length_app.
    cbn [length]. destruct (m_ptr v) eqn:Ep; [split_and!; auto; lia |].
    destruct (items v); cbn in *; lia.
Qed.

(** On a vector with a block, both ways of appending are the same. *)
Lemma push_back_non_empty_eq x v : m_ptr v = true -> push_back_non_empty x v = push_back x v.
Proof.
  intros Hp. unfold push_back_non_empty, push_back, Capacity, CapacityNoNullptrCheck.
  rewrite Hp. now rewrite orb_false_r.
Qed.

Lemma clear_spec v :
  ok v -> fixed v = false ->
  exists v', clear v = Some v' /\ ok v' /\ items v' = [] /\ fixed v' = false /\
    m_ptr v' = m_ptr v /\ m_capacity v' = m_capacity v.
Proof.
  intros Hok Hf. unfold clear, ok in *. rewrite Hf in *. destruct Hok as (H0 & H1 & H2).
  eexists. split; [reflexivity |]. unfold fixed in *. cbn. rewrite Hf. split_and!; auto.
  unfold m_size, Capacity in *. cbn. destruct (m_ptr v); [| lia].
  rewrite Z.shiftl_mul_pow2 by lia. pose proof (pow2_pos (m_capacity v)). lia.
Qed.
End Vector.
Arguments t : clear implicits.
End Vector.

(** ** Sorted vectors *)
Module SortedVector.
Section SortedVector.
Context {T : Type} (comp : T -> T -> bool) (ppqsort : list T -> list T).

(* TracySortedVector.hpp:117-119 SortedVector *)
Record t := mk { v : list T; sortedEnd : nat }.
(* TracySortedVector.hpp:18-20 SortedVector *)
Definition empty : t := mk [] 0.
(* TracySortedVector.hpp:51-51 *)
Definition is_sorted (s : t) : bool := Nat.eqb (sortedEnd s) 0.

(* TracySortedVector.hpp:72-80 *)
Definition push_back (val : T) (s : t) : t :=
  let se :=
    match sortedEnd s, last (v s) with
    | O, Some b => if comp val b then length (v s) else O
    | se, _ => se
    end in
  mk (v s ++ [val]) se.

(* TracySortedVector.hpp:96-96 *)
Definition mark_unsorted (s : t) : t := if Nat.ltb 1 (length (v s)) then mk (v s) 1 else s.
(* TracySortedVector.hpp:86-86 *)
Definition clear (s : t) : t := empty.

(** [None] is the failed assertion; the accesses [*se] and [*sl] exist in any
    other state ([sort_defined]). *)
(* TracySortedVector.hpp:98-115 *)
Definition sort (s : t) : option t :=
  if is_sorted s then None else
  let n := sortedEnd s in
  let pre := take n (v s) in
  let suf := ppqsort (drop n (v s)) in
  match head suf, last pre with
  | Some se, Some sl =>
      let ss := lower_bound comp pre se in
      let uu := lower_bound comp suf sl in
      Some (mk (take ss pre ++ merge comp (drop ss pre) (take uu suf) ++ drop uu suf) 0)
  | _, _ => None
  end.

(* TracySortedVector.hpp:95-95 *)
Definition ensure_sorted (s : t) : option t := if is_sorted s then Some s else sort s.

(** The vector is in order up to [sortedEnd], all of it if that is zero. *)
Definition ok (s : t) : Prop :=
  if is_sorted s then sorted comp (v s)
  else (sortedEnd s < length (v s))%nat /\ sorted comp (take (sortedEnd s) (v s)).

(** The documented behaviour of the parallel sort. *)
Definition sorts : Prop := forall l, sorted comp (ppqsort l) /\ Permutation (ppqsort l) l.

Context `{!WeakOrder comp}.

Lemma le_last l b : sorted comp l -> last l = Some b -> Forall (fun x => le_ comp x b \/ x = b) l.
Proof.
  intros Hs Hl. apply last_snoc_inv in Hl as [l' ->]. apply sorted_app in Hs as (_ & _ & Hf).
  apply Forall_snoc. split; [| auto]. eapply Forall_impl; [exact Hf |]. intros x Hx.
  inversion_clear Hx. auto.
Qed.

Lemma le_refl_ x : le_ comp x x.
Proof. unfold le_. destruct (comp x x) eqn:E; [| done]. pose proof (wo_asym comp _ _ E). congruence. Qed.

Lemma push_back_ok val s : ok s -> ok (push_back val s).
Proof.
  unfold ok, push_back, is_sorted. destruct s as [v [| n]]; simpl.
  - intros Hs. destruct (last v) as [b |] eqn:El.
    + destruct (comp val b) eqn:Ec.
      * assert (v <> []) by (intros ->; done). destruct v as [| a v]; [done |].
        change (length (a :: v)) with (S (length v)). cbn [Nat.eqb].
        split; [rewrite length_app; simpl; lia |].
        change (S (length v)) with (length (a :: v)). now rewrite take_app_length.
      * simpl. apply sorted_app. split_and!; [done | repeat constructor |].
        pose proof (le_last _ _ Hs El) as Hf.
        eapply Forall_impl; [exact Hf |]. intros x Hx. constructor; [| constructor].
        destruct Hx as [Hx | ->]; [exact (wo_trans comp _ _ _ Hx Ec) | exact Ec].
    + apply last_None in El as ->. simpl. repeat constructor.
  - intros [Hlt Hs]. rewrite length_app. split; [lia |]. rewrite take_app_le by lia. done.
Qed.

Lemma head_lower l x b : head l = Some x -> sorted comp l -> Forall (le_ comp b) l -> le_ comp b x.
Proof. intros Hh _ Hf. destruct l; simpl in *; simplify_eq. now inversion Hf. Qed.

Lemma head_least l x : head l = Some x -> sorted comp l -> Forall (le_ comp x) l.
Proof.
  intros Hh Hs. destruct l; simpl in *; simplify_eq. inversion_clear Hs.
  constructor; [apply le_refl_ | done].
Qed.

(** Three consecutive parts, of which the middle two are merged. *)
Lemma merged_sorted pre suf se sl :
  sorted comp pre -> sorted comp suf -> head suf = Some se -> last pre = Some sl ->
  sorted comp (take (lower_bound comp pre se) pre ++
    merge comp (drop (lower_bound comp pre se) pre) (take (lower_bound comp suf sl) suf) ++
    drop (lower_bound comp suf sl) suf).
Proof.
  intros Hp Hs Hse Hsl. set (ss := lower_bound _ _ _). set (uu := lower_bound comp suf sl).
  assert (Hp' := Hp). rewrite <- (take_drop ss pre) in Hp'. apply sorted_app in Hp' as (P1 & P2 & P12).
  assert (Hs' := Hs). rewrite <- (take_drop uu suf) in Hs'. apply sorted_app in Hs' as (S1 & S2 & S12).
  pose proof (lower_bound_before comp pre se) as B1. fold ss in B1.
  pose proof (lower_bound_after comp suf sl Hs) as A2. fold uu in A2.
  pose proof (head_least _ _ Hse Hs) as Hl. pose proof (le_last _ _ Hp Hsl) as Hlast.
  assert (Hpre_se : Forall (fun x => Forall (le_ comp x) suf) (take ss pre)).
  { eapply Forall_impl; [exact B1 |]. intros x Hx. apply (wo_asym comp) in Hx.
    eapply Forall_impl; [exact Hl |]. intros z Hz. exact (wo_trans comp _ _ _ Hx Hz). }
  assert (Hpre_uu : Forall (fun x => Forall (le_ comp x) (drop uu suf)) pre).
  { eapply Forall_impl; [exact Hlast |]. intros x Hx. eapply Forall_impl; [exact A2 |].
    intros z Hz. destruct Hx as [Hx | ->]; [exact (wo_trans comp _ _ _ Hx Hz) | exact Hz]. }
  apply sorted_app. split_and!; [exact P1 | |].
  - apply sorted_app. split_and!; [now apply merge_sorted | exact S2 |].
    rewrite merge_perm. apply Forall_app. split; [now apply Forall_drop | exact S12].
  - rewrite Forall_forall in P12, Hpre_se |- *. intros x Hx.
    specialize (P12 x Hx). specialize (Hpre_se x Hx).
    apply Forall_app. split; [| now apply Forall_drop].
    rewrite merge_perm. apply Forall_app. split; [exact P12 | now apply Forall_take].
Qed.

Lemma sort_spec s :
  sorts -> ok s -> is_sorted s = false ->
  exists s', sort s = Some s' /\ ok s' /\ is_sorted s' = true /\ Permutation (v s') (v s).
Proof.
  intros Hq Hok Es. unfold ok, sort in *. rewrite Es in *. destruct Hok as [Hlt Hs].
  destruct (Hq (drop (sortedEnd s) (v s))) as [Hqs Hqp].
  assert (Hne : sortedEnd s <> 0%nat) by (apply Nat.eqb_neq; exact Es).
  assert (Hsuf : exists se, head (ppqsort (drop (sortedEnd s) (v s))) = Some se).
  { destruct (ppqsort _) as [| a l] eqn:E; [| now exists a].
    apply Permutation_nil in Hqp. apply (f_equal length) in Hqp.
    rewrite length_drop in Hqp. simpl in Hqp. lia. }
  destruct Hsuf as [se Hse]. rewrite Hse.
  assert (Hpre : exists sl, last (take (sortedEnd s) (v s)) = Some sl).
  { apply last_is_Some. intros E. apply (f_equal length) in E.
    rewrite length_take in E. simpl in E. lia. }
  destruct Hpre as [sl Hsl]. rewrite Hsl.
  eexists. split_and!; [reflexivity | | reflexivity |].
  - simpl. eapply merged_sorted; eauto.
  - cbn [v]. rewrite merge_perm. rewrite <- app_assoc, (app_assoc (take _ (take _ _))).
    now rewrite !take_drop, Hqp, take_drop.
Qed.
End SortedVector.
Arguments t : clear implicits.
End SortedVector.

(** A comparison of integer keys is a strict weak order. *)
#[export] Instance key_order {T} (key : T -> Z) : WeakOrder (fun a b => key a <? key b).
Proof. split; intros *; rewrite ?Z.ltb_ge, ?Z.ltb_lt; lia. Qed.


(** ** Thread numbers *)
Module ThreadCompress.
(* TracyThreadCompress.hpp:54-56 ThreadCompress *)
Record t := mk { m_threadMap : gmap Z Z; m_threadExpand : list Z; m_threadLast : Z * Z }.
#[global] Instance eta_t : Eta t := fun r =>
  mk (m_threadMap r) (m_threadExpand r) (m_threadLast r).

(* TracyThreadCompress.cpp:10-13 ThreadCompress *)
Definition empty : t := mk ∅ [] (2 ^ 64 - 1, 0).
(* TracyThreadCompress.cpp:15-19 *)
Definition InitZero (c : t) : option t :=
  match m_threadExpand c with [] => Some (c <| m_threadExpand := [0] |>) | _ => None end.

(** The map and the cache hold 16-bit indices: the size is converted. *)
(* TracyThreadCompress.cpp:62-70 *)
Definition CompressThreadNew (thread : Z) (c : t) : Z * t :=
  let sz := uint 16 (Z.of_nat (length (m_threadExpand c))) in
  (sz, mk (match m_threadMap c !! thread with
           | None => <[thread := sz]> (m_threadMap c) | Some _ => m_threadMap c end)
          (m_threadExpand c ++ [thread]) (thread, sz)).
(* TracyThreadCompress.cpp:47-60 *)
Definition CompressThreadReal (thread : Z) (c : t) : Z * t :=
  match m_threadMap c !! thread with
  | Some i => (i, c <| m_threadLast := (thread, i) |>)
  | None => CompressThreadNew thread c
  end.
(* TracyThreadCompress.hpp:26-30 *)
Definition CompressThread (thread : Z) (c : t) : Z * t :=
  if fst (m_threadLast c) =? thread then (snd (m_threadLast c), c)
  else CompressThreadReal thread c.
(* TracyThreadCompress.hpp:32-36 *)
Definition DecompressThread (thread : Z) (c : t) : option Z :=
  m_threadExpand c !! Z.to_nat thread.
(* TracyThreadCompress.hpp:38-43 *)
Definition DecompressMustRaw (thread : Z) (c : t) : option Z := m_threadMap c !! thread.
(* TracyThreadCompress.hpp:45-48 *)
Definition Exists (thread : Z) (c : t) : bool := bool_decide (is_Some (m_threadMap c !! thread)).

(** Loading a trace restores the map from the list of threads. *)
(* TracyThreadCompress.cpp:32-36 Load *)
Definition Load_threads (ts : list Z) (c : t) : t :=
  c <| m_threadExpand := ts |>
    <| m_threadMap := snd (fold_left (fun '(i, m) th =>
         (i + 1, match m !! th with None => <[th := uint 16 i]> m | Some _ => m end))
         ts (0, m_threadMap c)) |>.

(** A number is a valid 64-bit thread number other than the one that marks the
    empty cache. *)
Definition thread_ok (thread : Z) : Prop := 0 <= thread < 2 ^ 64 - 1.

(** The table: every mapped index is that of the thread in the list, fewer than
    65536 of them, and the cache agrees with the map. *)
Definition ok (c : t) : Prop :=
  (forall th i, m_threadMap c !! th = Some i ->
     0 <= i < 2 ^ 16 /\ m_threadExpand c !! Z.to_nat i = Some th) /\
  (forall i th, m_threadExpand c !! i = Some th -> i <> 0%nat ->
     m_threadMap c !! th = Some (Z.of_nat i)) /\
  Z.of_nat (length (m_threadExpand c)) <= 2 ^ 16 /\
  (fst (m_threadLast c) <> 2 ^ 64 - 1 ->
     m_threadMap c !! fst (m_threadLast c) = Some (snd (m_threadLast c))).

Definition full (c : t) : Prop := Z.of_nat (length (m_threadExpand c)) = 2 ^ 16.

Lemma lookup_ok c th i : ok c -> m_threadMap c !! th = Some i -> DecompressThread i c = Some th.
Proof. intros (H & _) E. apply (H _ _ E). Qed.

Lemma CompressThreadNew_ok thread c :
  ok c -> ~ full c -> m_threadExpand c <> [] -> m_threadMap c !! thread = None ->
  ok (CompressThreadNew thread c).2 /\
  m_threadMap (CompressThreadNew thread c).2 !! thread = Some (CompressThreadNew thread c).1.
Proof.
  intros (Hm & He & Hlen & Hl) Hf Hne En. unfold CompressThreadNew. rewrite En. cbn.
  unfold full in Hf.
  assert (Hu : uint 16 (Z.of_nat (length (m_threadExpand c))) = Z.of_nat (length (m_threadExpand c)))
    by (apply uint_small; red; lia).
  rewrite Hu. split; [| apply lookup_insert_eq]. split_and!; cbn.
  - intros th i [[<- <-] | [Hne' E]]%lookup_insert_some.
    + rewrite Nat2Z.id, list_lookup_middle by done. split; [lia | done].
    + destruct (Hm _ _ E) as [? Ei]. split; [done |].
      rewrite lookup_app_l; [done |]. apply lookup_lt_Some in Ei. done.
  - intros i th Ei Hi. apply lookup_app_Some in Ei as [Ei | [Hge Ei]].
    + rewrite lookup_insert_ne; [now apply He |]. intros <-.
      rewrite (He _ _ Ei Hi) in En. done.
    + destruct (i - length (m_threadExpand c))%nat eqn:Ed; [| done].
      simpl in Ei. simplify_eq. replace i with (length (m_threadExpand c)) by lia.
      apply lookup_insert_eq.
  - rewrite length_app. simpl. lia.
  - intros _. apply lookup_insert_eq.
Qed.

Lemma CompressThread_spec thread c :
  ok c -> ~ full c -> m_threadExpand c <> [] -> thread_ok thread ->
  let '(i, c') := CompressThread thread c in
  ok c' /\ m_threadMap c' !! thread = Some i /\ m_threadExpand c' <> [] /\
  m_threadMap c ⊆ m_threadMap c'.
Proof.
  intros Hok Hf Hne Ht. unfold CompressThread, CompressThreadReal.
  assert (Hok' := Hok). destruct Hok' as (Hm & He & Hlen & Hl). red in Ht.
  destruct (Z.eqb_spec (fst (m_threadLast c)) thread) as [E | E].
  - subst thread. split_and!; auto. apply Hl. lia.
  - destruct (m_threadMap c !! thread) as [i |] eqn:Ei.
    + split_and!; auto; cbn; auto. split_and!; auto.
    + destruct (CompressThreadNew_ok thread c) as [Hok' Hi]; auto.
      destruct (CompressThreadNew thread c) as [i c'] eqn:En. cbn in *.
      split_and!; auto; unfold CompressThreadNew in En; rewrite Ei in En; simplify_eq; cbn.
      * now destruct (m_threadExpand c).
      * now apply insert_subseteq.
Qed.
End ThreadCompress.

(** Thread numbers survive compression: while fewer than 65536 are in
    use, compressing a thread gives an index that decompresses to it and that it
    keeps, the table stays well-formed, and every index handed out before still
    means the same thread. *)
Theorem CompressThread_roundtrip (c : ThreadCompress.t) (thread : Z) :
  ThreadCompress.ok c -> ~ ThreadCompress.full c ->
  ThreadCompress.m_threadExpand c <> [] -> ThreadCompress.thread_ok thread ->
  let '(i, c') := ThreadCompress.CompressThread thread c in
  ThreadCompress.ok c' /\ in_uint 16 i /\
  ThreadCompress.DecompressThread i c' = Some thread /\
  ThreadCompress.DecompressMustRaw thread c' = Some i /\
  fst (ThreadCompress.CompressThread thread c') = i /\
  (forall th j, ThreadCompress.DecompressMustRaw th c = Some j ->
     ThreadCompress.DecompressThread j c' = Some th).
Proof.
  intros Hok Hf Hne Ht.
  pose proof (ThreadCompress.CompressThread_spec thread c Hok Hf Hne Ht) as Hs.
  destruct (ThreadCompress.CompressThread thread c) as [i c'].
  destruct Hs as (Hok' & Ei & Hne' & Hsub). split; [done |]. split.
  { destruct Hok' as (Hm & _). destruct (Hm _ _ Ei). done. }
  split; [eapply ThreadCompress.lookup_ok; eauto |]. split; [exact Ei |]. split.
  - unfold ThreadCompress.CompressThread, ThreadCompress.CompressThreadReal. rewrite Ei.
    destruct (Z.eqb_spec (fst (ThreadCompress.m_threadLast c')) thread) as [E | E]; [| done].
    destruct Hok' as (_ & _ & _ & Hl). rewrite E, Ei in Hl. simpl.
    assert (Hl' : Some i = Some (snd (ThreadCompress.m_threadLast c')))
      by (apply Hl; red in Ht; lia). now simplify_eq.
  - intros th j Ej. eapply ThreadCompress.lookup_ok; [done |].
    exact (lookup_weaken _ _ _ _ Ej Hsub).
Qed.

Definition initial_threads : ThreadCompress.t := ThreadCompress.mk ∅ [0] (2 ^ 64 - 1, 0).

Lemma initial_threads_ok :
  ThreadCompress.InitZero ThreadCompress.empty = Some initial_threads /\
  ThreadCompress.ok initial_threads.
Proof.
  split; [reflexivity |].
  split_and!; cbn; [intros ? ?; rewrite lookup_empty; discriminate | | lia | lia].
  intros [| [| i]] th; cbn; [lia | discriminate | discriminate].
Qed.

Definition demo_threads : ThreadCompress.t :=
  snd (ThreadCompress.CompressThread 77 initial_threads).

Lemma demo_threads_ok : ThreadCompress.ok demo_threads.
Proof.
  pose proof (ThreadCompress.CompressThread_spec 77 initial_threads (proj2 initial_threads_ok)) as H.
  unfold demo_threads. destruct (ThreadCompress.CompressThread 77 initial_threads).
  apply H; [intros Hf; vm_compute in Hf; discriminate Hf | discriminate | red; lia].
Qed.

Lemma CompressThread_roundtrip_witness :
  let '(i, c') := ThreadCompress.CompressThread 1234567 demo_threads in
  i = 2 /\ ThreadCompress.DecompressThread i c' = Some 1234567.
Proof.
  pose proof (CompressThread_roundtrip demo_threads 1234567 demo_threads_ok) as H.
  assert (E : fst (ThreadCompress.CompressThread 1234567 demo_threads) = 2) by reflexivity.
  destruct (ThreadCompress.CompressThread 1234567 demo_threads) as [i c'].
  simpl in E. split; [exact E |].
  destruct H as (_ & _ & H & _); [intros Hf; vm_compute in Hf; discriminate Hf | discriminate | red; lia | exact H].
Defined.

(** Sorting a partly sorted vector: the sorted tail and the sorted prefix
    are merged where they overlap, which puts the whole vector in order and
    loses nothing, for any sort of the tail that sorts. *)
Theorem SortedVector_sort {T : Type} (comp : T -> T -> bool) (ppqsort : list T -> list T)
    (H : WeakOrder comp) (s : SortedVector.t T) :
  SortedVector.sorts comp ppqsort -> SortedVector.ok comp s ->
  SortedVector.is_sorted s = false ->
  exists s', SortedVector.sort comp ppqsort s = Some s' /\
    sorted comp (SortedVector.v s') /\ SortedVector.is_sorted s' = true /\
    Permutation (SortedVector.v s') (SortedVector.v s) /\
    forall val, SortedVector.ok comp (SortedVector.push_back comp val s').
Proof.
  intros Hq Hok Es. destruct (SortedVector.sort_spec comp ppqsort s Hq Hok Es) as (s' & E & Hs' & Ei & Hp).
  exists s'. split; [exact E |].
  split; [unfold SortedVector.ok in Hs'; now rewrite Ei in Hs' |].
  split; [exact Ei |]. split; [exact Hp |]. intros val. now apply SortedVector.push_back_ok.
Qed.

(** A sort to instantiate the parameter with. *)
Fixpoint insertion_sort (l : list Z) : list Z :=
  match l with [] => [] | a :: l => merge (fun a b => a <? b) [a] (insertion_sort l) end.

Lemma insertion_sorts : SortedVector.sorts (fun a b : Z => a <? b) insertion_sort.
Proof.
  intros l. induction l as [| a l [IH1 IH2]]; cbn [insertion_sort]; [split; [constructor | done] |].
  split.
  - apply (merge_sorted (fun a b => a <? b)); [repeat constructor | done].
  - etransitivity; [apply (merge_perm (fun a b => a <? b)) |]. simpl. now constructor.
Qed.

Definition demo_vector : SortedVector.t Z :=
  fold_left (fun s x => SortedVector.push_back (fun a b => a <? b) x s) [1; 5; 9; 4; 7; 2]
    SortedVector.empty.

Lemma SortedVector_sort_witness :
  exists s', SortedVector.sort (fun a b => a <? b) insertion_sort demo_vector = Some s' /\
    SortedVector.v s' = [1; 2; 4; 5; 7; 9] /\ sorted (fun a b => a <? b) (SortedVector.v s').
Proof.
  destruct (SortedVector_sort (fun a b : Z => a <? b) insertion_sort _ demo_vector)
    as (s' & E & Hs & _).
  - exact insertion_sorts.
  - unfold demo_vector. simpl fold_left.
    repeat apply (SortedVector.push_back_ok (fun a b : Z => a <? b)). constructor.
  - reflexivity.
  - exists s'. split; [exact E |]. split; [| exact Hs].
    assert (E' : SortedVector.sort (fun a b => a <? b) insertion_sort demo_vector =
      Some (SortedVector.mk [1; 2; 4; 5; 7; 9] 0)) by reflexivity.
    rewrite E in E'. now injection E' as ->.
Defined.
