(* ===== verification/Discovery.v ===== *)
(** * Names that are discovered later

    A client names a plot or a frame set by the address of a string; the server
    learns the string later.  Two addresses with the same string name the same
    thing, so [StringDiscovery] keeps what is recorded under an unknown address
    apart ([m_pending]) until the string arrives, and then either gives the string
    its item ([m_rev]) or merges with the item that already has it.

    The lemma [StringDiscovered_spec] relates this to the map of the strings that
    are known: a known address leads to the one item of its string, and every item
    is listed once. *)
From S2P Require Import Prelude.

Module StringDiscovery.
(* TracyStringDiscovery.hpp:80-83 StringDiscovery *)
Record t := mk {
  m_data : list nat; m_pending : gmap Z nat; m_map : gmap Z nat; m_rev : gmap (list Z) nat }.
#[global] Instance eta_t : Eta t := fun r => mk (m_data r) (m_pending r) (m_map r) (m_rev r).
Definition empty : t := mk [] ∅ ∅ ∅.

(* TracyStringDiscovery.hpp:17-18 StringDiscovery *)
Definition Data (d : t) : list nat := m_data d.
(* TracyStringDiscovery.hpp:20-20 StringDiscovery *)
Definition IsPending (d : t) : bool := negb (bool_decide (m_pending d = ∅)).

(** [str] is the content of the string.  The result says whether the name is added
    to the map of strings, or else which item is merged into which: [Merge( item,
    postponed )] is left to the caller. *)
(* TracyStringDiscovery.hpp:24-45 StringDiscovery *)
Definition StringDiscovered (name : Z) (str : list Z) (d : t) : option (t * option (nat * nat)) :=
  postponed ← m_pending d !! name;
  let '(d, r) :=
    match m_rev d !! str with
    | None =>
        (d <| m_map ::= emplace name postponed |> <| m_rev ::= emplace str postponed |>
           <| m_data ::= (fun l => l ++ [postponed]) |>, None)
    | Some item => (d <| m_map ::= emplace name item |>, Some (item, postponed))
    end in
  Some (d <| m_pending ::= delete name |>, r).

(** The item of a name, in state [p] of [S]. *)
(* TracyStringDiscovery.hpp:47-72 StringDiscovery *)
Definition Retrieve {S} (p : S -> t) `{!FieldSet p} (name : Z) (Create : M S (option nat))
    (Query : M S unit) : M S (option nat) :=
  d ← gets p;
  match m_map d !! name, m_pending d !! name with
  | Some i, _ => mret (Some i)
  | None, Some i => mret (Some i)
  | None, None =>
      item ← Create;
      match item with
      | None => mret None
      | Some i => modify (fun s => s <| p ::= fun d => d <| m_pending ::= emplace name i |> |>);;
                  Query;; mret (Some i)
      end
  end.

(** The item of a name, if it has one. *)
Definition item (d : t) (name : Z) : option nat :=
  match m_map d !! name with Some i => Some i | None => m_pending d !! name end.

Lemma Retrieve_wp {S} (p : S -> t) `{!FieldSet p} name Create Query (Q : option nat -> S -> Prop) s :
  match item (p s) name with
  | Some i => Q (Some i) s
  | None => wp Create (fun i s' =>
      match i with
      | None => Q None s'
      | Some i => wp Query (fun _ => Q (Some i))
          (s' <| p ::= fun d => d <| m_pending ::= emplace name i |> |>)
      end) s
  end -> wp (Retrieve p name Create Query) Q s.
Proof.
  unfold item, Retrieve. intros H. wp_steps.
  destruct (m_map (p s) !! name); [exact H |]. destruct (m_pending (p s) !! name); [exact H |].
  wp_steps. eapply wp_mono; [exact H |]. intros [i |] s' H'; wp_steps; [| exact H'].
  eapply wp_mono; [exact H' |]. intros [] s'' H''. wp_steps. exact H''.
Qed.

(* TracyStringDiscovery.hpp:74-77 *)
Definition AddExternal (val : nat) (d : t) : t := d <| m_data ::= (fun l => l ++ [val]) |>.
End StringDiscovery.
Import StringDiscovery.

Lemma item_pending d name p name' :
  item d name = None ->
  item (d <| m_pending ::= emplace name p |>) name' =
    if decide (name' = name) then Some p else item d name'.
Proof.
  unfold item. cbn. intros E.
  destruct (m_map d !! name) eqn:Em; [done |]. rewrite emplace_fresh by done.
  destruct (decide (name' = name)) as [-> | Hne]; [now rewrite Em, lookup_insert_eq |].
  now rewrite lookup_insert_ne.
Qed.

(** ** What is known

    [known]: the strings of the names that were discovered; [external]: the items
    that were listed without a name. *)
Record disc_ok (known : gmap Z (list Z)) (external : list nat) (d : t) : Prop := {
  do_map : forall name, m_map d !! name = known !! name ≫= (fun s => m_rev d !! s);
  do_known : forall name s, known !! name = Some s -> is_Some (m_rev d !! s);
  do_rev : forall s i, m_rev d !! s = Some i -> exists name, known !! name = Some s;
  do_pending : forall name, is_Some (m_pending d !! name) -> known !! name = None;
  do_data : Permutation (m_data d) (external ++ (map_to_list (m_rev d)).*2);
  do_items : NoDup (m_data d ++ (map_to_list (m_pending d)).*2) }.

Lemma disc_ok_empty : disc_ok ∅ [] empty.
Proof. split; try done. constructor. Qed.

Lemma NoDup_values {K} `{Countable K} (m : gmap K nat) k1 k2 i :
  NoDup (map_to_list m).*2 -> m !! k1 = Some i -> m !! k2 = Some i -> k1 = k2.
Proof.
  intros Hnd E1 E2. destruct (decide (k1 = k2)) as [| Hne]; [done | exfalso].
  rewrite <- (insert_delete_id _ _ _ E1) in Hnd.
  rewrite map_to_list_insert in Hnd by apply lookup_delete_eq.
  cbn in Hnd. apply NoDup_cons in Hnd as [Hn _]. apply Hn, list_elem_of_fmap.
  exists (k2, i). split; [done |]. apply elem_of_map_to_list. now rewrite lookup_delete_ne.
Qed.

Lemma values_delete (m : gmap Z nat) k i : m !! k = Some i ->
  Permutation (map_to_list m).*2 (i :: (map_to_list (delete k m)).*2).
Proof.
  intros E. rewrite <- (insert_delete_id _ _ _ E) at 1.
  now rewrite map_to_list_insert by apply lookup_delete_eq.
Qed.

(** The name [name] is now known as [s], and [i] was recorded under it: it is the
    item of [s], or to be merged into the item [s] already has. *)
Definition discovered (known : gmap Z (list Z)) (external : list nat) (name : Z) (s : list Z)
    (i : nat) (d d' : t) (merge : option (nat * nat)) : Prop :=
  disc_ok (<[name := s]> known) external d' /\
  m_map d' !! name = m_rev d' !! s /\
  match m_rev d !! s with
  | None => merge = None /\ m_rev d' !! s = Some i /\ m_data d' = m_data d ++ [i]
  | Some j => merge = Some (j, i) /\ j <> i /\ m_rev d' = m_rev d /\ m_data d' = m_data d
  end /\
  (forall n1 n2 x, known !! n1 = Some x -> <[name := s]> known !! n2 = Some x ->
     m_map d' !! n1 = m_map d' !! n2 /\ m_map d' !! n1 = m_map d !! n1).

Lemma do_rev_pending known ext d name s i j :
  disc_ok known ext d -> m_pending d !! name = Some i -> m_rev d !! s = Some j -> j <> i.
Proof.
  intros H Ei Ej ->. pose proof (do_items _ _ _ H) as Hnd. rewrite (do_data _ _ _ H) in Hnd.
  apply NoDup_app in Hnd as (_ & Hnd & _). apply (Hnd i).
  - apply elem_of_app. right. apply list_elem_of_fmap. exists (s, i). split; [done |].
    now apply elem_of_map_to_list.
  - apply list_elem_of_fmap. exists (name, i). split; [done |]. now apply elem_of_map_to_list.
Qed.

(** When the string of a pending name arrives, no assertion fails and the name leads
    to the one item of its string from then on: what was recorded under the name
    becomes that item if the string is new, and is merged into the existing item,
    which is another one, otherwise. The names known before lead where they did, names
    with equal strings to the same item, and every item is listed exactly once. *)
Lemma StringDiscovered_spec (known : gmap Z (list Z)) (external : list nat) (name : Z)
    (s : list Z) (i : nat) (d : t) :
  disc_ok known external d -> m_pending d !! name = Some i ->
  exists d' merge, StringDiscovered name s d = Some (d', merge) /\
    discovered known external name s i d d' merge.
Proof.
  intros H Ei. assert (Hfresh := do_pending _ _ _ H name ltac:(eauto)).
  assert (Emap : m_map d !! name = None) by (rewrite (do_map _ _ _ H), Hfresh; done).
  assert (Hother : forall n1 x, known !! n1 = Some x -> n1 <> name) by (intros n1 x E ->; congruence).
  unfold StringDiscovered. rewrite Ei. cbn [mbind option_bind].
  destruct (m_rev d !! s) as [j |] eqn:Ej; eexists _, _; (split; [reflexivity |]).
  all: unfold discovered; rewrite Ej.
  - cbn. rewrite emplace_fresh, lookup_insert_eq by done.
    split; [split; cbn; rewrite ?emplace_fresh by done | split; [done |]; split; [split_and!; eauto using do_rev_pending |]].
    + intros n. destruct (decide (n = name)) as [-> | Hne].
      * rewrite !lookup_insert_eq. cbn. now rewrite Ej.
      * rewrite !lookup_insert_ne by done. apply H.
    + intros n x [[<- <-] | [_ E]]%lookup_insert_some; [eauto | exact (do_known _ _ _ H n x E)].
    + intros x k E. destruct (do_rev _ _ _ H x k E) as [n En]. exists n.
      rewrite lookup_insert_ne; [done |]. intros <-. exact (Hother _ _ En eq_refl).
    + intros n [k [Hne E]%lookup_delete_Some]. rewrite lookup_insert_ne by done.
      exact (do_pending _ _ _ H n ltac:(eauto)).
    + apply H.
    + pose proof (do_items _ _ _ H) as Hnd. rewrite (values_delete _ _ _ Ei) in Hnd.
      rewrite <- Permutation_middle in Hnd. now apply NoDup_cons in Hnd as [_ Hnd].
    + intros n1 n2 x E1 E2. assert (Hn1 := Hother _ _ E1). rewrite !(lookup_insert_ne _ name n1) by done.
      split; [| done]. rewrite (do_map _ _ _ H n1), E1. cbn.
      apply lookup_insert_some in E2 as [[<- <-] | [Hne E2]].
      * now rewrite lookup_insert_eq.
      * rewrite lookup_insert_ne by done. now rewrite (do_map _ _ _ H n2), E2.
  - cbn. rewrite !emplace_fresh, !lookup_insert_eq by done.
    assert (Hnew : forall n x, known !! n = Some x -> x <> s).
    { intros n x E ->. destruct (do_known _ _ _ H n s E). congruence. }
    split; [split; cbn; rewrite ?emplace_fresh by done | split; [done |]; split; [done |]].
    + intros n. destruct (decide (n = name)) as [-> | Hne].
      * rewrite !lookup_insert_eq. cbn. now rewrite lookup_insert_eq.
      * rewrite !(lookup_insert_ne _ name) by done. rewrite (do_map _ _ _ H n).
        destruct (known !! n) as [x |] eqn:En; [| done]. cbn.
        rewrite lookup_insert_ne; [done |]. intros <-. exact (Hnew n _ En eq_refl).
    + intros n x [[<- <-] | [_ E]]%lookup_insert_some; [rewrite lookup_insert_eq; eauto |].
      rewrite lookup_insert_ne; [exact (do_known _ _ _ H n x E) |].
      intros <-. exact (Hnew n _ E eq_refl).
    + intros x k [[<- <-] | [_ E]]%lookup_insert_some.
      * exists name. apply lookup_insert_eq.
      * destruct (do_rev _ _ _ H x k E) as [n En]. exists n.
        rewrite lookup_insert_ne; [done |]. intros <-. exact (Hother _ _ En eq_refl).
    + intros n [k [Hne E]%lookup_delete_Some]. rewrite lookup_insert_ne by done.
      exact (do_pending _ _ _ H n ltac:(eauto)).
    + rewrite map_to_list_insert by done. cbn. rewrite (do_data _ _ _ H), <- app_assoc.
      apply Permutation_app_head. symmetry. apply Permutation_cons_append.
    + pose proof (do_items _ _ _ H) as Hnd. rewrite (values_delete _ _ _ Ei) in Hnd.
      now rewrite <- app_assoc.
    + intros n1 n2 x E1 E2. assert (Hn1 := Hother _ _ E1). rewrite !(lookup_insert_ne _ name n1) by done.
      split; [| done]. apply lookup_insert_some in E2 as [[_ <-] | [Hne E2]].
      * destruct (Hnew _ _ E1 eq_refl).
      * rewrite lookup_insert_ne by done. now rewrite !(do_map _ _ _ H), E1, E2.
Qed.

(** The other names lead where they did. *)
Lemma StringDiscovered_names known ext name s d d' merge n :
  disc_ok known ext d -> StringDiscovered name s d = Some (d', merge) -> n <> name -> item d' n = item d n.
Proof.
  intros H E Hne. unfold StringDiscovered in E. destruct (m_pending d !! name) as [i |] eqn:Ei; [| done].
  assert (Em : m_map d !! name = None) by (rewrite (do_map _ _ _ H), (do_pending _ _ _ H name ltac:(eauto)); done).
  cbn in E. destruct (m_rev d !! s); injection E as <- _; unfold item; cbn;
    rewrite emplace_fresh, lookup_insert_ne, lookup_delete_ne by done; done.
Qed.

(** Only the names of a string lead to its item. *)
Lemma item_other known ext d n s p j :
  disc_ok known ext d -> m_rev d !! s = Some j -> item d n = Some p -> known !! n <> Some s -> p <> j.
Proof.
  intros H Ej Ep Hn ->. unfold item in Ep. rewrite (do_map _ _ _ H) in Ep.
  destruct (known !! n) as [x |] eqn:En; cbn in Ep.
  - destruct (do_known _ _ _ H n x En) as [k Ek]. rewrite Ek in Ep. injection Ep as ->.
    apply Hn. f_equal. apply (NoDup_values (m_rev d) x s j); [| done | done].
    pose proof (do_items _ _ _ H) as Hnd. rewrite (do_data _ _ _ H) in Hnd.
    apply NoDup_app in Hnd as (Hnd & _). now apply NoDup_app in Hnd as (_ & _ & Hnd).
  - exact (do_rev_pending _ _ _ _ _ _ _ H Ep Ej eq_refl).
Qed.

(** No item is lost or made up. *)
Lemma StringDiscovered_items known ext name s d d' merge n p :
  disc_ok known ext d -> StringDiscovered name s d = Some (d', merge) -> item d' n = Some p ->
  exists n', item d n' = Some p.
Proof.
  intros H E Ep. unfold StringDiscovered in E. destruct (m_pending d !! name) as [i |] eqn:Ei; [| done].
  assert (Hi : exists n', item d n' = Some i).
  { exists name. unfold item. assert (Emap : m_map d !! name = None); [| now rewrite Emap].
    rewrite (do_map _ _ _ H), (do_pending _ _ _ H name ltac:(eauto)). done. }
  assert (Hj : forall j, m_rev d !! s = Some j -> exists n', item d n' = Some j).
  { intros j Ej. destruct (do_rev _ _ _ H s j Ej) as [n' En]. exists n'. unfold item.
    now rewrite (do_map _ _ _ H), En; cbn; rewrite Ej. }
  assert (Hother : forall x, (exists n', item d n' = Some x) ->
    match emplace name x (m_map d) !! n with Some q => Some q | None => delete name (m_pending d) !! n end
      = Some p -> exists n', item d n' = Some p).
  { intros x Hx E'. unfold emplace in E'. destruct (m_map d !! name) eqn:Em.
    - exists n. unfold item. destruct (m_map d !! n); [done |].
      apply lookup_delete_Some in E' as [_ E']. done.
    - destruct (decide (n = name)) as [-> | Hne].
      + rewrite lookup_insert_eq in E'. injection E' as <-. done.
      + rewrite lookup_insert_ne, lookup_delete_ne in E' by done. exists n. exact E'. }
  cbn in E. destruct (m_rev d !! s) as [j |] eqn:Ej; injection E as <- _.
  - exact (Hother j (Hj j eq_refl) Ep).
  - exact (Hother i Hi Ep).
Qed.

(** Two names of one string: the item of the second is merged into that of the first. *)
Example StringDiscovered_twice :
  let d := StringDiscovery.mk [] {[1 := 0%nat; 2 := 1%nat]} ∅ ∅ in
  (r1 ← StringDiscovered 1 [65] d; r2 ← StringDiscovered 2 [65] (fst r1);
   Some (snd r1, snd r2, m_map (fst r2) !! 2)) = Some (None, Some (0%nat, 1%nat), Some 0%nat).
Proof. vm_compute. reflexivity. Qed.
