(* ===== verification/Trace.v ===== *)
(** * The records of a trace

    The objects the server builds besides zones, locks and allocations
    (which are in [Event] and [Server]): frames and their images, messages, GPU
    contexts, sections, and what is known about processors.  Each group is the
    part of the server's state of one component. *)
From S2P Require Import Prelude Double Queue Event Containers Discovery.

Definition int64_max : Z := 2 ^ 63 - 1.
Definition int64_min : Z := - 2 ^ 63.

(** ** Frames *)

(* TracyEvent.hpp:656-661 FrameEvent *)
Record FrameEvent := mkFrameEvent { fe_start : Z; fe_end : Z; fe_image : Z }.
#[export] Instance eta_FrameEvent : Eta FrameEvent := fun r =>
  mkFrameEvent (fe_start r) (fe_end r) (fe_image r).

(** [fi_data]: the packed image, [ptr] and [csz] of the source. *)
(* TracyEvent.hpp:664-671 FrameImage *)
Record FrameImage := mkFrameImage {
  fi_data : list Z; fi_w : Z; fi_h : Z; fi_frameRef : Z; fi_flip : Z }.

(* TracyEvent.hpp:805-815 FrameData *)
Record FrameData := mkFrameData {
  fd_name : Z; fd_frames : list FrameEvent; fd_continuous : Z; fd_min : Z; fd_max : Z;
  fd_total : Z; fd_sumSq : double }.
#[export] Instance eta_FrameData : Eta FrameData := fun r =>
  mkFrameData (fd_name r) (fd_frames r) (fd_continuous r) (fd_min r) (fd_max r) (fd_total r)
    (fd_sumSq r).
Definition new_FrameData (name continuous : Z) : FrameData :=
  mkFrameData name [] continuous int64_max int64_min 0 (S754_zero false).

(** [frame_heap]: the frame sets; [m_frameImageStaging]: the images of frames that
    have not begun yet, by the number of the frame. *)
(* TracyWorker.hpp:282-283 DataBlock *)
Record Frames := mkFrames {
  frames : StringDiscovery.t; frame_heap : list FrameData; framesBase : option nat;
  frameOffset : Z; frameImage : list FrameImage; m_frameImageStaging : gmap Z Z;
  m_pendingFrameImageData : option (list Z); m_vsyncFrameMap : gmap Z nat;
  m_ignoreFrameEndFaults : bool }.
#[export] Instance eta_Frames : Eta Frames := fun r =>
  mkFrames (frames r) (frame_heap r) (framesBase r) (frameOffset r) (frameImage r)
    (m_frameImageStaging r) (m_pendingFrameImageData r) (m_vsyncFrameMap r)
    (m_ignoreFrameEndFaults r).

(** ** Messages *)

(* TracyEvent.hpp:637-646 MessageData *)
Record MessageData := mkMessageData {
  md_time : Z; md_ref : StringRef.t; md_thread : Z; md_color : Z; md_callstack : Int24.t;
  md_source : MessageSourceType.t; md_severity : MessageSeverity.t }.
#[export] Instance eta_MessageData : Eta MessageData := fun r =>
  mkMessageData (md_time r) (md_ref r) (md_thread r) (md_color r) (md_callstack r) (md_source r)
    (md_severity r).

(** [message_heap]: the messages; [messages]: all of them in the order of time. *)
(* TracyWorker.hpp:285-285 DataBlock *)
Record Messages := mkMessages {
  messages : list nat; message_heap : list MessageData; appInfo : list StringRef.t }.
#[export] Instance eta_Messages : Eta Messages := fun r =>
  mkMessages (messages r) (message_heap r) (appInfo r).

(** ** GPU contexts *)

(* TracyEvent.hpp:728-732 GpuCtxThreadData *)
Record GpuCtxThreadData := mkGpuThread { gt_timeline : list nat; gt_stack : list nat }.
#[export] Instance eta_GpuThread : Eta GpuCtxThreadData := fun r =>
  mkGpuThread (gt_timeline r) (gt_stack r).

(** [query]: the zones that wait for a timestamp, by query; [period] is a [float]. *)
(* TracyEvent.hpp:734-754 GpuCtxData *)
Record GpuCtxData := mkGpuCtx {
  timeDiff : Z; gc_thread : Z; gc_count : Z; period : double; gc_type : Z; hasPeriod : bool;
  hasCalibration : bool; calibratedGpuTime : Z; calibratedCpuTime : Z; calibrationMod : double;
  lastGpuTime : Z; overflow : Z; overflowMul : Z; gc_name : StringIdx.t;
  gc_threadData : gmap Z GpuCtxThreadData; noteNames : gmap Z StringIdx.t;
  notes : gmap Z (gmap Z double); query : gmap Z nat }.
#[export] Instance eta_GpuCtx : Eta GpuCtxData := fun r =>
  mkGpuCtx (timeDiff r) (gc_thread r) (gc_count r) (period r) (gc_type r) (hasPeriod r)
    (hasCalibration r) (calibratedGpuTime r) (calibratedCpuTime r) (calibrationMod r)
    (lastGpuTime r) (overflow r) (overflowMul r) (gc_name r) (gc_threadData r) (noteNames r)
    (notes r) (query r).

(* TracyWorker.hpp:138-146 GpuZoneThreadData *)
Record GpuZoneThreadData := mkGpuZtd { gz_zone : nat; gz_thread : Z }.

(* TracyWorker.hpp:218-227 GpuSourceLocationZones *)
Record GpuSourceLocationZones := mkGpuSlz {
  gs_zones : SortedVector.t GpuZoneThreadData; gs_min : Z; gs_max : Z; gs_total : Z;
  gs_sumSq : double }.
#[export] Instance eta_GpuSlz : Eta GpuSourceLocationZones := fun r =>
  mkGpuSlz (gs_zones r) (gs_min r) (gs_max r) (gs_total r) (gs_sumSq r).
Definition new_GpuSourceLocationZones : GpuSourceLocationZones :=
  mkGpuSlz SortedVector.empty int64_max int64_min 0 (S754_zero false).

(** [gpuData]: the contexts, addressed by [m_gpuCtxMap]; [gpu_heap]: the zones. *)
(* TracyWorker.hpp:284-284 DataBlock *)
Record Gpu := mkGpu {
  gpuData : list GpuCtxData; m_gpuCtxMap : gmap Z nat; gpu_heap : list GpuEvent.t;
  gpuChildren : list (list nat); gpuCnt : Z;
  gpuSourceLocationZones : gmap Z GpuSourceLocationZones; gpuZonesLast : Z * option Z }.
#[export] Instance eta_Gpu : Eta Gpu := fun r =>
  mkGpu (gpuData r) (m_gpuCtxMap r) (gpu_heap r) (gpuChildren r) (gpuCnt r)
    (gpuSourceLocationZones r) (gpuZonesLast r).

(** ** Sections *)

(* TracyEvent.hpp:690-695 SectionItem *)
Record SectionItem := mkSectionItem { si_start : Int48.t; si_end : Int48.t; si_text : StringIdx.t }.
#[export] Instance eta_SectionItem : Eta SectionItem := fun r =>
  mkSectionItem (si_start r) (si_end r) (si_text r).

(* TracyWorker.hpp:411-414 DataBlock *)
Record Sections := mkSections {
  sections : gmap Z (list SectionItem); sectionsPending : list SectionItem;
  sectionsActive : gmap Z Z; sectionsDescription : gmap Z StringIdx.t }.
#[export] Instance eta_Sections : Eta Sections := fun r =>
  mkSections (sections r) (sectionsPending r) (sectionsActive r) (sectionsDescription r).

(** ** Processors *)

(* TracyEvent.hpp:855-860 CpuThreadData *)
Record CpuThreadData := mkCpuThread { runningTime : Z; runningRegions : Z; migrations : Z }.
#[export] Instance eta_CpuThread : Eta CpuThreadData := fun r =>
  mkCpuThread (runningTime r) (runningRegions r) (migrations r).
Definition new_CpuThreadData : CpuThreadData := mkCpuThread 0 0 0.

(* TracyEvent.hpp:278-285 HwSampleData *)
Record HwSampleData := mkHwSample {
  cycles : SortedVector.t Int48.t; retired : SortedVector.t Int48.t;
  cacheRef : SortedVector.t Int48.t; cacheMiss : SortedVector.t Int48.t;
  branchRetired : SortedVector.t Int48.t; branchMiss : SortedVector.t Int48.t }.
#[export] Instance eta_HwSample : Eta HwSampleData := fun r =>
  mkHwSample (cycles r) (retired r) (cacheRef r) (cacheMiss r) (branchRetired r) (branchMiss r).
Definition new_HwSampleData : HwSampleData :=
  mkHwSample SortedVector.empty SortedVector.empty SortedVector.empty SortedVector.empty
    SortedVector.empty SortedVector.empty.

(* TracyEvent.hpp:863-876 Parameter *)
Record Parameter_ := mkParameter { pm_idx : Z; pm_name : StringRef.t; pm_type : Z; pm_val : Z }.

(** [cpuData]: the switches of each processor; [cpuTopology]: the threads of each
    core, by package, die and core.  In [externalNames] the pair holds [None] for
    ["???"]. *)
(* TracyWorker.hpp:373-376 DataBlock *)
Record Cpu := mkCpu {
  cpuData : gmap Z (list ContextSwitchCpu.t); cpuDataCount : Z; tidToPid : gmap Z Z;
  cpuThreadData : gmap Z CpuThreadData; externalThreadCompress : ThreadCompress.t;
  externalNames : gmap Z (option Z * option Z); m_pendingExternalNames : Z;
  newContextSwitchesReceived : bool; hwSamples : gmap Z HwSampleData; hasBranchRetirement : bool;
  cpuTopology : gmap (Z * Z * Z) (list Z); cpuTopologyMap : gmap Z (Z * Z * Z);
  m_params : list Parameter_; m_pendingThreadHints : list Z }.
#[export] Instance eta_Cpu : Eta Cpu := fun r =>
  mkCpu (cpuData r) (cpuDataCount r) (tidToPid r) (cpuThreadData r) (externalThreadCompress r)
    (externalNames r) (m_pendingExternalNames r) (newContextSwitchesReceived r) (hwSamples r)
    (hasBranchRetirement r) (cpuTopology r) (cpuTopologyMap r) (m_params r)
    (m_pendingThreadHints r).

(** ** Call stacks *)

(** The 64 bits of the union: an index of 62 bits, or a pointer without its two high
    bits, with [sel] set for the former; [custom] marks the frames the server makes. *)
Module CallstackFrameId.
(* TracyEvent.hpp:247-256 CallstackFrameId *)
Definition t : Type := Z.
Definition make (idx sel custom : Z) : t := uint 62 idx + 2 ^ 62 * sel + 2 ^ 63 * custom.
Definition idx (m : t) : Z := bits 0 62 m.
Definition sel (m : t) : Z := bits 62 1 m.
Definition custom (m : t) : Z := bits 63 1 m.
End CallstackFrameId.

(* TracyEvent.hpp:443-453 CallstackFrame *)
Record CallstackFrame := mkFrame {
  cf_name : StringIdx.t; cf_file : StringIdx.t; cf_line : Z; cf_symAddr : Z }.
Definition zero_frame : CallstackFrame := mkFrame 0 0 0 0.
(* TracyEvent.hpp:472-477 CallstackFrameData *)
Record CallstackFrameData := mkFrameGroup {
  cfd_data : list CallstackFrame; cfd_size : Z; cfd_imageName : StringIdx.t }.
#[export] Instance eta_FrameGroup : Eta CallstackFrameData := fun r =>
  mkFrameGroup (cfd_data r) (cfd_size r) (cfd_imageName r).

(** What [RevFrameComp] compares: the [CallstackFrameBasic] parts. *)
Definition frame_key : Type := list (StringIdx.t * StringIdx.t * Z).
(* TracyWorker.hpp:254-266 RevFrameComp *)
Definition rev_frame_key (d : CallstackFrameData) : frame_key :=
  map (fun f => (cf_name f, cf_file f, cf_line f)) (take (Z.to_nat (cfd_size d)) (cfd_data d)).

(* TracyWorker.hpp:268-276 SymbolPending *)
Record SymbolPending := mkSymbolPending {
  sp_name : StringIdx.t; sp_imageName : StringIdx.t; sp_file : StringIdx.t; sp_line : Z; sp_size : Z;
  sp_isInline : bool }.
(* TracyEvent.hpp:455-462 SymbolData *)
Record SymbolData := mkSymbolData {
  sd_name : StringIdx.t; sd_file : StringIdx.t; sd_line : Z; sd_imageName : StringIdx.t;
  sd_callFile : StringIdx.t; sd_callLine : Z; sd_isInline : bool; sd_size : Int24.t }.
(* TracyEvent.hpp:465-469 SymbolLocation *)
Record SymbolLocation := mkSymbolLocation { sl_addr : Z; sl_len : Z }.

(** A call stack that is not there ([callstackPayload] at 0) is a null pointer; a frame
    that was asked for and has not arrived is one in [callstackFrameMap]. *)
(* TracyWorker.hpp:323-333 DataBlock *)
Record Callstacks := mkCallstacks {
  callstackMap : gmap (list CallstackFrameId.t) Z;
  callstackPayload : list (option (list CallstackFrameId.t));
  callstackFrameMap : gmap CallstackFrameId.t (option CallstackFrameData);
  revFrameMap : gmap frame_key CallstackFrameId.t;
  m_callstackAllocNextIdx : Z;
  m_pendingCallstackFrames : Z; m_pendingCallstackSubframes : Z;
  m_callstackFrameStaging : option CallstackFrameData; m_callstackFrameStagingPtr : Z;
  symbolMap : gmap Z SymbolData; symbolLoc : list SymbolLocation; symbolLocInline : list Z;
  newSymbolsIndex : Z; newInlineSymbolsIndex : Z; codeSymbolMap : gmap Z Z;
  m_pendingSymbols : gmap Z SymbolPending; m_pendingSymbolCode : Z;
  symbolCode : gmap Z (list Z); symbolCodeSize : Z }.
#[export] Instance eta_Callstacks : Eta Callstacks := fun r =>
  mkCallstacks (callstackMap r) (callstackPayload r) (callstackFrameMap r) (revFrameMap r)
    (m_callstackAllocNextIdx r) (m_pendingCallstackFrames r) (m_pendingCallstackSubframes r)
    (m_callstackFrameStaging r) (m_callstackFrameStagingPtr r) (symbolMap r) (symbolLoc r)
    (symbolLocInline r) (newSymbolsIndex r) (newInlineSymbolsIndex r) (codeSymbolMap r)
    (m_pendingSymbols r) (m_pendingSymbolCode r) (symbolCode r) (symbolCodeSize r).
Definition new_Callstacks : Callstacks :=
  mkCallstacks ∅ [None] ∅ ∅ 0 0 0 None 0 ∅ [] [2 ^ 64 - 1] (-1) (-1) ∅ ∅ 0 ∅ 0.

(** ** Samples of call stacks *)

(* TracyEvent.hpp:261-265 SampleData *)
Record SampleData := mkSample { sm_time : Int48.t; sm_callstack : Int24.t }.
#[export] Instance eta_Sample : Eta SampleData := fun r => mkSample (sm_time r) (sm_callstack r).
(* TracyEvent.hpp:270-275 SampleDataRange *)
Record SampleDataRange := mkSampleRange {
  sr_time : Int48.t; sr_thread : Z; sr_ip : CallstackFrameId.t }.
(* TracyEvent.hpp:682-686 ChildSample *)
Record ChildSample := mkChildSample { ch_time : Int48.t; ch_addr : Z }.
(* TracyEvent.hpp:674-679 GhostZone *)
Record GhostZone := mkGhost {
  gz_start : Int48.t; gz_end : Int48.t; gz_frame : Int24.t; gz_child : Z }.
#[export] Instance eta_Ghost : Eta GhostZone := fun r =>
  mkGhost (gz_start r) (gz_end r) (gz_frame r) (gz_child r).
(* TracyWorker.hpp:175-179 GhostKey *)
Definition GhostKey : Type := CallstackFrameId.t * Z.

(* TracyEvent.hpp:879-886 SymbolStats *)
Record SymbolStats := mkSymbolStats {
  ss_incl : Z; ss_excl : Z; wasExecuting : gmap Z Z; wasExecutingBase : gmap Z Z;
  wasReached : gmap Z Z; wasReachedNonReentrant : gmap Z Z }.
#[export] Instance eta_SymbolStats : Eta SymbolStats := fun r =>
  mkSymbolStats (ss_incl r) (ss_excl r) (wasExecuting r) (wasExecutingBase r) (wasReached r)
    (wasReachedNonReentrant r).

(** The members of a thread that are about samples. *)
(* TracyEvent.hpp:711-719 ThreadData *)
Record ThreadSamples := mkThreadSamples {
  ghostZones : list GhostZone; ghostIdx : Z; td_postponedSamples : SortedVector.t SampleData;
  samples : list SampleData; pendingSample : SampleData;
  ctxSwitchSamples : SortedVector.t SampleData; kernelSampleCnt : Z }.
#[export] Instance eta_ThreadSamples : Eta ThreadSamples := fun r =>
  mkThreadSamples (ghostZones r) (ghostIdx r) (td_postponedSamples r) (samples r) (pendingSample r)
    (ctxSwitchSamples r) (kernelSampleCnt r).
Definition new_ThreadSamples : ThreadSamples :=
  mkThreadSamples [] 0 SortedVector.empty [] (mkSample 0 0) SortedVector.empty 0.

(** [td_samples]: the samples of each thread, by its address; an absent entry is the
    initial one. *)
(* TracyWorker.hpp:336-353 DataBlock *)
Record Samples := mkSamples {
  td_samples : gmap nat ThreadSamples; samplesCnt : Z; ghostCnt : Z;
  m_samplingPeriod : Z; m_combineSamples : bool; m_identifySamples : bool;
  m_inconsistentSamples : bool;
  syntheticCallstackMap : gmap (list CallstackFrameId.t) Z;
  syntheticCallstackPayload : list (list CallstackFrameId.t);
  syntheticCallstackFrameMap : gmap CallstackFrameId.t CallstackFrameData;
  revSyntheticFrameMap : gmap frame_key CallstackFrameId.t; m_callstackSyntheticNextIdx : Z;
  symbolStats : gmap Z SymbolStats; postponedSamples : gmap Z Z;
  pendingInstructionPointers : gmap CallstackFrameId.t Z;
  instructionPointersMap : gmap Z (gmap CallstackFrameId.t Z);
  symbolSamples : gmap Z (list SampleDataRange);
  pendingSymbolSamples : gmap CallstackFrameId.t (list SampleDataRange);
  childSamples : gmap Z (SortedVector.t ChildSample);
  newFramesWereReceived : bool; ghostZonesPostponed : bool;
  ghostChildren : list (list GhostZone); ghostFrames : list GhostKey;
  ghostFramesMap : gmap GhostKey Z }.
#[export] Instance eta_Samples : Eta Samples := fun r =>
  mkSamples (td_samples r) (samplesCnt r) (ghostCnt r) (m_samplingPeriod r) (m_combineSamples r)
    (m_identifySamples r) (m_inconsistentSamples r) (syntheticCallstackMap r)
    (syntheticCallstackPayload r) (syntheticCallstackFrameMap r) (revSyntheticFrameMap r)
    (m_callstackSyntheticNextIdx r) (symbolStats r) (postponedSamples r)
    (pendingInstructionPointers r) (instructionPointersMap r) (symbolSamples r)
    (pendingSymbolSamples r) (childSamples r) (newFramesWereReceived r) (ghostZonesPostponed r)
    (ghostChildren r) (ghostFrames r) (ghostFramesMap r).
Definition new_Samples (period : Z) (combine identify : bool) : Samples :=
  mkSamples ∅ 0 0 period combine identify false ∅ [] ∅ ∅ 0 ∅ ∅ ∅ ∅ ∅ ∅ ∅ false false [] [] ∅.
