(* ===== verification/Server.v ===== *)
(** * The trace server: its state and the services the handlers share

    [server/TracyWorker.cpp] rebuilds a trace from the events of a client.  [W] is
    the part of [Worker] (its [m_data] included) that the modelled handlers use.
    Objects that the server points to from several places (threads, zones,
    memory plots) live in heaps, lists in which the position of an object is its
    address; [unordered_flat_map]s are finite maps.  The one-element caches in
    front of the maps are kept, as part of the state.

    A failed [assert], a null pointer that is followed and a conversion of a
    [double] that does not fit give no result ([None] of the handler monad). *)
From S2P Require Import Prelude Double Queue Event Containers Discovery Trace.

(** ** Data *)

(* TracyWorker.hpp:443-461 Failure *)
Inductive Failure : Set :=
  | NoFailure | ZoneStack | ZoneDoubleEnd | ZoneText | ZoneValue | ZoneColor | ZoneName | MemFree
  | MemAllocTwice | FrameEnd | FrameImageIndex | FrameImageTwice | FiberLeave
  | SourceLocationOverflow.
#[export] Instance Failure_eq_dec : EqDecision Failure.
Proof. solve_decision. Defined.

(* TracyWorker.hpp:428-434 FailureData *)
Record FailureData := mkFailureData {
  fd_thread : Z; fd_srcloc : Z; fd_callstack : Z; fd_message : list Z }.
#[export] Instance eta_FailureData : Eta FailureData := fun r =>
  mkFailureData (fd_thread r) (fd_srcloc r) (fd_callstack r) (fd_message r).

(* TracyProtocol.hpp:41-60 ServerQuery *)
Inductive ServerQuery : Set :=
  | ServerQueryTerminate | ServerQueryString | ServerQueryThreadString
  | ServerQuerySourceLocation | ServerQueryPlotName | ServerQueryFrameName
  | ServerQueryParameter | ServerQueryFiberName | ServerQueryExternalName
  | ServerQueryDisconnect | ServerQueryCallstackFrame | ServerQuerySymbol
  | ServerQuerySymbolCode | ServerQuerySourceCode | ServerQueryDataTransfer
  | ServerQueryDataTransferPart.
Definition ServerQuery_idx (q : ServerQuery) : Z :=
  match q with
  | ServerQueryTerminate => 0 | ServerQueryString => 1 | ServerQueryThreadString => 2
  | ServerQuerySourceLocation => 3 | ServerQueryPlotName => 4 | ServerQueryFrameName => 5
  | ServerQueryParameter => 6 | ServerQueryFiberName => 7 | ServerQueryExternalName => 8
  | ServerQueryDisconnect => 9 | ServerQueryCallstackFrame => 10 | ServerQuerySymbol => 11
  | ServerQuerySymbolCode => 12 | ServerQuerySourceCode => 13 | ServerQueryDataTransfer => 14
  | ServerQueryDataTransferPart => 15
  end.
(* TracyProtocol.hpp:62-67 ServerQueryPacket *)
Record ServerQueryPacket := mkQuery { q_type : ServerQuery; q_ptr : Z; q_extra : Z }.

(** A thread: its zones by address, the open ones in [stack].  [stackCount] is an
    array of bytes indexed by the source location as a [uint16_t]; an absent
    entry is zero. *)
(* TracyEvent.hpp:700-726 ThreadData *)
Record ThreadData := mkThreadData {
  id : Z; count : Z; timeline : list nat; stack : list nat; nextZoneId : Z;
  zoneIdStack : list Z; childTimeStack : list Z; isFiber : bool; fiber : option nat;
  stackCount : gmap Z Z; groupHint : Z; td_messages : list nat }.
#[export] Instance eta_ThreadData : Eta ThreadData := fun r =>
  mkThreadData (id r) (count r) (timeline r) (stack r) (nextZoneId r) (zoneIdStack r)
    (childTimeStack r) (isFiber r) (fiber r) (stackCount r) (groupHint r) (td_messages r).

(* TracyWorker.hpp:128-136 ZoneThreadData *)
Record ZoneThreadData := mkZtd { Zone : nat; Thread : Z }.

(** The statistics of a source location. *)
(* TracyWorker.hpp:199-216 SourceLocationZones *)
Record SourceLocationZones := mkSlz {
  zones : SortedVector.t ZoneThreadData; min : Z; max : Z; total : Z; sumSq : double;
  selfMin : Z; selfMax : Z; selfTotal : Z; nonReentrantCount : Z; nonReentrantMin : Z;
  nonReentrantMax : Z; nonReentrantTotal : Z; threadCnt : gmap Z Z }.
#[export] Instance eta_Slz : Eta SourceLocationZones := fun r =>
  mkSlz (zones r) (min r) (max r) (total r) (sumSq r) (selfMin r) (selfMax r) (selfTotal r)
    (nonReentrantCount r) (nonReentrantMin r) (nonReentrantMax r) (nonReentrantTotal r)
    (threadCnt r).

Definition new_SourceLocationZones : SourceLocationZones :=
  mkSlz SortedVector.empty int64_max int64_min 0 (S754_zero false) int64_max int64_min 0 0
    int64_max int64_min 0 ∅.

(* TracyEvent.hpp:194-207 SourceLocation *)
Record SourceLocation := mkSrcLoc {
  sl_name : StringRef.t; sl_function : StringRef.t; sl_file : StringRef.t; sl_line : Z;
  sl_color : Z }.

(* TracyEvent.hpp:233-239 ZoneExtra *)
Record ZoneExtra := mkZoneExtra {
  ze_callstack : Int24.t; ze_text : StringIdx.t; ze_name : StringIdx.t; ze_color : Int24.t }.
#[export] Instance eta_ZoneExtra : Eta ZoneExtra := fun r =>
  mkZoneExtra (ze_callstack r) (ze_text r) (ze_name r) (ze_color r).
Definition zero_extra : ZoneExtra := mkZoneExtra 0 0 0 0.

(* TracyQueue.hpp:287-291 LockType *)
Inductive LockType : Set := Lockable | SharedLockable.

(** The range of the events of each thread; an absent entry is the initial one. *)
(* TracyEvent.hpp:352-373 LockMap *)
Record LockMap := mkLockMap {
  customName : StringIdx.t; lk_srcloc : Z; lk_timeline : list LockEventPtr.t;
  threadMap : gmap Z Z; threadList : list Z; lk_type : LockType; timeAnnounce : Z;
  timeTerminate : Z; valid : bool; isContended : bool; lockingThread : Z;
  range : gmap Z (Z * Z) }.
#[export] Instance eta_LockMap : Eta LockMap := fun r =>
  mkLockMap (customName r) (lk_srcloc r) (lk_timeline r) (threadMap r) (threadList r) (lk_type r)
    (timeAnnounce r) (timeTerminate r) (valid r) (isContended r) (lockingThread r) (range r).

(* TracyEvent.hpp:649-653 PlotItem *)
Record PlotItem := mkPlotItem { pi_time : Int48.t; pi_val : double }.
(* TracyEvent.hpp:757-763 PlotType *)
Inductive PlotType : Set := PlotUser | PlotMemory | PlotSysTime | PlotPower.
(* TracyEvent.hpp:774-790 PlotData *)
Record PlotData := mkPlotData {
  pl_name : Z; pl_min : double; pl_max : double; pl_sum : double;
  pl_data : SortedVector.t PlotItem; pl_type : PlotType; pl_format : Z; pl_showSteps : Z;
  pl_fill : Z; pl_color : Z }.
#[export] Instance eta_PlotData : Eta PlotData := fun r =>
  mkPlotData (pl_name r) (pl_min r) (pl_max r) (pl_sum r) (pl_data r) (pl_type r) (pl_format r)
    (pl_showSteps r) (pl_fill r) (pl_color r).

(* TracyEvent.hpp:792-803 MemData *)
Record MemData := mkMemData {
  data : list MemEvent.t; frees : list Z; active : gmap Z Z; high : Z; low : Z; usage : Z;
  plot : option nat; reconstruct : bool; name : Z }.
#[export] Instance eta_MemData : Eta MemData := fun r =>
  mkMemData (data r) (frees r) (active r) (high r) (low r) (usage r) (plot r) (reconstruct r)
    (name r).
Definition new_MemData : MemData := mkMemData [] [] ∅ 0 (2 ^ 64 - 1) 0 None false 0.

(* TracyEvent.hpp:840-848 ContextSwitch *)
Record ContextSwitch := mkContextSwitch {
  cs_v : list ContextSwitchData.t; wakeup_time : Z; wakeup_cpu : Z; cs_runningTime : Z }.
#[export] Instance eta_ContextSwitch : Eta ContextSwitch := fun r =>
  mkContextSwitch (cs_v r) (wakeup_time r) (wakeup_cpu r) (cs_runningTime r).
Definition new_ContextSwitch : ContextSwitch := mkContextSwitch [] 0 255 0.

(** *** Source code and the system *)

#[export] Instance StringRef_eq_dec : EqDecision StringRef.t.
Proof. solve_decision. Defined.
#[export] Instance StringRef_countable : Countable StringRef.t.
Proof.
  refine (inj_countable' (fun r => (StringRef.str r, StringRef.isidx r, StringRef.active r))
    (fun p => StringRef.mk (fst (fst p)) (snd (fst p)) (snd p)) _).
  intros []. reflexivity.
Defined.

(** What [SourceLocationComparator] compares. *)
Definition srcloc_key : Type := StringRef.t * StringRef.t * StringRef.t * Z * Z.
(* TracyEvent.hpp:831-837 SourceLocationComparator *)
Definition srcloc_key_of (s : SourceLocation) : srcloc_key :=
  (sl_name s, sl_function s, sl_file s, sl_line s, sl_color s).

(** Names of files are compared as strings. *)
(* TracyWorker.hpp:398-401 DataBlock *)
Record Sources := mkSources {
  sourceLocationPayload : list SourceLocation; sourceLocationPayloadMap : gmap srcloc_key Z;
  m_checkedFileStrings : gset StringRef.t; m_pendingFileStrings : gset StringRef.t;
  sourceFileCache : gmap (list Z) (list Z); m_sourceCodeQuery : gmap Z (list Z);
  m_nextSourceCodeQuery : Z; m_codeTransfer : bool; m_captureTime : Z; m_executableTime : Z }.
#[export] Instance eta_Sources : Eta Sources := fun r =>
  mkSources (sourceLocationPayload r) (sourceLocationPayloadMap r) (m_checkedFileStrings r)
    (m_pendingFileStrings r) (sourceFileCache r) (m_sourceCodeQuery r) (m_nextSourceCodeQuery r)
    (m_codeTransfer r) (m_captureTime r) (m_executableTime r).

(* TracyEvent.hpp:504-510 CrashEvent *)
Record CrashEvent := mkCrash { ce_thread : Z; ce_time : Z; ce_message : Z; ce_callstack : Z }.
(* TracyProtocol.hpp:72-79 CpuArchitecture *)
Inductive CpuArchitecture : Set :=
  | CpuArchUnknown | CpuArchX86 | CpuArchX64 | CpuArchArm32 | CpuArchArm64.
(** [m_powerData]: the last time and the plot of each sensor. *)
(* TracyWorker.hpp:168-172 PowerData *)
Record System := mkSystem {
  m_sysTimePlot : option nat; m_powerData : gmap Z (Z * nat); crashEvent : CrashEvent;
  m_terminate : bool; m_crashed : bool; cpuArch : CpuArchitecture }.
#[export] Instance eta_System : Eta System := fun r =>
  mkSystem (m_sysTimePlot r) (m_powerData r) (crashEvent r) (m_terminate r) (m_crashed r)
    (cpuArch r).

(** ** The server

    [zone_heap] and [plot_heap] are the objects allocated from [m_slab];
    a value [None] of [strings] and [threadNames] is the literal ["???"] of a name
    that was asked for and has not arrived, [Some i] a pointer to the stored
    string [i].  [memNameMap] at 0 is [m_data.memory]. *)
(* TracyWorker.hpp:277-414 DataBlock *)
Record W := mkW {
  m_failure : Failure;
  m_failureData : FailureData;
  m_sock_valid : bool;
  m_serverQueryQueue : list ServerQueryPacket;
  m_serverQueryQueuePrio : list ServerQueryPacket;
  m_serverQuerySpaceLeft : Z;
  baseTime : Z;
  lastTime : Z;
  m_timerMul : double;
  m_refTimeThread : Z;
  m_refTimeSerial : Z;
  m_refTimeCtx : Z;
  m_refTimeGpu : Z;
  threads : list ThreadData;
  m_threadMap : gmap Z nat;
  threadDataLast : Z * option nat;
  m_threadCtx : Z;
  m_threadCtxData : option nat;
  threadNames : gmap Z (option Z);
  m_pendingThreads : Z;
  fiberToThreadMap : gmap Z Z;
  m_pendingFibers : Z;
  ctxSwitch : gmap Z ContextSwitch;
  localThreadCompress : ThreadCompress.t;
  strings : gmap Z (option Z);
  m_pendingStrings : Z;
  stringData : list (list Z);
  stringMap : gmap (list Z) Z;
  m_pendingSingleString : option Z;
  m_pendingSecondString : option Z;
  sourceLocation : gmap Z SourceLocation;
  m_pendingSourceLocation : Z;
  m_sourceLocationQueue : list Z;
  checkSrclocLast : Z;
  m_sourceLocationShrink : gmap Z Z;
  sourceLocationExpand : list Z;
  shrinkSrclocLast : Z * Z;
  m_pendingSourceLocationPayload : Z;
  sourceLocationZones : gmap Z SourceLocationZones;
  srclocZonesLast : Z * option Z;
  zonesCnt : Z;
  zone_heap : list ZoneEvent.t;
  zoneChildren : list (Vector.t nat);
  zoneVectorCache : list (Vector.t nat);
  zoneExtra : list ZoneExtra;
  m_nextCallstack : gmap Z Z;
  m_pendingCallstackId : Z;
  m_serialNextCallstack : Z;
  lockMap : gmap Z LockMap;
  memNameMap : gmap Z MemData;
  m_memNamePayload : Z;
  m_ignoreMemFreeFaults : bool;
  m_ignoreMemAllocFaults : bool;
  plot_heap : list PlotData;
  plots : StringDiscovery.t;
  m_onDemand : bool;
  fr : Frames;
  msgs : Messages;
  gpu : Gpu;
  secs : Sections;
  cpu : Cpu;
  cst : Callstacks;
  smp : Samples;
  srcs : Sources;
  sys : System }.
#[export] Instance eta_W : Eta W := fun r =>
  mkW (m_failure r) (m_failureData r) (m_sock_valid r) (m_serverQueryQueue r)
    (m_serverQueryQueuePrio r) (m_serverQuerySpaceLeft r) (baseTime r) (lastTime r) (m_timerMul r)
    (m_refTimeThread r) (m_refTimeSerial r) (m_refTimeCtx r) (m_refTimeGpu r) (threads r)
    (m_threadMap r) (threadDataLast r) (m_threadCtx r) (m_threadCtxData r) (threadNames r)
    (m_pendingThreads r) (fiberToThreadMap r) (m_pendingFibers r) (ctxSwitch r)
    (localThreadCompress r) (strings r) (m_pendingStrings r) (stringData r) (stringMap r)
    (m_pendingSingleString r) (m_pendingSecondString r) (sourceLocation r)
    (m_pendingSourceLocation r) (m_sourceLocationQueue r) (checkSrclocLast r)
    (m_sourceLocationShrink r) (sourceLocationExpand r) (shrinkSrclocLast r)
    (m_pendingSourceLocationPayload r) (sourceLocationZones r) (srclocZonesLast r) (zonesCnt r)
    (zone_heap r) (zoneChildren r) (zoneVectorCache r) (zoneExtra r) (m_nextCallstack r)
    (m_pendingCallstackId r) (m_serialNextCallstack r) (lockMap r) (memNameMap r)
    (m_memNamePayload r) (m_ignoreMemFreeFaults r) (m_ignoreMemAllocFaults r) (plot_heap r)
    (plots r) (m_onDemand r) (fr r) (msgs r) (gpu r) (secs r) (cpu r)
    (cst r) (smp r) (srcs r) (sys r).

Definition ascii (s : string) : list Z :=
  map (fun c => Z.of_N (Ascii.N_of_ascii c)) (String.list_ascii_of_string s).

(** The default frame set, with frames that began at [starts]: it has no pointer of
    the client for a name, but the string ["Frame"], the first one of the server. *)
Definition new_Frames (starts : list Z) (onDemand : bool) : Frames := {|
  frames := StringDiscovery.mk [0%nat] ∅ {[0 := 0%nat]} {[ascii "Frame" := 0%nat]};
  frame_heap := [(new_FrameData 0 1) <| fd_frames := map (fun t => mkFrameEvent t (-1) (-1)) starts |>];
  framesBase := Some 0%nat; frameOffset := 0; frameImage := []; m_frameImageStaging := ∅;
  m_pendingFrameImageData := None; m_vsyncFrameMap := ∅; m_ignoreFrameEndFaults := onDemand |}.

(** The start times of the frames of the default frame set. *)
Definition framesBase_start (w : W) : list Z :=
  match framesBase (fr w) ≫= fun p => frame_heap (fr w) !! p with
  | Some fd => map fe_start (fd_frames fd)
  | None => []
  end.

(** The state of a new connection, before the first event: the constructor and the
    fields' initial values, with what the welcome message says. *)
(* TracyWorker.cpp:258-294 Worker *)
Definition Worker (timerMul : double) (initBegin initEnd : Z) (spaceLeft : Z)
    (onDemand ignoreMemFaults : bool) (frames : list Z) : W := {|
  m_failure := NoFailure; m_failureData := mkFailureData 0 0 0 [];
  m_sock_valid := true; m_serverQueryQueue := []; m_serverQueryQueuePrio := [];
  m_serverQuerySpaceLeft := spaceLeft;
  baseTime := initBegin; lastTime := initEnd; m_timerMul := timerMul;
  m_refTimeThread := 0; m_refTimeSerial := 0; m_refTimeCtx := 0; m_refTimeGpu := 0;
  threads := []; m_threadMap := ∅; threadDataLast := (2 ^ 64 - 1, None);
  m_threadCtx := 0; m_threadCtxData := None; threadNames := ∅; m_pendingThreads := 0;
  fiberToThreadMap := ∅; m_pendingFibers := 0; ctxSwitch := ∅;
  localThreadCompress := initial_threads;
  strings := ∅; m_pendingStrings := 0; stringData := [ascii "Frame"]; stringMap := {[ascii "Frame" := 0]};
  m_pendingSingleString := None; m_pendingSecondString := None;
  sourceLocation := ∅; m_pendingSourceLocation := 0; m_sourceLocationQueue := [];
  checkSrclocLast := 0; m_sourceLocationShrink := ∅; sourceLocationExpand := [0];
  shrinkSrclocLast := (2 ^ 64 - 1, 0); m_pendingSourceLocationPayload := 0;
  sourceLocationZones := ∅; srclocZonesLast := (0, None);
  zonesCnt := 0; zone_heap := []; zoneChildren := []; zoneVectorCache := [];
  zoneExtra := [zero_extra]; m_nextCallstack := ∅; m_pendingCallstackId := 0;
  m_serialNextCallstack := 0; lockMap := ∅; memNameMap := {[0 := new_MemData]};
  m_memNamePayload := 0;
  m_ignoreMemFreeFaults := onDemand || ignoreMemFaults; m_ignoreMemAllocFaults := ignoreMemFaults;
  plot_heap := []; plots := StringDiscovery.empty; m_onDemand := onDemand;
  fr := new_Frames frames onDemand; msgs := mkMessages [] [] [];
  gpu := mkGpu [] ∅ [] [] 0 ∅ (0, None); secs := mkSections ∅ [] ∅ ∅;
  cpu := mkCpu ∅ 0 ∅ ∅ initial_threads ∅ 0 false ∅ false ∅ ∅ [] [];
  cst := new_Callstacks; smp := new_Samples 0 false false;
  srcs := mkSources [] ∅ ∅ ∅ ∅ ∅ 0 false 0 0; sys := mkSystem None ∅ (mkCrash 0 0 0 0) false false CpuArchUnknown |}.

(** Memory fresh from the slab allocator holds arbitrary words. *)
Class Slab := { junk : nat -> ZoneEvent.t; junk_ok : forall n, ZoneEvent.ok (junk n) }.

(** ** Queries *)
(* TracyWorker.cpp:250-253 *)
Definition IsQueryPrio (type : ServerQuery) : bool :=
  ServerQuery_idx type <? ServerQuery_idx ServerQueryDisconnect.
(* TracyWorker.cpp:3255-3266 *)
Definition Query (type : ServerQuery) (data extra : Z) : M W unit :=
  let query := mkQuery type data extra in
  if IsQueryPrio type then modify (fun w => w <| m_serverQueryQueuePrio ::= (fun q => q ++ [query]) |>)
  else modify (fun w => w <| m_serverQueryQueue ::= (fun q => q ++ [query]) |>).

(** ** Time *)
(* TracyWorker.hpp:1053-1053 *)
Definition TscTime (tsc : Z) : M W Z :=
  base ← gets baseTime; mul ← gets m_timerMul;
  expect (trunc64 (dmul (double_of_Z (sint 64 (tsc - base))) mul)).
(** The overload for unsigned readings. *)
(* TracyWorker.hpp:1054-1054 TscTime *)
Definition TscTime_u (tsc : Z) : M W Z :=
  base ← gets baseTime; mul ← gets m_timerMul;
  expect (trunc64 (dmul (double_of_Z (uint 64 (tsc - base))) mul)).

(** [RefTime( reference, delta )] for the reference [p]. *)
(* TracyWorker.cpp:4941-4946 *)
Definition RefTime (p : W -> Z) `{!FieldSet p} (delta : Z) : M W Z :=
  reference ← gets p;
  let refTime := sint 64 (reference + delta) in
  modify (fun w => w <| p := refTime |>);; mret refTime.

(** [if( m_data.lastTime < t ) m_data.lastTime = t;] *)
Definition touch_lastTime (t : Z) : M W unit :=
  modify (fun w => w <| lastTime ::= (fun l => if l <? t then t else l) |>).

(* TracyWorker.cpp:2205-2210 *)
Definition GetFirstTime : M W Z :=
  od ← gets m_onDemand;
  if od : bool then
    fr ← gets framesBase_start;
    assert_ (Nat.leb 2 (length fr));; expect (fr !! 2%nat)
  else mret 0.

(** ** Strings *)
(* TracyWorker.cpp:4558-4579 *)
Definition StoreString (str : list Z) : M W Z :=
  m ← gets stringMap;
  match m !! str with
  | None =>
      d ← gets stringData;
      let idx := uint 32 (Z.of_nat (length d)) in
      modify (fun w => w <| stringMap ::= <[str := idx]> |> <| stringData ::= (fun d => d ++ [str]) |>);;
      mret idx
  | Some i => mret i
  end.

(** The C string at a stored string: up to its first zero byte. *)
Fixpoint c_str (s : list Z) : list Z :=
  match s with
  | [] => []
  | b :: s => if b =? 0 then [] else b :: c_str s
  end.
(** ["???"] *)
Definition unknown : list Z := [63; 63; 63].
(** [strcmp( p, "???" ) == 0] *)
Definition is_unknown (d : list (list Z)) (p : option Z) : bool :=
  match p with
  | None => true
  | Some i => bool_decide (c_str (nth (Z.to_nat i) d []) = unknown)
  end.

(* TracyWorker.cpp:4542-4548 *)
Definition GetSingleStringIdx : M W Z :=
  p ← gets m_pendingSingleString; i ← expect p;
  modify (fun w => w <| m_pendingSingleString := None |>);; mret i.
(* TracyWorker.cpp:4550-4556 *)
Definition GetSecondStringIdx : M W Z :=
  p ← gets m_pendingSecondString; i ← expect p;
  modify (fun w => w <| m_pendingSecondString := None |>);; mret i.
(* TracyWorker.cpp:3930-3934 *)
Definition AddSingleString (str : list Z) : M W unit :=
  p ← gets m_pendingSingleString; assert_ (negb (bool_decide (is_Some p)));;
  i ← StoreString str; modify (fun w => w <| m_pendingSingleString := Some i |>).
(* TracyWorker.cpp:3936-3941 *)
Definition AddSingleStringFailure (str : list Z) : M W unit :=
  i ← StoreString str; modify (fun w => w <| m_pendingSingleString := Some i |>).
(* TracyWorker.cpp:3943-3947 *)
Definition AddSecondString (str : list Z) : M W unit :=
  p ← gets m_pendingSecondString; assert_ (negb (bool_decide (is_Some p)));;
  i ← StoreString str; modify (fun w => w <| m_pendingSecondString := Some i |>).

(* TracyWorker.cpp:3753-3763 *)
Definition CheckString (ptr : Z) : M W bool :=
  if ptr =? 0 then mret true else
  m ← gets strings;
  match m !! ptr with
  | Some _ => mret true
  | None =>
      modify (fun w => w <| strings ::= <[ptr := None]> |>
                         <| m_pendingStrings ::= (fun n => uint 32 (n + 1)) |>);;
      Query ServerQueryString ptr 0;; mret false
  end.
(* TracyWorker.cpp:3765-3773 *)
Definition CheckThreadString (id : Z) : M W unit :=
  m ← gets threadNames;
  match m !! id with
  | Some _ => mret tt
  | None =>
      modify (fun w => w <| threadNames ::= <[id := None]> |>
                         <| m_pendingThreads ::= (fun n => uint 32 (n + 1)) |>);;
      valid ← gets m_sock_valid; when valid (Query ServerQueryThreadString id 0)
  end.
(* TracyWorker.cpp:3775-3783 *)
Definition CheckFiberName (id tid : Z) : M W unit :=
  m ← gets threadNames;
  match m !! tid with
  | Some _ => mret tt
  | None =>
      modify (fun w => w <| threadNames ::= <[tid := None]> |>
                         <| m_pendingFibers ::= (fun n => uint 32 (n + 1)) |>);;
      valid ← gets m_sock_valid; when valid (Query ServerQueryFiberName id 0)
  end.
(* TracyWorker.cpp:3908-3916 *)
Definition AddThreadString (id : Z) (str : list Z) : M W unit :=
  n ← gets m_pendingThreads; assert_ (0 <? n);;
  modify (fun w => w <| m_pendingThreads ::= (fun n => n - 1) |>);;
  m ← gets threadNames; d ← gets stringData;
  p ← expect (m !! id); assert_ (is_unknown d p);;
  i ← StoreString str; modify (fun w => w <| threadNames ::= <[id := Some i]> |>).
(* TracyWorker.cpp:3918-3928 *)
Definition AddFiberName (id : Z) (str : list Z) : M W unit :=
  n ← gets m_pendingFibers; assert_ (0 <? n);;
  modify (fun w => w <| m_pendingFibers ::= (fun n => n - 1) |>);;
  f ← gets fiberToThreadMap; tid ← expect (f !! id);
  m ← gets threadNames; d ← gets stringData;
  p ← expect (m !! tid); assert_ (is_unknown d p);;
  i ← StoreString str; modify (fun w => w <| threadNames ::= <[tid := Some i]> |>).

(** ** Failures *)
Definition set_failure (f : Failure) (upd : FailureData -> FailureData) : M W unit :=
  modify (fun w => w <| m_failure := f |> <| m_failureData ::= upd |>).
(* TracyWorker.cpp:5208-5213 ZoneStackFailure *)
Definition ZoneStackFailure (thread : Z) (ev : ZoneEvent.t) : M W unit :=
  set_failure ZoneStack (fun d => d <| fd_thread := thread |> <| fd_srcloc := ZoneEvent.SrcLoc ev |>).
(* TracyWorker.cpp:5215-5220 ZoneDoubleEndFailure *)
Definition ZoneDoubleEndFailure (thread : Z) (ev : option ZoneEvent.t) : M W unit :=
  set_failure ZoneDoubleEnd (fun d => d <| fd_thread := thread |>
    <| fd_srcloc := match ev with Some z => ZoneEvent.SrcLoc z | None => 0 end |>).
(* TracyWorker.cpp:5222-5227 ZoneTextFailure *)
Definition ZoneTextFailure (thread : Z) (text : list Z) : M W unit :=
  set_failure ZoneText (fun d => d <| fd_thread := thread |> <| fd_message := text |>).

(** [sprintf]'s [%]PRIu64 and [%]PRIx64: the digits of a 64-bit number. *)
Fixpoint digits (fuel : nat) (base z : Z) (acc : list Z) : list Z :=
  match fuel with
  | O => acc
  | S fuel =>
      let d := z mod base in
      let acc := (if d <? 10 then 48 + d else 87 + d) :: acc in
      if z / base =? 0 then acc else digits fuel base (z / base) acc
  end.
Definition print_u64 (z : Z) : list Z := digits 64 10 z [].
Definition print_x64 (z : Z) : list Z := digits 64 16 z [].
Definition print_i64 (z : Z) : list Z := if z <? 0 then 45 :: print_u64 (- z) else print_u64 z.

(* TracyWorker.cpp:5229-5244 ZoneValueFailure *)
Definition ZoneValueFailure (thread value : Z) : M W unit :=
  let buf := ascii "Zone value was: " ++ print_u64 value ++
    (if sint 64 value <? 0
     then ascii " (unsigned), " ++ print_i64 (sint 64 value) ++ ascii " (signed)" else []) in
  set_failure ZoneValue (fun d => d <| fd_thread := thread |> <| fd_message := buf |>).
(* TracyWorker.cpp:5246-5250 ZoneColorFailure *)
Definition ZoneColorFailure (thread : Z) : M W unit :=
  set_failure ZoneColor (fun d => d <| fd_thread := thread |>).
(* TracyWorker.cpp:5252-5256 ZoneNameFailure *)
Definition ZoneNameFailure (thread : Z) : M W unit :=
  set_failure ZoneName (fun d => d <| fd_thread := thread |>).
(* TracyWorker.cpp:5258-5263 MemFreeFailure *)
Definition MemFreeFailure (thread : Z) : M W unit :=
  cs ← gets m_serialNextCallstack;
  set_failure MemFree (fun d => d <| fd_thread := thread |> <| fd_callstack := cs |>).
(* TracyWorker.cpp:5265-5270 MemAllocTwiceFailure *)
Definition MemAllocTwiceFailure (thread : Z) : M W unit :=
  cs ← gets m_serialNextCallstack;
  set_failure MemAllocTwice (fun d => d <| fd_thread := thread |> <| fd_callstack := cs |>).
(* TracyWorker.cpp:5287-5290 *)
Definition FiberLeaveFailure : M W unit := set_failure FiberLeave (fun d => d).
(* TracyWorker.cpp:5292-5295 *)
Definition SourceLocationOverflowFailure : M W unit := set_failure SourceLocationOverflow (fun d => d).

(** ** Source locations *)
Definition emptySourceLocation : SourceLocation :=
  mkSrcLoc StringRef.none StringRef.none StringRef.none 0 0.
Definition int16_max : Z := 2 ^ 15 - 1.

(* TracyWorker.cpp:3463-3478 *)
Definition NewSourceLocation (ptr : Z) : M W unit :=
  m ← gets sourceLocation;
  if int16_max <? Z.of_nat (size m) then SourceLocationOverflowFailure else
  modify (fun w => w <| sourceLocation ::= emplace ptr emptySourceLocation |>
                     <| m_pendingSourceLocation ::= (fun n => uint 32 (n + 1)) |>
                     <| m_sourceLocationQueue ::= (fun q => q ++ [ptr]) |>);;
  Query ServerQuerySourceLocation ptr 0.
(* TracyWorker.cpp:3451-3461 *)
Definition CheckSourceLocation (ptr : Z) : M W unit :=
  last ← gets checkSrclocLast;
  if last =? ptr then mret tt else
  modify (fun w => w <| checkSrclocLast := ptr |>);;
  m ← gets sourceLocation;
  match m !! ptr with Some _ => mret tt | None => NewSourceLocation ptr end.
(* TracyWorker.cpp:3495-3516 *)
Definition NewShrinkedSourceLocation (srcloc : Z) : M W Z :=
  ex ← gets sourceLocationExpand;
  let size := Z.of_nat (length ex) in
  assert_ (size <? int16_max);;
  if size + 1 =? int16_max then mret int16_max else
  let sz := sint 16 size in
  modify (fun w => w
    <| sourceLocationExpand ::= (fun l => l ++ [srcloc]) |>
    <| sourceLocationZones ::= emplace sz new_SourceLocationZones |>
    <| srclocZonesLast := (uint 16 sz, Some sz) |>
    <| m_sourceLocationShrink ::= emplace srcloc sz |>
    <| shrinkSrclocLast := (srcloc, sz) |>);;
  mret sz.
(* TracyWorker.cpp:3480-3493 *)
Definition ShrinkSourceLocationReal (srcloc : Z) : M W Z :=
  m ← gets m_sourceLocationShrink;
  match m !! srcloc with
  | Some i => modify (fun w => w <| shrinkSrclocLast := (srcloc, i) |>);; mret i
  | None => NewShrinkedSourceLocation srcloc
  end.
(* TracyWorker.hpp:892-896 *)
Definition ShrinkSourceLocation (srcloc : Z) : M W Z :=
  last ← gets shrinkSrclocLast;
  if fst last =? srcloc then mret (sint 16 (snd last)) else ShrinkSourceLocationReal srcloc.

(** The statistics of a source location, by its key in [sourceLocationZones]. *)
(* TracyWorker.cpp:3591-3598 *)
Definition GetSourceLocationZonesReal (srcloc : Z) : M W Z :=
  m ← gets sourceLocationZones;
  let key := sint 16 srcloc in
  assert_ (bool_decide (is_Some (m !! key)));;
  modify (fun w => w <| srclocZonesLast := (srcloc, Some key) |>);;
  mret key.
(* TracyWorker.hpp:923-927 *)
Definition GetSourceLocationZones (srcloc : Z) : M W Z :=
  last ← gets srclocZonesLast;
  if fst last =? srcloc then expect (snd last) else GetSourceLocationZonesReal srcloc.

(** ** Threads *)
Definition GetThread (td : nat) : M W ThreadData :=
  ts ← gets threads; expect (ts !! td).
Definition UpdThread (td : nat) (f : ThreadData -> ThreadData) : M W unit :=
  t ← GetThread td; modify (fun w => w <| threads ::= <[td := f t]> |>).
(** The dereference of a pointer that may be null. *)
Definition deref (p : option nat) : M W nat := expect p.

(* TracyWorker.cpp:3648-3669 *)
Definition NewThread (thread : Z) (fib : bool) (hint : Z) : M W nat :=
  ts ← gets threads;
  let td := length ts in
  modify (fun w => w
    <| threads ::= (fun l => l ++ [mkThreadData thread 0 [] [] 0 [] [] fib None ∅ hint []]) |>
    <| m_threadMap ::= emplace thread td |>
    <| threadDataLast := (thread, Some td) |>);;
  mret td.
(* TracyWorker.cpp:3551-3565 *)
Definition NoticeThreadReal (thread : Z) : M W (option nat) :=
  m ← gets m_threadMap;
  match m !! thread with
  | Some td => modify (fun w => w <| threadDataLast := (thread, Some td) |>);; mret (Some td)
  | None => CheckThreadString thread;; td ← NewThread thread false 0; mret (Some td)
  end.
(* TracyWorker.hpp:908-912 *)
Definition NoticeThread (thread : Z) : M W (option nat) :=
  last ← gets threadDataLast;
  if fst last =? thread then mret (snd last) else NoticeThreadReal thread.
(* TracyWorker.cpp:3567-3580 *)
Definition RetrieveThreadReal (thread : Z) : M W (option nat) :=
  m ← gets m_threadMap;
  match m !! thread with
  | Some td => modify (fun w => w <| threadDataLast := (thread, Some td) |>);; mret (Some td)
  | None => mret None
  end.
(** With the cache [m_data.threadDataLast]; the one call with another is in [CtxUsage]. *)
(* TracyWorker.hpp:914-918 *)
Definition RetrieveThread (thread : Z) : M W (option nat) :=
  last ← gets threadDataLast;
  if fst last =? thread then mret (snd last) else RetrieveThreadReal thread.
(* TracyWorker.cpp:3582-3588 *)
Definition GetCurrentThreadData : M W nat :=
  p ← gets m_threadCtxData;
  ctx ← gets m_threadCtx;
  p ← match p with
      | Some td => mret (Some td)
      | None => p ← NoticeThread ctx; modify (fun w => w <| m_threadCtxData := p |>);; mret p
      end;
  td ← deref p;
  t ← GetThread td;
  mret (match fiber t with Some f => f | None => td end).
(* TracyWorker.hpp:663-663 *)
Definition CompressThread (thread : Z) : M W Z :=
  c ← gets localThreadCompress;
  let r := ThreadCompress.CompressThread thread c in
  modify (fun w => w <| localThreadCompress := snd r |>);; mret (fst r).

(* TracyWorker.cpp:4931-4939 *)
Definition ProcessThreadContext (thread : Z) : M W unit :=
  modify (fun w => w <| m_refTimeThread := 0 |>);;
  ctx ← gets m_threadCtx;
  if ctx =? thread then mret tt else
  modify (fun w => w <| m_threadCtx := thread |>);;
  p ← RetrieveThread thread;
  modify (fun w => w <| m_threadCtxData := p |>).
