(* ===== verification/ServerSpec.v ===== *)
(** * Threads and source locations: invariants and specifications

    The services every handler starts with: looking up or creating a thread
    ([NoticeThread], [GetCurrentThreadData]), and registering a source location
    ([CheckSourceLocation], [ShrinkSourceLocation]).  Their invariants say that the
    maps agree with the vectors and the one-element caches with the maps; a
    specification gives the state afterwards as an update of the fields the
    service may change. *)
From S2P Require Import Prelude Double Queue Event Containers Discovery Trace Server.

(** The state a goal ends in, as [w']. *)
Ltac name_state w' :=
  match goal with |- context [over ?p ?f ?x] =>
    lazymatch type of (over p f x) with W => set (w' := over p f x) end
  end.

Lemma Query_prio_wp type data extra (Q : unit -> W -> Prop) w :
  IsQueryPrio type = true ->
  Q tt (w <| m_serverQueryQueuePrio ::= (fun q => q ++ [mkQuery type data extra]) |>) ->
  wp (Query type data extra) Q w.
Proof. intros E HQ. unfold Query. cbv zeta. rewrite E. wp_steps. exact HQ. Qed.

(** ** Threads *)
Definition new_thread (tid : Z) (fib : bool) (hint : Z) : ThreadData :=
  mkThreadData tid 0 [] [] 0 [] [] fib None ∅ hint [].
Definition max_u64 : Z := 2 ^ 64 - 1.

Record threads_ok (w : W) : Prop := {
  to_map : forall t i, m_threadMap w !! t = Some i ->
    exists td, threads w !! i = Some td /\ id td = t;
  to_last : match snd (threadDataLast w) with
            | Some i => m_threadMap w !! fst (threadDataLast w) = Some i
            | None => fst (threadDataLast w) = max_u64
            end;
  to_ctx : forall i, m_threadCtxData w = Some i -> m_threadMap w !! m_threadCtx w = Some i;
  to_fiber : forall i td f, threads w !! i = Some td -> fiber td = Some f -> (f < length (threads w))%nat;
  to_current : m_threadCtx w <> max_u64 }.

Lemma threads_ok_frame w w' :
  threads_ok w -> m_threadMap w' = m_threadMap w -> threads w' = threads w ->
  threadDataLast w' = threadDataLast w -> m_threadCtxData w' = m_threadCtxData w ->
  m_threadCtx w' = m_threadCtx w -> threads_ok w'.
Proof. intros [? ? ? ? ?] E1 E2 E3 E4 E5. split; rewrite ?E1, ?E2, ?E3, ?E4, ?E5; auto. Qed.

(** What a service may change is erased before states are compared; [frame H f]
    is the equality of another field [f]. *)
Definition erase_noticed (w : W) : W :=
  w <| threads := [] |> <| m_threadMap := ∅ |> <| threadDataLast := (0, None) |>
    <| m_threadCtxData := None |> <| threadNames := ∅ |> <| m_pendingThreads := 0 |>
    <| m_serverQueryQueuePrio := [] |>.
Ltac erased := vm_compute; reflexivity.
Ltac frame H f := exact (f_equal f H).

(** [w'] is [w] with at most one thread more. *)
Definition noticed (w w' : W) : Prop :=
  erase_noticed w' = erase_noticed w /\
  exists ext, threads w' = threads w ++ ext /\ (ext = [] \/ exists tid, ext = [new_thread tid false 0]).

Lemma noticed_refl w : noticed w w.
Proof. split; [done |]. exists []. rewrite app_nil_r. auto. Qed.

Lemma noticed_same w w' : erase_noticed w' = erase_noticed w -> threads w' = threads w -> noticed w w'.
Proof. intros H E. split; [done |]. exists []. rewrite app_nil_r. auto. Qed.

Lemma threads_ok_new w thread :
  threads_ok w -> m_threadMap w !! thread = None -> thread <> max_u64 ->
  threads_ok (w <| threads ::= (fun ts => ts ++ [new_thread thread false 0]) |>
                <| m_threadMap ::= emplace thread (length (threads w)) |>
                <| threadDataLast := (thread, Some (length (threads w))) |>).
Proof.
  intros [Hm Hl Hc Hf Hcur] Ei Ht. split; cbn; rewrite ?emplace_fresh by done.
  - intros t i [[<- <-] | [Hne E']]%lookup_insert_some.
    + exists (new_thread thread false 0). now rewrite list_lookup_middle.
    + destruct (Hm _ _ E') as (td & Etd & ?). exists td. split; [| done].
      now apply lookup_app_l_Some.
  - apply lookup_insert_eq.
  - intros i Hi. specialize (Hc i Hi). rewrite lookup_insert_ne; [done |].
    intros ->. congruence.
  - intros i td f Etd Ef. rewrite length_app. apply lookup_app_Some in Etd as [Etd | [_ Etd]].
    + specialize (Hf _ _ _ Etd Ef). lia.
    + destruct (i - length (threads w))%nat; [| done]. simpl in Etd. simplify_eq.
  - done.
Qed.

Lemma CheckThreadString_spec tid w :
  wp (CheckThreadString tid) (fun _ w' => erase_noticed w' = erase_noticed w /\
    threads w' = threads w /\ m_threadMap w' = m_threadMap w /\
    threadDataLast w' = threadDataLast w /\ m_threadCtxData w' = m_threadCtxData w) w.
Proof.
  unfold CheckThreadString. wp_steps. destruct (threadNames w !! tid); wp_steps; [done |].
  apply wp_if; intros _; [unfold Query; cbn [IsQueryPrio ServerQuery_idx Z.ltb Z.compare] |];
    wp_steps; split; try done; erased.
Qed.

Lemma NoticeThread_spec thread w :
  threads_ok w -> thread <> max_u64 ->
  wp (NoticeThread thread) (fun r w' => threads_ok w' /\ noticed w w' /\
    m_threadCtxData w' = m_threadCtxData w /\
    exists i, r = Some i /\ m_threadMap w' !! thread = Some i) w.
Proof.
  intros Hok Ht. assert (Hok' := Hok). destruct Hok' as [Hm Hl Hc Hf Hcur].
  unfold NoticeThread. wp_steps.
  destruct (Z.eqb_spec (fst (threadDataLast w)) thread) as [E | E].
  - wp_steps. split; [done |]. split; [apply noticed_refl |]. split; [done |].
    destruct (snd (threadDataLast w)) as [i |]; [rewrite E in Hl; eauto | congruence].
  - unfold NoticeThreadReal. wp_steps. destruct (m_threadMap w !! thread) as [i |] eqn:Ei.
    + wp_steps. split; [now split |]. split; [| eauto]. apply noticed_same; [erased | done].
    + wp_steps. wp_call CheckThreadString_spec. intros _ w1 (F1 & F2 & F3 & F4 & F5).
      unfold NewThread. wp_steps. rewrite F2.
      split; [| split; [| split]].
      * rewrite <- F2. apply threads_ok_new; [| now rewrite F3 | done].
        eapply threads_ok_frame; eauto. frame F1 m_threadCtx.
      * split; [rewrite <- F1; erased |].
        exists [new_thread thread false 0]. split; [| eauto]. cbn. now rewrite F2.
      * exact F5.
      * eexists. split; [reflexivity |]. cbn. rewrite F3, emplace_fresh by done.
        apply lookup_insert_eq.
Qed.

(** The thread the events of the current context belong to: the fiber that runs
    on it, if any. *)
Definition current (w : W) : option nat :=
  base ← m_threadCtxData w; t ← threads w !! base;
  Some (match fiber t with Some f => f | None => base end).

Lemma GetCurrentThreadData_spec w :
  threads_ok w ->
  wp GetCurrentThreadData (fun td w' => threads_ok w' /\ noticed w w' /\ current w' = Some td /\
    is_Some (threads w' !! td) /\ (is_Some (m_threadCtxData w) -> w' = w)) w.
Proof.
  intros Hok. unfold GetCurrentThreadData. wp_steps.
  assert (Hbase : forall base w', threads_ok w' -> m_threadCtxData w' = Some base ->
    wp (td ← deref (Some base); t ← GetThread td;
        mret (match fiber t with Some f => f | None => td end))
      (fun td w'' => w'' = w' /\ current w' = Some td /\ is_Some (threads w' !! td)) w').
  { intros base w' [Hm Hl Hc Hf Hcur] E.
    destruct (Hm _ _ (Hc _ E)) as (tb & Etb & _).
    unfold deref, GetThread. wp_steps. eapply wp_expect; [done |]. wp_steps.
    eapply wp_expect; [exact Etb |]. wp_steps. split; [done |].
    unfold current. rewrite E. simpl. rewrite Etb. simpl. split; [done |].
    destruct (fiber tb) as [f |] eqn:Ef; [| eauto].
    apply lookup_lt_is_Some. exact (Hf _ _ _ Etb Ef). }
  destruct (m_threadCtxData w) as [base |] eqn:E.
  - apply wp_ret. eapply wp_mono; [exact (Hbase base w Hok E) |].
    intros td w' (-> & Hcu & His). split_and!; auto using noticed_refl.
  - apply wp_bind. eapply wp_mono; [apply (NoticeThread_spec (m_threadCtx w) w Hok (to_current _ Hok)) |].
    intros r w' (Hok' & [He Hn] & Hctx & i & -> & Ei). apply wp_bind, wp_modify, wp_ret.
    assert (Hctx' : m_threadCtx w' = m_threadCtx w) by frame He m_threadCtx.
    assert (Hok'' : threads_ok (w' <| m_threadCtxData := Some i |>)).
    { destruct Hok' as [? ? ? ? ?]. split; try done. intros j [= <-]. cbn. now rewrite Hctx'. }
    eapply wp_mono; [apply (Hbase i (w' <| m_threadCtxData := Some i |>) Hok''); done |].
    intros td w'' (-> & Hcu & His). split_and!; auto.
    + split; [rewrite <- He; erased | exact Hn].
    + intros [? [=]].
Qed.

(** A thread keeps its place and its data when another is noticed. *)
Lemma noticed_lookup w w' i t : noticed w w' -> threads w !! i = Some t -> threads w' !! i = Some t.
Proof. intros (_ & ext & -> & _) E. now apply lookup_app_l_Some. Qed.

Lemma noticed_new w w' i t :
  noticed w w' -> threads w' !! i = Some t -> threads w !! i = Some t \/
  (i = length (threads w) /\ exists tid, t = new_thread tid false 0).
Proof.
  intros (_ & ext & -> & Hext) E.
  apply lookup_app_Some in E as [E | [Hge E]]; [auto |].
  destruct Hext as [-> | [tid ->]]; [now rewrite lookup_nil in E |].
  right. destruct (i - length (threads w))%nat eqn:Ei; [| done].
  simpl in E. simplify_eq. split; [lia | eauto].
Qed.

Lemma UpdThread_wp td f t w (Q : unit -> W -> Prop) :
  threads w !! td = Some t -> Q tt (w <| threads ::= <[td := f t]> |>) -> wp (UpdThread td f) Q w.
Proof.
  intros E HQ. unfold UpdThread, GetThread. wp_steps. eapply wp_expect; [exact E |]. exact HQ.
Qed.

Lemma upd_lookup w td t t' :
  threads w !! td = Some t -> threads (w <| threads ::= <[td := t']> |>) !! td = Some t'.
Proof. intros E. apply list_lookup_insert_eq. now apply lookup_lt_Some in E. Qed.

Lemma GetThread_wp td t w (Q : ThreadData -> W -> Prop) :
  threads w !! td = Some t -> Q t w -> wp (GetThread td) Q w.
Proof. intros E HQ. unfold GetThread. wp_steps. eapply wp_expect; [exact E |]. exact HQ. Qed.

(** Updates of a thread that keep its number and its fiber. *)
Lemma threads_ok_upd w w' td t t' :
  threads_ok w -> threads w !! td = Some t -> threads w' = <[td := t']> (threads w) ->
  id t' = id t -> fiber t' = fiber t ->
  m_threadMap w' = m_threadMap w -> threadDataLast w' = threadDataLast w ->
  m_threadCtxData w' = m_threadCtxData w -> m_threadCtx w' = m_threadCtx w -> threads_ok w'.
Proof.
  intros [Hm Hl Hc Hf Hcur] Et Et' Eid Efib E1 E2 E3 E4.
  split; rewrite ?E1, ?E2, ?E3, ?E4; auto.
  - intros x i Ei. destruct (Hm _ _ Ei) as (y & Ey & <-). rewrite Et'.
    destruct (decide (i = td)) as [-> | Hne].
    + exists t'. rewrite list_lookup_insert_eq by (now apply lookup_lt_Some in Et).
      simplify_eq. done.
    + exists y. now rewrite list_lookup_insert_ne.
  - intros i x g Ei Eg. rewrite Et' in *. rewrite length_insert.
    destruct (decide (i = td)) as [-> | Hne].
    + rewrite list_lookup_insert_eq in Ei by (now apply lookup_lt_Some in Et). simplify_eq.
      rewrite Efib in Eg. exact (Hf _ _ _ Et Eg).
    + rewrite list_lookup_insert_ne in Ei by done. exact (Hf _ _ _ Ei Eg).
Qed.

Lemma current_upd w w' td t t' :
  threads w !! td = Some t -> threads w' = <[td := t']> (threads w) -> fiber t' = fiber t ->
  m_threadCtxData w' = m_threadCtxData w -> current w' = current w.
Proof.
  intros Et Et' Ef Ec. unfold current. rewrite Ec, Et'.
  destruct (m_threadCtxData w) as [base |]; [| done]. simpl.
  destruct (decide (base = td)) as [-> | Hne].
  - rewrite list_lookup_insert_eq by (now apply lookup_lt_Some in Et). rewrite Et. simpl. now rewrite Ef.
  - now rewrite list_lookup_insert_ne.
Qed.

(** [TscTime] as a function of the state. *)
Definition time_of (w : W) (tsc : Z) : option Z :=
  trunc64 (dmul (double_of_Z (sint 64 (tsc - baseTime w))) (m_timerMul w)).

Lemma TscTime_wp tsc t w (Q : Z -> W -> Prop) :
  time_of w tsc = Some t -> Q t w -> wp (TscTime tsc) Q w.
Proof. intros E HQ. unfold TscTime. wp_steps. eapply wp_expect; [exact E | exact HQ]. Qed.

(** ** Source locations *)

(** The source location that the number [i] stands for. *)
Definition source_of (w : W) (i : Z) : option Z :=
  if 0 <=? i then sourceLocationExpand w !! Z.to_nat i else None.

(** A source location has at most one number, and the number stands for it. *)
Record srcs_ok (w : W) : Prop := {
  so_shrink : forall s i, m_sourceLocationShrink w !! s = Some i ->
    in_sint 16 i /\ is_Some (sourceLocationZones w !! i) /\ source_of w i = Some s;
  so_last : fst (shrinkSrclocLast w) = max_u64 \/
    is_Some (sourceLocationZones w !! sint 16 (snd (shrinkSrclocLast w))) /\
    source_of w (sint 16 (snd (shrinkSrclocLast w))) = Some (fst (shrinkSrclocLast w));
  so_zones : match snd (srclocZonesLast w) with
             | Some key => key = sint 16 (fst (srclocZonesLast w)) /\
                           is_Some (sourceLocationZones w !! key)
             | None => fst (srclocZonesLast w) = 0
             end;
  so_zero : sourceLocationZones w !! 0 = None;
  so_expand : sourceLocationExpand w <> [];
  so_payload : m_pendingSourceLocationPayload w <> 0 ->
    in_sint 16 (m_pendingSourceLocationPayload w) /\
    is_Some (sourceLocationZones w !! m_pendingSourceLocationPayload w) }.

Lemma srcs_ok_frame w w' :
  srcs_ok w -> m_sourceLocationShrink w' = m_sourceLocationShrink w ->
  sourceLocationZones w' = sourceLocationZones w -> shrinkSrclocLast w' = shrinkSrclocLast w ->
  srclocZonesLast w' = srclocZonesLast w -> sourceLocationExpand w' = sourceLocationExpand w ->
  m_pendingSourceLocationPayload w' = m_pendingSourceLocationPayload w -> srcs_ok w'.
Proof.
  intros [? ? ? ? ? ?] E1 E2 E3 E4 E5 E6. unfold source_of in *.
  split; unfold source_of; rewrite ?E1, ?E2, ?E3, ?E4, ?E5, ?E6; auto.
Qed.

Definition checked_srcloc (w w' : W) : Prop :=
  let erase w := w <| m_failure := NoFailure |> <| m_failureData := mkFailureData 0 0 0 [] |>
    <| m_serverQueryQueuePrio := [] |> <| checkSrclocLast := 0 |> <| sourceLocation := ∅ |>
    <| m_pendingSourceLocation := 0 |> <| m_sourceLocationQueue := [] |> in
  erase w' = erase w.

Lemma CheckSourceLocation_spec ptr w :
  wp (CheckSourceLocation ptr) (fun _ w' => checked_srcloc w w' /\
    (Z.of_nat (size (sourceLocation w)) <= int16_max -> m_failure w' = m_failure w)) w.
Proof.
  unfold CheckSourceLocation, checked_srcloc. wp_steps. destruct (_ =? _) eqn:E; wp_steps; [done |].
  change (sourceLocation (w <| checkSrclocLast := ptr |>)) with (sourceLocation w).
  destruct (sourceLocation w !! ptr) as [sl |] eqn:Es; wp_steps.
  { split; [erased | done]. }
  unfold NewSourceLocation. wp_steps.
  change (sourceLocation (w <| checkSrclocLast := ptr |>)) with (sourceLocation w).
  destruct (Z.ltb_spec int16_max (Z.of_nat (size (sourceLocation w)))).
  - unfold SourceLocationOverflowFailure, set_failure. wp_steps.
    split; [erased | lia].
  - unfold Query. cbn [IsQueryPrio ServerQuery_idx Z.ltb Z.compare]. wp_steps.
    split; [erased | done].
Qed.

Definition shrunk (w w' : W) : Prop :=
  let erase w := w <| sourceLocationExpand := [] |> <| sourceLocationZones := ∅ |>
    <| srclocZonesLast := (0, None) |> <| m_sourceLocationShrink := ∅ |>
    <| shrinkSrclocLast := (0, 0) |> in
  erase w' = erase w /\
  forall k s, sourceLocationZones w !! k = Some s -> sourceLocationZones w' !! k = Some s.

Lemma ShrinkSourceLocation_spec srcloc w :
  srcs_ok w -> srcloc <> max_u64 ->
  Z.of_nat (length (sourceLocationExpand w)) + 1 < int16_max ->
  wp (ShrinkSourceLocation srcloc) (fun r w' => srcs_ok w' /\ shrunk w w' /\ in_sint 16 r /\
    is_Some (sourceLocationZones w' !! r) /\ source_of w' r = Some srcloc) w.
Proof.
  intros [Hs Hl Hz H0 He Hp] Hmax Hlen. unfold ShrinkSourceLocation. wp_steps.
  destruct (Z.eqb_spec (fst (shrinkSrclocLast w)) srcloc) as [E | E].
  { wp_steps. split; [now split |]. split; [| split; [apply sint_range; lia |]].
    - done.
    - destruct Hl as [Hl | [Hl Hl']]; [congruence |]. split; [exact Hl | congruence]. }
  unfold ShrinkSourceLocationReal. wp_steps.
  destruct (m_sourceLocationShrink w !! srcloc) as [i |] eqn:Ei.
  { destruct (Hs _ _ Ei) as (Hr & Hi & Hso). wp_steps. split; [split; try done; cbn |].
    - right. now rewrite sint_small by (auto; lia).
    - split; [split; [erased | done] |]. done. }
  unfold NewShrinkedSourceLocation, int16_max in *.
  assert (Hne : length (sourceLocationExpand w) <> 0%nat) by (destruct (sourceLocationExpand w); done).
  wp_steps.
  destruct (Z.eqb_spec (Z.of_nat (length (sourceLocationExpand w)) + 1) (2 ^ 15 - 1)); [lia |].
  wp_steps. set (sz := sint 16 (Z.of_nat (length (sourceLocationExpand w)))).
  assert (Esz : sz = Z.of_nat (length (sourceLocationExpand w)))
    by (apply sint_small; [lia |]; red; lia).
  assert (Hin : forall k s, sourceLocationZones w !! k = Some s ->
    emplace sz new_SourceLocationZones (sourceLocationZones w) !! k = Some s).
  { intros k s Hk. unfold emplace. destruct (sourceLocationZones w !! sz) eqn:Esz'; [done |].
    rewrite lookup_insert_ne; [done |]. intros <-. congruence. }
  assert (Hsz : is_Some (emplace sz new_SourceLocationZones (sourceLocationZones w) !! sz)).
  { unfold emplace. destruct (sourceLocationZones w !! sz) eqn:Esz'; [now rewrite Esz' |].
    rewrite lookup_insert_eq. eauto. }
  assert (Hr : in_sint 16 sz) by (apply sint_range; lia).
  set (w' := over shrinkSrclocLast _ _).
  assert (Hnew : source_of w' sz = Some srcloc).
  { unfold source_of. rewrite Esz, (proj2 (Z.leb_le _ _)), Nat2Z.id by lia. now apply list_lookup_middle. }
  assert (Hold : forall i s, source_of w i = Some s -> source_of w' i = Some s).
  { intros i s. unfold source_of. destruct (0 <=? i); [| done]. intros E'. now apply lookup_app_l_Some. }
  split; [| split; [| done]].
  - split; cbn -[source_of].
    + intros s i. unfold emplace at 1. rewrite Ei.
      intros [[<- <-] | [_ E']]%lookup_insert_some; [exact (conj Hr (conj Hsz Hnew)) |].
      destruct (Hs _ _ E') as (? & [z Ez] & Hso). split; [done |].
      split; [rewrite (Hin _ _ Ez); eauto | exact (Hold _ _ Hso)].
    + right. now rewrite sint_small by (auto; lia).
    + rewrite sint_uint, sint_small by (auto; lia). done.
    + unfold emplace. destruct (sourceLocationZones w !! sz); [done |].
      rewrite lookup_insert_ne; [done | lia].
    + now destruct (sourceLocationExpand w).
    + intros Hpp. destruct (Hp Hpp) as [? [z Ez]]. split; [done |]. rewrite (Hin _ _ Ez). eauto.
  - split; [erased | exact Hin].
Qed.

Lemma GetSourceLocationZones_spec srcloc w :
  srcs_ok w -> in_sint 16 srcloc -> is_Some (sourceLocationZones w !! srcloc) ->
  wp (GetSourceLocationZones (uint 16 srcloc)) (fun key w' => key = srcloc /\
    w' = w <| srclocZonesLast := (uint 16 srcloc, Some srcloc) |> /\ srcs_ok w') w.
Proof.
  intros Hok Hr Hi. assert (Hok' := Hok). destruct Hok' as [Hs Hl Hz H0 He Hp].
  assert (Es : sint 16 (uint 16 srcloc) = srcloc) by (rewrite sint_uint, sint_small; auto; lia).
  assert (Hnew : srcs_ok (w <| srclocZonesLast := (uint 16 srcloc, Some srcloc) |>)).
  { split; try done. }
  unfold GetSourceLocationZones. wp_steps.
  destruct (Z.eqb_spec (fst (srclocZonesLast w)) (uint 16 srcloc)) as [E | E].
  - destruct (srclocZonesLast w) as [k [key |]] eqn:El; cbn in *.
    + destruct Hz as [-> Hz]. subst k. rewrite Es in *.
      split; [done |]. split; [| done].
      rewrite <- El. destruct w; reflexivity.
    + rewrite Hz in E. rewrite <- E in Es. change (sint 16 0) with 0 in Es. subst srcloc.
      rewrite H0 in Hi. now destruct Hi.
  - unfold GetSourceLocationZonesReal. rewrite Es. wp_steps.
    + apply bool_decide_eq_true. exact Hi.
    + done.
Qed.
