(* ===== verification/ServerZone.v ===== *)
(** * Zones: the handlers of the instrumented call tree

    A client thread reports where zones begin and end; the server builds the tree
    of zones: [timeline] of a thread holds its outermost zones, [zoneChildren] the
    child lists, indexed by the child index packed in the parent, and the stacks of
    the thread the open zones, their validation numbers and the time spent in their
    children.  The theorem says that this representation always holds the call
    forest, whichever threads the events belong to. *)
From S2P Require Import Prelude Double Queue Wire Event Containers Discovery Trace Server.

(** ** Handlers *)
Definition GetZone (zone : nat) : M W ZoneEvent.t :=
  h ← gets zone_heap; expect (h !! zone).
Definition SetZone (zone : nat) (z : ZoneEvent.t) : M W unit :=
  modify (fun w => w <| zone_heap ::= <[zone := z]> |>).
(** [zone->Set...( ... )], with the assertion of the setter. *)
Definition UpdZone (zone : nat) (f : ZoneEvent.t -> option ZoneEvent.t) : M W unit :=
  z ← GetZone zone; z ← expect (f z); SetZone zone z.

Section Handlers.
Context `{Slab}.

(* TracyWorker.cpp:4978-4995 *)
Definition AllocZoneEvent : M W nat :=
  h ← gets zone_heap;
  let n := length h in
  modify (fun w => w <| zone_heap ::= (fun l => l ++ [(junk n) <| ZoneEvent.extra := 0 |>]) |>);;
  mret n.

(* TracyEvent.hpp:724-724 *)
Definition IncStackCount (srcloc : Z) (m : gmap Z Z) : gmap Z Z :=
  let i := uint 16 srcloc in <[i := uint 8 (default 0 (m !! i) + 1)]> m.
(** The new array, and whether the count is not zero. *)
(* TracyEvent.hpp:725-725 *)
Definition DecStackCount (srcloc : Z) (m : gmap Z Z) : bool * gmap Z Z :=
  let i := uint 16 srcloc in
  let n := uint 8 (default 0 (m !! i) - 1) in
  (negb (n =? 0), <[i := n]> m).

(** The child list of the innermost open zone gets the new zone. *)
(* TracyWorker.cpp:3684-3707 NewZone *)
Definition NewZone_child (back zone : nat) : M W unit :=
  b ← GetZone back;
  if negb (ZoneEvent.HasChildren b) then
    ch ← gets zoneChildren;
    SetZone back (ZoneEvent.SetChild (sint 32 (Z.of_nat (length ch))) b);;
    cache ← gets zoneVectorCache;
    match last cache with
    | None => modify (fun w => w <| zoneChildren ::= (fun c => c ++ [Vector.make zone]) |>)
    | Some vze =>
        modify (fun w => w <| zoneVectorCache ::= (fun c => removelast c) |>);;
        assert_ (negb (Vector.m_size vze =? 0));;
        vze ← expect (Vector.clear vze);
        vze ← expect (Vector.push_back_non_empty zone vze);
        modify (fun w => w <| zoneChildren ::= (fun c => c ++ [vze]) |>)
    end
  else
    let backChild := Z.to_nat (ZoneEvent.Child b) in
    ch ← gets zoneChildren;
    c ← expect (ch !! backChild);
    assert_ (negb (Vector.m_size c =? 0));;
    c ← expect (Vector.push_back_non_empty zone c);
    modify (fun w => w <| zoneChildren ::= <[backChild := c]> |>).

(* TracyWorker.cpp:3671-3718 *)
Definition NewZone (zone : nat) : M W unit :=
  modify (fun w => w <| zonesCnt ::= (fun n => uint 64 (n + 1)) |>);;
  td ← GetCurrentThreadData;
  z ← GetZone zone;
  UpdThread td (fun t => t <| count ::= (fun n => uint 64 (n + 1)) |>
                           <| stackCount ::= IncStackCount (ZoneEvent.SrcLoc z) |>);;
  t ← GetThread td;
  match last (stack t) with
  | None => UpdThread td (fun t => t <| stack ::= (fun l => l ++ [zone]) |>
                                     <| timeline ::= (fun l => l ++ [zone]) |>)
  | Some back =>
      NewZone_child back zone;;
      UpdThread td (fun t => t <| stack ::= (fun l => l ++ [zone]) |>)
  end;;
  UpdThread td (fun t => t <| zoneIdStack ::= (fun l => l ++ [nextZoneId t]) |>
                           <| nextZoneId := 0 |>
                           <| childTimeStack ::= (fun l => l ++ [0]) |>).

(** [zone->SetStartSrcLoc( start, srcloc ); zone->SetEnd( -1 ); zone->SetChild( -1 );] *)
Definition init_zone (start srcloc : Z) (z : ZoneEvent.t) : option ZoneEvent.t :=
  z ← ZoneEvent.SetStartSrcLoc start srcloc z;
  z ← ZoneEvent.SetEnd (-1) z;
  Some (ZoneEvent.SetChild (-1) z).

(* TracyWorker.cpp:4948-4960 *)
Definition ProcessZoneBeginImpl (zone : nat) (time srcloc : Z) : M W unit :=
  CheckSourceLocation srcloc;;
  ref ← RefTime m_refTimeThread time;
  start ← TscTime ref;
  sl ← ShrinkSourceLocation srcloc;
  UpdZone zone (init_zone start sl);;
  touch_lastTime start;;
  NewZone zone.

(* TracyWorker.cpp:4962-4976 *)
Definition ProcessZoneBeginAllocSrcLocImpl (zone : nat) (time : Z) : M W unit :=
  p ← gets m_pendingSourceLocationPayload;
  assert_ (negb (p =? 0));;
  ref ← RefTime m_refTimeThread time;
  start ← TscTime ref;
  UpdZone zone (init_zone start p);;
  touch_lastTime start;;
  NewZone zone;;
  modify (fun w => w <| m_pendingSourceLocationPayload := 0 |>).

(* TracyWorker.cpp:4997-5001 *)
Definition ProcessZoneBegin (time srcloc : Z) : M W unit :=
  zone ← AllocZoneEvent; ProcessZoneBeginImpl zone time srcloc.
(** The offsets that the client subtracted are added back. *)
(* TracyWorker.cpp:5003-5008 ProcessZoneBegin64 *)
Definition unpack64 (time : Z) : Z :=
  if 0 <=? time then sint 64 (time + ProtocolOffset32Bit) else time.
(* TracyWorker.cpp:5003-5008 *)
Definition ProcessZoneBegin64 (time srcloc : Z) : M W unit := ProcessZoneBegin (unpack64 time) srcloc.
(* TracyWorker.cpp:5010-5017 *)
Definition ProcessZoneBegin32 (time srcloc : Z) : M W unit :=
  ProcessZoneBegin (sint 64 (time + ProtocolOffset16Bit)) srcloc.
(* TracyWorker.cpp:5019-5026 *)
Definition ProcessZoneBegin16 (time srcloc : Z) : M W unit := ProcessZoneBegin time srcloc.

(* TracyWorker.cpp:9019-9038 *)
Definition RequestZoneExtra (zone : nat) : M W nat :=
  z ← GetZone zone;
  if ZoneEvent.extra z =? 0 then
    ex ← gets zoneExtra;
    let n := uint 32 (Z.of_nat (length ex)) in
    SetZone zone (z <| ZoneEvent.extra := n |>);;
    modify (fun w => w <| zoneExtra ::= (fun l => l ++ [zero_extra]) |>);;
    mret (length ex)
  else mret (Z.to_nat (ZoneEvent.extra z)).
Definition UpdExtra (i : nat) (f : ZoneExtra -> ZoneExtra) : M W unit :=
  ex ← gets zoneExtra; e ← expect (ex !! i);
  modify (fun w => w <| zoneExtra ::= <[i := f e]> |>).

(** The call stack that was sent for the zone. *)
(* TracyWorker.cpp:5028-5038 ProcessZoneBeginCallstack *)
Definition attach_callstack (zone : nat) : M W unit :=
  td ← GetCurrentThreadData;
  t ← GetThread td;
  m ← gets m_nextCallstack;
  cs ← expect (m !! id t);
  e ← RequestZoneExtra zone;
  UpdExtra e (fun e => e <| ze_callstack ::= Int24.SetVal cs |>);;
  modify (fun w => w <| m_nextCallstack ::= <[id t := 0]> |>).
(* TracyWorker.cpp:5028-5038 *)
Definition ProcessZoneBeginCallstack (time srcloc : Z) : M W unit :=
  zone ← AllocZoneEvent;
  ProcessZoneBeginImpl zone time srcloc;;
  attach_callstack zone.
(* TracyWorker.cpp:5040-5045 *)
Definition ProcessZoneBeginCallstack64 (time srcloc : Z) : M W unit :=
  ProcessZoneBeginCallstack (unpack64 time) srcloc.
(* TracyWorker.cpp:5047-5054 *)
Definition ProcessZoneBeginCallstack32 (time srcloc : Z) : M W unit :=
  ProcessZoneBeginCallstack (sint 64 (time + ProtocolOffset16Bit)) srcloc.
(* TracyWorker.cpp:5056-5063 *)
Definition ProcessZoneBeginCallstack16 (time srcloc : Z) : M W unit :=
  ProcessZoneBeginCallstack time srcloc.
(* TracyWorker.cpp:5065-5069 *)
Definition ProcessZoneBeginAllocSrcLoc (time : Z) : M W unit :=
  zone ← AllocZoneEvent; ProcessZoneBeginAllocSrcLocImpl zone time.
(* TracyWorker.cpp:5071-5081 *)
Definition ProcessZoneBeginAllocSrcLocCallstack (time : Z) : M W unit :=
  zone ← AllocZoneEvent;
  ProcessZoneBeginAllocSrcLocImpl zone time;;
  attach_callstack zone.

(** The child list of a closed zone moves to a block of its size; the growing
    block is kept for reuse. *)
(* TracyWorker.cpp:5111-5136 ProcessZoneEnd *)
Definition fit_children (z : ZoneEvent.t) : M W unit :=
  if ZoneEvent.HasChildren z then
    let i := Z.to_nat (ZoneEvent.Child z) in
    ch ← gets zoneChildren;
    childVec ← expect (ch !! i);
    if Vector.m_size childVec <=? 8 * 1024 then
      fitVec ← expect (Vector.reserve_exact (Vector.items childVec) Vector.empty);
      modify (fun w => w <| zoneChildren ::= <[i := fitVec]> |>
                         <| zoneVectorCache ::= (fun c => c ++ [childVec]) |>)
    else mret tt
  else mret tt.

(** [ZtdSort]: zones in the order of their starts. *)
Definition ZtdSort (h : list ZoneEvent.t) (lhs rhs : ZoneThreadData) : bool :=
  let start z := match h !! Zone z with Some e => ZoneEvent.Start e | None => 0 end in
  start lhs <? start rhs.

(* TracyWorker.cpp:5149-5168 ProcessZoneEnd *)
Definition add_span (h : list ZoneEvent.t) (ztd : ZoneThreadData) (timeSpan selfSpan : Z)
    (isReentry : bool) (s : SourceLocationZones) : SourceLocationZones :=
  let s := s <| zones ::= SortedVector.push_back (ZtdSort h) ztd |>
             <| min ::= (fun m => if timeSpan <? m then timeSpan else m) |>
             <| max ::= (fun m => if m <? timeSpan then timeSpan else m) |>
             <| total ::= (fun t => sint 64 (t + timeSpan)) |>
             <| sumSq ::= (fun q =>
                  dadd q (dmul (double_of_Z timeSpan) (double_of_Z timeSpan))) |>
             <| selfMin ::= (fun m => if selfSpan <? m then selfSpan else m) |>
             <| selfMax ::= (fun m => if m <? selfSpan then selfSpan else m) |>
             <| selfTotal ::= (fun t => sint 64 (t + selfSpan)) |> in
  if isReentry then s else
  s <| nonReentrantCount ::= (fun n => uint 64 (n + 1)) |>
    <| nonReentrantMin ::= (fun m => if timeSpan <? m then timeSpan else m) |>
    <| nonReentrantMax ::= (fun m => if m <? timeSpan then timeSpan else m) |>
    <| nonReentrantTotal ::= (fun t => sint 64 (t + timeSpan)) |>.

(* TracyWorker.cpp:5173-5181 ProcessZoneEnd *)
Definition count_thread (ctid : Z) (s : SourceLocationZones) : SourceLocationZones :=
  s <| threadCnt ::= (fun m => <[ctid := match m !! ctid with
         | None => 1 | Some n => uint 64 (n + 1) end]> m) |>.

(* TracyWorker.cpp:5138-5183 ProcessZoneEnd *)
Definition zone_statistics (td : nat) (zone : nat) (timeEnd : Z) (isReentry : bool) : M W unit :=
  t ← GetThread td; z ← GetZone zone;
  childTime ← expect (last (childTimeStack t));
  let timeSpan := sint 64 (timeEnd - ZoneEvent.Start z) in
  if 0 <? timeSpan then
    ctid ← CompressThread (id t);
    key ← GetSourceLocationZones (uint 16 (ZoneEvent.SrcLoc z));
    slz ← gets (fun w => sourceLocationZones w !! key);
    slz ← expect slz;
    h ← gets zone_heap;
    let selfSpan := sint 64 (timeSpan - childTime) in
    UpdThread td (fun t => t <| childTimeStack ::= (fun l =>
      match last (removelast l) with
      | Some parent => set_back (sint 64 (parent + timeSpan)) (removelast l)
      | None => removelast l
      end) |>);;
    modify (fun w => w <| sourceLocationZones ::=
      <[key := count_thread ctid (add_span h (mkZtd zone ctid) timeSpan selfSpan isReentry slz)]> |>)
  else UpdThread td (fun t => t <| childTimeStack ::= (fun l => removelast l) |>).

(* TracyWorker.cpp:5083-5187 *)
Definition ProcessZoneEnd (time : Z) : M W unit :=
  td ← GetCurrentThreadData;
  t ← GetThread td;
  h ← gets zone_heap;
  match last (zoneIdStack t) with
  | None =>
      z ← match last (timeline t) with
          | None => mret None | Some z => z ← GetZone z; mret (Some z) end;
      ZoneDoubleEndFailure (id t) z
  | Some zoneId =>
      UpdThread td (fun t => t <| zoneIdStack ::= (fun l => removelast l) |>);;
      if negb (zoneId =? nextZoneId t) then
        zone ← expect (last (stack t));
        z ← GetZone zone;
        ZoneStackFailure (id t) z
      else
        UpdThread td (fun t => t <| nextZoneId := 0 |>);;
        zone ← expect (last (stack t));
        UpdThread td (fun t => t <| stack ::= (fun l => removelast l) |>);;
        z ← GetZone zone;
        assert_ (ZoneEvent.End_ z =? -1);;
        let r := DecStackCount (ZoneEvent.SrcLoc z) (stackCount t) in
        UpdThread td (fun t => t <| stackCount := snd r |>);;
        ref ← RefTime m_refTimeThread time;
        timeEnd ← TscTime ref;
        UpdZone zone (ZoneEvent.SetEnd timeEnd);;
        assert_ (ZoneEvent.Start z <=? timeEnd);;
        touch_lastTime timeEnd;;
        z ← GetZone zone;
        fit_children z;;
        zone_statistics td zone timeEnd (fst r)
  end.

(* TracyWorker.cpp:5189-5194 *)
Definition ProcessZoneEnd64 (time : Z) : M W unit := ProcessZoneEnd (unpack64 time).
(* TracyWorker.cpp:5196-5200 *)
Definition ProcessZoneEnd32 (time : Z) : M W unit :=
  ProcessZoneEnd (sint 64 (time + ProtocolOffset16Bit)).
(* TracyWorker.cpp:5202-5206 *)
Definition ProcessZoneEnd16 (time : Z) : M W unit := ProcessZoneEnd time.

(* TracyWorker.cpp:5297-5301 *)
Definition ProcessZoneValidation (zid : Z) : M W unit :=
  td ← GetCurrentThreadData; UpdThread td (fun t => t <| nextZoneId := zid |>).

(** The guard of the handlers that decorate the innermost open zone of the current
    thread; [Some zone] consumes the validation number. *)
(* TracyWorker.cpp:5527-5542 ProcessZoneName *)
Definition decorated_zone (failure : Z -> M W unit) : M W (option nat) :=
  ctx ← gets m_threadCtx;
  p ← RetrieveThread ctx;
  match p with
  | None => failure ctx;; mret None
  | Some td =>
      t ← GetThread td;
      let td := match fiber t with Some f => f | None => td end in
      t ← GetThread td;
      match last (stack t), last (zoneIdStack t) with
      | None, _ => failure (id t);; mret None
      | Some _, None => stop
      | Some zone, Some zid =>
          if nextZoneId t =? zid then
            UpdThread td (fun t => t <| nextZoneId := 0 |>);; mret (Some zone)
          else failure (id t);; mret None
      end
  end.
(* TracyWorker.cpp:5525-5545 *)
Definition ProcessZoneName : M W unit :=
  r ← decorated_zone ZoneNameFailure;
  match r with
  | None => mret tt
  | Some zone =>
      e ← RequestZoneExtra zone;
      i ← GetSingleStringIdx;
      UpdExtra e (fun e => e <| ze_name := StringIdx.SetIdx i |>)
  end.
(* TracyWorker.cpp:5547-5568 *)
Definition ProcessZoneColor (b g r : Z) : M W unit :=
  p ← decorated_zone ZoneColorFailure;
  match p with
  | None => mret tt
  | Some zone =>
      e ← RequestZoneExtra zone;
      let color := Z.lor (Z.lor (Z.shiftl b 16) (Z.shiftl g 8)) r in
      UpdExtra e (fun e => e <| ze_color := Int24.make color |>)
  end.

(** The text of a zone, after what it already has and a new line. *)
(* TracyWorker.cpp:5499-5522 ProcessZoneText *)
Definition append_text (e : nat) (text : list Z) (idx : M W Z) : M W unit :=
  ex ← gets zoneExtra; x ← expect (ex !! e);
  if negb (StringIdx.Active (ze_text x)) then
    i ← idx; UpdExtra e (fun x => x <| ze_text := StringIdx.SetIdx i |>)
  else
    str0 ← expect (StringIdx.Idx (ze_text x));
    d ← gets stringData;
    str0 ← expect (d !! Z.to_nat str0);
    i ← StoreString (c_str str0 ++ [10] ++ text);
    UpdExtra e (fun x => x <| ze_text := StringIdx.SetIdx i |>).

(* TracyWorker.cpp:5478-5523 *)
Definition ProcessZoneText : M W unit :=
  ptr ← gets m_pendingSingleString;
  d ← gets stringData;
  let text := match ptr with Some i => c_str (nth (Z.to_nat i) d []) | None => [] end in
  p ← decorated_zone (fun thread => ZoneTextFailure thread text);
  match p with
  | None => mret tt
  | Some zone =>
      idx ← GetSingleStringIdx;
      e ← RequestZoneExtra zone;
      append_text e text (mret idx)
  end.
(* TracyWorker.cpp:5570-5613 *)
Definition ProcessZoneValue (value : Z) : M W unit :=
  let tmp := print_u64 value ++ ascii " [0x" ++ print_x64 value ++ ascii "]" in
  p ← decorated_zone (fun thread => ZoneValueFailure thread value);
  match p with
  | None => mret tt
  | Some zone =>
      e ← RequestZoneExtra zone;
      append_text e tmp (StoreString tmp)
  end.
End Handlers.
