(* ===== verification/ZoneSpec.v ===== *)
(** * Zones: the call forest

    The specification of the zone handlers: a thread is a forest of finished zones
    and the stack of its open zones, each with its finished children.  Beginning a
    zone pushes it, ending one pops it and makes it the last child of the next.
    [R] relates the server's packed representation (addresses, child indices,
    three parallel stacks) to these forests. *)
From S2P Require Import Prelude Double Queue Wire Event Containers Discovery Trace Server ServerSpec ServerZone.

(** ** Forests *)
Inductive tree : Type := Node (z : nat) (kids : list tree).
Definition root (t : tree) : nat := match t with Node z _ => z end.
Definition kids (t : tree) : list tree := match t with Node _ ks => ks end.

Section tree_ind.
Context (P : tree -> Prop) (HN : forall z ks, Forall P ks -> P (Node z ks)).
Fixpoint tree_ind' (t : tree) : P t :=
  match t with
  | Node z ks => HN z ks ((fix all (l : list tree) : Forall P l :=
      match l with [] => Forall_nil_2 P | k :: l => Forall_cons_2 P k l (tree_ind' k) (all l) end) ks)
  end.
End tree_ind.

Fixpoint ids (t : tree) : list nat :=
  match t with Node z ks => z :: concat (map ids ks) end.
Definition ids_of (ts : list tree) : list nat := concat (map ids ts).

(** A thread: the finished outermost zones, and the open zones from the innermost
    out. *)
Record AThread := mkA { closed : list tree; opened : list (nat * list tree) }.
Definition no_zones : AThread := mkA [] [].

Definition abegin (z : nat) (a : AThread) : AThread := mkA (closed a) ((z, []) :: opened a).
Definition aend (a : AThread) : AThread :=
  match opened a with
  | [] => a
  | [(z, ks)] => mkA (closed a ++ [Node z ks]) []
  | (z, ks) :: (p, pks) :: o => mkA (closed a) ((p, pks ++ [Node z ks]) :: o)
  end.

Definition open_ids (o : list (nat * list tree)) : list nat :=
  concat (map (fun '(z, ks) => z :: ids_of ks) o).
Definition all_ids (a : AThread) : list nat := ids_of (closed a) ++ open_ids (opened a).

Lemma opened_in_use a z : z ∈ map fst (opened a) -> z ∈ all_ids a.
Proof.
  unfold all_ids. rewrite elem_of_app. intros Hz. right. unfold open_ids.
  induction (opened a) as [| [z' ks] o IH]; [done |]. cbn in *.
  rewrite elem_of_cons, elem_of_app in *. destruct Hz as [-> | Hz]; auto.
Qed.

(** ** What the server stores about a zone *)
Record info := mkInfo { i_kids : list nat; i_start : Z; i_end : Z }.

Fixpoint tree_rep (I : nat -> info) (t : tree) : Prop :=
  match t with
  | Node z ks => i_kids (I z) = map root ks /\
      (fix all (l : list tree) : Prop :=
         match l with [] => True | k :: l => tree_rep I k /\ all l end) ks
  end.

Lemma tree_rep_Node I z ks :
  tree_rep I (Node z ks) <-> i_kids (I z) = map root ks /\ Forall (tree_rep I) ks.
Proof.
  cbn [tree_rep]. apply and_iff_compat_l. induction ks as [| k ks IH]; [split; constructor |].
  rewrite IH, Forall_cons. done.
Qed.

(** The open zones; [next] is the child that is not finished yet. *)
Fixpoint open_rep (I : nat -> info) (next : list nat) (o : list (nat * list tree)) : Prop :=
  match o with
  | [] => True
  | (z, ks) :: o =>
      i_kids (I z) = map root ks ++ next /\ Forall (tree_rep I) ks /\ open_rep I [z] o
  end.

Definition span (I : nat -> info) (t : tree) : Z := Z.max 0 (i_end (I (root t)) - i_start (I (root t))).
Definition spans (I : nat -> info) (ts : list tree) : Z := fold_right (fun t n => span I t + n) 0 ts.

Definition outermost (o : list (nat * list tree)) : list nat :=
  match last o with Some (z, _) => [z] | None => [] end.

Record rep_thread (I : nat -> info) (t : ThreadData) (a : AThread) : Prop := {
  rt_timeline : timeline t = map root (closed a) ++ outermost (opened a);
  rt_stack : stack t = rev (map fst (opened a));
  rt_ids : length (zoneIdStack t) = length (opened a);
  rt_times : childTimeStack t = rev (map (fun '(_, ks) => sint 64 (spans I ks)) (opened a));
  rt_closed : Forall (tree_rep I) (closed a);
  rt_open : open_rep I [] (opened a) }.

(** The representation of a forest depends on its zones only. *)
Lemma tree_rep_ext I I' t :
  (forall z, z ∈ ids t -> I' z = I z) -> tree_rep I t -> tree_rep I' t.
Proof.
  induction t as [z ks IH] using tree_ind'. intros HI. rewrite !tree_rep_Node. intros [Hk Hf].
  split; [rewrite HI by (cbn; left); exact Hk |].
  assert (HI' : forall z', z' ∈ concat (map ids ks) -> I' z' = I z') by (intros; apply HI; cbn; now right).
  clear Hk HI. induction Hf as [| k ks Hk Hf IHf]; [constructor |].
  inversion_clear IH as [| ? ? IHk IHks]. simpl in HI'. constructor.
  - apply IHk; [| exact Hk]. intros; apply HI'. rewrite elem_of_app. auto.
  - apply IHf; [exact IHks |]. intros; apply HI'. rewrite elem_of_app. auto.
Qed.

Lemma forest_rep_ext I I' ts :
  (forall z, z ∈ ids_of ts -> I' z = I z) -> Forall (tree_rep I) ts -> Forall (tree_rep I') ts.
Proof.
  intros HI Hf. induction Hf as [| t ts Ht Hf IH]; [constructor |].
  unfold ids_of in HI. simpl in HI. constructor.
  - apply (tree_rep_ext I); [| exact Ht]. intros; apply HI. rewrite elem_of_app. auto.
  - apply IH. intros; apply HI. rewrite elem_of_app. auto.
Qed.

Lemma root_ids t : root t ∈ ids t.
Proof. destruct t; cbn; left. Qed.

Lemma spans_ext I I' ts :
  (forall z, z ∈ ids_of ts -> I' z = I z) -> spans I' ts = spans I ts.
Proof.
  intros HI. induction ts as [| t ts IH]; [done |]. unfold ids_of in HI. simpl in *.
  rewrite IH by (intros; apply HI; rewrite elem_of_app; auto). unfold span.
  rewrite HI; [done |]. rewrite elem_of_app. left. apply root_ids.
Qed.

Lemma open_rep_ext I I' next o :
  (forall z, z ∈ open_ids o -> I' z = I z) -> open_rep I next o -> open_rep I' next o.
Proof.
  revert next. induction o as [| [z ks] o IH]; intros next HI; [done |].
  unfold open_ids in HI. simpl in HI. intros (Hk & Hf & Ho). simpl. split_and!.
  - rewrite HI by left. exact Hk.
  - apply (forest_rep_ext I); [| done]. intros; apply HI. right. rewrite elem_of_app. auto.
  - apply IH; [| done]. intros; apply HI. right. rewrite elem_of_app. auto.
Qed.

Lemma open_times_ext I I' o :
  (forall z, z ∈ open_ids o -> I' z = I z) ->
  map (fun '(_, ks) => sint 64 (spans I' ks)) o = map (fun '(_, ks) => sint 64 (spans I ks)) o.
Proof.
  induction o as [| [z ks] o IH]; intros HI; [done |]. unfold open_ids in HI. simpl in *.
  f_equal; [| apply IH; intros; apply HI; right; rewrite elem_of_app; auto].
  f_equal. apply spans_ext. intros; apply HI. right. rewrite elem_of_app. auto.
Qed.

Lemma rep_thread_ext I I' t a :
  (forall z, z ∈ all_ids a -> I' z = I z) -> rep_thread I t a -> rep_thread I' t a.
Proof.
  intros HI [H1 H2 H3 H4 H5 H6]. unfold all_ids in HI.
  assert (Hc : forall z, z ∈ ids_of (closed a) -> I' z = I z)
    by (intros; apply HI; rewrite elem_of_app; auto).
  assert (Ho : forall z, z ∈ open_ids (opened a) -> I' z = I z)
    by (intros; apply HI; rewrite elem_of_app; auto).
  split; auto.
  - now rewrite (open_times_ext _ _ _ Ho).
  - exact (forest_rep_ext _ _ _ Hc H5).
  - exact (open_rep_ext _ _ _ _ Ho H6).
Qed.

(** ** The steps *)
Lemma all_ids_abegin z a : Permutation (all_ids (abegin z a)) (z :: all_ids a).
Proof. unfold all_ids, abegin. cbn. now rewrite <- Permutation_middle. Qed.

Lemma ids_of_app l1 l2 : ids_of (l1 ++ l2) = ids_of l1 ++ ids_of l2.
Proof. unfold ids_of. now rewrite map_app, concat_app. Qed.

Lemma ids_of_Node z ks : ids_of [Node z ks] = z :: ids_of ks.
Proof. unfold ids_of. cbn. now rewrite app_nil_r. Qed.

Lemma all_ids_aend a : Permutation (all_ids (aend a)) (all_ids a).
Proof.
  unfold all_ids, aend. destruct a as [c [| [z ks] [| [p pks] o]]]; cbn [opened closed]; [done | |].
  - rewrite ids_of_app, ids_of_Node. unfold open_ids. cbn. now rewrite !app_nil_r.
  - apply Permutation_app_head. unfold open_ids. cbn. rewrite ids_of_app, ids_of_Node.
    rewrite <- app_assoc. cbn. rewrite (Permutation_app_comm (ids_of ks)).
    rewrite Permutation_middle. rewrite <- (Permutation_middle _ _ p).
    rewrite <- Permutation_middle. solve_Permutation.
Qed.

(** [J] agrees with [I] on the zones of [a] but for [z]. *)
Definition same_but (I J : nat -> info) (a : AThread) (z : nat) : Prop :=
  forall z', z' ∈ all_ids a -> z' <> z -> J z' = I z'.

Lemma NoDup_parts a z ks o :
  opened a = (z, ks) :: o -> NoDup (all_ids a) ->
  (z ∉ ids_of (closed a)) /\ (z ∉ ids_of ks) /\ (z ∉ open_ids o).
Proof.
  unfold all_ids. intros -> Hnd. cbn in Hnd. change (open_ids ((z, ks) :: o)) with
    (z :: ids_of ks ++ open_ids o) in Hnd.
  rewrite <- Permutation_middle, NoDup_cons, !elem_of_app in Hnd. destruct Hnd as [H _]. tauto.
Qed.

Lemma same_but_parts I J a z ks o :
  opened a = (z, ks) :: o -> NoDup (all_ids a) -> same_but I J a z ->
  (forall z', z' ∈ ids_of (closed a) -> J z' = I z') /\
  (forall z', z' ∈ ids_of ks -> J z' = I z') /\ (forall z', z' ∈ open_ids o -> J z' = I z').
Proof.
  intros Ho Hnd Hs. destruct (NoDup_parts _ _ _ _ Ho Hnd) as (H1 & H2 & H3).
  unfold same_but, all_ids in Hs. rewrite Ho in Hs.
  change (open_ids ((z, ks) :: o)) with (z :: ids_of ks ++ open_ids o) in Hs.
  split_and!; intros z' Hz'; apply Hs; rewrite ?elem_of_app, ?elem_of_cons, ?elem_of_app; auto;
    intros ->; contradiction.
Qed.

Lemma outermost_cons x o : o <> [] -> outermost (x :: o) = outermost o.
Proof. unfold outermost. destruct o; done. Qed.

Lemma abegin_rep I J t t' a zone :
  rep_thread I t a -> NoDup (all_ids a) -> i_kids (J zone) = [] ->
  match opened a with
  | [] => (forall z, z ∈ all_ids a -> J z = I z) /\ timeline t' = timeline t ++ [zone]
  | (back, _) :: _ => same_but I J a back /\ i_kids (J back) = i_kids (I back) ++ [zone] /\
      timeline t' = timeline t
  end ->
  stack t' = stack t ++ [zone] -> length (zoneIdStack t') = S (length (zoneIdStack t)) ->
  childTimeStack t' = childTimeStack t ++ [0] ->
  rep_thread J t' (abegin zone a).
Proof.
  intros [H1 H2 H3 H4 H5 H6] Hnd Hz Ho Hst Hid Hct. destruct (opened a) as [| [back ks] o] eqn:Eo.
  - destruct Ho as [HI Ht]. unfold all_ids in HI. rewrite Eo in HI. unfold open_ids in HI. cbn in HI.
    rewrite app_nil_r in HI. unfold abegin. rewrite Eo. split; cbn.
    + rewrite Ht, H1. cbn. now rewrite app_nil_r.
    + now rewrite Hst, H2.
    + now rewrite Hid, H3.
    + now rewrite Hct, H4.
    + exact (forest_rep_ext _ _ _ HI H5).
    + rewrite Hz. split_and!; auto.
  - destruct Ho as (HI & Hb & Ht).
    destruct (same_but_parts _ _ _ _ _ _ Eo Hnd HI) as (S1 & S2 & S3).
    destruct H6 as (K1 & K2 & K3). unfold abegin. rewrite Eo. split; cbn [opened closed].
    + now rewrite Ht, H1, (outermost_cons (zone, [])).
    + rewrite Hst, H2. done.
    + rewrite Hid, H3. done.
    + rewrite Hct, H4. cbn. rewrite (open_times_ext _ _ _ S3), (spans_ext _ _ _ S2). done.
    + exact (forest_rep_ext _ _ _ S1 H5).
    + cbn. rewrite Hz, Hb, K1. split_and!; auto; [now rewrite <- app_assoc | |].
      * exact (forest_rep_ext _ _ _ S2 K2).
      * exact (open_rep_ext _ _ _ _ S3 K3).
Qed.

(** What the end of a zone does to the times spent in children. *)
Definition end_times (timeSpan : Z) (l : list Z) : list Z :=
  if 0 <? timeSpan then
    match last (removelast l) with
    | Some parent => set_back (sint 64 (parent + timeSpan)) (removelast l)
    | None => removelast l
    end
  else removelast l.

Lemma spans_app I l1 l2 : spans I (l1 ++ l2) = spans I l1 + spans I l2.
Proof. induction l1; simpl; lia. Qed.

Lemma sint_add (w a b : Z) : 0 < w -> sint w (sint w a + b) = sint w (a + b).
Proof.
  intros Hw. apply sint_mod_eq. unfold uint.
  rewrite Zplus_mod. fold (uint w (sint w a)). rewrite uint_sint by lia. unfold uint.
  now rewrite <- Zplus_mod.
Qed.

Lemma aend_rep I J t t' a z ks o :
  opened a = (z, ks) :: o -> rep_thread I t a -> NoDup (all_ids a) ->
  same_but I J a z -> i_kids (J z) = i_kids (I z) ->
  timeline t' = timeline t -> stack t' = removelast (stack t) ->
  length (zoneIdStack t') = pred (length (zoneIdStack t)) ->
  childTimeStack t' = end_times (i_end (J z) - i_start (J z)) (childTimeStack t) ->
  rep_thread J t' (aend a).
Proof.
  intros Eo [H1 H2 H3 H4 H5 H6] Hnd HI Hk Ht Hst Hid Hct.
  destruct (same_but_parts _ _ _ _ _ _ Eo Hnd HI) as (S1 & S2 & S3).
  rewrite Eo in *. destruct H6 as (K1 & K2 & K3). unfold aend. rewrite Eo.
  assert (HN : tree_rep J (Node z ks)).
  { apply tree_rep_Node. rewrite Hk, K1, app_nil_r. split; [done |].
    exact (forest_rep_ext _ _ _ S2 K2). }
  assert (HC := forest_rep_ext _ _ _ S1 H5).
  cbn [map rev] in H2, H4. unfold end_times in Hct. rewrite H4, removelast_snoc in Hct.
  rewrite H2, removelast_snoc in Hst. rewrite H3 in Hid. cbn in Hid.
  destruct o as [| [p pks] o].
  - split; cbn.
    + rewrite Ht, H1, map_app, app_nil_r. done.
    + exact Hst.
    + exact Hid.
    + rewrite Hct. cbn. now destruct (0 <? _).
    + apply Forall_app. auto.
    + done.
  - destruct K3 as (P1 & P2 & P3).
    assert (Sp : forall z', z' ∈ ids_of pks -> J z' = I z').
    { intros z' Hz'. apply S3. right. apply elem_of_app. auto. }
    assert (So : forall z', z' ∈ open_ids o -> J z' = I z').
    { intros z' Hz'. apply S3. right. apply elem_of_app. auto. }
    split; cbn [opened closed].
    + rewrite Ht, H1. unfold outermost. destruct o as [| [q qks] o']; done.
    + rewrite Hst. done.
    + exact Hid.
    + rewrite Hct. cbn [map rev]. rewrite (open_times_ext _ _ _ So), spans_app, (spans_ext _ _ _ Sp).
      cbn [spans fold_right]. unfold span at 1. cbn [root].
      rewrite last_snoc. unfold set_back. rewrite removelast_snoc.
      destruct (Z.ltb_spec 0 (i_end (J z) - i_start (J z))).
      * rewrite sint_add by lia. do 4 f_equal. lia.
      * do 4 f_equal. lia.
    + exact HC.
    + cbn. rewrite S3, P1, map_app by (cbn; left). split_and!.
      * now rewrite app_nil_r.
      * apply Forall_app. split; [| auto]. exact (forest_rep_ext _ _ _ Sp P2).
      * exact (open_rep_ext _ _ _ _ So P3).
Qed.

(** ** The relation *)
Definition child_vec (w : W) (e : ZoneEvent.t) : option (Vector.t nat) :=
  if ZoneEvent.HasChildren e then zoneChildren w !! Z.to_nat (ZoneEvent.Child e) else None.
Definition kids_of (w : W) (e : ZoneEvent.t) : list nat :=
  match child_vec w e with Some v => Vector.items v | None => [] end.
Definition zinfo (w : W) (z : nat) : info :=
  match zone_heap w !! z with
  | Some e => mkInfo (kids_of w e) (ZoneEvent.Start e) (ZoneEvent.End_ e)
  | None => mkInfo [] 0 0
  end.

Definition growing (v : Vector.t nat) : Prop :=
  Vector.fixed v = false /\ Vector.ok v /\ Vector.m_ptr v = true /\ Vector.items v <> [].

(** The zones [P]: packed words, source locations that have statistics, child lists
    that exist, are not empty and belong to one zone. *)
Record zones_wf (w : W) (P : nat -> Prop) : Prop := {
  zw_ok : forall z e, P z -> zone_heap w !! z = Some e ->
    ZoneEvent.ok e /\ is_Some (sourceLocationZones w !! ZoneEvent.SrcLoc e);
  zw_child : forall z e, P z -> zone_heap w !! z = Some e -> ZoneEvent.HasChildren e = true ->
    exists v, zoneChildren w !! Z.to_nat (ZoneEvent.Child e) = Some v /\ Vector.items v <> [];
  zw_inj : forall z1 z2 e1 e2, P z1 -> P z2 ->
    zone_heap w !! z1 = Some e1 -> zone_heap w !! z2 = Some e2 ->
    ZoneEvent.HasChildren e1 = true -> ZoneEvent.HasChildren e2 = true ->
    Z.to_nat (ZoneEvent.Child e1) = Z.to_nat (ZoneEvent.Child e2) -> z1 = z2;
  zw_cache : Forall growing (zoneVectorCache w) }.

Definition in_use (A : nat -> AThread) (z : nat) : Prop := exists i, z ∈ all_ids (A i).

(** An open zone has no end, and its child list can grow. *)
Definition open_zone (w : W) (z : nat) : Prop :=
  exists e, zone_heap w !! z = Some e /\ ZoneEvent.End_ e = -1 /\
    (ZoneEvent.HasChildren e = true ->
     exists v, zoneChildren w !! Z.to_nat (ZoneEvent.Child e) = Some v /\ growing v).

Record R (w : W) (A : nat -> AThread) : Prop := {
  R_threads : threads_ok w;
  R_srcs : srcs_ok w;
  R_zones : zones_wf w (in_use A);
  R_rep : forall i t, threads w !! i = Some t -> rep_thread (zinfo w) t (A i);
  R_new : forall i, (length (threads w) <= i)%nat -> A i = no_zones;
  R_nodup : forall i, NoDup (all_ids (A i));
  R_disj : forall i j z, i <> j -> z ∈ all_ids (A i) -> z ∈ all_ids (A j) -> False;
  R_heap : forall i z, z ∈ all_ids (A i) -> (z < length (zone_heap w))%nat;
  R_open : forall i z, z ∈ map fst (opened (A i)) -> open_zone w z }.

(** [R] depends on these parts of the state only. *)
Lemma R_frame w w' A :
  R w A -> threads_ok w' -> srcs_ok w' ->
  zone_heap w' = zone_heap w -> zoneChildren w' = zoneChildren w ->
  zoneVectorCache w' = zoneVectorCache w -> threads w' = threads w ->
  (forall k s, sourceLocationZones w !! k = Some s -> is_Some (sourceLocationZones w' !! k)) ->
  R w' A.
Proof.
  intros [H1 H2 [Hok Hch Hinj Hca] H4 H5 H6 H7 H8 H9] T S E1 E2 E3 E4 E5.
  assert (EI : zinfo w' = zinfo w) by (unfold zinfo, kids_of, child_vec; now rewrite E1, E2).
  split; rewrite ?E1, ?E4, ?EI; auto.
  - split; rewrite ?E1, ?E2, ?E3; auto. intros z e Hu Hz. destruct (Hok _ _ Hu Hz) as [? [s Hs]]. eauto.
  - intros i z Hz. unfold open_zone. rewrite E1, E2. exact (H9 i z Hz).
Qed.

Lemma no_zones_rep I tid fib hint : rep_thread I (new_thread tid fib hint) no_zones.
Proof. now split. Qed.

Lemma R_noticed w w' A : R w A -> noticed w w' -> threads_ok w' -> R w' A.
Proof.
  intros [H1 H2 H3 H4 H5 H6 H7 H8 H9] Hn Hok.
  assert (Hnew := fun i t => noticed_new w w' i t Hn). destruct Hn as [He (ext & Et & _)].
  assert (Eh : zone_heap w' = zone_heap w) by frame He zone_heap.
  assert (Ec : zoneChildren w' = zoneChildren w) by frame He zoneChildren.
  assert (EI : zinfo w' = zinfo w) by (unfold zinfo, kids_of, child_vec; now rewrite Eh, Ec).
  assert (Es : sourceLocationZones w' = sourceLocationZones w) by frame He sourceLocationZones.
  split; rewrite ?Eh, ?EI; auto.
  - eapply srcs_ok_frame; [exact H2 | | | | | |]; [frame He m_sourceLocationShrink | exact Es |
      frame He shrinkSrclocLast | frame He srclocZonesLast | frame He sourceLocationExpand |
      frame He m_pendingSourceLocationPayload].
  - destruct H3 as [G1 G2 G3 G4]. split; rewrite ?Eh, ?Ec, ?Es; auto.
    assert (E : zoneVectorCache w' = zoneVectorCache w) by frame He zoneVectorCache. now rewrite E.
  - intros i t Ei. destruct (Hnew i t Ei) as [E | [-> [tid ->]]]; [exact (H4 i t E) |].
    rewrite H5 by lia. apply no_zones_rep.
  - intros i Hi. apply H5. rewrite Et, length_app in Hi. lia.
  - intros i z Hz. unfold open_zone. rewrite Eh, Ec. exact (H9 i z Hz).
Qed.

Lemma R_checked w w' A : R w A -> checked_srcloc w w' -> R w' A.
Proof.
  intros HR He. red in He. cbv zeta in He. eapply R_frame; [exact HR | | | | | | |].
  - eapply threads_ok_frame; [exact (R_threads _ _ HR) | | | | |]; [frame He m_threadMap |
      frame He threads | frame He threadDataLast | frame He m_threadCtxData | frame He m_threadCtx].
  - eapply srcs_ok_frame; [exact (R_srcs _ _ HR) | | | | | |]; [frame He m_sourceLocationShrink |
      frame He sourceLocationZones | frame He shrinkSrclocLast | frame He srclocZonesLast |
      frame He sourceLocationExpand | frame He m_pendingSourceLocationPayload].
  - frame He zone_heap.
  - frame He zoneChildren.
  - frame He zoneVectorCache.
  - frame He threads.
  - assert (E : sourceLocationZones w' = sourceLocationZones w) by frame He sourceLocationZones.
    rewrite E. eauto.
Qed.

Lemma R_shrunk w w' A : R w A -> shrunk w w' -> srcs_ok w' -> R w' A.
Proof.
  intros HR [He Hz] Hs. cbv zeta in He. eapply R_frame; [exact HR | | exact Hs | | | | |].
  - eapply threads_ok_frame; [exact (R_threads _ _ HR) | | | | |]; [frame He m_threadMap |
      frame He threads | frame He threadDataLast | frame He m_threadCtxData | frame He m_threadCtx].
  - frame He zone_heap.
  - frame He zoneChildren.
  - frame He zoneVectorCache.
  - frame He threads.
  - eauto.
Qed.

(** The abstract state after thread [i] changed to [a]. *)
Definition upd (i : nat) (a : AThread) (A : nat -> AThread) : nat -> AThread :=
  fun j => if decide (j = i) then a else A j.
Lemma upd_eq i a A : upd i a A i = a.
Proof. unfold upd. now rewrite decide_True. Qed.
Lemma upd_ne i a A j : j <> i -> upd i a A j = A j.
Proof. intros. unfold upd. now rewrite decide_False. Qed.

(** The other threads do not notice a change to zones of one thread. *)
Lemma R_other w w' A td a t' :
  R w A -> threads_ok w' -> srcs_ok w' -> zones_wf w' (in_use (upd td a A)) ->
  (forall i, i <> td -> threads w' !! i = threads w !! i) ->
  length (threads w') = length (threads w) -> threads w' !! td = Some t' ->
  (forall i z, i <> td -> z ∈ all_ids (A i) -> zinfo w' z = zinfo w z) ->
  rep_thread (zinfo w') t' a -> NoDup (all_ids a) ->
  (forall z, z ∈ all_ids a -> z ∈ all_ids (A td) \/ ~ in_use A z) ->
  (forall z, z ∈ all_ids a -> (z < length (zone_heap w'))%nat) ->
  (length (zone_heap w) <= length (zone_heap w'))%nat ->
  (forall i z, i <> td -> z ∈ map fst (opened (A i)) -> open_zone w' z) ->
  (forall z, z ∈ map fst (opened a) -> open_zone w' z) ->
  R w' (upd td a A).
Proof.
  intros [H1 H2 H3 H4 H5 H6 H7 H8 H9] T S Zw Hoth Hlen Htd HI Hrep Hnd Hids Hheap Hgrow Hop Hop'.
  split; auto.
  - intros i t Et. destruct (decide (i = td)) as [-> | Hne].
    + rewrite upd_eq. now simplify_eq.
    + rewrite upd_ne by done. rewrite Hoth in Et by done. eapply rep_thread_ext; [| exact (H4 _ _ Et)].
      intros z Hz. exact (HI i z Hne Hz).
  - intros i Hi. rewrite Hlen in Hi. rewrite upd_ne; [auto |].
    intros ->. apply lookup_lt_Some in Htd. lia.
  - intros i. destruct (decide (i = td)) as [-> | Hne]; [now rewrite upd_eq | now rewrite upd_ne].
  - assert (Hcross : forall j z, j <> td -> z ∈ all_ids a -> z ∈ all_ids (A j) -> False).
    { intros j z Hne Ha Hj. destruct (Hids z Ha) as [Ht | Hge].
      - exact (H7 j td z Hne Hj Ht).
      - apply Hge. now exists j. }
    intros i j z Hij. destruct (decide (i = td)) as [-> | Hi], (decide (j = td)) as [-> | Hj];
      rewrite ?upd_eq, ?upd_ne by done; [done | | |]; eauto.
  - intros i z. destruct (decide (i = td)) as [-> | Hi]; [rewrite upd_eq; auto |].
    rewrite upd_ne by done. intros Hz. specialize (H8 i z Hz). lia.
  - intros i z. destruct (decide (i = td)) as [-> | Hi]; [rewrite upd_eq; auto |].
    rewrite upd_ne by done. eauto.
Qed.

(** A new zone at the end of the heap is in nobody's forest yet. *)
Lemma R_alloc w A e : R w A -> R (w <| zone_heap ::= (fun h => h ++ [e]) |>) A.
Proof.
  intros [H1 H2 [G1 G2 G3 G4] H4 H5 H6 H7 H8 H9].
  assert (Hl : forall i z, z ∈ all_ids (A i) -> (zone_heap w ++ [e]) !! z = zone_heap w !! z)
    by (intros; apply lookup_app_l; eauto).
  assert (Hu : forall z, in_use A z -> (zone_heap w ++ [e]) !! z = zone_heap w !! z)
    by (intros z [i Hi]; eauto).
  split; auto.
  - eapply threads_ok_frame; eauto.
  - eapply srcs_ok_frame; eauto.
  - split; cbn; auto.
    + intros z x Hz. rewrite (Hu z Hz). eauto.
    + intros z x Hz. rewrite (Hu z Hz). eauto.
    + intros z1 z2 e1 e2 Hz1 Hz2. rewrite (Hu z1 Hz1), (Hu z2 Hz2). eauto.
  - intros i t Et. eapply rep_thread_ext; [| exact (H4 i t Et)].
    intros z Hz. unfold zinfo. cbn. now rewrite (Hl i z Hz).
  - intros i z Hz. cbn. rewrite length_app. specialize (H8 i z Hz). lia.
  - intros i z Hz. destruct (H9 i z Hz) as (x & Ex & Hx). exists x. cbn.
    rewrite lookup_app_l; [done |]. now apply lookup_lt_Some in Ex.
Qed.

(** The same for writing to such a zone. *)
Lemma R_fresh_write w A zone e :
  R w A -> ~ in_use A zone -> R (w <| zone_heap ::= <[zone := e]> |>) A.
Proof.
  intros [H1 H2 [G1 G2 G3 G4] H4 H5 H6 H7 H8 H9] Hf.
  assert (Hu : forall z, in_use A z -> <[zone := e]> (zone_heap w) !! z = zone_heap w !! z)
    by (intros z Hz; rewrite list_lookup_insert_ne; [done | intros ->; contradiction]).
  assert (Hl : forall i z, z ∈ all_ids (A i) -> <[zone := e]> (zone_heap w) !! z = zone_heap w !! z)
    by (intros i z Hz; apply Hu; now exists i).
  split; auto.
  - eapply threads_ok_frame; eauto.
  - eapply srcs_ok_frame; eauto.
  - split; cbn; auto.
    + intros z x Hz. rewrite (Hu z Hz). eauto.
    + intros z x Hz. rewrite (Hu z Hz). eauto.
    + intros z1 z2 e1 e2 Hz1 Hz2. rewrite (Hu z1 Hz1), (Hu z2 Hz2). eauto.
  - intros i t Et. eapply rep_thread_ext; [| exact (H4 i t Et)].
    intros z Hz. unfold zinfo. cbn. now rewrite (Hl i z Hz).
  - intros i z Hz. cbn. rewrite length_insert. exact (H8 i z Hz).
  - intros i z Hz. destruct (H9 i z Hz) as (x & Ex & Hx). exists x. cbn.
    rewrite list_lookup_insert_ne; [done |]. intros ->. apply Hf. exists i. now apply opened_in_use.
Qed.

(** ** Appending a child *)
Definition with_room (v : Vector.t nat) : Prop :=
  Vector.fixed v = false -> Vector.m_capacity v + 1 < Vector.MaxCapacity.
(** The bounds of the representation are not reached: 31-bit child indices, and
    blocks of fewer than 2^126 elements. *)
Definition room (w : W) : Prop :=
  Z.of_nat (length (zoneChildren w)) < 2 ^ 31 /\ Forall with_room (zoneChildren w) /\
  Forall with_room (zoneVectorCache w).

Definition erase_children (w : W) : W :=
  w <| zone_heap := [] |> <| zoneChildren := [] |> <| zoneVectorCache := [] |>.

Lemma push_growing (v : Vector.t nat) z :
  growing v -> with_room v ->
  exists v', Vector.push_back_non_empty z v = Some v' /\ growing v' /\
    Vector.items v' = Vector.items v ++ [z].
Proof.
  intros (Hf & Hok & Hp & Hne) Hr. rewrite Vector.push_back_non_empty_eq by done.
  destruct (Vector.push_back_spec z v Hok Hf (Hr Hf)) as (v' & E & Hok' & Hi & Hf' & Hp').
  exists v'. split; [done |]. split; [| done]. split_and!; auto. rewrite Hi. now destruct (Vector.items v).
Qed.

Lemma make_growing z : growing (Vector.make z).
Proof. split_and!; [done | split_and!; done | done | done]. Qed.

Lemma growing_size v : growing v -> negb (Vector.m_size v =? 0) = true.
Proof.
  intros (_ & _ & _ & Hne). unfold Vector.m_size. destruct (Vector.items v); [done |].
  apply negb_true_iff, Z.eqb_neq. simpl. lia.
Qed.

(** A zone whose child index is set to a list position has children, there. *)
Lemma SetChild_index b n :
  ZoneEvent.ok b -> Z.of_nat n < 2 ^ 31 ->
  let b' := ZoneEvent.SetChild (sint 32 (Z.of_nat n)) b in
  ZoneEvent.ok b' /\ Z.to_nat (ZoneEvent.Child b') = n /\ ZoneEvent.HasChildren b' = true /\
  ZoneEvent.Start b' = ZoneEvent.Start b /\ ZoneEvent.End_ b' = ZoneEvent.End_ b /\
  ZoneEvent.SrcLoc b' = ZoneEvent.SrcLoc b.
Proof.
  intros Hok Hn. cbv zeta.
  destruct (zone_SetChild b (sint 32 (Z.of_nat n)) Hok) as (H1 & H2 & H3 & H4 & H5).
  assert (Hs : sint 32 (Z.of_nat n) = Z.of_nat n) by (apply sint_small; [lia |]; red; lia).
  rewrite Hs in *. rewrite Hs in H2.
  split; [done |]. split; [rewrite H2; lia |]. split; [| done].
  rewrite ZoneEvent.HasChildren_Child by done. rewrite H2. apply Z.leb_le. lia.
Qed.

Lemma NewZone_child_spec back zone b w :
  zone_heap w !! back = Some b -> ZoneEvent.ok b ->
  (ZoneEvent.HasChildren b = true ->
   exists v, zoneChildren w !! Z.to_nat (ZoneEvent.Child b) = Some v /\ growing v) ->
  Forall growing (zoneVectorCache w) -> room w ->
  wp (NewZone_child back zone) (fun _ w' => erase_children w' = erase_children w /\
    exists b' v', zone_heap w' = <[back := b']> (zone_heap w) /\
      ZoneEvent.ok b' /\ ZoneEvent.HasChildren b' = true /\
      ZoneEvent.Start b' = ZoneEvent.Start b /\ ZoneEvent.End_ b' = ZoneEvent.End_ b /\
      ZoneEvent.SrcLoc b' = ZoneEvent.SrcLoc b /\
      zoneChildren w' !! Z.to_nat (ZoneEvent.Child b') = Some v' /\ growing v' /\
      Vector.items v' = kids_of w b ++ [zone] /\
      (forall k v, k <> Z.to_nat (ZoneEvent.Child b') ->
         zoneChildren w !! k = Some v -> zoneChildren w' !! k = Some v) /\
      (ZoneEvent.HasChildren b = true /\ b' = b \/
       ZoneEvent.HasChildren b = false /\ Z.to_nat (ZoneEvent.Child b') = length (zoneChildren w)) /\
      Forall growing (zoneVectorCache w')) w.
Proof.
  intros Eb Hb Hch Hca (Hlen & Hroom & Hrca). unfold NewZone_child, GetZone. wp_steps.
  eapply wp_expect; [exact Eb |]. unfold kids_of, child_vec.
  destruct (ZoneEvent.HasChildren b) eqn:Ehc; cbn [negb].
  - destruct (Hch eq_refl) as (v & Ev & Hg).
    destruct (push_growing v zone Hg) as (v' & Ev' & Hg' & Hi').
    { rewrite Forall_lookup in Hroom. eauto. }
    wp_steps. eapply wp_expect; [exact Ev |]. wp_steps; [now apply growing_size |].
    eapply wp_expect; [exact Ev' |]. wp_steps. split; [erased |]. exists b, v'. cbn.
    rewrite list_insert_id, Ev, list_lookup_insert_eq by (eauto using lookup_lt_Some).
    split_and!; auto. intros k x Hk Hx. now rewrite list_lookup_insert_ne.
  - wp_steps. destruct (SetChild_index b _ Hb Hlen) as (Hb' & Eidx & Ehc' & Es & Ee & El).
    unfold SetZone. wp_steps. set (b' := ZoneEvent.SetChild _ b) in *.
    cbn [zoneVectorCache over]. change (zoneVectorCache (w <| zone_heap ::= <[back:=b']> |>)) with
      (zoneVectorCache w). destruct (last (zoneVectorCache w)) as [vze |] eqn:El'.
    + apply last_snoc_inv in El' as [ca Eca]. rewrite Eca in Hca, Hrca.
      apply Forall_snoc in Hca as [Hca Hvg]. apply Forall_snoc in Hrca as [_ Hvr].
      destruct (Vector.clear_spec vze (proj1 (proj2 Hvg)) (proj1 Hvg)) as (v0 & E0 & O0 & I0 & F0 & P0 & C0).
      destruct (Vector.push_back_spec zone v0 O0 F0) as (v' & Ev' & O' & I' & F' & P').
      { rewrite C0. apply Hvr, Hvg. }
      wp_steps; [now apply growing_size |]. eapply wp_expect; [exact E0 |]. wp_steps.
      rewrite Vector.push_back_non_empty_eq by (rewrite P0; apply Hvg).
      eapply wp_expect; [exact Ev' |]. wp_steps. split; [erased |]. exists b', v'. cbn.
      rewrite Eidx, list_lookup_middle, Eca, removelast_snoc by done.
      assert (Hg' : growing v') by (split_and!; auto; rewrite I', I0; done).
      split_and!; auto; [now rewrite I', I0 |].
      intros k x Hk Hx. now apply lookup_app_l_Some.
    + wp_steps. split; [erased |]. exists b', (Vector.make zone). cbn.
      rewrite Eidx, list_lookup_middle by done.
      split_and!; auto using make_growing. intros k x Hk Hx. now apply lookup_app_l_Some.
Qed.

(** ** Beginning a zone *)
Record fresh_zone (w : W) (zone : nat) (e : ZoneEvent.t) : Prop := {
  fz_lookup : zone_heap w !! zone = Some e;
  fz_ok : ZoneEvent.ok e;
  fz_src : is_Some (sourceLocationZones w !! ZoneEvent.SrcLoc e);
  fz_end : ZoneEvent.End_ e = -1;
  fz_kids : ZoneEvent.HasChildren e = false }.

(** How the thread changes. *)
Record begun (zone : nat) (root_zone : bool) (t t' : ThreadData) : Prop := {
  bg_timeline : timeline t' = if root_zone then timeline t ++ [zone] else timeline t;
  bg_stack : stack t' = stack t ++ [zone];
  bg_ids : zoneIdStack t' = zoneIdStack t ++ [nextZoneId t];
  bg_next : nextZoneId t' = 0;
  bg_times : childTimeStack t' = childTimeStack t ++ [0];
  bg_id : id t' = id t;
  bg_fiber : fiber t' = fiber t }.

Lemma in_use_upd td zone A z :
  in_use (upd td (abegin zone (A td)) A) z <-> in_use A z \/ z = zone.
Proof.
  split.
  - intros [i Hi]. destruct (decide (i = td)) as [-> | Hne].
    + rewrite upd_eq, all_ids_abegin, elem_of_cons in Hi. destruct Hi; [auto | left; now exists td].
    + rewrite upd_ne in Hi by done. left. now exists i.
  - intros [[i Hi] | ->].
    + exists i. destruct (decide (i = td)) as [-> | Hne].
      * rewrite upd_eq, all_ids_abegin, elem_of_cons. auto.
      * now rewrite upd_ne.
    + exists td. rewrite upd_eq, all_ids_abegin, elem_of_cons. auto.
Qed.

Section Begin.
Context (w w' : W) (A : nat -> AThread) (td zone : nat) (e : ZoneEvent.t) (t t' : ThreadData).
Context (HR : R w A) (Hfresh : ~ in_use A zone) (Hz : fresh_zone w zone e).
Context (Ht : threads w !! td = Some t) (Ht' : threads w' = <[td := t']> (threads w)).
Context (Hthr : threads_ok w') (Hsrc : srcs_ok w')
  (Eslz : sourceLocationZones w' = sourceLocationZones w).

Local Lemma zone_lt : (zone < length (zone_heap w))%nat.
Proof. apply fz_lookup, lookup_lt_Some in Hz. exact Hz. Qed.

Local Lemma fresh_zinfo : i_kids (zinfo w zone) = [].
Proof. destruct Hz as [E _ _ _ Hk]. unfold zinfo. rewrite E. cbn. unfold kids_of, child_vec. now rewrite Hk. Qed.

Local Lemma other_threads i : i <> td -> threads w' !! i = threads w !! i.
Proof. intros. rewrite Ht'. now rewrite list_lookup_insert_ne. Qed.
Local Lemma this_thread : threads w' !! td = Some t'.
Proof. rewrite Ht'. apply list_lookup_insert_eq. now apply lookup_lt_Some in Ht. Qed.
Local Lemma same_length : length (threads w') = length (threads w).
Proof. rewrite Ht'. apply length_insert. Qed.

Local Lemma begin_NoDup : NoDup (all_ids (abegin zone (A td))).
Proof.
  rewrite all_ids_abegin, NoDup_cons. split; [| apply (R_nodup _ _ HR)].
  intros Hin. apply Hfresh. now exists td.
Qed.

Local Lemma begin_ids z : z ∈ all_ids (abegin zone (A td)) -> z ∈ all_ids (A td) \/ z = zone.
Proof. rewrite all_ids_abegin, elem_of_cons. tauto. Qed.

(** A zone in use afterwards was in use, or is the new one. *)
Local Lemma in_use_cases z x :
  in_use (upd td (abegin zone (A td)) A) z -> zone_heap w !! z = Some x ->
  (in_use A z /\ z <> zone) \/ (z = zone /\ x = e).
Proof.
  intros [? | ->]%in_use_upd Ex; [left | right].
  - split; [done |]. intros ->. contradiction.
  - rewrite (fz_lookup _ _ _ Hz) in Ex. now simplify_eq.
Qed.

(** [R_other] for a new zone, with what is common to both cases. *)
Local Lemma R_begin :
  (length (zone_heap w') = length (zone_heap w)) ->
  zones_wf w' (in_use (upd td (abegin zone (A td)) A)) ->
  (forall i z, i <> td -> z ∈ all_ids (A i) -> zinfo w' z = zinfo w z) ->
  rep_thread (zinfo w') t' (abegin zone (A td)) ->
  (forall z, (exists i, z ∈ map fst (opened (A i))) -> open_zone w' z) -> open_zone w' zone ->
  R w' (upd td (abegin zone (A td)) A).
Proof.
  intros Eh Zw HI Hrep Hop Hop'.
  refine (R_other w w' A td _ t' HR Hthr Hsrc Zw other_threads same_length this_thread HI Hrep
    begin_NoDup _ _ _ _ _).
  - intros z [Hin | ->]%begin_ids; auto.
  - rewrite Eh. intros z [Hin | ->]%begin_ids; [exact (R_heap _ _ HR _ _ Hin) | exact zone_lt].
  - now rewrite Eh.
  - intros i z _ Hin. apply Hop. now exists i.
  - intros z. unfold abegin. cbn. rewrite elem_of_cons. intros [-> | Hin]; [done |].
    apply Hop. now exists td.
Qed.

Local Lemma begin_length root_zone :
  begun zone root_zone t t' -> length (zoneIdStack t') = S (length (zoneIdStack t)).
Proof. intros [_ _ -> _ _ _ _]. rewrite length_app. simpl. lia. Qed.

(** The zone is the first one open on its thread. *)
Lemma R_begin_root :
  opened (A td) = [] -> begun zone true t t' ->
  zone_heap w' = zone_heap w -> zoneChildren w' = zoneChildren w ->
  zoneVectorCache w' = zoneVectorCache w -> R w' (upd td (abegin zone (A td)) A).
Proof.
  intros Ho Hb Eh Ec Eca.
  assert (EI : zinfo w' = zinfo w) by (unfold zinfo, kids_of, child_vec; now rewrite Eh, Ec).
  assert (Hopen : forall z, open_zone w z -> open_zone w' z)
    by (intros z Hzo; unfold open_zone in *; now rewrite Eh, Ec).
  destruct (R_zones _ _ HR) as [G1 G2 G3 G4]. apply R_begin.
  - now rewrite Eh.
  - split; rewrite ?Eh, ?Ec, ?Eca, ?Eslz; [| | | done].
    + intros z x Hu Ex. destruct (in_use_cases z x Hu Ex) as [[? _] | [-> ->]]; [eauto |].
      split; [apply Hz | apply Hz].
    + intros z x Hu Ex Hk. destruct (in_use_cases z x Hu Ex) as [[? _] | [-> ->]]; [eauto |].
      rewrite (fz_kids _ _ _ Hz) in Hk. done.
    + intros z1 z2 e1 e2 U1 U2 L1 L2 K1 K2. pose proof (fz_kids _ _ _ Hz).
      destruct (in_use_cases _ _ U1 L1) as [[? _] | [-> ->]]; [| congruence].
      destruct (in_use_cases _ _ U2 L2) as [[? _] | [-> ->]]; [eauto | congruence].
  - now rewrite EI.
  - rewrite EI. eapply abegin_rep; [exact (R_rep _ _ HR _ _ Ht) | apply (R_nodup _ _ HR) | | | | |].
    + exact fresh_zinfo.
    + rewrite Ho. split; [done | apply Hb].
    + apply Hb.
    + eapply begin_length, Hb.
    + apply Hb.
  - intros z [i Hin]. apply Hopen, (R_open _ _ HR i z Hin).
  - apply Hopen. exists e. destruct Hz as [? ? ? ? Hk]. split_and!; auto. congruence.
Qed.

(** The zone is a child of the innermost open zone. *)
Section Child.
Context (back : nat) (ks : list tree) (o : list (nat * list tree)).
Context (Eo : opened (A td) = (back, ks) :: o).
Context (b b' : ZoneEvent.t) (v' : Vector.t nat).
Context (Eb : zone_heap w !! back = Some b) (Eh : zone_heap w' = <[back := b']> (zone_heap w)).
Context (Hb' : ZoneEvent.ok b') (Hk' : ZoneEvent.HasChildren b' = true)
  (Eend : ZoneEvent.End_ b' = ZoneEvent.End_ b)
  (Esrc : ZoneEvent.SrcLoc b' = ZoneEvent.SrcLoc b).
Context (Ev' : zoneChildren w' !! Z.to_nat (ZoneEvent.Child b') = Some v') (Hg' : growing v')
  (Ei' : Vector.items v' = kids_of w b ++ [zone]).
Context (Hkeep : forall k v, k <> Z.to_nat (ZoneEvent.Child b') ->
  zoneChildren w !! k = Some v -> zoneChildren w' !! k = Some v).
Context (Hidx : ZoneEvent.HasChildren b = true /\ b' = b \/
  ZoneEvent.HasChildren b = false /\ Z.to_nat (ZoneEvent.Child b') = length (zoneChildren w)).

Local Lemma back_in_use : in_use A back.
Proof. exists td. apply opened_in_use. rewrite Eo. left. Qed.

Local Lemma back_zone : zone <> back.
Proof. intros ->. apply Hfresh, back_in_use. Qed.

(** No other zone has the child index of the parent. *)
Local Lemma index_free z x :
  in_use A z -> z <> back -> zone_heap w !! z = Some x -> ZoneEvent.HasChildren x = true ->
  Z.to_nat (ZoneEvent.Child x) <> Z.to_nat (ZoneEvent.Child b').
Proof.
  intros Hu Hne Ex Hk Heq. destruct (R_zones _ _ HR) as [_ G2 G3 _].
  destruct Hidx as [[Hkb ->] | [_ Elen]].
  - apply Hne. exact (G3 _ _ _ _ Hu back_in_use Ex Eb Hk Hkb Heq).
  - destruct (G2 _ _ Hu Ex Hk) as (v & Ev & _). rewrite Heq, Elen in Ev.
    apply lookup_lt_Some in Ev. lia.
Qed.

Local Lemma heap_other z : z <> back -> zone_heap w' !! z = zone_heap w !! z.
Proof. intros. rewrite Eh. now rewrite list_lookup_insert_ne. Qed.
Local Lemma heap_back : zone_heap w' !! back = Some b'.
Proof. rewrite Eh. apply list_lookup_insert_eq. now apply lookup_lt_Some in Eb. Qed.

Local Lemma child_kept z x v :
  in_use A z -> z <> back -> zone_heap w !! z = Some x -> ZoneEvent.HasChildren x = true ->
  zoneChildren w !! Z.to_nat (ZoneEvent.Child x) = Some v ->
  zoneChildren w' !! Z.to_nat (ZoneEvent.Child x) = Some v.
Proof. intros Hu Hne Ex Hk Ev. apply Hkeep; [now apply (index_free z) | done]. Qed.

Local Lemma zinfo_other z : in_use A z -> z <> back -> zinfo w' z = zinfo w z.
Proof.
  intros Hu Hne. unfold zinfo. rewrite heap_other by done.
  destruct (zone_heap w !! z) as [x |] eqn:Ex; [| done]. f_equal. unfold kids_of, child_vec.
  destruct (ZoneEvent.HasChildren x) eqn:Hk; [| done].
  destruct (zw_child _ _ (R_zones _ _ HR) _ _ Hu Ex Hk) as (v & Ev & _).
  now rewrite Ev, (child_kept z x v).
Qed.

Local Lemma zinfo_back : i_kids (zinfo w' back) = i_kids (zinfo w back) ++ [zone].
Proof.
  unfold zinfo. rewrite heap_back, Eb. cbn. unfold kids_of at 1, child_vec. now rewrite Hk', Ev'.
Qed.

Local Lemma zinfo_zone : i_kids (zinfo w' zone) = [].
Proof.
  destruct Hz as [E _ _ _ Hk]. unfold zinfo. rewrite heap_other by exact back_zone. rewrite E. cbn.
  unfold kids_of, child_vec. now rewrite Hk.
Qed.

Local Lemma child_zones_wf :
  Forall growing (zoneVectorCache w') -> zones_wf w' (in_use (upd td (abegin zone (A td)) A)).
Proof.
  intros Hca. destruct (R_zones _ _ HR) as [G1 G2 G3 G4]. pose proof (fz_kids _ _ _ Hz) as Hke.
  assert (Hcase : forall z x, in_use (upd td (abegin zone (A td)) A) z -> zone_heap w' !! z = Some x ->
    (in_use A z /\ z <> back /\ zone_heap w !! z = Some x) \/ (z = zone /\ x = e) \/ (z = back /\ x = b')).
  { intros z x Hu Ex. destruct (decide (z = back)) as [-> | Hne].
    - rewrite heap_back in Ex. simplify_eq. auto.
    - rewrite heap_other in Ex by done.
      destruct (in_use_cases z x Hu Ex) as [[? _] | ?]; auto. }
  split; [| | | done].
  - intros z x Hu Ex. rewrite Eslz.
    destruct (Hcase z x Hu Ex) as [(? & ? & ?) | [[-> ->] | [-> ->]]]; [eauto | |].
    + split; apply Hz.
    + split; [done |]. rewrite Esrc. apply (G1 _ _ back_in_use Eb).
  - intros z x Hu Ex Hk.
    destruct (Hcase z x Hu Ex) as [(? & ? & ?) | [[-> ->] | [-> ->]]]; [| congruence |].
    + destruct (G2 z x) as (v & Ev & Hv); auto. exists v. split; [now apply (child_kept z) | done].
    + exists v'. split; [done | apply Hg'].
  - intros z1 z2 e1 e2 U1 U2 L1 L2 K1 K2 Heq.
    destruct (Hcase _ _ U1 L1) as [(? & ? & ?) | [[-> ->] | [-> ->]]]; [| congruence |];
      (destruct (Hcase _ _ U2 L2) as [(? & ? & ?) | [[-> ->] | [-> ->]]]; [| congruence |]).
    + exact (G3 z1 z2 e1 e2 ltac:(done) ltac:(done) ltac:(done) ltac:(done) K1 K2 Heq).
    + exfalso. now apply (index_free z1 e1).
    + exfalso. now apply (index_free z2 e2).
    + done.
Qed.

Lemma R_begin_child :
  begun zone false t t' -> Forall growing (zoneVectorCache w') ->
  R w' (upd td (abegin zone (A td)) A).
Proof.
  intros Hb Hca. apply R_begin.
  - rewrite Eh. apply length_insert.
  - now apply child_zones_wf.
  - intros i z Hne Hin. apply zinfo_other; [now exists i |]. intros ->.
    eapply (R_disj _ _ HR i td back Hne Hin). apply opened_in_use. rewrite Eo. left.
  - eapply abegin_rep; [exact (R_rep _ _ HR _ _ Ht) | apply (R_nodup _ _ HR) | | | | |].
    + exact zinfo_zone.
    + rewrite Eo. split; [| split; [exact zinfo_back | apply Hb]].
      intros z Hin Hne. apply zinfo_other; [now exists td | done].
    + apply Hb.
    + eapply begin_length, Hb.
    + apply Hb.
  - intros z [i Hin]. destruct (R_open _ _ HR i z Hin) as (x & Ex & Ee & Hk).
    destruct (decide (z = back)) as [-> | Hne].
    + exists b'. rewrite heap_back, Eend. simplify_eq. split_and!; auto. intros _. eauto.
    + exists x. rewrite heap_other by done. split_and!; auto. intros Hkx.
      destruct (Hk Hkx) as (v & Ev & Hg). exists v. split; [| done].
      apply (child_kept z x v); auto. exists i. now apply opened_in_use.
  - exists e. rewrite heap_other by exact back_zone. destruct Hz as [? ? ? ? Hk].
    split_and!; auto. congruence.
Qed.
End Child.
End Begin.

Definition erase_zones (w : W) : W := erase_children (w <| threads := [] |>).
Definition erase_begin (w : W) : W := erase_noticed (erase_zones (w <| zonesCnt := 0 |>)).

Lemma erase_begin_zones w w' : erase_zones w' = erase_zones w -> erase_begin w' = erase_begin w.
Proof.
  intros H. transitivity (erase_begin (erase_zones w')); [erased |]. rewrite H. erased.
Qed.

Lemma NewZone_spec zone e w A :
  R w A -> ~ in_use A zone -> fresh_zone w zone e -> room w ->
  wp (NewZone zone) (fun _ w' => erase_begin w' = erase_begin w /\ exists td,
    current w' = Some td /\ R w' (upd td (abegin zone (A td)) A) /\
    zone_heap w' !! zone = Some e) w.
Proof.
  intros HR Hfresh Hz Hroom. unfold NewZone. wp_steps.
  set (w1 := w <| zonesCnt ::= _ |>).
  assert (HR1 : R w1 A).
  { eapply R_frame; eauto; [eapply threads_ok_frame; [exact (R_threads _ _ HR) | ..] |
      eapply srcs_ok_frame; [exact (R_srcs _ _ HR) | ..]]; done. }
  eapply wp_mono; [apply (GetCurrentThreadData_spec w1), HR1 |].
  intros td w2 (T2 & N2 & Ecur & [t Et] & _). pose proof (R_noticed _ _ _ HR1 N2 T2) as HR2.
  destruct N2 as [He2 _].
  assert (Eh : zone_heap w2 = zone_heap w) by frame He2 zone_heap.
  assert (Ec : zoneChildren w2 = zoneChildren w) by frame He2 zoneChildren.
  assert (Eca : zoneVectorCache w2 = zoneVectorCache w) by frame He2 zoneVectorCache.
  assert (Es : sourceLocationZones w2 = sourceLocationZones w) by frame He2 sourceLocationZones.
  unfold GetZone. wp_steps. eapply wp_expect; [rewrite Eh; apply Hz |].
  wp_steps. eapply UpdThread_wp; [exact Et |]. set (t1 := _ <| stackCount ::= _ |>).
  wp_steps. eapply GetThread_wp.
  { cbn. apply list_lookup_insert_eq. now apply lookup_lt_Some in Et. }
  change (stack t1) with (stack t). pose proof (R_rep _ _ HR2 _ _ Et) as Hrep.
  assert (Hz2 : fresh_zone w2 zone e)
    by (destruct Hz; split; rewrite ?Eh, ?Es; auto).
  assert (Hwrap : forall w3 root_zone (t3 : ThreadData),
    threads w3 = <[td := t3]> (threads w2) -> begun zone root_zone t t3 ->
    erase_zones w3 = erase_zones w2 ->
    (threads_ok w3 -> srcs_ok w3 -> R w3 (upd td (abegin zone (A td)) A)) ->
    zone_heap w3 !! zone = Some e ->
    erase_begin w3 = erase_begin w /\ exists td0, current w3 = Some td0 /\
      R w3 (upd td0 (abegin zone (A td0)) A) /\ zone_heap w3 !! zone = Some e).
  { intros w3 rz t3 E3 Hb He3 HR3 Hzone. split.
    { rewrite (erase_begin_zones w2 w3 He3). transitivity (erase_begin w1); [| erased].
      exact (f_equal erase_begin He2). }
    assert (Ectx : m_threadCtxData w3 = m_threadCtxData w2) by frame He3 m_threadCtxData.
    exists td. rewrite (current_upd w2 w3 td t t3) by (auto; apply Hb). split_and!; auto.
    apply HR3.
    - eapply (threads_ok_upd w2 w3 td t t3); auto; [apply Hb | apply Hb | frame He3 m_threadMap |
        frame He3 threadDataLast | frame He3 m_threadCtx].
    - eapply srcs_ok_frame; [apply HR2 | frame He3 m_sourceLocationShrink |
        frame He3 sourceLocationZones | frame He3 shrinkSrclocLast | frame He3 srclocZonesLast |
        frame He3 sourceLocationExpand | frame He3 m_pendingSourceLocationPayload]. }
  rewrite (rt_stack _ _ _ Hrep). destruct (opened (A td)) as [| [back ks] o] eqn:Eo.
  - cbn [map rev last]. apply wp_bind. eapply UpdThread_wp.
    { cbn. apply list_lookup_insert_eq. now apply lookup_lt_Some in Et. }
    eapply UpdThread_wp.
    { cbn. apply list_lookup_insert_eq. rewrite length_insert. now apply lookup_lt_Some in Et. }
    eapply (Hwrap _ true).
    + cbn. rewrite !list_insert_insert_eq. reflexivity.
    + now split.
    + erased.
    + intros T3 S3. eapply (R_begin_root w2 _ A td zone e t _ HR2 Hfresh Hz2 Et);
        [cbn; rewrite !list_insert_insert_eq; reflexivity | exact T3 | exact S3 | reflexivity |
         exact Eo | now split | reflexivity..].
    + cbn. rewrite Eh. apply Hz.
  - cbn [map rev]. rewrite last_snoc.
    destruct (R_open _ _ HR2 td back) as (b & Eb & Eend & Hch); [rewrite Eo; left |].
    assert (Hu : in_use A back) by (exists td; apply opened_in_use; rewrite Eo; left).
    wp_steps. eapply wp_mono; [eapply (NewZone_child_spec back zone b) |].
    + exact Eb.
    + apply (zw_ok _ _ (R_zones _ _ HR2) _ _ Hu Eb).
    + exact Hch.
    + apply (zw_cache _ _ (R_zones _ _ HR2)).
    + unfold room. cbn. rewrite Ec, Eca. exact Hroom.
    + intros _ w3 (He3 & b' & v' & F1 & F2 & F3 & F4 & F5 & F6 & F7 & F8 & F9 & F10 & F11 & F12).
      assert (E3 : threads w3 = <[td := t1]> (threads w2)) by frame He3 threads.
      eapply UpdThread_wp.
      { rewrite E3. apply list_lookup_insert_eq. now apply lookup_lt_Some in Et. }
      eapply UpdThread_wp.
      { cbn. rewrite E3. apply list_lookup_insert_eq. rewrite length_insert. now apply lookup_lt_Some in Et. }
      eapply (Hwrap _ false).
      * cbn. rewrite E3, !list_insert_insert_eq. reflexivity.
      * now split.
      * transitivity (erase_zones (erase_children w3)); [erased |]. rewrite He3. erased.
      * intros T3 S3. eapply (R_begin_child w2 _ A td zone e t _ HR2 Hfresh Hz2 Et);
          [cbn; rewrite E3, !list_insert_insert_eq; reflexivity | exact T3 | exact S3 |
           frame He3 sourceLocationZones | exact Eo | exact Eb | exact F1 | exact F2 | exact F3 |
           exact F5 | exact F6 | exact F7 | exact F8 | exact F9 | exact F10 | exact F11 |
           now split | exact F12].
      * cbn. rewrite F1. change (<[back:=b']> (zone_heap w2) !! zone = Some e).
        rewrite Eh, list_lookup_insert_ne; [apply Hz |]. intros ->. contradiction.
Qed.

(** ** The handlers of zone begins *)
Ltac R_same HR :=
  eapply R_frame; [exact HR | eapply threads_ok_frame; [exact (R_threads _ _ HR) | ..] |
    eapply srcs_ok_frame; [exact (R_srcs _ _ HR) | ..] | ..]; try reflexivity; try (cbn; eauto; fail).

Lemma init_zone_spec start sl z :
  ZoneEvent.ok z -> start < 2 ^ 47 -> in_sint 16 sl ->
  exists e, init_zone start sl z = Some e /\ ZoneEvent.ok e /\
    ZoneEvent.Start e = sint 48 start /\ ZoneEvent.SrcLoc e = sl /\ ZoneEvent.End_ e = -1 /\
    ZoneEvent.HasChildren e = false.
Proof.
  intros Hz Hs Hsl.
  destruct (ZoneEvent.SetStartSrcLoc start sl z) as [z1 |] eqn:E1.
  2: { unfold ZoneEvent.SetStartSrcLoc, assert47 in E1. destruct (Z.ltb_spec start (2 ^ 47)); [done | lia]. }
  destruct (zone_SetStartSrcLoc z start Hz sl z1 E1) as (O1 & S1 & L1 & _ & _).
  destruct (ZoneEvent.SetEnd (-1) z1) as [z2 |] eqn:E2; [| done].
  destruct (zone_SetEnd z1 (-1) O1 z2 E2) as (O2 & N2 & S2 & L2 & _).
  exists (ZoneEvent.SetChild (-1) z2).
  split; [unfold init_zone; rewrite E1; cbn [mbind option_bind]; now rewrite E2 |].
  destruct (zone_SetChild z2 (-1) O2) as (O3 & C3 & S3 & N3 & L3).
  split; [exact O3 |]. rewrite S3, S2, S1, L3, L2, L1, N3, N2. rewrite (sint_small 16) by (auto; lia).
  split_and!; auto. rewrite ZoneEvent.HasChildren_Child, C3 by done. reflexivity.
Qed.

Lemma alloc_fresh w A : R w A -> ~ in_use A (length (zone_heap w)).
Proof. intros HR [i Hi]. pose proof (R_heap _ _ HR _ _ Hi). lia. Qed.

Definition erase_time (w : W) : W := erase_begin (w <| lastTime := 0 |>).

(** From the initialisation of the zone on, whichever way its source location
    came. *)
Lemma begin_rest w A zone j start sl :
  R w A -> zone_heap w !! zone = Some j -> ZoneEvent.ok j -> ~ in_use A zone ->
  room w -> start < 2 ^ 47 -> in_sint 16 sl -> is_Some (sourceLocationZones w !! sl) ->
  wp (UpdZone zone (init_zone start sl);; touch_lastTime start;; NewZone zone)
    (fun _ w' => erase_time w' = erase_time w /\ lastTime w' = Z.max (lastTime w) start /\
      exists td e, current w' = Some td /\ R w' (upd td (abegin zone (A td)) A) /\
      zone_heap w' !! zone = Some e /\ ZoneEvent.Start e = sint 48 start /\
      ZoneEvent.SrcLoc e = sl) w.
Proof.
  intros HR Ej Hj Hfr Hroom Hs Hsl Hsrc.
  destruct (init_zone_spec start sl j Hj Hs Hsl) as (e & Ee & O & S & L & N & K).
  unfold UpdZone, GetZone, SetZone, touch_lastTime. wp_steps.
  eapply wp_expect; [exact Ej |]. wp_steps. eapply wp_expect; [exact Ee |]. wp_steps.
  set (w1 := w <| zone_heap ::= <[zone := e]> |>).
  assert (HR1 : R w1 A) by now apply R_fresh_write.
  set (w2 := over lastTime _ w1). assert (HR2 : R w2 A) by R_same HR1.
  assert (Ez : zone_heap w2 !! zone = Some e)
    by (apply list_lookup_insert_eq; now apply lookup_lt_Some in Ej).
  eapply wp_mono; [apply (NewZone_spec zone e w2 A HR2 Hfr) |].
  - split; auto. rewrite L. exact Hsrc.
  - exact Hroom.
  - intros _ w' (He & td & Ecur & HR' & Ez').
    assert (El : lastTime w' = lastTime w2) by frame He lastTime.
    split; [| split].
    + transitivity (erase_time (erase_begin w')); [erased |]. rewrite He. erased.
    + rewrite El. cbn. destruct (Z.ltb_spec (lastTime w) start); lia.
    + exists td, e. auto.
Qed.

(** ** Ending a zone *)
Lemma in_use_aend td A z : in_use (upd td (aend (A td)) A) z <-> in_use A z.
Proof.
  split; intros [i Hi]; exists i; destruct (decide (i = td)) as [-> | Hne].
  - now rewrite upd_eq, all_ids_aend in Hi.
  - now rewrite upd_ne in Hi.
  - now rewrite upd_eq, all_ids_aend.
  - now rewrite upd_ne.
Qed.

Lemma opened_aend a z ks o :
  opened a = (z, ks) :: o -> map fst (opened (aend a)) = map fst o.
Proof. intros E. unfold aend. rewrite E. destruct o as [| [p pks] o]; done. Qed.

(** How the thread changes. *)
Record ended (timeSpan : Z) (t t' : ThreadData) : Prop := {
  en_timeline : timeline t' = timeline t;
  en_stack : stack t' = removelast (stack t);
  en_ids : length (zoneIdStack t') = pred (length (zoneIdStack t));
  en_next : nextZoneId t' = 0;
  en_times : childTimeStack t' = end_times timeSpan (childTimeStack t);
  en_id : id t' = id t;
  en_fiber : fiber t' = fiber t }.

Section End_.
Context (w w' : W) (A : nat -> AThread) (td z : nat) (ks : list tree) (o : list (nat * list tree)).
Context (t t' : ThreadData) (e e' : ZoneEvent.t).
Context (HR : R w A) (Eo : opened (A td) = (z, ks) :: o).
Context (Ht : threads w !! td = Some t) (Ht' : threads w' = <[td := t']> (threads w)).
Context (Hthr : threads_ok w') (Hsrc : srcs_ok w').
Context (Hslz : forall k s, sourceLocationZones w !! k = Some s -> is_Some (sourceLocationZones w' !! k)).
Context (Ez : zone_heap w !! z = Some e) (Eh : zone_heap w' = <[z := e']> (zone_heap w)).
Context (Hok' : ZoneEvent.ok e') (Estart : ZoneEvent.Start e' = ZoneEvent.Start e)
  (Esrc : ZoneEvent.SrcLoc e' = ZoneEvent.SrcLoc e) (Echild : ZoneEvent.Child e' = ZoneEvent.Child e)
  (Ekids : ZoneEvent.HasChildren e' = ZoneEvent.HasChildren e).
Context (Hchild : ZoneEvent.HasChildren e = true -> forall v,
  zoneChildren w !! Z.to_nat (ZoneEvent.Child e) = Some v -> exists v',
  zoneChildren w' !! Z.to_nat (ZoneEvent.Child e) = Some v' /\ Vector.items v' = Vector.items v).
Context (Hkeep : forall k v, (ZoneEvent.HasChildren e = true -> k <> Z.to_nat (ZoneEvent.Child e)) ->
  zoneChildren w !! k = Some v -> zoneChildren w' !! k = Some v).
Context (Hca : Forall growing (zoneVectorCache w')).
Context (Hen : ended (ZoneEvent.End_ e' - ZoneEvent.Start e') t t').

Local Lemma end_in_use : in_use A z.
Proof. exists td. apply opened_in_use. rewrite Eo. left. Qed.
Local Lemma end_heap_other x : x <> z -> zone_heap w' !! x = zone_heap w !! x.
Proof. intros. rewrite Eh. now rewrite list_lookup_insert_ne. Qed.
Local Lemma end_heap : zone_heap w' !! z = Some e'.
Proof. rewrite Eh. apply list_lookup_insert_eq. now apply lookup_lt_Some in Ez. Qed.

Local Lemma end_child_kept x ex v :
  in_use A x -> x <> z -> zone_heap w !! x = Some ex -> ZoneEvent.HasChildren ex = true ->
  zoneChildren w !! Z.to_nat (ZoneEvent.Child ex) = Some v ->
  zoneChildren w' !! Z.to_nat (ZoneEvent.Child ex) = Some v.
Proof.
  intros Hu Hne Ex Hk Ev. apply Hkeep; [| done]. intros Hke Heq.
  apply Hne. exact (zw_inj _ _ (R_zones _ _ HR) _ _ _ _ Hu end_in_use Ex Ez Hk Hke Heq).
Qed.

Local Lemma end_zinfo_other x : in_use A x -> x <> z -> zinfo w' x = zinfo w x.
Proof.
  intros Hu Hne. unfold zinfo. rewrite end_heap_other by done.
  destruct (zone_heap w !! x) as [ex |] eqn:Ex; [| done]. f_equal. unfold kids_of, child_vec.
  destruct (ZoneEvent.HasChildren ex) eqn:Hk; [| done].
  destruct (zw_child _ _ (R_zones _ _ HR) _ _ Hu Ex Hk) as (v & Ev & _).
  now rewrite Ev, (end_child_kept x ex v).
Qed.

Local Lemma end_zinfo : zinfo w' z = mkInfo (i_kids (zinfo w z)) (ZoneEvent.Start e') (ZoneEvent.End_ e').
Proof.
  unfold zinfo. rewrite end_heap, Ez. cbn. f_equal. unfold kids_of, child_vec. rewrite Ekids, Echild.
  destruct (ZoneEvent.HasChildren e) eqn:Hk; [| done].
  destruct (zw_child _ _ (R_zones _ _ HR) _ _ end_in_use Ez Hk) as (v & Ev & _).
  destruct (Hchild eq_refl v Ev) as (v' & Ev' & Ei). now rewrite Ev, Ev'.
Qed.

Local Lemma end_zones_wf : zones_wf w' (in_use (upd td (aend (A td)) A)).
Proof.
  destruct (R_zones _ _ HR) as [G1 G2 G3 G4].
  assert (Hcase : forall x ex, in_use (upd td (aend (A td)) A) x -> zone_heap w' !! x = Some ex ->
    in_use A x /\ exists ex0, zone_heap w !! x = Some ex0 /\
      ZoneEvent.HasChildren ex = ZoneEvent.HasChildren ex0 /\
      ZoneEvent.Child ex = ZoneEvent.Child ex0 /\ ZoneEvent.SrcLoc ex = ZoneEvent.SrcLoc ex0 /\
      (ZoneEvent.ok ex0 -> ZoneEvent.ok ex) /\ (x = z -> ex0 = e)).
  { intros x ex Hu Ex. apply in_use_aend in Hu. split; [done |].
    destruct (decide (x = z)) as [-> | Hne].
    - rewrite end_heap in Ex. simplify_eq. eauto 10.
    - rewrite end_heap_other in Ex by done. exists ex. split_and!; auto. intros ->. contradiction. }
  split; [| | | done].
  - intros x ex Hu Ex. destruct (Hcase _ _ Hu Ex) as (Hu0 & e0 & E0 & _ & _ & -> & Hok & _).
    destruct (G1 _ _ Hu0 E0) as [? [s Hs]]. eauto.
  - intros x ex Hu Ex Hk. destruct (Hcase _ _ Hu Ex) as (Hu0 & e0 & E0 & K & -> & _ & _ & He).
    rewrite K in Hk. destruct (G2 _ _ Hu0 E0 Hk) as (v & Ev & Hne).
    destruct (decide (x = z)) as [-> | Hnz].
    + rewrite (He eq_refl) in *. destruct (Hchild Hk v Ev) as (v' & Ev' & Ei).
      exists v'. rewrite Ei. done.
    + exists v. split; [| done]. now apply (end_child_kept x e0 v).
  - intros z1 z2 e1 e2 U1 U2 L1 L2 K1 K2 Heq.
    destruct (Hcase _ _ U1 L1) as (V1 & d1 & D1 & C1 & X1 & _).
    destruct (Hcase _ _ U2 L2) as (V2 & d2 & D2 & C2 & X2 & _).
    rewrite C1 in K1. rewrite C2 in K2. rewrite X1, X2 in Heq. eauto.
Qed.

Lemma R_end : R w' (upd td (aend (A td)) A).
Proof.
  assert (Hnd := R_nodup _ _ HR td). destruct (NoDup_parts _ _ _ _ Eo Hnd) as (_ & _ & Hzo).
  assert (Hopen : forall i x, x ∈ map fst (opened (A i)) -> x <> z -> open_zone w' x).
  { intros i x Hin Hne. destruct (R_open _ _ HR i x Hin) as (ex & Ex & Ee & Hk).
    exists ex. rewrite end_heap_other by done. split_and!; auto. intros Hkx.
    destruct (Hk Hkx) as (v & Ev & Hg). exists v. split; [| done].
    apply (end_child_kept x ex v); auto. exists i. now apply opened_in_use. }
  refine (R_other w w' A td _ t' HR Hthr Hsrc end_zones_wf _ _ _ _ _ _ _ _ _ _ _).
  - intros i Hi. rewrite Ht'. now rewrite list_lookup_insert_ne.
  - rewrite Ht'. apply length_insert.
  - rewrite Ht'. apply list_lookup_insert_eq. now apply lookup_lt_Some in Ht.
  - intros i x Hne Hin. apply end_zinfo_other; [now exists i |]. intros ->.
    eapply (R_disj _ _ HR i td z Hne Hin). apply opened_in_use. rewrite Eo. left.
  - destruct Hen as [N1 N2 N3 N4 N5 N6 N7].
    eapply aend_rep; [exact Eo | exact (R_rep _ _ HR _ _ Ht) | exact Hnd | | | done | done | done |].
    + intros x Hin Hne. apply end_zinfo_other; [now exists td | done].
    + now rewrite end_zinfo.
    + now rewrite end_zinfo.
  - now rewrite all_ids_aend.
  - intros x. rewrite all_ids_aend. auto.
  - intros x. rewrite all_ids_aend, Eh, length_insert. intros Hin. exact (R_heap _ _ HR _ _ Hin).
  - rewrite Eh, length_insert. done.
  - intros i x Hne Hin. apply (Hopen i x Hin). intros ->.
    eapply (R_disj _ _ HR i td z Hne); apply opened_in_use; [done | rewrite Eo; left].
  - intros x. rewrite (opened_aend _ _ _ _ Eo). intros Hin. apply (Hopen td x).
    + rewrite Eo. cbn. now right.
    + intros ->. apply Hzo. clear - Hin. unfold open_ids.
      induction o as [| [y yk] o' IH]; [done |]. cbn in *. rewrite elem_of_cons, elem_of_app in *.
      destruct Hin as [-> | Hin]; auto.
Qed.
End End_.
