(* ===== verification/ZoneForest.v ===== *)
(** * Zones: the handlers refine the call forest

    [ProcessZoneBegin] pushes a zone on the forest of the current thread,
    [ProcessZoneEnd] closes the innermost one and records its statistics, and the
    protocol errors of a client are recognised. *)
From S2P Require Import Prelude Double Queue Wire Event Containers Discovery Trace Server ServerSpec ServerZone.
From S2P Require Import ZoneSpec.

(** The child list of [e] may have moved to a block of its size; nothing else
    about child lists changed. *)
Definition children_fitted (w w' : W) (e : ZoneEvent.t) : Prop :=
  (ZoneEvent.HasChildren e = true -> forall v,
     zoneChildren w !! Z.to_nat (ZoneEvent.Child e) = Some v -> exists v',
     zoneChildren w' !! Z.to_nat (ZoneEvent.Child e) = Some v' /\ Vector.items v' = Vector.items v) /\
  (forall k v, (ZoneEvent.HasChildren e = true -> k <> Z.to_nat (ZoneEvent.Child e)) ->
     zoneChildren w !! k = Some v -> zoneChildren w' !! k = Some v) /\
  Forall growing (zoneVectorCache w').

Lemma fit_children_spec e w :
  (ZoneEvent.HasChildren e = true ->
   exists v, zoneChildren w !! Z.to_nat (ZoneEvent.Child e) = Some v /\ growing v) ->
  Forall growing (zoneVectorCache w) ->
  wp (fit_children e) (fun _ w' => erase_children w' = erase_children w /\
    zone_heap w' = zone_heap w /\ children_fitted w w' e) w.
Proof.
  intros Hch Hca. unfold fit_children, children_fitted. destruct (ZoneEvent.HasChildren e).
  - destruct (Hch eq_refl) as (v & Ev & Hg). wp_steps. eapply wp_expect; [exact Ev |].
    destruct (Vector.m_size v <=? 8 * 1024).
    + wp_steps. eapply wp_expect; [reflexivity |]. wp_steps. split; [erased |]. split; [done |].
      split; [| split].
      * intros _ x Ex. simplify_eq. eexists. split; [apply list_lookup_insert_eq |]; [| done].
        now apply lookup_lt_Some in Ev.
      * intros k x Hk Ex. cbn. rewrite list_lookup_insert_ne; [done |]. intros <-. now apply Hk.
      * cbn. apply Forall_snoc. auto.
    + wp_steps. split_and!; eauto.
  - wp_steps. split_and!; auto. discriminate.
Qed.

Definition erase_stats (w : W) : W :=
  w <| threads := [] |> <| localThreadCompress := ThreadCompress.empty |>
    <| srclocZonesLast := (0, None) |> <| sourceLocationZones := ∅ |>.

(** What the statistics of a source location gain from a zone: its whole time,
    and the time of its own, without that of its children. *)
Definition gained (span self : Z) (s s' : SourceLocationZones) : Prop :=
  total s' = sint 64 (total s + span) /\ selfTotal s' = sint 64 (selfTotal s + self) /\
  min s' = Z.min (min s) span /\ max s' = Z.max (max s) span /\
  length (SortedVector.v (zones s')) = S (length (SortedVector.v (zones s))).

Lemma add_span_gained h ztd span self re ctid s :
  gained span self s (count_thread ctid (add_span h ztd span self re s)).
Proof.
  unfold gained. destruct re; cbn; rewrite length_app; cbn;
    (split_and!; [done | done | | | lia]);
    [destruct (Z.ltb_spec span (min s)) | destruct (Z.ltb_spec (max s) span) |
     destruct (Z.ltb_spec span (min s)) | destruct (Z.ltb_spec (max s) span)]; lia.
Qed.

Lemma zone_statistics_spec td zone timeEnd re w t e l ct :
  threads w !! td = Some t -> zone_heap w !! zone = Some e -> childTimeStack t = l ++ [ct] ->
  srcs_ok w -> is_Some (sourceLocationZones w !! ZoneEvent.SrcLoc e) ->
  let span := sint 64 (timeEnd - ZoneEvent.Start e) in
  wp (zone_statistics td zone timeEnd re) (fun _ w' => erase_stats w' = erase_stats w /\
    threads w' = <[td := t <| childTimeStack := end_times span (childTimeStack t) |>]> (threads w) /\
    srcs_ok w' /\
    (forall k s, sourceLocationZones w !! k = Some s -> exists s',
       sourceLocationZones w' !! k = Some s' /\
       if (0 <? span) && (k =? ZoneEvent.SrcLoc e)
       then gained span (sint 64 (span - ct)) s s' else s' = s)) w.
Proof.
  intros Et Ez El Hs [slz Eslz]. cbv zeta. unfold zone_statistics. apply wp_bind.
  eapply GetThread_wp; [exact Et |]. unfold GetZone. wp_steps. eapply wp_expect; [exact Ez |].
  wp_steps. eapply wp_expect; [rewrite El; apply last_snoc |]. cbv zeta. unfold end_times.
  destruct (0 <? sint 64 (timeEnd - ZoneEvent.Start e)) eqn:Esp.
  - unfold CompressThread. wp_steps. set (w1 := over localThreadCompress _ w).
    assert (Hs1 : srcs_ok w1) by (eapply srcs_ok_frame; [exact Hs | ..]; done).
    assert (Hr : in_sint 16 (ZoneEvent.SrcLoc e)) by (apply sint_range; lia).
    eapply wp_mono; [apply (GetSourceLocationZones_spec _ w1 Hs1 Hr); eexists; exact Eslz |].
    intros key w2 (-> & -> & Hs2). wp_steps. eapply wp_expect; [exact Eslz |]. wp_steps.
    eapply UpdThread_wp; [exact Et |]. wp_steps.
    split; [erased |]. split; [done |]. split.
    + destruct Hs2 as [P1 P2 P3 P4 P5 P6].
      assert (Hi : forall k, is_Some (sourceLocationZones w !! k) -> forall s,
        is_Some (<[ZoneEvent.SrcLoc e := s]> (sourceLocationZones w) !! k)).
      { intros k Hk s. destruct (decide (k = ZoneEvent.SrcLoc e)) as [-> | Hne].
        - rewrite lookup_insert_eq. eauto.
        - now rewrite lookup_insert_ne. }
      split; cbn -[source_of] in *.
      * intros s i Ei. destruct (P1 _ _ Ei) as (? & ? & Hso). split; [done |]. split; [auto | exact Hso].
      * destruct P2 as [? | [? Hso]]; [auto |]. right. split; [auto | exact Hso].
      * destruct P3. auto.
      * rewrite lookup_insert_ne; [done |]. intros Heq. rewrite Heq in Eslz. congruence.
      * done.
      * intros Hp. destruct (P6 Hp). auto.
    + intros k s Es. cbn. destruct (Z.eqb_spec k (ZoneEvent.SrcLoc e)) as [-> | Hne].
      * rewrite lookup_insert_eq. eexists. split; [reflexivity |]. simplify_eq.
        apply add_span_gained.
      * exists s. now rewrite lookup_insert_ne.
  - eapply UpdThread_wp; [exact Et |]. split; [erased |]. split; [done |].
    split; [eapply srcs_ok_frame; [exact Hs | ..]; done |]. intros k s Es. exists s. done.
Qed.

Definition erase_end (w : W) : W := erase_stats (erase_children (w <| lastTime := 0 |>)).

(** The last steps, once the zone has its end time. *)
Lemma end_rest td zone timeEnd re w t e l ct :
  threads w !! td = Some t -> zone_heap w !! zone = Some e -> childTimeStack t = l ++ [ct] ->
  srcs_ok w -> is_Some (sourceLocationZones w !! ZoneEvent.SrcLoc e) ->
  (ZoneEvent.HasChildren e = true ->
   exists v, zoneChildren w !! Z.to_nat (ZoneEvent.Child e) = Some v /\ growing v) ->
  Forall growing (zoneVectorCache w) ->
  let span := sint 64 (timeEnd - ZoneEvent.Start e) in
  wp (touch_lastTime timeEnd;; z ← GetZone zone; fit_children z;; zone_statistics td zone timeEnd re)
    (fun _ w' => erase_end w' = erase_end w /\ lastTime w' = Z.max (lastTime w) timeEnd /\
      zone_heap w' = zone_heap w /\
      threads w' = <[td := t <| childTimeStack := end_times span (childTimeStack t) |>]> (threads w) /\
      srcs_ok w' /\ children_fitted w w' e /\
      (forall k s, sourceLocationZones w !! k = Some s -> exists s',
         sourceLocationZones w' !! k = Some s' /\
         if (0 <? span) && (k =? ZoneEvent.SrcLoc e)
         then gained span (sint 64 (span - ct)) s s' else s' = s)) w.
Proof.
  intros Et Ez El Hs Hsrc Hch Hca. cbv zeta. unfold touch_lastTime, GetZone. wp_steps.
  set (w1 := over lastTime _ w). eapply wp_expect; [exact Ez |]. wp_steps.
  eapply wp_mono; [apply (fit_children_spec e w1 Hch Hca) |].
  intros _ w2 (He2 & Eh2 & Hfit).
  assert (Et2 : threads w2 = threads w) by frame He2 threads.
  assert (Es2 : sourceLocationZones w2 = sourceLocationZones w) by frame He2 sourceLocationZones.
  assert (Hs2 : srcs_ok w2).
  { eapply srcs_ok_frame; [exact Hs | frame He2 m_sourceLocationShrink | exact Es2 |
      frame He2 shrinkSrclocLast | frame He2 srclocZonesLast | frame He2 sourceLocationExpand |
      frame He2 m_pendingSourceLocationPayload]. }
  eapply wp_mono; [apply (zone_statistics_spec td zone timeEnd re w2 t e l ct); auto |].
  - now rewrite Et2.
  - rewrite Eh2. exact Ez.
  - now rewrite Es2.
  - intros _ w3 (He3 & Et3 & Hs3 & Hst).
    assert (Eh3 : zone_heap w3 = zone_heap w2) by frame He3 zone_heap.
    assert (El3 : lastTime w3 = lastTime w1) by (transitivity (lastTime w2); [frame He3 lastTime | frame He2 lastTime]).
    split_and!.
    + transitivity (erase_end (erase_stats w3)); [erased |]. rewrite He3.
      transitivity (erase_end (erase_children w2)); [erased |]. rewrite He2. erased.
    + rewrite El3. cbn. destruct (Z.ltb_spec (lastTime w) timeEnd); lia.
    + now rewrite Eh3, Eh2.
    + now rewrite Et3, Et2.
    + exact Hs3.
    + assert (E1 : zoneChildren w3 = zoneChildren w2) by frame He3 zoneChildren.
      assert (E2 : zoneVectorCache w3 = zoneVectorCache w2) by frame He3 zoneVectorCache.
      unfold children_fitted. rewrite E1, E2. exact Hfit.
    + now rewrite <- Es2.
Qed.

(** No zone is in use. *)
Ltac no_use := intros; match goal with
  | Hu : in_use _ _ |- _ => destruct Hu as [? Hu]; inversion Hu
  | Hi : _ ∈ all_ids no_zones |- _ => inversion Hi
  | Hi : _ ∈ map fst (opened no_zones) |- _ => inversion Hi
  end.

Section Theorems.
Context `{Slab}.

Lemma begin_alloc w A : R w A ->
  R (w <| zone_heap ::= (fun l => l ++ [(junk (length (zone_heap w))) <| ZoneEvent.extra := 0 |>]) |>) A.
Proof. apply R_alloc. Qed.

(** A zone of the source location [srcloc] that starts at [start] is pushed on the
    forest of the current thread. *)
Definition zone_begun (A : nat -> AThread) (zone : nat) (srcloc start : Z) (w' : W) : Prop :=
  exists td e, current w' = Some td /\ R w' (upd td (abegin zone (A td)) A) /\
    zone_heap w' !! zone = Some e /\ ZoneEvent.Start e = sint 48 start /\
    source_of w' (ZoneEvent.SrcLoc e) = Some srcloc.

(** C5: the beginning of a zone pushes it on the call forest of the current
    thread (creating the thread if it is new), whatever zones other threads have
    open, and no assertion fails: the representation still holds the forest, with
    the new zone as the innermost open one; the zone has its start time, and the
    number it stores for its source location stands for the one of the event; the time reference advances by the delta of the event. *)
Theorem ProcessZoneBegin_forest (time srcloc : Z) (w : W) (A : nat -> AThread) (start : Z) :
  R w A -> room w -> srcloc <> max_u64 ->
  Z.of_nat (length (sourceLocationExpand w)) + 1 < int16_max ->
  time_of w (sint 64 (m_refTimeThread w + time)) = Some start -> start < 2 ^ 47 ->
  let zone := length (zone_heap w) in
  wp (ProcessZoneBegin time srcloc) (fun _ w' =>
    m_refTimeThread w' = sint 64 (m_refTimeThread w + time) /\
    lastTime w' = Z.max (lastTime w) start /\
    (Z.of_nat (size (sourceLocation w)) <= int16_max -> m_failure w' = m_failure w) /\
    zone_begun A zone srcloc start w') w.
Proof.
  intros HR Hroom Hmax Hex Htime Hstart. cbv zeta. pose proof (alloc_fresh w A HR) as Hfr.
  unfold ProcessZoneBegin, AllocZoneEvent. wp_steps. set (n := length (zone_heap w)) in *.
  set (j := (junk n) <| ZoneEvent.extra := 0 |>). set (w1 := over zone_heap _ w).
  assert (HR1 : R w1 A) by now apply R_alloc.
  assert (Ej : zone_heap w1 !! n = Some j) by now apply list_lookup_middle.
  unfold ProcessZoneBeginImpl. wp_steps. wp_call CheckSourceLocation_spec.
  intros _ w2 (He2 & Hf2). pose proof (R_checked _ _ _ HR1 He2) as HR2. red in He2. cbv zeta in He2.
  unfold RefTime. wp_steps. set (w3 := over m_refTimeThread _ w2).
  assert (HR3 : R w3 A) by R_same HR2.
  assert (Eref : m_refTimeThread w2 = m_refTimeThread w) by frame He2 m_refTimeThread.
  assert (Etime : time_of w3 = time_of w).
  { assert (E1 : baseTime w2 = baseTime w) by frame He2 baseTime.
    assert (E2 : m_timerMul w2 = m_timerMul w) by frame He2 m_timerMul.
    unfold time_of. change (baseTime w3) with (baseTime w2). change (m_timerMul w3) with (m_timerMul w2).
    now rewrite E1, E2. }
  eapply TscTime_wp; [rewrite Eref, Etime; exact Htime |].
  wp_steps. assert (Hex3 : sourceLocationExpand w3 = sourceLocationExpand w) by frame He2 sourceLocationExpand.
  eapply wp_mono; [apply (ShrinkSourceLocation_spec srcloc w3 (R_srcs _ _ HR3) Hmax); now rewrite Hex3 |].
  intros sl w4 (S4 & Hsh & Hsl & His & Hso). pose proof (R_shrunk _ _ _ HR3 Hsh S4) as HR4.
  destruct Hsh as [He4 _]. cbv zeta in He4.
  assert (Eh4 : zone_heap w4 = zone_heap w1)
    by (transitivity (zone_heap w2); [frame He4 zone_heap | frame He2 zone_heap]).
  eapply wp_mono; [apply (begin_rest w4 A n j start sl HR4) |]; auto.
  - now rewrite Eh4.
  - apply junk_ok.
  - assert (E1 : zoneChildren w4 = zoneChildren w)
      by (transitivity (zoneChildren w2); [frame He4 zoneChildren | frame He2 zoneChildren]).
    assert (E2 : zoneVectorCache w4 = zoneVectorCache w)
      by (transitivity (zoneVectorCache w2); [frame He4 zoneVectorCache | frame He2 zoneVectorCache]).
    unfold room. now rewrite E1, E2.
  - intros _ w' (He' & El & Hfin).
    assert (El4 : lastTime w4 = lastTime w)
      by (transitivity (lastTime w2); [frame He4 lastTime | frame He2 lastTime]).
    split_and!.
    + transitivity (m_refTimeThread w4); [frame He' m_refTimeThread |].
      transitivity (m_refTimeThread w3); [frame He4 m_refTimeThread |]. cbn. now rewrite Eref.
    + now rewrite El, El4.
    + intros Hsz. transitivity (m_failure w4); [frame He' m_failure |].
      transitivity (m_failure w2); [frame He4 m_failure |]. exact (Hf2 Hsz).
    + destruct Hfin as (td & e & Hc & HR' & Ez & Es & Esl). exists td, e.
      split_and!; auto. rewrite Esl. unfold source_of in *.
      assert (E : sourceLocationExpand w' = sourceLocationExpand w4) by frame He' sourceLocationExpand.
      now rewrite E.
Qed.

Lemma Start_range e : ZoneEvent.ok e -> in_sint 48 (ZoneEvent.Start e).
Proof.
  intros (Hw & _ & _). unfold ZoneEvent.Start. rewrite time48_bits by done. apply sint_range. lia.
Qed.

Lemma SetEnd_some timeEnd e :
  timeEnd < 2 ^ 47 ->
  ZoneEvent.SetEnd timeEnd e = Some (e <| ZoneEvent._end_child1 ::= set_time48 timeEnd |>).
Proof.
  intros Hlt. unfold ZoneEvent.SetEnd, assert47. destruct (Z.ltb_spec timeEnd (2 ^ 47)); [done | lia].
Qed.

(** The expected validation number is not part of the forest. *)
Lemma R_next w A td t n :
  R w A -> threads w !! td = Some t ->
  R (w <| threads ::= <[td := t <| nextZoneId := n |>]> |>) A.
Proof.
  intros HR Et. assert (Hthr : threads_ok (w <| threads ::= <[td := t <| nextZoneId := n |>]> |>))
    by (eapply (threads_ok_upd w _ td t); [apply HR | exact Et | ..]; reflexivity).
  destruct HR as [H1 H2 [G1 G2 G3 G4] H4 H5 H6 H7 H8 H9]. split; auto.
  - eapply srcs_ok_frame; [exact H2 | ..]; reflexivity.
  - split; auto.
  - intros i x Ei. change (zinfo _) with (zinfo w). destruct (decide (i = td)) as [-> | Hne].
    + rewrite (upd_lookup _ _ _ _ Et) in Ei. injection Ei as <-.
      destruct (H4 _ _ Et) as [? ? ? ? ? ?]. now split.
    + cbn in Ei. rewrite list_lookup_insert_ne in Ei by done. eauto.
  - intros i Hi. apply H5. cbn in Hi. now rewrite length_insert in Hi.
Qed.

(** The current thread, when it is already known. *)
Lemma current_wp w td (Q : nat -> W -> Prop) :
  threads_ok w -> current w = Some td -> (is_Some (threads w !! td) -> Q td w) ->
  wp GetCurrentThreadData Q w.
Proof.
  intros Hok Hc HQ. eapply wp_mono; [apply (GetCurrentThreadData_spec w Hok) |].
  intros td' w' (_ & _ & Hc' & Hi & Hsame).
  assert (E : w' = w).
  { apply Hsame. unfold current in Hc. destruct (m_threadCtxData w); [eauto | done]. }
  subst w'. rewrite Hc in Hc'. simplify_eq. auto.
Qed.

(** A new connection has no zones. *)
Lemma R_Worker mul b e sp od im fr : R (Worker mul b e sp od im fr) (fun _ => no_zones).
Proof.
  split; try done.
  - split; try done. now left.
  - intros i. constructor.
  - no_use.
  - no_use.
  - no_use.
Qed.

Lemma threads_twice (w : W) td x y :
  w <| threads ::= <[td := x]> |> <| threads ::= <[td := y]> |> =
  w <| threads ::= <[td := y]> |>.
Proof.
  transitivity (w <| threads := <[td := y]> (<[td := x]> (threads w)) |>); [erased |].
  rewrite list_insert_insert_eq. erased.
Qed.

(** The thread of a zone end, once the zone is popped. *)
Definition popped (t t4 : ThreadData) : Prop :=
  id t4 = id t /\ timeline t4 = timeline t /\ zoneIdStack t4 = removelast (zoneIdStack t) /\
  stack t4 = removelast (stack t) /\ childTimeStack t4 = childTimeStack t /\
  fiber t4 = fiber t /\ nextZoneId t4 = 0.

(** The steps of a valid zone end up to the statistics: the zone is popped and gets
    its end time. *)
Lemma end_pop time w A td t z ks o e timeEnd Q :
  R w A -> current w = Some td -> threads w !! td = Some t ->
  opened (A td) = (z, ks) :: o -> last (zoneIdStack t) = Some (nextZoneId t) ->
  zone_heap w !! z = Some e ->
  time_of w (sint 64 (m_refTimeThread w + time)) = Some timeEnd ->
  ZoneEvent.Start e <= timeEnd -> timeEnd < 2 ^ 47 ->
  let e' := e <| ZoneEvent._end_child1 ::= set_time48 timeEnd |> in
  (forall t4 re, popped t t4 -> wp (touch_lastTime timeEnd;; z' ← GetZone z; fit_children z';;
      zone_statistics td z timeEnd re) Q
    (w <| threads := <[td := t4]> (threads w) |>
       <| m_refTimeThread := sint 64 (m_refTimeThread w + time) |>
       <| zone_heap := <[z := e']> (zone_heap w) |>)) ->
  wp (ProcessZoneEnd time) Q w.
Proof.
  intros HR Hcur Et Eo Hid Ez Htime Hge Hlt. cbv zeta. intros HQ.
  destruct (R_open _ _ HR td z) as (e0 & Ee0 & Hend & _); [rewrite Eo; left |].
  rewrite Ez in Ee0. injection Ee0 as <-.
  assert (Hst := rt_stack _ _ _ (R_rep _ _ HR _ _ Et)).
  rewrite Eo in Hst. cbn [map rev fst] in Hst.
  assert (Hin : in_use A z) by (exists td; apply opened_in_use; rewrite Eo; left).
  destruct (zw_ok _ _ (R_zones _ _ HR) _ _ Hin Ez) as [Hok _].
  destruct (zone_SetEnd e timeEnd Hok _ (SetEnd_some timeEnd e Hlt)) as (_ & _ & N2 & _).
  unfold ProcessZoneEnd. apply wp_bind. eapply current_wp; [apply HR | exact Hcur |]. intros _.
  apply wp_bind. eapply GetThread_wp; [exact Et |]. wp_steps. rewrite Hid, Z.eqb_refl. cbn [negb].
  apply wp_bind. eapply UpdThread_wp; [exact Et |].
  apply wp_bind. eapply UpdThread_wp; [eapply upd_lookup; exact Et |].
  rewrite Hst, last_snoc. wp_steps. eapply wp_expect; [reflexivity |].
  wp_steps. eapply UpdThread_wp; [eapply upd_lookup, upd_lookup; exact Et |].
  unfold GetZone at 1. wp_steps. eapply wp_expect; [exact Ez |]. wp_steps.
  eapply UpdThread_wp; [eapply upd_lookup, upd_lookup, upd_lookup; exact Et |].
  unfold RefTime. wp_steps. eapply TscTime_wp; [exact Htime |].
  unfold UpdZone, GetZone at 1, SetZone. wp_steps. eapply wp_expect; [exact Ez |]. wp_steps.
  eapply wp_expect; [now apply SetEnd_some |]. do 3 wp_step.
  set (t4 := over stackCount _ _). assert (Hp : popped t t4) by (unfold popped, t4; cbn; now rewrite Hst, removelast_snoc).
  specialize (HQ t4 (fst (DecStackCount (ZoneEvent.SrcLoc e) (stackCount t))) Hp).
  clearbody t4.
  rewrite !threads_twice. exact HQ.
Qed.

Lemma sint_sub_inner a b : sint 64 (a - sint 64 b) = sint 64 (a - b).
Proof.
  apply sint_mod_eq. unfold uint. rewrite Zminus_mod, (Zminus_mod _ b). f_equal. f_equal.
  exact (uint_sint 64 _ ltac:(lia)).
Qed.

(** The zone [z] of [td] has ended at [timeEnd]: it is closed in the forest, and
    its source location has its time, and the time it did not spend in [ks]. *)
Definition zone_ended (w : W) (A : nat -> AThread) (td z : nat) (ks : list tree)
    (e : ZoneEvent.t) (timeEnd : Z) (w' : W) : Prop :=
  R w' (upd td (aend (A td)) A) /\
  (exists e', zone_heap w' !! z = Some e' /\ ZoneEvent.Start e' = ZoneEvent.Start e /\
     ZoneEvent.End_ e' = timeEnd) /\
  let span := timeEnd - ZoneEvent.Start e in
  forall s, sourceLocationZones w !! ZoneEvent.SrcLoc e = Some s -> exists s',
    sourceLocationZones w' !! ZoneEvent.SrcLoc e = Some s' /\
    if 0 <? span then gained span (sint 64 (span - spans (zinfo w) ks)) s s' else s' = s.

(** C4: the end of a zone that passes validation closes the innermost open zone of
    the current thread: the forest becomes [aend] of it (the zone is now the last
    child of the zone that enclosed it, or the last outermost zone), the zone gets
    its end time and keeps its start, no assertion fails, and the statistics of its
    source location gain its time and the time of its own, that is without the time
    spent in its finished children. *)
Theorem ProcessZoneEnd_forest (time : Z) (w : W) (A : nat -> AThread) (td : nat) (t : ThreadData)
    (z : nat) (ks : list tree) (o : list (nat * list tree)) (e : ZoneEvent.t) (timeEnd : Z) :
  R w A -> current w = Some td -> threads w !! td = Some t ->
  opened (A td) = (z, ks) :: o -> last (zoneIdStack t) = Some (nextZoneId t) ->
  zone_heap w !! z = Some e ->
  time_of w (sint 64 (m_refTimeThread w + time)) = Some timeEnd ->
  ZoneEvent.Start e <= timeEnd -> timeEnd < 2 ^ 47 ->
  wp (ProcessZoneEnd time) (fun _ w' =>
    m_refTimeThread w' = sint 64 (m_refTimeThread w + time) /\ m_failure w' = m_failure w /\
    lastTime w' = Z.max (lastTime w) timeEnd /\ current w' = Some td /\
    zone_ended w A td z ks e timeEnd w') w.
Proof.
  intros HR Hcur Et Eo Hid Ez Htime Hge Hlt.
  assert (Hrep := R_rep _ _ HR _ _ Et). assert (Hct := rt_times _ _ _ Hrep). rewrite Eo in Hct.
  assert (Hu : in_use A z) by (exists td; apply opened_in_use; rewrite Eo; left).
  destruct (zw_ok _ _ (R_zones _ _ HR) _ _ Hu Ez) as [Hok Hsrc].
  destruct (R_open _ _ HR td z) as (e0 & Ee0 & _ & Hch); [rewrite Eo; left |].
  rewrite Ez in Ee0. injection Ee0 as <-.
  destruct (zone_SetEnd e timeEnd Hok _ (SetEnd_some timeEnd e Hlt)) as (Hok' & N1 & N2 & N3 & N4).
  eapply end_pop; eauto. cbv zeta. set (e' := e <| ZoneEvent._end_child1 ::= _ |>) in *.
  intros t4 re (P1 & P2 & P3 & P4 & P5 & P6 & P7). set (w5 := _ <| zone_heap := _ |>).
  assert (Hr := Start_range e Hok). red in Hr.
  assert (Hend : ZoneEvent.End_ e' = timeEnd)
    by (rewrite N1; apply sint_small; [lia | red; lia]).
  assert (Hspan : sint 64 (timeEnd - ZoneEvent.Start e') = timeEnd - ZoneEvent.Start e)
    by (rewrite N2; apply sint_small; [lia | red; lia]).
  assert (Hkids : ZoneEvent.HasChildren e' = ZoneEvent.HasChildren e)
    by (rewrite !ZoneEvent.HasChildren_Child by done; now rewrite N4).
  eapply wp_mono; [eapply (end_rest td z timeEnd re w5 t4 e') |].
  - apply list_lookup_insert_eq. now apply lookup_lt_Some in Et.
  - apply list_lookup_insert_eq. now apply lookup_lt_Some in Ez.
  - rewrite P5. exact Hct.
  - eapply srcs_ok_frame; [exact (R_srcs _ _ HR) | ..]; done.
  - rewrite N3. exact Hsrc.
  - rewrite Hkids, N4. exact Hch.
  - exact (zw_cache _ _ (R_zones _ _ HR)).
  - rewrite Hspan. intros _ w' (He & El & Eh & Ethr & Hs & (F1 & F2 & F3) & Hstat).
    rewrite N4, Hkids in F1. rewrite N4, Hkids in F2.
    set (t' := t4 <| childTimeStack := _ |>) in *.
    assert (Ethr' : threads w' = <[td := t']> (threads w))
      by (rewrite Ethr; apply list_insert_insert_eq).
    assert (Ectx : m_threadCtxData w' = m_threadCtxData w) by frame He m_threadCtxData.
    unfold zone_ended. split_and!; [frame He m_refTimeThread | frame He m_failure | done | | | |].
    + rewrite (current_upd w w' td t t'); auto.
    + assert (Hthr : threads_ok w').
      { apply (threads_ok_upd w w' td t t'); auto; [apply HR | frame He m_threadMap |
          frame He threadDataLast | frame He m_threadCtx]. }
      assert (Hen : ended (ZoneEvent.End_ e' - ZoneEvent.Start e') t t').
      { rewrite Hend, N2. split; cbn; auto; try congruence. rewrite P3.
        apply last_snoc_inv in Hid as [l' ->]. rewrite removelast_snoc, length_app. simpl. lia. }
      eapply (R_end w w' A td z ks o t t' e e'); auto.
      intros k s Es. destruct (Hstat k s Es) as (s' & Es' & _). eauto.
    + exists e'. rewrite Eh. split; [| auto]. apply list_lookup_insert_eq. now apply lookup_lt_Some in Ez.
    + cbv zeta. intros s Es. destruct (Hstat _ s Es) as (s' & Es' & Hg). exists s'.
      split; [exact Es' |]. rewrite N3, Z.eqb_refl, andb_true_r in Hg.
      destruct (0 <? timeEnd - ZoneEvent.Start e); [| done]. now rewrite sint_sub_inner in Hg.
Qed.

(** A zone end is refused with [failure], blamed on [thread] and on the zone
    [culprit], if any; the zones and the time reference are as before. *)
Definition end_refused (w : W) (failure : Failure) (thread : Z) (culprit : option nat)
    (w' : W) : Prop :=
  m_failure w' = failure /\ fd_thread (m_failureData w') = thread /\
  fd_srcloc (m_failureData w') =
    default 0 (z ← culprit; ZoneEvent.SrcLoc <$> zone_heap w !! z) /\
  zone_heap w' = zone_heap w /\ zoneChildren w' = zoneChildren w /\
  m_refTimeThread w' = m_refTimeThread w.

(** C39: protocol errors of zone ends are recognised and stop nothing but the
    connection: an end without an open zone is a double end, one that does not
    carry the validation number its zone began with a stack failure; both name the
    thread and the source location of the zone at fault, and leave the zones and
    the time reference as they were. *)
Theorem ProcessZoneEnd_rejects (time : Z) (w : W) (A : nat -> AThread) (td : nat) (t : ThreadData) :
  R w A -> current w = Some td -> threads w !! td = Some t ->
  last (zoneIdStack t) <> Some (nextZoneId t) ->
  wp (ProcessZoneEnd time) (fun _ w' =>
    match opened (A td) with
    | [] => end_refused w ZoneDoubleEnd (id t) (root <$> last (closed (A td))) w'
    | (z, _) :: _ => end_refused w ZoneStack (id t) (Some z) w'
    end) w.
Proof.
  intros HR Hcur Et Hid. assert (Hrep := R_rep _ _ HR _ _ Et).
  assert (Hheap : forall z, z ∈ all_ids (A td) -> exists e, zone_heap w !! z = Some e)
    by (intros z Hz; apply lookup_lt_is_Some, (R_heap _ _ HR _ _ Hz)).
  assert (Hlen := rt_ids _ _ _ Hrep). assert (Htl := rt_timeline _ _ _ Hrep).
  assert (Hst := rt_stack _ _ _ Hrep).
  unfold ProcessZoneEnd. apply wp_bind. eapply current_wp; [apply HR | exact Hcur |]. intros _.
  apply wp_bind. eapply GetThread_wp; [exact Et |]. wp_steps.
  destruct (opened (A td)) as [| [z ks] o] eqn:Eo.
  - destruct (zoneIdStack t); [| done]. cbn [last]. rewrite Htl, app_nil_r.
    destruct (last (closed (A td))) as [tr |] eqn:El.
    + apply last_snoc_inv in El as [l El]. rewrite El, map_app. cbn [map]. rewrite last_snoc.
      destruct (Hheap (root tr)) as [e Ee].
      { unfold all_ids. rewrite elem_of_app, El. left. rewrite ids_of_app, elem_of_app. right.
        unfold ids_of. cbn. rewrite app_nil_r. apply root_ids. }
      unfold GetZone. wp_steps. eapply wp_expect; [exact Ee |]. unfold ZoneDoubleEndFailure, set_failure.
      wp_steps. unfold end_refused. cbn [fmap option_fmap option_map mbind option_bind].
      rewrite Ee. split_and!; done.
    + apply last_None in El. rewrite El. cbn [map last]. unfold ZoneDoubleEndFailure, set_failure.
      wp_steps. split_and!; done.
  - destruct (last (zoneIdStack t)) as [zid |] eqn:El.
    2: { apply last_None in El. rewrite El in Hlen. done. }
    apply wp_bind. eapply UpdThread_wp; [exact Et |].
    destruct (Z.eqb_spec zid (nextZoneId t)) as [-> | Hne]; [done |]. cbn [negb].
    cbn [map rev fst] in Hst. rewrite Hst, last_snoc. wp_steps. eapply wp_expect; [reflexivity |].
    destruct (Hheap z) as [e Ee]; [apply opened_in_use; rewrite Eo; left |].
    unfold GetZone. wp_steps. eapply wp_expect; [exact Ee |]. unfold ZoneStackFailure, set_failure.
    wp_steps. unfold end_refused. cbn [fmap option_fmap option_map mbind option_bind].
      rewrite Ee. split_and!; done.
Qed.
End Theorems.

(** ** Witnesses *)
Lemma demo_junk (n : nat) : ZoneEvent.ok (ZoneEvent.mk 1 2 3 4).
Proof. repeat split; vm_compute; discriminate || reflexivity. Qed.
#[export] Instance demo_slab : Slab := {| junk := fun _ => ZoneEvent.mk 1 2 3 4; junk_ok := demo_junk |}.

(** A connection with a clock of one nanosecond, at thread 7. *)
Definition demo_server : W :=
  (Worker (double_of_Z 1) 1000 1000 100 false false [0; 0]) <| m_threadCtx := 7 |>.

Lemma demo_server_R : R demo_server (fun _ => no_zones).
Proof.
  pose proof (R_Worker (double_of_Z 1) 1000 1000 100 false false [0; 0]) as HR.
  eapply R_frame; [exact HR | | eapply srcs_ok_frame; [exact (R_srcs _ _ HR) | ..]; done | ..];
    try reflexivity.
  - destruct (R_threads _ _ HR). split; try done; intros; discriminate.
  - cbn. eauto.
Qed.

Lemma ProcessZoneBegin_forest_witness :
  wp (ProcessZoneBegin 1005 0xABC0) (fun _ w' => m_refTimeThread w' = 1005 /\
    exists td e, current w' = Some td /\ R w' (upd td (abegin 0 no_zones) (fun _ => no_zones)) /\
      zone_heap w' !! 0%nat = Some e /\ ZoneEvent.Start e = 5 /\
      source_of w' (ZoneEvent.SrcLoc e) = Some 0xABC0) demo_server.
Proof.
  eapply wp_mono.
  - apply (ProcessZoneBegin_forest 1005 0xABC0 demo_server (fun _ => no_zones) 5 demo_server_R).
    + split; [reflexivity | split; constructor].
    + discriminate.
    + reflexivity.
    + vm_compute. reflexivity.
    + reflexivity.
  - intros _ w' (Hr & _ & _ & Hx). split; [exact Hr | exact Hx].
Defined.

(** The same connection with one zone open since time 5. *)
Definition demo_zone : ZoneEvent.t :=
  match init_zone 5 1 (junk 0) with Some e => e | None => junk 0 end.
Definition demo_server' : W :=
  demo_server <| zone_heap := [demo_zone] |> <| sourceLocationExpand := [0; 0xABC0] |>
    <| sourceLocationZones := {[1 := new_SourceLocationZones]} |>.
Definition demo_open : W :=
  match NewZone 0 demo_server' with Some (_, w) => w | None => demo_server' end.
Definition demo_forest : nat -> AThread := upd 0 (abegin 0 no_zones) (fun _ => no_zones).

Lemma demo_open_R : R demo_open demo_forest.
Proof.
  assert (HR : R demo_server' (fun _ => no_zones)).
  { pose proof demo_server_R as [H1 H2 H3 H4 H5 H6 H7 H8 H9]. split; try done.
    - split; try done. now left.
    - split; [no_use .. | constructor].
    - no_use.
    - no_use. }
  assert (Hz : fresh_zone demo_server' 0 demo_zone).
  { split; try reflexivity; [repeat split; vm_compute; discriminate || reflexivity | eexists; reflexivity]. }
  pose proof (NewZone_spec 0 demo_zone demo_server' _ HR) as Hn.
  assert (E : exists w, NewZone 0 demo_server' = Some (tt, w) /\ current w = Some 0%nat)
    by (eexists; split; vm_compute; reflexivity).
  destruct E as (w & E & Ec). unfold demo_open. rewrite E in *. unfold wp in Hn. rewrite E in Hn.
  destruct Hn as (_ & td & Ec' & HR' & _); auto.
  - intros [i Hi]. inversion Hi.
  - split; [reflexivity | split; constructor].
  - rewrite Ec in Ec'. simplify_eq. exact HR'.
Qed.

Lemma ProcessZoneEnd_forest_witness :
  wp (ProcessZoneEnd 1012) (fun _ w' =>
    R w' (upd 0 (aend (demo_forest 0%nat)) demo_forest) /\ m_failure w' = NoFailure /\
    exists e', zone_heap w' !! 0%nat = Some e' /\ ZoneEvent.End_ e' = 12) demo_open.
Proof.
  eapply wp_mono.
  - apply (ProcessZoneEnd_forest 1012 demo_open demo_forest 0
      (mkThreadData 7 1 [0%nat] [0%nat] 0 [0] [0] false None {[1 := 1]} 0 []) 0 [] [] demo_zone 12
      demo_open_R); vm_compute; try reflexivity; discriminate.
  - intros _ w' (_ & Hf & _ & _ & HR & (e' & He & _ & Hend) & _).
    split; [exact HR | split; [exact Hf | exists e'; split; [exact He | exact Hend]]].
Defined.

(** The zone of [demo_open], when another number is expected at its end. *)
Definition demo_thread : ThreadData :=
  mkThreadData 7 1 [0%nat] [0%nat] 0 [0] [0] false None {[1 := 1]} 0 [].
Definition demo_mismatch : W :=
  demo_open <| threads ::= <[0%nat := demo_thread <| nextZoneId := 5 |>]> |>.

Lemma demo_mismatch_R : R demo_mismatch demo_forest.
Proof. apply R_next; [exact demo_open_R | vm_compute; reflexivity]. Qed.

Lemma ProcessZoneEnd_rejects_witness :
  wp (ProcessZoneEnd 1012) (fun _ w' => m_failure w' = ZoneStack /\
    fd_thread (m_failureData w') = 7) demo_mismatch.
Proof.
  eapply wp_mono.
  - apply (ProcessZoneEnd_rejects 1012 _ demo_forest 0 (demo_thread <| nextZoneId := 5 |>)
      demo_mismatch_R); vm_compute; [reflexivity | reflexivity | discriminate].
  - intros _ w' (Hf & Ht & _). split; [exact Hf | exact Ht].
Defined.
