(* ===== verification/ServerLock.v ===== *)
(** * Locks: the handlers of lock events

    The events of a lock are kept in the order the server learns of them, in
    [timeline]; each entry also holds the state of the lock after the event: the
    thread that holds it, how often, and which threads wait, as a bit set of the
    thread numbers the lock has given out ([threadMap], [threadList]). *)
From S2P Require Import Prelude Double Queue Event Containers Discovery Trace Server.

(** ** The state of a lock after each event *)
Module LockCount.
(* TracyWorker.cpp:122-126 UpdateLockCountSharedLockable *)
Record t := mk {
  lockingThread : Z; lockCount : Z; waitShared : Z; waitList : Z; sharedList : Z }.
#[global] Instance eta_t : Eta t := fun r =>
  mk (lockingThread r) (lockCount r) (waitShared r) (waitList r) (sharedList r).
Definition zero : t := mk 0 0 0 0 0.

(** [uint64_t( 1 ) << thread] *)
Definition tbit (thread : Z) : Z := uint 64 (Z.shiftl 1 thread).
Definition has (w bit : Z) : bool := negb (Z.land w bit =? 0).
Definition drop (w bit : Z) : Z := Z.land w (Z.lnot bit).

(** What both kinds of locks do. *)
Definition wait (bit : Z) (s : t) : t := s <| waitList ::= fun w => Z.lor w bit |>.
Definition obtain (thread bit : Z) (s : t) : option t :=
  if (lockCount s <? 255) && has (waitList s) bit
  then Some (s <| waitList ::= fun w => drop w bit |> <| lockingThread := thread |>
               <| lockCount ::= fun n => uint 8 (n + 1) |>)
  else None.
Definition release (s : t) : option t :=
  if 0 <? lockCount s then Some (s <| lockCount ::= fun n => uint 8 (n - 1) |>) else None.

(* TracyWorker.cpp:88-107 UpdateLockCountLockable *)
Definition step_lockable (e : LockEvent.t) (s : t) : option t :=
  let bit := tbit (LockEvent.thread e) in
  match LockEvent.type e with
  | LockEvent.Wait => Some (wait bit s)
  | LockEvent.Obtain => obtain (LockEvent.thread e) bit s
  | LockEvent.Release => release s
  | _ => Some s
  end.

(* TracyWorker.cpp:154-186 UpdateLockCountSharedLockable *)
Definition step_shared (e : LockEvent.t) (s : t) : option t :=
  let bit := tbit (LockEvent.thread e) in
  match LockEvent.type e with
  | LockEvent.Wait => Some (wait bit s)
  | LockEvent.WaitShared => Some (s <| waitShared ::= fun w => Z.lor w bit |>)
  | LockEvent.Obtain => obtain (LockEvent.thread e) bit s
  | LockEvent.Release => release s
  | LockEvent.ObtainShared =>
      if has (waitShared s) bit && negb (has (sharedList s) bit)
      then Some (s <| waitShared ::= fun w => drop w bit |>
                   <| sharedList ::= fun w => Z.lor w bit |>)
      else None
  | LockEvent.ReleaseShared =>
      if has (sharedList s) bit then Some (s <| sharedList ::= fun w => drop w bit |>) else None
  end.

(** The entry of an event annotated with the state after it. *)
(* TracyWorker.cpp:187-191 UpdateLockCountSharedLockable *)
Definition store_shared (s : t) (p : LockEventPtr.t) : LockEventPtr.t :=
  LockEventPtr.mk ((LockEventPtr.ptr p) <| LockEvent.waitShared := waitShared s |>
                                        <| LockEvent.sharedList := sharedList s |>)
    (lockingThread s) (lockCount s) (waitList s).
(* TracyWorker.cpp:108-110 UpdateLockCountLockable *)
Definition store_lockable (s : t) (p : LockEventPtr.t) : LockEventPtr.t :=
  LockEventPtr.mk (LockEventPtr.ptr p) (lockingThread s) (lockCount s) (waitList s).

(* TracyWorker.cpp:111-111 UpdateLockCountLockable *)
Definition contended_lockable (s : t) : bool :=
  negb (lockCount s =? 0) && negb (waitList s =? 0).
(* TracyWorker.cpp:192-192 UpdateLockCountSharedLockable *)
Definition contended_shared (s : t) : bool :=
  (negb (lockCount s =? 0) && (negb (waitList s =? 0) || negb (waitShared s =? 0))) ||
  (negb (sharedList s =? 0) && negb (waitList s =? 0)).

(** The state before position [pos]. *)
(* TracyWorker.cpp:70-82 UpdateLockCountLockable *)
Definition load_lockable (p : LockEventPtr.t) : t :=
  mk (LockEventPtr.lockingThread p) (LockEventPtr.lockCount p) 0 (LockEventPtr.waitList p) 0.
(* TracyWorker.cpp:128-145 UpdateLockCountSharedLockable *)
Definition load_shared (p : LockEventPtr.t) : t :=
  mk (LockEventPtr.lockingThread p) (LockEventPtr.lockCount p)
    (LockEvent.waitShared (LockEventPtr.ptr p)) (LockEventPtr.waitList p)
    (LockEvent.sharedList (LockEventPtr.ptr p)).
Definition before (load : LockEventPtr.t -> t) (tl : list LockEventPtr.t) (pos : nat) : option t :=
  match pos with O => Some zero | S i => load <$> tl !! i end.

Section Loop.
Context (step : LockEvent.t -> t -> option t) (store : t -> LockEventPtr.t -> LockEventPtr.t).
Context (contended : t -> bool).

(** [None]: an assertion of a step fails. *)
(* TracyWorker.cpp:150-194 UpdateLockCountSharedLockable *)
Fixpoint update (s : t) (isContended : bool) (tl : list LockEventPtr.t) :
    option (list LockEventPtr.t * bool) :=
  match tl with
  | [] => Some ([], isContended)
  | p :: tl =>
      s ← step (LockEventPtr.ptr p) s;
      '(tl, c) ← update s (if isContended then true else contended s) tl;
      Some (store s p :: tl, c)
  end.
End Loop.
End LockCount.

(** The states from position [pos] on are computed anew. *)
Definition UpdateLockCount_ step store contended load (lockmap : LockMap) (pos : nat) :
    option LockMap :=
  let tl := lk_timeline lockmap in
  s ← LockCount.before load tl pos;
  '(tl', c) ← LockCount.update step store contended s (isContended lockmap) (drop pos tl);
  Some (lockmap <| lk_timeline := take pos tl ++ tl' |> <| isContended := c |>).
(* TracyWorker.cpp:62-116 *)
Definition UpdateLockCountLockable : LockMap -> nat -> option LockMap :=
  UpdateLockCount_ LockCount.step_lockable LockCount.store_lockable
    LockCount.contended_lockable LockCount.load_lockable.
(* TracyWorker.cpp:118-197 *)
Definition UpdateLockCountSharedLockable : LockMap -> nat -> option LockMap :=
  UpdateLockCount_ LockCount.step_shared LockCount.store_shared
    LockCount.contended_shared LockCount.load_shared.
(* TracyWorker.cpp:199-209 *)
Definition UpdateLockCount (lockmap : LockMap) (pos : nat) : option LockMap :=
  match lk_type lockmap with
  | Lockable => UpdateLockCountLockable lockmap pos
  | SharedLockable => UpdateLockCountSharedLockable lockmap pos
  end.

(** ** Handlers *)
Definition GetLock (id : Z) : M W LockMap := m ← gets lockMap; expect (m !! id).
Definition SetLock (id : Z) (l : LockMap) : M W unit := modify (fun w => w <| lockMap ::= <[id := l]> |>).

(** The words of an event fresh from the slab: those of the [n]-th event of a
    lock.  Only locks of the shared kind have the last two. *)
Class LockSlab := {
  lock_junk : Z -> nat -> LockEvent.t;
  lock_junk_ok : forall id n, in_uint 64 (LockEvent._time_srcloc (lock_junk id n)) }.

Definition range_of (lock : LockMap) (i : Z) : Z * Z :=
  default (2 ^ 63 - 1, - 2 ^ 63) (range lock !! i).
(* TracyWorker.cpp:3748-3750 InsertLockEvent *)
Definition widen (time : Z) (r : Z * Z) : Z * Z :=
  (if time <? fst r then time else fst r, if snd r <? time then time else snd r).

(** The number of a thread in the lock, given out at its first event. *)
(* TracyWorker.cpp:3726-3734 InsertLockEvent *)
Definition lock_thread (id thread : Z) : M W Z :=
  lock ← GetLock id;
  match threadMap lock !! thread with
  | Some i => mret i
  | None =>
      assert_ (Z.of_nat (length (threadList lock)) <? MaxLockThreads);;
      let i := uint 8 (Z.of_nat (length (threadList lock))) in
      SetLock id (lock <| threadMap ::= <[thread := i]> |>
                       <| threadList ::= (fun l => l ++ [thread]) |>);;
      mret i
  end.

(* TracyWorker.cpp:3720-3751 *)
Definition InsertLockEvent (id : Z) (lev : LockEvent.t) (thread time : Z) : M W unit :=
  touch_lastTime time;;
  NoticeThread thread;;
  i ← lock_thread id thread;
  let lev := lev <| LockEvent.thread := i |> in
  lock ← GetLock id;
  let timeline := lk_timeline lock in
  assert_ (match last timeline with
           | None => true | Some p => LockEvent.Time (LockEventPtr.ptr p) <=? time end);;
  let lock := lock <| lk_timeline := timeline ++ [LockEventPtr.mk lev 0 0 0] |> in
  lock ← expect (UpdateLockCount lock (length timeline));
  SetLock id (lock <| range ::= <[i := widen time (range_of lock i)]> |>).

Section Handlers.
Context `{LockSlab}.

(** An event allocated and initialised: the part the handlers share. *)
(* TracyWorker.cpp:5644-5648 ProcessLockWait *)
Definition new_lock_event (id : Z) (type : LockEvent.Type_) (time : Z) : M W LockEvent.t :=
  lock ← GetLock id;
  let lev := lock_junk id (length (lk_timeline lock)) in
  let lev := match lk_type lock with
             | Lockable => lev <| LockEvent.waitShared := 0 |> <| LockEvent.sharedList := 0 |>
             | SharedLockable => lev end in
  lev ← expect (LockEvent.SetTime time lev);
  mret ((LockEvent.SetSrcLoc 0 lev) <| LockEvent.type := type |>).

(** An exclusive event, by the thread [thread] names. *)
Definition exclusive_event (type : LockEvent.Type_) (id time : Z) (thread : LockMap -> Z) :
    M W unit :=
  lock ← GetLock id;
  ref ← RefTime m_refTimeSerial time;
  time ← TscTime ref;
  lev ← new_lock_event id type time;
  InsertLockEvent id lev (thread lock) time.
Definition shared_event (type : LockEvent.Type_) (id time thread : Z) : M W unit :=
  lock ← GetLock id;
  assert_ (match lk_type lock with SharedLockable => true | Lockable => false end);;
  exclusive_event type id time (fun _ => thread).

(* TracyWorker.cpp:5638-5651 *)
Definition ProcessLockWait (thread id time : Z) : M W unit :=
  exclusive_event LockEvent.Wait id time (fun _ => thread).
(* TracyWorker.cpp:5653-5667 *)
Definition ProcessLockObtain (thread id time : Z) : M W unit :=
  exclusive_event LockEvent.Obtain id time (fun _ => thread);;
  lock ← GetLock id;
  SetLock id (lock <| lockingThread := thread |>).
(* TracyWorker.cpp:5669-5682 *)
Definition ProcessLockRelease (id time : Z) : M W unit :=
  exclusive_event LockEvent.Release id time lockingThread.
(* TracyWorker.cpp:5684-5698 *)
Definition ProcessLockSharedWait (thread id time : Z) : M W unit :=
  shared_event LockEvent.WaitShared id time thread.
(* TracyWorker.cpp:5700-5714 *)
Definition ProcessLockSharedObtain (thread id time : Z) : M W unit :=
  shared_event LockEvent.ObtainShared id time thread.
(* TracyWorker.cpp:5716-5730 *)
Definition ProcessLockSharedRelease (thread id time : Z) : M W unit :=
  shared_event LockEvent.ReleaseShared id time thread.

(* TracyWorker.cpp:5615-5629 *)
Definition ProcessLockAnnounce (id time lckloc : Z) (type : LockType) : M W unit :=
  m ← gets lockMap;
  assert_ (negb (bool_decide (is_Some (m !! id))));;
  srcloc ← ShrinkSourceLocation lckloc;
  announce ← TscTime time;
  modify (fun w => w <| lockMap ::= emplace id
    (mkLockMap StringIdx.none srcloc [] ∅ [] type announce 0 true false 0 ∅) |>);;
  CheckSourceLocation lckloc.
(* TracyWorker.cpp:5631-5636 *)
Definition ProcessLockTerminate (id time : Z) : M W unit :=
  lock ← GetLock id;
  t ← TscTime time;
  SetLock id (lock <| timeTerminate := t |>).

(** The last event of the thread that a mark can belong to; [None] when the search
    runs past the first event. *)
(* TracyWorker.cpp:5740-5759 ProcessLockMark *)
Fixpoint find_mark (n : nat) (thread : Z) (timeline : list LockEventPtr.t) : option nat :=
  match n with
  | O => None
  | S n =>
      e ← LockEventPtr.ptr <$> timeline !! n;
      match LockEvent.thread e =? thread, LockEvent.type e with
      | true, (LockEvent.Obtain | LockEvent.ObtainShared | LockEvent.Wait
              | LockEvent.WaitShared) => Some n
      | _, _ => find_mark n thread timeline
      end
  end.
(* TracyWorker.cpp:5732-5760 *)
Definition ProcessLockMark (thread id srcloc : Z) : M W unit :=
  CheckSourceLocation srcloc;;
  lock ← GetLock id;
  i ← expect (threadMap lock !! thread);
  n ← expect (find_mark (length (lk_timeline lock)) i (lk_timeline lock));
  s ← ShrinkSourceLocation srcloc;
  SetLock id (lock <| lk_timeline ::= alter (fun p : LockEventPtr.t =>
    p <| LockEventPtr.ptr ::= LockEvent.SetSrcLoc s |>) n |>).
(* TracyWorker.cpp:5762-5767 *)
Definition ProcessLockName (id : Z) : M W unit :=
  lock ← GetLock id;
  i ← GetSingleStringIdx;
  SetLock id (lock <| customName := StringIdx.SetIdx i |>).
End Handlers.
