(* ===== verification/LockSpec.v ===== *)
(** * Locks: what the handlers promise

    A lock, as the program being traced sees it, is its owner with a recursion
    depth, the threads that wait for it and, for a shared lock, the threads that
    share it or wait to share it; [lstep] says which events are legal and what
    they do.  The relation [lock_rep] ties a [LockMap] to the history of the lock's
    events.  The handlers are shown to accept exactly the legal events and to keep
    the relation, and the annotations of the timeline to be those a computation
    from scratch gives. *)
From S2P Require Import Prelude Double Queue Event Containers Discovery Trace Server ServerSpec ServerLock.
Import LockEvent(Type_(..)).

(** ** Bit sets of threads *)
Definition bits_rep (ths : list Z) (w : Z) (S : gset Z) : Prop :=
  (forall i : nat, Z.testbit w (Z.of_nat i) = true <-> exists t, ths !! i = Some t /\ t ∈ S) /\
  forall t, t ∈ S -> t ∈ ths.

Lemma tbit_pow i : 0 <= i < 64 -> LockCount.tbit i = 2 ^ i.
Proof.
  intros Hi. unfold LockCount.tbit. rewrite Z.shiftl_1_l. apply uint_small.
  split; [lia | now apply Z.pow_lt_mono_r].
Qed.

Lemma has_pow w i : 0 <= i -> LockCount.has w (2 ^ i) = Z.testbit w i.
Proof.
  intros Hi. unfold LockCount.has. destruct (Z.testbit w i) eqn:E.
  - apply negb_true_iff, Z.eqb_neq. intros E0. apply (f_equal (fun z => Z.testbit z i)) in E0.
    now rewrite Z.land_spec, E, Z.pow2_bits_true, Z.bits_0 in E0.
  - apply negb_false_iff, Z.eqb_eq, Z.bits_inj'. intros j Hj.
    rewrite Z.land_spec, Z.bits_0, Z.pow2_bits_eqb by done.
    destruct (Z.eqb_spec i j) as [<- | _]; [now rewrite E | apply andb_false_r].
Qed.

Section Bits.
Context (ths : list Z) (Hnd : NoDup ths).

Lemma bits_has w S (i : nat) t :
  bits_rep ths w S -> ths !! i = Some t -> Z.testbit w (Z.of_nat i) = bool_decide (t ∈ S).
Proof.
  intros [Hb _] Ei. apply eq_true_iff_eq. rewrite Hb, bool_decide_eq_true. split.
  - intros (t' & Ei' & Ht). now simplify_eq.
  - eauto.
Qed.

Lemma bits_add w S (i : nat) t :
  bits_rep ths w S -> ths !! i = Some t ->
  bits_rep ths (Z.lor w (2 ^ Z.of_nat i)) ({[t]} ∪ S).
Proof.
  intros [Hb Hs] Ei. split.
  - intros j. rewrite Z.lor_spec, Z.pow2_bits_eqb, orb_true_iff, Hb, Z.eqb_eq by lia. split.
    + intros [(t' & Ej & Ht) | Eij]; [exists t'; set_solver |].
      exists t. replace j with i by lia. set_solver.
    + intros (t' & Ej & [->%elem_of_singleton | Ht]%elem_of_union); [| eauto].
      right. f_equal. exact (NoDup_lookup ths i j t Hnd Ei Ej).
  - intros t' [->%elem_of_singleton | Ht]%elem_of_union; [| auto].
    now apply list_elem_of_lookup_2 in Ei.
Qed.

Lemma bits_remove w S (i : nat) t :
  bits_rep ths w S -> ths !! i = Some t ->
  bits_rep ths (LockCount.drop w (2 ^ Z.of_nat i)) (S ∖ {[t]}).
Proof.
  intros [Hb Hs] Ei. split; [| set_solver].
  intros j. unfold LockCount.drop.
  rewrite Z.land_spec, Z.lnot_spec, Z.pow2_bits_eqb, andb_true_iff, Hb, negb_true_iff, Z.eqb_neq
    by lia.
  split.
  - intros [(t' & Ej & Ht) Hne]. exists t'. split; [done |].
    apply elem_of_difference. split; [done |]. intros ->%elem_of_singleton.
    apply Hne. f_equal. exact (NoDup_lookup ths i j t Hnd Ei Ej).
  - intros (t' & Ej & [Ht Hn]%elem_of_difference). split; [eauto |].
    intros Eij. apply Hn, elem_of_singleton. replace j with i in Ej by lia. congruence.
Qed.

End Bits.

Lemma bits_zero ths w S : bits_rep ths w S -> w = 0 <-> S = ∅.
Proof.
  intros [Hb Hs]. split.
  - intros ->. apply set_eq. intros t. split; [| set_solver]. intros Ht.
    destruct (list_elem_of_lookup_1 _ _ (Hs _ Ht)) as [i Ei].
    assert (E : Z.testbit 0 (Z.of_nat i) = true) by (apply Hb; eauto).
    now rewrite Z.bits_0 in E.
  - intros ->. apply Z.bits_inj'. intros j Hj. rewrite Z.bits_0.
    destruct (Z.testbit w j) eqn:E; [| done]. rewrite <- (Z2Nat.id j Hj) in E.
    apply Hb in E as (? & _ & ?). set_solver.
Qed.

Lemma bits_empty ths : bits_rep ths 0 ∅.
Proof.
  split; [| set_solver]. intros i. rewrite Z.bits_0. split; [done |].
  intros (? & _ & ?). set_solver.
Qed.
(** A thread more leaves the sets as they are. *)
Lemma bits_more ths t w S : t ∉ ths -> bits_rep ths w S -> bits_rep (ths ++ [t]) w S.
Proof.
  intros Hn [Hb Hs]. split.
  - intros i. rewrite Hb. split.
    + intros (t' & Ei & Ht). exists t'. split; [now apply lookup_app_l_Some | done].
    + intros (t' & Ei & Ht). exists t'. split; [| done].
      apply lookup_app_Some in Ei as [Ei | [_ Ei]]; [done |].
      apply list_elem_of_lookup_2, list_elem_of_singleton in Ei as ->. destruct (Hn (Hs _ Ht)).
  - intros t' Ht. apply elem_of_app. auto.
Qed.

(** ** The abstract lock *)
Record LockState := mkLockState {
  owner : option Z; depth : Z; waiting : gset Z; waiting_shared : gset Z; sharing : gset Z }.
#[export] Instance eta_LockState : Eta LockState := fun r =>
  mkLockState (owner r) (depth r) (waiting r) (waiting_shared r) (sharing r).
Definition unlocked : LockState := mkLockState None 0 ∅ ∅ ∅.

Record LockEv := mkLockEv { ev_type : Type_; ev_thread : Z; ev_time : Z }.

(** A lock is obtained by a thread that waits for it, up to 255 times more than it
    was released, and released by its owner; it is shared by a thread that waits
    to share it and does not share it yet.  Only shared locks can be shared. *)
Definition lstep (kind : LockType) (e : LockEv) (s : LockState) : option LockState :=
  let t := ev_thread e in
  match ev_type e, kind with
  | Wait, _ => Some (s <| waiting ::= union {[t]} |>)
  | Obtain, _ =>
      if decide (depth s < 255 /\ t ∈ waiting s)
      then Some (s <| waiting ::= (.∖ {[t]}) |> <| owner := Some t |> <| depth ::= Z.succ |>)
      else None
  | Release, _ =>
      if decide (0 < depth s /\ owner s = Some t) then Some (s <| depth ::= Z.pred |>) else None
  | WaitShared, SharedLockable => Some (s <| waiting_shared ::= union {[t]} |>)
  | ObtainShared, SharedLockable =>
      if decide (t ∈ waiting_shared s /\ t ∉ sharing s)
      then Some (s <| waiting_shared ::= (.∖ {[t]}) |> <| sharing ::= union {[t]} |>)
      else None
  | ReleaseShared, SharedLockable =>
      if decide (t ∈ sharing s) then Some (s <| sharing ::= (.∖ {[t]}) |>) else None
  | _, Lockable => None
  end.

(** Someone waits while another has the lock. *)
Definition contended (s : LockState) : bool :=
  bool_decide ((depth s <> 0 /\ (waiting s <> ∅ \/ waiting_shared s <> ∅)) \/
               (sharing s <> ∅ /\ waiting s <> ∅)).

(** The computed state represents the abstract one. *)
Record count_rep (ths : list Z) (c : LockCount.t) (s : LockState) : Prop := {
  cr_owner : match owner s with
    | None => LockCount.lockingThread c = 0 /\ depth s = 0
    | Some t => exists i : nat, LockCount.lockingThread c = Z.of_nat i /\ ths !! i = Some t end;
  cr_depth : LockCount.lockCount c = depth s /\ 0 <= depth s <= 255;
  cr_waiting : bits_rep ths (LockCount.waitList c) (waiting s);
  cr_waiting_shared : bits_rep ths (LockCount.waitShared c) (waiting_shared s);
  cr_sharing : bits_rep ths (LockCount.sharedList c) (sharing s) }.

Lemma count_rep_zero ths : count_rep ths LockCount.zero unlocked.
Proof. split; cbn; auto using bits_empty. lia. Qed.

Lemma count_rep_more ths t c s : t ∉ ths -> count_rep ths c s -> count_rep (ths ++ [t]) c s.
Proof.
  intros Hn [H1 H2 H3 H4 H5]. split; auto using bits_more.
  destruct (owner s); [| done]. destruct H1 as (i & E & Ei).
  exists i. split; [done | now apply lookup_app_l_Some].
Qed.

Definition exclusive (ty : Type_) : bool :=
  match ty with Wait | Obtain | Release => true | _ => false end.
Definition allowed (kind : LockType) (ty : Type_) : bool :=
  match kind with SharedLockable => true | Lockable => exclusive ty end.
Definition code_step (kind : LockType) : LockEvent.t -> LockCount.t -> option LockCount.t :=
  match kind with Lockable => LockCount.step_lockable | SharedLockable => LockCount.step_shared end.

Definition code_store (kind : LockType) : LockCount.t -> LockEventPtr.t -> LockEventPtr.t :=
  match kind with
  | Lockable => LockCount.store_lockable | SharedLockable => LockCount.store_shared end.
Definition code_contended (kind : LockType) : LockCount.t -> bool :=
  match kind with
  | Lockable => LockCount.contended_lockable | SharedLockable => LockCount.contended_shared end.
Definition code_load (kind : LockType) : LockEventPtr.t -> LockCount.t :=
  match kind with
  | Lockable => LockCount.load_lockable | SharedLockable => LockCount.load_shared end.

(** What the code computes for an event is what the abstract lock does, and an
    assertion fails exactly if the event is not legal. *)
Lemma step_rep kind ths e (i : nat) t time c s :
  NoDup ths -> (length ths <= 64)%nat -> allowed kind (LockEvent.type e) = true ->
  LockEvent.thread e = Z.of_nat i -> ths !! i = Some t -> count_rep ths c s ->
  (LockEvent.type e = Release -> t = default 0 (owner s)) ->
  option_Forall2 (count_rep ths) (code_step kind e c)
    (lstep kind (mkLockEv (LockEvent.type e) t time) s).
Proof.
  intros Hnd Hlen Hal Ei Et [Ho [Hd Hr] Hw Hs Hsh] Hrel.
  assert (Hi : (i < 64)%nat) by (apply lookup_lt_Some in Et; lia).
  assert (E : code_step kind e c = LockCount.step_shared e c)
    by (destruct kind; [| done]; unfold code_step, LockCount.step_lockable, LockCount.step_shared;
        now destruct (LockEvent.type e)).
  rewrite E. unfold LockCount.step_shared, lstep, LockCount.obtain, LockCount.release. cbn [ev_type ev_thread].
  rewrite Ei, tbit_pow, !has_pow by lia.
  rewrite (bits_has ths _ _ i t Hw Et), (bits_has ths _ _ i t Hs Et), (bits_has ths _ _ i t Hsh Et).
  rewrite Hd. pose proof (bits_add ths Hnd) as Hadd. pose proof (bits_remove ths Hnd) as Hrem.
  assert (Hown : LockEvent.type e = Release -> 0 < depth s -> owner s = Some t).
  { intros Ht Hp. specialize (Hrel Ht). destruct (owner s); simpl in Hrel; [now subst | lia]. }
  clear Hrel.
  destruct (LockEvent.type e), kind; try discriminate Hal; cbn [ev_type];
    try specialize (Hown eq_refl);
    repeat case_decide; repeat case_bool_decide; rewrite ?andb_true_r, ?andb_false_r; cbn [negb andb];
    try (destruct (Z.ltb_spec (depth s) 255)); try (destruct (Z.ltb_spec 0 (depth s)));
    try tauto; try (exfalso; tauto); try lia; constructor; split; cbn; eauto; try (split; [| lia]);
    try (rewrite Hd; apply uint_small; red; lia);
    destruct (owner s); eauto; lia.
Qed.

Lemma contended_rep kind ths c s :
  count_rep ths c s ->
  (kind = Lockable -> waiting_shared s = ∅ /\ sharing s = ∅) ->
  code_contended kind c = contended s.
Proof.
  intros [_ [Hd _] Hw Hs Hsh] Hk. pose proof (bits_zero _ _ _ Hw). pose proof (bits_zero _ _ _ Hs).
  pose proof (bits_zero _ _ _ Hsh).
  unfold code_contended, LockCount.contended_lockable, LockCount.contended_shared, contended.
  apply eq_true_iff_eq. rewrite bool_decide_eq_true.
  destruct kind; rewrite Hd, ?orb_true_iff, ?andb_true_iff, ?orb_true_iff, ?negb_true_iff, ?Z.eqb_neq.
  - destruct (Hk eq_refl). tauto.
  - tauto.
Qed.

(** ** Histories *)

(** The entry of an event: its annotations are the state after it. *)
Record entry_rep (ths : list Z) (p : LockEventPtr.t) (e : LockEv) (s : LockState) : Prop := {
  er_type : LockEvent.type (LockEventPtr.ptr p) = ev_type e;
  er_word : in_uint 64 (LockEvent._time_srcloc (LockEventPtr.ptr p));
  er_time : LockEvent.Time (LockEventPtr.ptr p) = ev_time e;
  er_thread : exists i : nat,
    LockEvent.thread (LockEventPtr.ptr p) = Z.of_nat i /\ ths !! i = Some (ev_thread e);
  er_counts : count_rep ths (LockCount.load_shared p) s }.

(** [hist kind ths tl h s c]: the timeline [tl] is that of a lock with the events
    [h], all of them legal and in the order of their times, which leave it in
    state [s]; it was contended at some time if [c]. *)
Inductive hist (kind : LockType) (ths : list Z) :
    list LockEventPtr.t -> list LockEv -> LockState -> bool -> Prop :=
  | hist_nil : hist kind ths [] [] unlocked false
  | hist_snoc tl h s c p e s' :
      hist kind ths tl h s c ->
      (match last h with None => True | Some e0 => ev_time e0 <= ev_time e end) ->
      (ev_type e = Release -> ev_thread e = default 0 (owner s)) ->
      lstep kind e s = Some s' -> entry_rep ths p e s' ->
      hist kind ths (tl ++ [p]) (h ++ [e]) s' (c || contended s').

Lemma entry_rep_more ths t p e s : t ∉ ths -> entry_rep ths p e s -> entry_rep (ths ++ [t]) p e s.
Proof.
  intros Hn [H1 Hw H2 (i & E & Ei) H4]. split; auto using count_rep_more.
  exists i. split; [done | now apply lookup_app_l_Some].
Qed.

Lemma hist_more kind ths t tl h s c :
  t ∉ ths -> hist kind ths tl h s c -> hist kind (ths ++ [t]) tl h s c.
Proof. intros Hn. induction 1; econstructor; eauto using entry_rep_more. Qed.

Lemma hist_length kind ths tl h s c : hist kind ths tl h s c -> length tl = length h.
Proof. induction 1; [done |]. rewrite !length_app. simpl. lia. Qed.

Lemma hist_last kind ths tl h s c :
  hist kind ths tl h s c ->
  match last tl with
  | None => h = [] /\ s = unlocked
  | Some p => exists e, last h = Some e /\ entry_rep ths p e s
  end.
Proof. induction 1; [done |]. rewrite !last_snoc. eauto. Qed.

(** A lock that cannot be shared is not shared. *)
Lemma hist_exclusive ths tl h s c :
  hist Lockable ths tl h s c -> waiting_shared s = ∅ /\ sharing s = ∅.
Proof.
  induction 1 as [| tl h s c p e s' _ IH _ _ Hs _]; [done |].
  unfold lstep in Hs. destruct (ev_type e); try discriminate Hs; try case_decide; simplify_eq; done.
Qed.

Lemma hist_allowed kind e s s' : lstep kind e s = Some s' -> allowed kind (ev_type e) = true.
Proof. unfold lstep. now destruct (ev_type e), kind. Qed.

Lemma load_rep kind ths p s :
  count_rep ths (LockCount.load_shared p) s ->
  (kind = Lockable -> waiting_shared s = ∅ /\ sharing s = ∅) ->
  code_load kind p = LockCount.load_shared p.
Proof.
  intros Hc Hk. destruct kind; [| done]. destruct (Hk eq_refl) as [E1 E2].
  assert (H1 := bits_zero _ _ _ (cr_waiting_shared _ _ _ Hc)).
  assert (H2 := bits_zero _ _ _ (cr_sharing _ _ _ Hc)). cbn in H1, H2.
  unfold code_load, LockCount.load_lockable, LockCount.load_shared. f_equal; symmetry; tauto.
Qed.

(** ** Computing the annotations *)
Lemma count_rep_inj ths c c' s :
  NoDup ths -> count_rep ths c s -> count_rep ths c' s -> c = c'.
Proof.
  intros Hnd [O1 [D1 _] W1 S1 H1] [O2 [D2 _] W2 S2 H2].
  assert (Hb : forall w w' S, bits_rep ths w S -> bits_rep ths w' S -> w = w').
  { intros w w' S [B1 _] [B2 _]. apply Z.bits_inj'. intros j Hj. rewrite <- (Z2Nat.id j Hj).
    apply eq_true_iff_eq. now rewrite B1, B2. }
  destruct c, c'; cbn in *. f_equal; eauto.
  - destruct (owner s); [| lia]. destruct O1 as (i & -> & Ei), O2 as (j & -> & Ej).
    f_equal. exact (NoDup_lookup _ _ _ _ Hnd Ei Ej).
  - congruence.
Qed.

Section Kind.
Context (kind : LockType).

Lemma UpdateLockCount_kind lm pos : lk_type lm = kind ->
  UpdateLockCount lm pos = UpdateLockCount_ (code_step kind) (code_store kind)
    (code_contended kind) (code_load kind) lm pos.
Proof. unfold UpdateLockCount. intros ->. destruct kind; reflexivity. Qed.

(** An entry that a computation from the entry before it leaves as it is. *)
Definition stable (tl : list LockEventPtr.t) : Prop := forall n p, tl !! n = Some p ->
  exists c, LockCount.before (code_load kind) tl n = Some c /\
    code_step kind (LockEventPtr.ptr p) c = Some (code_load kind p) /\
    code_store kind (code_load kind p) p = p.

Lemma update_stable tl pos c b : stable tl -> LockCount.before (code_load kind) tl pos = Some c ->
  LockCount.update (code_step kind) (code_store kind) (code_contended kind) c b (drop pos tl) =
    Some (drop pos tl, b || existsb (fun p => code_contended kind (code_load kind p)) (drop pos tl)).
Proof.
  intros Hst. remember (length tl - pos)%nat as k eqn:Ek. revert pos c b Ek.
  induction k as [| k IH]; intros pos c b Ek Ec.
  - rewrite drop_ge by lia. simpl. now rewrite orb_false_r.
  - destruct (lookup_lt_is_Some_2 tl pos ltac:(lia)) as [p Ep].
    rewrite (drop_S _ _ _ Ep). destruct (Hst _ _ Ep) as (c' & Ec' & Es & Eq).
    rewrite Ec in Ec'. injection Ec' as <-. cbn [LockCount.update]. rewrite Es. cbn [mbind option_bind].
    rewrite IH; [| lia | simpl; now rewrite Ep]. cbn [mbind option_bind existsb]. rewrite Eq.
    rewrite orb_assoc. now destruct b.
Qed.

Lemma entry_load ths p e s :
  entry_rep ths p e s -> (kind = Lockable -> waiting_shared s = ∅ /\ sharing s = ∅) ->
  code_load kind p = LockCount.load_shared p.
Proof. intros H Hk. exact (load_rep kind ths p s (er_counts _ _ _ _ H) Hk). Qed.

Lemma hist_kind ths tl h s c :
  hist kind ths tl h s c -> kind = Lockable -> waiting_shared s = ∅ /\ sharing s = ∅.
Proof. intros H ->. exact (hist_exclusive _ _ _ _ _ H). Qed.

Lemma hist_before ths tl h s c (tl' : list LockEventPtr.t) :
  hist kind ths tl h s c -> exists cnt,
    LockCount.before (code_load kind) (tl ++ tl') (length tl) = Some cnt /\ count_rep ths cnt s.
Proof.
  intros H. pose proof (hist_last _ _ _ _ _ _ H) as Hl.
  destruct tl as [| p tl _] using rev_ind.
  - destruct Hl as [_ ->]. exists LockCount.zero. auto using count_rep_zero.
  - rewrite last_snoc in Hl. destruct Hl as (e & _ & He).
    exists (code_load kind p). split.
    + rewrite length_app, Nat.add_comm. cbn [Nat.add length LockCount.before].
      rewrite <- app_assoc. cbn [app]. rewrite list_lookup_middle by done. reflexivity.
    + rewrite (entry_load _ _ _ _ He); [apply He | exact (hist_kind _ _ _ _ _ H)].
Qed.

Lemma before_app tl p n :
  (n <= length tl)%nat ->
  LockCount.before (code_load kind) (tl ++ [p]) n = LockCount.before (code_load kind) tl n.
Proof. intros Hn. destruct n as [| n]; [done |]. simpl. now rewrite lookup_app_l by lia. Qed.

Lemma store_load p s ths : count_rep ths (code_load kind p) s ->
  (kind = Lockable -> waiting_shared s = ∅ /\ sharing s = ∅) -> code_store kind (code_load kind p) p = p.
Proof. intros _ _. unfold code_store, code_load. destruct kind, p as [[]]; reflexivity. Qed.

Lemma hist_stable ths tl h s c :
  NoDup ths -> (length ths <= 64)%nat -> hist kind ths tl h s c ->
  stable tl /\ c = existsb (fun p => code_contended kind (code_load kind p)) tl.
Proof.
  intros Hnd Hlen. induction 1 as [| tl h s c p e s' H [IH1 IH2] Ho Hr Hs He]; [done |].
  assert (H' := hist_snoc _ _ _ _ _ _ _ _ _ H Ho Hr Hs He).
  assert (Hload := entry_load _ _ _ _ He (hist_kind _ _ _ _ _ H')).
  destruct (hist_before _ _ _ _ _ [p] H) as (cnt & Ecnt & Hcnt).
  destruct He as [Et _ Etm (i & Ei & Eth) Hc]. split.
  - intros n q [Eq | [Hn Eq]]%lookup_app_Some.
    + destruct (IH1 n q Eq) as (c0 & E0 & E1 & E2). exists c0.
      rewrite before_app by (apply lookup_lt_Some in Eq; lia). auto.
    + assert (n = length tl) as -> by (apply lookup_lt_Some in Eq; simpl in Eq; lia).
      rewrite Nat.sub_diag in Eq. simpl in Eq. simplify_eq. exists cnt. split; [done |].
      split; [| rewrite <- Hload in Hc; exact (store_load _ _ _ Hc (hist_kind _ _ _ _ _ H'))].
      pose proof (step_rep kind ths (LockEventPtr.ptr q) i (ev_thread e) (ev_time e) cnt s Hnd Hlen) as St.
      rewrite Et in St. specialize (St (hist_allowed _ _ _ _ Hs) Ei Eth Hcnt Hr).
      replace (mkLockEv _ _ _) with e in St by now destruct e. rewrite Hs in St.
      inversion St as [c1 s1 Hc1 E1 E2 |]; subst. rewrite Hload. f_equal.
      exact (count_rep_inj _ _ _ _ Hnd Hc1 Hc).
  - rewrite existsb_app, IH2. cbn. rewrite orb_false_r. f_equal. rewrite Hload. symmetry.
    exact (contended_rep kind ths _ s' Hc (hist_kind _ _ _ _ _ H')).
Qed.

(** A new event at the end of the timeline. *)
Lemma insert_hist ths tl h s c lev (i : nat) t lm :
  NoDup ths -> (length ths <= 64)%nat -> hist kind ths tl h s c ->
  LockEvent.thread lev = Z.of_nat i -> ths !! i = Some t ->
  in_uint 64 (LockEvent._time_srcloc lev) -> allowed kind (LockEvent.type lev) = true ->
  (kind = Lockable -> LockEvent.waitShared lev = 0 /\ LockEvent.sharedList lev = 0) ->
  (LockEvent.type lev = Release -> t = default 0 (owner s)) ->
  lk_type lm = kind -> lk_timeline lm = tl ++ [LockEventPtr.mk lev 0 0 0] -> isContended lm = c ->
  let e := mkLockEv (LockEvent.type lev) t (LockEvent.Time lev) in
  match lstep kind e s with
  | None => UpdateLockCount lm (length tl) = None
  | Some s' => exists p, entry_rep ths p e s' /\ UpdateLockCount lm (length tl) =
      Some (lm <| lk_timeline := tl ++ [p] |> <| isContended := c || contended s' |>)
  end.
Proof.
  intros Hnd Hlen H Ei Et Hw Hal Hz Hr Ek Etl Ec. cbv zeta.
  destruct (hist_before _ _ _ _ _ [LockEventPtr.mk lev 0 0 0] H) as (cnt & Ecnt & Hcnt).
  assert (St := step_rep kind ths lev i t (LockEvent.Time lev) cnt s Hnd Hlen Hal Ei Et Hcnt Hr).
  rewrite UpdateLockCount_kind by done. unfold UpdateLockCount_. rewrite Etl, Ecnt, Ec.
  rewrite drop_app_length, take_app_length. cbn [mbind option_bind LockCount.update LockEventPtr.ptr].
  clear Ecnt Hcnt. destruct (lstep kind _ s) as [s' |] eqn:Es.
  2: { destruct (code_step kind lev cnt); [inversion St | done]. }
  destruct (code_step kind lev cnt) as [c' |]; [| inversion St].
  assert (Hc' : count_rep ths c' s') by (now inversion St). cbn [mbind option_bind].
  set (e := mkLockEv _ _ _) in *. set (p := code_store kind c' _).
  assert (Hk : kind = Lockable -> waiting_shared s' = ∅ /\ sharing s' = ∅).
  { intros Hk. destruct (hist_kind _ _ _ _ _ H Hk) as [Z1 Z2]. rewrite Hk in Es.
    unfold lstep in Es. destruct (ev_type e); try discriminate Es; try case_decide; simplify_eq; done. }
  exists p. split.
  - split; [now destruct kind .. | exists i; now destruct kind |].
    replace (LockCount.load_shared p) with c'; [done |]. unfold p, code_store.
    destruct kind eqn:Ekd; [| now destruct c']. destruct (Hz eq_refl) as [Z1 Z2].
    destruct (Hk eq_refl) as [Y1 Y2].
    assert (B1 := bits_zero _ _ _ (cr_waiting_shared _ _ _ Hc')).
    assert (B2 := bits_zero _ _ _ (cr_sharing _ _ _ Hc')).
    destruct c'; cbn in *. unfold LockCount.load_shared. cbn. rewrite Z1, Z2. f_equal; tauto.
  - rewrite (contended_rep kind ths c' s' Hc' Hk : code_contended kind c' = contended s').
    done.
Qed.
End Kind.
