(* ===== verification/LockRefine.v ===== *)
(** * Locks: the handlers refine the abstract lock

    Every event handler of a lock accepts exactly the events that are legal in the
    abstract state of the lock, and takes the representation of a history to that
    of the history with the event; marks find the event they belong to. *)
From S2P Require Import Prelude Double Queue Event Containers Discovery Trace Server ServerSpec ServerLock.
From S2P Require Import LockSpec.
Import LockEvent(Type_(..)).

(** ** The representation of a lock *)

(** The range of a thread is that of the times of its events. *)
Definition range_rep (r : Z * Z) (t : Z) (h : list LockEv) : Prop :=
  (exists e, e ∈ h /\ ev_thread e = t /\ ev_time e = fst r) /\
  (exists e, e ∈ h /\ ev_thread e = t /\ ev_time e = snd r) /\
  forall e, e ∈ h -> ev_thread e = t -> fst r <= ev_time e <= snd r.

(** The numbers of the threads: [threadMap] inverts [threadList]. *)
Record numbered (lm : LockMap) : Prop := {
  nu_nodup : NoDup (threadList lm);
  nu_len : (length (threadList lm) <= 64)%nat;
  nu_map : forall t i, threadMap lm !! t = Some i <->
    exists n : nat, i = Z.of_nat n /\ threadList lm !! n = Some t }.

Record lock_hist (lm : LockMap) (h : list LockEv) (s : LockState) : Prop := {
  lh_numbered : numbered lm;
  lh_hist : hist (lk_type lm) (threadList lm) (lk_timeline lm) h s (isContended lm);
  lh_range : forall (n : nat) t, threadList lm !! n = Some t ->
    range_rep (range_of lm (Z.of_nat n)) t h;
  lh_fresh : forall i, is_Some (range lm !! i) -> i < Z.of_nat (length (threadList lm)) }.

(** The lock [lm] has the events [h] and is in state [s]. *)
Record lock_rep (lm : LockMap) (h : list LockEv) (s : LockState) : Prop := {
  lr_hist : lock_hist lm h s;
  lr_owner : lockingThread lm = default 0 (owner s) }.

(** The lock once it has a number for a thread. *)
Definition joined (thread : Z) (lm : LockMap) : LockMap :=
  match threadMap lm !! thread with
  | Some _ => lm
  | None => lm <| threadMap ::= <[thread := Z.of_nat (length (threadList lm))]> |>
               <| threadList ::= (fun l => l ++ [thread]) |>
  end.
Definition room_for (thread : Z) (lm : LockMap) : Prop :=
  thread ∈ threadList lm \/ (length (threadList lm) < 64)%nat.

Lemma numbered_none lm t : numbered lm -> threadMap lm !! t = None -> t ∉ threadList lm.
Proof.
  intros Hn E [n En]%list_elem_of_lookup_1.
  assert (threadMap lm !! t = Some (Z.of_nat n)) by (apply (nu_map _ Hn); eauto). congruence.
Qed.

Lemma joined_len thread lm :
  numbered lm -> room_for thread lm -> threadMap lm !! thread = None ->
  (length (threadList lm) < 64)%nat.
Proof. intros Hn [Hin |] E; [| done]. destruct (numbered_none _ _ Hn E Hin). Qed.

Lemma joined_numbered thread lm : numbered lm -> room_for thread lm -> numbered (joined thread lm).
Proof.
  intros Hn Hr. unfold joined. destruct (threadMap lm !! thread) eqn:E; [done |].
  assert (Hlen := joined_len _ _ Hn Hr E). assert (Hno := numbered_none _ _ Hn E).
  destruct Hn as [H1 H2 H3]. split; cbn.
  - apply NoDup_app. split; [done |]. split; [| apply NoDup_singleton].
    intros x Hx ->%list_elem_of_singleton. done.
  - rewrite length_app. simpl. lia.
  - intros t i. destruct (decide (thread = t)) as [<- | Hne].
    + rewrite lookup_insert_eq. split.
      * intros [= <-]. exists (length (threadList lm)). now rewrite list_lookup_middle.
      * intros (n & -> & En). apply lookup_app_Some in En as [En | [Hge En]].
        -- apply list_elem_of_lookup_2 in En. done.
        -- apply lookup_lt_Some in En as Hlt. simpl in Hlt. do 2 f_equal. lia.
    + rewrite lookup_insert_ne, H3 by done. split; intros (n & -> & En); exists n; (split; [done |]).
      * now apply lookup_app_l_Some.
      * apply lookup_app_Some in En as [En | [_ En]]; [done |].
        apply list_elem_of_lookup_2, list_elem_of_singleton in En. congruence.
Qed.

Lemma joined_index thread lm :
  numbered lm -> room_for thread lm -> exists i : nat,
    threadMap (joined thread lm) !! thread = Some (Z.of_nat i) /\
    threadList (joined thread lm) !! i = Some thread.
Proof.
  intros Hn Hr. assert (Hj := joined_numbered _ _ Hn Hr).
  assert (exists i, threadMap (joined thread lm) !! thread = Some i) as [i Ei].
  { unfold joined. destruct (threadMap lm !! thread) eqn:E; [eauto |]. cbn.
    rewrite lookup_insert_eq. eauto. }
  assert (H := Ei). apply (nu_map _ Hj) in H as (n & -> & En). eauto.
Qed.

Lemma joined_hist thread lm h s c :
  numbered lm -> hist (lk_type lm) (threadList lm) (lk_timeline lm) h s c ->
  hist (lk_type lm) (threadList (joined thread lm)) (lk_timeline lm) h s c.
Proof.
  intros Hn H. unfold joined. destruct (threadMap lm !! thread) eqn:E; [done |].
  apply hist_more; [exact (numbered_none _ _ Hn E) | done].
Qed.

Definition erase_locks (w : W) : W := erase_noticed (w <| lastTime := 0 |> <| lockMap := ∅ |>).

Lemma lock_thread_spec id thread w lm :
  lockMap w !! id = Some lm -> numbered lm -> room_for thread lm ->
  wp (lock_thread id thread) (fun i w' => erase_locks w' = erase_locks w /\
    lastTime w' = lastTime w /\ (threads_ok w -> threads_ok w') /\
    lockMap w' = <[id := joined thread lm]> (lockMap w) /\
    threadMap (joined thread lm) !! thread = Some i) w.
Proof.
  intros El Hn Hr. destruct (joined_index _ _ Hn Hr) as (i & Ei & Eth).
  unfold lock_thread, GetLock, SetLock. wp_steps. eapply wp_expect; [exact El |].
  unfold joined in *. destruct (threadMap lm !! thread) as [j |] eqn:E.
  - wp_steps. rewrite insert_id by done. done.
  - assert (Hlen := joined_len _ _ Hn Hr E). unfold MaxLockThreads. wp_steps.
    assert (Eu : uint 8 (Z.of_nat (length (threadList lm))) = Z.of_nat (length (threadList lm)))
      by (apply uint_small; red; lia).
    rewrite Eu. split; [erased |]. split; [done |]. split; [| split; [done | apply lookup_insert_eq]].
    intros H. eapply threads_ok_frame; [exact H | ..]; reflexivity.
Qed.

(** ** Inserting an event *)
Section Ranges.
Context (h : list LockEv) (e0 : LockEv).
Lemma old_event e : e ∈ h -> e ∈ h ++ [e0].
Proof. intros. apply elem_of_app. now left. Qed.
Lemma new_event : e0 ∈ h ++ [e0].
Proof. apply elem_of_app. right. now apply list_elem_of_singleton. Qed.
Lemma event_cases e : e ∈ h ++ [e0] -> e ∈ h \/ e = e0.
Proof. rewrite elem_of_app, list_elem_of_singleton. done. Qed.

Lemma widen_rep r :
  range_rep r (ev_thread e0) h -> range_rep (widen (ev_time e0) r) (ev_thread e0) (h ++ [e0]).
Proof.
  intros ((e1 & I1 & T1 & E1) & (e2 & I2 & T2 & E2) & Hb). unfold widen.
  assert (H1 := Hb e1 I1 T1). assert (H2 := Hb e2 I2 T2). split; [| split]; cbn.
  - destruct (Z.ltb_spec (ev_time e0) (fst r)); [exists e0 | exists e1]; auto using old_event, new_event.
  - destruct (Z.ltb_spec (snd r) (ev_time e0)); [exists e0 | exists e2]; auto using old_event, new_event.
  - intros e [He | ->]%event_cases Et; [specialize (Hb e He Et) |];
      destruct (Z.ltb_spec (ev_time e0) (fst r)), (Z.ltb_spec (snd r) (ev_time e0)); lia.
Qed.

Lemma widen_fresh :
  in_sint 64 (ev_time e0) -> (forall e, e ∈ h -> ev_thread e <> ev_thread e0) ->
  range_rep (widen (ev_time e0) (2 ^ 63 - 1, - 2 ^ 63)) (ev_thread e0) (h ++ [e0]).
Proof.
  intros Ht Hno. red in Ht. unfold widen. cbn [fst snd].
  assert (E : (if ev_time e0 <? 2 ^ 63 - 1 then ev_time e0 else 2 ^ 63 - 1,
               if - 2 ^ 63 <? ev_time e0 then ev_time e0 else - 2 ^ 63) = (ev_time e0, ev_time e0)).
  { f_equal; [destruct (Z.ltb_spec (ev_time e0) (2 ^ 63 - 1)) |
      destruct (Z.ltb_spec (- 2 ^ 63) (ev_time e0))]; lia. }
  rewrite E. split; [| split]; cbn; [exists e0; auto using new_event .. |].
  intros e [He | ->]%event_cases Et; [destruct (Hno e He Et) | lia].
Qed.

Lemma other_rep r t : ev_thread e0 <> t -> range_rep r t h -> range_rep r t (h ++ [e0]).
Proof.
  intros Hne ((e1 & I1 & T1) & (e2 & I2 & T2) & Hb). split; [| split].
  - exists e1. auto using old_event.
  - exists e2. auto using old_event.
  - intros e [He | ->]%event_cases Et; [auto | done].
Qed.
End Ranges.

Lemma hist_threads kind ths tl h s c e :
  hist kind ths tl h s c -> e ∈ h -> ev_thread e ∈ ths.
Proof.
  intros H. induction H as [| tl h s c p e' s' H IH _ _ _ He]; [intros Hin; inversion Hin |].
  intros [Hin | ->]%event_cases; [auto |].
  destruct (er_thread _ _ _ _ He) as (i & _ & Ei). now apply list_elem_of_lookup_2 in Ei.
Qed.

(** The threads of [joined]: those of before, and the new one, without a range. *)
Lemma joined_old lm h s thread n t :
  lock_hist lm h s -> threadList (joined thread lm) !! n = Some t ->
  threadList lm !! n = Some t \/ (range lm !! Z.of_nat n = None /\ thread = t /\ t ∉ threadList lm).
Proof.
  intros [Hn _ _ Hf]. unfold joined. destruct (threadMap lm !! thread) eqn:E; [auto |]. cbn.
  intros [En | [Hge En]]%lookup_app_Some; [auto | right].
  apply list_elem_of_lookup_2, list_elem_of_singleton in En as ->.
  split; [| split; [done | exact (numbered_none _ _ Hn E)]].
  destruct (range lm !! Z.of_nat n) eqn:Er; [| done].
  assert (is_Some (range lm !! Z.of_nat n)) as H by eauto. specialize (Hf _ H). lia.
Qed.

(** The ranges once the event [e0] of the [i]-th thread is in. *)
Lemma widen_lock lm h s e0 (i : nat) :
  lock_hist lm h s -> let lm' := joined (ev_thread e0) lm in
  numbered lm' -> threadList lm' !! i = Some (ev_thread e0) -> in_sint 64 (ev_time e0) ->
  let r' := <[Z.of_nat i := widen (ev_time e0) (range_of lm' (Z.of_nat i))]> (range lm') in
  (forall (n : nat) t, threadList lm' !! n = Some t ->
     range_rep (default (2 ^ 63 - 1, - 2 ^ 63) (r' !! Z.of_nat n)) t (h ++ [e0])) /\
  forall k, is_Some (r' !! k) -> k < Z.of_nat (length (threadList lm')).
Proof.
  intros Hl. cbv zeta. intros Hj Ei Ht. assert (Hold := fun n t => joined_old lm h s (ev_thread e0) n t Hl).
  destruct Hl as [Hn Hh Hr Hf]. unfold range_of in *.
  assert (Erange : range (joined (ev_thread e0) lm) = range lm)
    by (unfold joined; now destruct (threadMap lm !! ev_thread e0)).
  assert (Hlen : Z.of_nat (length (threadList lm)) <=
                 Z.of_nat (length (threadList (joined (ev_thread e0) lm)))).
  { unfold joined. destruct (threadMap lm !! ev_thread e0); [done |]. cbn. rewrite length_app. lia. }
  rewrite !Erange. split.
  - intros n t En. destruct (decide (n = i)) as [-> | Hne].
    + rewrite lookup_insert_eq. rewrite Ei in En. injection En as <-. simpl.
      destruct (Hold _ _ Ei) as [El | (Er & _ & Hno)].
      * apply widen_rep. exact (Hr _ _ El).
      * rewrite Er. apply widen_fresh; [done |]. intros e He Et. apply Hno. rewrite <- Et.
        exact (hist_threads _ _ _ _ _ _ e Hh He).
    + rewrite lookup_insert_ne by lia. destruct (Hold _ _ En) as [El | (Er & <- & _)].
      * apply other_rep; [| exact (Hr _ _ El)]. intros <-.
        exact (Hne (NoDup_lookup _ _ _ _ (nu_nodup _ Hj) En Ei)).
      * destruct (Hne (NoDup_lookup _ _ _ _ (nu_nodup _ Hj) En Ei)).
  - intros k Hk. destruct (decide (k = Z.of_nat i)) as [-> | Hne].
    + apply lookup_lt_Some in Ei. lia.
    + rewrite lookup_insert_ne in Hk by done. specialize (Hf _ Hk). lia.
Qed.

(** What inserting an event leaves: the event is the last of the history. *)
Definition inserted (id : Z) (lm : LockMap) (h : list LockEv) (s' : LockState) (e0 : LockEv)
    (w w' : W) : Prop :=
  erase_locks w' = erase_locks w /\ lastTime w' = Z.max (lastTime w) (ev_time e0) /\
  threads_ok w' /\ exists lm',
    lockMap w' = <[id := lm']> (lockMap w) /\ lock_hist lm' (h ++ [e0]) s' /\
    lockingThread lm' = lockingThread lm /\ lk_type lm' = lk_type lm.

Lemma InsertLockEvent_spec id lev thread time w lm h s :
  threads_ok w -> thread <> max_u64 -> lockMap w !! id = Some lm -> lock_hist lm h s ->
  room_for thread lm -> LockEvent.Time lev = time -> in_sint 64 time ->
  in_uint 64 (LockEvent._time_srcloc lev) ->
  allowed (lk_type lm) (LockEvent.type lev) = true ->
  (lk_type lm = Lockable -> LockEvent.waitShared lev = 0 /\ LockEvent.sharedList lev = 0) ->
  (LockEvent.type lev = Release -> thread = default 0 (owner s)) ->
  match last h with None => True | Some e => ev_time e <= time end ->
  let e0 := mkLockEv (LockEvent.type lev) thread time in
  outcome (InsertLockEvent id lev thread time)
    (fun _ w' => exists s', lstep (lk_type lm) e0 s = Some s' /\ inserted id lm h s' e0 w w')
    (lstep (lk_type lm) e0 s = None) w.
Proof.
  intros Hthr Hmax El Hl Hroom Etime Hin Hw Hal Hz Hrel Hlast. cbv zeta.
  set (e0 := mkLockEv (LockEvent.type lev) thread time).
  assert (Hn := lh_numbered _ _ _ Hl). assert (Hj := joined_numbered _ _ Hn Hroom).
  unfold InsertLockEvent, touch_lastTime. oc_wp. set (w1 := over lastTime _ w).
  assert (Hthr1 : threads_ok w1) by (eapply threads_ok_frame; [exact Hthr | ..]; reflexivity).
  apply outcome_bind, outcome_wp. eapply wp_mono; [exact (NoticeThread_spec thread w1 Hthr1 Hmax) |].
  intros _ w2 (Hthr2 & [He2 _] & _ & _).
  assert (El2 : lockMap w2 = lockMap w) by frame He2 lockMap.
  apply outcome_bind, outcome_wp. eapply wp_mono; [apply (lock_thread_spec id thread w2 lm); auto |].
  { now rewrite El2. }
  intros i w3 (He3 & Et3 & Hthr3 & El3 & Ei).
  destruct (proj1 (nu_map _ Hj thread i) Ei) as (n & -> & En).
  assert (El3' : lockMap w3 !! id = Some (joined thread lm)) by (rewrite El3; apply lookup_insert_eq).
  unfold GetLock, SetLock. oc_wp. eapply wp_expect; [exact El3' |].
  assert (Ej : lk_timeline (joined thread lm) = lk_timeline lm /\ lk_type (joined thread lm) = lk_type lm /\
    isContended (joined thread lm) = isContended lm /\
    lockingThread (joined thread lm) = lockingThread lm)
    by (unfold joined; now destruct (threadMap lm !! thread)).
  destruct Ej as (J1 & J2 & J3 & J4).
  apply outcome_bind, outcome_wp, wp_assert.
  { rewrite J1. pose proof (hist_last _ _ _ _ _ _ (lh_hist _ _ _ Hl)) as Hla.
    destruct (last (lk_timeline lm)) as [p |]; [| done]. destruct Hla as (e & Ee & Her).
    rewrite Ee in Hlast. rewrite (er_time _ _ _ _ Her). now apply Z.leb_le. }
  assert (Hh := joined_hist thread lm h s _ Hn (lh_hist _ _ _ Hl)).
  set (lev' := lev <| LockEvent.thread := Z.of_nat n |>).
  set (lm3 := (joined thread lm) <| lk_timeline := lk_timeline lm ++ [LockEventPtr.mk lev' 0 0 0] |>).
  pose proof (insert_hist (lk_type lm) _ _ _ _ _ lev' n thread lm3 (nu_nodup _ Hj) (nu_len _ Hj) Hh
    eq_refl En Hw Hal Hz Hrel J2 eq_refl J3) as Hins.
  cbv zeta in Hins. change (mkLockEv _ _ _) with (mkLockEv (LockEvent.type lev) thread (LockEvent.Time lev)) in Hins.
  rewrite Etime in Hins. fold e0 in Hins. rewrite J1. fold lev' lm3.
  apply outcome_bind, outcome_expect.
  2: { intros En0. destruct (lstep (lk_type lm) e0 s); [| done]. destruct Hins as (p & _ & Ep). congruence. }
  intros lm4 E4. destruct (lstep (lk_type lm) e0 s) as [s' |] eqn:Es; [| congruence].
  destruct Hins as (p & Hp & Ep). rewrite Ep in E4. injection E4 as <-.
  apply outcome_wp. wp_steps. exists s'. split; [done |].
  destruct (widen_lock lm h s e0 n Hl Hj En Hin) as [Hr Hf].
  split; [| split; [| split]].
  - transitivity (erase_locks w3); [erased |]. rewrite He3.
    transitivity (erase_locks (erase_noticed w2)); [erased |]. rewrite He2. erased.
  - assert (E2 : lastTime w2 = lastTime w1) by frame He2 lastTime. cbn. rewrite Et3, E2. cbn.
    destruct (Z.ltb_spec (lastTime w) time); lia.
  - eapply threads_ok_frame; [exact (Hthr3 Hthr2) | ..]; reflexivity.
  - eexists. split; [cbn; rewrite El3, insert_insert_eq, El2; reflexivity |].
    split; [| split; [exact J4 | exact J2]]. split.
    + destruct Hj. now split.
    + cbn. change (lk_type _) with (lk_type (joined thread lm)). rewrite J2.
      eapply hist_snoc; [exact Hh | exact Hlast | exact Hrel | exact Es | exact Hp].
    + exact Hr.
    + exact Hf.
Qed.

(** ** The handlers *)
Section Handlers.
Context `{LockSlab}.

Lemma new_lock_event_spec id type time w lm :
  lockMap w !! id = Some lm -> time < 2 ^ 47 -> - 2 ^ 47 <= time ->
  wp (new_lock_event id type time) (fun lev w' => w' = w /\ LockEvent.type lev = type /\
    LockEvent.Time lev = time /\ in_uint 64 (LockEvent._time_srcloc lev) /\
    (lk_type lm = Lockable -> LockEvent.waitShared lev = 0 /\ LockEvent.sharedList lev = 0)) w.
Proof.
  intros El Hlt Hge. unfold new_lock_event, GetLock. wp_steps. eapply wp_expect; [exact El |].
  wp_steps. set (lev := match lk_type lm with Lockable => _ | SharedLockable => _ end).
  assert (Hok : in_uint 64 (LockEvent._time_srcloc lev))
    by (unfold lev; destruct (lk_type lm); apply lock_junk_ok).
  unfold LockEvent.SetTime, assert47. eapply wp_expect; [now rewrite (proj2 (Z.ltb_lt _ _) Hlt) |].
  wp_steps. split; [done |]. split; [done |]. split.
  - unfold LockEvent.Time. cbn. rewrite time48_low, time48_set by auto using set_time48_range.
    apply sint_small; [lia | red; lia].
  - split; [cbn; auto using set_low16_range, set_time48_range |]. unfold lev. intros ->. done.
Qed.

(** The conditions under which an event of a lock can arrive. *)
Record arrives (w : W) (id thread dt : Z) (lm : LockMap) (h : list LockEv) (time : Z) : Prop := {
  ar_threads : threads_ok w;
  ar_lock : lockMap w !! id = Some lm;
  ar_thread : thread <> max_u64;
  ar_room : room_for thread lm;
  ar_time : time_of w (sint 64 (m_refTimeSerial w + dt)) = Some time;
  ar_range : - 2 ^ 47 <= time < 2 ^ 47;
  ar_order : match last h with None => True | Some e => ev_time e <= time end }.

(** The event [e0] of lock [id] was taken in; other locks are as before. *)
Definition lock_stepped (id dt : Z) (h : list LockEv) (s' : LockState) (e0 : LockEv)
    (w w' : W) : Prop :=
  m_refTimeSerial w' = sint 64 (m_refTimeSerial w + dt) /\
  lastTime w' = Z.max (lastTime w) (ev_time e0) /\ threads_ok w' /\
  (forall id', id' <> id -> lockMap w' !! id' = lockMap w !! id') /\
  exists lm', lockMap w' !! id = Some lm' /\ lock_rep lm' (h ++ [e0]) s'.

Lemma exclusive_event_spec ty id dt thread w lm h s time :
  arrives w id (thread lm) dt lm h time -> lock_hist lm h s -> allowed (lk_type lm) ty = true ->
  (ty = Release -> thread lm = default 0 (owner s)) ->
  let e0 := mkLockEv ty (thread lm) time in
  outcome (exclusive_event ty id dt thread)
    (fun _ w' => exists s', lstep (lk_type lm) e0 s = Some s' /\
      inserted id lm h s' e0 (w <| m_refTimeSerial := sint 64 (m_refTimeSerial w + dt) |>) w')
    (lstep (lk_type lm) e0 s = None) w.
Proof.
  intros [A1 A2 A3 A4 A5 [A6 A7] A8] Hl Hal Hrel. cbv zeta. unfold exclusive_event, GetLock, RefTime.
  oc_wp. eapply wp_expect; [exact A2 |].
  apply outcome_bind, outcome_wp. wp_steps. set (w1 := over m_refTimeSerial _ w).
  apply outcome_bind, outcome_wp. eapply TscTime_wp; [exact A5 |].
  apply outcome_bind, outcome_wp. eapply wp_mono; [apply (new_lock_event_spec id ty time w1 lm A2 A7 A6) |].
  intros lev w2 (-> & Ety & Etm & Hw & Hz). rewrite <- Ety in *.
  apply InsertLockEvent_spec; auto; try (red; lia).
  eapply threads_ok_frame; [exact A1 | ..]; reflexivity.
Qed.

(** The handlers, by the type of the event they insert. *)
Definition lock_call (ty : Type_) (thread id dt : Z) : M W unit :=
  match ty with
  | Wait => ProcessLockWait thread id dt
  | Obtain => ProcessLockObtain thread id dt
  | Release => ProcessLockRelease id dt
  | WaitShared => ProcessLockSharedWait thread id dt
  | ObtainShared => ProcessLockSharedObtain thread id dt
  | ReleaseShared => ProcessLockSharedRelease thread id dt
  end.

Lemma lstep_owner kind ty thread time s s' :
  lstep kind (mkLockEv ty thread time) s = Some s' ->
  owner s' = match ty with Obtain => Some thread | _ => owner s end.
Proof. unfold lstep. cbn. intros E. destruct ty, kind; try discriminate E; try case_decide; simplify_eq; done. Qed.

Lemma inserted_stepped id dt lm h s s' e0 w w' kind :
  lock_rep lm h s -> lstep kind e0 s = Some s' -> ev_type e0 <> Obtain ->
  inserted id lm h s' e0 (w <| m_refTimeSerial := sint 64 (m_refTimeSerial w + dt) |>) w' ->
  lock_stepped id dt h s' e0 w w'.
Proof.
  intros Hl Es Hne (He & Et & Hthr & lm' & El & Hh & Hlt & _).
  split; [frame He m_refTimeSerial |]. do 2 (split; [done |]). split.
  - intros id' Hid. rewrite El. now rewrite lookup_insert_ne.
  - exists lm'. split; [rewrite El; apply lookup_insert_eq |]. split; [done |].
    destruct e0 as [ty t tm]. rewrite Hlt, (lstep_owner _ _ _ _ _ _ Es), (lr_owner _ _ _ Hl). now destruct ty.
Qed.

(** [m] takes in an event exactly if it is legal. *)
Definition takes_in (ty : Type_) (thread id dt : Z) (lm : LockMap) (h : list LockEv)
    (s : LockState) (time : Z) (w : W) (m : M W unit) : Prop :=
  let e0 := mkLockEv ty thread time in
  outcome m (fun _ w' => exists s', lstep (lk_type lm) e0 s = Some s' /\
      lock_stepped id dt h s' e0 w w') (lstep (lk_type lm) e0 s = None) w.

Section Takes.
Context (ty : Type_) (thread id dt : Z) (lm : LockMap) (h : list LockEv) (s : LockState).
Context (time : Z) (w : W) (Ha : arrives w id thread dt lm h time) (Hl : lock_rep lm h s).
Context (Hrel : ty = Release -> thread = default 0 (owner s)).

Lemma exclusive_takes k :
  allowed (lk_type lm) ty = true -> ty <> Obtain -> k lm = thread ->
  takes_in ty thread id dt lm h s time w (exclusive_event ty id dt k).
Proof.
  intros Hal Hne Ek. rewrite <- Ek in Ha, Hrel.
  eapply outcome_mono;
    [apply (exclusive_event_spec ty id dt k w lm h s time Ha (lr_hist _ _ _ Hl) Hal Hrel) | |];
    rewrite Ek; [| done].
  intros _ w' (s' & Es & Hi). exists s'. eauto using inserted_stepped.
Qed.

Lemma shared_takes :
  exclusive ty = false -> takes_in ty thread id dt lm h s time w (shared_event ty id dt thread).
Proof.
  intros Hx. unfold shared_event, GetLock, takes_in. cbv zeta. oc_wp.
  eapply wp_expect; [exact (ar_lock _ _ _ _ _ _ _ Ha) |].
  destruct (lk_type lm) eqn:Ek; [now destruct ty |].
  apply outcome_bind, outcome_wp, wp_assert; [done |]. rewrite <- Ek.
  apply (exclusive_takes (fun _ => thread)); [now rewrite Ek | now intros E; rewrite E in Hx | done].
Qed.

Lemma obtain_takes :
  ty = Obtain -> takes_in ty thread id dt lm h s time w (ProcessLockObtain thread id dt).
Proof.
  intros E. assert (Hal : allowed (lk_type lm) ty = true) by (rewrite E; now destruct (lk_type lm)).
  unfold ProcessLockObtain. apply outcome_bind. rewrite <- E.
  eapply outcome_mono; [apply (exclusive_event_spec ty id dt (fun _ => thread) w lm h s time Ha
    (lr_hist _ _ _ Hl) Hal Hrel) | | done].
  intros _ w' (s' & Es & He & Et & Hthr & lm' & El & Hh & _).
  unfold GetLock, SetLock. oc_wp. eapply wp_expect; [rewrite El; apply lookup_insert_eq |].
  apply outcome_wp. wp_steps. exists s'. split; [done |]. split; [frame He m_refTimeSerial |].
  split; [done |]. split; [eapply threads_ok_frame; [exact Hthr | ..]; reflexivity |]. split.
  - intros id' Hid. cbn. rewrite El, !lookup_insert_ne by done. done.
  - eexists. split; [apply lookup_insert_eq |]. split.
    + destruct Hh as [[] ? ? ?]. split; [split |..]; done.
    + cbn. rewrite (lstep_owner _ _ _ _ _ _ Es). now rewrite E.
Qed.
End Takes.

(** C8: the handlers of lock events implement the abstract lock. When an event
    arrives in time order for a lock with a given history and state, the handler
    accepts it exactly if it is legal in that state (who waits may obtain, who
    holds may release, and so on, and only a shared lock is shared); otherwise an
    assertion stops it. Afterwards the lock represents the history with the event
    and the state it leads to (bit sets, numbers of threads, recursion count,
    owner, contention, ranges of times), and no other lock changed. *)
Theorem lock_call_refines (ty : Type_) (thread id dt : Z) (w : W) (lm : LockMap)
    (h : list LockEv) (s : LockState) (time : Z) :
  arrives w id thread dt lm h time -> lock_rep lm h s ->
  (ty = Release -> thread = default 0 (owner s)) ->
  let e0 := mkLockEv ty thread time in
  match lstep (lk_type lm) e0 s with
  | Some s' => wp (lock_call ty thread id dt) (fun _ => lock_stepped id dt h s' e0 w) w
  | None => lock_call ty thread id dt w = None
  end.
Proof.
  intros Ha Hl Hrel. cbv zeta.
  enough (Ho : takes_in ty thread id dt lm h s time w (lock_call ty thread id dt)).
  { unfold takes_in, outcome in Ho. destruct (lstep _ _ s) as [s' |] eqn:Es; unfold wp;
      destruct (lock_call ty thread id dt w) as [[a w'] |]; try done;
      destruct Ho as (s1 & E & Ho); congruence. }
  assert (Hal : exclusive ty = true -> allowed (lk_type lm) ty = true) by (now destruct (lk_type lm)).
  destruct ty; cbn [lock_call]; try (apply shared_takes; done).
  - now apply exclusive_takes; auto.
  - now apply obtain_takes.
  - apply exclusive_takes; auto. rewrite (Hrel eq_refl). apply Hl.
Qed.

End Handlers.
