(* ===== verification/LockMarks.v ===== *)
(** * Locks: annotations from scratch, and marks

    The annotations of a timeline are those a computation from any earlier position
    gives again; the search of a mark for its event always ends at the last event
    of the thread that it can belong to. *)
From S2P Require Import Prelude Double Queue Event Containers Discovery Trace Server ServerSpec ServerLock.
From S2P Require Import LockSpec LockRefine.
Import LockEvent(Type_(..)).

(** ** Recomputation *)

(** Computing the states from position [pos] on changes nothing. *)
Definition settled (lm : LockMap) : Prop := forall pos : nat,
  (pos <= length (lk_timeline lm))%nat -> UpdateLockCount lm pos = Some lm.

(** The annotations and the contention flag of a lock are what
    [UpdateLockCount] computes from the bare events, from the first one or from any
    position: the incremental updates that every new event makes add up to the same
    as doing all the work again. *)
Theorem UpdateLockCount_settled (lm : LockMap) (h : list LockEv) (s : LockState) :
  lock_rep lm h s -> settled lm.
Proof.
  intros [[[Hnd Hlen _] Hh _ _] _] pos Hpos.
  destruct (hist_stable _ _ _ _ _ _ Hnd Hlen Hh) as [Hst Ec].
  rewrite (UpdateLockCount_kind (lk_type lm)) by done. unfold UpdateLockCount_.
  assert (Hb : exists c, LockCount.before (code_load (lk_type lm)) (lk_timeline lm) pos = Some c).
  { destruct pos as [| pos]; [eauto |]. cbn.
    destruct (lookup_lt_is_Some_2 (lk_timeline lm) pos ltac:(lia)) as [p ->]. cbn. eauto. }
  destruct Hb as [c Eb]. rewrite Eb. cbn [mbind option_bind].
  rewrite (update_stable _ _ _ _ _ Hst Eb). cbn [mbind option_bind]. rewrite take_drop.
  assert (E : isContended lm || existsb (fun p => code_contended (lk_type lm) (code_load (lk_type lm) p))
    (drop pos (lk_timeline lm)) = isContended lm).
  { rewrite Ec. rewrite <- (take_drop pos (lk_timeline lm)) at 1 3. rewrite existsb_app.
    destruct (existsb _ (take pos _)), (existsb _ (drop pos _)); done. }
  rewrite E. now destruct lm.
Qed.

(** ** Marks *)
Definition markable (ty : Type_) : bool :=
  match ty with Obtain | ObtainShared | Wait | WaitShared => true | _ => false end.
Definition marked (h : list LockEv) (t : Z) : Prop :=
  exists e, e ∈ h /\ ev_thread e = t /\ markable (ev_type e) = true.

Definition involved (s : LockState) (t : Z) : Prop :=
  t ∈ waiting s \/ t ∈ waiting_shared s \/ t ∈ sharing s \/ owner s = Some t.

Lemma lstep_involved kind e s s' t :
  lstep kind e s = Some s' -> involved s' t ->
  involved s t \/ (ev_thread e = t /\ markable (ev_type e) = true).
Proof.
  unfold lstep, involved. destruct e as [ty x tm]. cbn. intros E H.
  destruct ty, kind; try discriminate E; try case_decide; simplify_eq; cbn in H; cbn;
    rewrite ?elem_of_union, ?elem_of_difference, ?elem_of_singleton in H;
    intuition (subst; auto); simplify_eq; auto.
Qed.

Lemma lstep_held kind e s s' :
  lstep kind e s = Some s' -> ev_type e = Release \/ ev_type e = ReleaseShared ->
  involved s (ev_thread e).
Proof.
  unfold lstep, involved. destruct e as [ty x tm]. cbn. intros E [-> | ->]; [| destruct kind; [done |]];
    case_decide; simplify_eq; tauto.
Qed.

(** Whoever has an event of a lock has waited for it or obtained it. *)
Lemma hist_marked kind ths tl h s c :
  hist kind ths tl h s c ->
  (forall t, involved s t -> marked h t) /\ (forall e, e ∈ h -> marked h (ev_thread e)).
Proof.
  induction 1 as [| tl h s c p e s' H [IH1 IH2] _ _ Hs _].
  { split; [| intros e Hin; inversion Hin]. intros t [H | [H | [H | H]]]; [set_solver .. | done]. }
  assert (Hold : forall t, marked h t -> marked (h ++ [e]) t)
    by (intros t (x & Hx & Ht & Hm); exists x; auto using old_event).
  assert (Hnew : markable (ev_type e) = true -> marked (h ++ [e]) (ev_thread e))
    by (intros Hm; exists e; auto using new_event).
  split.
  - intros t Ht. destruct (lstep_involved _ _ _ _ _ Hs Ht) as [Hi | [<- Hm]]; auto.
  - intros x [Hx | ->]%event_cases; [auto |].
    destruct (markable (ev_type e)) eqn:Hm; [auto |]. apply Hold, IH1.
    apply (lstep_held _ _ _ _ Hs). destruct (ev_type e); auto; discriminate Hm.
Qed.

(** An entry a mark of the thread with number [i] can belong to. *)
Definition mark_entry (i : Z) (p : LockEventPtr.t) : bool :=
  (LockEvent.thread (LockEventPtr.ptr p) =? i) && markable (LockEvent.type (LockEventPtr.ptr p)).

Lemma find_mark_S n i tl p :
  tl !! n = Some p ->
  find_mark (S n) i tl = if mark_entry i p then Some n else find_mark n i tl.
Proof.
  intros E. cbn [find_mark]. rewrite E. cbn [fmap option_fmap option_map mbind option_bind].
  unfold mark_entry. destruct (_ =? _); [now destruct (LockEvent.type _) | done].
Qed.

Lemma find_mark_spec n i tl :
  (n <= length tl)%nat -> (exists (k : nat) p, (k < n)%nat /\ tl !! k = Some p /\ mark_entry i p = true) ->
  exists m p, find_mark n i tl = Some m /\ tl !! m = Some p /\ mark_entry i p = true /\
    forall (j : nat) q, (m < j < n)%nat -> tl !! j = Some q -> mark_entry i q = false.
Proof.
  induction n as [| n IH]; intros Hn (k & p & Hk & Ek & Hm); [lia |].
  destruct (lookup_lt_is_Some_2 tl n ltac:(lia)) as [q Eq]. rewrite (find_mark_S n i tl q Eq).
  destruct (mark_entry i q) eqn:Eqm.
  - exists n, q. split; [done |]. split; [done |]. split; [done |]. intros. lia.
  - destruct IH as (m & p' & E & Em & Hp & Hlast); [lia | |].
    { exists k, p. split; [| done]. destruct (decide (k = n)) as [-> |]; [congruence | lia]. }
    exists m, p'. split; [done |]. split; [done |]. split; [done |].
    intros j x Hj Ex. destruct (decide (j = n)) as [-> |]; [congruence |].
    apply (Hlast j x); [lia | done].
Qed.

Lemma hist_lookup kind ths tl h s c n p :
  hist kind ths tl h s c -> tl !! n = Some p -> exists e s', h !! n = Some e /\ entry_rep ths p e s'.
Proof.
  intros H. assert (Hlen := hist_length _ _ _ _ _ _ H). revert n p.
  induction H as [| tl h s c q e s' H IH _ _ _ He]; intros n p; [done |].
  assert (Hl := hist_length _ _ _ _ _ _ H).
  intros [E | [Hge E]]%lookup_app_Some.
  - destruct (IH Hl n p E) as (x & s0 & Ex & Hx). exists x, s0.
    split; [now apply lookup_app_l_Some | done].
  - assert (Hn := E). apply lookup_lt_Some in Hn. simpl in Hn. assert (n = length tl) as -> by lia.
    rewrite Nat.sub_diag in E. simpl in E. simplify_eq. exists e, s'.
    split; [| done]. rewrite Hl. now rewrite list_lookup_middle.
Qed.

(** The entries a mark can belong to, by the events. *)
Lemma mark_entry_rep ths (i : nat) thread p e st :
  NoDup ths -> ths !! i = Some thread -> entry_rep ths p e st ->
  mark_entry (Z.of_nat i) p = true <-> ev_thread e = thread /\ markable (ev_type e) = true.
Proof.
  intros Hnd Ei [H1 _ _ (j & Ej & Ethj) _]. unfold mark_entry.
  rewrite andb_true_iff, Z.eqb_eq, H1, Ej. split; intros [E ?]; (split; [| done]).
  - assert (j = i) as -> by lia. congruence.
  - f_equal. rewrite E in Ethj. exact (NoDup_lookup _ _ _ _ Hnd Ethj Ei).
Qed.

Definition last_markable (h : list LockEv) (thread : Z) (n : nat) : Prop :=
  exists e, h !! n = Some e /\ ev_thread e = thread /\ markable (ev_type e) = true /\
    forall (j : nat) e', (n < j)%nat -> h !! j = Some e' -> ev_thread e' = thread ->
      markable (ev_type e') = false.

Lemma find_mark_hist lm h s thread (i : nat) :
  lock_hist lm h s -> threadList lm !! i = Some thread ->
  exists n, find_mark (length (lk_timeline lm)) (Z.of_nat i) (lk_timeline lm) = Some n /\
    last_markable h thread n.
Proof.
  intros [[Hnd _ _] Hh Hr _] Ei. assert (Hent := fun p e st => mark_entry_rep _ i thread p e st Hnd Ei).
  assert (Hlen := hist_length _ _ _ _ _ _ Hh).
  destruct (find_mark_spec (length (lk_timeline lm)) (Z.of_nat i) (lk_timeline lm) (Nat.le_refl _))
    as (m & p & Efind & Emp & Hmp & Hlast).
  - destruct (Hr i thread Ei) as ((e & He & Et & _) & _).
    destruct (proj2 (hist_marked _ _ _ _ _ _ Hh) e He) as (x & Hx & Etx & Hmx).
    apply list_elem_of_lookup_1 in Hx as [k Ek]. assert (Hk := Ek). apply lookup_lt_Some in Hk.
    destruct (lookup_lt_is_Some_2 (lk_timeline lm) k ltac:(lia)) as [q Eq].
    exists k, q. split; [lia |]. split; [done |].
    destruct (hist_lookup _ _ _ _ _ _ _ _ Hh Eq) as (x' & st & Ex' & Hrep). simplify_eq.
    apply (Hent _ _ _ Hrep). split; [congruence | done].
  - destruct (hist_lookup _ _ _ _ _ _ _ _ Hh Emp) as (e & st & Ee & Hrep).
    destruct (proj1 (Hent _ _ _ Hrep) Hmp) as [Et Hmk].
    exists m. split; [done |]. exists e. do 3 (split; [done |]).
    intros j e' Hj Ej Ethj. destruct (markable (ev_type e')) eqn:Emk; [| done].
    assert (Hlt := Ej). apply lookup_lt_Some in Hlt.
    destruct (lookup_lt_is_Some_2 (lk_timeline lm) j ltac:(lia)) as [q Eq].
    destruct (hist_lookup _ _ _ _ _ _ _ _ Hh Eq) as (x & st' & Ex & Hx). simplify_eq.
    rewrite <- (Hlast j q ltac:(lia) Eq). symmetry. now apply (Hent _ _ _ Hx).
Qed.

Definition mark (s : Z) (p : LockEventPtr.t) : LockEventPtr.t :=
  p <| LockEventPtr.ptr ::= LockEvent.SetSrcLoc s |>.

Lemma entry_mark ths p e st s : entry_rep ths p e st -> entry_rep ths (mark s p) e st.
Proof.
  intros [H1 H2 H3 H4 H5]. split; auto; cbn.
  - now apply set_low16_range.
  - rewrite <- H3. unfold LockEvent.Time. cbn. now apply time48_low.
Qed.

Lemma hist_mark kind ths tl h s c n x :
  hist kind ths tl h s c -> hist kind ths (alter (mark x) n tl) h s c.
Proof.
  intros H. revert n. induction H as [| tl h s c p e s' H IH Ho Hr Hs He]; intros n; [constructor |].
  destruct (decide (n < length tl)%nat) as [Hlt | Hge].
  - rewrite alter_app_l by done. econstructor; eauto.
  - replace n with (length tl + (n - length tl))%nat by lia. rewrite alter_app_r.
    destruct (n - length tl)%nat; [| cbn]; econstructor; eauto. cbn. eauto using entry_mark.
Qed.

(** The lock [lm'] is [lm] with the source location [sl] at the last entry where
    the thread waits for the lock or obtains it. *)
Definition marked_last (lm lm' : LockMap) (h : list LockEv) (thread sl : Z) : Prop :=
  exists n, last_markable h thread n /\ lm' = lm <| lk_timeline ::= alter (mark sl) n |>.

(** C38: a mark never runs past the first event of the lock. For a thread
    that has an event of the lock, the backward search ends at the last event with
    which it waited for the lock or obtained it; this event gets the number that
    stands for the source location of the mark, and the lock still represents its
    history. *)
Theorem ProcessLockMark_safe (thread id srcloc : Z) (w : W) (lm : LockMap) (h : list LockEv)
    (s : LockState) :
  srcs_ok w -> srcloc <> max_u64 -> Z.of_nat (length (sourceLocationExpand w)) + 1 < int16_max ->
  lockMap w !! id = Some lm -> lock_rep lm h s -> thread ∈ threadList lm ->
  wp (ProcessLockMark thread id srcloc) (fun _ w' => exists sl lm',
    lockMap w' = <[id := lm']> (lockMap w) /\ marked_last lm lm' h thread sl /\
    lock_rep lm' h s /\ source_of w' sl = Some srcloc /\
    is_Some (sourceLocationZones w' !! sl) /\ srcs_ok w') w.
Proof.
  intros Hs Hmax Hex El Hl Hin. assert (Hl' := Hl). destruct Hl' as [[Hn Hh Hr Hf] Ho].
  apply list_elem_of_lookup_1 in Hin as [i Ei].
  assert (Em : threadMap lm !! thread = Some (Z.of_nat i)) by (apply (nu_map _ Hn); eauto).
  unfold ProcessLockMark. wp_steps. wp_call CheckSourceLocation_spec. intros _ w1 (He1 & _).
  red in He1. cbv zeta in He1.
  assert (El1 : lockMap w1 = lockMap w) by frame He1 lockMap.
  unfold GetLock, SetLock. wp_steps. eapply wp_expect; [rewrite El1; exact El |].
  wp_steps. eapply wp_expect; [exact Em |].
  destruct (find_mark_hist lm h s thread i (lr_hist _ _ _ Hl) Ei) as (m & Efind & Hlast).
  wp_steps. eapply wp_expect; [exact Efind |].
  assert (Hs1 : srcs_ok w1) by (eapply srcs_ok_frame; [exact Hs | frame He1 m_sourceLocationShrink |
    frame He1 sourceLocationZones | frame He1 shrinkSrclocLast | frame He1 srclocZonesLast |
    frame He1 sourceLocationExpand | frame He1 m_pendingSourceLocationPayload]).
  wp_steps. eapply wp_mono; [apply (ShrinkSourceLocation_spec srcloc w1 Hs1 Hmax) |].
  { assert (E : sourceLocationExpand w1 = sourceLocationExpand w) by frame He1 sourceLocationExpand.
    now rewrite E. }
  intros sl w2 (Hs2 & [He2 _] & _ & Hsl & Hso). cbv zeta in He2.
  assert (El2 : lockMap w2 = lockMap w1) by frame He2 lockMap.
  wp_steps. eexists sl, _. split; [cbn; rewrite El2, El1; reflexivity |].
  split; [| split; [| split; [| split]]].
  - exists m. split; [exact Hlast | reflexivity].
  - split; [| exact Ho]. destruct Hn. split; [split; done | | done | done]. cbn. now apply hist_mark.
  - exact Hso.
  - exact Hsl.
  - eapply srcs_ok_frame; [exact Hs2 | ..]; reflexivity.
Qed.

(** ** Witnesses *)
#[export] Instance demo_lock_slab : LockSlab.
Proof. refine {| lock_junk := fun _ _ => LockEvent.mk 5 6 Wait 7 8 |}. done. Defined.

(** A lock that thread 7 waits for since time 20. *)
Definition demo_wait : LockEv := mkLockEv Wait 7 20.
Definition demo_entry : LockEventPtr.t :=
  LockEventPtr.mk (LockEvent.mk (20 * 2 ^ 16) 0 Wait 0 0) 0 0 1.
Definition demo_lock : LockMap :=
  mkLockMap StringIdx.none 1 [demo_entry] {[7 := 0]} [7] Lockable 10 0 true false 0 {[0 := (20, 20)]}.
Definition demo_waiting : LockState := unlocked <| waiting := {[7]} ∪ ∅ |>.

Lemma demo_lock_hist : hist Lockable [7] [demo_entry] [demo_wait] demo_waiting false.
Proof.
  apply (hist_snoc _ _ [] [] unlocked false demo_entry demo_wait demo_waiting); try done.
  - apply hist_nil.
  - split; try done.
    + exists 0%nat. done.
    + split; try (cbn; auto using bits_empty); try lia.
      apply (bits_add [7] ltac:(repeat constructor; set_solver) 0 ∅ 0 7); [apply bits_empty | done].
Qed.

Lemma demo_lock_rep : lock_rep demo_lock [demo_wait] demo_waiting.
Proof.
  split; [split |]; try done.
  - split; cbn; [repeat constructor; set_solver | lia |].
    intros t i. rewrite lookup_singleton_Some. split.
    + intros [<- <-]. exists 0%nat. done.
    + intros (n & -> & En). destruct n as [| [| n]]; [| done ..]. simpl in En. simplify_eq. done.
  - exact demo_lock_hist.
  - intros n t En. destruct n as [| [| n]]; [| done ..]. simpl in En. simplify_eq.
    split; [| split]; [exists demo_wait; split; [left | done] .. |].
    intros e ->%list_elem_of_singleton _. split; vm_compute; discriminate.
  - cbn. intros i [r Hi]. apply lookup_singleton_Some in Hi as [<- _]. lia.
Qed.

(** A server that knows this lock. *)
Definition demo_lock_server : W :=
  (Worker (double_of_Z 1) 1000 1000 100 false false [0; 0]) <| m_threadCtx := 7 |>
    <| lockMap := {[3 := demo_lock]} |> <| m_refTimeSerial := 1020 |>.

Lemma demo_lock_arrives dt time : time_of demo_lock_server (1020 + dt) = Some time ->
  sint 64 (1020 + dt) = 1020 + dt -> 20 <= time < 2 ^ 47 ->
  arrives demo_lock_server 3 7 dt demo_lock [demo_wait] time.
Proof.
  intros Et Es Hr. split; try done.
  - left. left.
  - change (m_refTimeSerial demo_lock_server) with 1020. now rewrite Es.
  - lia.
  - cbn. lia.
Qed.

(** The waiting thread obtains the lock at time 25. *)
Lemma lock_call_refines_witness :
  wp (lock_call Obtain 7 3 5) (fun _ w' => exists lm', lockMap w' !! 3 = Some lm' /\
    lock_rep lm' ([demo_wait] ++ [mkLockEv Obtain 7 25])
      (mkLockState (Some 7) 1 (({[7]} ∪ ∅) ∖ {[7]}) ∅ ∅)) demo_lock_server.
Proof.
  assert (Ha : arrives demo_lock_server 3 7 5 demo_lock [demo_wait] 25)
    by (apply demo_lock_arrives; [vm_compute; reflexivity | reflexivity | lia]).
  pose proof (lock_call_refines Obtain 7 3 5 demo_lock_server demo_lock [demo_wait] demo_waiting 25
    Ha demo_lock_rep) as H.
  unfold lstep in H. cbn [ev_type ev_thread lk_type demo_lock] in H.
  rewrite decide_True in H by (split; [done | cbn; set_solver]).
  eapply wp_mono; [apply H; discriminate |].
  intros _ w' (_ & _ & _ & _ & lm' & E & Hr). exists lm'. split; [exact E | exact Hr].
Defined.

Lemma UpdateLockCount_settled_witness : UpdateLockCount demo_lock 0%nat = Some demo_lock.
Proof. apply (UpdateLockCount_settled _ _ _ demo_lock_rep 0%nat). cbn. lia. Defined.

Lemma ProcessLockMark_safe_witness :
  wp (ProcessLockMark 7 3 0xABC) (fun _ w' => exists sl lm',
    lockMap w' !! 3 = Some lm' /\ marked_last demo_lock lm' [demo_wait] 7 sl /\
    source_of w' sl = Some 0xABC) demo_lock_server.
Proof.
  eapply wp_mono; [apply (ProcessLockMark_safe 7 3 0xABC demo_lock_server demo_lock [demo_wait] demo_waiting) |].
  - split; try done. now left.
  - discriminate.
  - reflexivity.
  - reflexivity.
  - exact demo_lock_rep.
  - left.
  - intros _ w' (sl & lm' & E & Hm & _ & Hso & _). exists sl, lm'. split; [| exact (conj Hm Hso)].
    rewrite E. apply lookup_insert_eq.
Defined.
