(* ===== verification/ServerMem.v ===== *)
(** * Memory pools: the handlers of allocation events

    A pool ([MemData]) keeps every allocation it ever saw ([data]), which of them
    are live ([active], by address), the order of the frees, the extent of the
    addresses and the number of bytes in use, which is also plotted over time.
    Pool 0 is the default one; the others are named by a preceding message. *)
From S2P Require Import Prelude Double Queue Event Containers Discovery Trace Server.

(* TracyEvent.hpp:776-776 *)
Definition PlotItemSort (lhs rhs : PlotItem) : bool :=
  Int48.Val (pi_time lhs) <? Int48.Val (pi_time rhs).

Definition GetMem (pool : Z) : M W MemData := m ← gets memNameMap; expect (m !! pool).
Definition SetMem (pool : Z) (d : MemData) : M W unit :=
  modify (fun w => w <| memNameMap ::= <[pool := d]> |>).
Definition GetPlot (p : nat) : M W PlotData := h ← gets plot_heap; expect (h !! p).
Definition SetPlot (p : nat) (d : PlotData) : M W unit :=
  modify (fun w => w <| plot_heap ::= <[p := d]> |>).
Definition plot_push (time : Z) (val : double) (d : PlotData) : PlotData :=
  d <| pl_data ::= SortedVector.push_back PlotItemSort (mkPlotItem (Int48.make time) val) |>.

(** The numbers that the new plot leaves unset are set by the caller. *)
(* TracyWorker.cpp:7554-7566 *)
Definition CreateMemAllocPlot (pool : Z) : M W nat :=
  md ← GetMem pool;
  assert_ (negb (bool_decide (is_Some (plot md))));;
  h ← gets plot_heap;
  let p := length h in
  first ← GetFirstTime;
  let d := mkPlotData (name md) (S754_zero false) (S754_zero false) (S754_zero false)
    (SortedVector.empty) PlotMemory 1 1 1 0 in
  SetMem pool (md <| plot := Some p |>);;
  modify (fun w => w <| plot_heap ::= (fun h => h ++ [plot_push first (S754_zero false) d]) |>
                     <| plots ::= StringDiscovery.AddExternal p |>);;
  mret p.

(** A value of the plot after its first one. *)
(* TracyWorker.cpp:7545-7550 MemAllocChanged *)
Definition plot_next (time : Z) (val : double) (d : PlotData) : option PlotData :=
  match last (SortedVector.v (pl_data d)) with
  | Some b =>
      if Int48.Val (pi_time b) <=? time then
        let d := if dltb val (pl_min d) then d <| pl_min := val |>
                 else if dltb (pl_max d) val then d <| pl_max := val |> else d in
        Some (plot_push time val (d <| pl_sum ::= fun s => dadd s val |>))
      else None
  | None => None
  end.

(* TracyWorker.cpp:7532-7552 *)
Definition MemAllocChanged (pool : Z) (time : Z) : M W unit :=
  memdata ← GetMem pool;
  let val := double_of_Z (usage memdata) in
  match plot memdata with
  | None =>
      p ← CreateMemAllocPlot pool;
      d ← GetPlot p;
      SetPlot p (plot_push time val
        (d <| pl_min := val |> <| pl_max := val |> <| pl_sum := val |>))
  | Some p =>
      d ← GetPlot p;
      d ← expect (plot_next time val d);
      SetPlot p d
  end.

(** The free of the live allocation [i] at [ptr]. *)
(* TracyWorker.cpp:6287-6295 *)
Definition MemDataFree (ptr i time thread : Z) (memdata : MemData) : option MemData :=
  mem ← data memdata !! Z.to_nat i;
  Some (memdata <| frees ::= (fun l => l ++ [uint 32 i]) |>
    <| data ::= <[Z.to_nat i := MemEvent.SetTimeThreadFree time thread mem]> |>
    <| usage ::= (fun u => uint 64 (u - MemEvent.Size mem)) |>
    <| active ::= delete ptr |>).

(** The six bytes of a size. *)
(* TracyWorker.cpp:6323-6327 ProcessMemAllocImpl *)
Definition size_of_bytes (size : list Z) : Z :=
  let lo := le_val (take 4 size) in
  let hi := le_val (take 2 (drop 4 size)) in
  Z.lor lo (Z.shiftl hi 32).

(* TracyWorker.cpp:6329-6335 ProcessMemAllocImpl *)
Definition new_mem_event (ptr size time thread : Z) : option MemEvent.t :=
  mem ← MemEvent.SetSize size (MemEvent.SetPtr ptr MemEvent.zero);
  let mem := MemEvent.SetTimeThreadAlloc time thread mem in
  let mem := MemEvent.SetTimeThreadFree (-1) 0 mem in
  let mem := MemEvent.SetCsAlloc 0 mem in
  Some (mem <| MemEvent.csFree ::= Int24.SetVal 0 |>).

(** A fault: the address is already live. Whether the allocation goes on. *)
(* TracyWorker.cpp:6305-6316 ProcessMemAllocImpl *)
Definition realloc_fault (pool ptr thread_id time thread : Z) : M W bool :=
  memdata ← GetMem pool;
  match active memdata !! ptr with
  | None => mret true
  | Some i =>
      ignore ← gets m_ignoreMemAllocFaults;
      if negb ignore then MemAllocTwiceFailure thread_id;; mret false else
      md ← expect (MemDataFree ptr i time thread memdata);
      SetMem pool md;;
      MemAllocChanged pool time;;
      mret true
  end.

(** The result is the index of the allocation, or none for the null pointer. *)
(* TracyWorker.cpp:6297-6347 *)
Definition ProcessMemAllocImpl (pool dt thread_id ptr : Z) (sizeb : list Z) : M W (option nat) :=
  ref ← RefTime m_refTimeSerial dt;
  time ← TscTime ref;
  touch_lastTime time;;
  NoticeThread thread_id;;
  thread ← CompressThread thread_id;
  ok ← realloc_fault pool ptr thread_id time thread;
  if negb ok then mret None else
  memdata ← GetMem pool;
  assert_ (match last (data memdata) with None => true | Some b => MemEvent.TimeAlloc b <=? time end);;
  let n := length (data memdata) in
  let size := size_of_bytes sizeb in
  mem ← expect (new_mem_event ptr size time thread);
  SetMem pool (memdata <| active ::= emplace ptr (Z.of_nat n) |> <| data ::= (fun l => l ++ [mem]) |>
    <| low ::= (fun l => Z.min l ptr) |> <| high ::= (fun h => Z.max h (uint 64 (ptr + size))) |>
    <| usage ::= (fun u => uint 64 (u + size)) |>);;
  MemAllocChanged pool time;;
  mret (Some n).

(* TracyWorker.cpp:6349-6373 *)
Definition ProcessMemFreeImpl (pool dt thread_id ptr : Z) : M W (option nat) :=
  refTime ← RefTime m_refTimeSerial dt;
  memdata ← GetMem pool;
  match active memdata !! ptr with
  | None =>
      if ptr =? 0 then mret None else
      ignore ← gets m_ignoreMemFreeFaults;
      (if negb ignore then CheckThreadString thread_id;; MemFreeFailure thread_id else mret tt);;
      mret None
  | Some i =>
      time ← TscTime refTime;
      touch_lastTime time;;
      NoticeThread thread_id;;
      thread ← CompressThread thread_id;
      md ← expect (MemDataFree ptr i time thread memdata);
      SetMem pool md;;
      MemAllocChanged pool time;;
      mret (Some (Z.to_nat i))
  end.

(** The pool named by the preceding message; a new one if it is not known. *)
(* TracyWorker.cpp:6383-6392 ProcessMemAllocNamed *)
Definition named_pool : M W Z :=
  memname ← gets m_memNamePayload;
  assert_ (negb (memname =? 0));;
  modify (fun w => w <| m_memNamePayload := 0 |>);;
  m ← gets memNameMap;
  match m !! memname with
  | Some _ => mret tt
  | None => CheckString memname;; SetMem memname (new_MemData <| name := memname |>)
  end;;
  mret memname.
Definition no_name : M W unit := n ← gets m_memNamePayload; assert_ (n =? 0).

(* TracyWorker.cpp:6375-6379 *)
Definition ProcessMemAlloc (dt thread ptr : Z) (size : list Z) : M W (option nat) :=
  no_name;; ProcessMemAllocImpl 0 dt thread ptr size.
(* TracyWorker.cpp:6381-6394 *)
Definition ProcessMemAllocNamed (dt thread ptr : Z) (size : list Z) : M W (option nat) :=
  pool ← named_pool; ProcessMemAllocImpl pool dt thread ptr size.
(* TracyWorker.cpp:6396-6400 *)
Definition ProcessMemFree (dt thread ptr : Z) : M W (option nat) :=
  no_name;; ProcessMemFreeImpl 0 dt thread ptr.
(* TracyWorker.cpp:6402-6415 *)
Definition ProcessMemFreeNamed (dt thread ptr : Z) : M W (option nat) :=
  pool ← named_pool; ProcessMemFreeImpl pool dt thread ptr.

(** The call stack that precedes an event goes to the allocation, if there is one. *)
(* TracyWorker.cpp:6420-6422 ProcessMemAllocCallstack *)
Definition set_callstack (pool : Z) (mem : option nat)
    (set : Z -> MemEvent.t -> MemEvent.t) : M W unit :=
  cs ← gets m_serialNextCallstack;
  assert_ (negb (cs =? 0));;
  match mem with
  | None => mret tt
  | Some n => md ← GetMem pool; SetMem pool (md <| data ::= alter (set cs) n |>)
  end;;
  modify (fun w => w <| m_serialNextCallstack := 0 |>).
Definition set_csFree (cs : Z) (m : MemEvent.t) : MemEvent.t :=
  m <| MemEvent.csFree ::= Int24.SetVal cs |>.
(* TracyWorker.cpp:6417-6423 *)
Definition ProcessMemAllocCallstack (dt thread ptr : Z) (size : list Z) : M W unit :=
  mem ← ProcessMemAlloc dt thread ptr size; set_callstack 0 mem MemEvent.SetCsAlloc.
(* TracyWorker.cpp:6425-6441 *)
Definition ProcessMemAllocCallstackNamed (dt thread ptr : Z) (size : list Z) : M W unit :=
  pool ← named_pool;
  mem ← ProcessMemAllocImpl pool dt thread ptr size; set_callstack pool mem MemEvent.SetCsAlloc.
(* TracyWorker.cpp:6443-6449 *)
Definition ProcessMemFreeCallstack (dt thread ptr : Z) : M W unit :=
  mem ← ProcessMemFree dt thread ptr; set_callstack 0 mem set_csFree.
(* TracyWorker.cpp:6451-6467 *)
Definition ProcessMemFreeCallstackNamed (dt thread ptr : Z) : M W unit :=
  pool ← named_pool;
  mem ← ProcessMemFreeImpl pool dt thread ptr; set_callstack pool mem set_csFree.

(** The order in which a range-based [for] visits a hash map. *)
Class MapOrder := {
  visit : gmap Z Z -> list (Z * Z);
  visit_perm : forall m, Permutation (visit m) (map_to_list m) }.

(** One turn of the loops of the discards; [set] stores the call stack. *)
(* TracyWorker.cpp:6516-6521 ProcessMemDiscardCallstack *)
Definition discard_one (pool time thread : Z) (set : MemEvent.t -> MemEvent.t) (i : Z) : M W unit :=
  md ← GetMem pool;
  mem ← expect (data md !! Z.to_nat i);
  SetMem pool (md <| frees ::= (fun l => l ++ [uint 32 i]) |>
    <| data ::= <[Z.to_nat i := set (MemEvent.SetTimeThreadFree time thread mem)]> |>
    <| usage ::= (fun u => uint 64 (u - MemEvent.Size mem)) |>);;
  MemAllocChanged pool time.

Section Discard.
Context `{MapOrder}.

(* TracyWorker.cpp:6471-6493 ProcessMemDiscard *)
Definition discard (dt thread_id pool : Z) (set : MemEvent.t -> MemEvent.t) : M W unit :=
  no_name;;
  m ← gets memNameMap;
  match m !! pool with
  | None => mret tt
  | Some memdata =>
      refTime ← RefTime m_refTimeSerial dt;
      time ← TscTime refTime;
      touch_lastTime time;;
      NoticeThread thread_id;;
      thread ← CompressThread thread_id;
      for_each (visit (active memdata)) (fun v => discard_one pool time thread set v.2);;
      md ← GetMem pool;
      SetMem pool (md <| active := ∅ |>);;
      assert_ (usage md =? 0)
  end.
(* TracyWorker.cpp:6469-6494 *)
Definition ProcessMemDiscard (dt thread pool : Z) : M W unit := discard dt thread pool (fun m => m).
(* TracyWorker.cpp:6496-6526 *)
Definition ProcessMemDiscardCallstack (dt thread pool : Z) : M W unit :=
  cs ← gets m_serialNextCallstack;
  assert_ (negb (cs =? 0));;
  modify (fun w => w <| m_serialNextCallstack := 0 |>);;
  discard dt thread pool (set_csFree cs).
End Discard.

(* TracyWorker.cpp:7361-7365 *)
Definition ProcessMemNamePayload (name : Z) : M W unit :=
  n ← gets m_memNamePayload; assert_ (n =? 0);;
  modify (fun w => w <| m_memNamePayload := name |>).
(* TracyWorker.cpp:6528-6534 *)
Definition ProcessCallstackSerial : M W unit :=
  p ← gets m_pendingCallstackId; assert_ (negb (p =? 0));;
  n ← gets m_serialNextCallstack; assert_ (n =? 0);;
  modify (fun w => w <| m_serialNextCallstack := p |> <| m_pendingCallstackId := 0 |>).
(* TracyWorker.cpp:6536-6545 *)
Definition ProcessCallstack : M W unit :=
  p ← gets m_pendingCallstackId; assert_ (negb (p =? 0));;
  td ← GetCurrentThreadData;
  t ← GetThread td;
  m ← gets m_nextCallstack;
  assert_ (match m !! id t with Some n => n =? 0 | None => true end);;
  modify (fun w => w <| m_nextCallstack ::= <[id t := p]> |> <| m_pendingCallstackId := 0 |>).
