(* ===== verification/MemSpec.v ===== *)
(** * Memory pools: what the handlers promise

    Seen from outside, a pool is the map of its live blocks: their addresses and
    sizes.  [pool_ok] ties a [MemData] to that map: which event each live block
    belongs to, that every allocation is either live or was freed once, and that
    the counter of bytes in use is the sum of the sizes.  The operations on
    [MemData] implement insertion, removal and clearing of the map. *)
From S2P Require Import Prelude Double Queue Event Containers Discovery Trace Server ServerSpec ServerMem.

(** ** The bytes in use *)
Definition total (live : gmap Z Z) : Z := map_fold (fun _ sz acc => sz + acc) 0 live.

Lemma total_empty : total ∅ = 0.
Proof. apply map_fold_empty. Qed.

Lemma total_insert p sz live : live !! p = None -> total (<[p := sz]> live) = sz + total live.
Proof. intros E. apply (map_fold_insert_L (fun _ sz acc => sz + acc)); [| done]. intros. lia. Qed.

Lemma total_delete p sz live : live !! p = Some sz -> total live = sz + total (delete p live).
Proof.
  intros E. rewrite <- (insert_delete_id live p sz E) at 1. apply total_insert, lookup_delete_eq.
Qed.

Lemma uint_add_mod w a b : 0 <= w -> uint w (uint w a + b) = uint w (a + b).
Proof. intros. unfold uint. now rewrite Zplus_mod_idemp_l. Qed.

Lemma uint_sub_mod w a b : 0 <= w -> uint w (uint w a - b) = uint w (a - b).
Proof. intros. unfold uint. now rewrite Zminus_mod_idemp_l. Qed.

(** ** The representation *)

(** The allocation of a live block. *)
Definition live_event (p sz : Z) (e : MemEvent.t) : Prop :=
  MemEvent.ok e /\ MemEvent.Ptr e = uint 64 (sint 56 p) /\ MemEvent.Size e = sz /\
  MemEvent.TimeFree e = -1.

(** The times of a list of allocations, in order. *)
Definition in_order (ts : list Z) : Prop :=
  forall (i j : nat) a b, (i <= j)%nat -> ts !! i = Some a -> ts !! j = Some b -> a <= b.

Record pool_ok (md : MemData) (live : gmap Z Z) : Prop := {
  po_live : forall p, match active md !! p, live !! p with
    | Some i, Some sz => 0 <= i /\ exists e, data md !! Z.to_nat i = Some e /\ live_event p sz e
    | None, None => True
    | _, _ => False
    end;
  po_once : Permutation (frees md ++ (map_to_list (active md)).*2)
              (map Z.of_nat (seq 0 (length (data md))));
  po_len : Z.of_nat (length (data md)) <= 2 ^ 32;
  po_usage : usage md = uint 64 (total live);
  po_order : in_order (MemEvent.TimeAlloc <$> data md);
  po_extent : forall p sz, live !! p = Some sz -> low md <= p /\ uint 64 (p + sz) <= high md }.

Lemma pool_ok_new nm : pool_ok (new_MemData <| name := nm |>) ∅.
Proof. split; cbn; done. Qed.

Lemma po_none md live p : pool_ok md live -> live !! p = None -> active md !! p = None.
Proof. intros H E. pose proof (po_live _ _ H p) as Hp. rewrite E in Hp. now destruct (active md !! p). Qed.

Lemma po_some md live p sz : pool_ok md live -> live !! p = Some sz ->
  exists i e, active md !! p = Some i /\ 0 <= i /\ data md !! Z.to_nat i = Some e /\ live_event p sz e.
Proof.
  intros H E. pose proof (po_live _ _ H p) as Hp. rewrite E in Hp.
  destruct (active md !! p) as [i |]; [| done]. destruct Hp as (Hi & e & He). eauto 6.
Qed.

(** No two blocks share an allocation, and no live one was freed. *)
Lemma po_nodup md live : pool_ok md live -> NoDup (frees md ++ (map_to_list (active md)).*2).
Proof.
  intros H. rewrite (po_once _ _ H). apply NoDup_fmap_2; [intros a b; lia |]. apply NoDup_seq.
Qed.

Lemma po_inj md live p q i :
  pool_ok md live -> active md !! p = Some i -> active md !! q = Some i -> p = q.
Proof.
  intros H Ep Eq. destruct (decide (p = q)) as [-> | Hne]; [done | exfalso].
  pose proof (po_nodup _ _ H) as Hnd. apply NoDup_app in Hnd as (_ & _ & Hnd).
  rewrite <- (insert_delete_id _ _ _ Ep) in Hnd.
  rewrite map_to_list_insert in Hnd by apply lookup_delete_eq.
  cbn in Hnd. apply NoDup_cons in Hnd as [Hn _]. apply Hn.
  apply list_elem_of_fmap. exists (q, i). split; [done |].
  apply elem_of_map_to_list. now rewrite lookup_delete_ne.
Qed.

Lemma po_index md live p i : pool_ok md live -> active md !! p = Some i ->
  0 <= i < Z.of_nat (length (data md)).
Proof.
  intros H Ep. pose proof (po_live _ _ H p) as Hp. rewrite Ep in Hp.
  destruct (live !! p); [| done]. destruct Hp as (? & e & Ee & _). apply lookup_lt_Some in Ee. lia.
Qed.

Lemma in_order_snoc ts t :
  in_order ts -> match last ts with None => True | Some b => b <= t end -> in_order (ts ++ [t]).
Proof.
  intros Ho Hl i j a b Hij Ei Ej.
  assert (Hb : forall k c, ts !! k = Some c -> c <= t).
  { intros k c Ek. rewrite last_lookup in Hl. assert (Hk := Ek). apply lookup_lt_Some in Hk.
    destruct (lookup_lt_is_Some_2 ts (pred (length ts)) ltac:(lia)) as [x Ex]. rewrite Ex in Hl.
    specialize (Ho k (pred (length ts)) c x ltac:(lia) Ek Ex). lia. }
  apply lookup_app_Some in Ei as [Ei | [Hi Ei]]; apply lookup_app_Some in Ej as [Ej | [Hj Ej]].
  - eauto.
  - apply list_elem_of_lookup_2, list_elem_of_singleton in Ej as ->. eauto.
  - apply lookup_lt_Some in Ej. lia.
  - apply list_elem_of_lookup_2, list_elem_of_singleton in Ei as ->.
    apply list_elem_of_lookup_2, list_elem_of_singleton in Ej as ->. lia.
Qed.

(** ** Freeing *)
Lemma free_times md i e e' : data md !! i = Some e -> MemEvent.TimeAlloc e' = MemEvent.TimeAlloc e ->
  MemEvent.TimeAlloc <$> <[i := e']> (data md) = MemEvent.TimeAlloc <$> data md.
Proof.
  intros Ee Et. rewrite list_fmap_insert, Et. apply list_insert_id.
  now rewrite list_lookup_fmap, Ee.
Qed.

(** The pool after the allocation [i] of the block at [ptr] became [e']. *)
Definition freed (ptr i : Z) (e e' : MemEvent.t) (md : MemData) : MemData :=
  md <| frees ::= (fun l => l ++ [uint 32 i]) |> <| data ::= <[Z.to_nat i := e']> |>
    <| usage ::= (fun u => uint 64 (u - MemEvent.Size e)) |> <| active ::= delete ptr |>.

Lemma freed_ok ptr i e e' md live sz :
  pool_ok md live -> active md !! ptr = Some i -> live !! ptr = Some sz ->
  data md !! Z.to_nat i = Some e -> MemEvent.Size e = sz ->
  MemEvent.TimeAlloc e' = MemEvent.TimeAlloc e -> pool_ok (freed ptr i e e' md) (delete ptr live).
Proof.
  intros H Ei El Ee Hsz Hta. assert (Hix := po_index _ _ _ _ H Ei). assert (Hlen := po_len _ _ H).
  assert (Eu : uint 32 i = i) by (apply uint_small; red; lia).
  split; cbn.
  - intros p. destruct (decide (p = ptr)) as [-> | Hne].
    { now rewrite !lookup_delete_eq. }
    rewrite !lookup_delete_ne by done. pose proof (po_live _ _ H p) as Hp.
    destruct (active md !! p) as [k |] eqn:Ek, (live !! p) as [s |]; try done.
    destruct Hp as (Hk & x & Ex & Hx). split; [done |]. exists x. split; [| done].
    rewrite list_lookup_insert_ne; [done |]. intros Hki.
    apply Hne. apply (po_inj md live p ptr k H Ek). rewrite Ei. f_equal. lia.
  - rewrite Eu, length_insert, <- (po_once _ _ H), <- app_assoc.
    apply Permutation_app_head. cbn.
    rewrite <- (insert_delete_id _ _ _ Ei) at 2.
    rewrite map_to_list_insert by apply lookup_delete_eq. done.
  - now rewrite length_insert.
  - rewrite (po_usage _ _ H), (total_delete _ _ _ El), Hsz, uint_sub_mod by lia. f_equal. lia.
  - rewrite (free_times _ _ e) by done. apply H.
  - intros p s [_ E]%lookup_delete_Some. exact (po_extent _ _ H p s E).
Qed.

Lemma MemDataFree_spec ptr sz time thread md live :
  pool_ok md live -> live !! ptr = Some sz -> exists i md', active md !! ptr = Some i /\
    MemDataFree ptr i time thread md = Some md' /\ pool_ok md' (delete ptr live) /\
    plot md' = plot md /\ length (data md') = length (data md) /\
    (MemEvent.TimeAlloc <$> data md' = MemEvent.TimeAlloc <$> data md) /\
    frees md' = frees md ++ [i] /\
    (forall e, data md' !! Z.to_nat i = Some e -> MemEvent.TimeFree e = sint 48 time).
Proof.
  intros H El. destruct (po_some _ _ _ _ H El) as (i & e & Ei & Hi & Ee & Hok & _ & Hsz & _).
  assert (Hix := po_index _ _ _ _ H Ei). assert (Hlen := po_len _ _ H).
  destruct (mem_SetTimeThreadFree e time thread Hok) as (_ & Htf & _ & Hta).
  set (e' := MemEvent.SetTimeThreadFree time thread e) in *.
  exists i, (freed ptr i e e' md). split; [done |]. unfold MemDataFree. rewrite Ee.
  split; [reflexivity |]. split; [eapply freed_ok; eauto |]. cbn.
  split; [done |]. split; [apply length_insert |]. split; [now apply (free_times _ _ e) |].
  split; [now rewrite uint_small by (red; lia) |].
  intros x. rewrite list_lookup_insert_eq by (now apply lookup_lt_Some in Ee). now intros [= <-].
Qed.

(** The free of the block at [ptr], in the list of allocations: the event [n] of the
    allocation that is live at the address gets the time and the thread of the
    free and keeps all else; it is the next one in the list of frees; the other
    events stay as they are. *)
Definition event_freed (ptr time thread : Z) (n : nat) (md md' : MemData) : Prop :=
  active md !! ptr = Some (Z.of_nat n) /\ frees md' = frees md ++ [Z.of_nat n] /\
  exists e e', data md !! n = Some e /\ data md' = <[n := e']> (data md) /\
    MemEvent.Ptr e = uint 64 (sint 56 ptr) /\
    MemEvent.TimeFree e' = time /\ MemEvent.ThreadFree e' = uint 16 thread /\
    MemEvent.Ptr e' = MemEvent.Ptr e /\ MemEvent.Size e' = MemEvent.Size e /\
    MemEvent.TimeAlloc e' = MemEvent.TimeAlloc e /\
    MemEvent.ThreadAlloc e' = MemEvent.ThreadAlloc e.

Lemma MemDataFree_frees ptr sz i time thread md live md' p :
  pool_ok md live -> live !! ptr = Some sz -> active md !! ptr = Some i ->
  MemDataFree ptr i time thread md = Some md' -> - 2 ^ 47 <= time < 2 ^ 47 ->
  event_freed ptr time thread (Z.to_nat i) md (md' <| plot := p |>).
Proof.
  intros H El Ea Ef Ht. destruct (po_some _ _ _ _ H El) as (i' & e & Ei & Hi & Ee & Hok & Hptr & _).
  assert (i' = i) as -> by congruence.
  assert (Hix := po_index _ _ _ _ H Ei). assert (Hlen := po_len _ _ H).
  unfold MemDataFree in Ef. rewrite Ee in Ef. injection Ef as <-.
  destruct (mem_SetTimeThreadFree e time thread Hok) as (_ & Htf & Hth & Hta).
  unfold event_freed. rewrite Z2Nat.id by lia. split; [done |]. cbn.
  rewrite uint_small by (red; lia). split; [done |]. eexists e, _. split; [exact Ee |].
  split; [reflexivity |]. split; [exact Hptr |].
  rewrite Htf, Hth, Hta, sint_small by (lia || (red; lia)). done.
Qed.

(** ** Allocating *)
Lemma new_mem_event_spec ptr size time thread : 0 <= size < 2 ^ 47 ->
  exists e, new_mem_event ptr size time thread = Some e /\ live_event ptr size e /\
    MemEvent.TimeAlloc e = sint 48 time.
Proof.
  intros [Hge Hlt]. unfold new_mem_event.
  assert (H0 : MemEvent.ok MemEvent.zero) by (repeat split; vm_compute; discriminate || reflexivity).
  destruct (mem_SetPtr MemEvent.zero ptr H0) as (H1 & P1 & _ & _).
  set (e1 := MemEvent.SetPtr ptr MemEvent.zero) in *.
  assert (E : exists e2, MemEvent.SetSize size e1 = Some e2).
  { unfold MemEvent.SetSize, assert47. destruct (Z.ltb_spec size (2 ^ 47)); [eauto | lia]. }
  destruct E as [e2 E]. rewrite E. cbn [mbind option_bind].
  destruct (mem_SetSize e1 size H1 e2 Hge E) as (H2 & S2 & P2 & _).
  destruct (mem_SetTimeThreadAlloc e2 time thread H2) as (H3 & T3 & _ & _).
  set (e3 := MemEvent.SetTimeThreadAlloc time thread e2) in *.
  destruct (mem_SetTimeThreadFree e3 (-1) 0 H3) as (H4 & F4 & _ & T4).
  set (e4 := MemEvent.SetTimeThreadFree (-1) 0 e3) in *.
  destruct (mem_SetCsAlloc e4 0 H4) as (H5 & _ & P5 & S5).
  set (e5 := MemEvent.SetCsAlloc 0 e4) in *.
  eexists. split; [reflexivity |].
  change (MemEvent.TimeAlloc (e5 <| MemEvent.csFree ::= Int24.SetVal 0 |>)) with (MemEvent.TimeAlloc e4).
  split; [| now rewrite T4, T3]. split; [exact H5 |].
  change (MemEvent.Ptr e5 = uint 64 (sint 56 ptr) /\ MemEvent.Size e5 = size /\ MemEvent.TimeFree e4 = -1).
  rewrite P5, S5, F4. split; [now rewrite <- P1, <- P2 | split; [now rewrite <- S2 | done]].
Qed.

(** The pool with one more allocation. *)
Definition allocated (ptr size : Z) (e : MemEvent.t) (md : MemData) : MemData :=
  md <| active ::= emplace ptr (Z.of_nat (length (data md))) |> <| data ::= (fun l => l ++ [e]) |>
    <| low ::= (fun l => Z.min l ptr) |> <| high ::= (fun h => Z.max h (uint 64 (ptr + size))) |>
    <| usage ::= (fun u => uint 64 (u + size)) |>.

Lemma allocated_ok ptr size time e md live :
  pool_ok md live -> live !! ptr = None -> live_event ptr size e ->
  Z.of_nat (length (data md)) < 2 ^ 32 -> MemEvent.TimeAlloc e = time ->
  match last (data md) with None => True | Some b => MemEvent.TimeAlloc b <= time end ->
  pool_ok (allocated ptr size e md) (<[ptr := size]> live).
Proof.
  intros H El He Hlen Et Hlast. assert (Ea := po_none _ _ _ H El).
  assert (Hnew : emplace ptr (Z.of_nat (length (data md))) (active md) =
    <[ptr := Z.of_nat (length (data md))]> (active md)) by now apply emplace_fresh.
  split; cbn; rewrite ?Hnew.
  - intros p. destruct (decide (p = ptr)) as [-> | Hne].
    + rewrite !lookup_insert_eq. split; [lia |]. exists e. split; [| done].
      rewrite Nat2Z.id. now rewrite list_lookup_middle.
    + rewrite !lookup_insert_ne by done. pose proof (po_live _ _ H p) as Hp.
      destruct (active md !! p), (live !! p); try done. destruct Hp as (Hi & x & Ex & Hx).
      split; [done |]. exists x. split; [now apply lookup_app_l_Some | done].
  - rewrite map_to_list_insert by done. cbn.
    rewrite length_app, Nat.add_comm, seq_S, map_app. cbn.
    rewrite <- (po_once _ _ H), <- app_assoc. apply Permutation_app_head.
    apply Permutation_cons_append.
  - rewrite length_app. cbn. lia.
  - rewrite (po_usage _ _ H), total_insert, uint_add_mod by (done || lia). f_equal. lia.
  - rewrite fmap_app. cbn. apply in_order_snoc; [apply H |]. rewrite fmap_last, Et.
    now destruct (last (data md)).
  - intros p s [[<- <-] | [Hne E]]%lookup_insert_some; [lia |].
    pose proof (po_extent _ _ H p s E). lia.
Qed.

(** ** The plot *)

(** A plot of the pool can take a value at [time]: it exists and ends before, or
    the time of its first point is known. *)
Definition plot_ready (w : W) (md : MemData) (time : Z) : Prop :=
  match plot md with
  | None => m_onDemand w = false \/ (3 <= length (framesBase_start w))%nat
  | Some p => exists d b, plot_heap w !! p = Some d /\
      last (SortedVector.v (pl_data d)) = Some b /\ Int48.Val (pi_time b) <= time
  end.

(** The last point of the plot of the pool is the number of bytes in use. *)
Definition plotted (w : W) (md : MemData) (time : Z) : Prop :=
  exists p d, plot md = Some p /\ plot_heap w !! p = Some d /\
    last (SortedVector.v (pl_data d)) =
      Some (mkPlotItem (Int48.make time) (double_of_Z (usage md))).

Lemma plotted_ready w md md' time time' :
  plotted w md time -> plot md' = plot md -> Int48.Val (Int48.make time) <= time' ->
  plot_ready w md' time'.
Proof.
  intros (p & d & Ep & Ed & El) E Ht. unfold plot_ready. rewrite E, Ep. eauto.
Qed.

Lemma push_last time val d :
  last (SortedVector.v (pl_data (plot_push time val d))) = Some (mkPlotItem (Int48.make time) val).
Proof. unfold plot_push, SortedVector.push_back. cbn. apply last_snoc. Qed.

Definition erase_plots (w : W) : W :=
  w <| memNameMap := ∅ |> <| plot_heap := [] |> <| plots := StringDiscovery.empty |>.

(** What a change of the plot leaves: the pool but for its plot. *)
Definition replotted (w w' : W) (pool time : Z) (md : MemData) : Prop :=
  erase_plots w' = erase_plots w /\ exists p, let md' := md <| plot := Some p |> in
    memNameMap w' = <[pool := md']> (memNameMap w) /\ plotted w' md' time.

Lemma GetFirstTime_wp w (Q : Z -> W -> Prop) :
  m_onDemand w = false \/ (3 <= length (framesBase_start w))%nat ->
  (forall t, Q t w) -> wp GetFirstTime Q w.
Proof.
  intros Hf HQ. unfold GetFirstTime. wp_steps. destruct (m_onDemand w).
  - destruct Hf as [| Hf]; [done |]. wp_steps; [apply Nat.leb_le; lia |].
    destruct (lookup_lt_is_Some_2 (framesBase_start w) 2 ltac:(lia)) as [t Et].
    eapply wp_expect; [exact Et | apply HQ].
  - wp_steps. apply HQ.
Qed.

Lemma MemAllocChanged_spec pool time w md :
  memNameMap w !! pool = Some md -> plot_ready w md time ->
  wp (MemAllocChanged pool time) (fun _ w' => replotted w w' pool time md) w.
Proof.
  intros Em Hr. unfold MemAllocChanged, GetMem, GetPlot, SetPlot, replotted, plot_ready in *.
  wp_steps. eapply wp_expect; [exact Em |]. destruct (plot md) as [p |] eqn:Ep.
  - destruct Hr as (d & b & Ed & El & Ht). wp_steps. eapply wp_expect; [exact Ed |].
    wp_steps. eapply wp_expect; [unfold plot_next; rewrite El; now rewrite (proj2 (Z.leb_le _ _) Ht) |].
    wp_steps. split; [erased |]. exists p. cbv zeta. split.
    + cbn. rewrite insert_id; [done |]. rewrite Em. f_equal. destruct md. cbn in *. now subst.
    + exists p. eexists. split; [done |]. split; [| apply push_last].
      apply list_lookup_insert_eq. now apply lookup_lt_Some in Ed.
  - unfold CreateMemAllocPlot, GetMem, SetMem. wp_steps. eapply wp_expect; [exact Em |].
    wp_steps; [now rewrite Ep |]. apply GetFirstTime_wp; [exact Hr |]. intros first. wp_steps.
    eapply wp_expect; [apply list_lookup_middle; reflexivity |]. wp_steps.
    split; [erased |]. exists (length (plot_heap w)). cbv zeta. split; [reflexivity |].
    exists (length (plot_heap w)). eexists. split; [done |]. split; [| apply push_last].
    cbn. apply list_lookup_insert_eq. rewrite length_app. cbn. lia.
Qed.
