(* ===== verification/MemRefine.v ===== *)
(** * Memory pools: the handlers refine the map of live blocks

    An allocation inserts its block, a free removes it, a discard clears the pool;
    faults of the client are recognised and change nothing but the time reference. *)
From S2P Require Import Prelude Double Queue Event Containers Discovery Trace Server ServerSpec ServerMem MemSpec.

(** ** The part the handlers share *)
Definition erase_enter (w : W) : W :=
  erase_noticed (w <| lastTime := 0 |> <| localThreadCompress := ThreadCompress.empty |>).

(** The number of a thread in the events. *)
Definition compressed (thread : Z) (w : W) : Z :=
  fst (ThreadCompress.CompressThread thread (localThreadCompress w)).

Lemma enter_thread_wp time thread {A} (k : Z -> M W A) Q w :
  threads_ok w -> thread <> max_u64 ->
  (forall w', erase_enter w' = erase_enter w -> lastTime w' = Z.max (lastTime w) time ->
     threads_ok w' -> wp (k (compressed thread w)) Q w') ->
  wp (touch_lastTime time;; NoticeThread thread;; c ← CompressThread thread; k c) Q w.
Proof.
  intros Ht Hmax HQ. unfold touch_lastTime. wp_steps. set (w1 := over lastTime _ w).
  assert (Ht1 : threads_ok w1) by (eapply threads_ok_frame; [exact Ht | ..]; reflexivity).
  eapply wp_mono; [exact (NoticeThread_spec thread w1 Ht1 Hmax) |].
  intros r w2 (Ht2 & [He2 _] & _ & _). unfold CompressThread. wp_steps.
  replace (localThreadCompress w2) with (localThreadCompress w) by (symmetry; frame He2 localThreadCompress).
  apply HQ.
  - transitivity (erase_enter (erase_noticed w2)); [erased |]. rewrite He2. erased.
  - assert (El : lastTime w2 = lastTime w1) by frame He2 lastTime. cbn. rewrite El. cbn.
    destruct (Z.ltb_spec (lastTime w) time); lia.
  - eapply threads_ok_frame; [exact Ht2 | ..]; reflexivity.
Qed.

(** The conditions under which an event of a pool can arrive. *)
Record mem_arrives (w : W) (pool dt thread : Z) (md : MemData) (live : gmap Z Z) (time : Z) : Prop := {
  ma_threads : threads_ok w;
  ma_pool : memNameMap w !! pool = Some md;
  ma_ok : pool_ok md live;
  ma_thread : thread <> max_u64;
  ma_time : time_of w (sint 64 (m_refTimeSerial w + dt)) = Some time;
  ma_range : - 2 ^ 47 <= time < 2 ^ 47;
  ma_plot : plot_ready w md time }.

Definition erase_mem (w : W) : W := erase_enter (erase_plots (w <| m_refTimeSerial := 0 |>)).

(** The pool has the live blocks [live'] after an event at [time]; the other pools,
    and all else but the time reference, the threads and the plots, are as before. *)
Definition mem_stepped (pool dt time : Z) (live' : gmap Z Z) (w w' : W) : Prop :=
  erase_mem w' = erase_mem w /\ m_refTimeSerial w' = sint 64 (m_refTimeSerial w + dt) /\
  lastTime w' = Z.max (lastTime w) time /\ threads_ok w' /\
  (forall pool', pool' <> pool -> memNameMap w' !! pool' = memNameMap w !! pool') /\
  exists md', memNameMap w' !! pool = Some md' /\ pool_ok md' live' /\ plotted w' md' time.

(** The same for the steps inside a handler, after the time reference was moved. *)
Definition mem_inner (pool time : Z) (md' : MemData) (w w' : W) : Prop :=
  erase_plots w' = erase_plots w /\ memNameMap w' = <[pool := md']> (memNameMap w) /\
  plotted w' md' time.

Lemma time_make time : - 2 ^ 47 <= time < 2 ^ 47 -> Int48.Val (Int48.make time) = time.
Proof. intros. unfold Int48.make. rewrite Int48.Val48_SetVal. apply sint_small; [lia | red; lia]. Qed.

Lemma plot_ready_frame w w' md md' time :
  plot_ready w md time -> plot md' = plot md -> plot_heap w' = plot_heap w ->
  m_onDemand w' = m_onDemand w -> framesBase_start w' = framesBase_start w -> plot_ready w' md' time.
Proof. unfold plot_ready. now intros H -> -> -> ->. Qed.

(** Storing a pool and updating its plot. *)
Lemma store_plot_wp {A} pool time md md1 (k : M W A) Q w :
  memNameMap w !! pool = Some md -> plot_ready w md1 time ->
  (forall p w', mem_inner pool time (md1 <| plot := Some p |>) w w' -> wp k Q w') ->
  wp (SetMem pool md1;; MemAllocChanged pool time;; k) Q w.
Proof.
  intros Em Hr HQ. unfold SetMem. wp_steps. set (w1 := over memNameMap _ w).
  eapply wp_mono; [apply (MemAllocChanged_spec pool time w1 md1); [apply lookup_insert_eq |] |].
  { eapply plot_ready_frame; [exact Hr | ..]; reflexivity. }
  intros _ w2 (He & p & Em2 & Hp). apply (HQ p). split; [| split].
  - rewrite He. erased.
  - rewrite Em2. cbn. now rewrite insert_insert_eq.
  - exact Hp.
Qed.

Lemma inner_stepped pool dt time md' live' w w1 w2 :
  erase_enter w1 = erase_enter (w <| m_refTimeSerial := sint 64 (m_refTimeSerial w + dt) |>) ->
  lastTime w1 = Z.max (lastTime w) time -> threads_ok w1 ->
  mem_inner pool time md' w1 w2 -> pool_ok md' live' ->
  mem_stepped pool dt time live' w w2.
Proof.
  intros He El Ht (He2 & Em2 & Hp) Hok.
  assert (Em1 : memNameMap w1 = memNameMap w) by frame He memNameMap.
  split; [| split; [| split; [| split; [| split]]]].
  - transitivity (erase_mem (erase_plots w2)); [erased |]. rewrite He2.
    transitivity (erase_mem (erase_enter w1)); [erased |]. rewrite He. erased.
  - transitivity (m_refTimeSerial w1); [frame He2 m_refTimeSerial | frame He m_refTimeSerial].
  - rewrite <- El. frame He2 lastTime.
  - eapply threads_ok_frame; [exact Ht | frame He2 m_threadMap | frame He2 threads |
      frame He2 threadDataLast | frame He2 m_threadCtxData | frame He2 m_threadCtx].
  - intros q Hq. rewrite Em2, lookup_insert_ne by done. now rewrite Em1.
  - exists md'. split; [rewrite Em2; apply lookup_insert_eq | done].
Qed.

Lemma pool_ok_plot md live p : pool_ok md live -> pool_ok (md <| plot := p |>) live.
Proof. intros []. now split. Qed.

(** ** Allocations *)

(** What is expected of the data of an allocation. *)
Record alloc_data (md : MemData) (size time : Z) : Prop := {
  ad_size : 0 <= size < 2 ^ 47;
  ad_room : Z.of_nat (length (data md)) < 2 ^ 32;
  ad_order : match last (data md) with None => True | Some b => MemEvent.TimeAlloc b <= time end }.

(** The rest of an allocation, once its address is free. *)
Lemma alloc_rest pool time ctid ptr sizeb w md live :
  memNameMap w !! pool = Some md -> pool_ok md live -> live !! ptr = None ->
  plot_ready w md time -> - 2 ^ 47 <= time < 2 ^ 47 -> alloc_data md (size_of_bytes sizeb) time ->
  wp (memdata ← GetMem pool;
      assert_ (match last (data memdata) with None => true | Some b => MemEvent.TimeAlloc b <=? time end);;
      let n := length (data memdata) in
      let size := size_of_bytes sizeb in
      mem ← expect (new_mem_event ptr size time ctid);
      SetMem pool (memdata <| active ::= emplace ptr (Z.of_nat n) |> <| data ::= (fun l => l ++ [mem]) |>
        <| low ::= (fun l => Z.min l ptr) |> <| high ::= (fun h => Z.max h (uint 64 (ptr + size))) |>
        <| usage ::= (fun u => uint 64 (u + size)) |>);;
      MemAllocChanged pool time;;
      mret (Some n))
    (fun r w' => r = Some (length (data md)) /\ exists md', mem_inner pool time md' w w' /\
       pool_ok md' (<[ptr := size_of_bytes sizeb]> live)) w.
Proof.
  intros Em Hok El Hr Ht [Hsz Hroom Hord]. unfold GetMem. wp_steps. eapply wp_expect; [exact Em |].
  apply wp_bind, wp_assert.
  { destruct (last (data md)); [now apply Z.leb_le | done]. }
  destruct (new_mem_event_spec ptr (size_of_bytes sizeb) time ctid Hsz) as (e & Ee & He & Et).
  cbv zeta. wp_steps. eapply wp_expect; [exact Ee |].
  change (md <| active ::= _ |> <| data ::= _ |> <| low ::= _ |> <| high ::= _ |> <| usage ::= _ |>)
    with (allocated ptr (size_of_bytes sizeb) e md).
  eapply store_plot_wp; [exact Em | exact Hr |]. intros p w' Hi. wp_steps. split; [done |].
  eexists. split; [exact Hi |]. apply pool_ok_plot. eapply (allocated_ok _ _ time); auto.
  rewrite Et. apply sint_small; [lia | red; lia].
Qed.

(** The allocation is refused as a second one of its address. *)
Definition alloc_refused (dt thread : Z) (w w' : W) : Prop :=
  m_failure w' = MemAllocTwice /\ fd_thread (m_failureData w') = thread /\
  memNameMap w' = memNameMap w /\ m_refTimeSerial w' = sint 64 (m_refTimeSerial w + dt).

(** C9: an allocation adds its block to the live blocks of the pool, with
    the six-byte size of the event, as the last of its allocations. If the address
    is live already, it is a fault: unless such faults are ignored the allocation
    is refused and the pool stays as it was; if they are, the old block counts as
    freed first. No assertion fails, and the counter and the plot end at the number
    of bytes in use. *)
Theorem ProcessMemAllocImpl_refines (pool dt thread ptr : Z) (sizeb : list Z) (w : W)
    (md : MemData) (live : gmap Z Z) (time : Z) :
  mem_arrives w pool dt thread md live time -> alloc_data md (size_of_bytes sizeb) time ->
  wp (ProcessMemAllocImpl pool dt thread ptr sizeb) (fun r w' =>
    if bool_decide (is_Some (live !! ptr)) && negb (m_ignoreMemAllocFaults w)
    then r = None /\ alloc_refused dt thread w w'
    else r = Some (length (data md)) /\
      mem_stepped pool dt time (<[ptr := size_of_bytes sizeb]> live) w w') w.
Proof.
  intros [Ht Em Hok Hmax Htime Hr Hp] Had. unfold ProcessMemAllocImpl, RefTime. wp_steps.
  set (w0 := over m_refTimeSerial _ w). eapply TscTime_wp; [exact Htime |].
  apply enter_thread_wp; [eapply threads_ok_frame; [exact Ht | ..]; reflexivity | done |].
  set (ctid := compressed thread _). clearbody ctid. intros w1 He El Ht1.
  assert (Em1 : memNameMap w1 = memNameMap w) by frame He memNameMap.
  assert (Ei : m_ignoreMemAllocFaults w1 = m_ignoreMemAllocFaults w) by frame He m_ignoreMemAllocFaults.
  assert (Hframe : forall md', plot md' = plot md -> plot_ready w1 md' time).
  { intros md' Emd. eapply plot_ready_frame; [exact Hp | exact Emd | frame He plot_heap |
      frame He m_onDemand | frame He framesBase_start]. }
  unfold realloc_fault, GetMem at 1. wp_steps. eapply wp_expect; [now rewrite Em1, Em |].
  destruct (live !! ptr) as [sz |] eqn:Elive.
  - destruct (MemDataFree_spec ptr sz time ctid md live Hok Elive)
      as (i & md1 & Ea & Ef & Hok1 & Epl & Elen & Eta & _).
    rewrite Ea. wp_steps. rewrite Ei. destruct (m_ignoreMemAllocFaults w).
    + cbn [negb andb bool_decide]. rewrite andb_false_r.
      wp_steps. eapply wp_expect; [exact Ef |].
      eapply store_plot_wp; [now rewrite Em1, Em | now apply Hframe |].
      intros p w2 (He2 & Em2 & Hp2). wp_steps. cbn [negb].
      assert (Had2 : alloc_data (md1 <| plot := Some p |>) (size_of_bytes sizeb) time).
      { destruct Had as [A1 A2 A3]. split; [done | cbn; now rewrite Elen |]. cbn.
        assert (E := fmap_last MemEvent.TimeAlloc (data md1)). rewrite Eta, fmap_last in E.
        destruct (last (data md1)) as [b |], (last (data md)) as [b' |]; try discriminate E; [| done].
        injection E as E. now rewrite <- E. }
      eapply wp_mono; [apply (alloc_rest pool time ctid ptr sizeb w2 (md1 <| plot := Some p |>) (delete ptr live));
        [rewrite Em2; apply lookup_insert_eq | now apply pool_ok_plot | apply lookup_delete_eq | | done | done] |].
      { eapply plotted_ready; [exact Hp2 | done |]. now rewrite time_make by done. }
      intros r w3 (-> & md' & (He3 & Em3 & Hp3) & Hok3). rewrite insert_delete_eq in Hok3.
      split; [cbn; now rewrite Elen |].
      eapply (inner_stepped pool dt time md' _ w w1); [exact He | exact El | exact Ht1 | | exact Hok3].
      split; [now rewrite He3 | split; [| exact Hp3]]. rewrite Em3, Em2. apply insert_insert_eq.
    + cbn [negb andb bool_decide]. unfold MemAllocTwiceFailure, set_failure. wp_steps. cbn [negb].
      wp_steps. split; [done |]. split; [done |]. split; [done |].
      split; [exact Em1 |]. frame He m_refTimeSerial.
  - rewrite (po_none _ _ _ Hok Elive). wp_steps. cbn [negb andb].
    change (bool_decide (is_Some None)) with false. cbn [andb].
    eapply wp_mono; [apply (alloc_rest pool time ctid ptr sizeb w1 md live); auto; now rewrite Em1 |].
    intros r w2 (-> & md' & Hi & Hok2). split; [done |]. eapply inner_stepped; eauto.
Qed.

(** ** Frees *)

(** A free of an address that is not live. *)
Definition free_unknown (dt thread ptr : Z) (w w' : W) : Prop :=
  memNameMap w' = memNameMap w /\ m_refTimeSerial w' = sint 64 (m_refTimeSerial w + dt) /\
  if (ptr =? 0) || m_ignoreMemFreeFaults w then m_failure w' = m_failure w
  else m_failure w' = MemFree /\ fd_thread (m_failureData w') = thread.

(** C10: a free takes its block out of the live blocks of the pool; the
    event of the allocation that is live at the address gets the time and the
    thread of the free and is appended to the list of frees, every other event
    stays as it is, and no assertion fails: the counter of bytes in use and the plot end at the sum of the remaining sizes. A
    free of an address that is not live changes no pool; it is a fault of the
    client, unless the pointer is null or such faults are ignored. Either way the
    time reference advances. *)
Theorem ProcessMemFreeImpl_refines (pool dt thread ptr : Z) (w : W) (md : MemData)
    (live : gmap Z Z) (time : Z) :
  mem_arrives w pool dt thread md live time ->
  wp (ProcessMemFreeImpl pool dt thread ptr) (fun r w' =>
    match live !! ptr with
    | None => r = None /\ free_unknown dt thread ptr w w'
    | Some _ => (exists n md', r = Some n /\ memNameMap w' !! pool = Some md' /\
          event_freed ptr time (compressed thread w) n md md') /\
        mem_stepped pool dt time (delete ptr live) w w'
    end) w.
Proof.
  intros [Ht Em Hok Hmax Htime Hr Hp]. unfold ProcessMemFreeImpl, RefTime, GetMem. wp_steps.
  set (w0 := over m_refTimeSerial _ w).
  assert (Ht0 : threads_ok w0) by (eapply threads_ok_frame; [exact Ht | ..]; reflexivity).
  eapply wp_expect; [exact Em |]. destruct (live !! ptr) as [sz |] eqn:El.
  - destruct (MemDataFree_spec ptr sz time 0 md live Hok El) as (i & _ & Ea & _). rewrite Ea.
    wp_steps. eapply TscTime_wp; [exact Htime |]. apply enter_thread_wp; [done | done |].
    change (compressed thread w0) with (compressed thread w).
    set (ctid := compressed thread _). intros w1 He Elt Ht1.
    assert (Em1 : memNameMap w1 = memNameMap w) by frame He memNameMap.
    destruct (MemDataFree_spec ptr sz time ctid md live Hok El)
      as (i' & md1 & Ea' & Ef & Hok1 & Epl & _).
    rewrite Ea in Ea'. injection Ea' as <-.
    wp_steps. eapply wp_expect; [exact Ef |].
    eapply store_plot_wp; [now rewrite Em1, Em | |].
    { eapply plot_ready_frame; [exact Hp | exact Epl | frame He plot_heap |
        frame He m_onDemand | frame He framesBase_start]. }
    intros p w2 Hi. wp_steps. split.
    + eexists _, _. split; [reflexivity |]. split; [destruct Hi as (_ & -> & _); apply lookup_insert_eq |].
      exact (MemDataFree_frees ptr sz i time ctid md live md1 (Some p) Hok El Ea Ef Hr).
    + eapply inner_stepped; eauto using pool_ok_plot.
  - rewrite (po_none _ _ _ Hok El). unfold free_unknown. destruct (Z.eqb_spec ptr 0) as [-> | Hne].
    + wp_steps. done.
    + wp_steps. change (m_ignoreMemFreeFaults w0) with (m_ignoreMemFreeFaults w).
      destruct (m_ignoreMemFreeFaults w); cbn [negb orb]; wp_steps; [done |].
      eapply wp_mono; [apply CheckThreadString_spec |]. intros _ w1 (He & _).
      unfold MemFreeFailure, set_failure. wp_steps. split; [done |].
      split; [frame He memNameMap |]. split; [frame He m_refTimeSerial | done].
Qed.

(** ** Discards *)





Section Discard.
Context `{MapOrder}.


End Discard.

(** ** Witnesses *)

(** A server that knows thread 7 as its current one, at time 0. *)
Definition demo_mem_server : W :=
  (Worker (double_of_Z 1) 1000 1000 100 false false [0; 0]) <| m_threadCtx := 7 |>
    <| m_refTimeSerial := 1000 |>.

Lemma demo_mem_arrives (w : W) md live dt time :
  threads_ok w -> memNameMap w !! 0 = Some md -> pool_ok md live ->
  time_of w (sint 64 (m_refTimeSerial w + dt)) = Some time -> - 2 ^ 47 <= time < 2 ^ 47 ->
  plot_ready w md time -> mem_arrives w 0 dt 7 md live time.
Proof. intros. split; auto. Qed.

Lemma demo_mem_threads : threads_ok demo_mem_server.
Proof. split; try done. Qed.

Lemma ProcessMemAllocImpl_refines_witness :
  wp (ProcessMemAllocImpl 0 5 7 0x1000 [16; 0; 0; 0; 0; 0]) (fun r w' => r = Some 0%nat /\
    mem_stepped 0 5 5 {[0x1000 := 16]} demo_mem_server w') demo_mem_server.
Proof.
  eapply wp_mono; [apply (ProcessMemAllocImpl_refines 0 5 7 0x1000 [16; 0; 0; 0; 0; 0]
    demo_mem_server new_MemData ∅ 5) |].
  - apply demo_mem_arrives; [exact demo_mem_threads | reflexivity | exact (pool_ok_new 0) |
      vm_compute; reflexivity | lia | left; reflexivity].
  - split; [vm_compute; split; [discriminate | reflexivity] | reflexivity | exact I].
  - intros r w' [-> Hs]. split; [reflexivity | exact Hs].
Defined.

(** The same with a block of 16 bytes allocated at time 5. *)
Definition demo_block : MemEvent.t :=
  match new_mem_event 0x1000 16 5 0 with Some e => e | None => MemEvent.zero end.
Definition demo_pool : MemData := allocated 0x1000 16 demo_block new_MemData.
Definition demo_mem_live : W := demo_mem_server <| memNameMap := {[0 := demo_pool]} |>.

Lemma demo_pool_ok : pool_ok demo_pool {[0x1000 := 16]}.
Proof.
  destruct (new_mem_event_spec 0x1000 16 5 0 ltac:(lia)) as (e & Ee & He & Et).
  unfold demo_pool, demo_block. rewrite Ee.
  exact (allocated_ok 0x1000 16 5 e new_MemData ∅ (pool_ok_new 0) eq_refl He eq_refl Et I).
Qed.

Lemma demo_live_arrives : mem_arrives demo_mem_live 0 9 7 demo_pool {[0x1000 := 16]} 9.
Proof.
  apply demo_mem_arrives; [split; done | reflexivity | exact demo_pool_ok |
    vm_compute; reflexivity | lia | left; reflexivity].
Qed.

Lemma ProcessMemFreeImpl_refines_witness :
  wp (ProcessMemFreeImpl 0 9 7 0x1000) (fun r w' =>
    (exists n md', r = Some n /\ memNameMap w' !! 0 = Some md' /\
       event_freed 0x1000 9 (compressed 7 demo_mem_live) n demo_pool md') /\
    mem_stepped 0 9 9 (delete 0x1000 {[0x1000 := 16]}) demo_mem_live w') demo_mem_live.
Proof.
  eapply wp_mono; [apply (ProcessMemFreeImpl_refines 0 9 7 0x1000 demo_mem_live demo_pool
    {[0x1000 := 16]} 9 demo_live_arrives) |].
  intros r w' H. exact H.
Defined.

#[export] Instance demo_order : MapOrder :=
  {| visit := map_to_list; visit_perm := fun m => reflexivity (map_to_list m) |}.

