(* ===== verification/ServerFrame.v ===== *)
(** * Frames: the handlers of frame marks and frame images

    A frame set is a sequence of frames: a continuous one, in which a frame lasts
    until the next one begins, or a discontinuous one, whose frames have ends.  Sets
    are named by pointers into the client ([StringDiscovery]); the set of name 0 is
    the default one.  An image belongs to a frame of the default set, by its number;
    it can arrive before the frame, and waits in [m_frameImageStaging] then. *)
From S2P Require Import Prelude Double Queue Event Containers Discovery Trace Server.

(** ** Access *)
Definition frames_of (w : W) : StringDiscovery.t := frames (fr w).
#[export] Instance set_frames_of : FieldSet frames_of | 0 :=
  fun f w => w <| fr ::= fun s => s <| frames ::= f |> |>.
Definition UpdFr (f : Frames -> Frames) : M W unit := modify (fun w => w <| fr ::= f |>).
Definition GetSet (p : nat) : M W FrameData := s ← gets fr; expect (frame_heap s !! p).
Definition SetSet (p : nat) (fd : FrameData) : M W unit :=
  UpdFr (fun s => s <| frame_heap ::= <[p := fd]> |>).
Definition NewSet (fd : FrameData) : M W nat :=
  s ← gets fr; UpdFr (fun s => s <| frame_heap ::= (fun h => h ++ [fd]) |>);;
  mret (length (frame_heap s)).

(** ** Failures *)
(* TracyWorker.cpp:5272-5275 *)
Definition FrameEndFailure : M W unit := set_failure FrameEnd (fun d => d).
(* TracyWorker.cpp:5277-5280 *)
Definition FrameImageIndexFailure : M W unit := set_failure FrameImageIndex (fun d => d).
(* TracyWorker.cpp:5282-5285 *)
Definition FrameImageTwiceFailure : M W unit := set_failure FrameImageTwice (fun d => d).

(** ** Reading frames *)

(** [fd.frames.size() - 1], unsigned. *)
Definition size_pred {A} (l : list A) : Z := uint 64 (Z.of_nat (length l) - 1).

(* TracyWorker.cpp:2212-2238 *)
Definition GetFrameTime (fd : FrameData) (idx : nat) : M W Z :=
  last_ ← gets lastTime;
  if negb (fd_continuous fd =? 0) then
    if Z.of_nat idx <? size_pred (fd_frames fd) then
      n ← expect (fd_frames fd !! S idx); f ← expect (fd_frames fd !! idx);
      mret (sint 64 (fe_start n - fe_start f))
    else
      assert_ (negb (last_ =? 0));;
      b ← expect (last (fd_frames fd)); mret (sint 64 (last_ - fe_start b))
  else
    frame ← expect (fd_frames fd !! idx);
    if 0 <=? fe_end frame then mret (sint 64 (fe_end frame - fe_start frame))
    else b ← expect (last (fd_frames fd)); mret (sint 64 (last_ - fe_start b)).

(* TracyWorker.cpp:2240-2244 *)
Definition GetFrameBegin (fd : FrameData) (idx : nat) : option Z :=
  f ← fd_frames fd !! idx; Some (fe_start f).
(* TracyWorker.cpp:2246-2270 *)
Definition GetFrameEnd (fd : FrameData) (idx : nat) (last_ : Z) : option Z :=
  if negb (fd_continuous fd =? 0) then
    if Z.of_nat idx <? size_pred (fd_frames fd) then
      n ← fd_frames fd !! S idx; Some (fe_start n)
    else Some last_
  else
    match fd_frames fd !! idx with
    | Some f => if 0 <=? fe_end f then Some (fe_end f) else Some last_
    | None => Some last_
    end.
(** [Some None] is the null pointer. *)
(* TracyWorker.cpp:2272-2278 *)
Definition GetFrameImage (fd : FrameData) (images : list FrameImage) (idx : nat) :
    option (option FrameImage) :=
  f ← fd_frames fd !! idx;
  if fe_image f <? 0 then Some None
  else i ← images !! Z.to_nat (fe_image f); Some (Some i).

Definition start_before (lhs : FrameEvent) (rhs : Z) : bool := fe_start lhs <? rhs.
(** [std::lower_bound] with a comparison of elements and a key. *)
Fixpoint lower_bound_key {A} (comp : A -> Z -> bool) (l : list A) (k : Z) : nat :=
  match l with
  | [] => 0
  | a :: l => if comp a k then S (lower_bound_key comp l k) else 0
  end.
(** The decrement of the past-the-end iterator needs a frame. *)
(* TracyWorker.cpp:2280-2292 *)
Definition GetFrameRange (fd : FrameData) (from to : Z) : option (nat * nat) :=
  let n := length (fd_frames fd) in
  let b := lower_bound_key start_before (fd_frames fd) from in
  b ← (if Nat.eqb b n then if Nat.eqb n 0 then None else Some (b - 1)%nat else Some b);
  let e := (b + lower_bound_key start_before (drop b (fd_frames fd)) to)%nat in
  f ← fd_frames fd !! b;
  let b := if Nat.ltb 0 b && negb (fe_start f =? from) then (b - 1)%nat else b in
  Some (b, e).

(** ** Frame marks *)

(** The statistics of a frame set, after its last frame changed. *)
(* TracyWorker.cpp:5331-5340 ProcessFrameMark *)
Definition frame_statistics (p : nat) : M W unit :=
  fd ← GetSet p;
  timeSpan ← GetFrameTime fd (length (fd_frames fd) - 1);
  when (0 <? timeSpan)
    (SetSet p (fd <| fd_min ::= Z.min timeSpan |> <| fd_max ::= Z.max timeSpan |>
                  <| fd_total ::= (fun t => sint 64 (t + timeSpan)) |>
                  <| fd_sumSq ::= (fun q => dadd q (dmul (double_of_Z timeSpan) (double_of_Z timeSpan))) |>)).

Definition push_frame (p : nat) (f : FrameEvent) : M W unit :=
  fd ← GetSet p; SetSet p (fd <| fd_frames ::= (fun l => l ++ [f]) |>).

(** The image that waits for the next frame of the default set. *)
(* TracyWorker.cpp:5314-5323 ProcessFrameMark *)
Definition take_staged (name : Z) (p : nat) : M W Z :=
  if negb (name =? 0) then mret (-1) else
  fd ← GetSet p;
  s ← gets fr;
  let k := Z.of_nat (length (fd_frames fd)) in
  match m_frameImageStaging s !! k with
  | Some i => UpdFr (fun s => s <| m_frameImageStaging ::= delete k |>);; mret i
  | None => mret (-1)
  end.

(** A frame of a continuous set begins. *)
(* TracyWorker.cpp:5325-5329 ProcessFrameMark *)
Definition next_frame (p : nat) (time image : Z) : M W unit :=
  fd ← GetSet p;
  assert_ (fd_continuous fd =? 1);;
  time ← TscTime time;
  assert_ (match last (fd_frames fd) with None => true | Some b => fe_start b <=? time end);;
  push_frame p (mkFrameEvent time (-1) image);;
  touch_lastTime time.

Definition QueryFrameName (name : Z) : M W unit := Query ServerQueryFrameName name 0.

(* TracyWorker.cpp:5303-5342 *)
Definition ProcessFrameMark (time name : Z) : M W unit :=
  fd ← StringDiscovery.Retrieve frames_of name
         (p ← NewSet (new_FrameData name 1); mret (Some p)) (QueryFrameName name);
  p ← deref fd;
  frameImage ← take_staged name p;
  next_frame p time frameImage;;
  frame_statistics p.

(* TracyWorker.cpp:5344-5361 *)
Definition ProcessFrameMarkStart (time name : Z) : M W unit :=
  fd ← StringDiscovery.Retrieve frames_of name
         (p ← NewSet (new_FrameData name 0); mret (Some p)) (QueryFrameName name);
  p ← deref fd;
  fd ← GetSet p;
  assert_ (fd_continuous fd =? 0);;
  time ← TscTime time;
  assert_ (match last (fd_frames fd) with
           | None => true
           | Some b => (fe_end b <=? time) && negb (fe_end b =? -1)
           end);;
  push_frame p (mkFrameEvent time (-1) (-1));;
  touch_lastTime time.

(* TracyWorker.cpp:5363-5397 *)
Definition ProcessFrameMarkEnd (time name : Z) : M W unit :=
  fd ← StringDiscovery.Retrieve frames_of name (mret None) (QueryFrameName name);
  s ← gets fr;
  match fd with
  | None => when (negb (m_ignoreFrameEndFaults s)) FrameEndFailure
  | Some p =>
      fd ← GetSet p;
      assert_ (fd_continuous fd =? 0);;
      match last (fd_frames fd) with
      | None => when (negb (m_ignoreFrameEndFaults s)) FrameEndFailure
      | Some b =>
          time ← TscTime time;
          assert_ (fe_end b =? -1);;
          SetSet p (fd <| fd_frames ::= set_back (b <| fe_end := time |>) |>);;
          touch_lastTime time;;
          frame_statistics p
      end
  end.

(* TracyWorker.cpp:5399-5429 *)
Definition ProcessFrameVsync (time id : Z) : M W unit :=
  s ← gets fr;
  p ← match m_vsyncFrameMap s !! id with
      | Some p => mret p
      | None =>
          p ← NewSet (new_FrameData (Z.lor (Z.of_nat (size (m_vsyncFrameMap s))) 0x8000000000000000) 1);
          UpdFr (fun s => s <| frames ::= StringDiscovery.AddExternal p |>
                            <| m_vsyncFrameMap ::= emplace id p |>);;
          mret p
      end;
  next_frame p time (-1);;
  frame_statistics p.

(** ** Frame images *)

(** Where the image of frame [fidx] goes. *)
(* TracyWorker.cpp:5459-5475 ProcessFrameImage *)
Definition link_image (base : nat) (fidx idx : Z) : M W unit :=
  fd ← GetSet base;
  s ← gets fr;
  if Z.of_nat (length (fd_frames fd)) <=? fidx then
    match m_frameImageStaging s !! fidx with
    | Some _ => FrameImageTwiceFailure
    | None => UpdFr (fun s => s <| m_frameImageStaging ::= emplace fidx (sint 32 idx) |>)
    end
  else
    f ← expect (fd_frames fd !! Z.to_nat fidx);
    if 0 <=? fe_image f then FrameImageTwiceFailure
    else SetSet base (fd <| fd_frames ::= <[Z.to_nat fidx := f <| fe_image := sint 32 idx |>]> |>).

(* TracyWorker.cpp:5431-5476 *)
Definition ProcessFrameImage (frame w_ h flip : Z) : M W unit :=
  s ← gets fr; od ← gets m_onDemand;
  image ← expect (m_pendingFrameImageData s);
  base ← deref (framesBase s);
  let fidx := sint 64 (sint 64 frame - sint 64 (frameOffset s) + 1) in
  if (od && (fidx <=? 1))%bool then UpdFr (fun s => s <| m_pendingFrameImageData := None |>)
  else if fidx <=? 0 then FrameImageIndexFailure
  else
    let fi := mkFrameImage image w_ h (uint 32 fidx) flip in
    let idx := Z.of_nat (length (frameImage s)) in
    UpdFr (fun s => s <| frameImage ::= (fun l => l ++ [fi]) |> <| m_pendingFrameImageData := None |>);;
    link_image base fidx idx.

(** ** Names *)

(** [std::inplace_merge] by the start: the frames of the destination first. *)
Definition starts_before (lhs rhs : FrameEvent) : bool := fe_start lhs <? fe_start rhs.
(* TracyWorker.cpp:4295-4299 HandleFrameName *)
Definition merge_frames (dst src : nat) : M W unit :=
  s ← GetSet src; d ← GetSet dst;
  SetSet dst (d <| fd_frames := merge starts_before (fd_frames d) (fd_frames s) |>).

(** [StringDiscovered], the map of strings and the merge included; the string is
    known by its position in [stringData]. *)
Definition discover (p : W -> StringDiscovery.t) `{!FieldSet p} (name : Z) (str : list Z)
    (Merge : nat -> nat -> M W unit) : M W unit :=
  sl ← StoreString str;
  d ← gets p;
  r ← expect (StringDiscovery.StringDiscovered name str d);
  match snd r with
  | None => modify (fun w => w <| strings ::= emplace name (Some sl) |>)
  | Some (item, postponed) => Merge item postponed
  end;;
  modify (fun w => w <| p := fst r |>).

(* TracyWorker.cpp:4292-4300 *)
Definition HandleFrameName (name : Z) (str : list Z) : M W unit :=
  discover frames_of name str merge_frames.

(** ** The default frame set of a connection *)
(* TracyWorker.cpp:2832-2841 Exec *)
Definition create_framesBase : M W unit :=
  p ← StringDiscovery.Retrieve frames_of 0
        (p ← NewSet (new_FrameData 0 1); mret (Some p)) (HandleFrameName 0 (ascii "Frame"));
  UpdFr (fun s => s <| framesBase := p |>).
(** The fields of the welcome message that the model has, and the frames before
    the first one of the client. *)
(* TracyWorker.cpp:2850-2895 Exec *)
Definition Welcome (timerMul : double) (initBegin initEnd : Z) (onDemand ignoreMemFaults : bool)
    (od_frames od_time : Z) : M W unit :=
  modify (fun w => w <| m_timerMul := timerMul |> <| baseTime := initBegin |>);;
  initEnd ← TscTime initEnd;
  s ← gets fr; base ← deref (framesBase s);
  push_frame base (mkFrameEvent 0 (-1) (-1));;
  push_frame base (mkFrameEvent initEnd (-1) (-1));;
  modify (fun w => w <| lastTime := initEnd |> <| m_onDemand := onDemand |>
                     <| m_ignoreMemFreeFaults := onDemand || ignoreMemFaults |>
                     <| m_ignoreMemAllocFaults := ignoreMemFaults |>
                     <| fr ::= fun s => s <| m_ignoreFrameEndFaults := onDemand |> |>);;
  when onDemand
    (UpdFr (fun s => s <| frameOffset := od_frames |>);;
     t ← TscTime od_time; push_frame base (mkFrameEvent t (-1) (-1))).
