(* ===== verification/FrameSpec.v ===== *)
(** * Frames: order, statistics, images and ranges

    The frames of a set are in the order of time, whatever sets the marks belong to;
    an image is linked to the frame of its number, whether the image or the frame
    comes first; and the range of frames shown for an interval of time holds every
    frame that meets it. *)
From S2P Require Import Prelude Double Queue Event Containers Discovery Trace Server ServerSpec ServerFrame.

Definition frame_set (w : W) (name : Z) : option nat := StringDiscovery.item (frames_of w) name.
Definition erase_frames (w : W) : W :=
  w <| fr := new_Frames [] false |> <| lastTime := 0 |> <| m_serverQueryQueuePrio := [] |>.

(** ** The invariant *)

(** A frame of a discontinuous set ends before the next one begins. *)
Definition closed_before (f g : FrameEvent) : Prop :=
  fe_end f <> -1 /\ fe_start f <= fe_end f <= fe_start g.
Definition set_wf (fd : FrameData) : Prop :=
  if fd_continuous fd =? 0
  then StronglySorted closed_before (fd_frames fd) /\
       Forall (fun f => 0 <= fe_start f /\ (fe_end f = -1 \/ fe_start f <= fe_end f)) (fd_frames fd)
  else fd_continuous fd = 1 /\ sorted starts_before (fd_frames fd) /\
       Forall (fun f => fe_end f = -1) (fd_frames fd).

(** Image [i] is linked to frame [k] of the default set, begun or not. *)
Definition linked (s : Frames) (fd : FrameData) (k : Z) (i : nat) : Prop :=
  (exists n f, k = Z.of_nat n /\ fd_frames fd !! n = Some f /\ fe_image f = Z.of_nat i) \/
  (Z.of_nat (length (fd_frames fd)) <= k /\ m_frameImageStaging s !! k = Some (Z.of_nat i)).

(** [images]: the image of each frame. *)
Record frames_ok (images : gmap Z nat) (w : W) : Prop := {
  fo_sets : Forall set_wf (frame_heap (fr w));
  fo_known : forall name p, frame_set w name = Some p -> (p < length (frame_heap (fr w)))%nat;
  fo_vsync : forall id p, m_vsyncFrameMap (fr w) !! id = Some p -> (p < length (frame_heap (fr w)))%nat;
  fo_base : exists b fd, framesBase (fr w) = Some b /\ frame_heap (fr w) !! b = Some fd /\
    fd_continuous fd = 1 /\ (forall name, frame_set w name = Some b <-> name = 0) /\
    (forall id, m_vsyncFrameMap (fr w) !! id <> Some b) /\
    forall k i, images !! k = Some i <-> linked (fr w) fd k i;
  fo_values : forall k i, m_frameImageStaging (fr w) !! k = Some i -> 0 <= i;
  fo_refs : forall k i, images !! k = Some i ->
    exists img, frameImage (fr w) !! i = Some img /\ fi_frameRef img = uint 32 k }.

(** ** Lists of frames *)
Lemma starts_before_order : WeakOrder starts_before.
Proof.
  split; unfold starts_before; intros.
  - apply Z.ltb_ge in H, H0. apply Z.ltb_ge. lia.
  - apply Z.ltb_lt in H. apply Z.ltb_ge. lia.
Qed.
#[export] Existing Instance starts_before_order.

Lemma sorted_push l f :
  sorted starts_before l -> (forall b, last l = Some b -> fe_start b <= fe_start f) ->
  sorted starts_before (l ++ [f]).
Proof.
  intros Hs Hl. apply sorted_app. split; [done | split; [repeat constructor |]].
  destruct (last l) as [b |] eqn:E; [| apply last_None in E as ->; constructor].
  pose proof (SortedVector.le_last starts_before l b Hs E) as Hf.
  eapply Forall_impl; [exact Hf |]. intros x Hx. constructor; [| constructor].
  specialize (Hl b eq_refl). unfold le_, starts_before in *. apply Z.ltb_ge.
  destruct Hx as [Hx | ->]; [apply Z.ltb_ge in Hx |]; lia.
Qed.

Lemma push_linked s s' fd fd' f k i :
  fd_frames fd' = fd_frames fd ++ [f] ->
  fe_image f = default (-1) (m_frameImageStaging s !! Z.of_nat (length (fd_frames fd))) ->
  m_frameImageStaging s' = delete (Z.of_nat (length (fd_frames fd))) (m_frameImageStaging s) ->
  linked s' fd' k i <-> linked s fd k i.
Proof.
  unfold linked. intros -> Hf ->. rewrite length_app. cbn [length].
  set (n := length (fd_frames fd)) in *. split.
  - intros [(m & g & -> & Eg & Ei) | (Hk & Es)].
    + apply lookup_app_Some in Eg as [Eg | [Hge Eg]]; [left; eauto |].
      fold n in Hge, Eg. destruct (m - n)%nat eqn:Em; [| done]. cbn in Eg. simplify_eq.
      right. replace m with n by lia. split; [lia |].
      destruct (m_frameImageStaging s !! Z.of_nat n) as [j |]; cbn in Hf; [congruence | lia].
    + right. rewrite lookup_delete_ne in Es by lia. split; [lia | done].
  - intros [(m & g & -> & Eg & Ei) | (Hk & Es)].
    + left. exists m, g. split; [done |]. split; [| done]. now apply lookup_app_l_Some.
    + destruct (decide (k = Z.of_nat n)) as [-> | Hne].
      * left. exists n, f. split; [done |]. rewrite Es in Hf. cbn in Hf.
        split; [apply list_lookup_middle; done | done].
      * right. rewrite lookup_delete_ne by lia. split; [lia | done].
Qed.

(** ** Retrieving a set *)

(** The state [w1] in which the set of [name] is [fd], at [p]: an old one, or a new
    one of the given kind. *)
Definition retrieved (name c : Z) (w w1 : W) (p : nat) (fd : FrameData) : Prop :=
  erase_frames w1 = erase_frames w /\ lastTime w1 = lastTime w /\
  frame_set w1 name = Some p /\ frame_heap (fr w1) !! p = Some fd /\
  (forall q, (q < length (frame_heap (fr w)))%nat -> frame_heap (fr w1) !! q = frame_heap (fr w) !! q) /\
  frameImage (fr w1) = frameImage (fr w) /\
  match frame_set w name with
  | Some q => p = q
  | None => p = length (frame_heap (fr w)) /\ fd = new_FrameData name c
  end.

Lemma new_set_wf name c : c = 0 \/ c = 1 -> set_wf (new_FrameData name c).
Proof. intros [-> | ->]; cbn; split_and?; try done; constructor. Qed.

Lemma retrieve_set images name c w :
  frames_ok images w -> c = 0 \/ c = 1 ->
  wp (StringDiscovery.Retrieve frames_of name
        (p ← NewSet (new_FrameData name c); mret (Some p)) (QueryFrameName name))
     (fun r w1 => exists p fd, r = Some p /\ retrieved name c w w1 p fd /\ frames_ok images w1) w.
Proof.
  intros Hok Hc. apply StringDiscovery.Retrieve_wp. fold (frame_set w name).
  destruct (frame_set w name) as [p |] eqn:Ep.
  - destruct (lookup_lt_is_Some_2 _ _ (fo_known _ _ Hok _ _ Ep)) as [fd Efd].
    exists p, fd. unfold retrieved. rewrite Ep. split_and!; done.
  - unfold NewSet, UpdFr, QueryFrameName. wp_steps. apply Query_prio_wp; [done |].
    set (n := length (frame_heap (fr w))). name_state w1.
    assert (Hset : forall name', frame_set w1 name' =
      if decide (name' = name) then Some n else frame_set w name')
      by (intros name'; exact (item_pending _ name n name' Ep)).
    assert (Hheap : frame_heap (fr w1) = frame_heap (fr w) ++ [new_FrameData name c]) by done.
    exists n, (new_FrameData name c). split; [done |]. split.
    + unfold retrieved. rewrite Ep, Hset, decide_True, Hheap by done.
      split_and!; try done; [now apply list_lookup_middle |].
      intros q Hq. now rewrite lookup_app_l.
    + destruct Hok as [Hs Hk Hv (b & fdb & Hb & Eb & Hcb & Hname & Hvb & Hl) Hst Hr].
      assert (Hlt := lookup_lt_Some _ _ _ Eb).
      split.
      * rewrite Hheap. apply Forall_snoc. split; [done | now apply new_set_wf].
      * intros name' p. rewrite Hset, Hheap, length_app. cbn [length].
        destruct (decide _); [intros [= <-]; fold n; lia |]. intros E. specialize (Hk _ _ E). lia.
      * intros id p E. rewrite Hheap, length_app. specialize (Hv id p E). lia.
      * exists b, fdb. rewrite Hheap. split; [done |]. split; [now apply lookup_app_l_Some |].
        split; [done |]. split; [| done]. intros name'. rewrite Hset.
        destruct (decide (name' = name)) as [-> | Hne]; [| apply Hname].
        split; [intros [= E]; subst n; lia |]. intros ->.
        assert (frame_set w 0 = Some b) by now apply Hname. congruence.
      * exact Hst.
      * exact Hr.
Qed.

(** ** A frame begins *)
Definition set_data (w : W) (name : Z) : FrameData :=
  default (new_FrameData name 1) (frame_set w name ≫= fun p => frame_heap (fr w) !! p).

(** The client's times of the frames of a set do not go back. *)
Definition next_ok (fd : FrameData) (t : Z) : Prop :=
  fd_continuous fd = 1 /\ 0 < t /\
  match last (fd_frames fd) with Some b => fe_start b <= t | None => True end.

Lemma GetSet_wp p fd w (Q : FrameData -> W -> Prop) :
  frame_heap (fr w) !! p = Some fd -> Q fd w -> wp (GetSet p) Q w.
Proof. intros E HQ. unfold GetSet. wp_steps. eapply wp_expect; [exact E | exact HQ]. Qed.

Definition with_set (p : nat) (fd : FrameData) (w : W) : W :=
  w <| fr ::= fun s => s <| frame_heap ::= <[p := fd]> |> |>.

Lemma SetSet_wp p fd w (Q : unit -> W -> Prop) : Q tt (with_set p fd w) -> wp (SetSet p fd) Q w.
Proof. intros HQ. unfold SetSet, UpdFr. wp_steps. exact HQ. Qed.

(** The set [fd] after a frame that began at [t], in a state with end [l]: the span
    counted is the time from [t] to [l], which is zero unless the clock of another
    event was ahead. *)
Definition counted (span : Z) (fd : FrameData) : FrameData :=
  if 0 <? span then
    fd <| fd_min ::= Z.min span |> <| fd_max ::= Z.max span |>
       <| fd_total ::= (fun t => sint 64 (t + span)) |>
       <| fd_sumSq ::= (fun q => dadd q (dmul (double_of_Z span) (double_of_Z span))) |>
  else fd.
Definition grown (t image : Z) (fd : FrameData) : FrameData :=
  fd <| fd_frames ::= (fun l => l ++ [mkFrameEvent t (-1) image]) |>.

Lemma counted_frames span fd : fd_frames (counted span fd) = fd_frames fd.
Proof. unfold counted. now destruct (0 <? span). Qed.
Lemma counted_continuous span fd : fd_continuous (counted span fd) = fd_continuous fd.
Proof. unfold counted. now destruct (0 <? span). Qed.

Lemma set_twice s p fd fd' :
  s <| frame_heap ::= <[p := fd]> |> <| frame_heap ::= <[p := fd']> |> =
  s <| frame_heap ::= <[p := fd']> |>.
Proof. unfold over. f_equal. apply list_insert_insert_eq. Qed.

Lemma statistics_spec p fd span w (Q : unit -> W -> Prop) :
  frame_heap (fr w) !! p = Some fd ->
  wp (GetFrameTime fd (length (fd_frames fd) - 1)) (fun r w' => r = span /\ w' = w) w ->
  (forall w', erase_frames w' = erase_frames w -> lastTime w' = lastTime w ->
     fr w' = (fr w) <| frame_heap ::= <[p := counted span fd]> |> -> Q tt w') ->
  wp (frame_statistics p) Q w.
Proof.
  intros E Ht HQ. unfold frame_statistics. apply wp_bind, (GetSet_wp p fd); [done |].
  apply wp_bind. eapply wp_mono; [exact Ht |]. intros r w' [-> ->].
  destruct (0 <? span) eqn:Es; cbn [when].
  - apply SetSet_wp, HQ; [erased | done |]. unfold counted. now rewrite Es.
  - apply wp_ret, HQ; [done | done |]. unfold counted. rewrite Es. unfold over.
    rewrite list_insert_id by done. now destruct (fr w).
Qed.

(** The last frame of a continuous set lasts until now. *)
Lemma time_of_last fd w b span :
  fd_continuous fd = 1 -> last (fd_frames fd) = Some b -> lastTime w <> 0 ->
  span = sint 64 (lastTime w - fe_start b) ->
  wp (GetFrameTime fd (length (fd_frames fd) - 1)) (fun r w' => r = span /\ w' = w) w.
Proof.
  intros Hc Hb Hl ->. unfold GetFrameTime, size_pred. wp_steps. rewrite Hc. cbn [negb Z.eqb].
  assert (Hn : length (fd_frames fd) <> 0%nat) by (destruct (fd_frames fd); done).
  assert (Hu : uint 64 (Z.of_nat (length (fd_frames fd)) - 1) <= Z.of_nat (length (fd_frames fd) - 1)).
  { replace (Z.of_nat (length (fd_frames fd)) - 1) with (Z.of_nat (length (fd_frames fd) - 1)) by lia.
    apply Z.mod_le; lia. }
  destruct (Z.ltb_spec (Z.of_nat (length (fd_frames fd) - 1)) (uint 64 (Z.of_nat (length (fd_frames fd)) - 1)));
    [lia |].
  wp_steps. eapply wp_expect; [exact Hb |]. wp_steps. done.
Qed.

(** A frame that begins at [t] in the set at [p], up to the part of the state that
    the specification names. *)
Lemma next_frame_spec p tsc t image fd w :
  frame_heap (fr w) !! p = Some fd -> next_ok fd t -> time_of w tsc = Some t ->
  let l := Z.max (lastTime w) t in
  wp (next_frame p tsc image;; frame_statistics p) (fun _ w' =>
    erase_frames w' = erase_frames w /\ lastTime w' = l /\
    fr w' = (fr w) <| frame_heap ::= <[p := counted (sint 64 (l - t)) (grown t image fd)]> |>) w.
Proof.
  intros E (Hc & Ht & Hl) Htime l. unfold next_frame, push_frame, touch_lastTime.
  wp_steps. apply (GetSet_wp p fd); [done |]. wp_steps.
  eapply TscTime_wp; [exact Htime |]. wp_steps.
  { destruct (last (fd_frames fd)); [now apply Z.leb_le | done]. }
  apply (GetSet_wp p fd); [done |]. apply SetSet_wp. wp_steps.
  assert (Hlt := lookup_lt_Some _ _ _ E). set (w1 := over lastTime _ _).
  assert (Hlast : lastTime w1 = l) by (cbn; unfold l; destruct (Z.ltb_spec (lastTime w) t); lia).
  apply (statistics_spec p (grown t image fd) (sint 64 (l - t))); [now apply list_lookup_insert_eq | |].
  - apply (time_of_last _ _ (mkFrameEvent t (-1) image)); [exact Hc | apply last_snoc | lia |]; now rewrite Hlast.
  - intros w' He El Efr. split; [rewrite He; erased |]. split; [now rewrite El |].
    rewrite Efr. apply set_twice.
Qed.

(** The staging area after the frame [f] of the set at [p] began. *)
Definition unstaged (s : Frames) (p : nat) (fd : FrameData) (image : Z) (staging : gmap Z Z) : Prop :=
  let n := Z.of_nat (length (fd_frames fd)) in
  if decide (framesBase s = Some p)
  then image = default (-1) (m_frameImageStaging s !! n) /\ staging = delete n (m_frameImageStaging s)
  else staging = m_frameImageStaging s.

Lemma grown_ok images w w' p fd fd' t image staging :
  frames_ok images w -> frame_heap (fr w) !! p = Some fd ->
  next_ok fd t -> unstaged (fr w) p fd image staging ->
  fd_frames fd' = fd_frames (grown t image fd) -> fd_continuous fd' = fd_continuous fd ->
  fr w' = (fr w) <| m_frameImageStaging := staging |> <| frame_heap ::= <[p := fd']> |> ->
  frames_ok images w'.
Proof.
  intros [Hs Hk Hv (b & fdb & Hb & Eb & Hcb & Hname & Hvb & Hl) Hst Hr] E (Hc & Ht & Hlast) Hun Ef Ec Efr.
  assert (Hlt := lookup_lt_Some _ _ _ E).
  assert (Hset : forall name, frame_set w' name = frame_set w name)
    by (intros name; unfold frame_set, frames_of; now rewrite Efr).
  split; rewrite ?Efr; cbn.
  - apply Forall_insert; [exact Hs |].
    apply (Forall_lookup_1 _ _ _ _ Hs) in E. unfold set_wf in *. rewrite Ec, Ef, Hc in *.
    cbn [Z.eqb] in *. destruct E as (_ & E1 & E2). split; [done |]. split.
    + apply sorted_push; [exact E1 |]. intros x Ex. rewrite Ex in Hlast. exact Hlast.
    + apply Forall_snoc. done.
  - intros name q. rewrite Hset, length_insert. apply Hk.
  - intros id q. rewrite length_insert. apply Hv.
  - unfold unstaged in Hun. rewrite Hb in Hun. exists b.
    destruct (decide (Some b = Some p)) as [[= <-] | Hne].
    + rewrite E in Eb. injection Eb as <-. exists fd'.
      split; [done |]. split; [now apply list_lookup_insert_eq |]. split; [congruence |].
      split; [intros name; now rewrite Hset |]. split; [done |]. intros k i. rewrite Hl.
      symmetry. destruct Hun as [Hi ->]. eapply push_linked; [exact Ef | exact Hi | done].
    + exists fdb. split; [done |].
      split; [rewrite list_lookup_insert_ne; [done | congruence] |]. split; [done |].
      split; [intros name; now rewrite Hset |]. split; [done |]. intros k i. rewrite Hl, Hun. done.
  - unfold unstaged in Hun. intros k i. destruct (decide _).
    + destruct Hun as [_ ->]. intros [_ Ek]%lookup_delete_Some. eauto.
    + rewrite Hun. apply Hst.
  - exact Hr.
Qed.

Lemma fr_same w f : f (fr w) = fr w -> w <| fr ::= f |> = w.
Proof. intros E. unfold over. rewrite E. now destruct w. Qed.

Lemma take_staged_spec name p fd w (Q : Z -> W -> Prop) :
  frame_heap (fr w) !! p = Some fd -> (name = 0 <-> framesBase (fr w) = Some p) ->
  (forall image staging, unstaged (fr w) p fd image staging ->
     Q image (w <| fr ::= fun s => s <| m_frameImageStaging := staging |> |>)) ->
  wp (take_staged name p) Q w.
Proof.
  intros E Hbase HQ. unfold take_staged, UpdFr.
  assert (Hsame : w <| fr ::= fun s => s <| m_frameImageStaging := m_frameImageStaging (fr w) |> |> = w)
by (apply fr_same; now destruct (fr w)).
  unfold unstaged in HQ. destruct (decide (framesBase (fr w) = Some p)) as [Hb | Hb];
    destruct (Z.eqb_spec name 0) as [-> | Hne]; cbn [negb].
  - wp_steps. apply (GetSet_wp p fd); [done |]. wp_steps.
    destruct (m_frameImageStaging (fr w) !! Z.of_nat (length (fd_frames fd))) as [i |] eqn:Ei; wp_steps.
    + apply (HQ i). done.
    + specialize (HQ (-1) (m_frameImageStaging (fr w))). rewrite Hsame in HQ. apply HQ.
      split; [done |]. now rewrite delete_id.
  - now apply Hbase in Hb.
  - destruct Hb. now apply Hbase.
  - wp_steps. specialize (HQ (-1) (m_frameImageStaging (fr w))). rewrite Hsame in HQ. now apply HQ.
Qed.

(** ** The theorems *)

(** A frame of the set [name] has begun at [t]. *)
Definition frame_begun (images : gmap Z nat) (name t : Z) (w w' : W) : Prop :=
  frames_ok images w' /\ erase_frames w' = erase_frames w /\
  lastTime w' = Z.max (lastTime w) t /\ frameImage (fr w') = frameImage (fr w) /\
  (exists p image, frame_set w' name = Some p /\
     (forall q, (q < length (frame_heap (fr w)))%nat -> q <> p ->
        frame_heap (fr w') !! q = frame_heap (fr w) !! q) /\
     set_data w' name = counted (sint 64 (Z.max (lastTime w) t - t)) (grown t image (set_data w name))).

(** C22: a frame mark appends a frame to its set and to no other, and keeps the
    frames of every set in order. An image that came before its frame is now linked
    to it, the images of all frames being what they were. No assertion fails if the
    times of the client's marks do not go back. The span that enters the statistics
    is the one from the new frame to the end of the trace, not the span of the frame
    that has just ended. *)
Theorem ProcessFrameMark_begins (images : gmap Z nat) (tsc name t : Z) (w : W) :
  frames_ok images w -> next_ok (set_data w name) t -> time_of w tsc = Some t ->
  wp (ProcessFrameMark tsc name) (fun _ => frame_begun images name t w) w.
Proof.
  intros Hok Hnext Htime. unfold ProcessFrameMark, deref. apply wp_bind.
  eapply wp_mono; [apply (retrieve_set images name 1 w Hok); auto |].
  intros r w1 (p & fd & -> & (He & El & Ep & Efd & Hpre & Himg & Hp) & Hok1).
  assert (Hdata : set_data w name = fd).
  { unfold set_data. destruct (frame_set w name) as [q |] eqn:Eq; [| now destruct Hp as [_ ->]].
    subst q. cbn. rewrite <- Hpre, Efd by (eapply fo_known; eauto). done. }
  rewrite Hdata in Hnext. wp_steps. eapply wp_expect; [done |]. apply wp_bind.
  assert (Hbase : name = 0 <-> framesBase (fr w1) = Some p).
  { destruct (fo_base _ _ Hok1) as (b & fdb & Hb & _ & _ & Hname & _). rewrite Hb, <- Hname, Ep.
    split; congruence. }
  apply (take_staged_spec name p fd); [done | done |]. intros image staging Hun.
  set (w2 := w1 <| fr ::= _ |>).
  assert (Htime2 : time_of w2 tsc = Some t).
  { rewrite <- Htime. change (time_of w2 tsc) with (time_of (erase_frames w1) tsc). now rewrite He. }
  eapply wp_mono; [apply (next_frame_spec p tsc t image fd w2); done |].
  intros _ w3 (He3 & El3 & Efr3). change (lastTime w2) with (lastTime w1) in *. rewrite El in El3, Efr3.
  assert (Hok3 : frames_ok images w3).
  { apply (grown_ok images w1 w3 p fd (counted (sint 64 (Z.max (lastTime w) t - t)) (grown t image fd))
      t image staging); try done.
    - apply counted_frames.
    - now rewrite counted_continuous. }
  split; [exact Hok3 |]. split; [rewrite He3; rewrite <- He; erased |]. split; [exact El3 |].
  split; [rewrite Efr3; exact Himg |]. exists p, image.
  assert (Ep3 : frame_set w3 name = Some p)
    by (rewrite <- Ep; unfold frame_set, frames_of; now rewrite Efr3).
  assert (Eh : frame_heap (fr w3) = <[p := counted (sint 64 (Z.max (lastTime w) t - t)) (grown t image fd)]>
    (frame_heap (fr w1))) by now rewrite Efr3.
  split; [done |]. split.
  - intros q Hq Hqp. rewrite Eh. rewrite list_lookup_insert_ne by done. now apply Hpre.
  - unfold set_data. rewrite Ep3. cbn [mbind option_bind]. rewrite Eh, list_lookup_insert_eq by (now apply lookup_lt_Some in Efd).
    fold (set_data w name). now rewrite Hdata.
Qed.

(** *** Images *)

(** The number of the frame an image is for: the server has one frame more. *)
Definition image_frame (w : W) (frame : Z) : Z := sint 64 (sint 64 frame - sint 64 (frameOffset (fr w)) + 1).

Lemma linked_known images w fd k i :
  frames_ok images w -> framesBase (fr w) ≫= (fun b => frame_heap (fr w) !! b) = Some fd ->
  images !! k = Some i <-> linked (fr w) fd k i.
Proof.
  intros Hok E. destruct (fo_base _ _ Hok) as (b & fdb & Hb & Eb & _ & _ & _ & Hl).
  rewrite Hb in E. cbn in E. rewrite Eb in E. injection E as <-. apply Hl.
Qed.

(** The frame [k] of the default set, not linked so far, is linked to image [i] in
    [fd'] and [s']. *)
Definition links (s s' : Frames) (fd fd' : FrameData) (k : Z) (i : nat) : Prop :=
  (exists f, 0 <= k < Z.of_nat (length (fd_frames fd)) /\ fd_frames fd !! Z.to_nat k = Some f /\
     fd_frames fd' = <[Z.to_nat k := f <| fe_image := Z.of_nat i |>]> (fd_frames fd) /\
     m_frameImageStaging s' = m_frameImageStaging s) \/
  (Z.of_nat (length (fd_frames fd)) <= k /\ fd_frames fd' = fd_frames fd /\
     m_frameImageStaging s' = <[k := Z.of_nat i]> (m_frameImageStaging s)).

Lemma links_linked s s' fd fd' k i (images : gmap Z nat) :
  (forall k' i', images !! k' = Some i' <-> linked s fd k' i') -> images !! k = None ->
  links s s' fd fd' k i ->
  forall k' i', <[k := i]> images !! k' = Some i' <-> linked s' fd' k' i'.
Proof.
  intros Hl Hk Hlinks k' i'. destruct (decide (k' = k)) as [-> | Hne].
  - rewrite lookup_insert_eq. unfold linked.
    destruct Hlinks as [(f & Hr & Ef & -> & ->) | (Hr & -> & ->)].
    + rewrite length_insert. split.
      * intros [= <-]. left. exists (Z.to_nat k), (f <| fe_image := Z.of_nat i |>).
        rewrite list_lookup_insert_eq by lia. split; [lia | done].
      * intros [(n & g & -> & Eg & Ei) | (Hge & _)]; [| lia].
        rewrite Nat2Z.id, list_lookup_insert_eq in Eg by lia. simplify_eq. cbn in Ei. f_equal. lia.
    + rewrite lookup_insert_eq. split.
      * intros [= <-]. right. done.
      * intros [(n & g & -> & Eg & Ei) | (_ & [= Hi])]; [| f_equal; lia].
        apply lookup_lt_Some in Eg. lia.
  - rewrite lookup_insert_ne by done. rewrite Hl. unfold linked.
    destruct Hlinks as [(f & Hr & Ef & -> & ->) | (Hr & -> & ->)].
    + rewrite length_insert. split; (intros [(n & g & -> & Eg & Ei) | H]; [left | right; done]).
      * exists n, g. rewrite list_lookup_insert_ne by lia. done.
      * exists n, g. rewrite list_lookup_insert_ne in Eg by lia. done.
    + rewrite lookup_insert_ne by done. done.
Qed.

Lemma set_wf_image fd k f i :
  set_wf fd -> fd_frames fd !! k = Some f ->
  set_wf (fd <| fd_frames ::= <[k := f <| fe_image := i |>]> |>).
Proof.
  assert (Hsame : forall (R : FrameEvent -> FrameEvent -> Prop) l,
    (forall x y, R x y <-> R (x <| fe_image := 0 |>) (y <| fe_image := 0 |>)) ->
    StronglySorted R l <-> StronglySorted R (map (fun x => x <| fe_image := 0 |>) l)).
  { intros R l HR. induction l as [| x l IH]; cbn; [split; constructor |].
    split; intros Hs; inversion_clear Hs as [| ? ? Hs' Hf]; constructor; try now apply IH.
    - apply Forall_map. eapply Forall_impl; [exact Hf |]. intros y. apply HR.
    - rewrite Forall_map in Hf. eapply Forall_impl; [exact Hf |]. intros y. apply HR. }
  assert (Hmap : forall l, l !! k = Some f ->
    map (fun x : FrameEvent => x <| fe_image := 0 |>) (<[k := f <| fe_image := i |>]> l) =
    map (fun x => x <| fe_image := 0 |>) l).
  { intros l E. change (map ?g ?m) with (g <$> m). rewrite list_fmap_insert. cbn.
    apply list_insert_id. now rewrite list_lookup_fmap, E. }
  intros Hwf E. unfold set_wf, sorted in *. cbn. destruct (fd_continuous fd =? 0).
  - destruct Hwf as [H1 H2]. split.
    + rewrite Hsame, Hmap, <- Hsame by (auto || now intros ? ?). done.
    + apply Forall_insert; [done |]. apply (Forall_lookup_1 _ _ _ _ H2) in E. exact E.
  - destruct Hwf as (Hc & H1 & H2). split; [done |]. split.
    + rewrite Hsame, Hmap, <- Hsame by (auto || now intros ? ?). done.
    + apply Forall_insert; [done |]. apply (Forall_lookup_1 _ _ _ _ H2) in E. exact E.
Qed.

(** The state in which the new image [i] is linked to frame [k]. *)
Lemma linked_ok images w w' b fd fd' k i img :
  frames_ok images w -> images !! k = None ->
  framesBase (fr w) = Some b -> frame_heap (fr w) !! b = Some fd ->
  links (fr w) (fr w') fd fd' k i -> set_wf fd' -> fd_continuous fd' = 1 ->
  frames_of w' = frames_of w -> frame_heap (fr w') = <[b := fd']> (frame_heap (fr w)) ->
  framesBase (fr w') = framesBase (fr w) -> m_vsyncFrameMap (fr w') = m_vsyncFrameMap (fr w) ->
  frameImage (fr w') = frameImage (fr w) -> frameImage (fr w) !! i = Some img ->
  fi_frameRef img = uint 32 k -> frames_ok (<[k := i]> images) w'.
Proof.
  intros [Hs Hk Hv (b' & fdb & Hb & Eb & Hcb & Hname & Hvb & Hl) Hst Hr] Hfresh Eb' Efd Hlinks Hwf Hc'
    E1 E2 E3 E4 E5 Ei Href.
  rewrite Eb' in Hb. injection Hb as <-. rewrite Efd in Eb. injection Eb as <-.
  assert (Hset : forall name, frame_set w' name = frame_set w name)
    by (intros name; unfold frame_set; now rewrite E1).
  split; rewrite ?E2, ?E3, ?E4, ?E5.
  - now apply Forall_insert.
  - intros name q. rewrite Hset, length_insert. apply Hk.
  - intros id q. rewrite length_insert. apply Hv.
  - exists b, fd'. split; [done |].
    split; [apply list_lookup_insert_eq; now apply lookup_lt_Some in Efd |]. split; [done |].
    split; [intros name; now rewrite Hset |]. split; [done |]. eapply links_linked; eauto.
  - intros k' z. destruct Hlinks as [(f & _ & _ & _ & ->) | (_ & _ & ->)]; [apply Hst |].
    intros [[_ <-] | [_ E]]%lookup_insert_some; [lia | eauto].
  - intros k' i' [[<- <-] | [_ E]]%lookup_insert_some.
    + eauto.
    + eauto.
Qed.

(** What becomes of an image. *)
Definition image_arrived (images : gmap Z nat) (k : Z) (image : list Z) (w w' : W) : Prop :=
  m_pendingFrameImageData (fr w') = None /\
  if m_onDemand w && (k <=? 1) then frames_ok images w' /\ frameImage (fr w') = frameImage (fr w) /\
    m_failure w' = m_failure w
  else exists img, frameImage (fr w') = frameImage (fr w) ++ [img] /\ fi_data img = image /\
    match images !! k with
    | Some _ => m_failure w' = FrameImageTwice /\ frames_ok images w'
    | None => m_failure w' = m_failure w /\ frames_ok (<[k := length (frameImage (fr w))]> images) w'
    end.

Lemma frames_ok_frame images w w' :
  frames_ok images w -> frames_of w' = frames_of w -> frame_heap (fr w') = frame_heap (fr w) ->
  framesBase (fr w') = framesBase (fr w) -> m_vsyncFrameMap (fr w') = m_vsyncFrameMap (fr w) ->
  m_frameImageStaging (fr w') = m_frameImageStaging (fr w) ->
  (exists ext, frameImage (fr w') = frameImage (fr w) ++ ext) -> frames_ok images w'.
Proof.
  intros [Hs Hk Hv Hb Hst Hr] E1 E2 E3 E4 E5 [ext E6].
  assert (Hset : forall name, frame_set w' name = frame_set w name)
    by (intros name; unfold frame_set; now rewrite E1).
  split; rewrite ?E2, ?E3, ?E4, ?E5, ?E6; auto.
  - intros name q. rewrite Hset. apply Hk.
  - destruct Hb as (b & fd & ? & ? & ? & Hname & ? & Hl). exists b, fd. split_and!; auto.
    + intros name. now rewrite Hset.
    + intros k i. rewrite Hl. unfold linked. now rewrite E5.
  - intros k i E. destruct (Hr k i E) as (img & E' & ?). exists img.
    split; [now apply lookup_app_l_Some | done].
Qed.

Lemma not_linked images w fd k :
  frames_ok images w -> framesBase (fr w) ≫= (fun b => frame_heap (fr w) !! b) = Some fd ->
  ~ (exists i, linked (fr w) fd k i) -> images !! k = None.
Proof.
  intros Hok E Hn. destruct (images !! k) as [i |] eqn:Ei; [| done].
  destruct Hn. exists i. now apply (linked_known images w fd).
Qed.

Lemma link_image_spec images k n img w b fd :
  frames_ok images w -> framesBase (fr w) = Some b -> frame_heap (fr w) !! b = Some fd ->
  0 < k -> Z.of_nat n < 2 ^ 31 -> frameImage (fr w) !! n = Some img -> fi_frameRef img = uint 32 k ->
  wp (link_image b k (Z.of_nat n)) (fun _ w' =>
    frameImage (fr w') = frameImage (fr w) /\
    m_pendingFrameImageData (fr w') = m_pendingFrameImageData (fr w) /\
    match images !! k with
    | Some _ => m_failure w' = FrameImageTwice /\ frames_ok images w'
    | None => m_failure w' = m_failure w /\ frames_ok (<[k := n]> images) w'
    end) w.
Proof.
  intros Hok Hb Eb Hpos Hn Eimg Href.
  assert (Hidx : sint 32 (Z.of_nat n) = Z.of_nat n) by (apply sint_small; [lia | red; lia]).
  assert (Efd : framesBase (fr w) ≫= (fun b => frame_heap (fr w) !! b) = Some fd) by now rewrite Hb.
  assert (Hwf := Forall_lookup_1 _ _ _ _ (fo_sets _ _ Hok) Eb).
  assert (Hcb : fd_continuous fd = 1).
  { destruct (fo_base _ _ Hok) as (b' & fd' & Hb' & Eb' & Hc & _). rewrite Hb in Hb'.
    injection Hb' as <-. rewrite Eb in Eb'. now injection Eb' as <-. }
  assert (Htwice : forall i, linked (fr w) fd k i -> wp FrameImageTwiceFailure (fun _ w' =>
    frameImage (fr w') = frameImage (fr w) /\
    m_pendingFrameImageData (fr w') = m_pendingFrameImageData (fr w) /\
    match images !! k with
    | Some _ => m_failure w' = FrameImageTwice /\ frames_ok images w'
    | None => m_failure w' = m_failure w /\ frames_ok (<[k := n]> images) w'
    end) w).
  { intros i Hi. apply (linked_known images w fd k i Hok Efd) in Hi. rewrite Hi.
    unfold FrameImageTwiceFailure, set_failure. wp_steps. split_and!; try done.
    eapply frames_ok_frame; [exact Hok | ..]; try done. exists []. now rewrite app_nil_r. }
  unfold link_image, UpdFr. apply wp_bind, (GetSet_wp b fd); [exact Eb |]. wp_steps.
  destruct (Z.leb_spec (Z.of_nat (length (fd_frames fd))) k) as [Hk | Hk].
  - destruct (m_frameImageStaging (fr w) !! k) as [z |] eqn:Ez.
    + apply (Htwice (Z.to_nat z)). right. split; [done |]. rewrite Ez. f_equal.
      pose proof (fo_values _ _ Hok _ _ Ez). lia.
    + assert (Ek : images !! k = None).
      { apply (not_linked images w fd k Hok Efd).
        intros [i [(m & g & -> & Eg & _) | (_ & E)]]; [apply lookup_lt_Some in Eg; lia | congruence]. }
      wp_steps. split; [done |]. split; [done |]. rewrite Ek. split; [done |].
      apply (linked_ok images w _ b fd fd k n img); try done.
      * right. split; [done |]. split; [done |]. cbn. rewrite Hidx. now rewrite emplace_fresh.
      * cbn. symmetry. now apply list_insert_id.
  - destruct (lookup_lt_is_Some_2 (fd_frames fd) (Z.to_nat k) ltac:(lia)) as [f Ef].
    wp_steps. eapply wp_expect; [exact Ef |]. destruct (Z.leb_spec 0 (fe_image f)) as [Hi | Hi].
    + apply (Htwice (Z.to_nat (fe_image f))). left. exists (Z.to_nat k), f.
      split; [lia |]. split; [done | lia].
    + assert (Ek : images !! k = None).
      { apply (not_linked images w fd k Hok Efd).
        intros [i [(m & g & -> & Eg & E) | (? & _)]]; [| lia]. rewrite Nat2Z.id in Ef. simplify_eq. lia. }
      apply SetSet_wp. split; [done |]. split; [done |]. rewrite Ek. split; [done |].
      apply (linked_ok images w _ b fd (fd <| fd_frames ::= <[Z.to_nat k := f <| fe_image := Z.of_nat n |>]> |>) k n img);
        try done.
      * left. exists f. split; [lia |]. done.
      * now apply set_wf_image.
      * cbn. now rewrite Hidx.
Qed.

(** C21: an image is linked to the frame of its number, whether the frame has
    begun or will begin later, and no other frame's image changes; a second image of
    a frame is refused. On demand, an image of a frame before the connection is
    dropped. *)
Theorem ProcessFrameImage_links (images : gmap Z nat) (frame w_ h flip : Z) (image : list Z) (w : W) :
  frames_ok images w -> m_pendingFrameImageData (fr w) = Some image ->
  (m_onDemand w && (image_frame w frame <=? 1) = true \/ 0 < image_frame w frame) ->
  Z.of_nat (length (frameImage (fr w))) < 2 ^ 31 ->
  wp (ProcessFrameImage frame w_ h flip)
     (fun _ => image_arrived images (image_frame w frame) image w) w.
Proof.
  intros Hok Hp Hpos Hn. assert (Hok' := Hok).
  destruct Hok' as [Hs _ _ (b & fd & Hb & Eb & Hcb & _ & _ & Hl) Hst Hr].
  unfold ProcessFrameImage, deref, image_arrived. wp_steps. eapply wp_expect; [exact Hp |]. wp_steps.
  eapply wp_expect; [exact Hb |]. cbv zeta. fold (image_frame w frame).
  set (k := image_frame w frame) in *. destruct (m_onDemand w && (k <=? 1)).
  { unfold UpdFr. wp_steps. split; [done |]. split_and!; try done.
    eapply frames_ok_frame; [exact Hok | ..]; try done. exists []. now rewrite app_nil_r. }
  destruct Hpos as [Hbad | Hpos]; [discriminate |]. destruct (Z.leb_spec k 0); [lia |].
  unfold UpdFr. wp_steps. set (n := length (frameImage (fr w))).
  set (img := mkFrameImage image w_ h (uint 32 k) flip). set (w1 := w <| fr ::= _ |>).
  assert (Hok1 : frames_ok images w1).
  { eapply frames_ok_frame; [exact Hok | ..]; try done. now exists [img]. }
  eapply wp_mono; [apply (link_image_spec images k n img w1 b fd); try done; now apply list_lookup_middle |].
  intros _ w' (E1 & E2 & E3). split; [now rewrite E2 |]. exists img. now rewrite E1.
Qed.

(** *** Ranges of frames *)
Lemma lower_bound_key_le {A} (comp : A -> Z -> bool) l k : (lower_bound_key comp l k <= length l)%nat.
Proof. induction l as [| a l IH]; cbn; [lia |]. destruct (comp a k); lia. Qed.

Lemma lower_bound_key_before {A} (comp : A -> Z -> bool) l k i a :
  (i < lower_bound_key comp l k)%nat -> l !! i = Some a -> comp a k = true.
Proof.
  revert i. induction l as [| x l IH]; intros i; cbn; [lia |].
  destruct (comp x k) eqn:E; [| lia]. destruct i; cbn; [congruence |]. intros Hi. apply IH. lia.
Qed.

Lemma lower_bound_key_at {A} (comp : A -> Z -> bool) l k a :
  l !! lower_bound_key comp l k = Some a -> comp a k = false.
Proof. induction l as [| x l IH]; cbn; [done |]. destruct (comp x k) eqn:E; cbn; [done | congruence]. Qed.

(** Starts do not decrease, and a frame that is not the last ends, at the latest,
    where the next one begins. *)
Lemma set_wf_starts fd i j f g :
  set_wf fd -> (i <= j)%nat -> fd_frames fd !! i = Some f -> fd_frames fd !! j = Some g ->
  fe_start f <= fe_start g.
Proof.
  assert (Hgen : forall (R : FrameEvent -> FrameEvent -> Prop) l, StronglySorted R l ->
    forall i j f g, (i < j)%nat -> l !! i = Some f -> l !! j = Some g -> R f g).
  { intros R l. induction 1 as [| x l Hs IH Hf]; intros n m a b Hlt Ea Eb; [done |].
    destruct m as [| m]; [lia |]. destruct n as [| n]; cbn in Ea, Eb.
    - injection Ea as <-. exact (Forall_lookup_1 _ _ _ _ Hf Eb).
    - apply (IH n m); auto; lia. }
  intros Hwf Hij Ef Eg. destruct (decide (i = j)) as [-> |]; [simplify_eq; lia |].
  unfold set_wf in Hwf. destruct (fd_continuous fd =? 0).
  - destruct (Hgen _ _ (proj1 Hwf) i j f g) as [_ H]; auto; lia.
  - pose proof (Hgen _ _ (proj1 (proj2 Hwf)) i j f g) as H. unfold le_, starts_before in H.
    specialize (H ltac:(lia) Ef Eg). apply Z.ltb_ge in H. lia.
Qed.

Lemma set_wf_end fd i g l e :
  set_wf fd -> fd_frames fd !! S i = Some g -> GetFrameEnd fd i l = Some e ->
  Z.of_nat (length (fd_frames fd)) < 2 ^ 64 -> e <= fe_start g.
Proof.
  intros Hwf Eg He Hn. assert (Hlt := lookup_lt_Some _ _ _ Eg).
  destruct (lookup_lt_is_Some_2 (fd_frames fd) i ltac:(lia)) as [f Ef].
  unfold GetFrameEnd, size_pred in He. unfold set_wf in Hwf.
  destruct (fd_continuous fd =? 0); cbn [negb] in He.
  - rewrite Ef in He. destruct Hwf as [H1 H2].
    rewrite <- (take_drop_middle _ _ _ Ef) in H1.
    assert (H1' : StronglySorted closed_before (f :: drop (S i) (fd_frames fd))).
    { clear -H1. induction (take i (fd_frames fd)) as [| x l IH]; [exact H1 |]. inversion_clear H1. auto. }
    inversion_clear H1' as [| ? ? _ Hf].
    assert (Hfg : closed_before f g).
    { apply (Forall_lookup_1 _ _ 0 g Hf). rewrite lookup_drop, Nat.add_0_r. exact Eg. }
    apply (Forall_lookup_1 _ _ _ _ H2) in Ef. destruct Hfg as [Hne Hb].
    destruct (Z.leb_spec 0 (fe_end f)); injection He as <-; lia.
  - rewrite (uint_small 64) in He by (red; lia).
    destruct (Z.ltb_spec (Z.of_nat i) (Z.of_nat (length (fd_frames fd)) - 1)); [| lia].
    rewrite Eg in He. cbn in He. injection He as <-. lia.
Qed.

(** C35: the frames shown for an interval of time include every frame that
    meets it: a frame that begins before the interval ends and ends after it begins
    is in the range, whether frames last until the next one or have their own end. *)
Theorem GetFrameRange_covers (fd : FrameData) (from to l : Z) (i : nat) (f : FrameEvent) (e : Z) :
  set_wf fd -> Z.of_nat (length (fd_frames fd)) < 2 ^ 64 ->
  fd_frames fd !! i = Some f -> GetFrameEnd fd i l = Some e -> fe_start f < to -> from < e ->
  exists b n, GetFrameRange fd from to = Some (b, n) /\ (b <= i < n)%nat /\
    (n <= length (fd_frames fd))%nat.
Proof.
  intros Hwf Hlen Ef He Hto Hfrom. assert (Hi := lookup_lt_Some _ _ _ Ef).
  unfold GetFrameRange. set (n := length (fd_frames fd)) in *.
  set (b0 := lower_bound_key start_before (fd_frames fd) from).
  assert (Hb0 : (b0 <= n)%nat) by apply lower_bound_key_le.
  assert (Hbefore : forall j g, (j < b0)%nat -> fd_frames fd !! j = Some g -> fe_start g < from).
  { intros j g Hj Eg. apply Z.ltb_lt. exact (lower_bound_key_before start_before _ _ _ _ Hj Eg). }
  assert (Hend : forall g, fd_frames fd !! S i = Some g -> from < fe_start g).
  { intros g Eg. pose proof (set_wf_end fd i g l e Hwf Eg He Hlen). lia. }
  set (b1 := if Nat.eqb b0 n then (b0 - 1)%nat else b0).
  assert (Hb1 : (if Nat.eqb b0 n then if Nat.eqb n 0 then None else Some (b0 - 1)%nat else Some b0) = Some b1).
  { unfold b1. destruct (Nat.eqb_spec b0 n), (Nat.eqb_spec n 0); try done. lia. }
  rewrite Hb1. cbn [mbind option_bind].
  assert (Hb1n : (b1 < n)%nat) by (unfold b1; destruct (Nat.eqb_spec b0 n); lia).
  destruct (lookup_lt_is_Some_2 (fd_frames fd) b1 Hb1n) as [fb Efb]. rewrite Efb. cbn [mbind option_bind].
  eexists _, _. split; [reflexivity |].
  pose proof (lower_bound_key_le start_before (drop b1 (fd_frames fd)) to) as Hle.
  rewrite length_drop in Hle. fold n in Hle.
  assert (Hup : (i < b1 + lower_bound_key start_before (drop b1 (fd_frames fd)) to)%nat).
  { set (q := lower_bound_key start_before (drop b1 (fd_frames fd)) to) in *. destruct (decide (i < b1 + q)%nat) as [| Hge]; [done | exfalso].
    destruct (lookup_lt_is_Some_2 (fd_frames fd) (b1 + q) ltac:(lia)) as [g Eg].
    assert (Hg : start_before g to = false).
    { apply (lower_bound_key_at start_before (drop b1 (fd_frames fd))). fold q. now rewrite lookup_drop. }
    apply Z.ltb_ge in Hg. pose proof (set_wf_starts fd (b1 + q) i g f Hwf ltac:(lia) Eg Ef). lia. }
  split; [| lia]. split; [| exact Hup].
  assert (Hlow : (b0 <= S i)%nat).
  { destruct (decide (b0 <= S i)%nat) as [| Hgt]; [done | exfalso].
    destruct (lookup_lt_is_Some_2 (fd_frames fd) (S i) ltac:(lia)) as [g Eg].
    pose proof (Hbefore (S i) g ltac:(lia) Eg). pose proof (Hend g Eg). lia. }
  destruct (decide (b1 <= i)%nat) as [Hbi | Hbi].
  { destruct (Nat.ltb 0 b1 && negb (fe_start fb =? from)); lia. }
  assert (b1 = S i) as E1 by (unfold b1 in *; destruct (Nat.eqb_spec b0 n); lia).
  rewrite E1 in *. pose proof (Hend fb Efb). cbn [Nat.ltb Nat.leb andb].
  destruct (Z.eqb_spec (fe_start fb) from); cbn [negb]; lia.
Qed.

(** *** The end of a frame *)
Definition last_frame (w : W) (name : Z) : option FrameEvent :=
  p ← frame_set w name; fd ← frame_heap (fr w) !! p; last (fd_frames fd).
Definition closed (t : Z) (b : FrameEvent) (fd : FrameData) : FrameData :=
  fd <| fd_frames ::= set_back (b <| fe_end := t |>) |>.

Lemma closed_wf t b fd :
  set_wf fd -> fd_continuous fd = 0 -> last (fd_frames fd) = Some b -> fe_start b <= t ->
  set_wf (closed t b fd).
Proof.
  unfold set_wf, closed, set_back. cbn. intros Hwf Hc Hb Ht. rewrite Hc in *. cbn [Z.eqb] in *.
  apply last_snoc_inv in Hb as [l El]. rewrite El in *. rewrite removelast_snoc.
  destruct Hwf as [H1 H2]. split.
  - clear -H1. induction l as [| x l IH]; cbn in *; [constructor; constructor |].
    inversion_clear H1 as [| ? ? H1' Hf]. constructor; [auto |].
    apply Forall_snoc in Hf as [Hf Hx]. apply Forall_snoc. split; [done | exact Hx].
  - apply Forall_snoc in H2 as [H2 Hb]. apply Forall_snoc. split; [done |]. cbn. lia.
Qed.

Lemma time_of_closed fd b t w :
  fd_continuous fd = 0 -> 0 <= t -> last (fd_frames fd) = Some b ->
  wp (GetFrameTime (closed t b fd) (length (fd_frames (closed t b fd)) - 1))
    (fun r w' => r = sint 64 (t - fe_start b) /\ w' = w) w.
Proof.
  intros Hc Ht Hb. unfold GetFrameTime. wp_steps.
  change (fd_continuous (closed t b fd)) with (fd_continuous fd). rewrite Hc. cbn [negb Z.eqb].
  assert (Eback : fd_frames (closed t b fd) !! (length (fd_frames (closed t b fd)) - 1)%nat =
    Some (b <| fe_end := t |>)).
  { cbn. unfold set_back. rewrite length_app. cbn. apply list_lookup_middle. lia. }
  wp_steps. eapply wp_expect; [exact Eback |]. change (fe_end (b <| fe_end := t |>)) with t.
  destruct (Z.leb_spec 0 t); [| lia]. wp_steps. done.
Qed.

Lemma frames_ok_replace images w w' p fd fd' :
  frames_ok images w -> frame_heap (fr w) !! p = Some fd -> fd_continuous fd <> 1 -> set_wf fd' ->
  fr w' = (fr w) <| frame_heap ::= <[p := fd']> |> -> frames_ok images w'.
Proof.
  intros [Hs Hk Hv (b & fdb & Hb & Eb & Hcb & Hname & Hvb & Hl) Hst Hr] E Hc Hwf Efr.
  assert (Hset : forall name, frame_set w' name = frame_set w name)
    by (intros name; unfold frame_set, frames_of; now rewrite Efr).
  split; rewrite ?Efr; cbn; auto.
  - now apply Forall_insert.
  - intros name q. rewrite Hset, length_insert. apply Hk.
  - intros id q. rewrite length_insert. apply Hv.
  - exists b, fdb. split; [done |]. split; [rewrite list_lookup_insert_ne; [done | congruence] |].
    split; [done |]. split; [intros name; now rewrite Hset |]. split; [done |]. exact Hl.
Qed.

(** C36: the end of a frame closes the open frame of its set and of no
    other, and counts its span. Without such a set, or without frames in it, it is
    a fault of the client, unless the trace began on demand. *)
Theorem ProcessFrameMarkEnd_closes (images : gmap Z nat) (tsc name t : Z) (w : W) :
  frames_ok images w -> time_of w tsc = Some t -> 0 <= t ->
  (forall p fd, frame_set w name = Some p -> frame_heap (fr w) !! p = Some fd -> fd_continuous fd = 0) ->
  (forall b, last_frame w name = Some b -> fe_end b = -1 /\ fe_start b <= t) ->
  wp (ProcessFrameMarkEnd tsc name) (fun _ w' =>
    match last_frame w name with
    | None => w' = if m_ignoreFrameEndFaults (fr w) then w else w <| m_failure := FrameEnd |>
    | Some b => frames_ok images w' /\ erase_frames w' = erase_frames w /\
        lastTime w' = Z.max (lastTime w) t /\ exists p fd, frame_set w name = Some p /\
        frame_heap (fr w) !! p = Some fd /\
        frame_heap (fr w') = <[p := counted (sint 64 (t - fe_start b)) (closed t b fd)]> (frame_heap (fr w))
    end) w.
Proof.
  intros Hok Htime Ht Hc Hb. unfold ProcessFrameMarkEnd, touch_lastTime. apply wp_bind.
  assert (Hfault : wp (when (negb (m_ignoreFrameEndFaults (fr w))) FrameEndFailure)
    (fun _ w' => w' = if m_ignoreFrameEndFaults (fr w) then w else w <| m_failure := FrameEnd |>) w).
  { destruct (m_ignoreFrameEndFaults (fr w)); cbn [negb when]; [done | reflexivity]. }
  apply StringDiscovery.Retrieve_wp. fold (frame_set w name).
  unfold last_frame in *. destruct (frame_set w name) as [p |] eqn:Ep; [| exact Hfault].
  destruct (lookup_lt_is_Some_2 _ _ (fo_known _ _ Hok _ _ Ep)) as [fd Efd].
  specialize (Hc p fd eq_refl Efd). cbn [mbind option_bind] in *. rewrite Efd in *.
  cbn [mbind option_bind] in *. wp_steps. apply (GetSet_wp p fd); [done |]. wp_steps.
  destruct (last (fd_frames fd)) as [b |] eqn:El; [| exact Hfault].
  destruct (Hb b eq_refl) as [Hopen Hstart]. wp_steps. eapply TscTime_wp; [exact Htime |]. wp_steps.
  apply SetSet_wp. wp_steps. assert (Hlt := lookup_lt_Some _ _ _ Efd).
  assert (Hspan : forall w', wp (GetFrameTime (closed t b fd) (length (fd_frames (closed t b fd)) - 1))
    (fun r w'' => r = sint 64 (t - fe_start b) /\ w'' = w') w').
  { intros w'. apply time_of_closed; [exact Hc | exact Ht | exact El]. }
  apply (statistics_spec p (closed t b fd) (sint 64 (t - fe_start b)));
    [now apply list_lookup_insert_eq | apply Hspan |].
  intros w' He El' Efr0.
  assert (Efr : fr w' = (fr w) <| frame_heap ::= <[p := counted (sint 64 (t - fe_start b)) (closed t b fd)]> |>)
    by (rewrite Efr0; apply set_twice).
  split; [| split; [rewrite He; erased | split]].
  - eapply frames_ok_replace; [exact Hok | exact Efd | lia | | exact Efr].
    unfold counted, set_wf. destruct (0 <? _); exact (closed_wf t b fd
      (Forall_lookup_1 _ _ _ _ (fo_sets _ _ Hok) Efd) Hc El Hstart).
  - rewrite El'. cbn. destruct (Z.ltb_spec (lastTime w) t); lia.
  - exists p, fd. now rewrite Efr.
Qed.

(** ** A new connection *)
Lemma frames_ok_new mul ib ie sp od ign starts :
  StronglySorted Z.le starts -> frames_ok ∅ (Worker mul ib ie sp od ign starts).
Proof.
  intros Hs. set (w := Worker _ _ _ _ _ _ _).
  assert (Hitem : forall name, frame_set w name = if decide (name = 0) then Some 0%nat else None).
  { intros name. unfold frame_set, StringDiscovery.item. cbn. destruct (decide (name = 0)) as [-> |].
    - now rewrite lookup_singleton_eq.
    - now rewrite lookup_singleton_ne. }
  split; cbn.
  - repeat constructor; cbn.
    + clear Hitem w. induction Hs as [| x l Hs IH Hf]; cbn; [constructor |].
      constructor; [exact IH |]. apply Forall_map. eapply Forall_impl; [exact Hf |]. intros y Hy. unfold le_, starts_before. cbn. apply Z.ltb_ge. lia.
    + apply Forall_map. now apply Forall_true.
  - intros name p. rewrite Hitem. destruct (decide _); [intros [= <-]; lia | done].
  - intros id p. now rewrite lookup_empty.
  - exists 0%nat. eexists. split; [done |]. split; [done |]. split; [done |]. split; [| split].
    + intros name. rewrite Hitem. destruct (decide (name = 0)); [tauto |]. split; [discriminate | lia].
    + intros id. now rewrite lookup_empty.
    + intros k i. rewrite lookup_empty. split; [discriminate |].
      intros [(n & f & _ & Ef & Hi) | (_ & E)]; [| discriminate E].
      cbn in Ef. rewrite list_lookup_fmap in Ef. destruct (starts !! n); [| done].
      cbn in Ef. simplify_eq. cbn in Hi. lia.
  - intros k i. now rewrite lookup_empty.
  - intros k i. now rewrite lookup_empty.
Qed.

(** ** The statistics of a saved trace *)

(** A trace that is loaded counts every frame. *)
(* TracyWorker.cpp:712-723 Worker *)
Fixpoint count_frames (fd : FrameData) (n : nat) (j : nat) (acc : FrameData) : M W FrameData :=
  match n with
  | O => mret acc
  | S n => timeSpan ← GetFrameTime fd j; count_frames fd n (S j) (counted timeSpan acc)
  end.

Definition demo_frame_server : W := Worker (double_of_Z 1) 1000 0 100 false false [0; 0].
Definition marks : M W unit := ProcessFrameMark 1005 0;; ProcessFrameMark 1009 0.

(** After frames that begin at 5 and at 9 the connected server has counted nothing;
    the same frames, loaded from a file, sum up to 9. *)
Definition live_total (w : W) : option Z := fd ← frame_heap (fr w) !! 0%nat; Some (fd_total fd).
Definition loaded_total (w : W) : option Z :=
  fd ← frame_heap (fr w) !! 0%nat;
  r ← count_frames fd (length (fd_frames fd)) 0 (new_FrameData 0 1) w; Some (fd_total (fst r)).
Lemma frame_statistics_differ :
  (r ← marks demo_frame_server; Some (live_total (snd r), loaded_total (snd r))) =
  Some (Some 0, Some 9).
Proof. vm_compute. reflexivity. Qed.

(** ** Witnesses *)
Lemma demo_frames_ok : frames_ok ∅ demo_frame_server.
Proof. apply frames_ok_new. repeat constructor; lia. Qed.

Lemma ProcessFrameMark_begins_witness :
  wp (ProcessFrameMark 1005 0) (fun _ => frame_begun ∅ 0 5 demo_frame_server) demo_frame_server.
Proof.
  apply (ProcessFrameMark_begins ∅ 1005 0 5 demo_frame_server demo_frames_ok).
  - split; [reflexivity |]. split; [lia |]. vm_compute. discriminate.
  - vm_compute. reflexivity.
Defined.

Definition demo_image_server : W :=
  demo_frame_server <| fr ::= fun s => s <| m_pendingFrameImageData := Some [1; 2; 3] |> |>.

Lemma ProcessFrameImage_links_witness :
  wp (ProcessFrameImage 2 4 4 0)
    (fun _ => image_arrived ∅ (image_frame demo_image_server 2) [1; 2; 3] demo_image_server)
    demo_image_server.
Proof.
  apply (ProcessFrameImage_links ∅ 2 4 4 0 [1; 2; 3] demo_image_server).
  - eapply frames_ok_frame; [exact demo_frames_ok | ..]; try done. now exists [].
  - reflexivity.
  - right. vm_compute. reflexivity.
  - vm_compute. reflexivity.
Defined.

Definition demo_set : FrameData :=
  (new_FrameData 7 0) <| fd_frames := [mkFrameEvent 0 4 (-1); mkFrameEvent 6 (-1) (-1)] |>.

Lemma demo_set_wf : set_wf demo_set.
Proof.
  split; cbn.
  - apply SSorted_cons; [apply SSorted_cons; constructor |]. constructor; [| constructor].
    split; cbn; lia.
  - apply Forall_cons. split; [cbn; lia |]. apply Forall_cons. split; [cbn; lia | constructor].
Qed.

Lemma GetFrameRange_covers_witness :
  exists b n, GetFrameRange demo_set 3 5 = Some (b, n) /\ (b <= 0 < n)%nat /\ (n <= 2)%nat.
Proof.
  apply (GetFrameRange_covers demo_set 3 5 10 0 (mkFrameEvent 0 4 (-1)) 4 demo_set_wf);
    [vm_compute; reflexivity | reflexivity | vm_compute; reflexivity | cbn; lia | lia].
Defined.

(** A server with an open frame of the set 7, which began at 6. *)
Definition demo_open_server : W :=
  demo_frame_server <| fr ::= fun s => s <| frame_heap ::= (fun h => h ++ [demo_set]) |>
    <| frames ::= fun d => d <| StringDiscovery.m_map ::= <[7 := 1%nat]> |> |> |>.

Lemma demo_open_ok : frames_ok ∅ demo_open_server.
Proof.
  destruct demo_frames_ok as [Hs Hk Hv (b & fd & Hb & Eb & Hc & Hname & Hvb & Hl) Hst Hr].
  assert (Hset : forall name, frame_set demo_open_server name =
    if decide (name = 7) then Some 1%nat else frame_set demo_frame_server name).
  { intros name. unfold frame_set, StringDiscovery.item. cbn. destruct (decide (name = 7)) as [-> |].
    - now rewrite lookup_insert_eq.
    - now rewrite lookup_insert_ne. }
  split; try done.
  - apply Forall_snoc. split; [exact Hs | exact demo_set_wf].
  - intros name p. rewrite Hset. destruct (decide _); [intros [= <-]; cbn; lia |].
    intros E. specialize (Hk _ _ E). cbn in *. lia.
  - exists b, fd. injection Hb as <-. split; [done |]. split; [exact Eb |]. split; [done |].
    split; [| done]. intros name. rewrite Hset. destruct (decide (name = 7)) as [-> |]; [| apply Hname].
    split; [discriminate | lia].
Qed.

Lemma ProcessFrameMarkEnd_closes_witness :
  wp (ProcessFrameMarkEnd 1008 7) (fun _ w' =>
    lastTime w' = 8 /\ frames_ok ∅ w') demo_open_server.
Proof.
  eapply wp_mono; [apply (ProcessFrameMarkEnd_closes ∅ 1008 7 8 demo_open_server demo_open_ok) |].
  - vm_compute. reflexivity.
  - lia.
  - intros p fd Ep Efd. vm_compute in Ep. injection Ep as <-. vm_compute in Efd. injection Efd as <-. reflexivity.
  - intros b Eb. vm_compute in Eb. injection Eb as <-. cbn. lia.
  - intros [] w' H. change (last_frame demo_open_server 7) with (Some (mkFrameEvent 6 (-1) (-1))) in H.
    split; [exact (proj1 (proj2 (proj2 H))) | exact (proj1 H)].
Defined.
