(* ===== verification/ServerSection.v ===== *)
(** * Sections: spans of the whole program

    A section is entered in one thread and may be left in another, so the server can
    see its end before its beginning.  An open section is marked by the negated
    number of the section in place of its end; the end of a section that has not
    begun waits in [sectionsPending], under the number in place of its start. *)
From S2P Require Import Prelude Double Queue Event Containers Discovery Trace Server.

Definition UpdSecs (f : Sections -> Sections) : M W unit := modify (fun w => w <| secs ::= f |>).
(** The vector of a category, created when it is first used. *)
Definition push_section (category : Z) (it : SectionItem) : M W unit :=
  UpdSecs (fun s => s <| sections ::= fun m => <[category := default [] (m !! category) ++ [it]]> m |>).

(** [std::ranges::find_if], as the position. *)
Fixpoint find_if {A} (p : A -> bool) (l : list A) : option nat :=
  match l with
  | [] => None
  | a :: l => if p a then Some 0%nat else n ← find_if p l; Some (S n)
  end.

(** The section [id] begins after its end was received. *)
(* TracyWorker.cpp:7461-7469 ProcessSectionEnter *)
Definition enter_pending (id category text t : Z) : M W unit :=
  s ← gets secs;
  i ← expect (find_if (fun it => Int48.Val (si_start it) =? id) (sectionsPending s));
  it ← expect (sectionsPending s !! i);
  assert_ (negb (StringIdx.Active (si_text it)));;
  push_section category (it <| si_start ::= Int48.SetVal t |> <| si_text := StringIdx.SetIdx text |>);;
  UpdSecs (fun s => s <| sectionsPending ::= delete i |>).

(* TracyWorker.cpp:7450-7488 *)
Definition ProcessSectionEnter (id time category : Z) : M W unit :=
  ref ← RefTime m_refTimeThread time;
  t ← TscTime ref;
  touch_lastTime t;;
  text ← GetSingleStringIdx;
  s ← gets secs;
  match sectionsActive s !! id with
  | Some c =>
      assert_ (c =? 0);;
      UpdSecs (fun s => s <| sectionsActive ::= delete id |>);;
      enter_pending id category text t
  | None =>
      push_section category (mkSectionItem (Int48.make t) (Int48.make (- id)) (StringIdx.SetIdx text));;
      UpdSecs (fun s => s <| sectionsActive ::= emplace id category |>)
  end;;
  UpdSecs (fun s => s <| sectionsDescription ::= emplace category StringIdx.none |>).

(* TracyWorker.cpp:7490-7516 *)
Definition ProcessSectionLeave (id time : Z) : M W unit :=
  ref ← RefTime m_refTimeThread time;
  t ← TscTime ref;
  touch_lastTime t;;
  s ← gets secs;
  match sectionsActive s !! id with
  | Some category =>
      UpdSecs (fun s => s <| sectionsActive ::= delete id |>);;
      l ← expect (sections s !! category);
      i ← expect (find_if (fun it => Int48.Val (si_end it) =? - id) l);
      it ← expect (l !! i);
      assert_ (Int48.Val (si_end it) <? 0);;
      UpdSecs (fun s => s <| sections ::= <[category := <[i := it <| si_end ::= Int48.SetVal t |>]> l]> |>)
  | None =>
      UpdSecs (fun s => s <| sectionsPending ::= (fun l => l ++ [mkSectionItem (Int48.make id) (Int48.make t) StringIdx.none]) |>
                          <| sectionsActive ::= emplace id 0 |>)
  end.

(* TracyWorker.cpp:7518-7530 *)
Definition ProcessSectionSetup (category : Z) : M W unit :=
  text ← GetSingleStringIdx;
  UpdSecs (fun s => s <| sectionsDescription ::= <[category := StringIdx.SetIdx text]> |>).
