(* ===== verification/SectionSpec.v ===== *)
(** * Sections: the order of arrival does not matter

    The sections of the server are a function of which sections were entered, in
    the order of the entries, and of which were left, whatever the interleaving of
    entries and exits: the exit of a section may arrive before its entry. *)
From S2P Require Import Prelude Double Queue Event Containers Discovery Trace Server ServerSpec ServerSection.

(** ** What was reported *)
Record entry := mkEntry { en_id : Z; en_category : Z; en_time : Z; en_text : Z }.
(** The entries, and the exits with their times, in the order of arrival. *)
Record report := mkReport { entries : list entry; exits : list (Z * Z) }.

Definition left_at (r : report) (id : Z) : option Z :=
  list_to_map (M := gmap Z Z) (exits r) !! id.

(** Sections as the accessors show them: start, end, text. *)
Definition shown (it : SectionItem) : Z * Z * StringIdx.t :=
  (Int48.Val (si_start it), Int48.Val (si_end it), si_text it).
(** A section that is still open ends at its negated number. *)
Definition section_of (r : report) (e : entry) : Z * Z * StringIdx.t :=
  (en_time e, default (- en_id e) (left_at r (en_id e)), StringIdx.SetIdx (en_text e)).
Definition sections_of (r : report) (category : Z) : list (Z * Z * StringIdx.t) :=
  section_of r <$> filter (fun e => en_category e = category) (entries r).
Definition pending_of (r : report) : list (Z * Z * StringIdx.t) :=
  (fun p => (p.1, p.2, StringIdx.none)) <$> filter (fun p => p.1 ∉ map en_id (entries r)) (exits r).

Definition category_of (r : report) (id : Z) : option Z :=
  list_to_map (M := gmap Z Z) ((fun e => (en_id e, en_category e)) <$> entries r) !! id.
Definition active_of (r : report) (id : Z) : option Z :=
  match category_of r id, left_at r id with
  | Some c, None => Some c
  | None, Some _ => Some 0
  | _, _ => None
  end.

Record report_ok (r : report) : Prop := {
  rp_entered : NoDup (map en_id (entries r));
  rp_left : NoDup (map fst (exits r));
  rp_ids : Forall (fun e => 0 < en_id e < 2 ^ 32 /\ 0 <= en_time e < 2 ^ 47) (entries r);
  rp_times : Forall (fun p => 0 < p.1 < 2 ^ 32 /\ 0 <= p.2 < 2 ^ 47) (exits r) }.

(** The server shows what was reported. *)
Record shows (r : report) (s : Sections) : Prop := {
  sh_ok : report_ok r;
  sh_sections : forall c, shown <$> default [] (sections s !! c) = sections_of r c;
  sh_pending : shown <$> sectionsPending s = pending_of r;
  sh_active : forall id, sectionsActive s !! id = active_of r id }.

Definition enter (e : entry) (r : report) : report := mkReport (entries r ++ [e]) (exits r).
Definition leave (id t : Z) (r : report) : report := mkReport (entries r) (exits r ++ [(id, t)]).

(** ** Lists *)
Lemma find_if_unique {A} (p : A -> bool) l i a :
  l !! i = Some a -> p a = true -> (forall j b, l !! j = Some b -> p b = true -> j = i) ->
  find_if p l = Some i.
Proof.
  revert i. induction l as [| x l IH]; intros i E Hp Hu; [done |]. cbn.
  destruct (p x) eqn:Ex.
  - now rewrite (Hu 0%nat x eq_refl Ex).
  - destruct i as [| i]; cbn in E; [congruence |]. rewrite (IH i E Hp); [done |].
    intros j b Ej Hb. specialize (Hu (S j) b Ej Hb). lia.
Qed.

Lemma filter_all {A} (P : A -> Prop) `{forall a, Decision (P a)} l : Forall P l -> filter P l = l.
Proof. induction 1; [done |]. rewrite filter_cons_True by done. now f_equal. Qed.

Lemma filter_delete (l : list (Z * Z)) i id x :
  NoDup (map fst l) -> l !! i = Some (id, x) -> filter (fun p => p.1 <> id) l = delete i l.
Proof.
  revert i. induction l as [| [k v] l IH]; intros i Hnd E; [done |].
  cbn in Hnd. apply NoDup_cons in Hnd as [Hk Hnd]. destruct i as [| i]; cbn in E.
  - injection E as -> ->. rewrite filter_cons_False by auto. cbn. apply filter_all.
    apply Forall_forall. intros [k v] Hin E. cbn in E. subst k. apply Hk, list_elem_of_fmap. now exists (id, v).
  - assert (k <> id).
    { intros ->. apply Hk, list_elem_of_fmap. exists (id, x). split; [done |]. now apply list_elem_of_lookup_2 in E. }
    rewrite filter_cons_True by done. cbn. f_equal. now apply IH.
Qed.

Lemma NoDup_key {A} (f : A -> Z) l i j a b :
  NoDup (map f l) -> l !! i = Some a -> l !! j = Some b -> f a = f b -> i = j.
Proof.
  intros Hnd Ei Ej E. apply (NoDup_lookup (map f l) i j (f a)); [done | |];
    change (map f l) with (f <$> l); rewrite list_lookup_fmap, ?Ei, ?Ej; cbn; congruence.
Qed.

Lemma NoDup_filter_key {A} (f : A -> Z) (P : A -> Prop) `{forall a, Decision (P a)} l :
  NoDup (map f l) -> NoDup (map f (filter P l)).
Proof.
  intros Hnd. induction l as [| a l IH]; [done |]. cbn in Hnd. apply NoDup_cons in Hnd as [Ha Hnd].
  rewrite filter_cons. destruct (decide (P a)); [| auto]. cbn. apply NoDup_cons. split; [| auto].
  intros Hin. apply Ha. apply list_elem_of_fmap in Hin as (b & -> & Hb).
  apply list_elem_of_filter in Hb as [_ Hb]. apply list_elem_of_fmap. eauto.
Qed.

(** ** Lookups in a report *)
Lemma left_at_leave r id t id' :
  id ∉ map fst (exits r) -> left_at (leave id t r) id' = if decide (id' = id) then Some t else left_at r id'.
Proof.
  intros Hn. unfold left_at. cbn. rewrite list_to_map_snoc by done.
  destruct (decide (id' = id)) as [-> |]; [apply lookup_insert_eq | now rewrite lookup_insert_ne].
Qed.

Lemma left_at_in r id t : left_at r id = Some t -> (id, t) ∈ exits r.
Proof. apply elem_of_list_to_map_2. Qed.

Lemma left_at_none r id : left_at r id = None <-> id ∉ map fst (exits r).
Proof. unfold left_at. symmetry. apply not_elem_of_list_to_map. Qed.

Lemma category_ids (r : report) :
  ((fun e => (en_id e, en_category e)) <$> entries r).*1 = map en_id (entries r).
Proof. rewrite <- list_fmap_compose. done. Qed.

Lemma category_of_enter r e id :
  en_id e ∉ map en_id (entries r) ->
  category_of (enter e r) id = if decide (id = en_id e) then Some (en_category e) else category_of r id.
Proof.
  intros Hn. unfold category_of. cbn. rewrite fmap_app. cbn. rewrite list_to_map_snoc by (now rewrite category_ids).
  destruct (decide (id = en_id e)) as [-> |]; [apply lookup_insert_eq | now rewrite lookup_insert_ne].
Qed.

Lemma category_of_none r id : category_of r id = None <-> id ∉ map en_id (entries r).
Proof. unfold category_of. rewrite <- category_ids. symmetry. apply not_elem_of_list_to_map. Qed.

Lemma category_of_in r id c : category_of r id = Some c ->
  exists e, e ∈ entries r /\ en_id e = id /\ en_category e = c.
Proof.
  unfold category_of. intros E. apply elem_of_list_to_map_2, list_elem_of_fmap in E as (e & [= -> ->] & He). eauto.
Qed.

(** ** Steps *)
Lemma report_ok_enter e r :
  report_ok r -> en_id e ∉ map en_id (entries r) -> 0 < en_id e < 2 ^ 32 -> 0 <= en_time e < 2 ^ 47 ->
  report_ok (enter e r).
Proof.
  intros [H1 H2 H3 H4] Hn Hid Ht. split; cbn; auto.
  - rewrite map_app. apply NoDup_app. split; [done |]. split; [| apply NoDup_singleton].
    intros x Hx ->%list_elem_of_singleton. done.
  - apply Forall_snoc. auto.
Qed.

Lemma report_ok_leave id t r :
  report_ok r -> id ∉ map fst (exits r) -> 0 < id < 2 ^ 32 -> 0 <= t < 2 ^ 47 ->
  report_ok (leave id t r).
Proof.
  intros [H1 H2 H3 H4] Hn Hid Ht. split; cbn; auto.
  - rewrite map_app. apply NoDup_app. split; [done |]. split; [| apply NoDup_singleton].
    intros x Hx ->%list_elem_of_singleton. done.
  - apply Forall_snoc. auto.
Qed.

Lemma sections_of_enter e r c :
  sections_of (enter e r) c =
    sections_of r c ++ (if decide (en_category e = c) then [section_of r e] else []).
Proof.
  unfold sections_of. cbn [enter entries]. rewrite filter_app, fmap_app. f_equal.
  rewrite filter_cons, filter_nil. destruct (decide (en_category e = c)); done.
Qed.

Lemma shown_push (s : gmap Z (list SectionItem)) c it r e :
  (forall c', shown <$> default [] (s !! c') = sections_of r c') -> en_category e = c ->
  shown it = section_of r e ->
  forall c', shown <$> default [] (<[c := default [] (s !! c) ++ [it]]> s !! c') = sections_of (enter e r) c'.
Proof.
  intros H <- Hit c'. rewrite sections_of_enter. destruct (decide (en_category e = c')) as [<- |].
  - rewrite lookup_insert_eq. cbn. rewrite fmap_app, H. cbn. now rewrite Hit.
  - now rewrite lookup_insert_ne, app_nil_r, H.
Qed.

Lemma pending_of_enter e r :
  pending_of (enter e r) =
  (fun p => (p.1, p.2, StringIdx.none)) <$>
    filter (fun p => p.1 <> en_id e) (filter (fun p => p.1 ∉ map en_id (entries r)) (exits r)).
Proof.
  unfold pending_of. cbn. f_equal. rewrite list_filter_filter. apply list_filter_iff. intros p.
  rewrite map_app. cbn. rewrite not_elem_of_app, list_elem_of_singleton. tauto.
Qed.

Lemma active_of_enter e r id :
  en_id e ∉ map en_id (entries r) -> active_of (enter e r) id =
    if decide (id = en_id e) then match left_at r id with None => Some (en_category e) | Some _ => None end
    else active_of r id.
Proof.
  intros Hn. unfold active_of. rewrite category_of_enter by done.
  change (left_at (enter e r) id) with (left_at r id). destruct (decide (id = en_id e)); [| done].
  destruct (left_at r id); done.
Qed.

(** The exit that waits for the entry [id]. *)
Lemma pending_found r s id t' :
  shows r s -> id ∉ map en_id (entries r) -> left_at r id = Some t' ->
  exists i it, find_if (fun it => Int48.Val (si_start it) =? id) (sectionsPending s) = Some i /\
    sectionsPending s !! i = Some it /\ shown it = (id, t', StringIdx.none) /\
    filter (fun p => p.1 ∉ map en_id (entries r)) (exits r) !! i = Some (id, t').
Proof.
  intros Hs Hn Ht. set (F := filter (fun p => p.1 ∉ map en_id (entries r)) (exits r)).
  assert (Hin : (id, t') ∈ F) by (apply list_elem_of_filter; split; [done | now apply left_at_in]).
  apply list_elem_of_lookup_1 in Hin as [i Ei].
  assert (Hp : shown <$> sectionsPending s = (fun p => (p.1, p.2, StringIdx.none)) <$> F) by apply Hs.
  assert (Hit : forall j it, sectionsPending s !! j = Some it -> exists p, F !! j = Some p /\
    shown it = (p.1, p.2, StringIdx.none)).
  { intros j it Ej. assert (E := f_equal (fun l => l !! j) Hp). rewrite !list_lookup_fmap, Ej in E.
    destruct (F !! j) as [p |]; [| done]. exists p. split; [done |]. exact (f_equal (default (shown it)) E). }
  assert (Hlen := f_equal length Hp). rewrite !length_fmap in Hlen.
  destruct (lookup_lt_is_Some_2 (sectionsPending s) i) as [it Eit]; [rewrite Hlen; now apply lookup_lt_Some in Ei |].
  destruct (Hit _ _ Eit) as (p & Ep & Hshown). rewrite Ei in Ep. injection Ep as <-.
  exists i, it. split; [| done]. apply (find_if_unique _ _ _ it); [done | |].
  - unfold shown in Hshown. cbn in Hshown. apply Z.eqb_eq. congruence.
  - intros j b Ej Hb. apply Z.eqb_eq in Hb. destruct (Hit _ _ Ej) as (q & Eq & Hq).
    apply (NoDup_key fst F j i q (id, t')); try done.
    + apply NoDup_filter_key. apply Hs.
    + unfold shown in Hq. cbn in *. congruence.
Qed.

(** ** The handlers *)
Definition erase_sections (w : W) : W :=
  w <| secs := mkSections ∅ [] ∅ ∅ |> <| m_refTimeThread := 0 |> <| lastTime := 0 |>
    <| m_pendingSingleString := None |>.

(** The server, which showed [r] at first, shows [r'] after an event at [t]. *)
Definition sections_stepped (r' : report) (dt t : Z) (w w' : W) : Prop :=
  shows r' (secs w') /\ erase_sections w' = erase_sections w /\
  m_refTimeThread w' = sint 64 (m_refTimeThread w + dt) /\ lastTime w' = Z.max (lastTime w) t.

Lemma enter_time dt t w {A} (k : Z -> M W A) Q :
  time_of w (sint 64 (m_refTimeThread w + dt)) = Some t ->
  (forall w', secs w' = secs w -> erase_sections w' = erase_sections w ->
     m_refTimeThread w' = sint 64 (m_refTimeThread w + dt) -> lastTime w' = Z.max (lastTime w) t ->
     m_pendingSingleString w' = m_pendingSingleString w -> wp (k t) Q w') ->
  wp (ref ← RefTime m_refTimeThread dt; t ← TscTime ref; touch_lastTime t;; k t) Q w.
Proof.
  intros Ht HQ. unfold RefTime, touch_lastTime. wp_steps. eapply TscTime_wp; [exact Ht |].
  wp_steps. apply HQ; try done. cbn. destruct (Z.ltb_spec (lastTime w) t); lia.
Qed.

Lemma bind_assoc_wp {A B} (m : M W A) (k : A -> M W B) Q w : wp (m ≫= k) Q w -> wp m (fun a => wp (k a) Q) w.
Proof. apply wp_unbind. Qed.

Lemma section_of_enter e r e' : section_of (enter e r) e' = section_of r e'.
Proof. reflexivity. Qed.

(** The server after an entry whose exit has not been seen. *)
Lemma enter_fresh r s e :
  shows r s -> en_id e ∉ map en_id (entries r) -> 0 < en_id e < 2 ^ 32 -> 0 <= en_time e < 2 ^ 47 ->
  left_at r (en_id e) = None ->
  let it := mkSectionItem (Int48.make (en_time e)) (Int48.make (- en_id e)) (StringIdx.SetIdx (en_text e)) in
  let c := en_category e in
  forall d, shows (enter e r) (mkSections (<[c := default [] (sections s !! c) ++ [it]]> (sections s))
    (sectionsPending s) (emplace (en_id e) c (sectionsActive s)) d).
Proof.
  intros [H1 H2 H3 H4] Hn Hid Ht El it c d. split; cbn [sections sectionsPending sectionsActive].
  - now apply report_ok_enter.
  - apply shown_push; [exact H2 | done |]. unfold section_of, shown, it. cbn.
    now rewrite El, !val_make by lia.
  - rewrite H3, pending_of_enter. unfold pending_of. f_equal. symmetry. apply filter_all.
    apply Forall_forall. intros p Hp E. apply list_elem_of_filter in Hp as [_ Hp].
    apply left_at_none in El. apply El, list_elem_of_fmap. eauto.
  - intros id. rewrite active_of_enter by done.
    rewrite emplace_fresh; [destruct (decide (id = en_id e)) as [-> |] |].
    + rewrite El. apply lookup_insert_eq.
    + now rewrite lookup_insert_ne.
    + rewrite H4. unfold active_of. apply category_of_none in Hn. now rewrite Hn, El.
Qed.

(** The server after an entry whose exit it has, at position [i]. *)
Lemma enter_waiting r s e t' i it :
  shows r s -> en_id e ∉ map en_id (entries r) -> 0 < en_id e < 2 ^ 32 -> 0 <= en_time e < 2 ^ 47 ->
  left_at r (en_id e) = Some t' -> shown it = (en_id e, t', StringIdx.none) ->
  filter (fun p => p.1 ∉ map en_id (entries r)) (exits r) !! i = Some (en_id e, t') ->
  let it' := it <| si_start ::= Int48.SetVal (en_time e) |> <| si_text := StringIdx.SetIdx (en_text e) |> in
  let c := en_category e in
  forall d, shows (enter e r) (mkSections (<[c := default [] (sections s !! c) ++ [it']]> (sections s))
    (delete i (sectionsPending s)) (delete (en_id e) (sectionsActive s)) d).
Proof.
  intros [H1 H2 H3 H4] Hn Hid Ht El Hit Hi it' c d. split; cbn [sections sectionsPending sectionsActive].
  - now apply report_ok_enter.
  - apply shown_push; [exact H2 | done |]. unfold section_of, shown, it' in *. cbn.
    injection Hit as Hs He Hx. rewrite El, val_set, He by lia. done.
  - rewrite pending_of_enter. rewrite (filter_delete _ i (en_id e) t'); [| | exact Hi].
    + rewrite !list_fmap_delete, H3. reflexivity.
    + apply NoDup_filter_key. apply H1.
  - intros id. rewrite active_of_enter by done. destruct (decide (id = en_id e)) as [-> |].
    + rewrite El. apply lookup_delete_eq.
    + now rewrite lookup_delete_ne.
Qed.

(** C19: a section that is entered appears at the end of its category, with its
    text, its start, and the end that was already received for it, if one was; no
    assertion fails, and no other section changes. *)
Theorem ProcessSectionEnter_shows (r : report) (e : entry) (dt : Z) (w : W) :
  shows r (secs w) -> en_id e ∉ map en_id (entries r) -> 0 < en_id e < 2 ^ 32 ->
  0 <= en_time e < 2 ^ 47 -> time_of w (sint 64 (m_refTimeThread w + dt)) = Some (en_time e) ->
  m_pendingSingleString w = Some (en_text e) ->
  wp (ProcessSectionEnter (en_id e) dt (en_category e)) (fun _ w' =>
    sections_stepped (enter e r) dt (en_time e) w w' /\ m_pendingSingleString w' = None) w.
Proof.
  intros Hs Hn Hid Ht Htime Htext. unfold ProcessSectionEnter.
  apply (enter_time dt (en_time e)); [exact Htime |]. intros w1 Es He Er El Ep.
  unfold GetSingleStringIdx, enter_pending, push_section, UpdSecs. wp_steps.
  eapply wp_expect; [rewrite Ep; exact Htext |]. wp_steps.
  change (secs (w1 <| m_pendingSingleString := None |>)) with (secs w1). rewrite Es.
  assert (Hact := sh_active _ _ Hs (en_id e)). unfold active_of in Hact.
  apply category_of_none in Hn as Hcat. rewrite Hcat in Hact. rewrite Hact.
  destruct (left_at r (en_id e)) as [t' |] eqn:Eleft.
  - destruct (pending_found r (secs w) (en_id e) t' Hs Hn Eleft) as (i & it & Ef & Ei & Hit & HF).
    wp_steps. set (pend := sectionsPending _).
    assert (Epend : pend = sectionsPending (secs w)) by (unfold pend; cbn; now rewrite Es).
    rewrite Epend. clear pend Epend. eapply wp_expect; [exact Ef |]. wp_steps. eapply wp_expect; [exact Ei |]. wp_steps.
    { unfold shown in Hit. injection Hit as _ _ Hx. now rewrite Hx. }
    split; [| done]. split; [| split; [| split]].
    + cbn. rewrite Es. apply (enter_waiting r (secs w) e t' i it); done.
    + transitivity (erase_sections w1); [erased | exact He].
    + exact Er.
    + exact El.
  - wp_steps. split; [| done]. split; [| split; [| split]].
    + cbn. rewrite Es. now apply (enter_fresh r (secs w) e).
    + transitivity (erase_sections w1); [erased | exact He].
    + exact Er.
    + exact El.
Qed.

(** ** Exits *)
Lemma section_of_leave id t r e :
  id ∉ map fst (exits r) -> en_id e <> id -> section_of (leave id t r) e = section_of r e.
Proof. intros Hn He. unfold section_of. rewrite left_at_leave by done. now rewrite decide_False. Qed.

Lemma active_of_leave id t r id' :
  id ∉ map fst (exits r) -> active_of (leave id t r) id' =
    if decide (id' = id) then match category_of r id with Some _ => None | None => Some 0 end
    else active_of r id'.
Proof.
  intros Hn. unfold active_of. change (category_of (leave id t r) id') with (category_of r id').
  rewrite left_at_leave by done. destruct (decide (id' = id)) as [-> |]; [| done].
  destruct (category_of r id); done.
Qed.

Lemma pending_of_leave id t r :
  pending_of (leave id t r) = pending_of r ++
    (if decide (id ∈ map en_id (entries r)) then [] else [(id, t, StringIdx.none)]).
Proof.
  unfold pending_of. cbn [leave exits entries]. rewrite filter_app, fmap_app. f_equal.
  rewrite filter_cons, filter_nil. cbn [fst].
  destruct (decide (id ∈ map en_id (entries r))); destruct (decide (id ∉ map en_id (entries r))); done.
Qed.

(** The open section [id], at a position of its category. *)
Lemma open_found r s e :
  shows r s -> e ∈ entries r -> left_at r (en_id e) = None ->
  exists l i it, sections s !! en_category e = Some l /\
    find_if (fun it => Int48.Val (si_end it) =? - en_id e) l = Some i /\ l !! i = Some it /\
    shown it = section_of r e /\ filter (fun x => en_category x = en_category e) (entries r) !! i = Some e.
Proof.
  intros Hs He El. set (G := filter (fun x => en_category x = en_category e) (entries r)).
  assert (Hin : e ∈ G) by (apply list_elem_of_filter; done).
  apply list_elem_of_lookup_1 in Hin as [i Ei]. assert (Hp := sh_sections _ _ Hs (en_category e)).
  unfold sections_of in Hp. fold G in Hp.
  destruct (sections s !! en_category e) as [l |] eqn:El'; cbn in Hp.
  2: { assert (E := f_equal length Hp). rewrite length_fmap in E. apply lookup_lt_Some in Ei. cbn in E. lia. }
  assert (Hit : forall j it, l !! j = Some it -> exists x, G !! j = Some x /\ shown it = section_of r x).
  { intros j it Ej. assert (E := f_equal (fun l => l !! j) Hp). rewrite !list_lookup_fmap, Ej in E.
    destruct (G !! j) as [x |]; [| done]. exists x. split; [done |]. exact (f_equal (default (shown it)) E). }
  assert (Hlen := f_equal length Hp). rewrite !length_fmap in Hlen.
  destruct (lookup_lt_is_Some_2 l i) as [it Eit]; [rewrite Hlen; exact (lookup_lt_Some _ _ _ Ei) |].
  destruct (Hit _ _ Eit) as (x & Ex & Hshown). rewrite Ei in Ex. injection Ex as <-.
  exists l, i, it. split; [done |]. split; [| done]. apply (find_if_unique _ _ _ it); [done | |].
  - unfold shown, section_of in Hshown. rewrite El in Hshown. cbn in Hshown. apply Z.eqb_eq. congruence.
  - intros j b Ej Hb. apply Z.eqb_eq in Hb. destruct (Hit _ _ Ej) as (y & Ey & Hy).
    apply (NoDup_key en_id G j i y e); try done; [apply NoDup_filter_key; apply Hs |].
    pose proof (rp_ids _ (sh_ok _ _ Hs)) as Hids. rewrite Forall_forall in Hids.
    specialize (Hids e He) as [Hid _]. unfold shown, section_of in Hy. injection Hy as _ Hend _.
    rewrite Hend in Hb. destruct (left_at r (en_id y)) as [z |] eqn:Ez; cbn in Hb; [| lia].
    apply left_at_in in Ez. pose proof (rp_times _ (sh_ok _ _ Hs)) as Htimes. rewrite Forall_forall in Htimes.
    specialize (Htimes _ Ez). cbn in Htimes. lia.
Qed.

(** The server after the exit of an open section. *)
Lemma leave_open r s e t l i it :
  shows r s -> e ∈ entries r -> left_at r (en_id e) = None -> 0 <= t < 2 ^ 47 ->
  sections s !! en_category e = Some l -> l !! i = Some it -> shown it = section_of r e ->
  filter (fun x => en_category x = en_category e) (entries r) !! i = Some e ->
  shows (leave (en_id e) t r) (mkSections
    (<[en_category e := <[i := it <| si_end ::= Int48.SetVal t |>]> l]> (sections s))
    (sectionsPending s) (delete (en_id e) (sectionsActive s)) (sectionsDescription s)).
Proof.
  intros Hs He El Ht Esec Ei Hit HG. assert (Hn := proj1 (left_at_none _ _) El).
  assert (Hid : 0 < en_id e < 2 ^ 32).
  { pose proof (rp_ids _ (sh_ok _ _ Hs)) as Hids. rewrite Forall_forall in Hids. now apply Hids. }
  split; cbn [sections sectionsPending sectionsActive].
  - apply report_ok_leave; try done. apply Hs.
  - intros c. destruct (decide (c = en_category e)) as [-> | Hc].
    + rewrite lookup_insert_eq. cbn [default from_option Datatypes.id]. rewrite list_fmap_insert.
      assert (Hl := sh_sections _ _ Hs (en_category e)). rewrite Esec in Hl. cbn [default from_option Datatypes.id] in Hl.
      rewrite Hl. unfold sections_of. cbn [leave entries].
      set (G := filter (fun x => en_category x = en_category e) (entries r)) in *.
      apply list_eq. intros j. rewrite list_lookup_fmap. destruct (decide (j = i)) as [-> | Hj].
      * rewrite list_lookup_insert_eq by (rewrite length_fmap; exact (lookup_lt_Some _ _ _ HG)).
        rewrite HG. cbn. unfold section_of at 1. rewrite left_at_leave by done. rewrite decide_True by done.
        unfold shown, section_of in *. injection Hit as Hs' _ Hx. cbn. rewrite val_set by lia. now rewrite Hs', Hx.
      * rewrite list_lookup_insert_ne, list_lookup_fmap by done. destruct (G !! j) as [y |] eqn:Ey; [| done].
        cbn. f_equal. symmetry. apply section_of_leave; [done |]. intros Heq. apply Hj.
        apply (NoDup_key en_id G j i y e); try done. apply NoDup_filter_key. apply Hs.
    + rewrite lookup_insert_ne by done. rewrite (sh_sections _ _ Hs). unfold sections_of. cbn [leave entries].
      apply list_fmap_ext. intros j y Ey. symmetry. apply section_of_leave; [done |]. intros Heq.
      apply list_elem_of_lookup_2, list_elem_of_filter in Ey as [Ecat Hy]. apply Hc. rewrite <- Ecat.
      apply list_elem_of_lookup_1 in He as [n1 E1]. apply list_elem_of_lookup_1 in Hy as [n2 E2].
      assert (n2 = n1) as -> by (apply (NoDup_key en_id (entries r) n2 n1 y e); [apply Hs | ..]; done).
      congruence.
  - rewrite pending_of_leave, decide_True, app_nil_r by (apply list_elem_of_fmap; eauto). apply Hs.
  - intros id. rewrite active_of_leave by done. destruct (decide (id = en_id e)) as [-> |].
    + rewrite lookup_delete_eq. destruct (category_of r (en_id e)) eqn:E; [done |].
      apply category_of_none in E. destruct E. apply list_elem_of_fmap. eauto.
    + rewrite lookup_delete_ne by done. apply Hs.
Qed.

(** The server after an exit whose entry has not been seen. *)
Lemma leave_waiting r s id t d :
  shows r s -> id ∉ map fst (exits r) -> id ∉ map en_id (entries r) -> 0 < id < 2 ^ 32 ->
  0 <= t < 2 ^ 47 ->
  shows (leave id t r) (mkSections (sections s)
    (sectionsPending s ++ [mkSectionItem (Int48.make id) (Int48.make t) StringIdx.none])
    (emplace id 0 (sectionsActive s)) d).
Proof.
  intros Hs Hn Hne Hid Ht. split; cbn [sections sectionsPending sectionsActive].
  - apply report_ok_leave; try done. apply Hs.
  - intros c. rewrite (sh_sections _ _ Hs). unfold sections_of. cbn [leave entries].
    apply list_fmap_ext. intros j y Ey. symmetry. apply section_of_leave; [done |]. intros <-.
    apply list_elem_of_lookup_2, list_elem_of_filter in Ey as [_ Hy]. apply Hne, list_elem_of_fmap. eauto.
  - rewrite fmap_app, (sh_pending _ _ Hs), pending_of_leave, decide_False by done. cbn.
    unfold shown. cbn. now rewrite !val_make by lia.
  - intros id'. rewrite active_of_leave by done. assert (E := sh_active _ _ Hs id).
    apply category_of_none in Hne. apply left_at_none in Hn. unfold active_of in E. rewrite Hne, Hn in E.
    rewrite emplace_fresh by done. destruct (decide (id' = id)) as [-> |].
    + now rewrite lookup_insert_eq, Hne.
    + rewrite lookup_insert_ne by done. apply Hs.
Qed.

(** C20: the exit of a section gives it its end, at once if the section is open,
    and when it is entered otherwise; no assertion fails, and no other section
    changes. *)
Theorem ProcessSectionLeave_shows (r : report) (id t dt : Z) (w : W) :
  shows r (secs w) -> id ∉ map fst (exits r) -> 0 < id < 2 ^ 32 -> 0 <= t < 2 ^ 47 ->
  time_of w (sint 64 (m_refTimeThread w + dt)) = Some t ->
  wp (ProcessSectionLeave id dt) (fun _ w' => sections_stepped (leave id t r) dt t w w') w.
Proof.
  intros Hs Hn Hid Ht Htime. unfold ProcessSectionLeave.
  apply (enter_time dt t); [exact Htime |]. intros w1 Es He Er El _.
  assert (Hdone : forall w', shows (leave id t r) (secs w') -> erase_sections w' = erase_sections w1 ->
    m_refTimeThread w' = m_refTimeThread w1 -> lastTime w' = lastTime w1 ->
    sections_stepped (leave id t r) dt t w w').
  { intros w' H1 H2 H3 H4. split; [done |]. split; [congruence |]. split; congruence. }
  unfold UpdSecs. wp_steps. rewrite Es. assert (Hact := sh_active _ _ Hs id). unfold active_of in Hact.
  apply left_at_none in Hn as Hleft. rewrite Hleft in Hact. rewrite Hact.
  destruct (category_of r id) as [c |] eqn:Ec.
  - apply category_of_in in Ec as (e & Hine & <- & <-).
    destruct (open_found r (secs w) e Hs Hine Hleft) as (l & i & it & Esec & Ef & Ei & Hit & HG).
    wp_steps. eapply wp_expect; [exact Esec |]. wp_steps. eapply wp_expect; [exact Ef |]. wp_steps.
    eapply wp_expect; [exact Ei |]. apply wp_bind, wp_assert.
    { unfold shown, section_of in Hit. rewrite Hleft in Hit. cbn in Hit. injection Hit as _ Hend _.
      apply Z.ltb_lt. lia. }
    apply wp_modify. apply Hdone; try done.
    cbn. rewrite Es. apply (leave_open r (secs w) e t l i it); done.
  - apply category_of_none in Ec. wp_steps. apply Hdone; try done.
    cbn. rewrite Es. now apply (leave_waiting r (secs w) id t).
Qed.

(** ** A program with one section, whose exit arrives first *)
Definition no_report : report := mkReport [] [].

Lemma shows_new mul ib ie sp od ign fr : shows no_report (secs (Worker mul ib ie sp od ign fr)).
Proof.
  split; try done. split; constructor.
Qed.

Definition demo_section_server : W := Worker (double_of_Z 1) 1000 0 100 false false [0; 0].
Lemma ProcessSectionLeave_shows_witness :
  wp (ProcessSectionLeave 1 1009) (fun _ w' =>
    sections_stepped (leave 1 9 no_report) 1009 9 demo_section_server w') demo_section_server.
Proof.
  apply (ProcessSectionLeave_shows no_report 1 9 1009 demo_section_server).
  - apply shows_new.
  - apply not_elem_of_nil.
  - lia.
  - lia.
  - vm_compute. reflexivity.
Defined.

Definition demo_left_server : W :=
  demo_section_server <| secs := mkSections ∅ [mkSectionItem 1 9 0] {[1 := 0]} ∅ |>
    <| m_pendingSingleString := Some 5 |>.

Lemma demo_left_shows : shows (leave 1 9 no_report) (secs demo_left_server).
Proof.
  assert (H := leave_waiting no_report (secs demo_section_server) 1 9 ∅ (shows_new _ _ _ _ _ _ _)).
  apply H; [apply not_elem_of_nil | apply not_elem_of_nil | lia | lia].
Qed.

Lemma ProcessSectionEnter_shows_witness :
  wp (ProcessSectionEnter 1 1004 3) (fun _ w' =>
    shown <$> default [] (sections (secs w') !! 3) = [(4, 9, StringIdx.SetIdx 5)]) demo_left_server.
Proof.
  eapply wp_mono; [apply (ProcessSectionEnter_shows (leave 1 9 no_report) (mkEntry 1 3 4 5) 1004
    demo_left_server demo_left_shows) |].
  - apply not_elem_of_nil.
  - cbn. lia.
  - cbn. lia.
  - vm_compute. reflexivity.
  - reflexivity.
  - intros [] w' [[H _] _]. rewrite (sh_sections _ _ H). vm_compute. reflexivity.
Defined.
