(* ===== verification/ServerPlot.v ===== *)
(** * Plots: the handlers of plotted values

    A plot is a sequence of points with the least, the greatest and the sum of the
    values.  Plots are named by pointers into the client; what is plotted under a
    pointer whose string turns out to name an existing plot is added to that plot. *)
From S2P Require Import Prelude Double Queue Event Containers Discovery Trace Server ServerMem ServerFrame.

(* TracyWorker.cpp:4263-4279 InsertPlot *)
Definition inserted (time : Z) (val : double) (d : PlotData) : PlotData :=
  match SortedVector.v (pl_data d) with
  | [] => plot_push time val (d <| pl_min := val |> <| pl_max := val |> <| pl_sum := val |>)
  | _ =>
      let d := if dltb val (pl_min d) then d <| pl_min := val |>
               else if dltb (pl_max d) val then d <| pl_max := val |> else d in
      plot_push time val (d <| pl_sum ::= fun s => dadd s val |>)
  end.
(* TracyWorker.cpp:4263-4279 *)
Definition InsertPlot (plot : nat) (time : Z) (val : double) : M W unit :=
  d ← GetPlot plot; SetPlot plot (inserted time val d).

Definition QueryPlotName (name : Z) : M W unit := Query ServerQueryPlotName name 0.
(** The numbers of a new plot are set by its first value. *)
Definition NewPlot (d : PlotData) : M W nat :=
  h ← gets plot_heap; modify (fun w => w <| plot_heap ::= (fun h => h ++ [d]) |>);; mret (length h).
Definition new_PlotData (name : Z) (fill : Z) : PlotData :=
  mkPlotData name (S754_zero false) (S754_zero false) (S754_zero false) SortedVector.empty PlotUser 0
    0 fill 0.

(* TracyWorker.cpp:5786-5804 *)
Definition ProcessPlotDataImpl (name evTime : Z) (val : double) : M W unit :=
  p ← StringDiscovery.Retrieve plots name
        (p ← NewPlot (new_PlotData name 1); mret (Some p)) (QueryPlotName name);
  plot ← deref p;
  ref ← RefTime m_refTimeThread evTime;
  time ← TscTime ref;
  touch_lastTime time;;
  InsertPlot plot time val.
(* TracyWorker.cpp:5769-5772 *)
Definition ProcessPlotDataInt (name time val : Z) : M W unit :=
  ProcessPlotDataImpl name time (double_of_Z val).
(** The value is given by its bits. *)
(* TracyWorker.cpp:5774-5778 *)
Definition ProcessPlotDataFloat (name time val : Z) : M W unit :=
  if negb (isfinite (float_of_bits val)) then mret tt
  else ProcessPlotDataImpl name time (float_of_bits val).
(* TracyWorker.cpp:5780-5784 *)
Definition ProcessPlotDataDouble (name time val : Z) : M W unit :=
  if negb (isfinite (double_of_bits val)) then mret tt
  else ProcessPlotDataImpl name time (double_of_bits val).

(* TracyWorker.cpp:5806-5821 *)
Definition ProcessPlotConfig (name type step fill color : Z) : M W unit :=
  p ← StringDiscovery.Retrieve plots name
        (p ← NewPlot (new_PlotData name 0); mret (Some p)) (QueryPlotName name);
  plot ← deref p;
  d ← GetPlot plot;
  SetPlot plot (d <| pl_format := type |> <| pl_showSteps := step |>
                  <| pl_fill := fill |> <| pl_color := Z.land color 0xFFFFFF |>).

(** The points of [src] are added to [dst] one by one. *)
(* TracyWorker.cpp:4284-4289 HandlePlotName *)
Definition merge_plots (dst src : nat) : M W unit :=
  s ← GetPlot src;
  for_each (SortedVector.v (pl_data s)) (fun v => InsertPlot dst (Int48.Val (pi_time v)) (pi_val v)).
(* TracyWorker.cpp:4281-4290 *)
Definition HandlePlotName (name : Z) (str : list Z) : M W unit := discover plots name str merge_plots.
