(* ===== verification/PlotSpec.v ===== *)
(** * Plots: extremes, merging and rejected values *)
From S2P Require Import Prelude Double Exact Queue Event Containers Discovery Trace Server ServerSpec ServerMem MemSpec ServerFrame ServerPlot.

(** ** Plots *)

(** The values of a plot are finite, and its extremes are the least and the greatest
    of them. *)
Definition values (d : PlotData) : list double := map pi_val (SortedVector.v (pl_data d)).
Record plot_ok (d : PlotData) : Prop := {
  po_finite : Forall (fun x => isfinite x = true) (values d);
  po_min : values d <> [] -> pl_min d ∈ values d /\ Forall (fun x => not_above (pl_min d) x) (values d);
  po_max : values d <> [] -> pl_max d ∈ values d /\ Forall (fun x => not_above x (pl_max d)) (values d);
  po_order : SortedVector.ok PlotItemSort (pl_data d) }.

Lemma PlotItemSort_order : WeakOrder PlotItemSort.
Proof.
  split; unfold PlotItemSort; intros.
  - apply Z.ltb_ge in H, H0. apply Z.ltb_ge. lia.
  - apply Z.ltb_lt in H. apply Z.ltb_ge. lia.
Qed.
#[export] Existing Instance PlotItemSort_order.

Lemma push_points time val d :
  SortedVector.v (pl_data (plot_push time val d)) =
    SortedVector.v (pl_data d) ++ [mkPlotItem (Int48.make time) val].
Proof. reflexivity. Qed.

(** What an insertion does to the points, the sum and the extremes. *)
Lemma inserted_points time val d :
  SortedVector.v (pl_data (inserted time val d)) =
    SortedVector.v (pl_data d) ++ [mkPlotItem (Int48.make time) val].
Proof.
  unfold inserted. destruct (SortedVector.v (pl_data d)) eqn:E; rewrite push_points; cbn; [now rewrite E |].
  destruct (dltb val (pl_min d)), (dltb (pl_max d) val); cbn; now rewrite E.
Qed.

Lemma inserted_sum time val d :
  pl_sum (inserted time val d) =
    match values d with [] => val | _ => dadd (pl_sum d) val end.
Proof.
  unfold inserted, values. destruct (SortedVector.v (pl_data d)); [done |]. cbn.
  now destruct (dltb val (pl_min d)), (dltb (pl_max d) val).
Qed.

Lemma inserted_extremes time val d x xs :
  values d = x :: xs ->
  pl_min (inserted time val d) = (if dltb val (pl_min d) then val else pl_min d) /\
  pl_max (inserted time val d) =
    (if dltb val (pl_min d) then pl_max d else if dltb (pl_max d) val then val else pl_max d).
Proof.
  unfold inserted, values. destruct (SortedVector.v (pl_data d)); [done |]. intros _. cbn.
  now destruct (dltb val (pl_min d)), (dltb (pl_max d) val).
Qed.

Lemma finite_in vs x : Forall (fun x => isfinite x = true) vs -> x ∈ vs -> is_number x = true.
Proof. rewrite Forall_forall. intros H Hx. apply isfinite_number. exact (H x Hx). Qed.

(** A new least value need not be compared with the greatest one. *)
Lemma inserted_ok time val d :
  plot_ok d -> isfinite val = true -> plot_ok (inserted time val d).
Proof.
  intros [Hf Hmin Hmax Ho] Hv. assert (Hnum := isfinite_number _ Hv).
  assert (Evs : values (inserted time val d) = values d ++ [val])
    by (unfold values; rewrite inserted_points, map_app; done).
  assert (Hord : SortedVector.ok PlotItemSort (pl_data (inserted time val d))).
  { unfold inserted, plot_push. destruct (SortedVector.v (pl_data d));
      [| destruct (dltb val (pl_min d)), (dltb (pl_max d) val)]; apply (SortedVector.push_back_ok PlotItemSort), Ho. }
  destruct (values d) as [| x xs] eqn:Ed.
  - assert (Enew : pl_min (inserted time val d) = val /\ pl_max (inserted time val d) = val).
    { unfold inserted, values in *. destruct (SortedVector.v (pl_data d)); done. }
    destruct Enew as [Emin Emax]. split; rewrite ?Evs, ?Emin, ?Emax; cbn; try done.
    + now constructor.
    + intros _. split; [apply list_elem_of_singleton; done |]. repeat constructor. now apply not_above_refl.
    + intros _. split; [apply list_elem_of_singleton; done |]. repeat constructor. now apply not_above_refl.
  - destruct (inserted_extremes time val d x xs Ed) as [Emin Emax].
    destruct (Hmin ltac:(done)) as [Hmi Hml]. destruct (Hmax ltac:(done)) as [Hmxi Hmxl].
    rewrite <- Ed in *. assert (Nmin := finite_in _ _ Hf Hmi). assert (Nmax := finite_in _ _ Hf Hmxi).
    assert (Hmm : not_above (pl_min d) (pl_max d)) by (rewrite Forall_forall in Hml; auto).
    split; rewrite ?Evs; try done.
    + apply Forall_snoc. done.
    + intros _. rewrite Emin. destruct (dltb val (pl_min d)) eqn:El.
      * split; [apply elem_of_app; right; now apply list_elem_of_singleton |].
        apply Forall_snoc. split; [| now apply not_above_refl].
        rewrite Forall_forall in *. intros y Hy.
        apply (not_above_trans _ (pl_min d)); auto using dltb_not_above, isfinite_number.
      * split; [apply elem_of_app; auto |]. now apply Forall_snoc.
    + intros _. rewrite Emax. destruct (dltb val (pl_min d)) eqn:El; [| destruct (dltb (pl_max d) val) eqn:Eg].
      * split; [apply elem_of_app; auto |]. apply Forall_snoc. split; [done |].
        apply (not_above_trans _ (pl_min d)); auto using dltb_not_above.
      * split; [apply elem_of_app; right; now apply list_elem_of_singleton |].
        apply Forall_snoc. split; [| now apply not_above_refl].
        rewrite Forall_forall in *. intros y Hy.
        apply (not_above_trans _ (pl_max d)); auto using dltb_not_above, isfinite_number.
      * split; [apply elem_of_app; auto |]. now apply Forall_snoc.
Qed.

(** ** A value is plotted *)
Definition plot_named (w : W) (name : Z) : option nat := StringDiscovery.item (plots w) name.
(** The points of a plot, as the accessors show them. *)
Definition points (d : PlotData) : list (Z * double) :=
  map (fun v => (Int48.Val (pi_time v), pi_val v)) (SortedVector.v (pl_data d)).
Definition points_of (w : W) (name : Z) : list (Z * double) :=
  match p ← plot_named w name; plot_heap w !! p with Some d => points d | None => [] end.

(** Every plot that has a name is in order, and its extremes are right. *)
Definition named_ok (w : W) : Prop :=
  forall name p, plot_named w name = Some p -> exists d, plot_heap w !! p = Some d /\ plot_ok d.

(** The names do not lead to the same plot. *)
Definition separate (w : W) (name name' : Z) : Prop :=
  forall p, plot_named w name = Some p -> plot_named w name' <> Some p.

Definition erase_plotted (w : W) : W :=
  w <| plot_heap := [] |> <| plots := StringDiscovery.empty |> <| m_refTimeThread := 0 |>
    <| lastTime := 0 |> <| m_serverQueryQueuePrio := [] |>.

Lemma GetPlot_wp p d w (Q : PlotData -> W -> Prop) :
  plot_heap w !! p = Some d -> Q d w -> wp (GetPlot p) Q w.
Proof. intros E HQ. unfold GetPlot. wp_steps. eapply wp_expect; [exact E | exact HQ]. Qed.

Definition with_plot (p : nat) (d : PlotData) (w : W) : W := w <| plot_heap ::= <[p := d]> |>.

Lemma InsertPlot_wp p d time val w (Q : unit -> W -> Prop) :
  plot_heap w !! p = Some d -> Q tt (with_plot p (inserted time val d) w) -> wp (InsertPlot p time val) Q w.
Proof. intros E HQ. unfold InsertPlot, SetPlot. apply wp_bind, (GetPlot_wp p d); [done |]. wp_steps. exact HQ. Qed.

Lemma points_inserted time val d : - 2 ^ 47 <= time < 2 ^ 47 ->
  points (inserted time val d) = points d ++ [(time, val)].
Proof.
  intros Ht. unfold points. rewrite inserted_points, map_app. cbn. do 3 f_equal.
  unfold Int48.make. rewrite Int48.Val48_SetVal. apply sint_small; [lia | red; lia].
Qed.

Lemma named_ok_insert w p d name :
  named_ok w -> plot_named w name = Some p -> plot_ok d ->
  named_ok (with_plot p d w).
Proof.
  intros H Ep Hd name' q Eq. destruct (H name p Ep) as (d0 & E0 & _).
  change (plot_named (with_plot p d w) name') with (plot_named w name') in Eq. cbn.
  destruct (decide (q = p)) as [-> | Hne].
  - exists d. rewrite list_lookup_insert_eq by (exact (lookup_lt_Some _ _ _ E0)). done.
  - rewrite list_lookup_insert_ne by done. exact (H _ _ Eq).
Qed.

Lemma new_plot_ok name fill : plot_ok (new_PlotData name fill).
Proof. split; try done; constructor. Qed.

(** The plot of [name] is found, or is new and empty. *)
Lemma retrieve_plot name fill w (Q : option nat -> W -> Prop) :
  named_ok w ->
  (forall p d w1, named_ok w1 -> plot_named w1 name = Some p -> plot_heap w1 !! p = Some d ->
     plot_ok d -> erase_plotted w1 = erase_plotted w ->
     m_refTimeThread w1 = m_refTimeThread w -> lastTime w1 = lastTime w ->
     (forall name', points_of w1 name' = points_of w name') ->
     (forall name', name' <> name -> separate w name name' -> plot_named w1 name' <> Some p) ->
     Q (Some p) w1) ->
  wp (StringDiscovery.Retrieve plots name
        (p ← NewPlot (new_PlotData name fill); mret (Some p)) (QueryPlotName name)) Q w.
Proof.
  intros Hok HQ. apply StringDiscovery.Retrieve_wp. fold (plot_named w name).
  destruct (plot_named w name) as [p |] eqn:Ep.
  - destruct (Hok name p Ep) as (d & Ed & Hd). apply (HQ p d w); try done.
    intros name' _ Hs. exact (Hs p Ep).
  - unfold NewPlot, QueryPlotName. wp_steps. apply Query_prio_wp; [done |].
    set (n := length (plot_heap w)). name_state w1.
    assert (Hname : forall name', plot_named w1 name' = if decide (name' = name) then Some n else plot_named w name')
      by (intros name'; exact (item_pending _ name n name' Ep)).
    assert (Hlt : forall name' p, plot_named w name' = Some p -> (p < n)%nat).
    { intros name' p E. destruct (Hok name' p E) as (d & Ed & _). exact (lookup_lt_Some _ _ _ Ed). }
    apply (HQ n (new_PlotData name fill) w1); try done.
    + intros name' p. rewrite Hname. cbn.
      destruct (decide (name' = name)); intros E.
      * injection E as <-. exists (new_PlotData name fill). split; [now apply list_lookup_middle |].
        apply new_plot_ok.
      * destruct (Hok name' p E) as (d & Ed & Hd). exists d. split; [now apply lookup_app_l_Some | done].
    + exact (eq_trans (Hname name) (decide_True _ _ eq_refl)).
    + now apply list_lookup_middle.
    + apply new_plot_ok.
    + intros name'. unfold points_of. rewrite Hname.
      destruct (decide (name' = name)) as [-> | Hne].
      * rewrite Ep. cbn.
        assert (E : (plot_heap w ++ [new_PlotData name fill]) !! n = Some (new_PlotData name fill))
          by now apply list_lookup_middle.
        now rewrite E.
      * destruct (plot_named w name') as [p |] eqn:E; [| done]. cbn.
        now rewrite lookup_app_l by exact (Hlt _ _ E).
    + intros name' Hne _. rewrite Hname, decide_False by done. intros E. specialize (Hlt _ _ E). lia.
Qed.

(** The steps of [ProcessPlotDataImpl] for a number that can be plotted. *)
Lemma ProcessPlotDataImpl_spec (name dt t : Z) (val : double) (w : W) :
  named_ok w -> isfinite val = true ->
  time_of w (sint 64 (m_refTimeThread w + dt)) = Some t -> - 2 ^ 47 <= t < 2 ^ 47 ->
  wp (ProcessPlotDataImpl name dt val) (fun _ w' =>
    named_ok w' /\ points_of w' name = points_of w name ++ [(t, val)] /\
    (forall name', name' <> name -> separate w name name' -> points_of w' name' = points_of w name') /\
    erase_plotted w' = erase_plotted w /\ lastTime w' = Z.max (lastTime w) t /\
    m_refTimeThread w' = sint 64 (m_refTimeThread w + dt)) w.
Proof.
  intros Hok Hv Ht Hr. unfold ProcessPlotDataImpl, deref. apply wp_bind.
  apply retrieve_plot; [done |]. intros p d w1 Hok1 Ep Ed Hd He Eref El Epts Hsep.
  unfold RefTime, touch_lastTime. wp_steps. eapply wp_expect; [done |]. wp_steps. rewrite Eref.
  eapply TscTime_wp.
  { rewrite <- Ht. change (time_of (erase_plotted w1) (sint 64 (m_refTimeThread w + dt)) =
      time_of (erase_plotted w) (sint 64 (m_refTimeThread w + dt))). now rewrite He. }
  wp_steps. set (w2 := over lastTime _ _). apply (InsertPlot_wp p d); [exact Ed |].
  assert (Hok2 : named_ok (with_plot p (inserted t val d) w2)).
  { apply (named_ok_insert w2 p _ name); [exact Hok1 | exact Ep |]. now apply inserted_ok. }
  split; [exact Hok2 |]. split; [| split; [| split; [| split; [| reflexivity]]]].
  - unfold points_of. change (plot_named (with_plot p (inserted t val d) w2) name) with (plot_named w1 name).
    rewrite Ep. cbn. rewrite list_lookup_insert_eq by (exact (lookup_lt_Some _ _ _ Ed)).
    rewrite points_inserted by done. f_equal. specialize (Epts name). unfold points_of in Epts at 1.
    rewrite Ep in Epts. cbn in Epts. now rewrite Ed in Epts.
  - intros name' Hne Hs. specialize (Hsep name' Hne Hs). rewrite <- Epts. unfold points_of.
    change (plot_named (with_plot p (inserted t val d) w2) name') with (plot_named w1 name').
    destruct (plot_named w1 name') as [q |]; [| done]. cbn.
    now rewrite list_lookup_insert_ne by congruence.
  - transitivity (erase_plotted w1); [erased | exact He].
  - cbn. rewrite El. destruct (Z.ltb_spec (lastTime w) t); lia.
Qed.

(** A value that is not finite is dropped, and its time with it: the reference stays
    where it was. *)
Lemma ProcessPlotDataDouble_drops name dt val w :
  isfinite (double_of_bits val) = false -> ProcessPlotDataDouble name dt val w = Some (tt, w).
Proof. intros H. unfold ProcessPlotDataDouble. now rewrite H. Qed.
Lemma ProcessPlotDataFloat_drops name dt val w :
  isfinite (float_of_bits val) = false -> ProcessPlotDataFloat name dt val w = Some (tt, w).
Proof. intros H. unfold ProcessPlotDataFloat. now rewrite H. Qed.

(** A plotted value: an integer, or the bits of a float or of a double. *)
Inductive plotted_value : Set :=
  | PlotInt (v : Z)
  | PlotFloat (bits : Z)
  | PlotDouble (bits : Z).
Definition process_plot (name dt : Z) (v : plotted_value) : M W unit :=
  match v with
  | PlotInt v => ProcessPlotDataInt name dt v
  | PlotFloat b => ProcessPlotDataFloat name dt b
  | PlotDouble b => ProcessPlotDataDouble name dt b
  end.
(** The number that is plotted: infinities and NaNs are not. *)
Definition number_of (v : plotted_value) : option double :=
  let finite d := match d with S754_infinity _ | S754_nan => None | _ => Some d end in
  match v with
  | PlotInt z => Some (double_of_Z z)
  | PlotFloat b => finite (float_of_bits b)
  | PlotDouble b => finite (double_of_bits b)
  end.
Definition value_ok (v : plotted_value) : Prop :=
  match v with PlotInt z => in_sint 64 z | PlotFloat b => in_uint 32 b | PlotDouble b => in_uint 64 b end.

Lemma process_plot_eq name dt v : value_ok v ->
  match number_of v with
  | Some x => isfinite x = true /\ process_plot name dt v = ProcessPlotDataImpl name dt x
  | None => process_plot name dt v = mret tt
  end.
Proof.
  destruct v as [z | b | b]; cbn; intros Hv.
  - split; [now apply isfinite_int | done].
  - unfold ProcessPlotDataFloat. now destruct (float_of_bits b).
  - unfold ProcessPlotDataDouble. now destruct (double_of_bits b).
Qed.

(** C37: a plotted value, an integer of 64 bits or a finite float or double, is
    the last point of its plot as the double of this value; the plot is created if
    it is the first one, no assertion fails, and the extremes of each plot are its
    least and greatest value still.  A value that is infinite or not a number changes
    nothing, and its time is lost with it: the time reference stays where it was. *)
Theorem ProcessPlotData_inserts (name dt t : Z) (v : plotted_value) (w : W) :
  named_ok w -> value_ok v ->
  time_of w (sint 64 (m_refTimeThread w + dt)) = Some t -> - 2 ^ 47 <= t < 2 ^ 47 ->
  wp (process_plot name dt v) (fun _ w' =>
    match number_of v with
    | Some x => named_ok w' /\ points_of w' name = points_of w name ++ [(t, x)] /\
        (forall name', name' <> name -> separate w name name' -> points_of w' name' = points_of w name') /\
        erase_plotted w' = erase_plotted w /\ lastTime w' = Z.max (lastTime w) t /\
        m_refTimeThread w' = sint 64 (m_refTimeThread w + dt)
    | None => w' = w
    end) w.
Proof.
  intros Hok Hv Ht Hr. pose proof (process_plot_eq name dt v Hv) as He.
  destruct (number_of v) as [x |]; [destruct He as [Hx ->] | rewrite He; wp_steps; done].
  now apply ProcessPlotDataImpl_spec.
Qed.

(** ** A plot gets its name *)
Definition erase_strings (w : W) : W :=
  w <| stringMap := ∅ |> <| stringData := [] |> <| strings := ∅ |>.

Lemma StoreString_spec str w :
  wp (StoreString str) (fun _ w' => erase_strings w' = erase_strings w) w.
Proof.
  unfold StoreString. wp_steps. destruct (stringMap w !! str); wp_steps; [done |]. erased.
Qed.

(** The points [vs] are inserted into the plot [d]. *)
Definition insert_all (vs : list PlotItem) (d : PlotData) : PlotData :=
  fold_left (fun d v => inserted (Int48.Val (pi_time v)) (pi_val v) d) vs d.

Lemma insert_loop p vs : forall d w (Q : unit -> W -> Prop),
  plot_heap w !! p = Some d -> Q tt (with_plot p (insert_all vs d) w) ->
  wp (for_each vs (fun v => InsertPlot p (Int48.Val (pi_time v)) (pi_val v))) Q w.
Proof.
  induction vs as [| v vs IH]; intros d w Q Ed HQ; cbn [for_each].
  - wp_steps. unfold insert_all, with_plot in HQ. cbn in HQ.
    replace w with (w <| plot_heap ::= <[p := d]> |>); [exact HQ |].
    unfold over. rewrite list_insert_id by done. now destruct w.
  - apply wp_bind. apply (InsertPlot_wp p d); [done |].
    apply (IH (inserted (Int48.Val (pi_time v)) (pi_val v) d)).
    + cbn. apply list_lookup_insert_eq. exact (lookup_lt_Some _ _ _ Ed).
    + unfold with_plot in *. unfold insert_all in *. cbn [fold_left] in HQ.
      unfold over in *. cbn. rewrite list_insert_insert_eq. exact HQ.
Qed.

Lemma val_range m : - 2 ^ 47 <= Int48.Val m < 2 ^ 47.
Proof. rewrite Int48.Val48_bits. apply (sint_range 48). lia. Qed.

Lemma insert_all_spec vs : forall d,
  plot_ok d -> Forall (fun v => isfinite (pi_val v) = true) vs ->
  plot_ok (insert_all vs d) /\
  points (insert_all vs d) = points d ++ map (fun v => (Int48.Val (pi_time v), pi_val v)) vs.
Proof.
  induction vs as [| v vs IH]; intros d Hd Hf; cbn.
  - now rewrite app_nil_r.
  - inversion_clear Hf as [| ? ? Hv Hvs].
    destruct (IH (inserted (Int48.Val (pi_time v)) (pi_val v) d)) as [H1 H2];
      [now apply inserted_ok | done |].
    split; [exact H1 |]. unfold insert_all in H2. rewrite H2, points_inserted by apply val_range.
    now rewrite <- app_assoc.
Qed.

(** C13: when the string of a plot's name arrives, the points recorded under
    the name belong to the plot of that string: to the plot of the same string that
    was known under another name, after its own points, or else to the plot itself,
    which is listed now. Every other name leads to the plot it led to, and the points
    under it change only if it is a name of the same string; names of the same string
    lead to the same plot, and the plots of all names are in order. *)
Theorem HandlePlotName_merges (known : gmap Z (list Z)) (external : list nat) (name : Z)
    (str : list Z) (i : nat) (w : W) :
  disc_ok known external (plots w) -> StringDiscovery.m_pending (plots w) !! name = Some i ->
  named_ok w ->
  wp (HandlePlotName name str) (fun _ w' =>
    disc_ok (<[name := str]> known) external (plots w') /\ named_ok w' /\
    (forall n, n <> name -> plot_named w' n = plot_named w n) /\
    (forall n, n <> name -> known !! n <> Some str -> points_of w' n = points_of w n) /\
    (forall n, known !! n = Some str -> plot_named w' n = plot_named w' name) /\
    exists d, plot_heap w !! i = Some d /\
    match StringDiscovery.m_rev (plots w) !! str with
    | Some j => plot_named w' name = Some j /\
        StringDiscovery.Data (plots w') = StringDiscovery.Data (plots w) /\
        exists e, plot_heap w !! j = Some e /\ points_of w' name = points e ++ points d
    | None => plot_named w' name = Some i /\
        StringDiscovery.Data (plots w') = StringDiscovery.Data (plots w) ++ [i] /\
        points_of w' name = points d
    end) w.
Proof.
  intros Hd Hi Hok. unfold HandlePlotName, discover. apply wp_bind.
  eapply wp_mono; [apply StoreString_spec |]. intros sl w1 He.
  assert (E1 : plots w1 = plots w) by frame He plots.
  assert (E2 : plot_heap w1 = plot_heap w) by frame He plot_heap.
  destruct (StringDiscovered_spec known external name str i (plots w) Hd Hi)
    as (d' & merge & Edisc & Hd' & Emap & Hcase & Hsame).
  assert (Hitems : forall n p, StringDiscovery.item d' n = Some p -> exists q, plot_heap w !! p = Some q /\ plot_ok q).
  { intros n p Ep. destruct (StringDiscovered_items _ _ _ _ _ _ _ _ _ Hd Edisc Ep) as [n' E].
    exact (Hok n' p E). }
  assert (Hothers : forall n, n <> name -> StringDiscovery.item d' n = plot_named w n)
    by (intros n Hn; exact (StringDiscovered_names _ _ _ _ _ _ _ _ Hd Edisc Hn)).
  assert (Hstr : forall n, known !! n = Some str -> StringDiscovery.item d' n = StringDiscovery.item d' name).
  { intros n En. destruct (Hsame n name str En (lookup_insert_eq _ _ _)) as [E _].
    destruct (do_known _ _ _ Hd n str En) as [k Ek]. assert (Hk := do_map _ _ _ Hd n).
    rewrite En in Hk. cbn in Hk. destruct (Hsame n n str En) as [_ E'].
    { rewrite lookup_insert_ne; [done |]. intros <-.
      rewrite (do_pending _ _ _ Hd name ltac:(eauto)) in En. discriminate. }
    unfold StringDiscovery.item. rewrite <- E, E', Hk, Ek. done. }
  assert (Hpend : exists d, plot_heap w !! i = Some d /\ plot_ok d).
  { apply (Hok name). unfold plot_named, StringDiscovery.item.
    rewrite (do_map _ _ _ Hd), (do_pending _ _ _ Hd name ltac:(eauto)). exact Hi. }
  destruct Hpend as (d & Ed & Hdok). wp_steps. rewrite E1. eapply wp_expect; [exact Edisc |]. cbn [fst snd].
  assert (Hname : forall j, StringDiscovery.m_rev d' !! str = Some j -> StringDiscovery.item d' name = Some j).
  { intros j Ej. unfold StringDiscovery.item. now rewrite Emap, Ej. }
  destruct (StringDiscovery.m_rev (plots w) !! str) as [j |] eqn:Ej.
  - destruct Hcase as (-> & Hne & Erev & Edata). rewrite Erev, Ej in Hname. specialize (Hname j eq_refl).
    destruct (Hitems name j Hname) as (e & Ee & Heok). unfold merge_plots.
    apply wp_bind, wp_bind, (GetPlot_wp i d); [now rewrite E2 |].
    apply (insert_loop j (SortedVector.v (pl_data d)) e); [now rewrite E2 |]. wp_steps.
    assert (Hfin : Forall (fun v => isfinite (pi_val v) = true) (SortedVector.v (pl_data d))).
    { assert (H := po_finite _ Hdok). unfold values in H. now rewrite Forall_map in H. }
    destruct (insert_all_spec (SortedVector.v (pl_data d)) e Heok Hfin) as [Hall Hpts].
    assert (Ejn : <[j := insert_all (SortedVector.v (pl_data d)) e]> (plot_heap w1) !! j =
      Some (insert_all (SortedVector.v (pl_data d)) e)).
    { apply list_lookup_insert_eq. rewrite E2. exact (lookup_lt_Some _ _ _ Ee). }
    split; [exact Hd' |]. split_and!.
    + intros n p Ep. destruct (Hitems n p Ep) as (q & Eq & Hq). cbn.
      destruct (decide (p = j)) as [-> |]; [eauto |]. rewrite list_lookup_insert_ne, E2 by done. eauto.
    + exact Hothers.
    + intros n Hn Hns. unfold points_of. change (plot_named _ n) with (StringDiscovery.item d' n) at 1.
      rewrite Hothers by done. destruct (plot_named w n) as [p |] eqn:Ep; [| done]. cbn.
      rewrite list_lookup_insert_ne, E2; [done |].
      apply not_eq_sym. exact (item_other _ _ _ _ _ _ _ Hd Ej Ep Hns).
    + exact Hstr.
    + exists d. split; [done |]. split; [exact Hname |]. split; [exact Edata |]. exists e. split; [done |]. unfold points_of, plot_named. cbn.
      rewrite Hname. cbn. now rewrite Ejn, Hpts.
  - destruct Hcase as (-> & Erev & Edata). specialize (Hname i Erev). wp_steps.
    split; [exact Hd' |]. split_and!.
    + intros n p Ep. cbn. rewrite E2. exact (Hitems n p Ep).
    + exact Hothers.
    + intros n Hn _. unfold points_of. change (plot_named _ n) with (StringDiscovery.item d' n) at 1.
      rewrite Hothers by done. cbn. now rewrite E2.
    + exact Hstr.
    + exists d. split; [done |]. split; [exact Hname |]. split; [exact Edata |]. unfold points_of, plot_named. cbn. rewrite Hname. cbn. now rewrite E2, Ed.
Qed.

(** ** Witnesses *)
Definition demo_plot_server : W := Worker (double_of_Z 1) 1000 0 100 false false [0; 0].
Lemma demo_named_ok : named_ok demo_plot_server.
Proof. intros name p E. discriminate E. Qed.

Lemma ProcessPlotData_inserts_witness :
  wp (process_plot 7 1005 (PlotInt 3)) (fun _ w' =>
    points_of w' 7 = [(5, double_of_Z 3)]) demo_plot_server.
Proof.
  eapply wp_mono; [apply (ProcessPlotData_inserts 7 1005 5 (PlotInt 3) demo_plot_server demo_named_ok) |].
  - red. cbn. red. lia.
  - vm_compute. reflexivity.
  - lia.
  - intros [] w' H. exact (proj1 (proj2 H)).
Defined.

(** Two plots recorded under the names 7, known as "A", and 8, not known yet. *)
Definition demo_point (t v : Z) : PlotData :=
  inserted t (double_of_Z v) (new_PlotData 7 1).
Definition demo_named_server : W :=
  demo_plot_server <| plot_heap := [demo_point 5 3; demo_point 6 9] |>
    <| plots := StringDiscovery.mk [0%nat] {[8 := 1%nat]} {[7 := 0%nat]} {[[65] := 0%nat]} |>.

Lemma demo_disc_ok : disc_ok {[7 := [65]]} [] (plots demo_named_server).
Proof.
  split; cbn.
  - intros name. destruct (decide (name = 7)) as [-> |]; [reflexivity |].
    rewrite !lookup_singleton_ne by done. done.
  - intros name s [<- <-]%lookup_singleton_Some. eauto.
  - intros s i [<- <-]%lookup_singleton_Some. exists 7. reflexivity.
  - intros name [i [<- <-]%lookup_singleton_Some]. reflexivity.
  - rewrite map_to_list_singleton. reflexivity.
  - rewrite map_to_list_singleton. cbn. repeat constructor; set_solver.
Qed.

Lemma demo_named_plots : named_ok demo_named_server.
Proof.
  assert (H : forall t v, isfinite (double_of_Z v) = true -> plot_ok (demo_point t v))
    by (intros; apply inserted_ok; [apply new_plot_ok | done]).
  intros name p E. unfold plot_named, StringDiscovery.item in E. cbn in E.
  destruct (decide (name = 7)) as [-> |].
  - rewrite lookup_singleton_eq in E. injection E as <-. eexists. split; [reflexivity |].
    apply H. vm_compute. reflexivity.
  - rewrite lookup_singleton_ne in E by done. apply lookup_singleton_Some in E as [<- <-].
    eexists. split; [reflexivity |]. apply H. vm_compute. reflexivity.
Qed.

Lemma HandlePlotName_merges_witness :
  wp (HandlePlotName 8 [65]) (fun _ w' =>
    points_of w' 8 = [(5, double_of_Z 3); (6, double_of_Z 9)]) demo_named_server.
Proof.
  eapply wp_mono; [apply (HandlePlotName_merges {[7 := [65]]} [] 8 [65] 1 demo_named_server
    demo_disc_ok eq_refl demo_named_plots) |].
  intros [] w' (_ & _ & _ & _ & _ & d & Ed & H).
  change (StringDiscovery.m_rev (plots demo_named_server) !! [65]) with (Some 0%nat) in H.
  destruct H as (_ & _ & e & Ee & H). injection Ed as <-. injection Ee as <-. rewrite H. vm_compute. reflexivity.
Defined.
