(* ===== verification/ServerMessage.v ===== *)
(** * Messages: the handlers of logged text

    A message is put in its place, by time, in the list of all messages and in the
    list of its thread: the events of different threads arrive out of order. *)
From S2P Require Import Prelude Double Queue Event Containers Discovery Trace Server ServerFrame.

Definition UpdMsgs (f : Messages -> Messages) : M W unit := modify (fun w => w <| msgs ::= f |>).
(** [( *msg )->time]: the lists hold pointers to existing messages. *)
Definition msg_time (h : list MessageData) (m : nat) : Z :=
  match h !! m with Some d => md_time d | None => 0 end.

(** The three cases of [InsertMessageData], for one list. *)
(* TracyWorker.cpp:3520-3532 InsertMessageData *)
Definition insert_message (h : list MessageData) (msg : nat) (l : list nat) : list nat :=
  match last l with
  | None => l ++ [msg]
  | Some b =>
      if msg_time h b <? msg_time h msg then l ++ [msg]
      else
        let mit := lower_bound_key (fun lhs rhs => msg_time h lhs <? rhs) l (msg_time h msg) in
        take mit l ++ msg :: drop mit l
  end.
(* TracyWorker.cpp:3518-3549 *)
Definition InsertMessageData (msg : nat) : M W unit :=
  s ← gets msgs;
  UpdMsgs (fun s => s <| messages ::= insert_message (message_heap s) msg |>);;
  td ← GetCurrentThreadData;
  UpdThread td (fun t => t <| td_messages ::= insert_message (message_heap s) msg |>).

(** The part that the four kinds of messages share, from [TscTime] on: how the
    text is found differs, and the colour. *)
(* TracyWorker.cpp:5827-5836 ProcessMessage *)
Definition add_message (td : nat) (ev_time : Z) (text : M W StringRef.t) (color metadata : Z) : M W unit :=
  s ← gets msgs;
  let msg := length (message_heap s) in
  time ← TscTime ev_time;
  ref ← text;
  t ← GetThread td;
  thread ← CompressThread (id t);
  source ← expect (MessageSourceFromMetadata metadata);
  severity ← expect (MessageSeverityFromMetadata metadata);
  UpdMsgs (fun s => s <| message_heap ::= (fun h => h ++
    [mkMessageData time ref thread color (Int24.make 0) source severity]) |>);;
  touch_lastTime time;;
  InsertMessageData msg.

Definition single_string : M W StringRef.t :=
  i ← GetSingleStringIdx; mret (StringRef.make StringRef.Idx i).
Definition rgb (r g b : Z) : Z := Z.lor 0xFF000000 (Z.lor (Z.shiftl b 16) (Z.lor (Z.shiftl g 8) r)).

(* TracyWorker.cpp:5823-5837 *)
Definition ProcessMessage (time metadata : Z) : M W unit :=
  td ← GetCurrentThreadData;
  add_message td time single_string 0xFFFFFFFF metadata.
(* TracyWorker.cpp:5839-5855 *)
Definition ProcessMessageLiteral (time textAndMetadata : Z) : M W unit :=
  td ← GetCurrentThreadData;
  let address := TaggedUserlandAddress.GetAddress textAndMetadata in
  CheckString address;;
  add_message td time (mret (StringRef.make StringRef.Ptr address)) 0xFFFFFFFF
    (TaggedUserlandAddress.GetTag textAndMetadata).
(* TracyWorker.cpp:5857-5871 *)
Definition ProcessMessageColor (time r g b metadata : Z) : M W unit :=
  td ← GetCurrentThreadData;
  add_message td time single_string (rgb r g b) metadata.
(* TracyWorker.cpp:5873-5889 *)
Definition ProcessMessageLiteralColor (time r g b textAndMetadata : Z) : M W unit :=
  td ← GetCurrentThreadData;
  let address := TaggedUserlandAddress.GetAddress textAndMetadata in
  CheckString address;;
  add_message td time (mret (StringRef.make StringRef.Ptr address)) (rgb r g b)
    (TaggedUserlandAddress.GetTag textAndMetadata).

(** The message that was just added gets the call stack that was sent before it. *)
(* TracyWorker.cpp:5893-5898 ProcessMessageCallstack *)
Definition with_callstack (message : M W unit) : M W unit :=
  td ← GetCurrentThreadData;
  message;;
  t ← GetThread td;
  m ← gets m_nextCallstack;
  cs ← expect (m !! id t);
  b ← expect (last (td_messages t));
  s ← gets msgs;
  d ← expect (message_heap s !! b);
  UpdMsgs (fun s => s <| message_heap ::= <[b := d <| md_callstack ::= Int24.SetVal cs |>]> |>);;
  modify (fun w => w <| m_nextCallstack ::= <[id t := 0]> |>).
(* TracyWorker.cpp:5891-5899 *)
Definition ProcessMessageCallstack (time metadata : Z) : M W unit :=
  with_callstack (ProcessMessage time metadata).
(* TracyWorker.cpp:5901-5909 *)
Definition ProcessMessageLiteralCallstack (time textAndMetadata : Z) : M W unit :=
  with_callstack (ProcessMessageLiteral time textAndMetadata).
(* TracyWorker.cpp:5911-5919 *)
Definition ProcessMessageColorCallstack (time r g b metadata : Z) : M W unit :=
  with_callstack (ProcessMessageColor time r g b metadata).
(* TracyWorker.cpp:5921-5929 *)
Definition ProcessMessageLiteralColorCallstack (time r g b textAndMetadata : Z) : M W unit :=
  with_callstack (ProcessMessageLiteralColor time r g b textAndMetadata).

(* TracyWorker.cpp:5931-5936 *)
Definition ProcessMessageAppInfo (ev_time : Z) : M W unit :=
  i ← GetSingleStringIdx;
  UpdMsgs (fun s => s <| appInfo ::= (fun l => l ++ [StringRef.make StringRef.Idx i]) |>);;
  time ← TscTime ev_time;
  touch_lastTime time.
