(* ===== verification/MessageSpec.v ===== *)
(** * Messages: every list of messages is complete and in order *)
From S2P Require Import Prelude Double Queue Event Containers Discovery Trace Server ServerSpec ServerFrame ServerMessage.

(** ** One list *)
Definition in_time (h : list MessageData) : list nat -> Prop :=
  StronglySorted (fun a b => msg_time h a <= msg_time h b).

Lemma in_time_app h l1 l2 :
  in_time h (l1 ++ l2) <-> in_time h l1 /\ in_time h l2 /\
    Forall (fun a => Forall (fun b => msg_time h a <= msg_time h b) l2) l1.
Proof.
  unfold in_time. induction l1 as [| a l1 IH]; simpl.
  - split; [intros; split_and!; [constructor | done | constructor] | tauto].
  - split.
    + intros Hs. inversion_clear Hs as [| ? ? Hs' Ha]. apply IH in Hs' as (? & ? & ?).
      apply Forall_app in Ha as [? ?]. split_and!; [now constructor | done | now constructor].
    + intros (Hs & H2 & Hf). inversion_clear Hs. inversion_clear Hf.
      constructor; [apply IH; done |]. apply Forall_app. done.
Qed.

Lemma bound_before h l t : Forall (fun a => msg_time h a < t)
  (take (lower_bound_key (fun a t => msg_time h a <? t) l t) l).
Proof.
  induction l as [| a l IH]; cbn; [constructor |].
  destruct (Z.ltb_spec (msg_time h a) t); cbn; constructor; auto.
Qed.

Lemma bound_after h l t : in_time h l -> Forall (fun a => t <= msg_time h a)
  (drop (lower_bound_key (fun a t => msg_time h a <? t) l t) l).
Proof.
  induction 1 as [| a l Hl IH Ha]; cbn; [constructor |].
  destruct (Z.ltb_spec (msg_time h a) t); [exact IH |]. cbn. constructor; [done |].
  eapply Forall_impl; [exact Ha |]. cbn. lia.
Qed.

Lemma insert_perm h m l : Permutation (insert_message h m l) (m :: l).
Proof.
  unfold insert_message. destruct (last l); [| symmetry; apply Permutation_cons_append].
  destruct (_ <? _); [symmetry; apply Permutation_cons_append |].
  rewrite <- Permutation_middle. now rewrite take_drop.
Qed.

Lemma insert_in_time h m l : in_time h l -> in_time h (insert_message h m l).
Proof.
  intros Hs. unfold insert_message. destruct (last l) as [b |] eqn:El.
  2: { apply last_None in El as ->. repeat constructor. }
  destruct (Z.ltb_spec (msg_time h b) (msg_time h m)) as [Hlt | Hge].
  - apply in_time_app. split; [done |]. split; [repeat constructor |].
    apply last_snoc_inv in El as [l' ->]. apply in_time_app in Hs as (_ & _ & Hf).
    apply Forall_snoc. split; [| constructor; [lia | constructor]].
    eapply Forall_impl; [exact Hf |]. intros a Ha. inversion_clear Ha. constructor; [lia | constructor].
  - set (k := lower_bound_key _ _ _). assert (Hk := bound_before h l (msg_time h m)).
    assert (Hd := bound_after h l (msg_time h m) Hs). fold k in Hk, Hd.
    rewrite <- (take_drop k l) in Hs. apply in_time_app in Hs as (H1 & H2 & H12).
    apply in_time_app. split; [done |]. split; [constructor; done |].
    rewrite Forall_forall in Hk, H12 |- *. intros a Ha. constructor; [specialize (Hk a Ha); lia |].
    exact (H12 a Ha).
Qed.

(** The order of a list depends on the messages in it only. *)
Lemma in_time_heap h h' l : (forall m, m ∈ l -> msg_time h' m = msg_time h m) -> in_time h l -> in_time h' l.
Proof.
  intros E. induction 1 as [| a l Hl IH Ha]; constructor.
  - apply IH. intros m Hm. apply E. now right.
  - rewrite Forall_forall in *. intros b Hb.
    rewrite (E a), (E b) by (now left || now right). exact (Ha b Hb).
Qed.

(** ** All lists *)
Record messages_ok (w : W) : Prop := {
  mo_all : Permutation (messages (msgs w)) (seq 0 (length (message_heap (msgs w))));
  mo_time : in_time (message_heap (msgs w)) (messages (msgs w));
  mo_threads : Forall (fun t => in_time (message_heap (msgs w)) (td_messages t)) (threads w);
  mo_split : Permutation (concat (map td_messages (threads w))) (messages (msgs w)) }.

Lemma messages_ok_frame w w' :
  messages_ok w -> msgs w' = msgs w -> map td_messages (threads w') = map td_messages (threads w) ->
  messages_ok w'.
Proof.
  intros [H1 H2 H3 H4] E1 E2. split; rewrite ?E1, ?E2; auto.
  apply (Forall_map td_messages (in_time _)). rewrite E2. now apply Forall_map.
Qed.

Lemma noticed_messages w w' : noticed w w' -> messages_ok w -> messages_ok w'.
Proof.
  intros (He & ext & Et & Hext) [H1 H2 H3 H4].
  assert (Em : msgs w' = msgs w) by frame He msgs.
  split; rewrite ?Em, ?Et; auto.
  - apply Forall_app. split; [done |]. destruct Hext as [-> | [tid ->]]; repeat constructor.
  - rewrite map_app, concat_app. destruct Hext as [-> | [tid ->]]; cbn; now rewrite app_nil_r.
Qed.

(** ** A message *)
Inductive message_event : Set :=
  | EvMessage (time metadata : Z)
  | EvLiteral (time textAndMetadata : Z)
  | EvColor (time r g b metadata : Z)
  | EvLiteralColor (time r g b textAndMetadata : Z).
Definition process (ev : message_event) : M W unit :=
  match ev with
  | EvMessage time metadata => ProcessMessage time metadata
  | EvLiteral time tm => ProcessMessageLiteral time tm
  | EvColor time r g b metadata => ProcessMessageColor time r g b metadata
  | EvLiteralColor time r g b tm => ProcessMessageLiteralColor time r g b tm
  end.
Definition ev_time (ev : message_event) : Z :=
  match ev with
  | EvMessage time _ | EvLiteral time _ | EvColor time _ _ _ _ | EvLiteralColor time _ _ _ _ => time
  end.
(** The text: the string that was sent before, or the address of a literal. *)
Definition ev_text (w : W) (ev : message_event) : option StringRef.t :=
  match ev with
  | EvMessage _ _ | EvColor _ _ _ _ _ => i ← m_pendingSingleString w; Some (StringRef.make StringRef.Idx i)
  | EvLiteral _ tm | EvLiteralColor _ _ _ _ tm =>
      Some (StringRef.make StringRef.Ptr (TaggedUserlandAddress.GetAddress tm))
  end.
Definition ev_color (ev : message_event) : Z :=
  match ev with
  | EvMessage _ _ | EvLiteral _ _ => 0xFFFFFFFF
  | EvColor _ r g b _ | EvLiteralColor _ r g b _ => rgb r g b
  end.
Definition ev_metadata (ev : message_event) : Z :=
  match ev with
  | EvMessage _ m | EvColor _ _ _ _ m => m
  | EvLiteral _ tm | EvLiteralColor _ _ _ _ tm => TaggedUserlandAddress.GetTag tm
  end.

(** What a message may change. *)
Definition erase_message (w : W) : W :=
  erase_noticed (w <| msgs := mkMessages [] [] [] |> <| m_pendingSingleString := None |>
    <| strings := ∅ |> <| m_pendingStrings := 0 |> <| lastTime := 0 |>
    <| localThreadCompress := ThreadCompress.empty |>).

(** The message [d] is new, and in its place among those of the current thread. *)
Definition message_added (d : MessageData) (w w' : W) : Prop :=
  messages_ok w' /\ threads_ok w' /\ erase_message w' = erase_message w /\
  lastTime w' = Z.max (lastTime w) (md_time d) /\
  message_heap (msgs w') = message_heap (msgs w) ++ [d] /\
  exists td t t', current w' = Some td /\ threads w' !! td = Some t' /\ id t' = id t /\
    td_messages t' = insert_message (message_heap (msgs w')) (length (message_heap (msgs w))) (td_messages t) /\
    forall td0 t0, current w = Some td0 -> threads w !! td0 = Some t0 -> td = td0 /\ t = t0.

Lemma concat_upd (l : list ThreadData) td t m l' :
  l !! td = Some t -> Permutation l' (m :: td_messages t) ->
  Permutation (concat (map td_messages (<[td := t <| td_messages := l' |>]> l)))
    (m :: concat (map td_messages l)).
Proof.
  revert td. induction l as [| x l IH]; intros td E Hp; [done |]. destruct td as [| td]; cbn in *.
  - injection E as ->. rewrite Hp. done.
  - rewrite (IH td E Hp). symmetry. apply Permutation_middle.
Qed.

Lemma thread_message w t m :
  messages_ok w -> t ∈ threads w -> m ∈ td_messages t -> m ∈ messages (msgs w).
Proof.
  intros Hok Ht Hm. rewrite <- (mo_split _ Hok). apply list_elem_of_In, in_concat.
  exists (td_messages t). split; [| now apply list_elem_of_In].
  apply list_elem_of_In, list_elem_of_fmap. eauto.
Qed.

(** The state with the new message [d] in the list of all messages and in that of
    the thread at [td]. *)
Lemma inserted_messages_ok w w' d td t :
  let h := message_heap (msgs w) ++ [d] in
  let msg := length (message_heap (msgs w)) in
  messages_ok w -> threads w !! td = Some t ->
  message_heap (msgs w') = h -> messages (msgs w') = insert_message h msg (messages (msgs w)) ->
  threads w' = <[td := t <| td_messages := insert_message h msg (td_messages t) |>]> (threads w) ->
  messages_ok w'.
Proof.
  intros h msg Hok Etd E1 E2 E3.
  assert (Hold : forall m, m ∈ messages (msgs w) -> msg_time h m = msg_time (message_heap (msgs w)) m).
  { intros m Hm. rewrite (mo_all _ Hok) in Hm. apply elem_of_seq in Hm. unfold msg_time, h.
    rewrite lookup_app_l by lia. done. }
  assert (Hthreads : forall x, x ∈ threads w -> in_time h (td_messages x)).
  { intros x Hx. eapply in_time_heap.
    - intros m Hm. apply Hold. now apply (thread_message w x).
    - pose proof (mo_threads _ Hok) as Hf. rewrite Forall_forall in Hf. now apply Hf. }
  split; rewrite ?E1, ?E2, ?E3.
  - rewrite insert_perm, (mo_all _ Hok). unfold h. rewrite length_app, Nat.add_1_r, seq_S.
    apply Permutation_cons_append.
  - apply insert_in_time. eapply in_time_heap; [exact Hold | apply Hok].
  - apply Forall_insert; [now apply Forall_forall |]. cbn. apply insert_in_time, Hthreads.
    now apply list_elem_of_lookup_2 in Etd.
  - rewrite (concat_upd _ td t msg _ Etd (insert_perm _ _ _)), insert_perm.
    constructor. apply Hok.
Qed.

(** Adding [d] to both lists. *)
Lemma InsertMessageData_spec d td t w :
  threads_ok w -> messages_ok w -> current w = Some td -> threads w !! td = Some t ->
  let msg := length (message_heap (msgs w)) in
  let w1 := w <| msgs ::= fun s => s <| message_heap ::= (fun h => h ++ [d]) |> |> in
  forall l, wp (InsertMessageData msg) (fun _ w' => messages_ok w' /\ threads_ok w' /\
    erase_message w' = erase_message w /\ lastTime w' = l (lastTime w) /\
    message_heap (msgs w') = message_heap (msgs w) ++ [d] /\ current w' = Some td /\
    exists t', threads w' !! td = Some t' /\ id t' = id t /\
      td_messages t' = insert_message (message_heap (msgs w')) msg (td_messages t)) (w1 <| lastTime ::= l |>).
Proof.
  intros Ht Hok Hcur Etd msg w1 l. unfold InsertMessageData, UpdMsgs. wp_steps.
  set (w2 := over msgs _ _).
  assert (Ht2 : threads_ok w2) by (eapply threads_ok_frame; [exact Ht | ..]; reflexivity).
  eapply wp_mono; [apply (GetCurrentThreadData_spec w2 Ht2) |].
  intros td' w3 (_ & _ & Hcur3 & _ & Hsame).
  assert (w3 = w2) as ->.
  { apply Hsame. unfold current in Hcur. change (m_threadCtxData w2) with (m_threadCtxData w).
    destruct (m_threadCtxData w); [eauto | done]. }
  assert (Some td' = Some td) as [= ->] by (rewrite <- Hcur3; exact Hcur).
  apply (UpdThread_wp td _ t); [exact Etd |]. set (w4 := over threads _ _).
  assert (Hlt := lookup_lt_Some _ _ _ Etd).
  split_and!; try done.
  - now apply (inserted_messages_ok w w4 d td t).
  - eapply (threads_ok_upd w w4 td t); [exact Ht | exact Etd | ..]; reflexivity.
  - rewrite <- Hcur. eapply (current_upd w w4 td t); [exact Etd | ..]; reflexivity.
  - eexists. split; [now apply list_lookup_insert_eq | split; reflexivity].
Qed.

(** What the text of a message may change before the message is added. *)
Definition erase_text (w : W) : W :=
  w <| m_pendingSingleString := None |>.

Lemma add_message_spec td t tsc text ref color metadata time source severity w :
  threads_ok w -> messages_ok w -> current w = Some td -> threads w !! td = Some t ->
  time_of w tsc = Some time ->
  MessageSourceFromMetadata metadata = Some source ->
  MessageSeverityFromMetadata metadata = Some severity ->
  wp text (fun r w' => r = ref /\ erase_text w' = erase_text w) w ->
  wp (add_message td tsc text color metadata) (fun _ w' => exists thread,
    message_added (mkMessageData time ref thread color (Int24.make 0) source severity) w w') w.
Proof.
  intros Ht Hok Hcur Etd Htime Hsrc Hsev Htext. unfold add_message, CompressThread, UpdMsgs, touch_lastTime.
  wp_steps. eapply TscTime_wp; [exact Htime |]. apply wp_bind. eapply wp_mono; [exact Htext |].
  intros r w1 [-> He]. assert (Em : msgs w1 = msgs w) by frame He msgs.
  apply wp_bind. apply (GetThread_wp td t).
  { assert (E : threads w1 = threads w) by frame He threads. now rewrite E. }
  wp_steps. set (thread := fst _). eapply wp_expect; [exact Hsrc |]. wp_steps.
  eapply wp_expect; [exact Hsev |]. wp_steps. rewrite <- Em.
  set (w2 := over localThreadCompress _ w1).
  assert (Ht2 : threads_ok w2).
  { eapply threads_ok_frame; [exact Ht | frame He m_threadMap | frame He threads |
      frame He threadDataLast | frame He m_threadCtxData | frame He m_threadCtx]. }
  assert (Hok2 : messages_ok w2).
  { eapply messages_ok_frame; [exact Hok | exact Em |]. f_equal. frame He threads. }
  assert (Hcur2 : current w2 = Some td) by (rewrite <- Hcur; frame He current).
  assert (Etd2 : threads w2 !! td = Some t).
  { assert (E : threads w2 = threads w) by frame He threads. now rewrite E. }
  eapply wp_mono; [apply (InsertMessageData_spec
    (mkMessageData time ref thread color (Int24.make 0) source severity) td t w2 Ht2 Hok2 Hcur2 Etd2) |].
  intros _ w3 (H1 & H2 & H3 & H4 & H5 & H6 & t' & H7 & H7' & H8). exists thread.
  split; [done |]. split; [done |]. split.
  { rewrite H3. transitivity (erase_message (erase_text w1)); [erased |]. rewrite He. erased. }
  split.
  { rewrite H4. cbn. assert (E : lastTime w1 = lastTime w) by frame He lastTime. rewrite E.
    destruct (Z.ltb_spec (lastTime w) time); lia. }
  split; [rewrite H5; cbn; now rewrite Em |]. exists td, t, t'.
  change (msgs w2) with (msgs w1) in H8. rewrite Em in H8. split_and!; try done.
  intros td0 t0 Ha Hb. simplify_eq. done.
Qed.

Lemma single_string_spec i w :
  m_pendingSingleString w = Some i ->
  wp single_string (fun r w' => r = StringRef.make StringRef.Idx i /\ erase_text w' = erase_text w) w.
Proof.
  intros E. unfold single_string, GetSingleStringIdx. wp_steps. eapply wp_expect; [exact E |].
  wp_steps. split; [done | erased].
Qed.

Lemma CheckString_spec ptr w :
  wp (CheckString ptr) (fun _ w' =>
    let erase w := w <| strings := ∅ |> <| m_pendingStrings := 0 |> <| m_serverQueryQueuePrio := [] |> in
    erase w' = erase w) w.
Proof.
  unfold CheckString. destruct (ptr =? 0); wp_steps; [done |]. destruct (strings w !! ptr); wp_steps; [done |].
  apply Query_prio_wp; [done |]. wp_steps. erased.
Qed.

(** Reaching the current thread, and checking a literal, before the message. *)
Lemma current_thread w (Q : nat -> W -> Prop) :
  threads_ok w -> messages_ok w ->
  (forall td t w1, threads_ok w1 -> messages_ok w1 -> current w1 = Some td ->
     threads w1 !! td = Some t -> erase_noticed w1 = erase_noticed w ->
     (is_Some (m_threadCtxData w) -> w1 = w) -> Q td w1) ->
  wp GetCurrentThreadData Q w.
Proof.
  intros Ht Hok HQ. eapply wp_mono; [apply (GetCurrentThreadData_spec w Ht) |].
  intros td w1 (Ht1 & Hn & Hcur & [t Et] & Hsame). apply (HQ td t); auto.
  - now apply (noticed_messages w).
  - apply Hn.
Qed.

Lemma checked_literal ptr w (Q : W -> Prop) :
  threads_ok w -> messages_ok w ->
  (forall w1, threads_ok w1 -> messages_ok w1 -> current w1 = current w -> threads w1 = threads w ->
     erase_message w1 = erase_message w -> lastTime w1 = lastTime w -> msgs w1 = msgs w ->
     (forall tsc, time_of w1 tsc = time_of w tsc) -> Q w1) ->
  wp (CheckString ptr) (fun _ => Q) w.
Proof.
  intros Ht Hok HQ. eapply wp_mono; [apply CheckString_spec |]. intros known w1 He. cbv beta zeta in He.
  apply HQ.
  - eapply threads_ok_frame; [exact Ht | frame He m_threadMap | frame He threads |
      frame He threadDataLast | frame He m_threadCtxData | frame He m_threadCtx].
  - eapply messages_ok_frame; [exact Hok | frame He msgs |]. f_equal. frame He threads.
  - frame He current.
  - frame He threads.
  - match type of He with ?a = ?b => transitivity (erase_message a); [erased |] end. rewrite He. erased.
  - frame He lastTime.
  - frame He msgs.
  - intros tsc. exact (f_equal (fun w => time_of w tsc) He).
Qed.

(** The handlers of all kinds of messages. *)
Lemma process_spec (ev : message_event) (ref : StringRef.t) (time : Z)
    (source : MessageSourceType.t) (severity : MessageSeverity.t) (w : W) :
  threads_ok w -> messages_ok w -> time_of w (ev_time ev) = Some time -> ev_text w ev = Some ref ->
  MessageSourceFromMetadata (ev_metadata ev) = Some source ->
  MessageSeverityFromMetadata (ev_metadata ev) = Some severity ->
  wp (process ev) (fun _ w' => exists thread,
    message_added (mkMessageData time ref thread (ev_color ev) (Int24.make 0) source severity) w w') w.
Proof.
  intros Ht Hok Htime Htext Hsrc Hsev.
  assert (Hstep : forall w1 w', erase_noticed w1 = erase_noticed w ->
    (is_Some (m_threadCtxData w) -> w1 = w) -> forall d, message_added d w1 w' -> message_added d w w').
  { intros w1 w' He Hsame d (H1 & H2 & H3 & H4 & H5 & td & t & t' & H6 & H7 & H8 & H9 & H10).
    assert (Em : msgs w1 = msgs w) by frame He msgs. assert (El : lastTime w1 = lastTime w) by frame He lastTime.
    unfold message_added. rewrite <- Em, <- El. split_and!; auto.
    - rewrite H3. transitivity (erase_message (erase_noticed w1)); [erased |]. rewrite He. erased.
    - exists td, t, t'. split_and!; auto. intros td0 t0 Hc.
      assert (E : w1 = w); [| rewrite <- E in Hc |- *; now apply H10].
      apply Hsame. unfold current in Hc. destruct (m_threadCtxData w); [eauto | done]. }
  assert (Htime1 : forall w1, erase_noticed w1 = erase_noticed w -> time_of w1 (ev_time ev) = Some time).
  { intros w1 He. rewrite <- Htime. exact (f_equal (fun w => time_of w (ev_time ev)) He). }
  assert (Htext1 : forall w1, erase_noticed w1 = erase_noticed w -> ev_text w1 ev = Some ref).
  { intros w1 He. rewrite <- Htext. exact (f_equal (fun w => ev_text w ev) He). }
  destruct ev as [tsc meta | tsc tm | tsc r g b meta | tsc r g b tm]; cbn [process ev_time ev_text ev_metadata ev_color] in *;
    apply wp_bind; (apply current_thread; [done | done |]); intros td t w1 Ht1 Hok1 Hcur Etd He Hsame;
    specialize (Htime1 w1 He); specialize (Htext1 w1 He); specialize (Hstep w1).
  1, 3: destruct (m_pendingSingleString w1) as [i |] eqn:Ei; [| discriminate Htext1]; injection Htext1 as <-;
    eapply wp_mono; [eapply (add_message_spec td t); eauto using single_string_spec |];
    intros [] w' [thread H]; exists thread; now apply Hstep.
  all: cbv zeta; apply wp_bind; (apply checked_literal; [done | done |]);
    intros w2 Ht2 Hok2 Hcur2 Eth2 He2 El2 Em2 Htc; injection Htext1 as <-;
    (eapply wp_mono; [eapply (add_message_spec td t); rewrite ?Hcur2, ?Eth2, ?Htc; eauto; apply wp_ret; done |]);
    intros [] w' [thread (H1 & H2 & H3 & H4 & H5 & H6)]; exists thread; apply Hstep; [done | done |];
    rewrite He2 in H3; rewrite El2 in H4; rewrite Em2 in H5, H6; rewrite Hcur2, Eth2 in H6; split_and!; done.
Qed.

(** C14: a message becomes one of the messages of its thread and of all
    messages, both of which stay in the order of time, and complete, whatever the
    order of arrival; no assertion fails. This holds for all four kinds of
    messages. *)
Theorem message_in_order (ev : message_event) (ref : StringRef.t) (time : Z)
    (source : MessageSourceType.t) (severity : MessageSeverity.t) (w : W) :
  threads_ok w -> messages_ok w -> time_of w (ev_time ev) = Some time -> ev_text w ev = Some ref ->
  MessageSourceFromMetadata (ev_metadata ev) = Some source ->
  MessageSeverityFromMetadata (ev_metadata ev) = Some severity ->
  wp (process ev) (fun _ w' => exists thread,
    message_added (mkMessageData time ref thread (ev_color ev) (Int24.make 0) source severity) w w') w.
Proof. exact (process_spec ev ref time source severity w). Qed.

(** ** A message with a call stack *)
Definition with_stack (ev : message_event) : M W unit :=
  match ev with
  | EvMessage time metadata => ProcessMessageCallstack time metadata
  | EvLiteral time tm => ProcessMessageLiteralCallstack time tm
  | EvColor time r g b metadata => ProcessMessageColorCallstack time r g b metadata
  | EvLiteralColor time r g b tm => ProcessMessageLiteralColorCallstack time r g b tm
  end.

Lemma with_stack_eq ev : with_stack ev = with_callstack (process ev).
Proof. now destruct ev. Qed.

(** A new message is the last of the list if it is later than all others, and not
    otherwise. *)
Lemma insert_last h m l : in_time h l -> m ∉ l ->
  last (insert_message h m l) = Some m <-> Forall (fun a => msg_time h a < msg_time h m) l.
Proof.
  intros Hs Hm. unfold insert_message. destruct (last l) as [b |] eqn:El.
  2: { apply last_None in El as ->. cbn. split; [constructor | done]. }
  apply last_snoc_inv in El as [l' ->]. destruct (Z.ltb_spec (msg_time h b) (msg_time h m)) as [Hlt | Hge].
  - rewrite last_snoc. split; [intros _ | done]. apply in_time_app in Hs as (_ & _ & Hf).
    apply Forall_snoc. split; [| done]. eapply Forall_impl; [exact Hf |]. intros a Ha. inversion_clear Ha. lia.
  - set (k := lower_bound_key _ _ _). split.
    + intros E. destruct (drop k (l' ++ [b])) as [| x r] eqn:Ed.
      * exfalso. assert (Hk := bound_before h (l' ++ [b]) (msg_time h m)). fold k in Hk.
        assert (E2 := take_drop k (l' ++ [b])). rewrite Ed, app_nil_r in E2. rewrite E2 in Hk.
        apply Forall_snoc in Hk as [_ Hk]. lia.
      * exfalso. apply Hm. rewrite last_app_cons, last_cons_cons in E. rewrite <- (take_drop k (l' ++ [b])), Ed.
        apply elem_of_app. right. apply last_Some in E as [r' E]. rewrite E. apply elem_of_app. right. now left.
    + intros Hf. apply Forall_snoc in Hf as [_ Hf]. lia.
Qed.

(** If the new message is not the last one, the last one is what it was. *)
Lemma insert_last_old h m l b : last (insert_message h m l) = Some b -> b <> m -> last l = Some b.
Proof.
  unfold insert_message. intros E Hne. destruct (last l) as [c |] eqn:El.
  2: { rewrite last_snoc in E. congruence. }
  destruct (_ <? _); [rewrite last_snoc in E; congruence |].
  set (k := lower_bound_key _ _ _) in E. destruct (drop k l) as [| x r] eqn:Ed.
  - rewrite last_snoc in E. congruence.
  - rewrite last_app_cons, last_cons_cons in E. rewrite <- El, <- (take_drop k l), Ed, last_app_cons. exact E.
Qed.

(** The last message of a thread, after a new one was inserted. *)
Lemma last_message w t ref thread color time source severity h :
  let new := length (message_heap (msgs w)) in
  let d := mkMessageData time ref thread color (Int24.make 0) source severity in
  messages_ok w -> t ∈ threads w -> h = message_heap (msgs w) ++ [d] ->
  exists b e, last (insert_message h new (td_messages t)) = Some b /\ h !! b = Some e /\
    (b = new <-> Forall (fun m => msg_time (message_heap (msgs w)) m < time) (td_messages t)) /\
    (b <> new -> last (td_messages t) = Some b).
Proof.
  intros new d Hok Ht Eh. assert (Hperm := insert_perm h new (td_messages t)).
  destruct (last (insert_message h new (td_messages t))) as [b |] eqn:El.
  2: { apply last_None in El. rewrite El in Hperm. now apply Permutation_nil_cons in Hperm. }
  assert (Hlt : forall m, m ∈ td_messages t -> (m < new)%nat).
  { intros m Hm. assert (Hin := thread_message w t m Hok Ht Hm).
    rewrite (mo_all _ Hok) in Hin. apply elem_of_seq in Hin. lia. }
  assert (Hold : forall m, m ∈ td_messages t -> msg_time h m = msg_time (message_heap (msgs w)) m).
  { intros m Hm. unfold msg_time. rewrite Eh, lookup_app_l by (exact (Hlt m Hm)). done. }
  assert (Hnew : msg_time h new = time) by (unfold msg_time; rewrite Eh, list_lookup_middle; done).
  assert (Hblt : (b < length h)%nat).
  { assert (Hb : b ∈ insert_message h new (td_messages t))
      by (apply last_Some in El as [l ->]; apply elem_of_app; right; now left).
    rewrite Hperm in Hb. rewrite Eh, length_app. cbn. apply elem_of_cons in Hb as [-> | Hb]; [lia |].
    specialize (Hlt b Hb). lia. }
  destruct (lookup_lt_is_Some_2 h b Hblt) as [e Ee]. exists b, e. split; [done |]. split; [done |].
  refine ((fun H => conj H (insert_last_old h new (td_messages t) b El)) _).
  assert (Hi : in_time h (td_messages t)).
  { eapply in_time_heap; [exact Hold |]. pose proof (mo_threads _ Hok) as Hf.
    rewrite Forall_forall in Hf. now apply Hf. }
  pose proof (insert_last h new (td_messages t) Hi ltac:(intros Hin; specialize (Hlt _ Hin); lia)) as Hiff.
  rewrite El, Hnew in Hiff. rewrite !Forall_forall in *. split.
  - intros -> m Hm. rewrite <- Hold by done. now apply Hiff.
  - intros Hf. assert (Some b = Some new) by (apply Hiff; intros m Hm; rewrite Hold by done; auto). congruence.
Qed.

(** Storing the call stack of a message changes no list. *)
Lemma messages_ok_callstack b d f w w' :
  messages_ok w -> message_heap (msgs w) !! b = Some d ->
  msgs w' = (msgs w) <| message_heap ::= <[b := d <| md_callstack ::= f |>]> |> ->
  threads w' = threads w -> messages_ok w'.
Proof.
  intros [H1 H2 H3 H4] Ed Em Et.
  assert (E : forall m, msg_time (message_heap (msgs w')) m = msg_time (message_heap (msgs w)) m).
  { intros m. rewrite Em. unfold msg_time. cbn. destruct (decide (m = b)) as [-> | Hne].
    - rewrite list_lookup_insert_eq, Ed; [done |]. exact (lookup_lt_Some _ _ _ Ed).
    - now rewrite list_lookup_insert_ne. }
  assert (El : messages (msgs w') = messages (msgs w)) by now rewrite Em.
  split; rewrite ?Et, ?El.
  - rewrite Em. cbn. now rewrite length_insert.
  - eapply in_time_heap; [intros m _; apply E | exact H2].
  - eapply Forall_impl; [exact H3 |]. intros t. apply in_time_heap. intros m _. apply E.
  - done.
Qed.

(** C15: a message with a call stack is added in its place, the call stack is stored in one
    message, and no assertion fails.  This is the new message exactly when it is
    later than all other messages of its thread; otherwise it is the message that was
    the last one of the thread before, so a message with the time of its predecessor
    leaves its call stack to the predecessor.  All other messages stay as they are,
    and the call stack of the thread is used up. *)
Theorem message_callstack (ev : message_event) (ref : StringRef.t) (time cs : Z) (td : nat) (t : ThreadData)
    (source : MessageSourceType.t) (severity : MessageSeverity.t) (w : W) :
  threads_ok w -> messages_ok w -> time_of w (ev_time ev) = Some time -> ev_text w ev = Some ref ->
  MessageSourceFromMetadata (ev_metadata ev) = Some source ->
  MessageSeverityFromMetadata (ev_metadata ev) = Some severity ->
  current w = Some td -> threads w !! td = Some t -> m_nextCallstack w !! id t = Some cs ->
  let new := length (message_heap (msgs w)) in
  wp (with_stack ev) (fun _ w' => exists b thread d d',
    let added := message_heap (msgs w) ++
      [mkMessageData time ref thread (ev_color ev) (Int24.make 0) source severity] in
    added !! b = Some d /\ message_heap (msgs w') = <[b := d']> added /\
    Int24.Val (md_callstack d') = uint 24 cs /\ d' = d <| md_callstack := md_callstack d' |> /\
    (b = new <-> Forall (fun m => msg_time (message_heap (msgs w)) m < time) (td_messages t)) /\
    (b <> new -> last (td_messages t) = Some b) /\
    messages_ok w' /\ m_nextCallstack w' = <[id t := 0]> (m_nextCallstack w)) w.
Proof.
  intros Ht Hok Htime Htext Hsrc Hsev Hcur Etd Hcs new. rewrite with_stack_eq. unfold with_callstack, UpdMsgs.
  apply wp_bind. apply current_thread; [done | done |]. intros td1 t1 w1 _ _ Hcur1 _ _ Hsame.
  assert (w1 = w) as ->.
  { apply Hsame. unfold current in Hcur. destruct (m_threadCtxData w); [eauto | done]. }
  assert (td1 = td) as -> by congruence. apply wp_bind.
  eapply wp_mono; [exact (process_spec ev ref time source severity w Ht Hok Htime Htext Hsrc Hsev) |].
  intros _ w2 (thread & Hok2 & _ & He & _ & Eh & td2 & t2 & t' & Hcur2 & Et' & Eid & Emsgs & Hold).
  destruct (Hold td t Hcur Etd) as [-> ->]. apply wp_bind, (GetThread_wp td t'); [done |]. wp_steps.
  eapply wp_expect.
  { rewrite Eid, <- Hcs. f_equal. frame He m_nextCallstack. }
  wp_steps. set (h := message_heap (msgs w2)) in *.
  assert (Htd : t ∈ threads w) by now apply list_elem_of_lookup_2 in Etd.
  destruct (last_message w t ref thread (ev_color ev) time source severity h Hok Htd Eh)
    as (b & d & El & Ed & Hiff & Hprev).
  rewrite Emsgs. fold new h. eapply wp_expect; [exact El |]. wp_steps.
  eapply wp_expect; [exact Ed |]. wp_steps. assert (Hblt := lookup_lt_Some _ _ _ Ed).
  exists b, thread, d, (d <| md_callstack ::= Int24.SetVal cs |>). cbv zeta. rewrite <- Eh.
  split; [exact Ed |]. split; [reflexivity |]. split; [apply Int24.Val_SetVal |]. split; [reflexivity |].
  split; [exact Hiff |]. split; [exact Hprev |].
  split; [eapply (messages_ok_callstack b d _ w2); [exact Hok2 | exact Ed | reflexivity | reflexivity] |].
  cbn. rewrite Eid. f_equal. frame He m_nextCallstack.
Qed.

(** Two messages at the same time, the second with the call stack 3: it ends up at
    the first. *)
Definition demo_message_server : W :=
  (Worker (double_of_Z 1) 1000 0 100 false false [0; 0]) <| m_threadCtx := 7 |>
    <| m_nextCallstack := {[7 := 3]} |>.
Definition same_time : M W unit :=
  AddSingleString [65];; ProcessMessage 1005 (MakeMessageMetadata MessageSourceType.User MessageSeverity.Info);;
  AddSingleString [66];; ProcessMessageCallstack 1005 (MakeMessageMetadata MessageSourceType.User MessageSeverity.Info).
Definition callstacks (w : W) : list (Z * Z) :=
  map (fun d => (StringRef.str (md_ref d), Int24.Val (md_callstack d))) (message_heap (msgs w)).

Example message_callstack_misplaced :
  (r ← same_time demo_message_server; Some (callstacks (snd r), messages (msgs (snd r)))) =
    Some ([(1, 3); (2, 0)], [1%nat; 0%nat]).
Proof. vm_compute. reflexivity. Qed.

(** ** Witnesses *)
Definition demo_thread_server : W :=
  demo_message_server <| threads := [new_thread 7 false 0] |> <| m_threadMap := {[7 := 0%nat]} |>
    <| m_threadCtxData := Some 0%nat |>.
Lemma demo_thread_ok : threads_ok demo_thread_server.
Proof.
  split; try done.
  - intros t i E. change (({[7 := 0%nat]} : gmap Z nat) !! t = Some i) in E.
    apply lookup_singleton_Some in E as [<- <-]. eexists. split; reflexivity.
  - intros i td f Ei Ef. destruct i; [injection Ei as <-; discriminate Ef | now destruct i].
Qed.

Lemma messages_ok_new mul ib ie sp od ign fr : messages_ok (Worker mul ib ie sp od ign fr).
Proof. split; cbn; constructor. Qed.

Lemma demo_thread_messages : messages_ok demo_thread_server.
Proof. split; cbn; repeat constructor. Qed.

Lemma message_callstack_witness :
  wp (with_stack (EvLiteral 1005 0x100020)) (fun _ w' => exists d,
    message_heap (msgs w') !! 0%nat = Some d /\ Int24.Val (md_callstack d) = 3) demo_thread_server.
Proof.
  eapply wp_mono; [apply (message_callstack (EvLiteral 1005 0x100020)
    (StringRef.make StringRef.Ptr 0x1000) 5 3 0 (new_thread 7 false 0) MessageSourceType.User MessageSeverity.Info
    demo_thread_server demo_thread_ok demo_thread_messages) |].
  - vm_compute. reflexivity.
  - reflexivity.
  - reflexivity.
  - reflexivity.
  - reflexivity.
  - reflexivity.
  - reflexivity.
  - intros [] w' (b & thread & d & d' & H1 & H2 & H3 & _ & H4 & _).
    assert (b = 0%nat) as -> by (apply H4; constructor). exists d'. rewrite H2. split; [reflexivity | exact H3].
Defined.

Lemma message_in_order_witness :
  wp (process (EvLiteral 1005 0x100020)) (fun _ w' => messages_ok w' /\
    length (message_heap (msgs w')) = 1%nat) demo_message_server.
Proof.
  eapply wp_mono; [apply (message_in_order (EvLiteral 1005 0x100020)
    (StringRef.make StringRef.Ptr 0x1000) 5) |].
  - split; try done.
  - eapply messages_ok_frame; [exact (messages_ok_new (double_of_Z 1) 1000 0 100 false false [0; 0]) | ..]; done.
  - vm_compute. reflexivity.
  - reflexivity.
  - vm_compute. reflexivity.
  - vm_compute. reflexivity.
  - intros [] w' [thread (H1 & _ & _ & _ & H5 & _)]. split; [exact H1 |]. rewrite H5. reflexivity.
Defined.
