(* ===== verification/ServerGpu.v ===== *)
(** * GPU contexts: the handlers of zones that a GPU executes

    A GPU zone is reported three times over: where the program enters and leaves it
    on the CPU, with a query for each, and later the two timestamps the GPU wrote
    for these queries.  [query] of a context holds the zones that wait for a
    timestamp; the first one a zone gets is its start on the GPU, the second one its
    end.  Times of the GPU are unwrapped (its counters may have fewer than 64 bits)
    and converted to the clock of the CPU. *)
From S2P Require Import Prelude Double Queue Event Containers Discovery Trace Server ServerZone.

Definition UpdGpu (f : Gpu -> Gpu) : M W unit := modify (fun w => w <| gpu ::= f |>).
(** [m_gpuCtxMap[context]], which is null for a context that was not announced. *)
Definition FindCtx (context : Z) : M W nat :=
  g ← gets gpu; expect (m_gpuCtxMap g !! context).
Definition GetCtx (c : nat) : M W GpuCtxData :=
  g ← gets gpu; expect (gpuData g !! c).
Definition SetCtx (c : nat) (ctx : GpuCtxData) : M W unit :=
  UpdGpu (fun g => g <| gpuData ::= <[c := ctx]> |>).
Definition GetGpuZone (z : nat) : M W GpuEvent.t :=
  g ← gets gpu; expect (gpu_heap g !! z).
Definition UpdGpuZone (z : nat) (f : GpuEvent.t -> option GpuEvent.t) : M W unit :=
  e ← GetGpuZone z; e ← expect (f e); UpdGpu (fun g => g <| gpu_heap ::= <[z := e]> |>).
(** [assert( !ctx->query[queryId] ); ctx->query[queryId] = zone;] *)
Definition wait_query (c : nat) (queryId : Z) (zone : nat) : M W unit :=
  ctx ← GetCtx c;
  assert_ (negb (bool_decide (is_Some (query ctx !! queryId))));;
  SetCtx c (ctx <| query ::= <[queryId := zone]> |>).

Definition one : double := double_of_Z 1.
(* TracyQueue.hpp:534-537 GpuContextFlags *)
Definition GpuContextCalibration : Z := 1.

(** [int64_t( double( period ) * gpuTime )], or the time itself for a period of one. *)
(* TracyWorker.cpp:5943-5951 ProcessGpuNewContext *)
Definition scaled (scale : bool) (period : double) (gpuTime : Z) : option Z :=
  if scale then trunc64 (dmul period (double_of_Z gpuTime)) else Some gpuTime.

(* TracyWorker.cpp:5938-5971 *)
Definition ProcessGpuNewContext (cpuTime gpuTime thread : Z) (period : double) (context flags type : Z) : M W unit :=
  g ← gets gpu;
  assert_ (negb (bool_decide (is_Some (m_gpuCtxMap g !! context))));;
  assert_ (negb (type =? 0));;
  gpuTime ← expect (scaled (negb (deqb period one)) period gpuTime);
  cpuTime ← TscTime cpuTime;
  let ctx := {|
    timeDiff := sint 64 (cpuTime - gpuTime); gc_thread := thread; gc_count := 0; period := period;
    gc_type := type; hasPeriod := negb (deqb period one);
    hasCalibration := negb (Z.land flags GpuContextCalibration =? 0);
    calibratedGpuTime := gpuTime; calibratedCpuTime := cpuTime; calibrationMod := one;
    lastGpuTime := 0; overflow := 0; overflowMul := 0; gc_name := StringIdx.none;
    gc_threadData := ∅; noteNames := ∅; notes := ∅; query := ∅ |} in
  UpdGpu (fun g => g <| gpuData ::= (fun l => l ++ [ctx]) |>
                     <| m_gpuCtxMap ::= <[context := length (gpuData g)]> |>).

(** Memory for a GPU zone is not initialised. *)
Class GpuSlab := { gpu_junk : nat -> GpuEvent.t; gpu_junk_ok : forall n, GpuEvent.ok (gpu_junk n) }.

(** [RefTime] on the serial reference or on that of the thread. *)
(* TracyWorker.cpp:5995-6003 ProcessGpuZoneBeginImplCommon *)
Definition gpu_cpu_time (serial : bool) (cpuTime : Z) : M W Z :=
  ref ← (if serial then RefTime m_refTimeSerial cpuTime else RefTime m_refTimeThread cpuTime);
  TscTime ref.

(* TracyWorker.cpp:6005-6011 ProcessGpuZoneBeginImplCommon *)
Definition init_gpu_zone (time queryId : Z) (e : GpuEvent.t) : option GpuEvent.t :=
  e ← GpuEvent.SetCpuStart time e;
  e ← GpuEvent.SetCpuEnd (-1) e;
  e ← GpuEvent.SetGpuEnd (-1) (GpuEvent.SetGpuStart (-1) e);
  Some (GpuEvent.SetChild (-1) (e <| GpuEvent.callstack ::= Int24.SetVal 0 |>)
    <| GpuEvent.query_id := queryId |>).

(** The zone goes to the children of the innermost open zone of the thread. *)
(* TracyWorker.cpp:6030-6043 ProcessGpuZoneBeginImplCommon *)
Definition link_gpu_zone (c : nat) (ztid : Z) (zone : nat) : M W unit :=
  ctx ← GetCtx c;
  let td := default (mkGpuThread [] []) (gc_threadData ctx !! ztid) in
  td ← match last (gt_stack td) with
       | None => mret (td <| gt_timeline ::= (fun l => l ++ [zone]) |>)
       | Some back =>
           b ← GetGpuZone back;
           when (GpuEvent.Child b <? 0)
             (g ← gets gpu;
              UpdGpuZone back (fun b =>
                Some (GpuEvent.SetChild (sint 32 (Z.of_nat (length (gpuChildren g)))) b));;
              UpdGpu (fun g => g <| gpuChildren ::= (fun l => l ++ [[]]) |>));;
           b ← GetGpuZone back;
           g ← gets gpu;
           l ← expect (gpuChildren g !! Z.to_nat (GpuEvent.Child b));
           UpdGpu (fun g => g <| gpuChildren ::= <[Z.to_nat (GpuEvent.Child b) := l ++ [zone]]> |>);;
           mret td
       end;
  SetCtx c (ctx <| gc_threadData ::= <[ztid := td <| gt_stack ::= (fun l => l ++ [zone]) |>]> |>).

(** The thread of the zone, and the key of its stack in the context. *)
(* TracyWorker.cpp:6013-6026 ProcessGpuZoneBeginImplCommon *)
Definition gpu_thread (zone : nat) (ctx : GpuCtxData) (thread : Z) : M W Z :=
  if gc_thread ctx =? 0 then
    t ← CompressThread thread; UpdGpuZone zone (fun e => Some (GpuEvent.SetThread t e));; mret thread
  else UpdGpuZone zone (fun e => Some (GpuEvent.SetThread 0 e));; mret 0.
(** The fields of the zone are set; its context and the key of its stack. *)
(* TracyWorker.cpp:5990-6028 ProcessGpuZoneBeginImplCommon *)
Definition start_gpu_zone (zone : nat) (cpuTime thread queryId context : Z) (serial : bool) : M W (nat * Z) :=
  UpdGpu (fun g => g <| gpuCnt ::= (fun n => uint 64 (n + 1)) |>);;
  c ← FindCtx context;
  ctx ← GetCtx c;
  time ← gpu_cpu_time serial cpuTime;
  UpdGpuZone zone (init_gpu_zone time queryId);;
  ztid ← gpu_thread zone ctx thread;
  touch_lastTime time;;
  mret (c, ztid).
(* TracyWorker.cpp:5988-6048 *)
Definition ProcessGpuZoneBeginImplCommon (zone : nat) (cpuTime thread queryId context : Z) (serial : bool) : M W unit :=
  p ← start_gpu_zone zone cpuTime thread queryId context serial;
  link_gpu_zone (fst p) (snd p) zone;;
  wait_query (fst p) queryId zone.

(* TracyWorker.cpp:5973-5978 *)
Definition ProcessGpuZoneBeginImpl (zone : nat) (cpuTime thread queryId context srcloc : Z) (serial : bool) : M W unit :=
  CheckSourceLocation srcloc;;
  sl ← ShrinkSourceLocation srcloc;
  UpdGpuZone zone (fun e => Some (GpuEvent.SetSrcLoc sl e));;
  ProcessGpuZoneBeginImplCommon zone cpuTime thread queryId context serial.
(* TracyWorker.cpp:5980-5986 *)
Definition ProcessGpuZoneBeginAllocSrcLocImpl (zone : nat) (cpuTime thread queryId context : Z) (serial : bool) : M W unit :=
  p ← gets m_pendingSourceLocationPayload;
  assert_ (negb (p =? 0));;
  UpdGpuZone zone (fun e => Some (GpuEvent.SetSrcLoc p e));;
  ProcessGpuZoneBeginImplCommon zone cpuTime thread queryId context serial;;
  modify (fun w => w <| m_pendingSourceLocationPayload := 0 |>).

(** The call stack that was sent for the zone. *)
(* TracyWorker.cpp:6060-6074 ProcessGpuZoneBeginCallstack *)
Definition gpu_callstack (zone : nat) (serial : bool) : M W unit :=
  let set cs := UpdGpuZone zone (fun e => Some (e <| GpuEvent.callstack ::= Int24.SetVal cs |>)) in
  if serial then
    cs ← gets m_serialNextCallstack;
    assert_ (negb (cs =? 0));;
    set cs;; modify (fun w => w <| m_serialNextCallstack := 0 |>)
  else
    td ← GetCurrentThreadData;
    t ← GetThread td;
    m ← gets m_nextCallstack;
    cs ← expect (m !! id t);
    set cs;; modify (fun w => w <| m_nextCallstack ::= <[id t := 0]> |>).

Section Handlers.
Context `{GpuSlab}.

Definition AllocGpuEvent : M W nat :=
  g ← gets gpu;
  let n := length (gpu_heap g) in
  UpdGpu (fun g => g <| gpu_heap ::= (fun l => l ++ [gpu_junk n]) |>);;
  mret n.

(* TracyWorker.cpp:6050-6054 *)
Definition ProcessGpuZoneBegin (cpuTime thread queryId context srcloc : Z) (serial : bool) : M W unit :=
  zone ← AllocGpuEvent; ProcessGpuZoneBeginImpl zone cpuTime thread queryId context srcloc serial.
(* TracyWorker.cpp:6056-6075 *)
Definition ProcessGpuZoneBeginCallstack (cpuTime thread queryId context srcloc : Z) (serial : bool) : M W unit :=
  zone ← AllocGpuEvent;
  ProcessGpuZoneBeginImpl zone cpuTime thread queryId context srcloc serial;;
  gpu_callstack zone serial.
(* TracyWorker.cpp:6077-6081 *)
Definition ProcessGpuZoneBeginAllocSrcLoc (cpuTime thread queryId context : Z) (serial : bool) : M W unit :=
  zone ← AllocGpuEvent; ProcessGpuZoneBeginAllocSrcLocImpl zone cpuTime thread queryId context serial.
(* TracyWorker.cpp:6083-6103 *)
Definition ProcessGpuZoneBeginAllocSrcLocCallstack (cpuTime thread queryId context : Z) (serial : bool) : M W unit :=
  zone ← AllocGpuEvent;
  ProcessGpuZoneBeginAllocSrcLocImpl zone cpuTime thread queryId context serial;;
  gpu_callstack zone serial.
End Handlers.

(* TracyWorker.cpp:6105-6133 *)
Definition ProcessGpuZoneEnd (cpuTime thread queryId context : Z) (serial : bool) : M W unit :=
  c ← FindCtx context;
  ctx ← GetCtx c;
  td ← expect (gc_threadData ctx !! thread);
  zone ← expect (last (gt_stack td));
  SetCtx c (ctx <| gc_threadData ::= <[thread := td <| gt_stack ::= (fun l => removelast l) |>]> |>);;
  wait_query c queryId zone;;
  time ← gpu_cpu_time serial cpuTime;
  UpdGpuZone zone (GpuEvent.SetCpuEnd time);;
  touch_lastTime time.

(** ** GPU clocks *)
(** The number of leading zeros; undefined for zero. *)
(* TracyPopcnt.hpp:12-15 *)
Definition TracyLzcnt (i : Z) : option Z := if 0 <? i then Some (63 - Z.log2 i) else None.

(** The reading of the GPU's counter since it last wrapped around, and the reading
    since the start; a shift by 64 has no defined result. *)
(* TracyWorker.cpp:6141-6153 ProcessGpuTime *)
Definition unwrap_time (tgpu : Z) (ctx : GpuCtxData) : option (Z * GpuCtxData) :=
  ctx ← (if tgpu <? sint 64 (lastGpuTime ctx - 2 ^ 31) then
           o ← (if overflow ctx =? 0 then
                  lz ← TracyLzcnt (uint 64 (lastGpuTime ctx));
                  if lz =? 0 then None else Some (2 ^ (64 - lz))
                else Some (overflow ctx));
           Some (ctx <| overflow := o |> <| overflowMul ::= (fun n => uint 32 (n + 1)) |>)
         else Some ctx);
  let ctx := ctx <| lastGpuTime := tgpu |> in
  Some (if overflow ctx =? 0 then (tgpu, ctx)
        else (sint 64 (tgpu + overflow ctx * overflowMul ctx), ctx)).

(** A time of the GPU on the CPU's clock. *)
(* TracyWorker.cpp:6155-6178 ProcessGpuTime *)
Definition gpu_to_cpu (ctx : GpuCtxData) (tgpu : Z) : option Z :=
  if negb (hasPeriod ctx) then
    if negb (hasCalibration ctx) then Some (sint 64 (tgpu + timeDiff ctx))
    else trunc64 (dadd (dmul (double_of_Z (sint 64 (tgpu - calibratedGpuTime ctx))) (calibrationMod ctx))
                       (double_of_Z (calibratedCpuTime ctx)))
  else
    if negb (hasCalibration ctx) then
      t ← trunc64 (dmul (period ctx) (double_of_Z tgpu)); Some (sint 64 (t + timeDiff ctx))
    else trunc64 (dadd (dmul (dsub (dmul (period ctx) (double_of_Z tgpu)) (double_of_Z (calibratedGpuTime ctx)))
                             (calibrationMod ctx))
                       (double_of_Z (calibratedCpuTime ctx))).

(* TracyWorker.cpp:3600-3610 *)
Definition GetGpuSourceLocationZonesReal (srcloc : Z) : M W Z :=
  let key := sint 16 srcloc in
  UpdGpu (fun g => g <| gpuSourceLocationZones ::= emplace key new_GpuSourceLocationZones |>
                     <| gpuZonesLast := (srcloc, Some key) |>);;
  mret key.
(* TracyWorker.hpp:930-934 *)
Definition GetGpuSourceLocationZones (srcloc : Z) : M W Z :=
  g ← gets gpu;
  if fst (gpuZonesLast g) =? srcloc then expect (snd (gpuZonesLast g))
  else GetGpuSourceLocationZonesReal srcloc.

(** [GpuZtdSort]: zones in the order of their starts on the GPU. *)
(* TracyWorker.hpp:220-220 *)
Definition GpuZtdSort (h : list GpuEvent.t) (lhs rhs : GpuZoneThreadData) : bool :=
  let start z := match h !! gz_zone z with Some e => GpuEvent.GpuStart e | None => 0 end in
  start lhs <? start rhs.
(* TracyWorker.cpp:6197-6202 ProcessGpuTime *)
Definition add_gpu_span (h : list GpuEvent.t) (ztd : GpuZoneThreadData) (timeSpan : Z)
    (s : GpuSourceLocationZones) : GpuSourceLocationZones :=
  s <| gs_zones ::= SortedVector.push_back (GpuZtdSort h) ztd |>
    <| gs_min ::= (fun m => if timeSpan <? m then timeSpan else m) |>
    <| gs_max ::= (fun m => if m <? timeSpan then timeSpan else m) |>
    <| gs_total ::= (fun t => sint 64 (t + timeSpan)) |>
    <| gs_sumSq ::= (fun q => dadd q (dmul (double_of_Z timeSpan) (double_of_Z timeSpan))) |>.

(* TracyWorker.cpp:6189-6204 ProcessGpuTime *)
Definition gpu_statistics (zone : nat) (gpuTime : Z) : M W unit :=
  e ← GetGpuZone zone;
  let timeSpan := sint 64 (gpuTime - GpuEvent.GpuStart e) in
  if 0 <? timeSpan then
    key ← GetGpuSourceLocationZones (uint 16 (GpuEvent.SrcLoc e));
    g ← gets gpu;
    slz ← expect (gpuSourceLocationZones g !! key);
    UpdGpu (fun g => g <| gpuSourceLocationZones ::=
      <[key := add_gpu_span (gpu_heap g) (mkGpuZtd zone (GpuEvent.Thread e)) timeSpan slz]> |>)
  else mret tt.

(* TracyWorker.cpp:6135-6211 *)
Definition ProcessGpuTime (ev_gpuTime queryId context : Z) : M W unit :=
  c ← FindCtx context;
  tgpu ← RefTime m_refTimeGpu ev_gpuTime;
  ctx ← GetCtx c;
  r ← expect (unwrap_time tgpu ctx);
  let '(tgpu, ctx) := r in
  gpuTime ← expect (gpu_to_cpu ctx tgpu);
  zone ← expect (query ctx !! queryId);
  let ctx := ctx <| query ::= delete queryId |> in
  SetCtx c ctx;;
  e ← GetGpuZone zone;
  (if GpuEvent.GpuStart e <? 0 then
     UpdGpuZone zone (fun e => Some (GpuEvent.SetGpuStart gpuTime e));;
     SetCtx c (ctx <| gc_count ::= (fun n => uint 64 (n + 1)) |>)
   else
     UpdGpuZone zone (GpuEvent.SetGpuEnd gpuTime);;
     gpu_statistics zone gpuTime);;
  touch_lastTime gpuTime.

(* TracyWorker.cpp:6213-6234 *)
Definition ProcessGpuCalibration (gpuTime cpuTime cpuDelta context : Z) : M W unit :=
  c ← FindCtx context;
  ctx ← GetCtx c;
  assert_ (hasCalibration ctx);;
  gpuTime ← expect (scaled (hasPeriod ctx) (period ctx) gpuTime);
  let gpuDelta := sint 64 (gpuTime - calibratedGpuTime ctx) in
  cpuTime ← TscTime cpuTime;
  SetCtx c (ctx <| calibrationMod := ddiv (double_of_Z cpuDelta) (double_of_Z gpuDelta) |>
                <| calibratedGpuTime := gpuTime |> <| calibratedCpuTime := cpuTime |>).
(* TracyWorker.cpp:6236-6257 *)
Definition ProcessGpuTimeSync (gpuTime cpuTime context : Z) : M W unit :=
  c ← FindCtx context;
  ctx ← GetCtx c;
  gpuTime ← expect (scaled (negb (deqb (period ctx) one)) (period ctx) gpuTime);
  cpuTime ← TscTime cpuTime;
  SetCtx c (ctx <| timeDiff := sint 64 (cpuTime - gpuTime) |> <| lastGpuTime := 0 |>
                <| overflow := 0 |> <| overflowMul := 0 |>).
(* TracyWorker.cpp:6259-6265 *)
Definition ProcessGpuContextName (context : Z) : M W unit :=
  c ← FindCtx context;
  idx ← GetSingleStringIdx;
  ctx ← GetCtx c;
  SetCtx c (ctx <| gc_name := StringIdx.SetIdx idx |>).
(* TracyWorker.cpp:6267-6273 *)
Definition ProcessGpuAnnotationName (noteId context : Z) : M W unit :=
  c ← FindCtx context;
  idx ← GetSingleStringIdx;
  ctx ← GetCtx c;
  SetCtx c (ctx <| noteNames ::= <[noteId := StringIdx.SetIdx idx]> |>).
(* TracyWorker.cpp:6275-6285 *)
Definition ProcessGpuZoneAnnotation (noteId : Z) (value : double) (queryId context : Z) : M W unit :=
  c ← FindCtx context;
  ctx ← GetCtx c;
  SetCtx c (ctx <| notes ::= (fun m => <[queryId := <[noteId := value]> (default ∅ (m !! queryId))]> m) |>).
