(* ===== verification/GpuSpec.v ===== *)
(** * GPU zones: every timestamp reaches its zone

    The part of the server's state that describes GPU zones is a function of what
    was reported: which zones were entered and left, in which thread of which
    context, and which timestamps arrived.  A zone waits for exactly the timestamps
    that it has not received, so no timestamp is lost or written to another zone,
    and the GPU times of a zone are the first and the second one.  The clock of the
    GPU is unwrapped to the time since it was started. *)
From S2P Require Import Prelude Double Queue Event Containers Discovery Trace Server ServerSpec ServerZone ServerGpu.

(** ** The clock of the GPU *)
(** The readings in the order of their arrival. *)
Fixpoint unwrap_all (ctx : GpuCtxData) (readings : list Z) : option (list Z * GpuCtxData) :=
  match readings with
  | [] => Some ([], ctx)
  | r :: readings =>
      p ← unwrap_time r ctx;
      q ← unwrap_all (snd p) readings;
      Some (fst p :: fst q, snd q)
  end.

(** From [T] the counter of [k] bits goes on to [T'] by less than half its range;
    or it is read a little late, but not before it wrapped around. *)
Definition tick (k T T' : Z) : Prop :=
  T <= T' < T + 2 ^ (k - 1) \/ (T' / 2 ^ k = T / 2 ^ k /\ T - 2 ^ 31 <= T').
Fixpoint ticks (k T : Z) (Ts : list Z) : Prop :=
  match Ts with
  | [] => True
  | T' :: Ts => tick k T T' /\ 0 <= T' < 2 ^ 63 /\ ticks k T' Ts
  end.

Definition clock_at (k T : Z) (ctx : GpuCtxData) : Prop :=
  lastGpuTime ctx = T mod 2 ^ k /\ overflowMul ctx = T / 2 ^ k /\
  overflow ctx = if T / 2 ^ k =? 0 then 0 else 2 ^ k.

Lemma half_pow k : 0 < k -> 2 ^ k = 2 * 2 ^ (k - 1).
Proof. apply pow2_half. Qed.

Lemma log2_top k r : 0 < k -> 2 ^ (k - 1) <= r < 2 ^ k -> Z.log2 r = k - 1.
Proof. intros Hk Hr. apply Z.log2_unique; [lia |]. now replace (Z.succ (k - 1)) with k by lia. Qed.

(** The value is the same with or without the correction. *)
Lemma corrected k T' : 0 < k -> 0 <= T' < 2 ^ 63 ->
  (if (if T' / 2 ^ k =? 0 then 0 else 2 ^ k) =? 0 then T' mod 2 ^ k
   else sint 64 (T' mod 2 ^ k + (if T' / 2 ^ k =? 0 then 0 else 2 ^ k) * (T' / 2 ^ k))) = T'.
Proof.
  intros Hk HT. pose proof (pow2_pos k ltac:(lia)).
  pose proof (Z.div_mod T' (2 ^ k) ltac:(lia)) as E.
  destruct (Z.eqb_spec (T' / 2 ^ k) 0) as [E0 | E0]; cbn [Z.eqb].
  - rewrite E0 in E. lia.
  - destruct (Z.eqb_spec (2 ^ k) 0); [lia |]. rewrite sint_small; [lia | lia |]. red. lia.
Qed.

Lemma epoch P q T : 0 < P -> P * q <= T < P * q + P -> T / P = q /\ T mod P = T - P * q.
Proof.
  intros HP HT. split; [symmetry; apply (Z.div_unique T P q (T - P * q)) |
    symmetry; apply (Z.mod_unique T P q (T - P * q))]; lia.
Qed.

Lemma pair_if {A B} (b : bool) (x y z : A) (c : B) :
  (if b then x else y) = z -> Some (if b then (x, c) else (y, c)) = Some (z, c).
Proof. destruct b; now intros ->. Qed.

Lemma unwrap_tick k T T' ctx :
  32 <= k <= 62 -> 0 <= T < 2 ^ 63 -> 0 <= T' < 2 ^ 63 -> tick k T T' -> clock_at k T ctx ->
  exists ctx', unwrap_time (T' mod 2 ^ k) ctx = Some (T', ctx') /\ clock_at k T' ctx'.
Proof.
  intros Hk HT HT' Ht (El & Em & Eo). unfold unwrap_time, clock_at, tick in *. rewrite El.
  pose proof (corrected k T' ltac:(lia) HT') as Ec.
  assert (H31 : 2 ^ 31 <= 2 ^ (k - 1)) by (apply Z.pow_le_mono_r; lia).
  assert (H62 : 2 ^ k <= 2 ^ 62) by (apply Z.pow_le_mono_r; lia).
  pose proof (half_pow k ltac:(lia)) as Eh. remember (2 ^ k) as P eqn:EP. remember (2 ^ (k - 1)) as H eqn:EH.
  pose proof (Z.div_mod T P ltac:(lia)) as ET. pose proof (Z.div_mod T' P ltac:(lia)) as ET'.
  pose proof (Z.mod_pos_bound T P ltac:(lia)) as Hr. pose proof (Z.mod_pos_bound T' P ltac:(lia)) as Hr'.
  assert (Hq : 0 <= T / P) by (apply Z.div_pos; lia).
  assert (Hq' : T' / P < 2 ^ 32).
  { apply Z.div_lt_upper_bound; [lia |]. lia. }
  rewrite (sint_small 64 (T mod P - 2 ^ 31)); [| lia | unfold in_sint; lia].
  destruct (Z.ltb_spec (T' mod P) (T mod P - 2 ^ 31)) as [Hlt | Hge].
  - destruct Ht as [Ht | [Ed Ht]]; [| exfalso; rewrite Ed in ET'; lia].
    assert (Hnext : P * (T / P + 1) <= T' < P * (T / P + 1) + P).
    { destruct (Z_lt_le_dec T' (P * (T / P + 1))) as [Hs |]; [| lia].
      destruct (epoch P (T / P) T'); lia. }
    destruct (epoch P (T / P + 1) T') as [Ed Ed2]; [lia | done |].
    assert (Htop : H <= T mod P) by lia.
    rewrite Eo, (uint_small 64) by (unfold in_uint; lia).
    assert (E1 : (T' / P =? 0) = false) by (apply Z.eqb_neq; lia).
    assert (El2 : Z.log2 (T mod P) = k - 1) by (apply log2_top; [lia |]; rewrite <- EH, <- EP; lia).
    replace (if ((if T / P =? 0 then 0 else P) =? 0)
             then lz ← TracyLzcnt (T mod P); if lz =? 0 then None else Some (2 ^ (64 - lz))
             else Some (if T / P =? 0 then 0 else P)) with (Some P).
    2: { destruct (Z.eqb_spec (T / P) 0); cbn [Z.eqb].
         - unfold TracyLzcnt. destruct (Z.ltb_spec 0 (T mod P)); [| lia]. simpl. rewrite El2.
           destruct (Z.eqb_spec (63 - (k - 1)) 0); [lia |]. rewrite EP. do 2 f_equal. lia.
         - now destruct (Z.eqb_spec P 0); [lia |]. }
    eexists. split.
    + simpl. rewrite Em, (uint_small 32), <- Ed by (unfold in_uint; lia).
      rewrite E1 in Ec. apply pair_if, Ec.
    + unfold clock_at. destruct (_ =? 0) eqn:E0; cbn; rewrite Em, E1, uint_small by (unfold in_uint; lia); lia.
  - assert (Ed : T' / P = T / P).
    { destruct Ht as [Ht | [Ed Ht]]; [| done]. destruct (Z_lt_le_dec T' (P * (T / P + 1))) as [Hs | Hs].
      - apply epoch; lia.
      - destruct (epoch P (T / P + 1) T'); lia. }
    eexists. split.
    + simpl. rewrite Eo, Em, <- Ed.
      apply pair_if, Ec.
    + cbn. rewrite Em, Eo, Ed. auto.
Qed.

Definition clock_reset (ctx : GpuCtxData) : Prop :=
  lastGpuTime ctx = 0 /\ overflow ctx = 0 /\ overflowMul ctx = 0.

Lemma unwrap_first k T ctx :
  32 <= k <= 62 -> 0 <= T < 2 ^ k -> clock_reset ctx ->
  exists ctx', unwrap_time (T mod 2 ^ k) ctx = Some (T, ctx') /\ clock_at k T ctx'.
Proof.
  intros Hk HT (El & Eo & Em). unfold unwrap_time. rewrite El, (Z.mod_small T) by lia.
  change (sint 64 (0 - 2 ^ 31)) with (- 2 ^ 31). destruct (Z.ltb_spec T (- 2 ^ 31)); [lia |].
  eexists. simpl. rewrite Eo, Em. split; [reflexivity |].
  unfold clock_at. cbn. rewrite Eo, Em, Z.div_small, Z.mod_small by lia. done.
Qed.

Lemma unwrap_ticks k Ts : forall T ctx,
  32 <= k <= 62 -> 0 <= T < 2 ^ 63 -> ticks k T Ts -> clock_at k T ctx ->
  exists ctx', unwrap_all ctx (map (fun T => T mod 2 ^ k) Ts) = Some (Ts, ctx') /\
    clock_at k (default T (last Ts)) ctx'.
Proof.
  induction Ts as [| T' Ts IH]; intros T ctx Hk HT Ht Hc; [exists ctx; done |].
  destruct Ht as (Ht & HT' & Hts).
  destruct (unwrap_tick k T T' ctx Hk HT HT' Ht Hc) as (c1 & E1 & Hc1).
  destruct (IH T' c1 Hk HT' Hts Hc1) as (c2 & E2 & Hc2).
  exists c2. cbn [map unwrap_all]. rewrite E1. simpl. rewrite E2. simpl. split; [done |].
  rewrite last_cons. destruct (last Ts); exact Hc2.
Qed.

(** C18: a GPU counter of 32 to 62 bits that wraps around any number of times, read
    by a context that was just created or synchronised, gives the time since the
    counter was started: if it advances by less than half its range from one reading
    to the next, or readings of the same turn arrive up to 2^31 late, then the times
    the server computes are the true ones, and its shift is never undefined. *)
Theorem unwrap_time_true (k T : Z) (Ts : list Z) (ctx : GpuCtxData) :
  32 <= k <= 62 -> 0 <= T < 2 ^ k -> ticks k T Ts -> clock_reset ctx ->
  exists ctx', unwrap_all ctx (map (fun T => T mod 2 ^ k) (T :: Ts)) = Some (T :: Ts, ctx') /\
    clock_at k (default T (last Ts)) ctx'.
Proof.
  intros Hk HT Hts Hc. destruct (unwrap_first k T ctx Hk HT Hc) as (c1 & E1 & Hc1).
  assert (2 ^ k <= 2 ^ 62) by (apply Z.pow_le_mono_r; lia).
  destruct (unwrap_ticks k Ts T c1 Hk ltac:(lia) Hts Hc1) as (c2 & E2 & Hc2).
  exists c2. cbn [map unwrap_all]. rewrite E1. simpl. rewrite E2. done.
Qed.

(** A counter of 32 bits that wraps around between the first and the second reading;
    the third one comes a little late. *)
Definition demo_clock : GpuCtxData :=
  mkGpuCtx 0 0 0 one 0 false false 0 0 one 0 0 0 StringIdx.none ∅ ∅ ∅ ∅.
Lemma unwrap_time_true_witness : exists ctx',
  unwrap_all demo_clock [2 ^ 32 - 10; 20; 15] = Some ([2 ^ 32 - 10; 2 ^ 32 + 20; 2 ^ 32 + 15], ctx').
Proof.
  destruct (unwrap_time_true 32 (2 ^ 32 - 10) [2 ^ 32 + 20; 2 ^ 32 + 15] demo_clock) as (ctx' & E & _).
  - lia.
  - lia.
  - split; [left; lia | split; [lia |]]. split; [right; split; [reflexivity | lia] | split; [lia | exact I]].
  - split; [reflexivity | split; reflexivity].
  - exists ctx'. exact E.
Defined.
