(* ===== verification/GpuRefine.v ===== *)
(** * GPU zones: the server's objects are a function of the report

    The zones, their trees and the queries of the contexts, against the list of
    what was reported ([gzone]).  A zone that is open waits for one timestamp less
    than it will get: the queries that hold a zone and the timestamps it received
    are always one, or two once it was left. *)
From S2P Require Import Prelude Double Queue Event Containers Discovery Trace Server ServerSpec ServerZone ServerGpu.

(** ** What was reported *)

(** A zone: its context, the key of its thread there, its source location, its
    compressed thread, when it was entered and left on the CPU, the zone around it,
    and the timestamps that arrived for it. *)
Record gzone := mkGz {
  zn_ctx : nat; zn_key : Z; zn_src : Z; zn_thread : Z; zn_cpu : Z; zn_end : option Z;
  zn_parent : option nat; zn_times : list Z }.
#[export] Instance eta_gzone : Eta gzone := fun r =>
  mkGz (zn_ctx r) (zn_key r) (zn_src r) (zn_thread r) (zn_cpu r) (zn_end r) (zn_parent r) (zn_times r).

Definition root_of (c : nat) (k : Z) (a : gzone) : bool :=
  bool_decide (zn_ctx a = c /\ zn_key a = k /\ zn_parent a = None).
Definition open_of (c : nat) (k : Z) (a : gzone) : bool :=
  bool_decide (zn_ctx a = c /\ zn_key a = k /\ zn_end a = None).
Definition child_of (p : nat) (a : gzone) : bool := bool_decide (zn_parent a = Some p).

(** The addresses of the zones with a property, in the order in which they were
    entered. *)
Definition holds_at (p : gzone -> bool) (zs : list gzone) (i : nat) : bool :=
  match zs !! i with Some a => p a | None => false end.
Definition addrs (p : gzone -> bool) (zs : list gzone) : list nat :=
  filter (fun i => holds_at p zs i = true) (seq 0 (length zs)).

Lemma filter_ext_in {A} (P Q : A -> bool) (l : list A) :
  (forall i, i ∈ l -> P i = Q i) -> filter (fun i => P i = true) l = filter (fun i => Q i = true) l.
Proof.
  induction l as [| i l IH]; intros H; [done |]. rewrite !filter_cons.
  rewrite <- (H i) by left. rewrite IH by (intros; apply H; now right). done.
Qed.
Lemma filter_seq_ext (P Q : nat -> bool) n :
  (forall i, (i < n)%nat -> P i = Q i) ->
  filter (fun i => P i = true) (seq 0 n) = filter (fun i => Q i = true) (seq 0 n).
Proof. intros H. apply filter_ext_in. intros i Hi%elem_of_seq. apply H. lia. Qed.

Lemma addrs_snoc p zs a : addrs p (zs ++ [a]) = addrs p zs ++ if p a then [length zs] else [].
Proof.
  unfold addrs. rewrite length_app, seq_app, filter_app. f_equal.
  - apply filter_seq_ext. intros i Hi. unfold holds_at. now rewrite lookup_app_l.
  - change (seq (0 + length zs) (length [a])) with [length zs]. rewrite filter_cons, filter_nil. unfold holds_at. rewrite list_lookup_middle by done.
    destruct (p a); [now rewrite decide_True by done | now rewrite decide_False by done].
Qed.

Lemma holds_at_insert p zs z a i :
  (z < length zs)%nat -> holds_at p (<[z := a]> zs) i = if decide (i = z) then p a else holds_at p zs i.
Proof.
  intros Hz. unfold holds_at. destruct (decide (i = z)) as [-> | Hne].
  - now rewrite list_lookup_insert_eq.
  - now rewrite list_lookup_insert_ne by done.
Qed.

Lemma addrs_insert_same p zs z a a' : zs !! z = Some a -> p a' = p a -> addrs p (<[z := a']> zs) = addrs p zs.
Proof.
  intros Ez Ep. assert (Hz := lookup_lt_Some _ _ _ Ez). unfold addrs. rewrite length_insert.
  apply filter_seq_ext. intros i Hi. rewrite holds_at_insert by done.
  destruct (decide (i = z)) as [-> |]; [| done]. unfold holds_at. now rewrite Ez, Ep.
Qed.

Lemma addrs_insert_out p zs z a : (z < length zs)%nat -> p a = false ->
  addrs p (<[z := a]> zs) = filter (fun i => i <> z) (addrs p zs).
Proof.
  intros Hz Ep. unfold addrs. rewrite length_insert, list_filter_filter.
  apply list_filter_iff. intros i. rewrite holds_at_insert by done.
  destruct (decide (i = z)) as [-> |]; [rewrite Ep |]; intuition congruence.
Qed.

Lemma elem_addrs p zs i : i ∈ addrs p zs <-> exists a, zs !! i = Some a /\ p a = true.
Proof.
  unfold addrs. rewrite list_elem_of_filter, elem_of_seq. unfold holds_at. split.
  - intros [H _]. destruct (zs !! i); [eauto | done].
  - intros (a & Ei & Hp). rewrite Ei. split; [done |]. apply lookup_lt_Some in Ei. lia.
Qed.

Lemma addrs_none p zs : (forall i a, zs !! i = Some a -> p a = false) -> addrs p zs = [].
Proof.
  intros H. destruct (addrs p zs) as [| i l] eqn:E; [done |].
  assert (Hi : i ∈ addrs p zs) by (rewrite E; left). apply elem_addrs in Hi as (a & Ei & Ha).
  now rewrite (H i a Ei) in Ha.
Qed.

Lemma NoDup_addrs p zs : NoDup (addrs p zs).
Proof. apply NoDup_filter, NoDup_seq. Qed.

(** Without its last element, a list of addresses lacks exactly this one. *)
Lemma addrs_pop p zs z l a : addrs p zs = l ++ [z] -> p a = false -> addrs p (<[z := a]> zs) = l.
Proof.
  intros E Ep. assert (Hz : z ∈ addrs p zs) by (rewrite E; apply elem_of_app; right; left).
  apply elem_addrs in Hz as (b & Eb & _). rewrite addrs_insert_out; [| now apply lookup_lt_Some in Eb | done].
  pose proof (NoDup_addrs p zs) as Hnd. rewrite E in Hnd |- *. apply NoDup_app in Hnd as (_ & Hl & _).
  rewrite filter_app, filter_cons_False, filter_nil, app_nil_r by auto.
  assert (Forall (fun i => i <> z) l) as Hf.
  { apply Forall_forall. intros i Hi ->. apply (Hl z Hi). left. }
  clear -Hf. induction Hf; [done |]. rewrite filter_cons_True by done. now f_equal.
Qed.

(** ** Zones *)
Record zone_shows (a : gzone) (e : GpuEvent.t) : Prop := {
  zs_ok : GpuEvent.ok e;
  zs_src : GpuEvent.SrcLoc e = zn_src a;
  zs_thread : GpuEvent.Thread e = zn_thread a;
  zs_cpu : GpuEvent.CpuStart e = zn_cpu a;
  zs_end : GpuEvent.CpuEnd e = default (-1) (zn_end a);
  zs_gpu : GpuEvent.GpuStart e = default (-1) (zn_times a !! 0%nat);
  zs_gpu_end : GpuEvent.GpuEnd e = default (-1) (zn_times a !! 1%nat);
  zs_times : Forall (fun t => 0 <= t < 2 ^ 47) (zn_times a) }.

Ltac gpu_fields :=
  unfold GpuEvent.ok, GpuEvent.CpuStart, GpuEvent.CpuEnd, GpuEvent.GpuStart, GpuEvent.GpuEnd,
    GpuEvent.SrcLoc, GpuEvent.Thread, GpuEvent.Child in *; cbn in *;
  rewrite ?time48_low, ?time48_set by auto 10 with tracy; autorewrite with tracy; rewrite ?sint_uint, ?sint_small by (try lia; unfold in_sint; lia); auto 10 with tracy.

Lemma zone_shows_child a e c : zone_shows a e -> zone_shows a (GpuEvent.SetChild c e).
Proof. intros [(H1 & H2 & H3 & H4) ? ? ? ? ? ? ?]. split; try done; gpu_fields. Qed.

Lemma zone_shows_end a e e' t :
  zone_shows a e -> - 2 ^ 47 <= t -> GpuEvent.SetCpuEnd t e = Some e' ->
  zone_shows (a <| zn_end := Some t |>) e' /\ GpuEvent.Child e' = GpuEvent.Child e.
Proof.
  intros [(H1 & H2 & H3 & H4) ? ? ? ? ? ? ?] Ht E. unfold GpuEvent.SetCpuEnd in E.
  apply assert47_some in E as [-> Hlt]. split; [split; try done |]; gpu_fields.
Qed.

(** The first and the second timestamp of a zone. *)
Lemma zone_shows_first a e t :
  zone_shows a e -> zn_times a = [] -> 0 <= t < 2 ^ 47 ->
  GpuEvent.GpuStart e < 0 /\ zone_shows (a <| zn_times ::= (fun l => l ++ [t]) |>) (GpuEvent.SetGpuStart t e) /\
  GpuEvent.Child (GpuEvent.SetGpuStart t e) = GpuEvent.Child e.
Proof.
  intros [(H1 & H2 & H3 & H4) ? ? ? ? Hg Hge ?] El Ht. rewrite El in Hg, Hge. split; [rewrite Hg; simpl; lia |].
  split; [| gpu_fields]. split; cbn [zn_times over]; rewrite ?El; [| done | done | done | done | | exact Hge |].
  - gpu_fields.
  - simpl. gpu_fields.
  - repeat constructor; lia.
Qed.

Lemma zone_shows_second a e e' t t0 :
  zone_shows a e -> zn_times a = [t0] -> 0 <= t < 2 ^ 47 -> GpuEvent.SetGpuEnd t e = Some e' ->
  GpuEvent.GpuStart e = t0 /\ 0 <= t0 /\ zone_shows (a <| zn_times ::= (fun l => l ++ [t]) |>) e' /\
  GpuEvent.Child e' = GpuEvent.Child e.
Proof.
  intros [(H1 & H2 & H3 & H4) ? ? ? ? Hg Hge Hts] El Ht E. unfold GpuEvent.SetGpuEnd in E.
  apply assert47_some in E as [-> _]. rewrite El in Hg, Hge, Hts. assert (Ht0 := proj1 (Forall_singleton _ _) Hts).
  cbv beta in Ht0. split; [exact Hg |]. split; [lia |].
  split; [| gpu_fields]. split; cbn [zn_times over]; rewrite ?El; [| done | done | done | done | exact Hg | |].
  - gpu_fields.
  - simpl. gpu_fields.
  - repeat constructor; lia.
Qed.

Lemma Child_SetThread v e : GpuEvent.Child (GpuEvent.SetThread v e) = GpuEvent.Child e.
Proof. reflexivity. Qed.

(** A zone that was just entered. *)
Lemma init_gpu_zone_shows src thr time queryId e e1 c k p :
  GpuEvent.ok e -> GpuEvent.SrcLoc e = src -> - 2 ^ 47 <= time ->
  init_gpu_zone time queryId e = Some e1 ->
  zone_shows (mkGz c k src (uint 16 thr) time None p []) (GpuEvent.SetThread thr e1) /\
  GpuEvent.Child (GpuEvent.SetThread thr e1) = -1.
Proof.
  intros (H1 & H2 & H3 & H4) Hs Ht E. unfold init_gpu_zone in E.
  unfold GpuEvent.SetCpuStart, GpuEvent.SetCpuEnd, GpuEvent.SetGpuEnd in E. simpl in E.
  destruct (assert47 time _) as [x |] eqn:Ex; [| done]. simpl in E.
  apply assert47_some in Ex as [-> Hlt]. injection E as <-.
  split.
  - split; cbn [zn_src zn_thread zn_cpu zn_end zn_times].
    + gpu_fields.
    + rewrite <- Hs. gpu_fields.
    + gpu_fields.
    + transitivity (sint 48 time); [| apply sint_small; [lia | unfold in_sint; lia]]. gpu_fields.
    + gpu_fields.
    + gpu_fields.
    + gpu_fields.
    + constructor.
  - rewrite Child_SetThread, GpuEvent.SetChild_Child. reflexivity.
Qed.

(** ** Trees *)
Record forest_shows (zs : list gzone) (h : list GpuEvent.t) (ch : list (list nat)) : Prop := {
  fo_zones : Forall2 zone_shows zs h;
  fo_children : forall z e, h !! z = Some e ->
    if GpuEvent.Child e <? 0 then addrs (child_of z) zs = []
    else ch !! Z.to_nat (GpuEvent.Child e) = Some (addrs (child_of z) zs);
  fo_unshared : forall z1 z2 e1 e2, h !! z1 = Some e1 -> h !! z2 = Some e2 ->
    0 <= GpuEvent.Child e1 -> GpuEvent.Child e1 = GpuEvent.Child e2 -> z1 = z2;
  fo_parents : forall a p, a ∈ zs -> zn_parent a = Some p -> (p < length zs)%nat }.

(** How [link_gpu_zone] files the zone [n]: the heap and the child lists. *)
Inductive linked (n : nat) : option nat -> list GpuEvent.t -> list (list nat) ->
    list GpuEvent.t -> list (list nat) -> Prop :=
  | linked_root h ch : linked n None h ch h ch
  | linked_first p b h ch : h !! p = Some b -> GpuEvent.Child b < 0 ->
      linked n (Some p) h ch (<[p := GpuEvent.SetChild (sint 32 (Z.of_nat (length ch))) b]> h) (ch ++ [[n]])
  | linked_next p b l h ch : h !! p = Some b -> 0 <= GpuEvent.Child b ->
      ch !! Z.to_nat (GpuEvent.Child b) = Some l ->
      linked n (Some p) h ch h (<[Z.to_nat (GpuEvent.Child b) := l ++ [n]]> ch).

Lemma forest_update zs h ch z a a' e' :
  forest_shows zs h ch -> zs !! z = Some a -> zone_shows a' e' -> zn_parent a' = zn_parent a ->
  (forall e, h !! z = Some e -> GpuEvent.Child e' = GpuEvent.Child e) ->
  forest_shows (<[z := a']> zs) (<[z := e']> h) ch.
Proof.
  intros [H1 H2 H3 H4] Ez Hs Hp Hc.
  assert (Hlen := Forall2_length _ _ _ H1). assert (Hz := lookup_lt_Some _ _ _ Ez).
  destruct (h !! z) as [e |] eqn:Eh; [| apply lookup_ge_None in Eh; lia]. specialize (Hc e eq_refl).
  assert (Hl : forall i x, <[z := e']> h !! i = Some x ->
    exists y, h !! i = Some y /\ GpuEvent.Child x = GpuEvent.Child y).
  { intros i x. destruct (decide (i = z)) as [-> | Hne].
    - rewrite list_lookup_insert_eq by lia. intros [= <-]. eauto.
    - rewrite list_lookup_insert_ne by done. eauto. }
  split.
  - apply Forall2_insert; done.
  - intros i x Ei. destruct (Hl i x Ei) as (y & Ey & ->).
    rewrite (addrs_insert_same (child_of i) zs z a a' Ez).
    2: { unfold child_of. now rewrite Hp. }
    exact (H2 i y Ey).
  - intros z1 z2 e1 e2 E1 E2. destruct (Hl _ _ E1) as (y1 & Ey1 & ->), (Hl _ _ E2) as (y2 & Ey2 & ->).
    now apply H3.
  - intros b p Hb Eb. rewrite length_insert. apply list_elem_of_lookup_1 in Hb as [i Ei].
    apply list_lookup_insert_Some in Ei as [(<- & <- & _) | (_ & Ei)].
    + rewrite Hp in Eb. exact (H4 a p (list_elem_of_lookup_2 _ _ _ Ez) Eb).
    + exact (H4 b p (list_elem_of_lookup_2 _ _ _ Ei) Eb).
Qed.

Lemma child_of_snoc zs p a : addrs (child_of p) (zs ++ [a]) =
  addrs (child_of p) zs ++ if decide (zn_parent a = Some p) then [length zs] else [].
Proof.
  rewrite addrs_snoc. unfold child_of.
  case_bool_decide; [rewrite decide_True by done | rewrite decide_False by done]; done.
Qed.

(** A zone that was just entered is filed under its parent. *)
Lemma forest_enter zs h ch a e h' ch' :
  forest_shows zs h ch -> zone_shows a e -> GpuEvent.Child e = -1 ->
  (forall p, zn_parent a = Some p -> (p < length zs)%nat) -> Z.of_nat (length ch) < 2 ^ 31 ->
  linked (length zs) (zn_parent a) (h ++ [e]) ch h' ch' -> forest_shows (zs ++ [a]) h' ch'.
Proof.
  intros [H1 H2 H3 H4] Hs Hc Hp Hch Hl. assert (Hlen := Forall2_length _ _ _ H1).
  assert (Hparents : forall b p, b ∈ zs ++ [a] -> zn_parent b = Some p -> (p < length (zs ++ [a]))%nat).
  { intros b p Hb Eb. rewrite length_app. cbn. apply elem_of_app in Hb as [Hb | ->%list_elem_of_singleton].
    - specialize (H4 b p Hb Eb). lia.
    - specialize (Hp p Eb). lia. }
  assert (Hnew : addrs (child_of (length zs)) (zs ++ [a]) = []).
  { rewrite child_of_snoc, decide_False, app_nil_r by (intros E; specialize (Hp _ E); lia).
    apply addrs_none. intros i b Ei. apply bool_decide_eq_false. intros E.
    specialize (H4 b _ (list_elem_of_lookup_2 _ _ _ Ei) E). lia. }
  assert (Hcase : forall z x, (h ++ [e]) !! z = Some x ->
    (z = length zs /\ GpuEvent.Child x = -1) \/ h !! z = Some x).
  { intros z x Ex. apply lookup_app_Some in Ex as [Ex | [Hge Ex]]; [auto |]. left.
    apply list_lookup_singleton_Some in Ex as [? <-]. split; [lia | done]. }
  assert (Hzones : Forall2 zone_shows (zs ++ [a]) (h ++ [e])) by (apply Forall2_app; auto).
  assert (Hother : forall z x, h !! z = Some x -> zn_parent a <> Some z ->
    if GpuEvent.Child x <? 0 then addrs (child_of z) (zs ++ [a]) = []
    else ch !! Z.to_nat (GpuEvent.Child x) = Some (addrs (child_of z) (zs ++ [a]))).
  { intros z x Ex Hne. rewrite child_of_snoc, decide_False, app_nil_r by done. now apply H2. }
  inversion Hl as [h0 ch0 Ep | p b h0 ch0 Eb Hb Ep | p b l h0 ch0 Eb Hb El Ep]; subst h' ch' h0 ch0.
  - split; try done.
    + intros z x Ex. destruct (Hcase z x Ex) as [(-> & ->) | Ex']; [exact Hnew |].
      apply Hother; [done | congruence].
    + intros z1 z2 e1 e2 E1 E2. destruct (Hcase _ _ E1) as [[-> ->] |], (Hcase _ _ E2) as [[-> ->] |];
        try lia. now apply H3.
  - symmetry in Ep. assert (Hpl := Hp p Ep). rewrite lookup_app_l in Eb by lia.
    assert (Ec : GpuEvent.Child (GpuEvent.SetChild (sint 32 (Z.of_nat (length ch))) b) = Z.of_nat (length ch)).
    { rewrite GpuEvent.SetChild_Child, sint_sint, sint_small by (unfold in_sint; lia). done. }
    assert (Hb2 := H2 p b Eb). destruct (Z.ltb_spec (GpuEvent.Child b) 0); [| lia].
    assert (Hins : forall z x, <[p := GpuEvent.SetChild (sint 32 (Z.of_nat (length ch))) b]> (h ++ [e]) !! z = Some x ->
      (z = p /\ GpuEvent.Child x = Z.of_nat (length ch)) \/ (z = length zs /\ GpuEvent.Child x = -1) \/
      (z <> p /\ h !! z = Some x)).
    { intros z x. destruct (decide (z = p)) as [-> | Hne].
      - rewrite list_lookup_insert_eq by (rewrite length_app; lia). intros [= <-]. auto.
      - rewrite list_lookup_insert_ne by done. intros Ex. destruct (Hcase z x Ex) as [? | ?]; auto. }
    assert (Hfresh : forall z x, h !! z = Some x -> GpuEvent.Child x <> Z.of_nat (length ch)).
    { intros z x Ex E. specialize (H2 z x Ex). rewrite E in H2. destruct (Z.ltb_spec (Z.of_nat (length ch)) 0); [lia |].
      apply lookup_lt_Some in H2. lia. }
    split; try done.
    + destruct (lookup_lt_is_Some_2 (zs ++ [a]) p) as [x Ex]; [rewrite length_app; lia |].
      rewrite <- (list_insert_id (zs ++ [a]) p x Ex). apply Forall2_insert; [done |].
      apply zone_shows_child. eapply (Forall2_lookup_lr zone_shows); [exact Hzones | exact Ex |].
      rewrite lookup_app_l by lia. exact Eb.
    + intros z x Ex. destruct (Hins z x Ex) as [[-> ->] | [[-> ->] | [Hne Ex']]]; [| exact Hnew |].
      * destruct (Z.ltb_spec (Z.of_nat (length ch)) 0); [lia |]. rewrite Nat2Z.id, list_lookup_middle by done.
        now rewrite child_of_snoc, decide_True, Hb2 by done.
      * specialize (Hother z x Ex' ltac:(congruence)). destruct (GpuEvent.Child x <? 0); [done |].
        now apply lookup_app_l_Some.
    + intros z1 z2 e1 e2 E1 E2 Hge Heq.
      destruct (Hins _ _ E1) as [[-> F1] | [[-> F1] | [N1 F1]]], (Hins _ _ E2) as [[-> F2] | [[-> F2] | [N2 F2]]];
        try lia; try done.
      * destruct (Hfresh _ _ F2). lia.
      * destruct (Hfresh _ _ F1). lia.
      * now apply (H3 z1 z2 e1 e2).
  - symmetry in Ep. assert (Hpl := Hp p Ep). rewrite lookup_app_l in Eb by lia.
    assert (Hb2 := H2 p b Eb). destruct (Z.ltb_spec (GpuEvent.Child b) 0); [lia |].
    assert (l = addrs (child_of p) zs) as -> by congruence.
    split; try done.
    + intros z x Ex. destruct (Hcase z x Ex) as [[-> ->] | Ex']; [exact Hnew |].
      destruct (decide (z = p)) as [-> | Hne].
      * assert (x = b) as -> by congruence. destruct (Z.ltb_spec (GpuEvent.Child b) 0); [lia |].
        rewrite child_of_snoc, decide_True by done.
        apply list_lookup_insert_eq. now apply lookup_lt_Some in El.
      * specialize (Hother z x Ex' ltac:(congruence)). destruct (Z.ltb_spec (GpuEvent.Child x) 0); [done |].
        rewrite list_lookup_insert_ne; [done |]. intros E. apply Hne. symmetry.
        apply (H3 p z b x); [done | done | done | lia].
    + intros z1 z2 e1 e2 E1 E2. destruct (Hcase _ _ E1) as [[-> ->] |], (Hcase _ _ E2) as [[-> ->] |];
        try lia. now apply H3.
Qed.

(** ** Contexts *)
(** The number of queries that hold the zone [z]. *)
Definition waiting (m : gmap Z nat) (z : nat) : nat := size (filter (fun kv => kv.2 = z) m).

Lemma waiting_insert m q z z' : m !! q = None ->
  waiting (<[q := z]> m) z' = ((if decide (z = z') then 1 else 0) + waiting m z')%nat.
Proof.
  intros Eq. unfold waiting. destruct (decide (z = z')) as [-> | Hne].
  - rewrite map_filter_insert_True by done. rewrite map_size_insert_None; [done |].
    apply map_lookup_filter_None. now left.
  - now rewrite map_filter_insert_not' by (done || (intros y; congruence)).
Qed.

Lemma waiting_delete m q z z' : m !! q = Some z ->
  waiting m z' = ((if decide (z = z') then 1 else 0) + waiting (delete q m) z')%nat.
Proof.
  intros Eq. rewrite <- (insert_delete_id m q z Eq) at 1.
  apply waiting_insert, lookup_delete_eq.
Qed.

Lemma waiting_none m z : (forall q, m !! q <> Some z) -> waiting m z = 0%nat.
Proof.
  intros H. unfold waiting. apply map_size_empty_iff, map_empty. intros q.
  apply map_lookup_filter_None. right. intros x E. cbn. intros ->. exact (H q E).
Qed.

Definition thread_of (ctx : GpuCtxData) (k : Z) : GpuCtxThreadData :=
  default (mkGpuThread [] []) (gc_threadData ctx !! k).

Record ctx_shows (c : nat) (zs : list gzone) (ctx : GpuCtxData) : Prop := {
  co_threads : forall k, thread_of ctx k = mkGpuThread (addrs (root_of c k) zs) (addrs (open_of c k) zs);
  co_queries : forall q z, query ctx !! q = Some z -> exists a, zs !! z = Some a /\ zn_ctx a = c;
  co_waits : forall z a, zs !! z = Some a -> zn_ctx a = c ->
    (waiting (query ctx) z + length (zn_times a) = if zn_end a is Some _ then 2 else 1)%nat }.

Record ctxs_show (zs : list gzone) (gd : list GpuCtxData) : Prop := {
  co_all : forall c ctx, gd !! c = Some ctx -> ctx_shows c zs ctx;
  co_zones : Forall (fun a => zn_ctx a < length gd)%nat zs }.

(** A step that concerns the zones of one context only. *)
Definition changes_ctx (c : nat) (zs zs' : list gzone) : Prop :=
  (forall p, (forall a, zn_ctx a = c -> p a = false) -> addrs p zs' = addrs p zs) /\
  (forall z a, zn_ctx a <> c -> zs' !! z = Some a <-> zs !! z = Some a).

Lemma ctx_shows_other c c' zs zs' ctx :
  changes_ctx c zs zs' -> c' <> c -> ctx_shows c' zs ctx -> ctx_shows c' zs' ctx.
Proof.
  intros [Hp Hz] Hne [H1 H2 H3]. split.
  - intros k. rewrite (Hp (root_of c' k)), (Hp (open_of c' k)); [apply H1 | |];
      intros a Ha; apply bool_decide_eq_false; intros (? & _); congruence.
  - intros q z E. destruct (H2 q z E) as (a & Ez & Ha). exists a. split; [apply Hz; congruence | done].
  - intros z a Ez Ha. apply H3; [apply Hz; congruence | done].
Qed.

Lemma ctxs_change c zs zs' gd ctx ctx' :
  ctxs_show zs gd -> gd !! c = Some ctx -> changes_ctx c zs zs' -> ctx_shows c zs' ctx' ->
  Forall (fun a => zn_ctx a < length gd)%nat zs' -> ctxs_show zs' (<[c := ctx']> gd).
Proof.
  intros [H1 H2] Ec Hch Hc Hz. split; [| now rewrite length_insert].
  intros c' x. destruct (decide (c' = c)) as [-> | Hne].
  - rewrite list_lookup_insert_eq by (now apply lookup_lt_Some in Ec). now intros [= <-].
  - rewrite list_lookup_insert_ne by done. intros Ex. eapply ctx_shows_other; eauto.
Qed.

Lemma changes_snoc c zs a : zn_ctx a = c -> changes_ctx c zs (zs ++ [a]).
Proof.
  intros Ha. split.
  - intros p Hp. now rewrite addrs_snoc, Hp, app_nil_r.
  - intros z b Hb. split; [| apply lookup_app_l_Some]. intros E.
    apply lookup_app_Some in E as [E | [_ E]]; [done |].
    apply list_lookup_singleton_Some in E as [_ <-]. done.
Qed.

Lemma changes_insert c zs z a a' :
  zs !! z = Some a -> zn_ctx a = c -> zn_ctx a' = c -> changes_ctx c zs (<[z := a']> zs).
Proof.
  intros Ez Ha Ha'. split.
  - intros p Hp. apply addrs_insert_same with a; [done |]. now rewrite !Hp.
  - intros i b Hb. rewrite list_lookup_insert_Some. split.
    + intros [(_ & <- & _) | [_ E]]; [done | exact E].
    + intros E. right. split; [| done]. intros ->. congruence.
Qed.

(** *** The three steps in a context *)
Lemma ctx_enter c zs ctx ctx' a q k :
  ctx_shows c zs ctx ->
  zn_ctx a = c -> zn_key a = k -> zn_end a = None -> zn_times a = [] ->
  query ctx !! q = None -> query ctx' = <[q := length zs]> (query ctx) ->
  gc_threadData ctx' = <[k := mkGpuThread
    (gt_timeline (thread_of ctx k) ++ if zn_parent a is Some _ then [] else [length zs])
    (gt_stack (thread_of ctx k) ++ [length zs])]> (gc_threadData ctx) ->
  ctx_shows c (zs ++ [a]) ctx'.
Proof.
  intros [H1 H2 H3] Hc Hk He Ht Eq Eq' Etd.
  assert (Hw : waiting (query ctx) (length zs) = 0%nat).
  { apply waiting_none. intros q' E. destruct (H2 q' _ E) as (b & Eb & _). apply lookup_lt_Some in Eb. lia. }
  split.
  - intros k'. rewrite !addrs_snoc. unfold thread_of. rewrite Etd. destruct (decide (k' = k)) as [-> | Hne].
    + rewrite lookup_insert_eq. cbn. rewrite H1. cbn. f_equal; f_equal.
      * unfold root_of. destruct (zn_parent a) eqn:Ep;
          [rewrite bool_decide_eq_false_2 by (intros (_ & _ & ?); congruence) |
           rewrite bool_decide_eq_true_2 by done]; done.
      * unfold open_of. now rewrite bool_decide_eq_true_2 by done.
    + rewrite lookup_insert_ne by done. unfold root_of at 2, open_of at 2.
      rewrite !bool_decide_eq_false_2, !app_nil_r by (intros (_ & ? & _); congruence).
      apply H1.
  - intros q' z. rewrite Eq'. intros [[<- <-] | [_ E]]%lookup_insert_some.
    + exists a. now rewrite list_lookup_middle.
    + destruct (H2 q' z E) as (b & Eb & Hb). exists b. split; [now apply lookup_app_l_Some | done].
  - intros z b Eb Hb. rewrite Eq', waiting_insert by done.
    apply lookup_app_Some in Eb as [Eb | [Hge Eb]].
    + rewrite decide_False by (apply lookup_lt_Some in Eb; lia). now apply H3.
    + apply list_lookup_singleton_Some in Eb as [Ez <-]. assert (z = length zs) as -> by lia.
      rewrite decide_True, Hw, He, Ht by done. done.
Qed.

Lemma ctx_leave c zs ctx ctx' z a t q k l :
  ctx_shows c zs ctx -> zs !! z = Some a -> gt_stack (thread_of ctx k) = l ++ [z] ->
  query ctx !! q = None -> query ctx' = <[q := z]> (query ctx) ->
  gc_threadData ctx' = <[k := mkGpuThread (gt_timeline (thread_of ctx k)) l]> (gc_threadData ctx) ->
  ctx_shows c (<[z := a <| zn_end := Some t |>]> zs) ctx'.
Proof.
  intros [H1 H2 H3] Ez Est Eq Eq' Etd. rewrite H1 in Est, Etd. cbn in Est, Etd.
  assert (Hz : z ∈ addrs (open_of c k) zs) by (rewrite Est; apply elem_of_app; right; left).
  apply elem_addrs in Hz as (b & Eb & Hb%bool_decide_eq_true). simplify_eq.
  destruct Hb as (Hc & Hk & He).
  assert (Hsame : forall p, p (a <| zn_end := Some t |>) = p a -> addrs p (<[z := a <| zn_end := Some t |>]> zs) = addrs p zs)
    by (intros; now apply addrs_insert_same with a).
  split.
  - intros k'. unfold thread_of. rewrite Etd, (Hsame (root_of c k')) by done. destruct (decide (k' = k)) as [-> | Hne].
    + rewrite lookup_insert_eq. cbn. f_equal. symmetry. apply addrs_pop; [done |].
      apply bool_decide_eq_false. intros (_ & _ & [=]).
    + rewrite lookup_insert_ne, (Hsame (open_of c k')) by (done || (unfold open_of;
        rewrite !bool_decide_eq_false_2; [done | intros (_ & ? & _); cbn in *; congruence ..])). apply H1.
  - intros q' z'. rewrite Eq'. intros [[<- <-] | [_ E]]%lookup_insert_some.
    + eexists. rewrite list_lookup_insert_eq by (now apply lookup_lt_Some in Ez). done.
    + destruct (H2 q' z' E) as (b & Eb2 & Hb). destruct (decide (z' = z)) as [-> | Hne].
      * eexists. rewrite list_lookup_insert_eq by (now apply lookup_lt_Some in Ez). done.
      * exists b. now rewrite list_lookup_insert_ne.
  - intros z' b E Hb. rewrite Eq', waiting_insert by done.
    apply list_lookup_insert_Some in E as [(<- & <- & _) | (Hne & E)].
    + rewrite decide_True by done. specialize (H3 z a Ez Hc). rewrite He in H3. cbn. lia.
    + rewrite decide_False by congruence. now apply H3.
Qed.

Lemma ctx_time c zs ctx ctx' z a t q :
  ctx_shows c zs ctx -> zs !! z = Some a -> query ctx !! q = Some z ->
  query ctx' = delete q (query ctx) -> gc_threadData ctx' = gc_threadData ctx ->
  ctx_shows c (<[z := a <| zn_times ::= (fun l => l ++ [t]) |>]> zs) ctx'.
Proof.
  intros [H1 H2 H3] Ez Eq Eq' Etd.
  assert (Hz := lookup_lt_Some _ _ _ Ez). split.
  - intros k. unfold thread_of. rewrite Etd, !(addrs_insert_same _ _ _ a) by done. apply H1.
  - intros q' z'. rewrite Eq'. intros [_ E]%lookup_delete_Some.
    destruct (H2 q' z' E) as (b & Eb & Hb). destruct (decide (z' = z)) as [-> | Hne].
    + eexists. rewrite list_lookup_insert_eq by done. split; [done |]. cbn. congruence.
    + exists b. now rewrite list_lookup_insert_ne.
  - intros z' b E Hb. rewrite Eq'.
    apply list_lookup_insert_Some in E as [(<- & <- & _) | (Hne & E)].
    + specialize (H3 z a Ez Hb). rewrite (waiting_delete _ q z) in H3 by done.
      rewrite decide_True in H3 by done. cbn. rewrite length_app. cbn in *. lia.
    + specialize (H3 z' b E Hb). rewrite (waiting_delete _ q z) in H3 by done.
      now rewrite decide_False in H3.
Qed.

(** ** The server *)
Record gpu_shows (zs : list gzone) (g : Gpu) : Prop := {
  gh_forest : forest_shows zs (gpu_heap g) (gpuChildren g);
  gh_ctxs : ctxs_show zs (gpuData g);
  gh_map : forall x c, m_gpuCtxMap g !! x = Some c -> (c < length (gpuData g))%nat;
  gh_last : match snd (gpuZonesLast g) with
            | Some key => key = sint 16 (fst (gpuZonesLast g)) /\ is_Some (gpuSourceLocationZones g !! key)
            | None => fst (gpuZonesLast g) = 0
            end;
  gh_srcs : Forall (fun a => in_sint 16 (zn_src a) /\ zn_src a <> 0) zs }.

(** [w'] differs from [w] in what a GPU handler may change. *)
Definition erase_gpu (w : W) : W :=
  w <| gpu := mkGpu [] ∅ [] [] 0 ∅ (0, None) |> <| lastTime := 0 |> <| m_refTimeThread := 0 |>
    <| m_refTimeSerial := 0 |> <| m_refTimeGpu := 0 |> <| localThreadCompress := ThreadCompress.empty |>.

(** The reference that an event's time is relative to. *)
Definition cpu_reference (serial : bool) (w : W) : Z :=
  if serial then m_refTimeSerial w else m_refTimeThread w.
Definition referenced (serial : bool) (t : Z) (w : W) : W :=
  if serial then w <| m_refTimeSerial := t |> else w <| m_refTimeThread := t |>.

Lemma gpu_cpu_time_wp serial dt t w (Q : Z -> W -> Prop) :
  time_of w (sint 64 (cpu_reference serial w + dt)) = Some t ->
  Q t (referenced serial (sint 64 (cpu_reference serial w + dt)) w) -> wp (gpu_cpu_time serial dt) Q w.
Proof.
  intros Et HQ. unfold gpu_cpu_time, RefTime. destruct serial; wp_steps; (eapply TscTime_wp; [exact Et | exact HQ]).
Qed.

Lemma UpdGpuZone_wp z f e e' w (Q : unit -> W -> Prop) :
  gpu_heap (gpu w) !! z = Some e -> f e = Some e' ->
  Q tt (w <| gpu ::= (fun g => g <| gpu_heap ::= <[z := e']> |>) |>) -> wp (UpdGpuZone z f) Q w.
Proof.
  intros E Ef HQ. unfold UpdGpuZone, GetGpuZone, UpdGpu. wp_steps. eapply wp_expect; [exact E |].
  wp_steps. eapply wp_expect; [exact Ef |]. wp_steps. exact HQ.
Qed.

Lemma GetGpuZone_wp z e w (Q : GpuEvent.t -> W -> Prop) :
  gpu_heap (gpu w) !! z = Some e -> Q e w -> wp (GetGpuZone z) Q w.
Proof. intros E HQ. unfold GetGpuZone. wp_steps. eapply wp_expect; [exact E | exact HQ]. Qed.

Lemma GetCtx_wp c ctx w (Q : GpuCtxData -> W -> Prop) :
  gpuData (gpu w) !! c = Some ctx -> Q ctx w -> wp (GetCtx c) Q w.
Proof. intros E HQ. unfold GetCtx. wp_steps. eapply wp_expect; [exact E | exact HQ]. Qed.

Lemma FindCtx_wp x c w (Q : nat -> W -> Prop) :
  m_gpuCtxMap (gpu w) !! x = Some c -> Q c w -> wp (FindCtx x) Q w.
Proof. intros E HQ. unfold FindCtx. wp_steps. eapply wp_expect; [exact E | exact HQ]. Qed.

Lemma wait_query_wp c q zone ctx w (Q : unit -> W -> Prop) :
  gpuData (gpu w) !! c = Some ctx -> query ctx !! q = None ->
  Q tt (w <| gpu ::= (fun g => g <| gpuData ::= <[c := ctx <| query ::= <[q := zone]> |>]> |>) |>) ->
  wp (wait_query c q zone) Q w.
Proof.
  intros Ec Eq HQ. unfold wait_query, SetCtx, UpdGpu. apply wp_bind. eapply GetCtx_wp; [exact Ec |].
  wp_steps; [| exact HQ]. apply negb_true_iff, bool_decide_eq_false. rewrite Eq. now intros [? [=]].
Qed.

Lemma insert_snoc {A} (l : list A) a b : <[length l := b]> (l ++ [a]) = l ++ [b].
Proof. rewrite insert_app_r_alt by done. now rewrite Nat.sub_diag. Qed.

Definition filed (ctx : GpuCtxData) (k : Z) (zone : nat) : GpuCtxData :=
  ctx <| gc_threadData ::= <[k := mkGpuThread
    (gt_timeline (thread_of ctx k) ++ if last (gt_stack (thread_of ctx k)) is Some _ then [] else [zone])
    (gt_stack (thread_of ctx k) ++ [zone])]> |>.

Lemma link_gpu_zone_wp c k zone ctx w (Q : unit -> W -> Prop) :
  gpuData (gpu w) !! c = Some ctx -> Z.of_nat (length (gpuChildren (gpu w))) < 2 ^ 31 ->
  (forall p, last (gt_stack (thread_of ctx k)) = Some p -> exists b, gpu_heap (gpu w) !! p = Some b /\
    (0 <= GpuEvent.Child b -> is_Some (gpuChildren (gpu w) !! Z.to_nat (GpuEvent.Child b)))) ->
  (forall h' ch', linked zone (last (gt_stack (thread_of ctx k))) (gpu_heap (gpu w)) (gpuChildren (gpu w)) h' ch' ->
    Q tt (w <| gpu ::= (fun g => g <| gpu_heap := h' |> <| gpuChildren := ch' |>
                                   <| gpuData ::= <[c := filed ctx k zone]> |>) |>)) ->
  wp (link_gpu_zone c k zone) Q w.
Proof.
  intros Ec Hch Hback HQ. unfold link_gpu_zone. apply wp_bind. eapply GetCtx_wp; [exact Ec |].
  cbv zeta. fold (thread_of ctx k). apply wp_bind. unfold SetCtx, UpdGpu.
  destruct (last (gt_stack (thread_of ctx k))) as [p |] eqn:El.
  - destruct (Hback p eq_refl) as (b & Eb & Hc). apply wp_bind. eapply GetGpuZone_wp; [exact Eb |].
    apply wp_bind. destruct (Z.ltb_spec (GpuEvent.Child b) 0) as [Hlt | Hge]; cbn [when].
    + wp_steps. eapply UpdGpuZone_wp; [exact Eb | reflexivity |]. wp_steps.
      set (L := Z.of_nat (length (gpuChildren (gpu w)))) in *.
      set (b' := GpuEvent.SetChild (sint 32 L) b).
      assert (Ec' : GpuEvent.Child b' = L).
      { unfold b'. rewrite GpuEvent.SetChild_Child, sint_sint, sint_small by (unfold in_sint; lia). done. }
      eapply GetGpuZone_wp; [apply list_lookup_insert_eq; now apply lookup_lt_Some in Eb |].
      wp_steps. eapply wp_expect; [fold L; fold b'; rewrite Ec'; unfold L; rewrite Nat2Z.id; apply list_lookup_middle; done |].
      wp_steps. fold L. fold b'. rewrite Ec'.
      assert (EL : Z.to_nat L = length (gpuChildren (gpu w))) by (unfold L; apply Nat2Z.id). rewrite EL.
      specialize (HQ _ _ (linked_first zone p b _ _ Eb Hlt)). unfold filed in HQ. rewrite El, app_nil_r in HQ.
      eapply eq_ind; [exact HQ |]. fold L. fold b'.
      rewrite <- (insert_snoc (gpuChildren (gpu w)) [] [zone]). reflexivity.
    + destruct (Hc Hge) as [l El2]. wp_steps. eapply GetGpuZone_wp; [exact Eb |]. wp_steps.
      eapply wp_expect; [exact El2 |]. wp_steps.
      specialize (HQ _ _ (linked_next zone p b l _ _ Eb Hge El2)). unfold filed in HQ. rewrite El, app_nil_r in HQ.
      exact HQ.
  - wp_steps. specialize (HQ _ _ (linked_root zone _ _)). unfold filed in HQ. rewrite El in HQ. exact HQ.
Qed.

(** ** Entering a zone *)
(** The key of the thread in the context, and the thread of the zone. *)
Definition key_in (ctx : GpuCtxData) (thread : Z) : Z := if gc_thread ctx =? 0 then thread else 0.
Definition thread_in (ctx : GpuCtxData) (thread : Z) (w : W) : Z :=
  if gc_thread ctx =? 0 then uint 16 (fst (ThreadCompress.CompressThread thread (localThreadCompress w))) else 0.

Lemma touch_lastTime_wp t w (Q : unit -> W -> Prop) :
  Q tt (w <| lastTime := Z.max (lastTime w) t |>) -> wp (touch_lastTime t) Q w.
Proof.
  intros HQ. unfold touch_lastTime. wp_steps. eapply eq_ind; [exact HQ |]. unfold over.
  f_equal. destruct (Z.ltb_spec (lastTime w) t); lia.
Qed.

(** The zone on top of a stack is in the heap, and its children where it says. *)
Lemma stack_top c zs ctx k h ch h0 e0 :
  ctx_shows c zs ctx -> forest_shows zs h ch -> h0 = h ++ [e0] ->
  forall p, last (gt_stack (thread_of ctx k)) = Some p -> exists b, h0 !! p = Some b /\
    (0 <= GpuEvent.Child b -> is_Some (ch !! Z.to_nat (GpuEvent.Child b))).
Proof.
  intros [H1 _ _] [F1 F2 _ _] -> p Hp. rewrite H1 in Hp. cbn in Hp.
  apply last_Some_elem_of, elem_addrs in Hp as (a & Ea & _).
  destruct (Forall2_lookup_l _ _ _ _ _ F1 Ea) as (b & Eb & _). exists b.
  split; [now apply lookup_app_l_Some |]. intros Hge. specialize (F2 p b Eb).
  destruct (Z.ltb_spec (GpuEvent.Child b) 0); [lia |]. rewrite F2. eauto.
Qed.

Lemma gpu_thread_spec zone ctx thread e w :
  gpu_heap (gpu w) !! zone = Some e ->
  wp (gpu_thread zone ctx thread) (fun k w' => k = key_in ctx thread /\ erase_gpu w' = erase_gpu w /\
    lastTime w' = lastTime w /\ m_refTimeThread w' = m_refTimeThread w /\ m_refTimeSerial w' = m_refTimeSerial w /\
    exists thr, uint 16 thr = thread_in ctx thread w /\
      gpu w' = (gpu w) <| gpu_heap ::= <[zone := GpuEvent.SetThread thr e]> |>) w.
Proof.
  intros Ee. unfold gpu_thread, key_in, thread_in. destruct (gc_thread ctx =? 0).
  - unfold CompressThread. wp_steps. eapply UpdGpuZone_wp; [exact Ee | reflexivity |]. wp_steps.
    split; [done |]. split; [erased |]. split_and!; try done. eexists. split; [reflexivity | done].
  - wp_steps. eapply UpdGpuZone_wp; [exact Ee | reflexivity |]. wp_steps.
    split; [done |]. split; [erased |]. split_and!; try done. exists 0. split; done.
Qed.

Lemma init_gpu_zone_some t queryId e : t < 2 ^ 47 -> exists e', init_gpu_zone t queryId e = Some e'.
Proof.
  intros Ht. unfold init_gpu_zone, GpuEvent.SetCpuStart, GpuEvent.SetCpuEnd, GpuEvent.SetGpuEnd.
  unfold assert47. rewrite (proj2 (Z.ltb_lt t (2 ^ 47)) Ht). eexists. reflexivity.
Qed.

(** The zone at the end of the heap [h] is ready to be filed. *)
Lemma start_gpu_zone_spec w h e0 c ctx cpuTime thread queryId context serial t :
  gpu_heap (gpu w) = h ++ [e0] -> GpuEvent.ok e0 ->
  m_gpuCtxMap (gpu w) !! context = Some c -> gpuData (gpu w) !! c = Some ctx ->
  time_of w (sint 64 (cpu_reference serial w + cpuTime)) = Some t -> - 2 ^ 47 <= t < 2 ^ 47 ->
  wp (start_gpu_zone (length h) cpuTime thread queryId context serial) (fun p w' =>
    p = (c, key_in ctx thread) /\ erase_gpu w' = erase_gpu w /\ lastTime w' = Z.max (lastTime w) t /\
    cpu_reference serial w' = sint 64 (cpu_reference serial w + cpuTime) /\
    exists e1, gpu w' = (gpu w) <| gpuCnt ::= (fun n => uint 64 (n + 1)) |> <| gpu_heap := h ++ [e1] |> /\
      GpuEvent.Child e1 = -1 /\ forall k p, zone_shows (mkGz c k (GpuEvent.SrcLoc e0)
        (thread_in ctx thread w) t None p []) e1) w.
Proof.
  intros Eh Hok Em Ec Et Ht. destruct (init_gpu_zone_some t queryId e0) as [e1 Ei]; [lia |].
  unfold start_gpu_zone, UpdGpu. wp_steps. eapply FindCtx_wp; [exact Em |].
  wp_steps. eapply GetCtx_wp; [exact Ec |]. wp_steps.
  set (w1 := w <| gpu ::= _ |>). eapply (gpu_cpu_time_wp serial cpuTime t w1); [exact Et |].
  set (w2 := referenced _ _ w1).
  assert (G2 : gpu w2 = (gpu w) <| gpuCnt ::= (fun n => uint 64 (n + 1)) |>) by (now destruct serial).
  wp_steps. eapply UpdGpuZone_wp; [| exact Ei |].
  { rewrite G2. cbn. rewrite Eh. now apply list_lookup_middle. }
  wp_steps. set (w3 := w2 <| gpu ::= _ |>).
  assert (G3 : gpu w3 = (gpu w) <| gpuCnt ::= (fun n => uint 64 (n + 1)) |> <| gpu_heap := h ++ [e1] |>).
  { rewrite <- (insert_snoc h e0 e1), <- Eh.
    transitivity ((gpu w2) <| gpu_heap ::= <[length h := e1]> |>); [reflexivity |]. now rewrite G2. }
  eapply wp_mono; [apply (gpu_thread_spec (length h) ctx thread e1 w3) |].
  { rewrite G3. cbn. now apply list_lookup_middle. }
  intros k w4 (-> & F4 & L4 & T4 & S4 & thr & Ethr & G4).
  wp_steps. apply touch_lastTime_wp. wp_steps. split; [done |]. split; [| split; [| split]].
  - transitivity (erase_gpu w4); [erased |]. rewrite F4. destruct serial; erased.
  - cbn. rewrite L4. destruct serial; reflexivity.
  - destruct serial; cbn; rewrite ?T4, ?S4; reflexivity.
  - exists (GpuEvent.SetThread thr e1). split; [| split].
    + change (gpu w4 = (gpu w) <| gpuCnt ::= (fun n => uint 64 (n + 1)) |>
        <| gpu_heap := h ++ [GpuEvent.SetThread thr e1] |>).
      rewrite <- (insert_snoc h e1 _), G4, G3. reflexivity.
    + exact (proj2 (init_gpu_zone_shows _ thr t queryId e0 e1 c 0 None Hok eq_refl ltac:(lia) Ei)).
    + intros k p. replace (thread_in ctx thread w) with (uint 16 thr)
        by (rewrite Ethr; destruct serial; reflexivity).
      exact (proj1 (init_gpu_zone_shows _ thr t queryId e0 e1 c k p Hok eq_refl ltac:(lia) Ei)).
Qed.

Definition entered (c : nat) (ctx : GpuCtxData) (thread src t : Z) (zs : list gzone) (w : W) : gzone :=
  mkGz c (key_in ctx thread) src (thread_in ctx thread w) t None
    (last (addrs (open_of c (key_in ctx thread)) zs)) [].

(** What the handlers of a zone's start share, for a zone whose source location is
    already set. *)
Lemma ImplCommon_wp zs w h e0 c ctx cpuTime thread queryId context serial t :
  gpu_shows zs ((gpu w) <| gpu_heap := h |>) -> gpu_heap (gpu w) = h ++ [e0] ->
  GpuEvent.ok e0 -> in_sint 16 (GpuEvent.SrcLoc e0) -> GpuEvent.SrcLoc e0 <> 0 ->
  m_gpuCtxMap (gpu w) !! context = Some c -> gpuData (gpu w) !! c = Some ctx ->
  query ctx !! queryId = None -> Z.of_nat (length (gpuChildren (gpu w))) < 2 ^ 31 ->
  time_of w (sint 64 (cpu_reference serial w + cpuTime)) = Some t -> - 2 ^ 47 <= t < 2 ^ 47 ->
  wp (ProcessGpuZoneBeginImplCommon (length h) cpuTime thread queryId context serial) (fun _ w' =>
    gpu_shows (zs ++ [entered c ctx thread (GpuEvent.SrcLoc e0) t zs w]) (gpu w') /\
    erase_gpu w' = erase_gpu w /\ lastTime w' = Z.max (lastTime w) t /\
    cpu_reference serial w' = sint 64 (cpu_reference serial w + cpuTime)) w.
Proof.
  intros [Hf [Hall Hzn] Hmap Hlast Hsrcs] Eh Hok Hsr Hs0 Em Ec Eq Hch Et Ht.
  assert (Hcs := Hall c ctx Ec). assert (Hlen := Forall2_length _ _ _ (fo_zones _ _ _ Hf)). cbn in Hlen, Hf.
  unfold ProcessGpuZoneBeginImplCommon. wp_steps.
  eapply wp_mono; [eapply (start_gpu_zone_spec w h e0 c ctx); eauto |].
  intros p w5 (-> & F5 & L5 & R5 & e1 & G5 & Hc & Hz). cbn [fst snd]. unfold entered.
  set (k := key_in ctx thread) in *. specialize (Hz k (last (addrs (open_of c k) zs))).
  set (a := mkGz _ _ _ _ _ _ _ _) in *.
  assert (Estk : gt_stack (thread_of ctx k) = addrs (open_of c k) zs) by (now rewrite (co_threads _ _ _ Hcs)).
  wp_steps. eapply (link_gpu_zone_wp c k (length h) ctx).
  { rewrite G5. exact Ec. }
  { rewrite G5. exact Hch. }
  { rewrite G5. eapply stack_top; [exact Hcs | exact Hf | reflexivity]. }
  intros h' ch' Hl. rewrite G5, Estk in Hl. cbn in Hl. rewrite <- Hlen in *. wp_steps.
  eapply (wait_query_wp c queryId (length zs) (filed ctx k (length zs))).
  { cbn. rewrite G5. cbn. apply list_lookup_insert_eq. now apply lookup_lt_Some in Ec. }
  { exact Eq. }
  split; [| split; [rewrite <- F5; erased | split; [exact L5 | rewrite <- R5; now destruct serial]]].
  split; cbn; rewrite ?G5; cbn.
  - eapply forest_enter; [exact Hf | exact Hz | exact Hc | | exact Hch | exact Hl].
    intros p Hp. cbn in Hp. apply last_Some_elem_of, elem_addrs in Hp as (b & Eb & _).
    now apply lookup_lt_Some in Eb.
  - rewrite list_insert_insert_eq. eapply (ctxs_change c zs); [split; [exact Hall | exact Hzn] | exact Ec | | |].
    + now apply changes_snoc.
    + eapply (ctx_enter c zs ctx _ a queryId k Hcs); try done. cbn. unfold filed. cbn. now rewrite Estk.
    + apply Forall_snoc. split; [exact Hzn |]. now apply lookup_lt_Some in Ec.
  - intros x c' Ex. rewrite !length_insert. exact (Hmap x c' Ex).
  - exact Hlast.
  - apply Forall_snoc. auto.
Qed.

Lemma srcs_ok_same w w' :
  srcs_ok w -> erase_gpu w' = erase_gpu w -> srcs_ok w'.
Proof.
  intros Hs E. eapply srcs_ok_frame; [exact Hs | ..]; [exact (f_equal m_sourceLocationShrink E) |
    exact (f_equal sourceLocationZones E) | exact (f_equal shrinkSrclocLast E) |
    exact (f_equal srclocZonesLast E) | exact (f_equal sourceLocationExpand E) |
    exact (f_equal m_pendingSourceLocationPayload E)].
Qed.

(** What entering a zone may change. *)
Definition erase_entered (w : W) : W :=
  erase_gpu (w <| m_failure := NoFailure |> <| m_failureData := mkFailureData 0 0 0 [] |>
    <| m_serverQueryQueuePrio := [] |> <| checkSrclocLast := 0 |> <| sourceLocation := ∅ |>
    <| m_pendingSourceLocation := 0 |> <| m_sourceLocationQueue := [] |>
    <| sourceLocationExpand := [] |> <| sourceLocationZones := ∅ |>
    <| srclocZonesLast := (0, None) |> <| m_sourceLocationShrink := ∅ |>
    <| shrinkSrclocLast := (0, 0) |>).

(** The source location of a zone: checked and shrunk, in the state after that. *)
Lemma srcloc_spec srcloc w :
  srcs_ok w -> srcloc <> max_u64 -> Z.of_nat (length (sourceLocationExpand w)) + 1 < int16_max ->
  wp (CheckSourceLocation srcloc;; ShrinkSourceLocation srcloc) (fun src w' => srcs_ok w' /\
    in_sint 16 src /\ src <> 0 /\
    (is_Some (sourceLocationZones w' !! src) /\ source_of w' src = Some srcloc) /\
    erase_entered w' = erase_entered w /\ gpu w' = gpu w /\ lastTime w' = lastTime w /\
    m_refTimeThread w' = m_refTimeThread w /\ m_refTimeSerial w' = m_refTimeSerial w /\
    localThreadCompress w' = localThreadCompress w) w.
Proof.
  intros Hsrc Hmax Hex. wp_steps. wp_call CheckSourceLocation_spec. intros _ w1 [H1 _].
  assert (Hs1 : srcs_ok w1).
  { eapply srcs_ok_frame; [exact Hsrc | ..]; [exact (f_equal m_sourceLocationShrink H1) |
      exact (f_equal sourceLocationZones H1) | exact (f_equal shrinkSrclocLast H1) |
      exact (f_equal srclocZonesLast H1) | exact (f_equal sourceLocationExpand H1) |
      exact (f_equal m_pendingSourceLocationPayload H1)]. }
  wp_steps. wp_call (ShrinkSourceLocation_spec srcloc w1 Hs1 Hmax).
  { replace (sourceLocationExpand w1) with (sourceLocationExpand w) by (symmetry; frame H1 sourceLocationExpand). done. }
  intros src w2 (Hs2 & [H2 _] & Hr & Hz). split; [done |]. split; [done |]. split.
  { intros ->. rewrite (so_zero _ Hs2) in Hz. now destruct Hz as [[? ?] _]. }
  split; [exact Hz |]. split.
  { transitivity (erase_entered w1); [exact (f_equal erase_entered H2) | exact (f_equal erase_entered H1)]. }
  split; [etransitivity; [frame H2 gpu | frame H1 gpu] |].
  split; [etransitivity; [frame H2 lastTime | frame H1 lastTime] |].
  split; [etransitivity; [frame H2 m_refTimeThread | frame H1 m_refTimeThread] |].
  split; [etransitivity; [frame H2 m_refTimeSerial | frame H1 m_refTimeSerial] |].
  etransitivity; [frame H2 localThreadCompress | frame H1 localThreadCompress].
Qed.

Section Begin.
Context `{GpuSlab}.

(** C17: entering a GPU zone, in a known context and with a query that is free,
    never fails; the server then shows one zone more, inside the innermost open zone
    of its thread in the context, without a GPU time and with its query waiting; the
    number stored for its source location stands for the one of the event;
    everything else that was reported is still shown. *)
Theorem ProcessGpuZoneBegin_shows (zs : list gzone) (w : W) (c : nat) (ctx : GpuCtxData)
    (cpuTime thread queryId context srcloc : Z) (serial : bool) (t : Z) :
  gpu_shows zs (gpu w) -> srcs_ok w -> srcloc <> max_u64 ->
  Z.of_nat (length (sourceLocationExpand w)) + 1 < int16_max ->
  m_gpuCtxMap (gpu w) !! context = Some c -> gpuData (gpu w) !! c = Some ctx ->
  query ctx !! queryId = None -> Z.of_nat (length (gpuChildren (gpu w))) < 2 ^ 31 ->
  time_of w (sint 64 (cpu_reference serial w + cpuTime)) = Some t -> - 2 ^ 47 <= t < 2 ^ 47 ->
  wp (ProcessGpuZoneBegin cpuTime thread queryId context srcloc serial) (fun _ w' =>
    exists src, is_Some (sourceLocationZones w' !! src) /\ source_of w' src = Some srcloc /\
      srcs_ok w' /\
      gpu_shows (zs ++ [entered c ctx thread src t zs w]) (gpu w') /\
      erase_entered w' = erase_entered w /\ lastTime w' = Z.max (lastTime w) t /\
      cpu_reference serial w' = sint 64 (cpu_reference serial w + cpuTime)) w.
Proof.
  intros Hg Hsrc Hmax Hex Em Ec Eq Hch Et Ht. unfold ProcessGpuZoneBegin, AllocGpuEvent, UpdGpu. wp_steps.
  set (n := length (gpu_heap (gpu w))). set (w0 := w <| gpu ::= _ |>).
  unfold ProcessGpuZoneBeginImpl. apply wp_bind_assoc, wp_bind.
  eapply wp_mono; [apply (srcloc_spec srcloc w0); [eapply srcs_ok_frame; [exact Hsrc | done ..] | done | done] |].
  intros src w2 (Hs2 & Hr & Hs0 & [Hz Hso] & F2 & G2 & L2 & T2 & S2 & C2).
  assert (G2' : gpu w2 = (gpu w) <| gpu_heap ::= (fun l => l ++ [gpu_junk n]) |>) by exact G2.
  assert (R2 : cpu_reference serial w2 = cpu_reference serial w) by (destruct serial; done).
  assert (Et2 : time_of w2 (sint 64 (cpu_reference serial w2 + cpuTime)) = Some t).
  { rewrite R2, <- Et. unfold time_of.
    now rewrite (f_equal baseTime F2 : baseTime w2 = baseTime w), (f_equal m_timerMul F2 : m_timerMul w2 = m_timerMul w). }
  wp_steps. set (e0 := GpuEvent.SetSrcLoc src (gpu_junk n)).
  eapply (UpdGpuZone_wp n _ (gpu_junk n) e0); [rewrite G2'; now apply list_lookup_middle | reflexivity |].
  set (w3 := w2 <| gpu ::= _ |>).
  assert (G3 : gpu w3 = (gpu w) <| gpu_heap := gpu_heap (gpu w) ++ [e0] |>).
  { rewrite <- (insert_snoc (gpu_heap (gpu w)) (gpu_junk n) e0).
    transitivity ((gpu w2) <| gpu_heap ::= <[n := e0]> |>); [reflexivity |]. now rewrite G2'. }
  assert (Hjunk := gpu_junk_ok n).
  assert (Hok : GpuEvent.ok e0 /\ GpuEvent.SrcLoc e0 = src).
  { destruct Hjunk as (J1 & J2 & J3 & J4). unfold e0. split; [gpu_fields |].
    transitivity (sint 16 src); [gpu_fields | now apply sint_small]. }
  destruct Hok as [Hok Esrc].
  eapply wp_mono; [eapply (ImplCommon_wp zs w3 (gpu_heap (gpu w)) e0 c ctx) |]; rewrite ?G3, ?Esrc; try done.
  { now destruct (gpu w). }
  { intros [] w' (Hg' & F' & L' & R'). exists src. split_and!.
    - rewrite (f_equal sourceLocationZones F' : sourceLocationZones w' = sourceLocationZones w2). exact Hz.
    - unfold source_of in *.
      rewrite (f_equal sourceLocationExpand F' : sourceLocationExpand w' = sourceLocationExpand w2). exact Hso.
    - eapply srcs_ok_same; [| exact F']. eapply srcs_ok_frame; [exact Hs2 | done ..].
    - replace (entered c ctx thread src t zs w) with (entered c ctx thread src t zs w3); [exact Hg' |].
      unfold entered, thread_in. change (localThreadCompress w3) with (localThreadCompress w2). now rewrite C2.
    - transitivity (erase_entered w2); [| exact F2].
      transitivity (erase_entered w3); [exact (f_equal erase_entered F') | erased].
    - rewrite L'. change (lastTime w3) with (lastTime w2). now rewrite L2.
    - rewrite R', <- R2. now destruct serial. }
Qed.
End Begin.

(** ** Leaving a zone *)
Lemma leave_thread c zs ctx k l z :
  ctx_shows c zs ctx -> addrs (open_of c k) zs = l ++ [z] ->
  exists td, gc_threadData ctx !! k = Some td /\ td = thread_of ctx k /\ gt_stack td = l ++ [z].
Proof.
  intros [H1 _ _] E. specialize (H1 k). unfold thread_of in *. rewrite E in H1.
  destruct (gc_threadData ctx !! k) as [td |]; cbn in *.
  - exists td. now rewrite H1.
  - exfalso. injection H1 as _ H1. now destruct l.
Qed.

(** C40: leaving a GPU zone closes the innermost open zone of the thread in the context
    and makes it wait for its second timestamp, and never fails while there is an
    open zone and the query is free; the zones around it stay open. *)
Theorem ProcessGpuZoneEnd_shows (zs : list gzone) (w : W) (c : nat) (ctx : GpuCtxData)
    (cpuTime thread queryId context : Z) (serial : bool) (l : list nat) (z : nat) (t : Z) :
  gpu_shows zs (gpu w) ->
  m_gpuCtxMap (gpu w) !! context = Some c -> gpuData (gpu w) !! c = Some ctx ->
  addrs (open_of c thread) zs = l ++ [z] -> query ctx !! queryId = None ->
  time_of w (sint 64 (cpu_reference serial w + cpuTime)) = Some t -> - 2 ^ 47 <= t < 2 ^ 47 ->
  wp (ProcessGpuZoneEnd cpuTime thread queryId context serial) (fun _ w' =>
    (exists a, zs !! z = Some a /\ gpu_shows (<[z := a <| zn_end := Some t |>]> zs) (gpu w') /\
       addrs (open_of c thread) (<[z := a <| zn_end := Some t |>]> zs) = l) /\
    erase_gpu w' = erase_gpu w /\ lastTime w' = Z.max (lastTime w) t /\
    cpu_reference serial w' = sint 64 (cpu_reference serial w + cpuTime)) w.
Proof.
  intros [Hf [Hall Hzn] Hmap Hlast Hsrcs] Em Ec El Eq Et Ht. assert (Hcs := Hall c ctx Ec).
  destruct (leave_thread c zs ctx thread l z Hcs El) as (td & Etd & Htd & Estk).
  assert (Hz : z ∈ addrs (open_of c thread) zs) by (rewrite El; apply elem_of_app; right; left).
  apply elem_addrs in Hz as (a & Ea & Ha%bool_decide_eq_true).
  destruct (Forall2_lookup_l _ _ _ _ _ (fo_zones _ _ _ Hf) Ea) as (e & Ee & Hs).
  assert (Hend : exists e', GpuEvent.SetCpuEnd t e = Some e').
  { unfold GpuEvent.SetCpuEnd, assert47. destruct (Z.ltb_spec t (2 ^ 47)); [eauto | lia]. }
  destruct Hend as [e' Ee']. destruct (zone_shows_end a e e' t Hs ltac:(lia) Ee') as [Hs' Hch].
  unfold ProcessGpuZoneEnd, SetCtx, UpdGpu. wp_steps. eapply FindCtx_wp; [exact Em |].
  wp_steps. eapply GetCtx_wp; [exact Ec |]. wp_steps. eapply wp_expect; [exact Etd |].
  wp_steps. eapply wp_expect; [rewrite Estk; apply last_snoc |]. wp_steps.
  set (ctx1 := ctx <| gc_threadData ::= _ |>). eapply (wait_query_wp c queryId z ctx1).
  { apply list_lookup_insert_eq. now apply lookup_lt_Some in Ec. }
  { exact Eq. }
  wp_steps. eapply gpu_cpu_time_wp; [exact Et |]. wp_steps.
  eapply (UpdGpuZone_wp z _ e e'); [destruct serial; exact Ee | exact Ee' |].
  apply touch_lastTime_wp. split; [| split; [destruct serial; erased | split; destruct serial; reflexivity]].
  exists a. split; [done |]. split.
  2: { apply addrs_pop; [done |]. apply bool_decide_eq_false. intros (_ & _ & [=]). }
  replace (gpu _) with ((gpu w) <| gpuData := <[c := ctx1 <| query ::= <[queryId := z]> |>]> (gpuData (gpu w)) |>
    <| gpu_heap := <[z := e']> (gpu_heap (gpu w)) |>).
  2: { rewrite <- (list_insert_insert_eq (gpuData (gpu w)) c _ ctx1). destruct serial; reflexivity. }
  split; cbn.
  - eapply forest_update; [exact Hf | exact Ea | exact Hs' | done |]. intros x Ex. cbn in Ex. congruence.
  - eapply (ctxs_change c zs); [split; [exact Hall | exact Hzn] | exact Ec | | |].
    + eapply changes_insert; [exact Ea | apply Ha | apply Ha].
    + eapply (ctx_leave c zs ctx _ z a t queryId thread l Hcs Ea); try done; [now rewrite <- Htd |].
      cbn. rewrite <- Htd. unfold over, eta_GpuThread. now rewrite Estk, removelast_snoc.
    + apply Forall_insert; [done |]. cbn. destruct Ha as [-> _]. now apply lookup_lt_Some in Ec.
  - intros x c' Ex. rewrite length_insert. exact (Hmap x c' Ex).
  - exact Hlast.
  - apply Forall_insert; [done |]. cbn. exact (proj1 (Forall_lookup _ _) Hsrcs z a Ea).
Qed.

(** ** Timestamps *)

(** What the statistics of a source location gain from the zone [z] of [thread] that
    spent [span] on the GPU: the zone in the list, and its span in the smallest,
    the greatest, the sum and the sum of squares.  The first zone makes them. *)
Definition gpu_gained (z : nat) (thread span : Z) (o : option GpuSourceLocationZones)
    (s' : GpuSourceLocationZones) : Prop :=
  gs_total s' = sint 64 (match o with Some s => gs_total s | None => 0 end + span) /\
  gs_min s' = match o with Some s => Z.min (gs_min s) span | None => span end /\
  gs_max s' = match o with Some s => Z.max (gs_max s) span | None => span end /\
  SortedVector.v (gs_zones s') =
    match o with Some s => SortedVector.v (gs_zones s) | None => [] end ++ [mkGpuZtd z thread] /\
  gs_sumSq s' = dadd (match o with Some s => gs_sumSq s | None => S754_zero false end)
                     (dmul (double_of_Z span) (double_of_Z span)).

(** The statistics [m'] after a zone, which is the [a] of address [z], got the
    timestamp [t]: its source location gains the span if this is the second
    timestamp and the later one; nothing else changes. *)
Definition statistics_gain (z : nat) (a : gzone) (t : Z)
    (m m' : gmap Z GpuSourceLocationZones) : Prop :=
  (forall k, k <> zn_src a -> m' !! k = m !! k) /\
  ((exists t0, zn_times a = [t0] /\ t0 < t /\ exists s',
      m' !! zn_src a = Some s' /\ gpu_gained z (zn_thread a) (t - t0) (m !! zn_src a) s') \/
   (forall t0, zn_times a = [t0] -> t <= t0) /\ m' !! zn_src a = m !! zn_src a).

(** The statistics after the second timestamp of a zone, in the words of the code. *)
Definition spans_after (h : list GpuEvent.t) (z : nat) (a : gzone) (t : Z)
    (m : gmap Z GpuSourceLocationZones) : gmap Z GpuSourceLocationZones :=
  match zn_times a with
  | [t0] => if t0 <? t then
      <[zn_src a := add_gpu_span h (mkGpuZtd z (zn_thread a)) (t - t0)
          (default new_GpuSourceLocationZones (m !! zn_src a))]> m
    else m
  | _ => m
  end.

Lemma add_gpu_span_gained h z thread span o :
  0 < span < 2 ^ 47 ->
  gpu_gained z thread span o
    (add_gpu_span h (mkGpuZtd z thread) span (default new_GpuSourceLocationZones o)).
Proof.
  intros Hs. unfold gpu_gained. destruct o as [s |]; cbn.
  - split_and!; try done; [destruct (Z.ltb_spec span (gs_min s)) | destruct (Z.ltb_spec (gs_max s) span)]; lia.
  - unfold int64_max, int64_min.
    destruct (Z.ltb_spec span (2 ^ 63 - 1)), (Z.ltb_spec (- 2 ^ 63) span); [done | lia ..].
Qed.

Lemma spans_after_gain h z a t m :
  Forall (fun t0 => 0 <= t0 < 2 ^ 47) (zn_times a) -> t < 2 ^ 47 ->
  statistics_gain z a t m (spans_after h z a t m).
Proof.
  intros Hts Ht. unfold statistics_gain, spans_after.
  destruct (zn_times a) as [| t0 [| t1 l]]; [split; [done |]; right; split; [done | done] | |
    split; [done |]; right; split; [done | done]].
  rewrite Forall_singleton in Hts. destruct (Z.ltb_spec t0 t).
  - split; [intros k Hne; now apply lookup_insert_ne |]. left. exists t0. do 2 (split; [done |]).
    eexists. split; [apply lookup_insert_eq |]. apply add_gpu_span_gained. lia.
  - split; [done |]. right. split; [intros t' [= <-]; lia | done].
Qed.

Definition last_ok (g : Gpu) : Prop :=
  match snd (gpuZonesLast g) with
  | Some key => key = sint 16 (fst (gpuZonesLast g)) /\ is_Some (gpuSourceLocationZones g !! key)
  | None => fst (gpuZonesLast g) = 0
  end.

Lemma gpu_same w (f : Gpu -> Gpu) : f (gpu w) = gpu w -> w <| gpu ::= f |> = w.
Proof. destruct w. cbn. intros E. unfold over. cbn. now rewrite E. Qed.
Lemma zones_same (f : gmap Z GpuSourceLocationZones -> gmap Z GpuSourceLocationZones) g :
  f (gpuSourceLocationZones g) = gpuSourceLocationZones g ->
  g <| gpuSourceLocationZones ::= f |> <| gpuZonesLast := gpuZonesLast g |> = g.
Proof. destruct g. cbn. intros E. unfold over. cbn. now rewrite E. Qed.

Lemma GetGpuSourceLocationZones_spec src w :
  last_ok (gpu w) -> in_sint 16 src -> src <> 0 ->
  wp (GetGpuSourceLocationZones (uint 16 src)) (fun key w' => key = src /\ exists last,
    w' = w <| gpu ::= (fun g => g <| gpuSourceLocationZones ::= emplace src new_GpuSourceLocationZones |>
                                  <| gpuZonesLast := last |>) |> /\ last_ok (gpu w')) w.
Proof.
  intros Hl Hr H0. assert (Es : sint 16 (uint 16 src) = src) by (rewrite sint_uint, sint_small; auto; lia).
  unfold GetGpuSourceLocationZones. wp_steps.
  destruct (Z.eqb_spec (fst (gpuZonesLast (gpu w))) (uint 16 src)) as [E | E].
  - unfold last_ok in Hl. destruct (snd (gpuZonesLast (gpu w))) as [key |] eqn:Ek.
    + destruct Hl as [-> Hk]. rewrite E, Es in *. eapply wp_expect; [done |]. split; [done |].
      exists (gpuZonesLast (gpu w)). assert (Eq : emplace src new_GpuSourceLocationZones (gpuSourceLocationZones (gpu w)) =
        gpuSourceLocationZones (gpu w)) by (unfold emplace; destruct Hk as [? ->]; done).
      split.
      * symmetry. now apply gpu_same, zones_same.
      * unfold last_ok. rewrite Ek, E, Es. done.
    + rewrite Hl in E. rewrite <- E in Es. change (sint 16 0) with 0 in Es. congruence.
  - unfold GetGpuSourceLocationZonesReal, UpdGpu. rewrite Es. wp_steps. split; [done |].
    exists (uint 16 src, Some src). split; [done |]. unfold last_ok. cbn. rewrite Es. split; [done |].
    rewrite lookup_emplace. eauto.
Qed.

Lemma gpu_statistics_spec z e a t t0 w :
  gpu_heap (gpu w) !! z = Some e -> zn_times a = [t0] -> GpuEvent.GpuStart e = t0 ->
  GpuEvent.SrcLoc e = zn_src a -> GpuEvent.Thread e = zn_thread a ->
  0 <= t0 < 2 ^ 47 -> 0 <= t < 2 ^ 47 -> in_sint 16 (zn_src a) -> zn_src a <> 0 -> last_ok (gpu w) ->
  wp (gpu_statistics z t) (fun _ w' => exists last, last_ok (gpu w') /\
    w' = w <| gpu ::= (fun g => g <| gpuSourceLocationZones ::= spans_after (gpu_heap (gpu w)) z a t |>
                                  <| gpuZonesLast := last |>) |>) w.
Proof.
  intros Ee Et Eg Es Eth Ht0 Ht Hr H0 Hl. unfold gpu_statistics, UpdGpu. wp_steps.
  eapply GetGpuZone_wp; [exact Ee |]. rewrite Eg, Es, Eth. rewrite (sint_small 64) by (unfold in_sint; lia).
  unfold spans_after. rewrite Et. destruct (Z.ltb_spec t0 t).
  - rewrite (proj2 (Z.ltb_lt 0 (t - t0))) by lia. apply wp_bind.
    eapply wp_mono; [apply GetGpuSourceLocationZones_spec; done |].
    intros key w1 (-> & last & -> & Hl1). wp_steps.
    assert (Elk : emplace (zn_src a) new_GpuSourceLocationZones (gpuSourceLocationZones (gpu w)) !! zn_src a =
      Some (default new_GpuSourceLocationZones (gpuSourceLocationZones (gpu w) !! zn_src a)))
      by apply lookup_emplace.
    eapply wp_expect; [exact Elk |]. wp_steps. exists last. split.
    + unfold last_ok in *. cbn in *. destruct (snd last) as [key |]; [| done]. destruct Hl1 as [-> Hk].
      split; [done |]. destruct (decide (zn_src a = sint 16 (fst last))) as [<- | Hne].
      * rewrite lookup_insert_eq. eauto.
      * now rewrite lookup_insert_ne.
    + unfold over. cbn. do 2 f_equal. unfold emplace. destruct (gpuSourceLocationZones (gpu w) !! zn_src a); [done |].
      now rewrite insert_insert_eq.
  - rewrite (proj2 (Z.ltb_ge 0 (t - t0))) by lia. wp_steps. exists (gpuZonesLast (gpu w)). split.
    + exact Hl.
    + symmetry. now apply gpu_same, zones_same.
Qed.

Lemma unwrap_time_same tgpu ctx tg ctx1 :
  unwrap_time tgpu ctx = Some (tg, ctx1) -> query ctx1 = query ctx /\ gc_threadData ctx1 = gc_threadData ctx.
Proof.
  unfold unwrap_time. intros E. apply bind_Some in E as (c & Ec & E).
  assert (Hc : query c = query ctx /\ gc_threadData c = gc_threadData ctx).
  { destruct (_ <? _); [| injection Ec as <-; done].
    apply bind_Some in Ec as (o & _ & [= <-]). done. }
  case_match; simplify_eq; exact Hc.
Qed.

(** The zone a query waits for has not received both of its timestamps. *)
Lemma waiting_zone c zs ctx q z a :
  ctx_shows c zs ctx -> query ctx !! q = Some z -> zs !! z = Some a ->
  zn_ctx a = c /\ (zn_times a = [] \/ exists t0, zn_times a = [t0]).
Proof.
  intros [_ H2 H3] Eq Ez. destruct (H2 q z Eq) as (b & Eb & Hb). assert (b = a) as -> by congruence.
  split; [done |]. specialize (H3 z a Ez Hb). rewrite (waiting_delete _ q z) in H3 by done.
  rewrite decide_True in H3 by done.
  destruct (zn_times a) as [| t0 [| t1 l]]; [auto | eauto |]. cbn in H3. destruct (zn_end a); lia.
Qed.

(** The zone gets the timestamp, in a state that is known up to the statistics. *)
Lemma gpu_time_shows zs g c ctx ctx' gd z a t q e' last spans :
  gpu_shows zs g -> gd = <[c := ctx']> (gpuData g) -> gpuData g !! c = Some ctx -> zs !! z = Some a -> query ctx !! q = Some z ->
  query ctx' = delete q (query ctx) -> gc_threadData ctx' = gc_threadData ctx ->
  zone_shows (a <| zn_times ::= (fun l => l ++ [t]) |>) e' ->
  (forall e, gpu_heap g !! z = Some e -> GpuEvent.Child e' = GpuEvent.Child e) ->
  last_ok (g <| gpuSourceLocationZones := spans |> <| gpuZonesLast := last |>) ->
  gpu_shows (<[z := a <| zn_times ::= (fun l => l ++ [t]) |>]> zs)
    (g <| gpuData := gd |> <| gpu_heap ::= <[z := e']> |>
       <| gpuSourceLocationZones := spans |> <| gpuZonesLast := last |>).
Proof.
  intros [Hf [Hall Hzn] Hmap Hlast Hsrcs] -> Ec Ea Eq Eq' Etd Hs Hch Hl. assert (Hcs := Hall c ctx Ec).
  destruct (waiting_zone c zs ctx q z a Hcs Eq Ea) as [Hc _].
  split; cbn.
  - eapply forest_update; [exact Hf | exact Ea | exact Hs | done | exact Hch].
  - eapply (ctxs_change c zs); [split; [exact Hall | exact Hzn] | exact Ec | | |].
    + eapply changes_insert; [exact Ea | done | done].
    + eapply (ctx_time c zs ctx ctx' z a t q); done.
    + apply Forall_insert; [done |]. cbn. rewrite Hc. now apply lookup_lt_Some in Ec.
  - intros x c' Ex. rewrite length_insert. exact (Hmap x c' Ex).
  - exact Hl.
  - apply Forall_insert; [done |]. exact (proj1 (Forall_lookup _ _) Hsrcs z a Ea).
Qed.

(** C16: a timestamp of the GPU goes to the zone whose query it answers, and to no other:
    it becomes the zone's start on the GPU if it is the first one that arrives, its
    end if it is the second one, and there is never a third one.  The statistics of
    the source location get the span of the zone when its second timestamp is later
    than the first (the sum, the sum of squares, the smallest and the greatest, and
    the zone in the list), and the statistics of no other source location change. *)
Theorem ProcessGpuTime_shows (zs : list gzone) (w : W) (c : nat) (ctx ctx1 : GpuCtxData)
    (ev_gpuTime queryId context tg t : Z) (z : nat) (a : gzone) :
  gpu_shows zs (gpu w) ->
  m_gpuCtxMap (gpu w) !! context = Some c -> gpuData (gpu w) !! c = Some ctx ->
  query ctx !! queryId = Some z -> zs !! z = Some a ->
  unwrap_time (sint 64 (m_refTimeGpu w + ev_gpuTime)) ctx = Some (tg, ctx1) ->
  gpu_to_cpu ctx1 tg = Some t -> 0 <= t < 2 ^ 47 ->
  wp (ProcessGpuTime ev_gpuTime queryId context) (fun _ w' =>
    gpu_shows (<[z := a <| zn_times ::= (fun l => l ++ [t]) |>]> zs) (gpu w') /\
    (length (zn_times a) < 2)%nat /\
    statistics_gain z a t (gpuSourceLocationZones (gpu w)) (gpuSourceLocationZones (gpu w')) /\
    erase_gpu w' = erase_gpu w /\ lastTime w' = Z.max (lastTime w) t /\
    m_refTimeGpu w' = sint 64 (m_refTimeGpu w + ev_gpuTime)) w.
Proof.
  intros Hg Em Ec Eq Ea Eu Et Ht. assert (Hg' := Hg). destruct Hg' as [Hf [Hall _] _ Hlast Hsrcs].
  destruct (unwrap_time_same _ _ _ _ Eu) as [Eq1 Etd1].
  destruct (waiting_zone c zs ctx queryId z a (Hall c ctx Ec) Eq Ea) as [Hc Htimes].
  destruct (Forall2_lookup_l _ _ _ _ _ (fo_zones _ _ _ Hf) Ea) as (e & Ee & Hs).
  assert (Hsrc := proj1 (Forall_lookup _ _) Hsrcs z a Ea). cbv beta in Hsrc.
  assert (Hgain : forall h m, statistics_gain z a t m (spans_after h z a t m))
    by (intros; apply spans_after_gain; [exact (zs_times _ _ Hs) | lia]).
  unfold ProcessGpuTime, RefTime, SetCtx, UpdGpu. wp_steps. eapply FindCtx_wp; [exact Em |]. wp_steps.
  eapply GetCtx_wp; [exact Ec |]. wp_steps. eapply wp_expect; [exact Eu |]. cbv beta iota.
  wp_steps. eapply wp_expect; [exact Et |]. wp_steps. eapply wp_expect; [rewrite Eq1; exact Eq |]. wp_steps.
  eapply GetGpuZone_wp; [exact Ee |]. wp_steps. cbv zeta.
  set (ctx2 := ctx1 <| query ::= _ |>).
  assert (Eq2 : query ctx2 = delete queryId (query ctx)) by (cbn; now rewrite Eq1).
  destruct Htimes as [El | [t0 El]].
  - destruct (zone_shows_first a e t Hs El Ht) as (Hneg & Hs' & Hch). rewrite (proj2 (Z.ltb_lt _ 0) Hneg).
    wp_steps. eapply (UpdGpuZone_wp z _ e); [exact Ee | reflexivity |]. wp_steps. apply touch_lastTime_wp.
    set (ctx3 := ctx2 <| gc_count ::= _ |>).
    split; [| split; [rewrite El; cbn; lia | split; [| split; [erased | done]]]].
    2: { specialize (Hgain [] (gpuSourceLocationZones (gpu w))). unfold spans_after in Hgain. rewrite El in Hgain. exact Hgain. }
    assert (H := gpu_time_shows zs (gpu w) c ctx ctx3 (<[c := ctx3]> (<[c := ctx2]> (gpuData (gpu w)))) z a t
      queryId (GpuEvent.SetGpuStart t e) (gpuZonesLast (gpu w)) (gpuSourceLocationZones (gpu w)) Hg
      (list_insert_insert_eq _ _ _ _) Ec Ea Eq Eq2 Etd1 Hs' ltac:(intros x Ex; congruence) Hlast).
    exact H.
  - assert (Hend : exists e', GpuEvent.SetGpuEnd t e = Some e').
    { unfold GpuEvent.SetGpuEnd, assert47. destruct (Z.ltb_spec t (2 ^ 47)); [eauto | lia]. }
    destruct Hend as [e' Ee'].
    destruct (zone_shows_second a e e' t t0 Hs El Ht Ee') as (Eg & Hge & Hs' & Hch).
    rewrite (proj2 (Z.ltb_ge _ 0)) by lia. wp_steps.
    eapply (UpdGpuZone_wp z _ e e'); [exact Ee | exact Ee' |].
    set (w1 := _ <| gpu ::= _ |>).
    assert (Hg0 := zs_gpu _ _ Hs'). assert (Ht0 := zs_times _ _ Hs). cbn in Hg0. rewrite El in Hg0, Ht0.
    rewrite Forall_singleton in Ht0.
    eapply wp_mono; [apply (gpu_statistics_spec z e' a t t0 w1); [| exact El | exact Hg0 | apply Hs' | apply Hs' |
      exact Ht0 | exact Ht | apply Hsrc | apply Hsrc | exact Hlast] |].
    { apply list_lookup_insert_eq. now apply lookup_lt_Some in Ee. }
    intros [] w2 (last & Hlast2 & Ew2). apply touch_lastTime_wp.
    split; [| split; [rewrite El; cbn; lia | split; [| split; [| split]]]]; rewrite ?Ew2; try done; [| apply Hgain].
    assert (H := gpu_time_shows zs (gpu w) c ctx ctx2 (<[c := ctx2]> (gpuData (gpu w))) z a t
      queryId e' last (spans_after (gpu_heap (gpu w1)) z a t (gpuSourceLocationZones (gpu w))) Hg
      eq_refl Ec Ea Eq Eq2 Etd1 Hs' ltac:(intros x Ex; congruence)).
    apply H. rewrite Ew2 in Hlast2. exact Hlast2.
Qed.

(** ** A new context *)
Lemma new_ctx_shows zs g x ctx :
  gpu_shows zs g -> query ctx = ∅ -> gc_threadData ctx = ∅ ->
  gpu_shows zs (g <| gpuData ::= (fun l => l ++ [ctx]) |> <| m_gpuCtxMap ::= <[x := length (gpuData g)]> |>).
Proof.
  intros [Hf [Hall Hzn] Hmap Hlast Hsrcs] Eq Etd.
  assert (Hnone : forall p, (forall a, zn_ctx a <> length (gpuData g) -> p a = false) -> addrs p zs = []).
  { intros p Hp. apply addrs_none. intros i a Ei. apply Hp.
    assert (Ha := proj1 (Forall_lookup _ _) Hzn i a Ei). cbv beta in Ha. lia. }
  split; cbn; [done | | | done | done].
  - split.
    + intros c' x' E. apply lookup_app_Some in E as [E | [Hge E]]; [now apply Hall |].
      apply list_lookup_singleton_Some in E as [Ei <-]. assert (c' = length (gpuData g)) as -> by lia.
      split.
      * intros k. unfold thread_of. rewrite Etd, !Hnone; [done | |];
          intros a Ha; apply bool_decide_eq_false; now intros (? & _).
      * rewrite Eq. intros q z E. now rewrite lookup_empty in E.
      * intros z a Ea Ha. assert (Hl := proj1 (Forall_lookup _ _) Hzn z a Ea). cbv beta in Hl. lia.
    + eapply Forall_impl; [exact Hzn |]. cbn. intros a Ha. rewrite length_app. cbn. lia.
  - intros y c' [[<- <-] | [_ E]]%lookup_insert_some; rewrite length_app; cbn; [lia |].
    specialize (Hmap y c' E). lia.
Qed.

(** A new context knows of no zone and waits for nothing. *)
Lemma ProcessGpuNewContext_shows zs w cpuTime gpuTime thread period context flags type t gt :
  gpu_shows zs (gpu w) -> m_gpuCtxMap (gpu w) !! context = None -> type <> 0 ->
  scaled (negb (deqb period one)) period gpuTime = Some gt -> time_of w cpuTime = Some t ->
  wp (ProcessGpuNewContext cpuTime gpuTime thread period context flags type) (fun _ w' =>
    gpu_shows zs (gpu w') /\ m_gpuCtxMap (gpu w') !! context = Some (length (gpuData (gpu w))) /\
    erase_gpu w' = erase_gpu w) w.
Proof.
  intros Hg Ex Ht Es Et. unfold ProcessGpuNewContext, UpdGpu. wp_steps.
  { apply negb_true_iff, bool_decide_eq_false. rewrite Ex. now intros [? [=]]. }
  eapply wp_expect; [exact Es |]. wp_steps. eapply TscTime_wp; [exact Et |]. wp_steps.
  split; [now apply new_ctx_shows |]. split; [apply lookup_insert_eq | erased].
Qed.

Lemma gpu_shows_new mul ib ie sp od ign fr : gpu_shows [] (gpu (Worker mul ib ie sp od ign fr)).
Proof.
  split; cbn; try done.
  split; try done. intros a p Ha. now apply elem_of_nil in Ha.
Qed.

(** ** Witnesses *)
Definition after {A} (m : M W A) (w : W) : W := match m w with Some (_, w') => w' | None => w end.
Lemma wp_after {A} (m : M W A) (Q : A -> W -> Prop) w : wp m Q w -> exists a, Q a (after m w).
Proof. unfold wp, after. destruct (m w) as [[a w'] |]; [eauto | done]. Qed.

#[local] Instance demo_gpu_slab : GpuSlab.
Proof. refine {| gpu_junk := fun _ => GpuEvent.mk 7 7 7 7 0 0 |}. intros _. repeat split; done. Defined.
Definition demo_gpu_server : W :=
  after (ProcessGpuNewContext 1000 0 0 one 3 0 2) (Worker (double_of_Z 1) 1000 0 100 false false [0; 0]).
Definition demo_ctx (w : W) : GpuCtxData :=
  default (mkGpuCtx 0 0 0 one 0 false false 0 0 one 0 0 0 StringIdx.none ∅ ∅ ∅ ∅) (gpuData (gpu w) !! 0%nat).
Lemma demo_gpu_shows : gpu_shows [] (gpu demo_gpu_server).
Proof.
  destruct (wp_after _ _ _ (ProcessGpuNewContext_shows [] (Worker (double_of_Z 1) 1000 0 100 false false [0; 0])
    1000 0 0 one 3 0 2 0 0 (gpu_shows_new _ _ _ _ _ _ _) eq_refl ltac:(done) eq_refl eq_refl)) as (_ & H & _).
  exact H.
Qed.

Lemma demo_gpu_srcs : srcs_ok demo_gpu_server.
Proof. split; try done. now left. Qed.

Lemma ProcessGpuZoneBegin_shows_witness :
  wp (ProcessGpuZoneBegin 1005 7 11 3 4096 false) (fun _ w' => exists src, source_of w' src = Some 4096 /\ srcs_ok w' /\
    gpu_shows [entered 0 (demo_ctx demo_gpu_server) 7 src 5 [] demo_gpu_server] (gpu w')) demo_gpu_server.
Proof.
  eapply wp_mono; [apply (ProcessGpuZoneBegin_shows [] demo_gpu_server 0 (demo_ctx demo_gpu_server)
    1005 7 11 3 4096 false 5 demo_gpu_shows demo_gpu_srcs) |].
  - done.
  - vm_compute. reflexivity.
  - vm_compute. reflexivity.
  - vm_compute. reflexivity.
  - vm_compute. reflexivity.
  - vm_compute. reflexivity.
  - vm_compute. reflexivity.
  - split; vm_compute; [discriminate | reflexivity].
  - intros [] w' (src & _ & H0 & H1 & H2 & _). exists src. auto.
Defined.

(** A server in which the zone 0 of the thread 7 is open and waits for the query 11. *)
Definition demo_open_zone : GpuEvent.t := GpuEvent.SetSrcLoc 5 (gpu_junk 0).
Definition demo_before : W :=
  demo_gpu_server <| gpu ::= (fun g => g <| gpu_heap := [demo_open_zone] |>) |>.
Definition demo_inside : W := after (ProcessGpuZoneBeginImplCommon 0 1005 7 11 3 false) demo_before.
Definition demo_zone : gzone := entered 0 (demo_ctx demo_before) 7 5 5 [] demo_before.
Lemma demo_inside_shows : gpu_shows [demo_zone] (gpu demo_inside).
Proof.
  destruct (wp_after _ _ _ (ImplCommon_wp [] demo_before [] demo_open_zone 0 (demo_ctx demo_before)
    1005 7 11 3 false 5 ltac:(exact demo_gpu_shows) eq_refl ltac:(repeat split; done) ltac:(split; done)
    ltac:(done) ltac:(vm_compute; reflexivity) ltac:(vm_compute; reflexivity) ltac:(vm_compute; reflexivity)
    ltac:(done) ltac:(vm_compute; reflexivity) ltac:(split; done))) as (_ & H & _).
  exact H.
Qed.

Lemma ProcessGpuZoneEnd_shows_witness :
  wp (ProcessGpuZoneEnd 10 7 12 3 false) (fun _ w' =>
    gpu_shows [demo_zone <| zn_end := Some 15 |>] (gpu w')) demo_inside.
Proof.
  eapply wp_mono; [apply (ProcessGpuZoneEnd_shows [demo_zone] demo_inside 0 (demo_ctx demo_inside)
    10 7 12 3 false [] 0 15 demo_inside_shows) |].
  - vm_compute. reflexivity.
  - vm_compute. reflexivity.
  - vm_compute. reflexivity.
  - vm_compute. reflexivity.
  - vm_compute. reflexivity.
  - split; vm_compute; [discriminate | reflexivity].
  - intros [] w' ((a & Ea & H & _) & _). injection Ea as <-. exact H.
Defined.

Lemma ProcessGpuTime_shows_witness :
  wp (ProcessGpuTime 40 11 3) (fun _ w' =>
    gpu_shows [demo_zone <| zn_times := [40] |>] (gpu w')) demo_inside.
Proof.
  eapply wp_mono; [apply (ProcessGpuTime_shows [demo_zone] demo_inside 0 (demo_ctx demo_inside)
    ((demo_ctx demo_inside) <| lastGpuTime := 40 |>) 40 11 3 40 40 0 demo_zone demo_inside_shows) |].
  - vm_compute. reflexivity.
  - vm_compute. reflexivity.
  - vm_compute. reflexivity.
  - reflexivity.
  - vm_compute. reflexivity.
  - vm_compute. reflexivity.
  - split; vm_compute; [discriminate | reflexivity].
  - intros [] w' (H & _). exact H.
Defined.
