(* ===== verification/ServerCtx.v ===== *)
(** * Context switches and fibers: the handlers of what runs where

    The operating system of the client reports when a thread starts and stops to run
    on a processor, and when it is woken up; the program reports which fiber runs on
    a thread.  The server keeps the regions of every thread ([ctxSwitch]) and of
    every processor ([cpuData]).  A region that has not ended has the end -1. *)
From S2P Require Import Prelude Double Queue Event Containers Discovery Trace Server.

Definition UpdCpu (f : Cpu -> Cpu) : M W unit := modify (fun w => w <| cpu ::= f |>).

(** [data.push_next()] is memory that is not initialised; the handlers set every
    member of it. *)
Definition fresh_region : ContextSwitchData.t := ContextSwitchData.zero.
Definition fresh_slice : ContextSwitchCpu.t := ContextSwitchCpu.mk 0 0.

(** ** Context switches *)

(** The thread stops to run: its region, and the time it ran. *)
(* TracyWorker.cpp:7128-7141 ProcessContextSwitch *)
Definition stop_running (time reason state : Z) (ctx : ContextSwitch) : option (ContextSwitch * Z) :=
  item ← last (cs_v ctx);
  if negb (ContextSwitchData.Start item <=? time) then None else
  if negb (ContextSwitchData.End_ item =? -1) then None else
  item ← ContextSwitchData.SetEnd time item;
  let item := ContextSwitchData.SetState state (ContextSwitchData.SetReason reason item) in
  let dt := sint 64 (time - ContextSwitchData.Start item) in
  Some (ctx <| cs_v ::= set_back item |> <| cs_runningTime ::= (fun t => sint 64 (t + dt)) |>, dt).

Definition find_or_new {A} (new : A) (k : Z) (m : gmap Z A) : A := default new (m !! k).

(* TracyWorker.cpp:7143-7149 ProcessContextSwitch *)
Definition count_region (thread dt : Z) (m : gmap Z CpuThreadData) : gmap Z CpuThreadData :=
  <[thread := (find_or_new new_CpuThreadData thread m)
    <| runningRegions ::= (fun n => uint 32 (n + 1)) |>
    <| runningTime ::= (fun t => sint 64 (t + dt)) |>]> m.
(* TracyWorker.cpp:7220-7228 ProcessContextSwitch *)
Definition count_migration (thread : Z) (m : gmap Z CpuThreadData) : gmap Z CpuThreadData :=
  <[thread := (find_or_new new_CpuThreadData thread m)
    <| migrations ::= (fun n => uint 32 (n + 1)) |>]> m.

(** The wakeup of a new region: its start, or the wakeup that was reported while the
    thread still ran. *)
(* TracyWorker.cpp:7184-7204 ProcessContextSwitch *)
Definition region_wakeup (time cpu : Z) (ctx : ContextSwitch) :
    option (ContextSwitchData.t * ContextSwitch) :=
  item ← ContextSwitchData.SetWakeup time fresh_region;
  let item := ContextSwitchData.SetWakeupCpu cpu item in
  if wakeup_time ctx =? 0 then Some (item, ctx) else
  match last (cs_v ctx) with
  | Some previous =>
      if (ContextSwitchData.WakeupVal previous <=? wakeup_time ctx) && (wakeup_time ctx <=? time) then
        item ← ContextSwitchData.SetWakeup (wakeup_time ctx) item;
        Some (ContextSwitchData.SetWakeupCpu (wakeup_cpu ctx) item, ctx <| wakeup_time := 0 |>)
      else Some (item, ctx)
  | None => Some (item, ctx)
  end.

(** [data[n].Cpu() != cpu], when there is such an entry. *)
Definition moved (cpu : Z) (previous : option ContextSwitchData.t) : bool :=
  match previous with Some p => negb (ContextSwitchData._cpu p =? cpu) | None => false end.

(** The thread starts to run: the region that a wakeup began, or a new one; and
    whether the processor is another one than before. *)
(* TracyWorker.cpp:7166-7211 ProcessContextSwitch *)
Definition start_running (time cpu : Z) (ctx : ContextSwitch) : option (ContextSwitch * bool) :=
  let woken := match last (cs_v ctx) with
               | Some b => ContextSwitchData._reason b =? ContextSwitchData.Wakeup
               | None => false
               end in
  p ← (if woken then
         b ← last (cs_v ctx);
         Some (b, ctx <| cs_v ::= (fun l => removelast l) |>, moved cpu (last (removelast (cs_v ctx))))
       else
         match last (cs_v ctx) with
         | Some b => if uint 64 (ContextSwitchData.End_ b) <=? uint 64 time then Some tt else None
         | None => Some tt
         end;;
         p ← region_wakeup time cpu ctx;
         Some (fst p, snd p, moved cpu (last (cs_v ctx))));
  let '(item, ctx, migration) := p in
  item ← ContextSwitchData.SetStart time item;
  item ← ContextSwitchData.SetEnd (-1) item;
  let item := ContextSwitchData.SetThread 0 (ContextSwitchData.SetState (-1)
                (ContextSwitchData.SetReason (-1) (ContextSwitchData.SetCpu cpu item))) in
  Some (ctx <| cs_v ::= (fun l => l ++ [item]) |>, migration).

(* TracyWorker.cpp:3785-3793 *)
Definition CheckExternalName (id : Z) : M W unit :=
  c ← gets cpu;
  match externalNames c !! id with
  | Some _ => mret tt
  | None =>
      UpdCpu (fun c => c <| externalNames ::= <[id := (None, None)]> |>
                         <| m_pendingExternalNames ::= (fun n => uint 32 (n + 2)) |>);;
      Query ServerQueryExternalName id 0
  end.
(* TracyWorker.cpp:3949-3957 *)
Definition AddExternalName (ptr : Z) (str : list Z) : M W unit :=
  c ← gets cpu;
  assert_ (0 <? m_pendingExternalNames c);;
  UpdCpu (fun c => c <| m_pendingExternalNames ::= (fun n => n - 1) |>);;
  p ← expect (externalNames c !! ptr);
  d ← gets stringData;
  assert_ (is_unknown d (fst p));;
  sl ← StoreString str;
  UpdCpu (fun c => c <| externalNames ::= <[ptr := (Some sl, snd p)]> |>).
(* TracyWorker.cpp:3959-3967 *)
Definition AddExternalThreadName (ptr : Z) (str : list Z) : M W unit :=
  c ← gets cpu;
  assert_ (0 <? m_pendingExternalNames c);;
  UpdCpu (fun c => c <| m_pendingExternalNames ::= (fun n => n - 1) |>);;
  p ← expect (externalNames c !! ptr);
  d ← gets stringData;
  assert_ (is_unknown d (snd p));;
  sl ← StoreString str;
  UpdCpu (fun c => c <| externalNames ::= <[ptr := (fst p, Some sl)]> |>).

(** The thread [old] leaves the processor. *)
(* TracyWorker.cpp:7123-7157 ProcessContextSwitch *)
Definition switch_out (time cpu_ old reason state : Z) : M W unit :=
  m ← gets ctxSwitch;
  match m !! old with
  | Some ctx =>
      r ← expect (stop_running time reason state ctx);
      modify (fun w => w <| ctxSwitch ::= <[old := fst r]> |>);;
      UpdCpu (fun c => c <| cpuThreadData ::= count_region old (snd r) |>)
  | None => mret tt
  end;;
  c ← gets cpu;
  let cs := default [] (cpuData c !! cpu_) in
  match last cs with
  | Some cx =>
      t ← expect (ThreadCompress.DecompressThread (ContextSwitchCpu.Thread cx) (externalThreadCompress c));
      assert_ (t =? old);;
      cx ← expect (ContextSwitchCpu.SetEnd time cx);
      UpdCpu (fun c => c <| cpuData ::= <[cpu_ := set_back cx cs]> |>)
  | None => mret tt
  end.

(** The thread [new] gets the processor. *)
(* TracyWorker.cpp:7158-7229 ProcessContextSwitch *)
Definition switch_in (time cpu_ new : Z) : M W unit :=
  m ← gets ctxSwitch;
  r ← expect (start_running time cpu_ (find_or_new new_ContextSwitch new m));
  modify (fun w => w <| ctxSwitch ::= <[new := fst r]> |>);;
  c ← gets cpu;
  cx ← expect (ContextSwitchCpu.SetStart time fresh_slice);
  cx ← expect (ContextSwitchCpu.SetEnd (-1) cx);
  let p := ThreadCompress.CompressThread new (externalThreadCompress c) in
  let cx := ContextSwitchCpu.SetThread (fst p) cx in
  UpdCpu (fun c => c <| externalThreadCompress := snd p |>
                     <| cpuData ::= <[cpu_ := default [] (cpuData c !! cpu_) ++ [cx]]> |>);;
  CheckExternalName new;;
  when (snd r) (UpdCpu (fun c => c <| cpuThreadData ::= count_migration new |>)).

(* TracyWorker.cpp:7112-7230 *)
Definition ProcessContextSwitch (ev_time oldThread newThread cpu_ oldThreadWaitReason oldThreadState : Z) : M W unit :=
  UpdCpu (fun c => c <| newContextSwitchesReceived := true |>);;
  ref ← RefTime m_refTimeCtx ev_time;
  time ← TscTime ref;
  touch_lastTime time;;
  UpdCpu (fun c => c <| cpuDataCount ::= (fun n => if n <=? cpu_ then cpu_ + 1 else n) |>
                     <| cpuData ::= emplace cpu_ [] |>);;
  when (negb (oldThread =? 0)) (switch_out time cpu_ oldThread oldThreadWaitReason oldThreadState);;
  when (negb (newThread =? 0)) (switch_in time cpu_ newThread).

(* TracyWorker.cpp:7243-7269 ProcessThreadWakeup *)
Definition wake (time cpu : Z) (ctx : ContextSwitch) : option ContextSwitch :=
  let running := match last (cs_v ctx) with
                 | Some b => negb (ContextSwitchData.IsEndValid b) | None => false end in
  if running then Some (ctx <| wakeup_time := time |> <| wakeup_cpu := cpu |>)
  else
    item ← ContextSwitchData.SetWakeup time (ContextSwitchData.SetWakeupCpu cpu fresh_region);
    item ← ContextSwitchData.SetStart time item;
    item ← ContextSwitchData.SetEnd (-1) item;
    let item := ContextSwitchData.SetThread 0 (ContextSwitchData.SetState (-1)
      (ContextSwitchData.SetReason ContextSwitchData.Wakeup (ContextSwitchData.SetCpu 0 item))) in
    Some (ctx <| cs_v ::= (fun l => l ++ [item]) |>).
(* TracyWorker.cpp:7232-7270 *)
Definition ProcessThreadWakeup (ev_time thread cpu : Z) : M W unit :=
  ref ← RefTime m_refTimeCtx ev_time;
  time ← TscTime ref;
  touch_lastTime time;;
  m ← gets ctxSwitch;
  ctx ← expect (wake time cpu (find_or_new new_ContextSwitch thread m));
  modify (fun w => w <| ctxSwitch ::= <[thread := ctx]> |>).

(* TracyWorker.cpp:7272-7275 *)
Definition ProcessTidToPid (tid pid : Z) : M W unit :=
  UpdCpu (fun c => c <| tidToPid ::= emplace tid pid |>).

(** ** Hardware samples, parameters and topology *)
(* TracyEvent.hpp:191-191 *)
Definition Int48Sort (lhs rhs : Int48.t) : bool := Int48.Val lhs <? Int48.Val rhs.
(** What the handlers of hardware samples share: the sample is added to the series
    [p] of its address. *)
(* TracyWorker.cpp:7279-7283 ProcessHwSampleCpuCycle *)
Definition hw_sample (p : HwSampleData -> SortedVector.t Int48.t) `{!FieldSet p} (ip ev_time : Z) : M W unit :=
  time ← (if ev_time =? 0 then mret 0 else TscTime ev_time);
  touch_lastTime time;;
  UpdCpu (fun c => c <| hwSamples ::= (fun m =>
    <[ip := (find_or_new new_HwSampleData ip m)
       <| p ::= SortedVector.push_back Int48Sort (Int48.make time) |>]> m) |>).
(* TracyWorker.cpp:7277-7284 *)
Definition ProcessHwSampleCpuCycle (ip time : Z) : M W unit := hw_sample cycles ip time.
(* TracyWorker.cpp:7286-7293 *)
Definition ProcessHwSampleInstructionRetired (ip time : Z) : M W unit := hw_sample retired ip time.
(* TracyWorker.cpp:7295-7302 *)
Definition ProcessHwSampleCacheReference (ip time : Z) : M W unit := hw_sample cacheRef ip time.
(* TracyWorker.cpp:7304-7311 *)
Definition ProcessHwSampleCacheMiss (ip time : Z) : M W unit := hw_sample cacheMiss ip time.
(* TracyWorker.cpp:7313-7321 *)
Definition ProcessHwSampleBranchRetired (ip time : Z) : M W unit :=
  hw_sample branchRetired ip time;; UpdCpu (fun c => c <| hasBranchRetirement := true |>).
(* TracyWorker.cpp:7323-7330 *)
Definition ProcessHwSampleBranchMiss (ip time : Z) : M W unit := hw_sample branchMiss ip time.

(* TracyWorker.cpp:7332-7336 *)
Definition ProcessParamSetup (idx name type val : Z) : M W unit :=
  CheckString name;;
  UpdCpu (fun c => c <| m_params ::= (fun l =>
    l ++ [mkParameter idx (StringRef.make StringRef.Ptr name) type val]) |>).

(** [cpuTopology] by the triple of its three nested maps. *)
(* TracyWorker.cpp:7345-7359 *)
Definition ProcessCpuTopology (package die core thread : Z) : M W unit :=
  c ← gets cpu;
  UpdCpu (fun c => c <| cpuTopology ::= (fun m =>
    <[(package, die, core) := default [] (m !! (package, die, core)) ++ [thread]]> m) |>);;
  assert_ (negb (bool_decide (is_Some (cpuTopologyMap c !! thread))));;
  UpdCpu (fun c => c <| cpuTopologyMap ::= <[thread := (package, die, core)]> |>).

(* TracyWorker.cpp:7367-7373 *)
Definition ProcessThreadGroupHint (thread groupHint_ : Z) : M W unit :=
  p ← RetrieveThread thread;
  td ← deref p;
  UpdThread td (fun t => t <| groupHint := groupHint_ |>);;
  UpdCpu (fun c => c <| m_pendingThreadHints ::= (fun l => l ++ [thread]) |>).

(** ** Fibers *)

(** The thread of a fiber; a fiber that is seen for the first time gets one. *)
(* TracyWorker.cpp:7380-7392 ProcessFiberEnter *)
Definition fiber_thread (fib hint : Z) : M W Z :=
  m ← gets fiberToThreadMap;
  match m !! fib with
  | Some tid => mret tid
  | None =>
      let tid := Z.lor (2 ^ 32) (Z.of_nat (size m)) in
      modify (fun w => w <| fiberToThreadMap ::= emplace fib tid |>);;
      NewThread tid true hint;;
      CheckFiberName fib tid;;
      mret tid
  end.

(** The last region of the fiber's thread ends. *)
(* TracyWorker.cpp:7397-7403 ProcessFiberEnter *)
Definition end_region (time : Z) (ctx : ContextSwitch) : option ContextSwitch :=
  item ← last (cs_v ctx);
  item ← ContextSwitchData.SetEnd time item;
  Some (ctx <| cs_v ::= set_back item |>).
(* TracyWorker.cpp:7413-7422 ProcessFiberEnter *)
Definition fiber_region (time thread : Z) (ctx : ContextSwitch) : option ContextSwitch :=
  item ← ContextSwitchData.SetStart time fresh_region;
  item ← ContextSwitchData.SetWakeup time (ContextSwitchData.SetCpu 0 item);
  item ← ContextSwitchData.SetEnd (-1) (ContextSwitchData.SetWakeupCpu 0 item);
  let item := ContextSwitchData.SetThread thread (ContextSwitchData.SetState (-1)
    (ContextSwitchData.SetReason ContextSwitchData.Fiber item)) in
  Some (ctx <| cs_v ::= (fun l => l ++ [item]) |>).

(* TracyWorker.cpp:7375-7423 *)
Definition ProcessFiberEnter (ev_time fib thread hint : Z) : M W unit :=
  ref ← RefTime m_refTimeThread ev_time;
  t ← TscTime ref;
  touch_lastTime t;;
  tid ← fiber_thread fib hint;
  p ← NoticeThread thread;
  td ← deref p;
  th ← GetThread td;
  match fiber th with
  | Some f =>
      ft ← GetThread f;
      m ← gets ctxSwitch;
      ctx ← expect (m !! id ft);
      ctx ← expect (end_region t ctx);
      modify (fun w => w <| ctxSwitch ::= <[id ft := ctx]> |>)
  | None => mret tt
  end;;
  p ← RetrieveThread tid;
  f ← deref p;
  UpdThread td (fun th => th <| fiber := Some f |>);;
  thr ← CompressThread thread;
  m ← gets ctxSwitch;
  ctx ← expect (fiber_region t thr (find_or_new new_ContextSwitch tid m));
  modify (fun w => w <| ctxSwitch ::= <[tid := ctx]> |>).

(* TracyWorker.cpp:7425-7448 *)
Definition ProcessFiberLeave (ev_time thread : Z) : M W unit :=
  ref ← RefTime m_refTimeThread ev_time;
  t ← TscTime ref;
  touch_lastTime t;;
  p ← RetrieveThread thread;
  td ← deref p;
  th ← GetThread td;
  match fiber th with
  | None => FiberLeaveFailure
  | Some f =>
      ft ← GetThread f;
      m ← gets ctxSwitch;
      ctx ← expect (m !! id ft);
      ctx ← expect (end_region t ctx);
      item ← expect (last (cs_v ctx));
      modify (fun w => w <| ctxSwitch ::=
        <[id ft := ctx <| cs_runningTime ::= (fun r =>
            sint 64 (r + sint 64 (t - ContextSwitchData.Start item))) |>]> |>);;
      UpdThread td (fun th => th <| fiber := None |>)
  end.
