(* ===== verification/CtxSpec.v ===== *)
(** * Context switches: the time a thread has run

    The regions of a thread follow each other, at most the last one is open, and the
    running time of the thread is the time in the regions that have ended.  A
    processor runs one thread at a time. *)
From S2P Require Import Prelude Double Queue Event Containers Discovery Trace Server ServerSpec ServerCtx.
Import ContextSwitchData.

(** ** The regions of a thread *)

(** Regions that have ended, between [lo] and [hi]. *)
Fixpoint ended (lo : Z) (l : list t) (hi : Z) : Prop :=
  match l with
  | [] => lo <= hi
  | c :: l => lo <= Start c <= End_ c /\ _reason c <> Wakeup /\ ended (End_ c) l hi
  end.
Definition ran (l : list t) : Z := fold_right (fun c s => End_ c - Start c + s) 0 l.

(** The regions [dn] have ended and [op] is open, all of them before [T]. *)
Record regions (T : Z) (ctx : ContextSwitch) (dn : list t) (op : option t) : Prop := {
  rg_list : cs_v ctx = dn ++ match op with Some c => [c] | None => [] end;
  rg_ended : ended 0 dn match op with Some c => Start c | None => T end;
  rg_open : forall c, op = Some c -> End_ c = -1 /\ Start c <= T;
  rg_time : cs_runningTime ctx = ran dn }.

Lemma ended_app lo l c hi :
  ended lo l (Start c) -> Start c <= End_ c <= hi -> _reason c <> Wakeup -> ended lo (l ++ [c]) hi.
Proof.
  revert lo. induction l as [| d l IH]; intros lo H Hc Hr; [cbn in *; tauto || lia |].
  destruct H as (? & ? & H). split_and!; auto; lia.
Qed.

Lemma ended_mono lo l hi hi' : ended lo l hi -> hi <= hi' -> ended lo l hi'.
Proof.
  revert lo. induction l as [| d l IH]; intros lo H Hh; [cbn in *; lia |].
  destruct H as (? & ? & H). split_and!; eauto; lia.
Qed.

Lemma ended_le lo l hi : ended lo l hi -> lo <= hi.
Proof.
  revert lo. induction l as [| d l IH]; intros lo H; [cbn in *; lia |].
  destruct H as (? & _ & H). apply IH in H. cbn [ran fold_right] in *. unfold ran in H. lia.
Qed.

(** Regions that do not overlap take no more than the time between them. *)
Lemma ran_bound lo l hi : ended lo l hi -> 0 <= ran l <= hi - lo.
Proof.
  revert lo. induction l as [| d l IH]; intros lo H; [cbn in *; lia |].
  destruct H as (? & _ & H). apply IH in H. cbn [ran fold_right] in *. unfold ran in H. lia.
Qed.

Lemma ran_snoc l c : ran (l ++ [c]) = ran l + (End_ c - Start c).
Proof. unfold ran. induction l as [| d l IH]; cbn; lia. Qed.

Lemma ended_last lo l hi c : ended lo l hi -> last l = Some c -> lo <= End_ c <= hi /\ _reason c <> Wakeup.
Proof.
  revert lo. induction l as [| d l IH]; intros lo H Hl; [done |]. destruct H as (Hd & Hr & H).
  rewrite last_cons in Hl. destruct (last l) as [c' |] eqn:El.
  - injection Hl as ->. destruct (IH _ H eq_refl). split; [lia | done].
  - injection Hl as ->. apply ended_le in H. split; [lia | done].
Qed.

(** Setters: what they set and what they keep. *)
Lemma region_SetEnd v c : - 2 ^ 47 <= v < 2 ^ 47 -> exists c', SetEnd v c = Some c' /\
  End_ c' = v /\ Start c' = Start c /\ _reason c' = _reason c /\ _cpu c' = _cpu c /\ _wakeup c' = _wakeup c.
Proof.
  intros Hv. unfold SetEnd, assert47. rewrite (proj2 (Z.ltb_lt v (2 ^ 47))) by lia. eexists.
  split; [reflexivity |]. unfold End_. cbn. now rewrite val_make.
Qed.
Lemma region_SetStart v c : - 2 ^ 47 <= v < 2 ^ 47 -> exists c', SetStart v c = Some c' /\
  Start c' = v /\ _reason c' = _reason c /\ _cpu c' = _cpu c /\ _wakeup c' = _wakeup c.
Proof.
  intros Hv. unfold SetStart, assert47. rewrite (proj2 (Z.ltb_lt v (2 ^ 47))) by lia. eexists.
  split; [reflexivity |]. unfold Start. cbn. now rewrite val_make.
Qed.
Lemma region_SetWakeup v c : - 2 ^ 47 <= v < 2 ^ 47 -> exists c', SetWakeup v c = Some c' /\
  WakeupVal c' = v /\ Start c' = Start c /\ _reason c' = _reason c /\ _cpu c' = _cpu c.
Proof.
  intros Hv. unfold SetWakeup, assert47. rewrite (proj2 (Z.ltb_lt v (2 ^ 47))) by lia. eexists.
  split; [reflexivity |]. unfold WakeupVal. cbn. now rewrite val_make.
Qed.

(** The thread stops to run. *)
Lemma stop_running_spec T time reason state ctx dn c :
  regions T ctx dn (Some c) -> T <= time < 2 ^ 47 -> sint 8 reason <> Wakeup ->
  exists ctx' c', stop_running time reason state ctx = Some (ctx', time - Start c) /\
    regions time ctx' (dn ++ [c']) None /\ Start c' = Start c /\ End_ c' = time /\
    wakeup_time ctx' = wakeup_time ctx /\ wakeup_cpu ctx' = wakeup_cpu ctx.
Proof.
  intros [Hl He Ho Ht] HT Hr. destruct (Ho c eq_refl) as [Hc1 Hc2].
  pose proof (ended_le _ _ _ He). pose proof (ran_bound _ _ _ He).
  destruct (region_SetEnd time c) as (c1 & E1 & F1 & F2 & F3 & F4 & F5); [lia |].
  unfold stop_running. rewrite Hl, last_snoc. simpl. rewrite (proj2 (Z.leb_le (Start c) time)) by lia.
  rewrite Hc1. simpl. rewrite E1. simpl.
  set (c' := SetState state (SetReason reason c1)).
  assert (Es : Start c' = Start c) by exact F2. assert (Ee : End_ c' = time) by exact F1.
  rewrite Es, (sint_small 64) by (unfold in_sint; lia).
  eexists _, c'. split; [reflexivity |]. split; [| done].
  split; cbn.
  - rewrite Hl. unfold set_back. rewrite removelast_snoc. now rewrite app_nil_r.
  - apply ended_app; [now rewrite Es | lia | exact Hr].
  - done.
  - rewrite Ht, ran_snoc, Es, Ee, sint_small; [done | lia | unfold in_sint; lia].
Qed.

(** The wakeup of a region does not precede the one of the region before it. *)
Lemma region_wakeup_spec time cpu ctx :
  0 <= time < 2 ^ 47 -> 0 <= wakeup_time ctx < 2 ^ 47 ->
  exists item ctx', region_wakeup time cpu ctx = Some (item, ctx') /\ cs_v ctx' = cs_v ctx /\
    cs_runningTime ctx' = cs_runningTime ctx /\ 0 <= wakeup_time ctx' < 2 ^ 47 /\ WakeupVal item <= time.
Proof.
  intros Ht Hw. unfold region_wakeup.
  destruct (region_SetWakeup time fresh_region) as (c1 & E1 & F1 & _); [lia |]. rewrite E1. simpl.
  assert (Hd : WakeupVal (SetWakeupCpu cpu c1) <= time) by (change (WakeupVal c1 <= time); lia).
  destruct (wakeup_time ctx =? 0); [eexists _, ctx; split_and!; done || lia |].
  destruct (last (cs_v ctx)) as [b |]; [| eexists _, ctx; split_and!; done || lia].
  destruct (_ && _)%bool eqn:Eb; [| eexists _, ctx; split_and!; done || lia]. zbool.
  destruct (region_SetWakeup (wakeup_time ctx) (SetWakeupCpu cpu c1)) as (c2 & E2 & F2 & _); [lia |].
  rewrite E2. simpl. eexists _, _. split; [reflexivity |]. split_and!; try done. change (WakeupVal c2 <= time). lia.
Qed.

(** The thread starts to run: it was idle, or a wakeup opened its region. *)
Definition startable (op : option t) : Prop := match op with Some c => _reason c = Wakeup | None => True end.

Lemma start_running_spec T time cpu ctx dn op :
  regions T ctx dn op -> startable op -> 0 <= T <= time -> time < 2 ^ 47 -> 0 <= wakeup_time ctx < 2 ^ 47 ->
  exists ctx' c', start_running time cpu ctx = Some (ctx', moved cpu (last dn)) /\
    regions time ctx' dn (Some c') /\ Start c' = time /\ _cpu c' = uint 8 cpu /\ _reason c' = -1 /\
    0 <= wakeup_time ctx' < 2 ^ 47.
Proof.
  intros [Hl He Ho Ht] Hs HT Htime Hw. unfold start_running.
  assert (Hmid : exists item ctx1, (if match last (cs_v ctx) with Some b => _reason b =? Wakeup | None => false end
      then b ← last (cs_v ctx);
        Some (b, ctx <| cs_v ::= (fun l => removelast l) |>, moved cpu (last (removelast (cs_v ctx))))
      else match last (cs_v ctx) with
           | Some b => if uint 64 (End_ b) <=? uint 64 time then Some tt else None | None => Some tt end;;
        p ← region_wakeup time cpu ctx; Some (fst p, snd p, moved cpu (last (cs_v ctx)))) =
      Some (item, ctx1, moved cpu (last dn)) /\ cs_v ctx1 = dn /\ cs_runningTime ctx1 = cs_runningTime ctx /\
      0 <= wakeup_time ctx1 < 2 ^ 47).
  { destruct op as [c |]; cbn in Hs; rewrite Hl.
    - rewrite last_snoc, Hs. simpl. rewrite removelast_snoc. eexists c, _. split; [reflexivity |].
      cbn. rewrite Hl, removelast_snoc. done.
    - rewrite app_nil_r. destruct (region_wakeup_spec time cpu ctx) as (i & ctx1 & E & F1 & F2 & F3 & _); [lia | done |].
      rewrite E. rewrite Hl, app_nil_r in F1. destruct (last dn) as [b |] eqn:El.
      + destruct (ended_last _ _ _ _ He El) as [Hb Hr]. rewrite (proj2 (Z.eqb_neq _ _) Hr).
        rewrite !uint_small by (unfold in_uint; lia). rewrite (proj2 (Z.leb_le _ _)) by lia. simpl. eauto 10.
      + simpl. eauto 10. }
  destruct Hmid as (item & ctx1 & Em & F1 & F2 & F3).
  rewrite Em. cbn [mbind option_bind].
  destruct (region_SetStart time item) as (c2 & E2 & G1 & G2 & G3 & _); [lia |]. rewrite E2. cbn [mbind option_bind].
  destruct (region_SetEnd (-1) c2) as (c3 & E3 & K1 & K2 & K3 & K4 & _); [lia |]. rewrite E3. simpl.
  eexists _, (SetThread 0 (SetState (-1) (SetReason (-1) (SetCpu cpu c3)))). split; [reflexivity |].
  assert (Hst : forall c, Start (SetThread 0 (SetState (-1) (SetReason (-1) (SetCpu cpu c)))) = Start c) by done.
  assert (Hen : forall c, End_ (SetThread 0 (SetState (-1) (SetReason (-1) (SetCpu cpu c)))) = End_ c) by done.
  split; [| split_and!; try done; [rewrite Hst; lia | apply F3 | apply F3]].
  split; cbn.
  - now rewrite F1.
  - rewrite Hst, K2, G1. eapply ended_mono; [exact He |].
    destruct op as [c |]; [destruct (Ho c eq_refl); lia | lia].
  - intros c [= <-]. rewrite Hst, Hen, K1, K2, G1. split; [done | lia].
  - now rewrite F2.
Qed.

(** A wakeup opens a region, unless one is open: then it is kept for the next one. *)
Lemma wake_spec T time cpu ctx dn op :
  regions T ctx dn op -> 0 <= T <= time -> time < 2 ^ 47 -> 0 <= wakeup_time ctx < 2 ^ 47 ->
  exists ctx', wake time cpu ctx = Some ctx' /\ 0 <= wakeup_time ctx' < 2 ^ 47 /\
    match op with
    | Some c => regions time ctx' dn (Some c) /\ wakeup_time ctx' = time
    | None => exists c', regions time ctx' dn (Some c') /\ _reason c' = Wakeup /\ Start c' = time
    end.
Proof.
  intros [Hl He Ho Ht] HT Htime Hw. unfold wake. rewrite Hl. destruct op as [c |].
  - destruct (Ho c eq_refl) as [Hc1 Hc2]. rewrite last_snoc. unfold IsEndValid. rewrite Int48.IsNonNegative_Val.
    change (Int48.Val (_end c)) with (End_ c). rewrite Hc1. simpl. eexists. split; [reflexivity |].
    split; [cbn; lia |]. split; [| done]. split; try done.
    intros c' [= <-]. split; [done | lia].
  - rewrite app_nil_r.
    assert (Hv : match last dn with Some b => negb (IsEndValid b) | None => false end = false).
    { destruct (last dn) as [b |] eqn:El; [| done]. destruct (ended_last _ _ _ _ He El) as [Hb _].
      unfold IsEndValid. rewrite Int48.IsNonNegative_Val. change (Int48.Val (_end b)) with (End_ b).
      apply negb_false_iff, Z.leb_le. lia. }
    rewrite Hv. destruct (region_SetWakeup time (SetWakeupCpu cpu fresh_region)) as (c1 & E1 & _); [lia |].
    rewrite E1. cbn [mbind option_bind]. destruct (region_SetStart time c1) as (c2 & E2 & G1 & _); [lia |]. rewrite E2. cbn [mbind option_bind].
    destruct (region_SetEnd (-1) c2) as (c3 & E3 & K1 & K2 & _); [lia |]. rewrite E3. simpl.
    eexists. split; [reflexivity |]. split; [exact Hw |].
    exists (SetThread 0 (SetState (-1) (SetReason Wakeup (SetCpu 0 c3)))). split; [| split; [reflexivity |]].
    + split; cbn.
      * rewrite Hl, app_nil_r. reflexivity.
      * change (ended 0 dn (Start c3)). rewrite K2, G1. now apply ended_mono with T.
      * intros c [= <-]. change (End_ c3 = -1 /\ Start c3 <= time). rewrite K1, K2, G1. split; [done | lia].
      * exact Ht.
    + change (Start c3 = time). now rewrite K2, G1.
Qed.

(** ** The slices of a processor *)
Import ContextSwitchCpu.

(** [s_end]: the six bytes [End] reads. *)
Definition s_end (c : t) : Z := Int48.Val (_end c).
Fixpoint slices_ended (lo : Z) (l : list t) (hi : Z) : Prop :=
  match l with
  | [] => lo <= hi
  | c :: l => lo <= Start c <= s_end c /\ slices_ended (s_end c) l hi
  end.
(** What runs on the processor: the compressed number of the thread, if any. *)
Definition slices (T : Z) (cs : list t) (running : option Z) : Prop :=
  match running with
  | None => slices_ended 0 cs T
  | Some i => exists l c, cs = l ++ [c] /\ slices_ended 0 l (Start c) /\ Start c <= T /\ s_end c = -1 /\ Thread c = i
  end.

Lemma slices_ended_app lo l c hi :
  slices_ended lo l (Start c) -> Start c <= s_end c <= hi -> slices_ended lo (l ++ [c]) hi.
Proof.
  revert lo. induction l as [| d l IH]; intros lo H Hc; [cbn in *; tauto || lia |].
  destruct H as (? & H). split; [done |]. auto.
Qed.
Lemma slices_ended_mono lo l hi hi' : slices_ended lo l hi -> hi <= hi' -> slices_ended lo l hi'.
Proof.
  revert lo. induction l as [| d l IH]; intros lo H Hh; [cbn in *; lia |].
  destruct H as (? & H). split; [done |]. eauto.
Qed.

Lemma slice_end T time cs i cx :
  slices T cs (Some i) -> T <= time < 2 ^ 47 -> last cs = Some cx ->
  Thread cx = i /\ exists cx', SetEnd time cx = Some cx' /\ slices time (set_back cx' cs) None.
Proof.
  intros (l & c & -> & He & Hc & Hen & Hi) HT Hl. rewrite last_snoc in Hl. injection Hl as ->.
  split; [done |]. unfold SetEnd, assert47. rewrite (proj2 (Z.ltb_lt time (2 ^ 47))) by lia.
  eexists. split; [reflexivity |]. unfold set_back. rewrite removelast_snoc. cbn.
  assert (Hs : 0 <= Start cx) by (clear -He; revert He; generalize 0; induction l as [| d l IH]; intros z He;
    [exact He | destruct He as (? & H); specialize (IH _ H); lia]).
  apply slices_ended_app; [exact He |]. unfold s_end. cbn. rewrite val_set by lia.
  change (Start cx <= time <= time). lia.
Qed.

Lemma slice_start T time cs i :
  slices T cs None -> 0 <= T <= time -> time < 2 ^ 47 -> exists cx cx1,
    SetStart time fresh_slice = Some cx /\ SetEnd (-1) cx = Some cx1 /\
    slices time (cs ++ [SetThread i cx1]) (Some (uint 16 i)).
Proof.
  intros He HT Ht. unfold SetStart, SetEnd, assert47.
  rewrite (proj2 (Z.ltb_lt time (2 ^ 47))) by lia. eexists _, _. split; [reflexivity |].
  split; [reflexivity |]. set (cx := SetThread i _).
  assert (H0 : in_uint 64 (set_time48 time 0)) by (apply set_time48_range; unfold in_uint; lia).
  assert (Hst : Start cx = time).
  { unfold cx, Start. cbn. rewrite time48_low, time48_set by (done || (unfold in_uint; lia)).
    apply sint_small; [lia | unfold in_sint; lia]. }
  exists cs, cx. split; [done |]. split; [rewrite Hst; eapply slices_ended_mono; [exact He | lia] |].
  split; [lia |]. split; [unfold s_end, cx; cbn; rewrite val_set by lia; done |].
  unfold cx, Thread. cbn. now rewrite <- (bits_0 16), <- low16_bits, low16_set.
Qed.

(** ** The server *)
Definition ctx_of (w : W) (th : Z) : ContextSwitch := find_or_new new_ContextSwitch th (ctxSwitch w).
Definition times_of (w : W) (th : Z) : CpuThreadData := find_or_new new_CpuThreadData th (cpuThreadData (cpu w)).

(** The thread [th] has the regions [dn], and [op] if it is running or was woken;
    its running time is kept twice. *)
Record runs (T : Z) (w : W) (th : Z) (dn : list ContextSwitchData.t) (op : option ContextSwitchData.t) : Prop := {
  ru_regions : regions T (ctx_of w th) dn op;
  ru_wakeup : 0 <= wakeup_time (ctx_of w th) < 2 ^ 47;
  ru_time : runningTime (times_of w th) = ran dn;
  ru_count : runningRegions (times_of w th) = uint 32 (Z.of_nat (length dn)) }.

(** What the processor [c] runs. *)
Definition on_cpu (T : Z) (w : W) (c : Z) (running : option Z) : Prop :=
  match running with
  | None => slices T (default [] (cpuData (cpu w) !! c)) None
  | Some th => exists i, ThreadCompress.m_threadMap (externalThreadCompress (cpu w)) !! th = Some i /\
      slices T (default [] (cpuData (cpu w) !! c)) (Some i)
  end.

Record switches_ok (T : Z) (w : W) : Prop := {
  sw_threads : forall th, 0 <= th < 2 ^ 32 -> exists dn op, runs T w th dn op;
  sw_cpus : forall c, exists r, on_cpu T w c r;
  sw_compress : ThreadCompress.ok (externalThreadCompress (cpu w)) /\
    ThreadCompress.m_threadExpand (externalThreadCompress (cpu w)) <> [] }.

Definition erase_ctx (w : W) : W :=
  w <| ctxSwitch := ∅ |> <| cpu := mkCpu ∅ 0 ∅ ∅ initial_threads ∅ 0 false ∅ false ∅ ∅ [] [] |>
    <| lastTime := 0 |> <| m_refTimeCtx := 0 |> <| m_serverQueryQueuePrio := [] |>.

Lemma regions_mono T T' ctx dn op : regions T ctx dn op -> T <= T' -> regions T' ctx dn op.
Proof.
  intros [H1 H2 H3 H4] HT. split; [done | | | done].
  - destruct op; [done |]. now apply ended_mono with T.
  - intros c Hc. destruct (H3 c Hc). split; [done | lia].
Qed.

Lemma runs_frame T T' w w' th dn op :
  runs T w th dn op -> T <= T' -> ctxSwitch w' !! th = ctxSwitch w !! th ->
  cpuThreadData (cpu w') !! th = cpuThreadData (cpu w) !! th -> runs T' w' th dn op.
Proof.
  intros [H1 H2 H3 H4] HT E1 E2. unfold ctx_of, times_of, find_or_new in *.
  split; unfold ctx_of, times_of, find_or_new; rewrite ?E1, ?E2; auto. eapply regions_mono; eauto.
Qed.

Lemma slices_mono T T' cs r : slices T cs r -> T <= T' -> slices T' cs r.
Proof.
  intros H HT. destruct r as [i |]; [| now apply slices_ended_mono with T].
  destruct H as (l & c & ? & ? & ? & ?). exists l, c. split_and!; auto; tauto || lia.
Qed.

Lemma on_cpu_frame T T' w w' c r :
  on_cpu T w c r -> T <= T' -> default [] (cpuData (cpu w') !! c) = default [] (cpuData (cpu w) !! c) ->
  ThreadCompress.m_threadMap (externalThreadCompress (cpu w)) ⊆
    ThreadCompress.m_threadMap (externalThreadCompress (cpu w')) -> on_cpu T' w' c r.
Proof.
  intros H HT E Hs. destruct r as [th |]; cbn in *; rewrite E.
  - destruct H as (i & Ei & H). exists i. split; [now apply (lookup_weaken _ _ _ _ Ei Hs) | exact (slices_mono T T' _ (Some i) H HT)].
  - exact (slices_mono T T' _ None H HT).
Qed.

(** The regions of the thread that leaves the processor. *)
Lemma switch_out_thread T time w old reason state :
  0 <= old < 2 ^ 32 -> T <= time < 2 ^ 47 -> sint 8 reason <> Wakeup ->
  (ctxSwitch w !! old = None \/ exists dn b, runs T w old dn (Some b)) ->
  wp (m ← gets ctxSwitch;
      match m !! old with
      | Some ctx =>
          r ← expect (stop_running time reason state ctx);
          modify (fun w => w <| ctxSwitch ::= <[old := fst r]> |>);;
          UpdCpu (fun c => c <| cpuThreadData ::= count_region old (snd r) |>)
      | None => mret tt
      end) (fun _ w' =>
    (forall dn b, runs T w old dn (Some b) -> exists b', runs time w' old (dn ++ [b']) None /\
       ContextSwitchData.Start b' = ContextSwitchData.Start b /\ ContextSwitchData.End_ b' = time) /\
    (ctxSwitch w !! old = None -> w' = w) /\
    (forall th, th <> old -> ctxSwitch w' !! th = ctxSwitch w !! th /\
       cpuThreadData (cpu w') !! th = cpuThreadData (cpu w) !! th) /\
    cpuData (cpu w') = cpuData (cpu w) /\ externalThreadCompress (cpu w') = externalThreadCompress (cpu w) /\
    erase_ctx w' = erase_ctx w /\ lastTime w' = lastTime w) w.
Proof.
  intros Hold HT Hr Hrun. wp_steps. destruct (ctxSwitch w !! old) as [ctx |] eqn:Ec.
  - destruct Hrun as [[=] | (dn & b & [H1 H2 H3 H4])]. unfold ctx_of, times_of, find_or_new in H1, H2, H3, H4.
    rewrite Ec in H1, H2. cbn in H1, H2.
    destruct (stop_running_spec T time reason state ctx dn b H1 HT Hr) as (ctx' & b' & E & G1 & G2 & G3 & G4 & G5).
    unfold UpdCpu. wp_steps. eapply wp_expect; [exact E |]. wp_steps. split_and!; try done.
    + intros dn0 b0 [K1 K2 K3 K4]. unfold ctx_of, find_or_new in K1. rewrite Ec in K1.
      assert (Eq := rg_list _ _ _ _ K1). cbn in Eq. rewrite (rg_list _ _ _ _ H1) in Eq.
      apply app_inj_2 in Eq as [<- [= <-]]; [| done]. exists b'. split; [| done].
      split.
      * unfold ctx_of, find_or_new. cbn. rewrite lookup_insert_eq. exact G1.
      * unfold ctx_of, find_or_new. cbn. rewrite lookup_insert_eq. cbn. rewrite G4. exact H2.
      * unfold times_of, find_or_new, count_region. cbn. rewrite lookup_insert_eq. cbn.
        unfold find_or_new. rewrite H3, ran_snoc, G2, G3.
        pose proof (ran_bound _ _ _ (rg_ended _ _ _ _ H1)). destruct (rg_open _ _ _ _ H1 b eq_refl).
        pose proof (ended_le _ _ _ (rg_ended _ _ _ _ H1)).
        apply sint_small; [lia | unfold in_sint; lia].
      * unfold times_of, find_or_new, count_region. cbn. rewrite lookup_insert_eq. cbn.
        unfold find_or_new. rewrite H4, length_app. unfold uint. rewrite Zplus_mod_idemp_l. f_equal. cbn. lia.
    + intros th Hne. cbn. unfold count_region. now rewrite !lookup_insert_ne by done.
  - wp_steps. split_and!; try done. intros dn b [H1 _ _ _]. unfold ctx_of, find_or_new in H1. rewrite Ec in H1.
    assert (Eq := rg_list _ _ _ _ H1). cbn in Eq. now destruct dn.
Qed.

(** The slice of the processor that the thread leaves. *)
Lemma switch_out_slice T time w c old :
  0 <= T <= time -> time < 2 ^ 47 -> ThreadCompress.ok (externalThreadCompress (cpu w)) ->
  (default [] (cpuData (cpu w) !! c) = [] \/ on_cpu T w c (Some old)) ->
  wp (d ← gets cpu;
      let cs := default [] (cpuData d !! c) in
      match last cs with
      | Some cx =>
          t ← expect (ThreadCompress.DecompressThread (Thread cx) (externalThreadCompress d));
          assert_ (t =? old);;
          cx ← expect (SetEnd time cx);
          UpdCpu (fun d => d <| cpuData ::= <[c := set_back cx cs]> |>)
      | None => mret tt
      end) (fun _ w' =>
    on_cpu time w' c None /\ (forall c', c' <> c -> cpuData (cpu w') !! c' = cpuData (cpu w) !! c') /\
    ctxSwitch w' = ctxSwitch w /\ cpuThreadData (cpu w') = cpuThreadData (cpu w) /\
    externalThreadCompress (cpu w') = externalThreadCompress (cpu w) /\
    erase_ctx w' = erase_ctx w /\ lastTime w' = lastTime w) w.
Proof.
  intros HT Ht Hok Hc. wp_steps. cbv zeta. destruct Hc as [Hc | (i & Ei & Hs)].
  - rewrite Hc. cbn [last]. wp_steps. split_and!; try done. cbn. rewrite Hc. cbn. lia.
  - destruct (last (default [] (cpuData (cpu w) !! c))) as [cx |] eqn:El.
    2: { destruct Hs as (l & x & E & _). rewrite E, last_snoc in El. done. }
    destruct (slice_end T time _ i cx Hs ltac:(lia) El) as (Hi & cx' & E & Hs').
    wp_steps. eapply wp_expect; [rewrite Hi; exact (ThreadCompress.lookup_ok _ _ _ Hok Ei) |].
    wp_steps. eapply wp_expect; [exact E |]. unfold UpdCpu. wp_steps.
    split_and!; try done.
    + cbn. now rewrite lookup_insert_eq.
    + intros c' Hne. cbn. now rewrite lookup_insert_ne.
Qed.

(** What changes for a thread and for a processor, and what does not. *)
Definition others_kept (P : Z -> Prop) (c : Z) (w w' : W) : Prop :=
  (forall th, ~ P th -> ctxSwitch w' !! th = ctxSwitch w !! th /\
     cpuThreadData (cpu w') !! th = cpuThreadData (cpu w) !! th) /\
  (forall c', c' <> c -> cpuData (cpu w') !! c' = cpuData (cpu w) !! c') /\
  ThreadCompress.m_threadMap (externalThreadCompress (cpu w)) ⊆
    ThreadCompress.m_threadMap (externalThreadCompress (cpu w')).

Lemma switches_step T T' w w' (P : Z -> Prop) `{!forall th, Decision (P th)} c r :
  switches_ok T w -> T <= T' -> others_kept P c w w' ->
  (forall th, P th -> 0 <= th < 2 ^ 32 -> exists dn op, runs T' w' th dn op) -> on_cpu T' w' c r ->
  ThreadCompress.ok (externalThreadCompress (cpu w')) ->
  ThreadCompress.m_threadExpand (externalThreadCompress (cpu w')) <> [] -> switches_ok T' w'.
Proof.
  intros [H1 H2 H3] HT (K1 & K2 & K3) Hth Hc Hok Hne. split; [| | done].
  - intros th Hr. destruct (decide (P th)) as [Hp | Hp]; [now apply Hth |].
    destruct (H1 th Hr) as (dn & op & Hrun), (K1 th Hp) as [E1 E2]. exists dn, op.
    exact (runs_frame T T' w w' th dn op Hrun HT E1 E2).
  - intros c'. destruct (decide (c' = c)) as [-> | Hne']; [now exists r |].
    destruct (H2 c') as [r' Hon]. exists r'. refine (on_cpu_frame T T' w w' c' r' Hon HT _ K3).
    now rewrite K2.
Qed.

Lemma switch_out_spec T time w c old reason state :
  switches_ok T w -> 0 <= old < 2 ^ 32 -> 0 <= T <= time -> time < 2 ^ 47 -> sint 8 reason <> Wakeup ->
  (ctxSwitch w !! old = None \/ exists dn b, runs T w old dn (Some b)) ->
  (default [] (cpuData (cpu w) !! c) = [] \/ on_cpu T w c (Some old)) ->
  wp (switch_out time c old reason state) (fun _ w' =>
    switches_ok time w' /\ on_cpu time w' c None /\ others_kept (fun th => th = old) c w w' /\
    (forall dn b, runs T w old dn (Some b) -> exists b', runs time w' old (dn ++ [b']) None /\
       ContextSwitchData.Start b' = ContextSwitchData.Start b /\ ContextSwitchData.End_ b' = time) /\
    externalThreadCompress (cpu w') = externalThreadCompress (cpu w) /\
    erase_ctx w' = erase_ctx w /\ lastTime w' = lastTime w) w.
Proof.
  intros Hok Hold HT Ht Hr Hrun Hc. unfold switch_out.
  apply wp_bind_assoc, wp_bind. eapply wp_mono; [exact (switch_out_thread T time w old reason state Hold ltac:(lia) Hr Hrun) |].
  intros _ w1 (A1 & A2 & A3 & A4 & A5 & A6 & A7).
  eapply wp_mono; [apply (switch_out_slice T time w1 c old HT Ht) |].
  { rewrite A5. apply (sw_compress _ _ Hok). }
  { rewrite A4. destruct Hc as [Hc | Hc]; [now left | right]. unfold on_cpu in *. now rewrite A4, A5. }
  intros _ w2 (B1 & B2 & B3 & B4 & B5 & B6 & B7).
  assert (Hkept : others_kept (fun th => th = old) c w w2).
  { split; [| split].
    - intros th Hne. rewrite B3, B4. now apply A3.
    - intros c' Hne. now rewrite B2, A4.
    - rewrite B5, A5. done. }
  assert (Hfr : forall dn op, runs time w1 old dn op -> runs time w2 old dn op)
    by (intros dn op H; refine (runs_frame time time w1 w2 old dn op H _ _ _); [lia | now rewrite B3 | now rewrite B4]).
  split; [| split_and!; try done; try congruence].
  - refine (switches_step T time w w2 (fun th => th = old) c None Hok ltac:(lia) Hkept _ B1 _ _).
    + intros th -> _. destruct Hrun as [Hn | (dn & b & H)].
      * rewrite (A2 Hn) in Hfr. destruct (sw_threads _ _ Hok old Hold) as (dn & op & H).
        exists dn, op. apply Hfr. now apply (runs_frame T time w w old dn op).
      * destruct (A1 dn b H) as (b' & Hb & _). eauto.
    + rewrite B5, A5. apply (sw_compress _ _ Hok).
    + rewrite B5, A5. apply (sw_compress _ _ Hok).
  - intros dn b H. destruct (A1 dn b H) as (b' & Hb & Hs & He). eauto.
Qed.

Lemma CheckExternalName_wp th w (Q : unit -> W -> Prop) :
  (forall w', ctxSwitch w' = ctxSwitch w -> cpuThreadData (cpu w') = cpuThreadData (cpu w) ->
     cpuData (cpu w') = cpuData (cpu w) -> externalThreadCompress (cpu w') = externalThreadCompress (cpu w) ->
     erase_ctx w' = erase_ctx w -> lastTime w' = lastTime w -> Q tt w') ->
  wp (CheckExternalName th) Q w.
Proof.
  intros HQ. unfold CheckExternalName. wp_steps. destruct (externalNames (cpu w) !! th).
  - wp_steps. now apply HQ.
  - unfold UpdCpu. wp_steps. apply Query_prio_wp; [done |]. now apply HQ.
Qed.

(** The state once the thread has got the processor. *)
Lemma switched_in T time w w' c new dn op ctx' b' i cx comp (mig : bool) :
  switches_ok T w -> 0 <= T <= time ->
  runs T w new dn op -> regions time ctx' dn (Some b') -> 0 <= wakeup_time ctx' < 2 ^ 47 ->
  ThreadCompress.ok comp -> ThreadCompress.m_threadMap comp !! new = Some i ->
  ThreadCompress.m_threadExpand comp <> [] ->
  ThreadCompress.m_threadMap (externalThreadCompress (cpu w)) ⊆ ThreadCompress.m_threadMap comp ->
  slices time (default [] (cpuData (cpu w) !! c) ++ [cx]) (Some i) ->
  ctxSwitch w' = <[new := ctx']> (ctxSwitch w) ->
  cpuThreadData (cpu w') = (if mig then count_migration new (cpuThreadData (cpu w)) else cpuThreadData (cpu w)) ->
  cpuData (cpu w') = <[c := default [] (cpuData (cpu w) !! c) ++ [cx]]> (cpuData (cpu w)) ->
  externalThreadCompress (cpu w') = comp ->
  switches_ok time w' /\ on_cpu time w' c (Some new) /\ others_kept (fun th => th = new) c w w' /\
  runs time w' new dn (Some b') /\
  migrations (times_of w' new) =
    (if mig then uint 32 (migrations (times_of w new) + 1) else migrations (times_of w new)).
Proof.
  intros Hok HT [R1 R2 R3 R4] G1 G5 C1 C2 C3 C4 Hsl F1 F2 F3 F4.
  assert (Hkept : others_kept (fun th => th = new) c w w').
  { split; [| split].
    - intros th Hne. rewrite F1, F2. unfold count_migration. destruct mig; now rewrite ?lookup_insert_ne by done.
    - intros c' Hne. now rewrite F3, lookup_insert_ne.
    - now rewrite F4. }
  assert (Hon : on_cpu time w' c (Some new)).
  { exists i. rewrite F3, F4, lookup_insert_eq. split; [exact C2 | exact Hsl]. }
  assert (Hctx : ctx_of w' new = ctx') by (unfold ctx_of, find_or_new; now rewrite F1, lookup_insert_eq).
  assert (Htimes : times_of w' new = if mig then (times_of w new) <| migrations ::= (fun n => uint 32 (n + 1)) |>
    else times_of w new).
  { unfold times_of, find_or_new. rewrite F2. destruct mig; [| done]. unfold count_migration.
    now rewrite lookup_insert_eq. }
  assert (Hruns : runs time w' new dn (Some b')).
  { split; rewrite ?Hctx, ?Htimes; try done; destruct mig; assumption. }
  split; [| split_and!; try done; rewrite Htimes; now destruct mig].
  refine (switches_step T time w w' (fun th => th = new) c (Some new) Hok ltac:(lia) Hkept _ Hon _ _).
  - intros th -> _. eauto.
  - now rewrite F4.
  - now rewrite F4.
Qed.

(** The thread that gets the processor. *)
Lemma switch_in_spec T time w c new dn op :
  switches_ok T w -> 0 <= new < 2 ^ 32 -> 0 <= T <= time -> time < 2 ^ 47 -> on_cpu T w c None ->
  runs T w new dn op -> startable op -> ~ ThreadCompress.full (externalThreadCompress (cpu w)) ->
  wp (switch_in time c new) (fun _ w' =>
    (switches_ok time w' /\ on_cpu time w' c (Some new) /\ others_kept (fun th => th = new) c w w' /\
     (exists b', runs time w' new dn (Some b') /\ ContextSwitchData.Start b' = time /\
        ContextSwitchData._cpu b' = uint 8 c) /\
     migrations (times_of w' new) =
       (if moved c (last dn) then uint 32 (migrations (times_of w new) + 1) else migrations (times_of w new))) /\
    erase_ctx w' = erase_ctx w /\ lastTime w' = lastTime w) w.
Proof.
  intros Hok Hnew HT Ht Hc Hrun Hs Hfull. unfold switch_in. wp_steps. fold (ctx_of w new).
  destruct (start_running_spec T time c (ctx_of w new) dn op (ru_regions _ _ _ _ _ Hrun) Hs HT Ht (ru_wakeup _ _ _ _ _ Hrun))
    as (ctx' & b' & E & G1 & G2 & G3 & G4 & G5). eapply wp_expect; [exact E |]. wp_steps.
  destruct (sw_compress _ _ Hok) as [Hcok Hcne].
  pose proof (ThreadCompress.CompressThread_spec new _ Hcok Hfull Hcne ltac:(red; lia)) as HC.
  destruct (ThreadCompress.CompressThread new (externalThreadCompress (cpu w))) as [i comp] eqn:EC.
  destruct HC as (C1 & C2 & C3 & C4).
  destruct (slice_start T time _ i Hc HT Ht) as (cx & cx1 & E1 & E2 & Hsl).
  rewrite uint_small in Hsl by (red; destruct C1 as (Hm & _); destruct (Hm _ _ C2); lia).
  eapply wp_expect; [exact E1 |]. wp_steps. eapply wp_expect; [exact E2 |]. unfold UpdCpu. wp_steps.
  change (externalThreadCompress (cpu (w <| ctxSwitch ::= _ |>))) with (externalThreadCompress (cpu w)).
  rewrite EC. cbn [fst snd]. apply CheckExternalName_wp. intros w1 H1 H2 H3 H4 H5 H6. cbn in H1, H2, H3, H4.
  assert (Hfin := fun w' => switched_in T time w w' c new dn op ctx' b' i (SetThread i cx1) comp
    (moved c (last dn)) Hok HT Hrun G1 G5 C1 C2 C3 C4 Hsl).
  assert (He : erase_ctx w1 = erase_ctx w) by (rewrite H5; reflexivity).
  destruct (moved c (last dn)); cbn [when]; wp_steps.
  - set (w2 := w1 <| cpu ::= _ |>). destruct (Hfin w2) as (K1 & K2 & K3 & K4 & K5); try assumption.
    { unfold w2. cbn. now rewrite H2. }
    split; [split_and!; eauto | split; [rewrite <- He; reflexivity | exact H6]].
  - destruct (Hfin w1) as (K1 & K2 & K3 & K4 & K5); try assumption.
    split; [split_and!; eauto | split; [exact He | exact H6]].
Qed.

(** ** A context switch *)

(** The same regions and slices. *)
Record alike (w w' : W) : Prop := {
  al_ctx : ctxSwitch w' = ctxSwitch w;
  al_times : cpuThreadData (cpu w') = cpuThreadData (cpu w);
  al_slices : forall c, default [] (cpuData (cpu w') !! c) = default [] (cpuData (cpu w) !! c);
  al_compress : externalThreadCompress (cpu w') = externalThreadCompress (cpu w) }.

Lemma alike_sym w w' : alike w w' -> alike w' w.
Proof. intros [H1 H2 H3 H4]. split; intros; rewrite ?H1, ?H2, ?H3, ?H4; done. Qed.
Lemma alike_runs T w w' th dn op : alike w w' -> runs T w th dn op -> runs T w' th dn op.
Proof. intros [E1 E2 _ _] H. refine (runs_frame T T w w' th dn op H _ _ _); [lia | now rewrite E1 | now rewrite E2]. Qed.
Lemma alike_on_cpu T w w' c r : alike w w' -> on_cpu T w c r -> on_cpu T w' c r.
Proof. intros [_ _ E3 E4] H. refine (on_cpu_frame T T w w' c r H _ _ _); [lia | apply E3 | now rewrite E4]. Qed.
Lemma alike_ok T w w' : alike w w' -> switches_ok T w -> switches_ok T w'.
Proof.
  intros H [H1 H2 H3]. split.
  - intros th Hth. destruct (H1 th Hth) as (dn & op & Hrun). exists dn, op. now apply (alike_runs T w w').
  - intros c. destruct (H2 c) as [r Hon]. exists r. now apply (alike_on_cpu T w w').
  - now rewrite (al_compress _ _ H).
Qed.

(** Time has passed and the processor has been noticed: the switch begins. *)
Lemma begin_switch w c dt time (Q : unit -> W -> Prop) (k : Z -> M W unit) :
  time_of w (sint 64 (m_refTimeCtx w + dt)) = Some time ->
  (forall w', alike w w' -> (forall c', c' <> c -> cpuData (cpu w') !! c' = cpuData (cpu w) !! c') ->
     erase_ctx w' = erase_ctx w -> lastTime w' = Z.max (lastTime w) time ->
     wp (k time) Q w') ->
  wp (UpdCpu (fun c => c <| newContextSwitchesReceived := true |>);;
      ref ← RefTime m_refTimeCtx dt;
      time ← TscTime ref;
      touch_lastTime time;;
      UpdCpu (fun d => d <| cpuDataCount ::= (fun n => if n <=? c then c + 1 else n) |>
                         <| cpuData ::= emplace c [] |>);;
      k time) Q w.
Proof.
  intros Ht HQ. unfold RefTime, touch_lastTime, UpdCpu. wp_steps. eapply TscTime_wp; [exact Ht |]. wp_steps.
  apply HQ; try done.
  - split; try done. intros c'. cbn. unfold emplace. destruct (cpuData (cpu w) !! c) eqn:E; [done |].
    destruct (decide (c' = c)) as [-> | Hne]; [now rewrite lookup_insert_eq, E | now rewrite lookup_insert_ne].
  - intros c' Hne. cbn. unfold emplace. destruct (cpuData (cpu w) !! c) eqn:E; [done |]. now rewrite lookup_insert_ne.
  - cbn. destruct (Z.ltb_spec (lastTime w) time); lia.
Qed.

(** The thread that leaves runs on the processor, or has not been seen before; 0 is
    the idle processor. *)
Definition leaves (T : Z) (w : W) (c old : Z) : Prop :=
  if old =? 0 then on_cpu T w c None else
  (ctxSwitch w !! old = None \/ exists dn b, runs T w old dn (Some b)) /\
  (default [] (cpuData (cpu w) !! c) = [] \/ on_cpu T w c (Some old)).
(** The thread that gets the processor does not run elsewhere. *)
Definition enters (T : Z) (w : W) (new : Z) (dn : list ContextSwitchData.t) : Prop :=
  new <> 0 -> exists op, runs T w new dn op /\ startable op.

Record switched (T time : Z) (w : W) (c old new : Z) (dn : list ContextSwitchData.t) (w' : W) : Prop := {
  sd_ok : switches_ok time w';
  sd_cpu : on_cpu time w' c (if new =? 0 then None else Some new);
  sd_old : old <> 0 -> forall dn b, runs T w old dn (Some b) -> exists b', runs time w' old (dn ++ [b']) None /\
    ContextSwitchData.Start b' = ContextSwitchData.Start b /\ ContextSwitchData.End_ b' = time;
  sd_new : new <> 0 -> exists b', runs time w' new dn (Some b') /\
    ContextSwitchData.Start b' = time /\ ContextSwitchData._cpu b' = c;
  sd_migrations : new <> 0 -> migrations (times_of w' new) =
    (if moved c (last dn) then uint 32 (migrations (times_of w new) + 1) else migrations (times_of w new));
  sd_others : others_kept (fun th => th = old \/ th = new) c w w';
  sd_rest : erase_ctx w' = erase_ctx w;
  sd_last : lastTime w' = Z.max (lastTime w) time }.

Lemma leave_processor T time w c old reason state :
  switches_ok T w -> 0 <= old < 2 ^ 32 -> 0 <= T <= time -> time < 2 ^ 47 -> sint 8 reason <> Wakeup ->
  leaves T w c old ->
  wp (when (negb (old =? 0)) (switch_out time c old reason state)) (fun _ w' =>
    switches_ok time w' /\ on_cpu time w' c None /\ others_kept (fun th => th = old) c w w' /\
    (old <> 0 -> forall dn b, runs T w old dn (Some b) -> exists b', runs time w' old (dn ++ [b']) None /\
       ContextSwitchData.Start b' = ContextSwitchData.Start b /\ ContextSwitchData.End_ b' = time) /\
    externalThreadCompress (cpu w') = externalThreadCompress (cpu w) /\
    erase_ctx w' = erase_ctx w /\ lastTime w' = lastTime w) w.
Proof.
  intros Hok Hold HT Ht Hr Hl. unfold leaves in Hl. destruct (Z.eqb_spec old 0) as [-> | Hne]; cbn [negb when].
  - assert (Hkept : others_kept (fun th => th = 0) c w w) by done.
    assert (Hon : on_cpu time w c None) by exact (slices_mono T time _ None Hl (proj2 HT)).
    split; [| split_and!; done].
    refine (switches_step T time w w (fun th => th = 0) c None Hok (proj2 HT) Hkept _ Hon _ _);
      try apply (sw_compress _ _ Hok).
    intros th -> H0. destruct (sw_threads _ _ Hok 0 H0) as (dn & op & H). exists dn, op.
    now apply (runs_frame T time w w 0 dn op).
  - destruct Hl as [H1 H2]. eapply wp_mono; [exact (switch_out_spec T time w c old reason state Hok Hold HT Ht Hr H1 H2) |].
    intros _ w' (A1 & A2 & A3 & A4 & A5 & A6 & A7). split_and!; auto.
Qed.

Lemma alike_leaves T w w' c old : alike w w' -> leaves T w c old -> leaves T w' c old.
Proof.
  intros H Hl. unfold leaves in *. destruct (old =? 0); [now apply (alike_on_cpu T w w') |].
  rewrite (al_ctx _ _ H), (al_slices _ _ H). destruct Hl as [H1 H2]. split.
  - destruct H1 as [H1 | (dn & b & H1)]; [now left | right]. exists dn, b. now apply (alike_runs T w w').
  - destruct H2 as [H2 | H2]; [now left | right]. now apply (alike_on_cpu T w w').
Qed.

Lemma others_kept_trans (P P' : Z -> Prop) c w w1 w2 :
  others_kept P c w w1 -> others_kept P' c w1 w2 -> others_kept (fun th => P th \/ P' th) c w w2.
Proof.
  intros (A1 & A2 & A3) (B1 & B2 & B3). split; [| split].
  - intros th Hn. destruct (A1 th) as [E1 E2], (B1 th) as [E3 E4]; try tauto. split; congruence.
  - intros c' Hn. now rewrite B2, A2.
  - now transitivity (ThreadCompress.m_threadMap (externalThreadCompress (cpu w1))).
Qed.

Lemma enter_processor T time w w2 c old new dn :
  switches_ok time w2 -> 0 <= new < 2 ^ 32 -> old <> new -> 0 <= T <= time -> time < 2 ^ 47 -> 0 <= c < 2 ^ 8 ->
  ~ ThreadCompress.full (externalThreadCompress (cpu w2)) -> on_cpu time w2 c None -> enters T w new dn ->
  others_kept (fun th => th = old) c w w2 ->
  (old <> 0 -> forall dn b, runs T w old dn (Some b) -> exists b', runs time w2 old (dn ++ [b']) None /\
     ContextSwitchData.Start b' = ContextSwitchData.Start b /\ ContextSwitchData.End_ b' = time) ->
  erase_ctx w2 = erase_ctx w -> lastTime w2 = Z.max (lastTime w) time ->
  wp (when (negb (new =? 0)) (switch_in time c new)) (fun _ w' => switched T time w c old new dn w') w2.
Proof.
  intros Hok Hnew Hne HT Ht Hc Hfull Hon He Hk Hold E L. destruct (Z.eqb_spec new 0) as [-> | Hn]; cbn [negb when].
  - split; try done. destruct Hk as (K1 & K2 & K3). split; [intros th Hth; apply K1; tauto | done].
  - destruct (He Hn) as (op & Hrun & Hs), Hk as (K1 & K2 & K3).
    destruct (K1 new ltac:(congruence)) as [E1 E2].
    assert (Hrun2 : runs time w2 new dn op) by (refine (runs_frame T time w w2 new dn op Hrun _ E1 E2); lia).
    assert (Em : times_of w2 new = times_of w new) by (unfold times_of, find_or_new; now rewrite E2).
    eapply wp_mono; [exact (switch_in_spec time time w2 c new dn op Hok Hnew ltac:(lia) Ht Hon Hrun2 Hs Hfull) |].
    intros _ w3 ((B1 & B2 & B3 & (b' & B4 & B5 & B6) & B7) & B8 & B9). split; try congruence.
    + rewrite (proj2 (Z.eqb_neq _ _) Hn). exact B2.
    + intros H0 dn0 b H. destruct (Hold H0 dn0 b H) as (b0 & G1 & G2 & G3). exists b0. split; [| done].
      destruct B3 as (B3 & _). destruct (B3 old Hne) as [E3 E4].
      exact (runs_frame time time w2 w3 old _ _ G1 (Z.le_refl time) E3 E4).
    + intros _. exists b'. rewrite uint_small in B6 by exact Hc. done.
    + intros _. now rewrite B7, Em.
    + exact (others_kept_trans _ _ c w w2 w3 (conj K1 (conj K2 K3)) B3).
Qed.

(** C33: a context switch ends the region of the thread that leaves the processor and
    begins one of the thread that gets it; the slices of the processor follow each
    other, the running time of every thread is the time in its regions that have
    ended, no assertion fails, and no other thread or processor changes. *)
Theorem ProcessContextSwitch_switches (T time dt c old new reason state : Z) (w : W)
    (dn : list ContextSwitchData.t) :
  switches_ok T w -> 0 <= old < 2 ^ 32 -> 0 <= new < 2 ^ 32 -> old <> new -> 0 <= c < 2 ^ 8 ->
  time_of w (sint 64 (m_refTimeCtx w + dt)) = Some time -> 0 <= T <= time -> time < 2 ^ 47 ->
  sint 8 reason <> Wakeup -> ~ ThreadCompress.full (externalThreadCompress (cpu w)) ->
  leaves T w c old -> enters T w new dn ->
  wp (ProcessContextSwitch dt old new c reason state) (fun _ w' => switched T time w c old new dn w') w.
Proof.
  intros Hok Hold Hnew Hne Hc Htime HT Ht Hr Hfull Hl He. unfold ProcessContextSwitch.
  apply (begin_switch w c dt time _ (fun time => when (negb (old =? 0)) (switch_out time c old reason state);;
    when (negb (new =? 0)) (switch_in time c new)) Htime).
  intros w1 Ha F4 F6 F7. assert (Hl1 := alike_leaves T w w1 c old Ha Hl).
  apply wp_bind. eapply wp_mono;
    [exact (leave_processor T time w1 c old reason state (alike_ok T w w1 Ha Hok) Hold HT Ht Hr Hl1) |].
  intros _ w2 (A1 & A2 & (K1 & K2 & K3) & A4 & A5 & A6 & A7).
  apply (enter_processor T time w w2); try done.
  - now rewrite A5, (al_compress _ _ Ha).
  - rewrite (al_ctx _ _ Ha), (al_times _ _ Ha) in K1. rewrite (al_compress _ _ Ha) in K3.
    split; [exact K1 | split; [| exact K3]]. intros c' Hn. now rewrite K2, F4.
  - intros H0 dn0 b H. exact (A4 H0 dn0 b (alike_runs T w w1 old _ _ Ha H)).
  - now rewrite A6.
  - now rewrite A7.
Qed.

(** ** The first thread that gets a processor *)
Definition demo_ctx_server : W := Worker (double_of_Z 1) 1000 0 100 false false [0; 0].

Lemma idle_new mul ib ie sp od ign fr c : on_cpu 0 (Worker mul ib ie sp od ign fr) c None.
Proof.
  change (slices 0 (default [] ((∅ : gmap Z (list t)) !! c)) None). rewrite lookup_empty. cbn. lia.
Qed.

Lemma switches_new mul ib ie sp od ign fr : switches_ok 0 (Worker mul ib ie sp od ign fr).
Proof.
  split.
  - intros th _. exists [], None. repeat (split; try done).
  - intros c. exists None. apply idle_new.
  - split; [apply initial_threads_ok | done].
Qed.

Lemma ProcessContextSwitch_switches_witness :
  wp (ProcessContextSwitch 1009 0 7 2 0 0) (fun _ w' => switched 0 9 demo_ctx_server 2 0 7 [] w') demo_ctx_server.
Proof.
  apply (ProcessContextSwitch_switches 0 9 1009 2 0 7 0 0 demo_ctx_server []).
  - apply switches_new.
  - lia.
  - lia.
  - lia.
  - lia.
  - vm_compute. reflexivity.
  - lia.
  - lia.
  - vm_compute. intros [=].
  - unfold ThreadCompress.full. vm_compute. intros [=].
  - apply idle_new.
  - intros _. exists None. split; [| exact I]. repeat (split; try done).
Defined.
