(* ===== verification/TraceFile.v ===== *)
(** * Trace files: the stream of bytes of a saved trace

    [FileWrite] cuts the bytes that are written into blocks, has them compressed by
    a ring of worker threads, each with a compression stream of its own, and writes
    the results in order; [FileRead] has the blocks of a file decompressed ahead of
    time by such a ring.  A worker and the thread that uses the file take turns
    through the flags [inputReady] and [outputReady] of the worker's stream.

    Worker threads run at any time: [sched t] lists those that run at the [t]-th
    point at which the model lets them, and a thread that waits for a worker lets it
    run.  A wait that nothing ends gives no result.  The compression libraries (LZ4,
    zstd) are parameters: a stream compresses or decompresses block after block. *)
From S2P Require Import Prelude.

(** ** The compression libraries *)
(* TracyFileWrite.hpp:28-34 *)
Inductive FileCompression := Fast | Slow | Extreme | Zstd.
#[global] Instance FileCompression_dec : EqDecision FileCompression.
Proof. solve_decision. Defined.

(** The byte of the header that says which library decompresses the file. *)
(* TracyFileWrite.hpp:192-192 FileWrite *)
Definition codec_type (comp : FileCompression) : Z := if decide (comp = Zstd) then 1 else 0.

Class Codec := {
  cstate : Type; dstate : Type;
  cnew : FileCompression -> Z -> cstate;
  dnew : Z -> dstate;
  compress : list Z -> cstate -> list Z * cstate;
  decompress : list Z -> dstate -> list Z * dstate }.

(* TracyFileMeta.hpp:13-13 *)
Definition FileBufSize : Z := 64 * 1024.
(* TracyFileHeader.hpp:11-11 *)
Definition TracyHeader : list Z := [116; 114; 253; 80].
(* TracyFileHeader.hpp:12-12 *)
Definition Lz4Header : list Z := [116; 108; 90; 4].
(* TracyFileHeader.hpp:13-13 *)
Definition ZstdHeader : list Z := [116; 90; 115; 116].

(** [memcpy( buf + off, src, size )], and the bytes [memcpy] takes from a buffer. *)
Definition blit (off : Z) (src buf : list Z) : list Z :=
  take (Z.to_nat off) buf ++ src ++ drop (Z.to_nat off + length src) buf.
Definition slice (off size : Z) (buf : list Z) : list Z :=
  take (Z.to_nat size) (drop (Z.to_nat off) buf).

(** [new char[FileBufSize]]: its contents are not defined, and not used. *)
Definition new_buf : list Z := replicate (Z.to_nat FileBufSize) 0.

(** Two buffers, one of which is [m_buf]; [std::swap( m_buf, m_second )]. *)
Record bufs := mkBufs { buf_a : list Z; buf_b : list Z; cur : bool }.
#[export] Instance eta_bufs : Eta bufs := fun r => mkBufs (buf_a r) (buf_b r) (cur r).
Definition buf_at (b : bool) (p : bufs) : list Z := if b then buf_b p else buf_a p.
Definition set_buf (b : bool) (v : list Z) (p : bufs) : bufs :=
  if b then p <| buf_b := v |> else p <| buf_a := v |>.
Definition new_bufs : bufs := mkBufs new_buf new_buf false.

Section TraceFile.
Context `{Codec}.
Variable sched : nat -> list nat.

(** ** Writing *)
(* TracyFileWrite.hpp:108-115 WriteStream *)
Record WriteStream := mkWriteStream { ws_stream : cstate; ws_bufs : bufs; ws_compressed : list Z }.
#[export] Instance eta_WriteStream : Eta WriteStream := fun r =>
  mkWriteStream (ws_stream r) (ws_bufs r) (ws_compressed r).
(* TracyFileWrite.hpp:39-68 WriteStream *)
Definition new_WriteStream (comp : FileCompression) (level : Z) : WriteStream :=
  mkWriteStream (cnew comp level) new_bufs [].
(* TracyFileWrite.hpp:85-105 Compress *)
Definition Compress (sz : Z) (s : WriteStream) : WriteStream :=
  let r := compress (slice 0 sz (buf_at (cur (ws_bufs s)) (ws_bufs s))) (ws_stream s) in
  s <| ws_compressed := fst r |> <| ws_stream := snd r |>
    <| ws_bufs ::= (fun p => p <| cur ::= negb |>) |>.

(* TracyFileWrite.hpp:120-135 StreamHandle *)
Record WStream := mkWStream {
  wh_stream : WriteStream; wh_size : Z; wh_inputReady : bool; wh_outputReady : bool }.
#[export] Instance eta_WStream : Eta WStream := fun r =>
  mkWStream (wh_stream r) (wh_size r) (wh_inputReady r) (wh_outputReady r).

(* TracyFileWrite.hpp:289-298 FileWrite *)
Record FileWrite := mkFileWrite {
  w_buf : nat * bool; w_offset : Z; w_streamId : nat; w_streamPending : nat;
  w_streams : list WStream; w_file : list Z; w_srcBytes : Z; w_dstBytes : Z; w_clock : nat }.
#[export] Instance eta_FileWrite : Eta FileWrite := fun r =>
  mkFileWrite (w_buf r) (w_offset r) (w_streamId r) (w_streamPending r) (w_streams r)
    (w_file r) (w_srcBytes r) (w_dstBytes r) (w_clock r).

(* TracyFileWrite.hpp:271-287 Worker *)
Definition write_worker (h : WStream) : WStream :=
  if wh_inputReady h then
    h <| wh_stream ::= Compress (wh_size h) |> <| wh_inputReady := false |> <| wh_outputReady := true |>
  else h.
Definition run_writers : M FileWrite unit :=
  t ← gets w_clock;
  modify (fun w => w <| w_streams ::= (fun l => foldr (fun i => alter write_worker i) l (sched t)) |>
                     <| w_clock := S t |>).

(* TracyFileWrite.hpp:253-269 *)
Definition ProcessPending : M FileWrite unit :=
  w ← gets (fun s => s);
  assert_ (bool_decide (0 < w_streamPending w)%nat);;
  let n := length (w_streams w) in
  let sid := ((w_streamId w + n - w_streamPending w) mod n)%nat in
  modify (fun w => w <| w_streamPending ::= pred |>);;
  run_writers;;
  w ← gets (fun s => s);
  hnd ← expect (w_streams w !! sid);
  let hnd := if wh_outputReady hnd then hnd else write_worker hnd in
  assert_ (wh_outputReady hnd);;
  let data := ws_compressed (wh_stream hnd) in
  let size := uint 32 (Z.of_nat (length data)) in
  modify (fun w => w <| w_streams ::= <[sid := hnd <| wh_outputReady := false |>]> |>
                     <| w_dstBytes ::= (fun d => d + size) |>
                     <| w_file ::= (fun f => f ++ le_bytes 4 size ++ slice 0 size data) |>).

(* TracyFileWrite.hpp:232-251 *)
Definition WriteBlock : M FileWrite unit :=
  w ← gets (fun s => s);
  hnd ← expect (w_streams w !! w_streamId w);
  assert_ (bool_decide (w_buf w = (w_streamId w, cur (ws_bufs (wh_stream hnd)))));;
  let n := length (w_streams w) in
  modify (fun w => w <| w_srcBytes ::= (fun s => s + w_offset w) |>
    <| w_streams ::= <[w_streamId w := hnd <| wh_inputReady := true |> <| wh_size := w_offset w |>]> |>
    <| w_streamPending ::= S |>
    <| w_streamId ::= (fun i => (i + 1) mod n)%nat |>);;
  p ← gets w_streamPending;
  when (bool_decide (p = n)) ProcessPending;;
  w ← gets (fun s => s);
  hnd ← expect (w_streams w !! w_streamId w);
  modify (fun w => w <| w_offset := 0 |>
    <| w_buf := (w_streamId w, cur (ws_bufs (wh_stream hnd))) |>).

(** [memcpy( m_buf + m_offset, ptr, size )]; the buffer has [FileBufSize] bytes. *)
(* TracyFileWrite.hpp:208-212 *)
Definition WriteSmall (data : list Z) : M FileWrite unit :=
  w ← gets (fun s => s);
  let sz := Z.of_nat (length data) in
  assert_ (w_offset w + sz <=? FileBufSize);;
  hnd ← expect (w_streams w !! fst (w_buf w));
  modify (fun w => w <| w_streams ::= <[fst (w_buf w) :=
      hnd <| wh_stream ::= (fun s => s <| ws_bufs ::= (fun p =>
        set_buf (snd (w_buf w)) (blit (w_offset w) data (buf_at (snd (w_buf w)) p)) p) |>) |>]> |>
    <| w_offset ::= (fun o => o + sz) |>).
(* TracyFileWrite.hpp:214-230 *)
Fixpoint WriteBig (fuel : nat) (data : list Z) : M FileWrite unit :=
  match fuel with
  | O => stop
  | S fuel =>
      if bool_decide (data = []) then mret tt else
      o ← gets w_offset;
      let sz := Z.to_nat (Z.min (Z.of_nat (length data)) (FileBufSize - o)) in
      WriteSmall (take sz data);;
      o ← gets w_offset;
      when (o =? FileBufSize) WriteBlock;;
      WriteBig fuel (drop sz data)
  end.
(** A turn of the loop of [WriteBig] writes at least a byte, but for the first one. *)
(* TracyFileWrite.hpp:167-177 *)
Definition Write (data : list Z) : M FileWrite unit :=
  run_writers;;
  o ← gets w_offset;
  if o + Z.of_nat (length data) <=? FileBufSize then WriteSmall data
  else WriteBig (2 + length data) data.

(* TracyFileWrite.hpp:153-165 Finish *)
Fixpoint drain (fuel : nat) : M FileWrite unit :=
  p ← gets w_streamPending;
  match p, fuel with
  | O, _ => mret tt
  | S _, O => stop
  | S _, S fuel => ProcessPending;; drain fuel
  end.
(* TracyFileWrite.hpp:153-165 *)
Definition Finish : M FileWrite unit :=
  o ← gets w_offset;
  when (0 <? o) WriteBlock;;
  p ← gets w_streamPending;
  drain p.

(* TracyFileWrite.hpp:138-145 Open *)
Definition open_streams (streams hardware_concurrency : Z) : Z :=
  let streams := if streams <=? 0 then Z.max 1 hardware_concurrency else streams in
  if 255 <? streams then 255 else streams.
(* TracyFileWrite.hpp:182-206 FileWrite *)
Definition new_FileWrite (comp : FileCompression) (level streams : Z) : option FileWrite :=
  if (0 <? streams) && (streams <? 256) then
    Some (mkFileWrite (O, false) 0 0 0
      (replicate (Z.to_nat streams) (mkWStream (new_WriteStream comp level) 0 false false))
      (TracyHeader ++ [codec_type comp; streams]) 0 0 0)
  else None.

(** ** Reading *)
(* TracyFileRead.hpp:90-97 ReadStream *)
Record ReadStream := mkReadStream { rs_stream : dstate; rs_bufs : bufs; rs_size : Z }.
#[export] Instance eta_ReadStream : Eta ReadStream := fun r =>
  mkReadStream (rs_stream r) (rs_bufs r) (rs_size r).
(* TracyFileRead.hpp:41-59 ReadStream *)
Definition new_ReadStream (type : Z) : option ReadStream :=
  if (type =? 0) || (type =? 1) then Some (mkReadStream (dnew type) new_bufs 0) else None.
(* TracyFileRead.hpp:70-84 *)
Definition Decompress (src : list Z) (s : ReadStream) : ReadStream :=
  let r := decompress src (rs_stream s) in
  let b := negb (cur (rs_bufs s)) in
  s <| rs_stream := snd r |> <| rs_size := Z.of_nat (length (fst r)) |>
    <| rs_bufs ::= (fun p => (set_buf b (blit 0 (fst r) (buf_at b p)) p) <| cur := b |>) |>.

(** [src] is a pointer into the file. *)
(* TracyFileRead.hpp:101-117 StreamHandle *)
Record RStream := mkRStream {
  rh_stream : ReadStream; rh_src : Z; rh_size : Z; rh_inputReady : bool; rh_outputReady : bool }.
#[export] Instance eta_RStream : Eta RStream := fun r =>
  mkRStream (rh_stream r) (rh_src r) (rh_size r) (rh_inputReady r) (rh_outputReady r).

(* TracyFileRead.hpp:586-595 FileRead *)
Record FileRead := mkFileRead {
  r_data : list Z; r_buf : nat * bool; r_dataOffset : Z; r_offset : Z; r_streamId : nat;
  r_streams : list RStream; r_clock : nat }.
#[export] Instance eta_FileRead : Eta FileRead := fun r =>
  mkFileRead (r_data r) (r_buf r) (r_dataOffset r) (r_offset r) (r_streamId r) (r_streams r) (r_clock r).

(* TracyFileRead.hpp:504-517 Worker *)
Definition read_worker (data : list Z) (h : RStream) : RStream :=
  if rh_inputReady h then
    h <| rh_stream ::= Decompress (slice (rh_src h) (rh_size h) data) |>
      <| rh_inputReady := false |> <| rh_outputReady := true |>
  else h.
Definition run_readers : M FileRead unit :=
  t ← gets r_clock;
  modify (fun r => r <| r_streams ::= (fun l => foldr (fun i => alter (read_worker (r_data r)) i) l (sched t)) |>
                     <| r_clock := S t |>).

(* TracyFileRead.hpp:496-502 *)
Definition ReadBlockSize : M FileRead Z :=
  r ← gets (fun s => s);
  assert_ (r_dataOffset r + 4 <=? Z.of_nat (length (r_data r)));;
  modify (fun r => r <| r_dataOffset ::= (fun o => o + 4) |>);;
  mret (rd (Z.to_nat (r_dataOffset r)) 4 (r_data r)).

(* TracyFileRead.hpp:563-584 *)
Definition GetNextDataBlock : M FileRead unit :=
  run_readers;;
  r ← gets (fun s => s);
  let sid := r_streamId r in
  hnd ← expect (r_streams r !! sid);
  let hnd := if rh_outputReady hnd then hnd else read_worker (r_data r) hnd in
  assert_ (rh_outputReady hnd);;
  modify (fun r => r <| r_streams ::= <[sid := hnd <| rh_outputReady := false |>]> |>
                     <| r_buf := (sid, cur (rs_bufs (rh_stream hnd))) |> <| r_offset := 0 |>);;
  r ← gets (fun s => s);
  when (r_dataOffset r <? Z.of_nat (length (r_data r)))
    (sz ← ReadBlockSize;
     r ← gets (fun s => s);
     hnd ← expect (r_streams r !! sid);
     assert_ (r_dataOffset r + sz <=? Z.of_nat (length (r_data r)));;
     modify (fun r => r <| r_streams ::= <[sid := hnd <| rh_src := r_dataOffset r |> <| rh_size := sz |>
                                                     <| rh_inputReady := true |>]> |>
                        <| r_dataOffset ::= (fun o => o + sz) |>));;
  modify (fun r => r <| r_streamId ::= (fun i => (i + 1) mod length (r_streams r))%nat |>).

(** What the opening of a file gives: the exception [NotTracyDump], or a file. *)
Inductive opened := NotTracyDump | Opened (r : FileRead).

(** A stream for each of the first blocks, as many as the file has. *)
(* TracyFileRead.hpp:479-491 FileRead *)
Fixpoint start_streams (type : Z) (streams : nat) : M FileRead unit :=
  match streams with
  | O => mret tt
  | S streams =>
      r ← gets (fun s => s);
      if r_dataOffset r =? Z.of_nat (length (r_data r)) then mret tt else
      sz ← ReadBlockSize;
      s ← expect (new_ReadStream type);
      r ← gets (fun s => s);
      assert_ (r_dataOffset r + sz <=? Z.of_nat (length (r_data r)));;
      modify (fun r => r <| r_streams ::= (fun l => l ++ [mkRStream s (r_dataOffset r) sz true false]) |>
                         <| r_dataOffset ::= (fun o => o + sz) |>);;
      start_streams type streams
  end.
(** The kind of the file and the number of its streams, and where its blocks begin. *)
(* TracyFileRead.hpp:422-461 FileRead *)
Definition read_header (data : list Z) : option (Z * Z * Z) :=
  let hdr := take 4 data in
  if negb (length hdr =? 4)%nat then None else
  if bool_decide (hdr = TracyHeader) then
    match drop 4 data with
    | type :: streams :: _ => if 1 <? type then None else Some (type, streams, 6)
    | _ => None
    end
  else if bool_decide (hdr = Lz4Header) then Some (0, 1, 4)
  else if bool_decide (hdr = ZstdHeader) then Some (1, 1, 4)
  else None.
(* TracyFileRead.hpp:416-494 FileRead *)
Definition new_FileRead (data : list Z) : option opened :=
  match read_header data with
  | None => Some NotTracyDump
  | Some (type, streams, off) =>
      r ← (start_streams type (Z.to_nat streams);; GetNextDataBlock)
            (mkFileRead data (O, false) off 0 0 [] 0);
      Some (Opened (snd r))
  end.

(* TracyFileRead.hpp:519-523 *)
Definition ReadSmall (size : Z) : M FileRead (list Z) :=
  r ← gets (fun s => s);
  assert_ (r_offset r + size <=? FileBufSize);;
  hnd ← expect (r_streams r !! fst (r_buf r));
  modify (fun r => r <| r_offset ::= (fun o => o + size) |>);;
  mret (slice (r_offset r) size (buf_at (snd (r_buf r)) (rs_bufs (rh_stream hnd)))).
(** Every turn reads at least a byte. *)
(* TracyFileRead.hpp:525-550 *)
Fixpoint ReadBig (fuel : nat) (size : Z) : M FileRead (list Z) :=
  match fuel with
  | O => stop
  | S fuel =>
      o ← gets r_offset;
      sz ← (if o =? FileBufSize then
              GetNextDataBlock;; mret (Z.min size FileBufSize)
            else mret (Z.min size (FileBufSize - o)));
      x ← ReadSmall sz;
      y ← (if 0 <? size - sz then ReadBig fuel (size - sz) else mret []);
      mret (x ++ y)
  end.
(* TracyFileRead.hpp:139-149 *)
Definition Read (size : Z) : M FileRead (list Z) :=
  run_readers;;
  o ← gets r_offset;
  if size <=? FileBufSize - o then ReadSmall size
  else assert_ (0 <? size);; ReadBig (Z.to_nat size) size.

(** The objects of a [Read2] to [Read10], of the given sizes. *)
Fixpoint split_at (szs : list Z) (bs : list Z) : list (list Z) :=
  match szs with
  | [] => []
  | sz :: szs => take (Z.to_nat sz) bs :: split_at szs (drop (Z.to_nat sz) bs)
  end.
(* TracyFileRead.hpp:163-312 Read *)
Definition ReadN (szs : list Z) : M FileRead (list (list Z)) :=
  bs ← Read (foldr Z.add 0 szs);
  mret (split_at szs bs).

(* TracyFileRead.hpp:552-561 *)
Fixpoint SkipBig (fuel : nat) (size : Z) : M FileRead unit :=
  if size <=? 0 then mret tt else
  match fuel with
  | O => stop
  | S fuel =>
      o ← gets r_offset;
      when (o =? FileBufSize) GetNextDataBlock;;
      o ← gets r_offset;
      let sz := Z.min size (FileBufSize - o) in
      modify (fun r => r <| r_offset ::= (fun o => o + sz) |>);;
      SkipBig fuel (size - sz)
  end.
(* TracyFileRead.hpp:151-161 *)
Definition Skip (size : Z) : M FileRead unit :=
  run_readers;;
  o ← gets r_offset;
  if size <=? FileBufSize - o then modify (fun r => r <| r_offset ::= (fun o => o + size) |>)
  else SkipBig (Z.to_nat size) size.
End TraceFile.
