(* ===== verification/FileSpec.v ===== *)
(** * Trace files: what is read is what was written

    Whatever the number of streams and however the worker threads are scheduled, a
    file that is finished holds the blocks of the bytes that were written, in order,
    each compressed by the stream whose turn it was; and a file that is opened gives
    these bytes, in pieces of any sizes.  No worker has its buffers changed while it
    uses them, no wait is for ever, and no assertion fails. *)
From S2P Require Import Prelude TraceFile.

(** What the compression libraries are documented to do: a decompression stream that
    has seen the blocks a compression stream produced gives the next one back. *)
Class CodecOk `{Codec} := {
  agree : cstate -> dstate -> Prop;
  agree_new comp level : agree (cnew comp level) (dnew (codec_type comp));
  agree_block c d b : agree c d -> 0 < Z.of_nat (length b) <= FileBufSize ->
    fst (decompress (fst (compress b c)) d) = b /\
    agree (snd (compress b c)) (snd (decompress (fst (compress b c)) d));
  compress_size c b : Z.of_nat (length b) <= FileBufSize ->
    Z.of_nat (length (fst (compress b c))) < 2 ^ 32 }.

(** ** Rings *)
Lemma mod_window (n a j j' : nat) :
  (a <= j < a + n)%nat -> (a <= j' < a + n)%nat -> (j mod n = j' mod n)%nat -> j = j'.
Proof.
  intros Hj Hj' E. assert (Hn : n <> 0%nat) by lia.
  pose proof (Nat.div_mod_eq j n). pose proof (Nat.div_mod_eq j' n).
  destruct (Nat.lt_trichotomy (j / n) (j' / n)) as [Hlt | [He | Hlt]]; nia.
Qed.

Lemma mod_cover (n a i : nat) : (i < n)%nat -> exists j, (a <= j < a + n)%nat /\ (j mod n = i)%nat.
Proof.
  intros Hi. destruct (decide (a mod n <= i)%nat) as [Hle | Hgt].
  - exists (a + (i - a mod n))%nat. split; [lia |].
    rewrite (Nat.div_mod_eq a n) at 1. replace (n * (a / n) + a mod n + (i - a mod n))%nat with (i + a / n * n)%nat by lia.
    rewrite Nat.Div0.mod_add. now apply Nat.mod_small.
  - exists (a + (n - a mod n + i))%nat. pose proof (Nat.mod_upper_bound a n ltac:(lia)). split; [lia |].
    rewrite (Nat.div_mod_eq a n) at 1.
    replace (n * (a / n) + a mod n + (n - a mod n + i))%nat with (i + (a / n + 1) * n)%nat by lia.
    rewrite Nat.Div0.mod_add. now apply Nat.mod_small.
Qed.

Lemma mod_next (n k : nat) : ((k mod n + 1) mod n = S k mod n)%nat.
Proof. rewrite Nat.Div0.add_mod_idemp_l. f_equal. lia. Qed.

Lemma mod_back (n k p : nat) : (0 < n)%nat -> (p <= k)%nat -> (p <= n)%nat -> ((k mod n + n - p) mod n = (k - p) mod n)%nat.
Proof.
  intros Hn Hk Hp. replace (k mod n + n - p)%nat with (k mod n + (n - p))%nat by lia.
  rewrite Nat.Div0.add_mod_idemp_l. replace (k + (n - p))%nat with (k - p + 1 * n)%nat by lia.
  apply Nat.Div0.mod_add.
Qed.

(** Workers that run in any order: each stream sees its own worker only. *)
Lemma run_lookup {A} (f : A -> A) (l : list A) (ks : list nat) (k : nat) h :
  l !! k = Some h -> exists m, foldr (fun i => alter f i) l ks !! k = Some (Nat.iter m f h).
Proof.
  intros E. induction ks as [| i ks [m IH]]; [now exists 0%nat |]. cbn.
  destruct (decide (i = k)) as [-> | Hne].
  - exists (S m). now rewrite list_lookup_alter_eq, IH.
  - exists m. now rewrite list_lookup_alter_ne.
Qed.
Lemma run_length {A} (f : A -> A) (l : list A) (ks : list nat) : length (foldr (fun i => alter f i) l ks) = length l.
Proof. induction ks; [done |]. cbn. now rewrite length_alter. Qed.
Lemma iter_closed {A} (P : A -> Prop) f m h : (forall h, P h -> P (f h)) -> P h -> P (Nat.iter m f h).
Proof. intros Hf Hh. induction m; cbn; auto. Qed.
Lemma iter_fixed {A} (f : A -> A) m h : f h = h -> Nat.iter m f h = h.
Proof. intros Hf. induction m as [| m IH]; [done |]. change (f (Nat.iter m f h) = h). now rewrite IH. Qed.

(** ** Buffers *)
Lemma slice_blit off src buf :
  0 <= off -> off + Z.of_nat (length src) <= Z.of_nat (length buf) ->
  slice 0 (off + Z.of_nat (length src)) (blit off src buf) = slice 0 off buf ++ src.
Proof.
  intros Ho Hl. unfold slice, blit. change (Z.to_nat 0) with 0%nat. rewrite !drop_0.
  rewrite app_assoc, take_app_le; [| rewrite length_app, length_take; lia].
  rewrite take_ge; [done |]. rewrite length_app, length_take. lia.
Qed.
Lemma blit_start src buf :
  Z.of_nat (length src) <= Z.of_nat (length buf) -> slice 0 (Z.of_nat (length src)) (blit 0 src buf) = src.
Proof. intros Hl. exact (slice_blit 0 src buf (Z.le_refl 0) Hl). Qed.
Lemma length_blit off src buf :
  0 <= off -> off + Z.of_nat (length src) <= Z.of_nat (length buf) -> length (blit off src buf) = length buf.
Proof. intros Ho Hl. unfold blit. rewrite !length_app, length_take, length_drop. lia. Qed.
Lemma length_part off size buf :
  0 <= off -> 0 <= size -> off + size <= Z.of_nat (length buf) -> length (slice off size buf) = Z.to_nat size.
Proof. intros Ho Hs Hl. unfold slice. rewrite length_take, length_drop. lia. Qed.
Lemma part_whole l : slice 0 (Z.of_nat (length l)) l = l.
Proof. unfold slice. change (Z.to_nat 0) with 0%nat. rewrite drop_0. apply take_ge. lia. Qed.
Lemma part_app pre l post : slice (Z.of_nat (length pre)) (Z.of_nat (length l)) (pre ++ l ++ post) = l.
Proof. unfold slice. rewrite !Nat2Z.id, drop_app_length, take_app_length. done. Qed.
Lemma rd_app pre bs post : rd (length pre) (length bs) (pre ++ bs ++ post) = le_val bs.
Proof. unfold rd. now rewrite drop_app_length, take_app_length. Qed.
Lemma length_new_buf : Z.of_nat (length new_buf) = FileBufSize.
Proof. unfold new_buf. rewrite length_replicate. apply Z2Nat.id. done. Qed.

Lemma buf_at_set b v p : buf_at b (set_buf b v p) = v.
Proof. now destruct b. Qed.
Lemma buf_at_set_ne b v p : buf_at (negb b) (set_buf b v p) = buf_at (negb b) p.
Proof. now destruct b. Qed.
Lemma cur_set b v p : cur (set_buf b v p) = cur p.
Proof. now destruct b. Qed.
Definition bufs_ok (p : bufs) : Prop := forall b, Z.of_nat (length (buf_at b p)) = FileBufSize.
Lemma bufs_ok_set b v p : bufs_ok p -> Z.of_nat (length v) = FileBufSize -> bufs_ok (set_buf b v p).
Proof. intros Hp Hv b'. specialize (Hp b'). now destruct b, b'. Qed.

Section FileSpec.
Context `{CodecOk}.
Variable sched : nat -> list nat.
Variables (comp : FileCompression) (level : Z) (n : nat).
Hypothesis Hn : (0 < n < 256)%nat.

(** ** The blocks of a file *)

(** The compression stream [i] before the block [k], of the blocks [bs]. *)
Fixpoint cst (bs : list (list Z)) (k i : nat) : cstate :=
  match k with
  | O => cnew comp level
  | S k => if decide (k mod n = i)%nat then snd (compress (bs !!! k) (cst bs k i)) else cst bs k i
  end.
Definition packed (bs : list (list Z)) (k : nat) : list Z :=
  fst (compress (bs !!! k) (cst bs k (k mod n))).
Definition frame (bs : list (list Z)) (k : nat) : list Z :=
  le_bytes 4 (Z.of_nat (length (packed bs k))) ++ packed bs k.
(** The file with the first [k] blocks. *)
Definition image (bs : list (list Z)) (k : nat) : list Z :=
  TracyHeader ++ [codec_type comp; Z.of_nat n] ++ concat (frame bs <$> seq 0 k).
#[local] Arguments le_bytes : simpl never.
#[local] Arguments image : simpl never.

Lemma cst_app bs b k i : (k <= length bs)%nat -> cst (bs ++ [b]) k i = cst bs k i.
Proof.
  induction k as [| k IH]; intros Hk; [done |]. cbn. rewrite IH by lia.
  now rewrite lookup_total_app_l by lia.
Qed.
Lemma packed_app bs b k : (k < length bs)%nat -> packed (bs ++ [b]) k = packed bs k.
Proof. intros Hk. unfold packed. rewrite cst_app by lia. now rewrite lookup_total_app_l by lia. Qed.
Lemma image_app bs b k : (k <= length bs)%nat -> image (bs ++ [b]) k = image bs k.
Proof.
  intros Hk. unfold image. do 3 f_equal. apply list_fmap_ext. intros i x Hx.
  apply lookup_seq in Hx. unfold frame. now rewrite packed_app by lia.
Qed.
Lemma image_S bs k : image bs (S k) = image bs k ++ frame bs k.
Proof. unfold image. rewrite seq_S, fmap_app, concat_app. cbn. now rewrite !app_nil_r. Qed.

(** A stream rests between the blocks it compresses. *)
Lemma cst_rest bs k j i : (j < k <= j + n)%nat -> (j mod n = i)%nat -> cst bs k i = cst bs (S j) i.
Proof.
  intros Hk Hi. induction k as [| k IH]; [lia |]. destruct (decide (k = j)) as [-> | Hne]; [done |].
  cbn [cst] in *. rewrite (decide_False (P := (k mod n = i)%nat)).
  - apply IH. lia.
  - intros E. apply Hne, (mod_window n j k j); lia.
Qed.
Lemma cst_step bs j : cst bs (S j) (j mod n) = snd (compress (bs !!! j) (cst bs j (j mod n))).
Proof. cbn. now rewrite decide_True. Qed.

Definition block_ok (b : list Z) : Prop := 0 < Z.of_nat (length b) <= FileBufSize.

Lemma packed_size bs k : Forall block_ok bs -> (k < length bs)%nat -> in_uint 32 (Z.of_nat (length (packed bs k))).
Proof.
  intros Hbs Hk. destruct (lookup_lt_is_Some_2 bs k Hk) as [b Eb]. split; [lia |].
  apply compress_size. rewrite (list_lookup_total_correct _ _ _ Eb). apply (Forall_lookup_1 _ _ _ _ Hbs Eb).
Qed.

(** ** Writing *)

(** The stream has been given the block [j]: it has yet to compress it, or has done so. *)
Definition busy (bs : list (list Z)) (j : nat) (h : WStream) : Prop :=
  bufs_ok (ws_bufs (wh_stream h)) /\
  (wh_inputReady h = true /\ wh_outputReady h = false /\ ws_stream (wh_stream h) = cst bs j (j mod n) /\
     slice 0 (wh_size h) (buf_at (cur (ws_bufs (wh_stream h))) (ws_bufs (wh_stream h))) = bs !!! j \/
   wh_inputReady h = false /\ wh_outputReady h = true /\ ws_stream (wh_stream h) = cst bs (S j) (j mod n) /\
     ws_compressed (wh_stream h) = packed bs j).
Definition idle (bs : list (list Z)) (j : nat) (h : WStream) : Prop :=
  bufs_ok (ws_bufs (wh_stream h)) /\
  wh_inputReady h = false /\ wh_outputReady h = false /\ ws_stream (wh_stream h) = cst bs (length bs) (j mod n).

Lemma busy_worker bs j h : busy bs j h -> busy bs j (write_worker h).
Proof.
  intros [Hb [(E1 & E2 & E3 & E4) | (E1 & E2 & E3)]]; unfold write_worker; rewrite E1.
  - split; [intros b; apply Hb | right]. split_and!; try done; cbn.
    + now rewrite E3, E4, decide_True.
    + now rewrite E3, E4.
  - split; [exact Hb | right; tauto].
Qed.
Lemma busy_done bs j h : busy bs j h ->
  let h' := if wh_outputReady h then h else write_worker h in
  busy bs j h' /\ wh_outputReady h' = true.
Proof.
  intros Hh. destruct (wh_outputReady h) eqn:E; [done |]. split; [now apply busy_worker |].
  destruct Hh as [_ [(E1 & _) | (_ & E2 & _)]]; [| congruence]. unfold write_worker. now rewrite E1.
Qed.
Lemma idle_worker bs j h : idle bs j h -> write_worker h = h.
Proof. intros (_ & E & _). unfold write_worker. now rewrite E. Qed.

(** The blocks [bs] have been handed to the workers, the last [p] of them are not in
    the file yet, and the bytes [c] wait in the buffer. *)
Record writing (bs : list (list Z)) (p : nat) (w : FileWrite) : Prop := {
  wr_n : length (w_streams w) = n;
  wr_le : (p <= length bs)%nat /\ (p <= n)%nat;
  wr_id : w_streamId w = (length bs mod n)%nat;
  wr_file : w_file w = image bs (length bs - p);
  wr_blocks : Forall block_ok bs;
  wr_streams : forall j, (length bs - p <= j < length bs - p + n)%nat ->
    exists h, w_streams w !! (j mod n)%nat = Some h /\
      if decide (j < length bs)%nat then busy bs j h else idle bs j h }.

Definition kept (w w' : FileWrite) : Prop := w_buf w' = w_buf w /\ w_offset w' = w_offset w.

Lemma run_writers_wp bs p w (Q : unit -> FileWrite -> Prop) :
  writing bs p w ->
  (forall w', writing bs p w' -> kept w w' -> w_streamPending w' = w_streamPending w ->
     (forall j h, (length bs <= j < length bs - p + n)%nat -> w_streams w !! (j mod n)%nat = Some h ->
        w_streams w' !! (j mod n)%nat = Some h) -> Q tt w') ->
  wp (run_writers sched) Q w.
Proof.
  intros [H1 H2 H3 H4 H5 H6] HQ. unfold run_writers. wp_steps. apply HQ; try done.
  - split; try done; cbn.
    + now rewrite run_length.
    + intros j Hj. destruct (H6 j Hj) as (h & Eh & Hh).
      destruct (run_lookup write_worker _ (sched (w_clock w)) _ _ Eh) as [m ->]. eexists. split; [reflexivity |].
      destruct (decide _).
      * apply iter_closed; [apply busy_worker | exact Hh].
      * rewrite (iter_fixed _ _ _ (idle_worker _ _ _ Hh)). exact Hh.
  - intros j h Hj Eh. cbn. destruct (H6 j) as (h' & Eh' & Hh); [lia |]. rewrite Eh in Eh'. injection Eh' as <-.
    destruct (run_lookup write_worker _ (sched (w_clock w)) _ _ Eh) as [m ->]. f_equal.
    rewrite decide_False in Hh by lia. exact (iter_fixed _ _ _ (idle_worker _ _ _ Hh)).
Qed.

Lemma ProcessPending_wp bs p w (Q : unit -> FileWrite -> Prop) :
  writing bs (S p) w -> w_streamPending w = S p ->
  (forall w', writing bs p w' -> kept w w' -> w_streamPending w' = p ->
     (forall j h, (length bs <= j < length bs - S p + n)%nat -> w_streams w !! (j mod n)%nat = Some h ->
        w_streams w' !! (j mod n)%nat = Some h) -> Q tt w') ->
  wp (ProcessPending sched) Q w.
Proof.
  intros Hw Hp HQ. unfold ProcessPending. wp_steps. { rewrite Hp. apply bool_decide_eq_true. lia. }
  wp_steps. set (w0 := w <| w_streamPending ::= pred |>).
  assert (Hw0 : writing bs (S p) w0) by (destruct Hw; split; assumption).
  apply wp_bind. apply (run_writers_wp _ _ _ _ Hw0). intros w1 Hw1 [K1 K2] Hp1 Hs1.
  destruct Hw as [A1 A2 A3 A4 A5 A6], Hw1 as [B1 B2 B3 B4 B5 B6].
  rewrite A1, A3, Hp, (mod_back n (length bs) (S p)) by lia. set (j0 := (length bs - S p)%nat) in *.
  destruct (B6 j0) as (h & Eh & Hh); [lia |]. rewrite decide_True in Hh by lia.
  destruct (busy_done _ _ _ Hh) as [Hd Ed]. wp_steps. eapply wp_expect; [exact Eh |]. wp_steps.
  set (h' := if wh_outputReady h then h else write_worker h) in *. wp_steps.
  destruct Hd as [Hbufs [(_ & E & _) | (D1 & D2 & D3 & D4)]]; [congruence |].
  assert (Hlt : (j0 mod n < length (w_streams w1))%nat) by (rewrite B1; apply Nat.mod_upper_bound; lia).
  assert (Hj0 : (S j0 = length bs - p)%nat) by lia.
  assert (Hne : forall j, (j0 < j < j0 + n)%nat -> (j0 mod n)%nat <> (j mod n)%nat)
    by (intros j Hj E; apply (mod_window n j0) in E; lia).
  apply HQ; [| exact (conj K1 K2) | cbn; rewrite Hp1; cbn; now rewrite Hp |].
  - split; try done; cbn.
    + now rewrite length_insert.
    + lia.
    + rewrite <- Hj0, image_S, B4. fold j0. f_equal. unfold frame. rewrite D4.
      rewrite uint_small by (apply packed_size; [done | lia]). now rewrite part_whole.
    + rewrite <- Hj0. intros j Hj. destruct (decide (j = j0 + n)%nat) as [-> | Hn'].
      * replace ((j0 + n) mod n)%nat with (j0 mod n)%nat
          by (replace (j0 + n)%nat with (j0 + 1 * n)%nat by lia; now rewrite Nat.Div0.mod_add).
        rewrite list_lookup_insert_eq by exact Hlt. eexists. split; [reflexivity |].
        rewrite decide_False by lia. split; [exact Hbufs |]. split_and!; try done. cbn. rewrite D3.
        replace ((j0 + n) mod n)%nat with (j0 mod n)%nat
          by (replace (j0 + n)%nat with (j0 + 1 * n)%nat by lia; now rewrite Nat.Div0.mod_add).
        symmetry. apply cst_rest; [lia | done].
      * rewrite list_lookup_insert_ne by (apply Hne; lia). apply B6. fold j0. lia.
  - intros j hj Hj Ej. cbn. rewrite list_lookup_insert_ne by (apply Hne; lia). now apply Hs1.
Qed.

(** The bytes [c] wait in the buffer of the stream whose turn is next. *)
Record wrote (bs : list (list Z)) (c : list Z) (w : FileWrite) : Prop := {
  wo_writing : writing bs (w_streamPending w) w;
  wo_pending : (w_streamPending w < n)%nat;
  wo_offset : w_offset w = Z.of_nat (length c);
  wo_fits : Z.of_nat (length c) <= FileBufSize;
  wo_buf : exists h, w_streams w !! (length bs mod n)%nat = Some h /\ idle bs (length bs) h /\
    w_buf w = ((length bs mod n)%nat, cur (ws_bufs (wh_stream h))) /\
    slice 0 (w_offset w) (buf_at (cur (ws_bufs (wh_stream h))) (ws_bufs (wh_stream h))) = c }.

Lemma busy_app bs b j h : (j < length bs)%nat -> busy bs j h -> busy (bs ++ [b]) j h.
Proof.
  intros Hj [Hb Hh]. split; [exact Hb |]. rewrite !cst_app, packed_app, lookup_total_app_l by lia. exact Hh.
Qed.
Lemma idle_app bs b j h :
  (length bs mod n <> j mod n)%nat -> idle bs j h -> idle (bs ++ [b]) j h.
Proof.
  intros Hj (Hb & H1 & H2 & H3). split_and!; try done. rewrite length_app. cbn [length].
  replace (length bs + 1)%nat with (S (length bs)) by lia. cbn [cst].
  rewrite decide_False, cst_app by done || lia. exact H3.
Qed.

(** The block is handed to the worker whose turn it is. *)
Lemma hand_block bs c w h :
  wrote bs c w -> c <> [] -> w_streams w !! (length bs mod n)%nat = Some h ->
  writing (bs ++ [c]) (S (w_streamPending w))
    (w <| w_srcBytes ::= (fun s => s + w_offset w) |>
       <| w_streams ::= <[w_streamId w := h <| wh_inputReady := true |> <| wh_size := w_offset w |>]> |>
       <| w_streamPending ::= S |>
       <| w_streamId ::= (fun i => (i + 1) mod n)%nat |>).
Proof.
  intros [Hw Hp Ho Hf (h0 & Eh & Hi & Eb & Ec)] Hne E. rewrite E in Eh. injection Eh as <-.
  destruct Hw as [A1 A2 A3 A4 A5 A6]. set (p := w_streamPending w) in *.
  assert (Hlen : length (bs ++ [c]) = S (length bs)) by (rewrite length_app; cbn; lia).
  assert (Hw : forall j, (length bs - p <= j < length bs - p + n)%nat -> j <> length bs ->
    (length bs mod n)%nat <> (j mod n)%nat)
    by (intros j Hj Hne' Em; apply Hne'; symmetry in Em; apply (mod_window n (length bs - p)) in Em; lia).
  split; cbn.
  - now rewrite length_insert.
  - rewrite Hlen. lia.
  - rewrite A3, Hlen. apply mod_next.
  - rewrite A4, Hlen. cbn [Nat.sub]. now rewrite image_app by lia.
  - apply Forall_snoc. split; [exact A5 |]. split; [destruct c; [done | cbn; lia] | exact Hf].
  - rewrite Hlen. cbn [Nat.sub]. intros j Hj. rewrite A3. destruct (decide (j = length bs)) as [-> | Hj'].
    + rewrite list_lookup_insert_eq by (rewrite A1; apply Nat.mod_upper_bound; lia).
      eexists. split; [reflexivity |]. rewrite decide_True by lia. destruct Hi as (I1 & I2 & I3 & I4).
      split; [exact I1 | left]. split_and!; try done; cbn.
      * now rewrite cst_app by lia.
      * rewrite Ec. symmetry. apply list_lookup_total_correct, list_lookup_middle. done.
    + rewrite list_lookup_insert_ne by (now apply Hw). destruct (A6 j Hj) as (hj & Ej & Hhj).
      exists hj. split; [exact Ej |]. destruct (decide (j < length bs)%nat).
      * rewrite decide_True by lia. now apply busy_app.
      * rewrite decide_False by lia. apply idle_app; [now apply Hw | exact Hhj].
Qed.

Lemma WriteBlock_wp bs c w :
  wrote bs c w -> c <> [] -> wp (WriteBlock sched) (fun _ w' => wrote (bs ++ [c]) [] w') w.
Proof.
  intros Hwr Hne. destruct (wo_buf _ _ _ Hwr) as (h & Eh & Hi & Eb & Ec).
  assert (Hw1 := hand_block bs c w h Hwr Hne Eh). unfold WriteBlock. wp_steps.
  assert (Eid := wr_id _ _ _ (wo_writing _ _ _ Hwr)).
  eapply wp_expect; [rewrite Eid; exact Eh |]. wp_steps. { rewrite Eb, Eid. now apply bool_decide_eq_true. }
  wp_steps. rewrite (wr_n _ _ _ (wo_writing _ _ _ Hwr)). set (w1 := over w_streamId _ _) in *. wp_steps.
  change (w_streamPending w1) with (S (w_streamPending w)). set (p := w_streamPending w) in *.
  assert (Hlast : forall w2, writing (bs ++ [c]) (w_streamPending w2) w2 -> (w_streamPending w2 < n)%nat ->
    wp (w0 ← gets (fun s => s); hnd ← expect (w_streams w0 !! w_streamId w0);
        modify (fun w => w <| w_offset := 0 |> <| w_buf := (w_streamId w, cur (ws_bufs (wh_stream hnd))) |>))
      (fun _ w' => wrote (bs ++ [c]) [] w') w2).
  { intros w2 Hw2 Hp2. destruct (wr_streams _ _ _ Hw2 (length (bs ++ [c]))) as (h2 & E2 & Hh2);
      [pose proof (wr_le _ _ _ Hw2); lia |]. rewrite decide_False in Hh2 by lia.
    wp_steps. rewrite (wr_id _ _ _ Hw2). eapply wp_expect; [exact E2 |]. wp_steps.
    split; try done. { destruct Hw2; split; assumption. }
    exists h2. split_and!; try done. cbn. now rewrite (wr_id _ _ _ Hw2). }
  destruct (decide (S p = n)) as [Hpn | Hpn].
  - rewrite bool_decide_true by done. cbn [when]. wp_steps.
    apply (ProcessPending_wp _ _ _ _ Hw1 eq_refl). intros w2 Hw2 _ Hp2 _. apply Hlast.
    + now rewrite Hp2.
    + rewrite Hp2. lia.
  - rewrite bool_decide_false by done. cbn [when]. wp_steps. apply wp_unbind, (Hlast w1); [exact Hw1 |].
    change (S p < n)%nat. assert (Hp := wo_pending _ _ _ Hwr). fold p in Hp. lia.
Qed.

Lemma WriteSmall_wp bs c data w :
  wrote bs c w -> Z.of_nat (length c) + Z.of_nat (length data) <= FileBufSize ->
  wp (WriteSmall data) (fun _ w' => wrote bs (c ++ data) w') w.
Proof.
  intros [Hw Hp Ho Hf (h & Eh & (I1 & I2 & I3 & I4) & Eb & Ec)] Hd. unfold WriteSmall. wp_steps.
  eapply wp_expect; [rewrite Eb; exact Eh |]. wp_steps. rewrite Eb. cbn [fst snd].
  assert (Hbuf := I1 (cur (ws_bufs (wh_stream h)))).
  assert (Hlt : (length bs mod n < length (w_streams w))%nat)
    by (rewrite (wr_n _ _ _ Hw); apply Nat.mod_upper_bound; lia).
  assert (Hidle : forall p, cur p = cur (ws_bufs (wh_stream h)) -> bufs_ok p ->
    idle bs (length bs) (h <| wh_stream ::= (fun s => s <| ws_bufs := p |>) |>)) by done.
  pose (p' := set_buf (cur (ws_bufs (wh_stream h))) (blit (w_offset w) data
    (buf_at (cur (ws_bufs (wh_stream h))) (ws_bufs (wh_stream h)))) (ws_bufs (wh_stream h))).
  assert (Hp' : bufs_ok p').
  { apply bufs_ok_set; [exact I1 |]. rewrite length_blit by lia. exact Hbuf. }
  split; [split; try apply Hw; cbn | exact Hp | | rewrite length_app; lia |].
  - rewrite length_insert. apply Hw.
  - intros j Hj. destruct (wr_streams _ _ _ Hw j Hj) as (hj & Ej & Hhj).
    destruct (decide (j = length bs)) as [-> | Hne].
    + rewrite list_lookup_insert_eq by done. eexists. split; [reflexivity |]. rewrite decide_False by lia.
      apply (Hidle p'); [apply cur_set | exact Hp'].
    + rewrite list_lookup_insert_ne; [eauto |]. intros E. apply Hne.
      symmetry in E. apply (mod_window n (length bs - w_streamPending w)) in E; lia.
  - cbn. rewrite Ho, length_app. lia.
  - eexists. cbn. split; [now apply list_lookup_insert_eq |]. split; [apply (Hidle p'); [apply cur_set | exact Hp'] |].
    cbn. rewrite cur_set. split; [done |]. rewrite buf_at_set, slice_blit, Ec by lia. done.
Qed.

(** The bytes [data] have been written: in whole blocks, and the rest. *)
Definition holds (data : list Z) (w : FileWrite) : Prop := exists bs c,
  wrote bs c w /\ data = concat bs ++ c /\ Forall (fun b => Z.of_nat (length b) = FileBufSize) bs.

Lemma WriteBig_wp fuel data d w :
  holds data w -> (length d + (if (w_offset w =? FileBufSize)%Z then 1 else 0) < fuel)%nat ->
  wp (WriteBig sched fuel d) (fun _ w' => holds (data ++ d) w') w.
Proof.
  revert data d w. induction fuel as [| fuel IH]; intros data d w Hh Hf; [lia |]. cbn [WriteBig].
  destruct (decide (d = [])) as [-> | Hd].
  { rewrite bool_decide_true by done. wp_steps. now rewrite app_nil_r. }
  rewrite bool_decide_false by done. destruct Hh as (bs & c & Hw & -> & Hbs). wp_steps.
  assert (Ho := wo_offset _ _ _ Hw). assert (Hc := wo_fits _ _ _ Hw).
  assert (Hl : (0 < length d)%nat) by (destruct d; [done | cbn; lia]).
  set (sz := Z.to_nat _). assert (Hsz : Z.of_nat sz = Z.min (Z.of_nat (length d)) (FileBufSize - w_offset w)) by lia.
  eapply wp_mono; [apply (WriteSmall_wp bs c (take sz d) w Hw); rewrite length_take; lia |].
  intros [] w1 Hw1. assert (Ho1 := wo_offset _ _ _ Hw1). rewrite length_app, length_take in Ho1. wp_steps.
  assert (Ed : (concat bs ++ c) ++ d = (concat bs ++ c ++ take sz d) ++ drop sz d)
    by (rewrite <- !app_assoc; do 2 f_equal; symmetry; apply take_drop).
  rewrite Ed.
  destruct (Z.eqb_spec (w_offset w1) FileBufSize) as [Hfull | Hpart]; cbn [when].
  - wp_steps. eapply wp_mono; [apply (WriteBlock_wp bs _ w1 Hw1) |].
    { intros E. apply (f_equal (@length Z)) in E. rewrite length_app, length_take in E. cbn in E.
      assert (FileBufSize = 65536) by done. lia. }
    intros [] w2 Hw2. apply IH.
    + exists (bs ++ [c ++ take sz d]), []. split; [exact Hw2 |]. split.
      * rewrite concat_app. cbn. now rewrite !app_nil_r.
      * apply Forall_snoc. split; [exact Hbs |]. rewrite length_app, length_take. lia.
    + rewrite (wo_offset _ _ _ Hw2), length_drop. change (Z.of_nat (length (@nil Z)) =? FileBufSize) with false. cbv iota.
      destruct (Z.eqb_spec (w_offset w) FileBufSize); lia.
  - wp_steps. apply IH.
    + exists bs, (c ++ take sz d). done.
    + rewrite (proj2 (Z.eqb_neq _ _) Hpart), length_drop. destruct (Z.eqb_spec (w_offset w) FileBufSize); lia.
Qed.

Lemma Write_wp data d w : holds data w -> wp (Write sched d) (fun _ w' => holds (data ++ d) w') w.
Proof.
  intros (bs & c & Hw & -> & Hbs). unfold Write. wp_steps.
  apply (run_writers_wp _ _ _ _ (wo_writing _ _ _ Hw)). intros w1 Hw1 [K1 K2] Kp Ks.
  assert (Hwr : wrote bs c w1).
  { destruct Hw as [A1 A2 A3 A4 (h & Eh & Hi & Eb & Ec)]. split; [now rewrite Kp | now rewrite Kp | congruence | done |].
    exists h. rewrite K1, K2. split; [| done]. apply Ks; [lia | exact Eh]. }
  wp_steps. destruct (Z.leb_spec (w_offset w1 + Z.of_nat (length d)) FileBufSize) as [Hs | Hb].
  - rewrite (wo_offset _ _ _ Hwr) in Hs.
    eapply wp_mono; [exact (WriteSmall_wp bs c d w1 Hwr Hs) |]. intros [] w2 Hw2.
    exists bs, (c ++ d). rewrite app_assoc. done.
  - apply WriteBig_wp; [exists bs, c; done |]. destruct (_ =? _); lia.
Qed.

Lemma drain_wp bs p w :
  writing bs p w -> w_streamPending w = p ->
  wp (drain sched p) (fun _ w' => w_file w' = image bs (length bs)) w.
Proof.
  revert w. induction p as [| p IH]; intros w Hw Hp; cbn [drain]; wp_steps; rewrite Hp.
  - wp_steps. rewrite (wr_file _ _ _ Hw). f_equal. lia.
  - wp_steps. apply (ProcessPending_wp _ _ _ _ Hw Hp). intros w' Hw' _ Hp' _. now apply IH.
Qed.

(** [data] as blocks: all full but the last one, and none empty. *)
Definition chunked (bs : list (list Z)) (data : list Z) : Prop :=
  concat bs = data /\ Forall block_ok bs /\
  forall k b, bs !! k = Some b -> (S k < length bs)%nat -> Z.of_nat (length b) = FileBufSize.

Lemma full_chunked bs : Forall (fun b => Z.of_nat (length b) = FileBufSize) bs -> chunked bs (concat bs).
Proof.
  intros Hbs. split; [done |]. split.
  - eapply Forall_impl; [exact Hbs |]. intros b Hb. unfold block_ok. cbn in Hb. rewrite Hb. done.
  - intros k b Ek _. exact (Forall_lookup_1 _ _ _ _ Hbs Ek).
Qed.
Lemma full_snoc_chunked bs c :
  Forall (fun b => Z.of_nat (length b) = FileBufSize) bs -> block_ok c -> chunked (bs ++ [c]) (concat bs ++ c).
Proof.
  intros Hbs Hc. destruct (full_chunked bs Hbs) as (_ & Hok & Hfull). split; [| split].
  - rewrite concat_app. cbn. now rewrite app_nil_r.
  - apply Forall_snoc. done.
  - intros k b Ek Hk. rewrite length_app in Hk. cbn in Hk. rewrite lookup_app_l in Ek by lia.
    exact (Forall_lookup_1 _ _ _ _ Hbs Ek).
Qed.

Lemma Finish_wp data w :
  holds data w -> wp (Finish sched) (fun _ w' => exists bs, chunked bs data /\ w_file w' = image bs (length bs)) w.
Proof.
  intros (bs & c & Hw & -> & Hbs). unfold Finish. wp_steps. assert (Ho := wo_offset _ _ _ Hw).
  destruct (Z.ltb_spec 0 (w_offset w)) as [Hpos | Hz]; cbn [when].
  - wp_steps. eapply wp_mono; [apply (WriteBlock_wp bs c w Hw); destruct c; [cbn in Ho; lia | done] |].
    intros [] w1 Hw1. wp_steps. eapply wp_mono; [exact (drain_wp _ _ w1 (wo_writing _ _ _ Hw1) eq_refl) |].
    intros [] w2 E. exists (bs ++ [c]). split; [| exact E]. apply full_snoc_chunked; [exact Hbs |].
    split; [lia | apply (wo_fits _ _ _ Hw)].
  - wp_steps. eapply wp_mono; [exact (drain_wp _ _ w (wo_writing _ _ _ Hw) eq_refl) |].
    intros [] w2 E. exists bs. split; [| exact E]. destruct c; [| cbn in Ho; lia]. rewrite app_nil_r.
    now apply full_chunked.
Qed.

(** A new file, to which nothing has been written. *)
Lemma new_FileWrite_holds :
  exists w, new_FileWrite comp level (Z.of_nat n) = Some w /\ holds [] w.
Proof.
  unfold new_FileWrite. rewrite (proj2 (Z.ltb_lt 0 (Z.of_nat n))), (proj2 (Z.ltb_lt (Z.of_nat n) 256)) by lia. cbn [andb].
  eexists. split; [reflexivity |]. exists [], []. split; [| done].
  set (h0 := mkWStream (new_WriteStream comp level) 0 false false).
  assert (Hh0 : forall i, (i < n)%nat -> replicate (Z.to_nat (Z.of_nat n)) h0 !! i = Some h0)
    by (intros i Hi; apply lookup_replicate; split; [done | lia]).
  assert (Hi0 : forall j, idle [] j h0).
  { intros j. split; [intros []; exact length_new_buf | done]. }
  assert (H0n : (0 mod n = 0)%nat) by (apply Nat.Div0.mod_0_l).
  split; cbn [w_streamPending w_offset].
  - split; cbn; rewrite ?length_replicate, ?H0n; try done; try lia.
    intros j Hj. exists h0. split; [apply Hh0, Nat.mod_upper_bound; lia | apply Hi0].
  - lia.
  - done.
  - done.
  - exists h0. cbn. rewrite H0n. split; [apply Hh0; lia |]. split; [apply Hi0 | done].
Qed.

(** ** Reading *)
Section Reading.
Context (bs : list (list Z)) (data : list Z).
Hypothesis Hch : chunked bs data.
Hypothesis Hne : bs <> [].

(** As many streams as blocks, if there are fewer blocks than streams. *)
Definition ring : nat := Nat.min n (length bs).
Definition pos (k : nat) : nat := length (image bs k).

Lemma ring_pos : (0 < ring)%nat.
Proof.
  unfold ring. apply Nat.min_glb_lt; [lia |].
  destruct (length bs) eqn:E; [| lia]. now apply nil_length_inv in E.
Qed.
Lemma ring_mod k : (k < length bs)%nat -> (k mod ring = k mod n)%nat.
Proof.
  intros Hk. unfold ring. destruct (decide (n <= length bs)%nat); [now rewrite Nat.min_l |].
  rewrite Nat.min_r by lia. rewrite !Nat.mod_small by lia. done.
Qed.
Lemma block_at k b : bs !! k = Some b -> block_ok b.
Proof. intros E. destruct Hch as (_ & H1 & _). exact (Forall_lookup_1 _ _ _ _ H1 E). Qed.

Lemma image_prefix k l : (k <= l)%nat -> exists post, image bs l = image bs k ++ post.
Proof.
  intros Hk. induction l as [| l IH]; [assert (k = 0)%nat as -> by lia; exists []; now rewrite app_nil_r |].
  destruct (decide (k = S l)) as [-> | Hne']; [exists []; now rewrite app_nil_r |].
  destruct IH as [post E]; [lia |]. exists (post ++ frame bs l). rewrite image_S, E. now rewrite app_assoc.
Qed.
Lemma image_frame k : (k < length bs)%nat -> exists post,
  image bs (length bs) = image bs k ++ le_bytes 4 (Z.of_nat (length (packed bs k))) ++ packed bs k ++ post.
Proof.
  intros Hk. destruct (image_prefix (S k) (length bs)) as [post E]; [lia |]. exists post.
  rewrite E, image_S. unfold frame. now rewrite !app_assoc.
Qed.
Lemma pos_S k : pos (S k) = (pos k + 4 + length (packed bs k))%nat.
Proof. unfold pos. rewrite image_S, length_app. unfold frame. rewrite length_app, length_le_bytes. lia. Qed.
Lemma pos_lt k : (k < length bs)%nat -> (pos (S k) <= pos (length bs))%nat.
Proof. intros Hk. destruct (image_prefix (S k) (length bs)) as [post E]; [lia |]. unfold pos. rewrite E, length_app. lia. Qed.

Lemma size_at k : (k < length bs)%nat ->
  rd (pos k) 4 (image bs (length bs)) = Z.of_nat (length (packed bs k)).
Proof.
  intros Hk. destruct (image_frame k Hk) as [post ->]. unfold pos.
  change 4%nat with (length (le_bytes 4 (Z.of_nat (length (packed bs k))))).
  rewrite rd_app, le_val_bytes. apply uint_small, packed_size; [apply Hch | exact Hk].
Qed.
Lemma packed_at k : (k < length bs)%nat ->
  slice (Z.of_nat (pos k + 4)) (Z.of_nat (length (packed bs k))) (image bs (length bs)) = packed bs k.
Proof.
  intros Hk. destruct (image_frame k Hk) as [post ->]. unfold pos. rewrite app_assoc.
  replace (length (image bs k) + 4)%nat with (length (image bs k ++ le_bytes 4 (Z.of_nat (length (packed bs k)))))
    by (rewrite length_app, length_le_bytes; done). apply part_app.
Qed.

(** The stream has been given the block [j], or the buffer [m_buf] holds it. *)
Definition given (j : nat) (h : RStream) : Prop :=
  rh_inputReady h = true /\ rh_outputReady h = false /\ rh_src h = Z.of_nat (pos j + 4) /\
    rh_size h = Z.of_nat (length (packed bs j)) /\ agree (cst bs j (j mod n)) (rs_stream (rh_stream h)) \/
  rh_inputReady h = false /\ rh_outputReady h = true /\
    slice 0 (Z.of_nat (length (bs !!! j))) (buf_at (cur (rs_bufs (rh_stream h))) (rs_bufs (rh_stream h))) = bs !!! j /\
    agree (cst bs (S j) (j mod n)) (rs_stream (rh_stream h)).
Definition rests (h : RStream) : Prop := rh_inputReady h = false /\ rh_outputReady h = false.

(** The block [k] is in the buffer [b] of the stream, and its worker uses the other. *)
Definition shown_in (k : nat) (b : bool) (h : RStream) : Prop :=
  slice 0 (Z.of_nat (length (bs !!! k))) (buf_at b (rs_bufs (rh_stream h))) = bs !!! k /\
  (rh_inputReady h = true -> rh_outputReady h = false) /\
  cur (rs_bufs (rh_stream h)) = if rh_outputReady h then negb b else b.

Definition worker : RStream -> RStream := read_worker (image bs (length bs)).

Lemma given_worker j h : (j < length bs)%nat -> bufs_ok (rs_bufs (rh_stream h)) -> given j h ->
  bufs_ok (rs_bufs (rh_stream (worker h))) /\ given j (worker h).
Proof.
  intros Hj Hb [(E1 & E2 & E3 & E4 & E5) | Hd].
  2: { destruct Hd as (E1 & E2 & E3). unfold worker, read_worker. rewrite E1. split; [done | now right]. }
  destruct (lookup_lt_is_Some_2 bs j Hj) as [b Eb]. assert (Hok := block_at j b Eb).
  assert (Et : bs !!! j = b) by (now apply list_lookup_total_correct).
  unfold worker, read_worker. rewrite E1. cbn. rewrite E3, E4, packed_at by exact Hj.
  destruct (agree_block _ _ b E5) as [F1 F2]; [exact Hok |].
  assert (Ep : fst (decompress (packed bs j) (rs_stream (rh_stream h))) = b) by (unfold packed; rewrite Et; exact F1).
  assert (Hlen : Z.of_nat (length (blit 0 b (buf_at (negb (cur (rs_bufs (rh_stream h)))) (rs_bufs (rh_stream h))))) = FileBufSize).
  { rewrite length_blit; [apply Hb | lia |]. rewrite Hb. destruct Hok. lia. }
  rewrite Ep. split.
  - assert (Hs := bufs_ok_set (negb (cur (rs_bufs (rh_stream h)))) _ _ Hb Hlen).
    intros c. specialize (Hs c). destruct c; exact Hs.
  - right. split_and!; try done; cbn.
    + rewrite Et, Ep. assert (Hbl := blit_start b (buf_at (negb (cur (rs_bufs (rh_stream h)))) (rs_bufs (rh_stream h)))
        ltac:(rewrite Hb; apply Hok)). destruct (cur (rs_bufs (rh_stream h))); exact Hbl.
    + rewrite decide_True by done. rewrite Et. unfold packed. rewrite Et. exact F2.
Qed.

Lemma shown_worker k b h : shown_in k b h -> shown_in k b (worker h).
Proof.
  intros (H1 & H2 & H3). unfold worker, read_worker. destruct (rh_inputReady h) eqn:E.
  2: { split; [exact H1 | split; [congruence | exact H3]]. }
  rewrite (H2 eq_refl) in H3. split; [| split; [done |]].
  - rewrite <- H1 at 2. f_equal. cbn. rewrite H3. now destruct b.
  - cbn. now rewrite H3.
Qed.

(** [g] blocks have been taken; those of the next turn of the ring are being read. *)
Record reading (g : nat) (r : FileRead) : Prop := {
  re_data : r_data r = image bs (length bs);
  re_n : length (r_streams r) = ring;
  re_offset : r_dataOffset r = Z.of_nat (pos (Nat.min (length bs) (g + ring)));
  re_id : r_streamId r = (g mod ring)%nat;
  re_streams : forall j, (g <= j < g + ring)%nat -> exists h, r_streams r !! (j mod ring)%nat = Some h /\
    bufs_ok (rs_bufs (rh_stream h)) /\ if decide (j < length bs)%nat then given j h else rests h }.
(** [m_buf] is the block [k]. *)
Definition in_block (k : nat) (r : FileRead) : Prop := exists h b,
  r_streams r !! (k mod ring)%nat = Some h /\ r_buf r = ((k mod ring)%nat, b) /\ shown_in k b h.

Lemma rests_worker h : rests h -> worker h = h.
Proof. intros [E _]. unfold worker, read_worker. now rewrite E. Qed.

Lemma run_readers_wp g r (Q : unit -> FileRead -> Prop) :
  reading g r ->
  (forall r', reading g r' -> r_offset r' = r_offset r -> (forall k, in_block k r -> in_block k r') -> Q tt r') ->
  wp (run_readers sched) Q r.
Proof.
  intros [H1 H2 H3 H4 H5] HQ. unfold run_readers. wp_steps. apply HQ; try done.
  - split; try done; cbn.
    + now rewrite run_length.
    + intros j Hj. destruct (H5 j Hj) as (h & Eh & Hb & Hh). rewrite H1.
      destruct (run_lookup worker _ (sched (r_clock r)) _ _ Eh) as [m Em]. eexists. split; [exact Em |].
      destruct (decide (j < length bs)%nat) as [Hlt | Hge].
      * apply (iter_closed (fun h => bufs_ok (rs_bufs (rh_stream h)) /\ given j h)); [| done].
        intros h' [Hb' Hh']. now apply given_worker.
      * now rewrite (iter_fixed _ _ _ (rests_worker _ Hh)).
  - intros k (h & b & Eh & Eb & Hs). destruct (run_lookup worker _ (sched (r_clock r)) _ _ Eh) as [m Em].
    exists (Nat.iter m worker h), b. split; [cbn; rewrite H1; exact Em |]. split; [exact Eb |].
    apply iter_closed; [apply shown_worker | exact Hs].
Qed.

(** The block that was waited for. *)
Lemma given_done j h : (j < length bs)%nat -> bufs_ok (rs_bufs (rh_stream h)) -> given j h ->
  let h' := if rh_outputReady h then h else worker h in
  bufs_ok (rs_bufs (rh_stream h')) /\ rh_inputReady h' = false /\ rh_outputReady h' = true /\
  slice 0 (Z.of_nat (length (bs !!! j))) (buf_at (cur (rs_bufs (rh_stream h'))) (rs_bufs (rh_stream h'))) = bs !!! j /\
  agree (cst bs (S j) (j mod n)) (rs_stream (rh_stream h')).
Proof.
  intros Hj Hb Hh. cbv zeta. destruct (rh_outputReady h) eqn:E.
  - destruct Hh as [(_ & E2 & _) | (E1 & _ & E3 & E4)]; [congruence | done].
  - destruct (given_worker j h Hj Hb Hh) as [Hb' Hh'].
    assert (Ei : rh_outputReady (worker h) = true).
    { destruct Hh as [(E1 & _) | (_ & E2 & _)]; [| congruence]. unfold worker, read_worker. now rewrite E1. }
    destruct Hh' as [(_ & E2 & _) | (E1 & _ & E3 & E4)]; [congruence | done].
Qed.

Lemma ReadBlockSize_wp k r (Q : Z -> FileRead -> Prop) :
  (k < length bs)%nat -> r_data r = image bs (length bs) -> r_dataOffset r = Z.of_nat (pos k) ->
  Q (Z.of_nat (length (packed bs k))) (r <| r_dataOffset := Z.of_nat (pos k + 4) |>) -> wp ReadBlockSize Q r.
Proof.
  intros Hk Ed Eo HQ. unfold ReadBlockSize. wp_steps.
  { rewrite Eo, Ed. apply Z.leb_le. pose proof (pos_lt k Hk). rewrite pos_S in H1. unfold pos in *. lia. }
  wp_steps. rewrite Eo, Ed, Nat2Z.id, size_at by exact Hk. eapply eq_ind; [exact HQ |].
  replace (Z.of_nat (pos k + 4)) with (Z.of_nat (pos k) + 4) by lia. unfold over. now rewrite Eo.
Qed.

Lemma taken g r r' h :
  reading g r -> r_data r' = r_data r -> r_streams r' = <[(g mod ring)%nat := h]> (r_streams r) ->
  r_dataOffset r' = Z.of_nat (pos (Nat.min (length bs) (S g + ring))) -> r_streamId r' = (S g mod ring)%nat ->
  bufs_ok (rs_bufs (rh_stream h)) ->
  (if decide (g + ring < length bs)%nat then given (g + ring) h else rests h) -> reading (S g) r'.
Proof.
  intros [H1' H2' H3' H4' H5'] E1 E2 E3 E4 Hb Hh. pose proof ring_pos. split; try done.
  - now rewrite E1.
  - now rewrite E2, length_insert.
  - intros j Hj. rewrite E2. destruct (decide (j = g + ring)%nat) as [-> | Hne'].
    + replace ((g + ring) mod ring)%nat with (g mod ring)%nat
        by (replace (g + ring)%nat with (g + 1 * ring)%nat by lia; now rewrite Nat.Div0.mod_add).
      exists h. rewrite list_lookup_insert_eq by (rewrite H2'; apply Nat.mod_upper_bound; lia). done.
    + rewrite list_lookup_insert_ne; [apply H5'; lia |].
      intros E. apply (mod_window ring g) in E; lia.
Qed.

Lemma pos_mono k : (k < length bs)%nat -> (pos k < pos (length bs))%nat.
Proof. intros Hk. pose proof (pos_lt k Hk). rewrite pos_S in *. lia. Qed.

Lemma GetNextDataBlock_wp g r (Q : unit -> FileRead -> Prop) :
  reading g r -> (g < length bs)%nat ->
  (forall r', reading (S g) r' -> in_block g r' -> r_offset r' = 0 -> Q tt r') ->
  wp (GetNextDataBlock sched) Q r.
Proof.
  intros Hr Hg HQ. unfold GetNextDataBlock. wp_steps. apply (run_readers_wp g r); [exact Hr |].
  intros r1 Hr1 _ _. pose proof ring_pos as Hrp. destruct (re_streams _ _ Hr1 g) as (h & Eh & Hb & Hh); [lia |].
  rewrite decide_True in Hh by done. destruct (given_done g h Hg Hb Hh) as (D1 & D2 & D3 & D4 & D5).
  wp_steps. eapply wp_expect; [rewrite (re_id _ _ Hr1); exact Eh |]. wp_steps.
  { rewrite (re_data _ _ Hr1). exact D3. }
  wp_steps. rewrite (re_data _ _ Hr1), (re_id _ _ Hr1). fold worker.
  set (h' := if rh_outputReady h then h else worker h) in *.
  set (b := cur (rs_bufs (rh_stream h'))) in *. set (h1 := h' <| rh_outputReady := false |>).
  set (r2 := r1 <| r_streams ::= _ |> <| r_buf := _ |> <| r_offset := 0 |>).
  assert (Hlt : (g mod ring < length (r_streams r1))%nat)
    by (rewrite (re_n _ _ Hr1); apply Nat.mod_upper_bound; lia).
  assert (E2 : r_streams r2 !! (g mod ring)%nat = Some h1) by (cbn; now apply list_lookup_insert_eq).
  assert (Hend : forall r3 h3, r_data r3 = r_data r1 -> r_streams r3 = <[(g mod ring)%nat := h3]> (r_streams r1) ->
    r_dataOffset r3 = Z.of_nat (pos (Nat.min (length bs) (S g + ring))) -> r_offset r3 = 0 ->
    r_buf r3 = ((g mod ring)%nat, b) -> r_streamId r3 = (g mod ring)%nat ->
    rh_stream h3 = rh_stream h' -> rh_outputReady h3 = false ->
    (if decide (g + ring < length bs)%nat then given (g + ring) h3 else rests h3) ->
    wp (modify (fun r => r <| r_streamId ::= (fun i => (i + 1) mod length (r_streams r))%nat |>)) Q r3).
  { intros r3 h3 F1 F2 F3 F4 F5 F6 F7 F8 F9. wp_steps. apply HQ.
    - apply (taken g r1 _ h3 Hr1); try done; cbn.
      + rewrite F2, F6, length_insert, (re_n _ _ Hr1). apply mod_next.
      + now rewrite F7.
    - exists h3, b. cbn. rewrite F2. split; [now apply list_lookup_insert_eq |]. split; [exact F5 |].
      unfold shown_in. rewrite F7, F8. done.
    - exact F4. }
  assert (Eo : r_dataOffset r2 = Z.of_nat (pos (Nat.min (length bs) (g + ring)))) by apply Hr1.
  assert (Ed : r_data r2 = image bs (length bs)) by apply Hr1. rewrite Eo, Ed.
  fold (pos (length bs)). destruct (decide (g + ring < length bs)%nat) as [Hmore | Hlast].
  - rewrite Nat.min_r in * by lia. rewrite (proj2 (Z.ltb_lt _ _)) by (pose proof (pos_mono _ Hmore); unfold pos in *; lia).
    cbn [when]. apply wp_bind, (ReadBlockSize_wp _ _ _ Hmore Ed Eo). wp_steps.
    eapply wp_expect; [exact E2 |]. apply wp_bind, wp_assert.
    { cbn. change (r_data r1) with (r_data r2). rewrite Ed. apply Z.leb_le. pose proof (pos_lt _ Hmore).
      rewrite pos_S in *. unfold pos in *. lia. }
    wp_steps. eapply (Hend _ (h1 <| rh_src := Z.of_nat (pos (g + ring) + 4) |>
      <| rh_size := Z.of_nat (length (packed bs (g + ring))) |> <| rh_inputReady := true |>)); try reflexivity.
    + cbn. now rewrite list_insert_insert_eq.
    + cbn. replace (Nat.min (length bs) (S (g + ring))) with (S (g + ring)) by lia. rewrite pos_S. lia.
    + apply Hr1.
    + left. split_and!; try done; cbn.
      assert (Hrn : ring = n) by (unfold ring in *; lia). rewrite Hrn in *.
      replace ((g + n) mod n)%nat with (g mod n)%nat
        by (replace (g + n)%nat with (g + 1 * n)%nat by lia; now rewrite Nat.Div0.mod_add).
      rewrite (cst_rest bs (g + n) g) by lia. exact D5.
  - rewrite Nat.min_l in * by lia. rewrite (proj2 (Z.ltb_ge _ _)) by (unfold pos; lia). cbn [when]. wp_steps.
    apply (Hend r2 h1); try done; try apply Hr1.
Qed.

(** ** The bytes that are read *)

(** [rest] is what is left to read. *)
Definition reads (rest : list Z) (r : FileRead) : Prop := exists g b,
  reading (S g) r /\ in_block g r /\ bs !! g = Some b /\ 0 <= r_offset r <= Z.of_nat (length b) /\
  rest = drop (Z.to_nat (r_offset r)) b ++ concat (drop (S g) bs).

Lemma slice_of_prefix k b buf off size :
  slice 0 k buf = b -> 0 <= off -> 0 <= size -> off + size <= Z.of_nat (length b) ->
  slice off size buf = slice off size b.
Proof.
  intros <- Ho Hs Hl. unfold slice in *. change (Z.to_nat 0) with 0%nat in *. rewrite drop_0 in *.
  rewrite length_take in Hl. rewrite skipn_firstn_comm, take_take. f_equal. lia.
Qed.

(** Bytes of the current block. *)
Lemma ReadSmall_wp g b r size (Q : list Z -> FileRead -> Prop) :
  reading (S g) r -> in_block g r -> bs !! g = Some b -> 0 <= r_offset r -> 0 <= size ->
  r_offset r + size <= Z.of_nat (length b) ->
  (forall r', reading (S g) r' -> in_block g r' -> r_offset r' = r_offset r + size ->
     Q (slice (r_offset r) size b) r') -> wp (ReadSmall size) Q r.
Proof.
  intros Hr (h & c & Eh & Eb & Hs) E Ho Hsz Hfit HQ. assert (Hok := block_at g b E). unfold ReadSmall. wp_steps.
  { apply Z.leb_le. destruct Hok. lia. }
  eapply wp_expect; [rewrite Eb; exact Eh |]. wp_steps. rewrite Eb. cbn [fst snd].
  destruct Hs as (S1 & S2 & S3). rewrite (list_lookup_total_correct _ _ _ E) in S1.
  rewrite (slice_of_prefix _ b _ _ _ S1) by done. apply HQ; [destruct Hr; now split | | done].
  exists h, c. split_and!; try done. unfold shown_in. now rewrite (list_lookup_total_correct _ _ _ E).
Qed.

Lemma concat_from g b : bs !! g = Some b -> concat (drop g bs) = b ++ concat (drop (S g) bs).
Proof. intros E. now rewrite (drop_S _ _ _ E). Qed.

(** The block that holds the next byte, and how much of it is left. *)
Lemma block_left g b off size :
  bs !! g = Some b -> 0 <= off <= Z.of_nat (length b) -> 0 <= size ->
  size <= Z.of_nat (length (drop (Z.to_nat off) b ++ concat (drop (S g) bs))) ->
  off + Z.min size (FileBufSize - off) <= Z.of_nat (length b).
Proof.
  intros E Ho Hs Hl. rewrite length_app, length_drop in Hl. assert (Hok := block_at g b E).
  destruct (decide (S g < length bs)%nat) as [Hlt | Hge].
  - destruct Hch as (_ & _ & Hfull). rewrite (Hfull g b E Hlt). lia.
  - rewrite (drop_ge bs (S g)) in Hl by lia. cbn in Hl. lia.
Qed.

Lemma ReadSmall_reads g b r size :
  reading (S g) r -> in_block g r -> bs !! g = Some b -> 0 <= r_offset r -> 0 <= size ->
  r_offset r + size <= Z.of_nat (length b) ->
  let rest := drop (Z.to_nat (r_offset r)) b ++ concat (drop (S g) bs) in
  wp (ReadSmall size) (fun x r' => x = take (Z.to_nat size) rest /\ reads (drop (Z.to_nat size) rest) r') r.
Proof.
  intros Hr Hb E Ho Hs Hfit rest. apply (ReadSmall_wp g b); [exact Hr | exact Hb | exact E | done | done | exact Hfit |].
  intros r' Hr' Hb' Eo. unfold rest. split.
  - unfold slice. rewrite take_app_le; [done |]. rewrite length_drop. lia.
  - exists g, b. rewrite Eo. split_and!; try done; try lia.
    rewrite drop_app_le by (rewrite length_drop; lia). rewrite drop_drop. do 2 f_equal. lia.
Qed.

(** The loop has read all it was asked for: the fuel is the number of bytes. *)
Lemma ReadBig_wp fuel size rest r :
  reads rest r -> 0 < size <= Z.of_nat (length rest) -> size <= Z.of_nat fuel ->
  wp (ReadBig sched fuel size)
    (fun x r' => x = take (Z.to_nat size) rest /\ reads (drop (Z.to_nat size) rest) r') r.
Proof.
  revert size rest r. induction fuel as [| fuel IH]; intros size rest r Hr Hs Hf; [lia |]. cbn [ReadBig]. wp_steps.
  assert (Hstep : forall r1 g b, reading (S g) r1 -> in_block g r1 -> bs !! g = Some b ->
    0 <= r_offset r1 <= Z.of_nat (length b) -> r_offset r1 < FileBufSize ->
    rest = drop (Z.to_nat (r_offset r1)) b ++ concat (drop (S g) bs) ->
    let sz := Z.min size (FileBufSize - r_offset r1) in
    wp (x ← ReadSmall sz; y ← (if 0 <? size - sz then ReadBig sched fuel (size - sz) else mret []); mret (x ++ y))
      (fun x r' => x = take (Z.to_nat size) rest /\ reads (drop (Z.to_nat size) rest) r') r1).
  { intros r1 g b R1 R2 R3 R4 R5 R6 sz. assert (Hfit : r_offset r1 + sz <= Z.of_nat (length b)).
    { apply (block_left g b); [exact R3 | exact R4 | lia | rewrite <- R6; lia]. }
    apply wp_bind. eapply wp_mono; [apply (ReadSmall_reads g b r1 sz R1 R2 R3); [lia | lia | exact Hfit] |].
    rewrite <- R6. intros x r2 (-> & Hr2). destruct (Z.ltb_spec 0 (size - sz)) as [Hmore | Hall].
    - apply wp_bind. eapply wp_mono; [apply (IH (size - sz) _ r2 Hr2); [rewrite length_drop; lia | lia] |].
      intros y r3 (-> & Hr3). wp_steps. rewrite drop_drop in Hr3. split.
      + rewrite <- (take_drop (Z.to_nat sz) (take (Z.to_nat size) rest)), take_take, Nat.min_l by lia.
        f_equal. rewrite skipn_firstn_comm. f_equal. lia.
      + replace (Z.to_nat size) with (Z.to_nat sz + Z.to_nat (size - sz))%nat by lia. exact Hr3.
    - wp_steps. rewrite app_nil_r. replace (Z.to_nat size) with (Z.to_nat sz) by lia. done. }
  destruct Hr as (g & b & R1 & R2 & R3 & R4 & R5). assert (Hok := block_at g b R3).
  destruct (Z.eqb_spec (r_offset r) FileBufSize) as [Efull | Hpart].
  - rewrite drop_ge in R5 by (destruct Hok; lia). cbn [app] in R5.
    assert (Hlt : (S g < length bs)%nat).
    { destruct (decide (S g < length bs)%nat); [done |]. rewrite drop_ge in R5 by lia. subst rest. cbn in Hs. lia. }
    destruct (lookup_lt_is_Some_2 bs (S g) Hlt) as [b' Eb'].
    wp_steps. apply (GetNextDataBlock_wp (S g) r); [exact R1 | exact Hlt |]. intros r1 Q1 Q2 Q3.
    apply wp_ret. specialize (Hstep r1 (S g) b' Q1 Q2 Eb'). rewrite Q3 in Hstep.
    rewrite Z.sub_0_r in Hstep. apply Hstep; [lia | done |]. rewrite R5. now apply concat_from.
  - wp_steps. apply wp_unbind, (Hstep r g b); try done. destruct Hok. lia.
Qed.

Lemma Read_wp size rest r :
  reads rest r -> 0 <= size <= Z.of_nat (length rest) ->
  wp (Read sched size) (fun x r' => x = take (Z.to_nat size) rest /\ reads (drop (Z.to_nat size) rest) r') r.
Proof.
  intros (g & b & R1 & R2 & R3 & R4 & R5) Hs. unfold Read. wp_steps. apply (run_readers_wp (S g) r); [exact R1 |].
  intros r1 Q1 Q2 Q3. specialize (Q3 g R2). wp_steps. rewrite Q2.
  destruct (Z.leb_spec size (FileBufSize - r_offset r)) as [Hsmall | Hbig].
  - rewrite R5, <- Q2. apply (ReadSmall_reads g b); try done; rewrite ?Q2; try lia.
    pose proof (block_left g b (r_offset r) size R3 R4) as Hl. rewrite <- R5 in Hl. lia.
  - assert (Hok := block_at g b R3). unfold block_ok in Hok. wp_steps.
    apply ReadBig_wp; [| lia | lia]. exists g, b. rewrite Q2. done.
Qed.

(** ** Opening a file *)
Lemma cst_first k i : (k <= i < n)%nat -> cst bs k i = cnew comp level.
Proof.
  intros Hk. induction k as [| k IH]; [done |]. cbn. rewrite decide_False, IH by (rewrite ?Nat.mod_small; lia). done.
Qed.

Lemma read_header_image : read_header (image bs (length bs)) = Some (codec_type comp, Z.of_nat n, 6).
Proof. unfold image, codec_type. cbn. now destruct (decide (comp = Zstd)). Qed.

(** The first [k] streams have been started. *)
Record started (k : nat) (r : FileRead) : Prop := {
  st_data : r_data r = image bs (length bs);
  st_n : length (r_streams r) = k;
  st_offset : r_dataOffset r = Z.of_nat (pos k);
  st_id : r_streamId r = 0%nat;
  st_streams : forall j, (j < k)%nat -> exists h, r_streams r !! j = Some h /\
    bufs_ok (rs_bufs (rh_stream h)) /\ given j h }.

Lemma start_streams_wp m k r (Q : unit -> FileRead -> Prop) :
  started k r -> (k + m = n)%nat -> (k <= ring)%nat -> (forall r', started ring r' -> Q tt r') ->
  wp (start_streams (codec_type comp) m) Q r.
Proof.
  revert k r. induction m as [| m IH]; intros k r Hst Hm Hk HQ; cbn [start_streams].
  - wp_steps. apply HQ. replace ring with k; [exact Hst |]. unfold ring in *. lia.
  - wp_steps. destruct Hst as [H1' H2' H3' H4' H5']. rewrite H1', H3'. fold (pos (length bs)).
    destruct (Z.eqb_spec (Z.of_nat (pos k)) (Z.of_nat (pos (length bs)))) as [E | E].
    + wp_steps. apply HQ. assert (k = length bs).
      { destruct (decide (k < length bs)%nat) as [Hlt | Hge]; [pose proof (pos_mono k Hlt); lia |].
        unfold ring in Hk. lia. }
      replace ring with k; [now split |]. unfold ring in *. lia.
    + assert (Hlt : (k < length bs)%nat) by (destruct (decide (k = length bs)) as [-> |]; [done | unfold ring in Hk; lia]).
      apply wp_bind, (ReadBlockSize_wp k r); [exact Hlt | exact H1' | exact H3' |]. wp_steps.
      apply (wp_expect _ (mkReadStream (dnew (codec_type comp)) new_bufs 0)).
      { unfold new_ReadStream, codec_type. destruct (decide (comp = Zstd)); reflexivity. }
      apply wp_bind, wp_gets, wp_bind, wp_assert.
      { cbn. rewrite H1'. apply Z.leb_le. pose proof (pos_lt k Hlt). rewrite pos_S in *. unfold pos in *. lia. }
      apply wp_bind, wp_modify, (IH (S k)); [| lia | unfold ring; lia | exact HQ].
      split; cbn; try done.
      * rewrite length_app, H2'. cbn. lia.
      * rewrite pos_S. lia.
      * intros j Hj. destruct (decide (j = k)) as [-> | Hne'].
        -- eexists. rewrite list_lookup_middle by done. split; [reflexivity |]. split; [intros []; exact length_new_buf |].
           left. split_and!; try done. cbn. rewrite cst_first by (rewrite Nat.mod_small; lia). apply agree_new.
        -- rewrite lookup_app_l by lia. apply H5'. lia.
Qed.

Lemma started_reading r : started ring r -> reading 0 r.
Proof.
  intros [H1' H2' H3' H4' H5']. pose proof ring_pos. split; try done.
  - rewrite H3'. do 2 f_equal. unfold ring. lia.
  - rewrite H4'. symmetry. apply Nat.Div0.mod_0_l.
  - intros j Hj. rewrite Nat.mod_small by lia. destruct (H5' j) as (h & Eh & Hb & Hg); [lia |].
    exists h. split; [exact Eh |]. split; [exact Hb |]. rewrite decide_True; [exact Hg |]. unfold ring in Hj. lia.
Qed.

Lemma new_FileRead_opens : exists r, new_FileRead sched (image bs (length bs)) = Some (Opened r) /\ reads data r.
Proof.
  unfold new_FileRead. rewrite read_header_image, Nat2Z.id.
  set (r0 := mkFileRead _ _ _ _ _ _ _). assert (H0' : started 0 r0) by (split; cbn; try done; intros j Hj; lia).
  assert (Hl : (0 < length bs)%nat) by (pose proof ring_pos; unfold ring in *; lia).
  destruct (lookup_lt_is_Some_2 bs 0 Hl) as [b Eb].
  assert (Hw : wp (start_streams (codec_type comp) n;; GetNextDataBlock sched) (fun _ r => reads data r) r0).
  { apply wp_bind, (start_streams_wp n 0 r0 _ H0'); [lia | lia |]. intros r1 Hr1.
    apply (GetNextDataBlock_wp 0 r1); [now apply started_reading | exact Hl |]. intros r2 Q1 Q2 Q3.
    exists 0%nat, b. rewrite Q3. split; [exact Q1 |]. split; [exact Q2 |]. split; [exact Eb |]. split; [lia |].
    destruct Hch as (<- & _ & _). exact (concat_from 0 b Eb). }
  unfold wp in Hw. destruct ((start_streams (codec_type comp) n;; GetNextDataBlock sched) r0) as [[[] r] |]; [| done].
  exists r. done.
Qed.
End Reading.

(** ** Saving and loading *)

(** The bytes of a file to which [xs] is written, and the pieces of [szs] bytes that
    are read from a file. *)
Definition save (xs : list (list Z)) : option (list Z) :=
  w ← new_FileWrite comp level (Z.of_nat n);
  r ← (for_each xs (Write sched);; Finish sched) w;
  Some (w_file (snd r)).
Fixpoint read_all (szs : list Z) : M FileRead (list (list Z)) :=
  match szs with
  | [] => mret []
  | sz :: szs => x ← Read sched sz; xs ← read_all szs; mret (x :: xs)
  end.
Definition load (file : list Z) (szs : list Z) : option (list (list Z)) :=
  o ← new_FileRead sched file;
  match o with
  | NotTracyDump => None
  | Opened r => p ← read_all szs r; Some (fst p)
  end.

Lemma writes_wp xs data w : holds data w -> wp (for_each xs (Write sched)) (fun _ w' => holds (data ++ concat xs) w') w.
Proof.
  revert data w. induction xs as [| x xs IH]; intros data w Hw; cbn [for_each concat].
  - wp_steps. now rewrite app_nil_r.
  - apply wp_bind. eapply wp_mono; [exact (Write_wp data x w Hw) |]. intros [] w1 Hw1.
    rewrite app_assoc. now apply IH.
Qed.

Lemma save_image xs : exists bs, chunked bs (concat xs) /\ save xs = Some (image bs (length bs)).
Proof.
  destruct new_FileWrite_holds as (w & E & Hw). unfold save. rewrite E. cbn [mbind option_bind].
  assert (H' : wp (for_each xs (Write sched);; Finish sched)
    (fun _ w' => exists bs, chunked bs (concat xs) /\ w_file w' = image bs (length bs)) w).
  { apply wp_bind. eapply wp_mono; [exact (writes_wp xs [] w Hw) |]. intros [] w1 Hw1. now apply Finish_wp. }
  unfold wp in H'. destruct ((for_each xs (Write sched);; Finish sched) w) as [[[] w'] |]; [| done].
  destruct H' as (bs & Hch & Ef). exists bs. split; [exact Hch |]. cbn. now rewrite Ef.
Qed.

Lemma read_all_wp bs data szs rest r :
  chunked bs data -> bs <> [] -> reads bs rest r -> Forall (fun sz => 0 <= sz) szs ->
  foldr Z.add 0 szs <= Z.of_nat (length rest) ->
  wp (read_all szs) (fun xs _ => xs = split_at szs rest) r.
Proof.
  intros Hch Hne. revert rest r. induction szs as [| sz szs IH]; intros rest r Hr Hpos Hl; cbn [read_all foldr] in *.
  { now wp_steps. }
  apply Forall_cons in Hpos as [Hsz Hpos].
  assert (Hsum : 0 <= foldr Z.add 0 szs) by (clear -Hpos; induction Hpos; cbn; lia).
  apply wp_bind. eapply wp_mono; [apply (Read_wp bs data Hch Hne sz rest r Hr); lia |]. intros x r1 (-> & Hr1).
  apply wp_bind. eapply wp_mono; [apply (IH _ r1 Hr1 Hpos); rewrite length_drop; lia |]. intros xs r2 ->. done.
Qed.

Lemma load_image bs data szs :
  chunked bs data -> bs <> [] -> Forall (fun sz => 0 <= sz) szs -> foldr Z.add 0 szs <= Z.of_nat (length data) ->
  load (image bs (length bs)) szs = Some (split_at szs data).
Proof.
  intros Hch Hne Hpos Hl. destruct (new_FileRead_opens bs data Hch Hne) as (r & E & Hr). unfold load. rewrite E.
  cbn [mbind option_bind]. assert (Hw := read_all_wp bs data szs data r Hch Hne Hr Hpos Hl). unfold wp in Hw.
  destruct (read_all szs r) as [[xs r'] |]; [| done]. cbn. now rewrite Hw.
Qed.
End FileSpec.

(** C23: whatever is written to a trace file in pieces of any sizes is read back from
    it in pieces of any other sizes, byte for byte, for every number of compression
    streams and every schedule of the worker threads on either side. *)
Theorem trace_file_roundtrip `{CodecOk} (write_sched read_sched : nat -> list nat)
    (comp : FileCompression) (level : Z) (n : nat) (xs : list (list Z)) (szs : list Z) :
  (0 < n < 256)%nat -> concat xs <> [] -> Forall (fun sz => 0 <= sz) szs ->
  foldr Z.add 0 szs <= Z.of_nat (length (concat xs)) ->
  exists file, save write_sched comp level n xs = Some file /\
    load read_sched file szs = Some (split_at szs (concat xs)).
Proof.
  intros Hn Hne Hpos Hl. destruct (save_image write_sched comp level n Hn xs) as (bs & Hch & E).
  eexists. split; [exact E |]. apply (load_image read_sched comp level n Hn bs); try done.
  intros ->. destruct Hch as [E0 _]. apply Hne. now rewrite <- E0.
Qed.

(** A library that stores the blocks as they are. *)
#[local] Instance stored : Codec := {|
  cstate := unit; dstate := unit; cnew _ _ := tt; dnew _ := tt;
  compress b _ := (b, tt); decompress b _ := (b, tt) |}.
#[local] Instance stored_ok : CodecOk.
Proof.
  refine {| agree _ _ := True |}; [done | done |]. intros c b Hb. cbn. unfold FileBufSize in Hb. lia.
Defined.

Lemma trace_file_roundtrip_witness :
  exists file, save (fun t => [t; 1%nat]) Zstd 3 2 [[1; 2]; [3]; [4; 5; 6]] = Some file /\
    load (fun _ => []) file [1; 4] = Some [[1]; [2; 3; 4; 5]].
Proof.
  apply (trace_file_roundtrip (fun t => [t; 1%nat]) (fun _ => []) Zstd 3 2 [[1; 2]; [3]; [4; 5; 6]] [1; 4]).
  - lia.
  - discriminate.
  - repeat constructor; discriminate.
  - cbn. lia.
Defined.
