(* ===== verification/Timeline.v ===== *)
(** * Timelines in trace files

    A timeline is saved as the zones of each level with their children in between,
    every time as its difference to the one before it in the file.  When it is loaded
    the zones of a level get one block of memory, and the child lists the next free
    places of [zoneChildren].  Whether a vector holds the zones themselves or pointers
    to them ([is_magic], which loading sets) is not modelled: a vector of the model
    holds addresses. *)
From S2P Require Import Prelude Queue Event Containers Trace Server ServerZone TraceFile FileSpec.

(** What the code needs of a file: bytes are appended to one that is written, and taken
    in order from one that is read. *)
Class ByteSink (F : Type) := put_bytes : list Z -> M F unit.
Class ByteSinkOk (F : Type) `{ByteSink F} := {
  sink : list Z -> F -> Prop;
  put_spec data x f : sink data f -> wp (put_bytes x) (fun _ f' => sink (data ++ x) f') f }.
Class ByteSource (F : Type) := get_bytes : Z -> M F (list Z).
Class ByteSourceOk (F : Type) `{ByteSource F} := {
  source : list Z -> F -> Prop;
  get_spec size rest f : source rest f -> 0 <= size <= Z.of_nat (length rest) ->
    wp (get_bytes size) (fun x f' => x = take (Z.to_nat size) rest /\ source (drop (Z.to_nat size) rest) f') f }.

(** ** Writing *)
Section Write.
Context `{ByteSink F}.

(** [f.Write( &v, sizeof( v ) )] *)
Definition put (n : nat) (v : Z) : M F unit := put_bytes (le_bytes n v).

(* TracyWorker.cpp:211-216 *)
Definition WriteTimeOffset (refTime time : Z) : M F Z :=
  let timeOffset := sint 64 (time - refTime) in
  let refTime := sint 64 (refTime + timeOffset) in
  put 8 timeOffset;;
  mret refTime.

Section Zones.
Variable (w : W) (WriteTimeline : list nat -> Z -> M F Z).
(* TracyWorker.cpp:8909-8932 *)
Fixpoint WriteTimelineImpl (vec : list nat) (refTime : Z) : M F Z :=
  match vec with
  | [] => mret refTime
  | val :: vec =>
      v ← expect (zone_heap w !! val);
      put 2 (ZoneEvent.SrcLoc v);;
      refTime ← WriteTimeOffset refTime (ZoneEvent.Start v);
      put 4 (ZoneEvent.extra v);;
      refTime ← (if negb (ZoneEvent.HasChildren v) then put 4 0;; mret refTime
                 else
                   children ← expect (zoneChildren w !! Z.to_nat (ZoneEvent.Child v));
                   WriteTimeline (Vector.items children) refTime);
      refTime ← WriteTimeOffset refTime (ZoneEvent.End_ v);
      WriteTimelineImpl vec refTime
  end.
End Zones.
(** [fuel]: the depth of the timeline. *)
(* TracyWorker.cpp:8895-8907 *)
Fixpoint WriteTimeline (fuel : nat) (w : W) (vec : list nat) (refTime : Z) : M F Z :=
  match fuel with
  | O => stop
  | S fuel =>
      put 4 (uint 32 (Z.of_nat (length vec)));;
      WriteTimelineImpl w (WriteTimeline fuel w) vec refTime
  end.
End Write.

(** ** Reading *)

(** The loader: the file and the trace that is being built. *)
Record loader (F : Type) := mkLoader { l_file : F; l_w : W }.
Arguments mkLoader {F}. Arguments l_file {F}. Arguments l_w {F}.
#[export] Instance eta_loader F : Eta (loader F) := fun r => mkLoader (l_file r) (l_w r).

Section Read.
Context `{ByteSource F} `{Slab}.

Definition on_file {A} (m : M F A) : M (loader F) A := fun l =>
  match m (l_file l) with Some (a, f) => Some (a, l <| l_file := f |>) | None => None end.
Definition on_w {A} (m : M W A) : M (loader F) A := fun l =>
  match m (l_w l) with Some (a, w) => Some (a, l <| l_w := w |>) | None => None end.

(** [f.ReadN( ... )]: values of the given sizes. *)
Definition read_n (szs : list Z) : M (loader F) (list Z) :=
  bs ← on_file (get_bytes (foldr Z.add 0 szs));
  mret (map le_val (split_at szs bs)).
Definition read1 (sz : Z) : M (loader F) Z := xs ← read_n [sz]; expect (head xs).

(* TracyWorker.cpp:218-224 *)
Definition ReadTimeOffset (refTime : Z) : M (loader F) Z :=
  timeOffset ← read1 8;
  mret (sint 64 (refTime + sint 64 timeOffset)).

(** [vec.reserve_exact( size, m_slab )]: the elements, one after the other. *)
Definition reserve_zones (size : Z) : M W (list nat) :=
  h ← gets zone_heap;
  let vec := seq (length h) (Z.to_nat size) in
  modify (fun w => w <| zone_heap ::= (fun l => l ++ map junk vec) |>);;
  mret vec.

(** The members of a zone that are read before its children. *)
Record zone_header := mkHeader { h_srcloc : Z; h_start : Z; h_extra : Z; h_children : Z }.
Definition header_of (xs : list Z) : option zone_header :=
  match xs with
  | [srcloc; tstart; extra; childSz] => Some (mkHeader (sint 16 srcloc) (sint 64 tstart) extra childSz)
  | _ => None
  end.

Section Zones.
Variable ReadTimeline : list nat -> Z -> Z -> M (loader F) (Z * Z).
(* TracyWorker.cpp:7998-8012 ReadTimelineHaveSize *)
Definition ReadTimelineHaveSize (zone : nat) (refTime childIdx sz : Z) : M (loader F) (Z * Z) :=
  if sz =? 0 then
    on_w (UpdZone zone (fun z => Some (ZoneEvent.SetChild (-1) z)));;
    mret (refTime, childIdx)
  else
    on_w (UpdZone zone (fun z => Some (ZoneEvent.SetChild childIdx z)));;
    vec ← on_w (reserve_zones sz);
    ch ← on_w (gets zoneChildren);
    old ← expect (ch !! Z.to_nat childIdx);
    v ← expect (Vector.reserve_exact vec old);
    on_w (modify (fun w => w <| zoneChildren ::= <[Z.to_nat childIdx := v]> |>));;
    ReadTimeline vec refTime (sint 32 (childIdx + 1)).

(** A zone up to its end. *)
(* TracyWorker.cpp:8147-8150 ReadTimeline *)
Definition open_zone (zone : nat) (hdr : zone_header) (refTime childIdx : Z) : M (loader F) (Z * Z) :=
  let refTime := sint 64 (refTime + h_start hdr) in
  on_w (UpdZone zone (ZoneEvent.SetStartSrcLoc refTime (h_srcloc hdr)));;
  on_w (UpdZone zone (fun z => Some (z <| ZoneEvent.extra := h_extra hdr |>)));;
  ReadTimelineHaveSize zone refTime childIdx (h_children hdr).
(** The end of a zone is read together with the beginning of the next one. *)
(* TracyWorker.cpp:8145-8171 ReadTimeline *)
Fixpoint read_zones (vec : list nat) (hdr : zone_header) (refTime childIdx : Z) : M (loader F) (Z * Z) :=
  match vec with
  | [] => stop
  | [zone] =>
      p ← open_zone zone hdr refTime childIdx;
      tend ← read1 8;
      let refTime := sint 64 (fst p + sint 64 tend) in
      on_w (UpdZone zone (ZoneEvent.SetEnd refTime));;
      mret (refTime, snd p)
  | zone :: vec =>
      p ← open_zone zone hdr refTime childIdx;
      xs ← read_n [8; 2; 8; 4; 4];
      tend ← expect (head xs);
      hdr ← expect (header_of (tail xs));
      let refTime := sint 64 (fst p + sint 64 tend) in
      on_w (UpdZone zone (ZoneEvent.SetEnd refTime));;
      read_zones vec hdr refTime (snd p)
  end.
End Zones.
(** [vec]: the elements that were reserved.  Every level below uses a place of
    [zoneChildren], so their number bounds the depth. *)
(* TracyWorker.cpp:8129-8172 *)
Fixpoint ReadTimeline (fuel : nat) (vec : list nat) (refTime childIdx : Z) : M (loader F) (Z * Z) :=
  match fuel with
  | O => stop
  | S fuel =>
      assert_ (negb (bool_decide (vec = [])));;
      xs ← read_n [2; 8; 4; 4];
      hdr ← expect (header_of xs);
      read_zones (ReadTimeline fuel) vec hdr refTime childIdx
  end.
(** The timeline of a thread, as the loader of threads reads it. *)
(* TracyWorker.cpp:1063-1068 Worker *)
Definition ReadThreadTimeline (childIdx : Z) : M (loader F) (list nat * Z) :=
  tsz ← read1 4;
  if tsz =? 0 then mret ([], childIdx) else
  vec ← on_w (reserve_zones tsz);
  ch ← on_w (gets zoneChildren);
  p ← ReadTimeline (S (length ch)) vec 0 childIdx;
  mret (vec, snd p).
End Read.
