(* ===== verification/TimelineSpec.v ===== *)
(** * Timelines in trace files: what is loaded is what was saved

    The call tree of a thread, as the zones of the heap and the child lists hold it,
    is written as a sequence of bytes and rebuilt from it, in another heap. *)
From S2P Require Import Prelude Queue Event Containers Trace Server ServerZone Double TraceFile FileSpec Timeline.

(** ** Trees of zones *)
Record zinfo := mkZinfo { z_srcloc : Z; z_start : Z; z_end : Z; z_extra : Z }.
Inductive zone := Zone (i : zinfo) (ks : list zone).
Definition zi (z : zone) : zinfo := match z with Zone i _ => i end.
Definition zkids (z : zone) : list zone := match z with Zone _ ks => ks end.

Section zone_ind.
Context (P : zone -> Prop) (HP : forall i ks, Forall P ks -> P (Zone i ks)).
Fixpoint zone_ind' (z : zone) : P z :=
  match z with
  | Zone i ks => HP i ks ((fix all (l : list zone) : Forall P l :=
      match l with [] => Forall_nil_2 P | k :: l => Forall_cons_2 P k l (zone_ind' k) (all l) end) ks)
  end.
End zone_ind.

(** The number of child lists. *)
Fixpoint lists (z : zone) : nat :=
  match z with Zone _ ks => (match ks with [] => 0 | _ => 1 end + list_sum (map lists ks))%nat end.
Definition lists_of (zs : list zone) : nat := list_sum (map lists zs).
Lemma lists_cons z zs : lists_of (z :: zs) = (lists z + lists_of zs)%nat.
Proof. done. Qed.
Lemma lists_Zone i ks : lists (Zone i ks) = (match ks with [] => 0 | _ => 1 end + lists_of ks)%nat.
Proof. done. Qed.
Definition last_end (refTime : Z) (zs : list zone) : Z := fold_left (fun _ z => z_end (zi z)) zs refTime.

Definition info_ok (i : zinfo) : Prop :=
  in_sint 16 (z_srcloc i) /\ in_sint 48 (z_start i) /\ in_sint 48 (z_end i) /\ in_uint 32 (z_extra i).
Fixpoint zone_ok (z : zone) : Prop :=
  match z with Zone i ks => info_ok i /\ Z.of_nat (length ks) < 2 ^ 32 /\
    (fix all (l : list zone) : Prop := match l with [] => True | k :: l => zone_ok k /\ all l end) ks end.
Lemma zone_ok_Zone i ks : zone_ok (Zone i ks) <-> info_ok i /\ Z.of_nat (length ks) < 2 ^ 32 /\ Forall zone_ok ks.
Proof.
  cbn [zone_ok]. do 2 apply and_iff_compat_l. induction ks as [| k ks IH]; [split; constructor |].
  rewrite IH, Forall_cons. done.
Qed.

(** The bytes of a zone, and of the zones of a level. *)
Definition head_bytes (refTime : Z) (z : zone) : list Z :=
  le_bytes 2 (z_srcloc (zi z)) ++ le_bytes 8 (sint 64 (z_start (zi z) - refTime)) ++
  le_bytes 4 (z_extra (zi z)) ++ le_bytes 4 (Z.of_nat (length (zkids z))).
Definition end_bytes (z : zone) : list Z :=
  le_bytes 8 (sint 64 (z_end (zi z) - last_end (z_start (zi z)) (zkids z))).
Fixpoint zone_bytes (refTime : Z) (z : zone) : list Z :=
  match z with
  | Zone i ks => head_bytes refTime z ++
      (fix go (r : Z) (l : list zone) : list Z :=
         match l with [] => [] | k :: l => zone_bytes r k ++ go (z_end (zi k)) l end) (z_start i) ks ++
      end_bytes z
  end.
Fixpoint level_bytes (refTime : Z) (zs : list zone) : list Z :=
  match zs with [] => [] | z :: zs => zone_bytes refTime z ++ level_bytes (z_end (zi z)) zs end.
Lemma zone_bytes_eq refTime z :
  zone_bytes refTime z = head_bytes refTime z ++ level_bytes (z_start (zi z)) (zkids z) ++ end_bytes z.
Proof.
  destruct z as [i ks]. cbn [zone_bytes zi zkids]. apply (f_equal (app _)), (f_equal (fun x => x ++ _)).
  generalize (z_start i). induction ks as [| k ks IH]; intros r; [done |]. exact (f_equal (app (zone_bytes r k)) (IH _)).
Qed.

(** ** Trees in the heap *)
Definition info_of (e : ZoneEvent.t) : zinfo :=
  mkZinfo (ZoneEvent.SrcLoc e) (ZoneEvent.Start e) (ZoneEvent.End_ e) (ZoneEvent.extra e).
Section Saved.
(** The zones are at the addresses [A] and their child lists at the places [C]. *)
Variables (A C : nat -> Prop) (h : list ZoneEvent.t) (ch : list (Vector.t nat)).
Definition children_of (e : ZoneEvent.t) (vec : list nat) : Prop :=
  if ZoneEvent.HasChildren e then vec <> [] /\ C (Z.to_nat (ZoneEvent.Child e)) /\
    exists v, ch !! Z.to_nat (ZoneEvent.Child e) = Some v /\ Vector.items v = vec
  else vec = [].
Fixpoint saved (z : zone) (a : nat) : Prop :=
  match z with
  | Zone i ks => A a /\ exists e vec, h !! a = Some e /\ ZoneEvent.ok e /\ info_of e = i /\ children_of e vec /\
      (fix all (l : list zone) (v : list nat) : Prop :=
         match l, v with [], [] => True | k :: l, a :: v => saved k a /\ all l v | _, _ => False end) ks vec
  end.
Lemma saved_Zone i ks a :
  saved (Zone i ks) a <-> A a /\ exists e vec, h !! a = Some e /\ ZoneEvent.ok e /\ info_of e = i /\
    children_of e vec /\ Forall2 saved ks vec.
Proof.
  cbn [saved]. apply and_iff_compat_l. split; intros (e & vec & H1 & H2 & H3 & H4 & H5); exists e, vec;
    split_and!; try done; clear -H5; revert vec H5; induction ks as [| k ks IH]; intros [| b vec] H5; try done.
  - destruct H5 as [Hk H5]. constructor; [exact Hk | now apply IH].
  - inversion H5.
  - inversion H5.
  - apply Forall2_cons in H5 as [Hk H5]. split; [exact Hk | now apply IH].
Qed.
End Saved.

(** What a tree depends on. *)
Lemma saved_frame (A A' C C' : nat -> Prop) h h' ch ch' z a :
  (forall a, A a -> A' a /\ h' !! a = h !! a) -> (forall c, C c -> C' c /\ ch' !! c = ch !! c) ->
  saved A C h ch z a -> saved A' C' h' ch' z a.
Proof.
  intros HA HC. revert a. induction z as [i ks IH] using zone_ind'. intros a. rewrite !saved_Zone.
  intros [Ha (e & vec & H1 & H2 & H3 & H4 & H5)]. destruct (HA a Ha) as [Ha' Ea]. split; [exact Ha' |].
  exists e, vec. rewrite Ea. split_and!; try done.
  - unfold children_of in *. destruct (ZoneEvent.HasChildren e); [| done].
    destruct H4 as (Hv & Hc & v & Ev & Ei). destruct (HC _ Hc) as [Hc' Ec]. rewrite Ec. eauto.
  - clear -IH H5. induction H5 as [| k b ks vec Hk H5 IH5]; [constructor |].
    apply Forall_cons in IH as [IHk IHks]. constructor; auto.
Qed.

(** ** Writing *)
Section WriteSpec.
Context `{ByteSinkOk F}.

Lemma put_wp n v data f (Q : unit -> F -> Prop) :
  sink data f -> (forall f', sink (data ++ le_bytes n v) f' -> Q tt f') -> wp (put n v) Q f.
Proof. intros Hf HQ. eapply wp_mono; [exact (put_spec data _ f Hf) |]. intros [] f'. apply HQ. Qed.

Lemma WriteTimeOffset_wp refTime time data f (Q : Z -> F -> Prop) :
  sink data f -> in_sint 64 time ->
  (forall f', sink (data ++ le_bytes 8 (sint 64 (time - refTime))) f' -> Q time f') ->
  wp (WriteTimeOffset refTime time) Q f.
Proof.
  intros Hf Ht HQ. unfold WriteTimeOffset. apply wp_bind, (put_wp 8 _ data); [exact Hf |]. intros f' Hf'.
  wp_steps. rewrite sint_add_delta, sint_small by done || lia. now apply HQ.
Qed.

Lemma sint_48_64 t : in_sint 48 t -> in_sint 64 t.
Proof. unfold in_sint. lia. Qed.

Definition everywhere (_ : nat) : Prop := True.
Definition in_trace (w : W) : zone -> nat -> Prop := saved everywhere everywhere (zone_heap w) (zoneChildren w).

(** The timeline is written in full if the fuel is more than its depth. *)
Lemma WriteTimeline_wp fuel w vec zs refTime data f :
  Forall zone_ok zs -> Z.of_nat (length zs) < 2 ^ 32 -> Forall2 (in_trace w) zs vec -> (lists_of zs < fuel)%nat ->
  sink data f ->
  wp (WriteTimeline fuel w vec refTime) (fun r f' => r = last_end refTime zs /\
    sink (data ++ le_bytes 4 (Z.of_nat (length zs)) ++ level_bytes refTime zs) f') f.
Proof.
  revert vec zs refTime data f. induction fuel as [| fuel IH]; intros vec zs refTime data f Hok Hlen Hz Hfuel Hf; [lia |].
  cbn [WriteTimeline]. rewrite <- (Forall2_length _ _ _ Hz), uint_small by (red; lia).
  apply wp_bind, (put_wp 4 _ data); [exact Hf |]. intros f1 Hf1. rewrite app_assoc.
  revert Hf1. generalize (data ++ le_bytes 4 (Z.of_nat (length zs))). clear f data Hf Hlen.
  intros data Hf. rename f1 into f.
  revert refTime f data Hf. induction Hz as [| z a zs vec Hz Hzs IHz]; intros refTime f data Hf; cbn [WriteTimelineImpl].
  { wp_steps. cbn. rewrite app_nil_r. done. }
  apply Forall_cons in Hok as [Hz0 Hok]. rewrite lists_cons in Hfuel.
  destruct z as [i ks]. rewrite lists_Zone in Hfuel. apply zone_ok_Zone in Hz0 as ((O1 & O2 & O3 & O4) & Hlen & Hks).
  apply saved_Zone in Hz as [_ (e & kv & Ee & He & Hi & Hc & Hk)].
  apply wp_bind. eapply wp_expect; [exact Ee |]. rewrite <- Hi in *. cbn in O1, O2, O3, O4.
  apply wp_bind, (put_wp 2 _ data); [exact Hf |]. intros f1 Hf1.
  apply wp_bind. eapply WriteTimeOffset_wp; [exact Hf1 | now apply sint_48_64 |]. intros f2 Hf2.
  apply wp_bind. eapply put_wp; [exact Hf2 |]. intros f3 Hf3.
  set (data3 := ((data ++ _) ++ _) ++ _) in Hf3.
  assert (Hkids : wp (if negb (ZoneEvent.HasChildren e) then put 4 0;; mret (ZoneEvent.Start e)
      else children ← expect (zoneChildren w !! Z.to_nat (ZoneEvent.Child e));
        WriteTimeline fuel w (Vector.items children) (ZoneEvent.Start e))
    (fun r f' => r = last_end (ZoneEvent.Start e) ks /\
       sink (data3 ++ le_bytes 4 (Z.of_nat (length ks)) ++ level_bytes (ZoneEvent.Start e) ks) f') f3).
  { unfold children_of in Hc. destruct (ZoneEvent.HasChildren e); cbn [negb].
    - destruct Hc as (Hne & _ & v & Ev & Eiv). apply wp_bind. eapply wp_expect; [exact Ev |].
      rewrite Eiv. apply (IH kv ks); [exact Hks | exact Hlen | exact Hk | | exact Hf3].
      destruct Hk; [done |]. lia.
    - subst kv. inversion Hk. subst ks. apply wp_bind. eapply put_wp; [exact Hf3 |]. intros f4 Hf4. wp_steps.
      split; [done |]. cbn [level_bytes]. now rewrite app_nil_r. }
  apply wp_bind. eapply wp_mono; [exact Hkids |]. intros r f4 [-> Hf4].
  apply wp_bind. eapply WriteTimeOffset_wp; [exact Hf4 | now apply sint_48_64 |]. intros f5 Hf5.
  eapply wp_mono; [apply (IHz Hok ltac:(lia) (ZoneEvent.End_ e) f5 _ Hf5) |].
  intros r f6 [-> Hf6]. split; [done |].
  match type of Hf6 with sink ?x _ => replace (data ++ level_bytes _ _) with x; [exact Hf6 |] end.
  cbn [level_bytes]. rewrite zone_bytes_eq. unfold head_bytes, end_bytes, data3. cbn [zi zkids z_srcloc z_start z_end z_extra info_of].
  now rewrite <- !app_assoc.
Qed.
End WriteSpec.

(** ** Reading *)
Section ReadSpec.
Context `{ByteSourceOk F} `{Slab}.
Variable w : W.

(** The loader with this heap and these child lists. *)
Definition L (f : F) (h : list ZoneEvent.t) (ch : list (Vector.t nat)) : loader F :=
  mkLoader f (w <| zone_heap := h |> <| zoneChildren := ch |>).

Definition field_bytes (fields : list (nat * Z)) : list Z := concat (map (fun p => le_bytes (fst p) (snd p)) fields).
Definition sizes (fields : list (nat * Z)) : list Z := map (fun p => Z.of_nat (fst p)) fields.
Lemma length_field_bytes fields : Z.of_nat (length (field_bytes fields)) = foldr Z.add 0 (sizes fields).
Proof.
  induction fields as [| [n v] fs IH]; [done |]. unfold field_bytes, sizes in *. cbn. rewrite length_app, length_le_bytes. lia.
Qed.
Lemma split_fields fields :
  map le_val (split_at (sizes fields) (field_bytes fields)) = map (fun p => uint (8 * Z.of_nat (fst p)) (snd p)) fields.
Proof.
  induction fields as [| [n v] fs IH]; [done |]. unfold sizes, field_bytes in *. cbn [map concat split_at fst snd].
  rewrite Nat2Z.id, take_app_length', drop_app_length', IH, le_val_bytes by (now rewrite length_le_bytes). done.
Qed.

Lemma read_fields_wp fields rest f (l_w : W) (Q : list Z -> loader F -> Prop) :
  source (field_bytes fields ++ rest) f ->
  (forall f', source rest f' -> Q (map (fun p => uint (8 * Z.of_nat (fst p)) (snd p)) fields) (mkLoader f' l_w)) ->
  wp (read_n (sizes fields)) Q (mkLoader f l_w).
Proof.
  intros Hf HQ. unfold read_n. apply wp_bind. unfold on_file, wp. cbn [l_file].
  assert (Hg := get_spec (foldr Z.add 0 (sizes fields)) _ f Hf). rewrite <- length_field_bytes in Hg.
  specialize (Hg ltac:(rewrite length_app; lia)). rewrite Nat2Z.id, take_app_length, drop_app_length in Hg.
  rewrite <- length_field_bytes. unfold wp in Hg.
  destruct (get_bytes (Z.of_nat (length (field_bytes fields))) f) as [[x f'] |]; [| done].
  destruct Hg as [-> Hf']. cbn. rewrite split_fields. exact (HQ f' Hf').
Qed.
Lemma read_n_wp fields rest f h ch (Q : list Z -> loader F -> Prop) :
  source (field_bytes fields ++ rest) f ->
  (forall f', source rest f' -> Q (map (fun p => uint (8 * Z.of_nat (fst p)) (snd p)) fields) (L f' h ch)) ->
  wp (read_n (sizes fields)) Q (L f h ch).
Proof. apply read_fields_wp. Qed.
Lemma read1_wp n v rest f h ch (Q : Z -> loader F -> Prop) :
  source (le_bytes n v ++ rest) f -> (forall f', source rest f' -> Q (uint (8 * Z.of_nat n) v) (L f' h ch)) ->
  wp (read1 (Z.of_nat n)) Q (L f h ch).
Proof.
  intros Hf HQ. unfold read1. apply wp_bind. apply (read_n_wp [(n, v)] rest).
  - unfold field_bytes. cbn. now rewrite app_nil_r.
  - intros f' Hf'. now apply HQ.
Qed.

Lemma UpdZone_L a g e e' f h ch (Q : unit -> loader F -> Prop) :
  h !! a = Some e -> g e = Some e' -> Q tt (L f (<[a := e']> h) ch) -> wp (on_w (UpdZone a g)) Q (L f h ch).
Proof.
  intros Ee Eg HQ. unfold on_w, UpdZone, GetZone, wp, mbind, M_bind, gets, expect. cbn. rewrite Ee. cbn. rewrite Eg. exact HQ.
Qed.
Lemma children_L f h ch (Q : list (Vector.t nat) -> loader F -> Prop) :
  Q ch (L f h ch) -> wp (on_w (gets zoneChildren)) Q (L f h ch).
Proof. intros HQ. exact HQ. Qed.
Lemma reserve_L size f h ch (Q : list nat -> loader F -> Prop) :
  (let vec := seq (length h) (Z.to_nat size) in Q vec (L f (h ++ map junk vec) ch)) ->
  wp (on_w (reserve_zones size)) Q (L f h ch).
Proof. intros HQ. exact HQ. Qed.

(** What loading changes: the zones [U] and new ones, and the places from [lo] on. *)
Record ext (U : nat -> Prop) (lo hi : nat) (h : list ZoneEvent.t) (ch : list (Vector.t nat))
    (h' : list ZoneEvent.t) (ch' : list (Vector.t nat)) : Prop := {
  ex_grow : (length h <= length h')%nat;
  ex_size : length ch' = length ch;
  ex_zones : forall a, (a < length h)%nat -> ~ U a -> h' !! a = h !! a;
  ex_lists : forall c, ~ (lo <= c < hi)%nat -> ch' !! c = ch !! c }.
Lemma ext_trans U V l1 l2 l3 h1 c1 h2 c2 h3 c3 (T : nat -> Prop) :
  ext U l1 l2 h1 c1 h2 c2 -> ext V l2 l3 h2 c2 h3 c3 -> (l1 <= l2 <= l3)%nat ->
  (forall a, (a < length h1)%nat -> U a \/ V a -> T a) -> ext T l1 l3 h1 c1 h3 c3.
Proof.
  intros [A1 A2 A3 A4] [B1 B2 B3 B4] Hl HT. split; [lia | lia | |].
  - intros a Ha Hn. rewrite B3, A3; auto; lia || (intros Hu; apply Hn, HT; auto).
  - intros c Hc. rewrite B4, A4 by lia. done.
Qed.

(** The places from [idx] on have not been used. *)
Definition free (idx : nat) (ch : list (Vector.t nat)) : Prop :=
  forall c v, (idx <= c)%nat -> ch !! c = Some v -> Vector.m_ptr v = false.
Lemma free_ext U lo hi h ch h' ch' : ext U lo hi h ch h' ch' -> (lo <= hi)%nat -> free lo ch -> free hi ch'.
Proof.
  intros [_ _ _ He] Hl Hf c v Hc Ec. rewrite He in Ec by lia. apply (Hf c); [lia | exact Ec].
Qed.

(** What a function that loads the levels below promises; [bound] limits their depth. *)
Definition loads (rec : list nat -> Z -> Z -> M (loader F) (Z * Z)) (bound : nat) : Prop :=
  forall zs vec refTime idx f h ch rest (Q : Z * Z -> loader F -> Prop),
    Forall zone_ok zs -> zs <> [] -> length vec = length zs -> NoDup vec ->
    (forall a, a ∈ vec -> exists e, h !! a = Some e /\ ZoneEvent.ok e) ->
    free idx ch -> (idx + lists_of zs <= length ch)%nat -> Z.of_nat (length ch) < 2 ^ 31 ->
    (lists_of zs < bound)%nat -> source (level_bytes refTime zs ++ rest) f ->
    (forall f' h' ch', source rest f' -> ext (fun a => a ∈ vec) idx (idx + lists_of zs) h ch h' ch' ->
       Forall2 (saved (fun a => a ∈ vec \/ length h <= a < length h')%nat
         (fun c => idx <= c < idx + lists_of zs)%nat h' ch') zs vec ->
       Q (last_end refTime zs, Z.of_nat (idx + lists_of zs)) (L f' h' ch')) ->
    wp (rec vec refTime (Z.of_nat idx)) Q (L f h ch).

Definition header (refTime : Z) (z : zone) : zone_header :=
  mkHeader (z_srcloc (zi z)) (sint 64 (z_start (zi z) - refTime)) (z_extra (zi z)) (Z.of_nat (length (zkids z))).

(** The zone [e] at [a], its children loaded, its end still to come. *)
Record opened_zone (z : zone) (a : nat) (lo hi : nat) (h : list ZoneEvent.t) (h' : list ZoneEvent.t)
    (ch' : list (Vector.t nat)) (e : ZoneEvent.t) (vec : list nat) : Prop := {
  oz_at : h' !! a = Some e;
  oz_ok : ZoneEvent.ok e;
  oz_srcloc : ZoneEvent.SrcLoc e = z_srcloc (zi z);
  oz_start : ZoneEvent.Start e = z_start (zi z);
  oz_extra : ZoneEvent.extra e = z_extra (zi z);
  oz_kids : children_of (fun c => lo <= c < hi)%nat ch' e vec;
  oz_saved : Forall2 (saved (fun b => length h <= b < length h')%nat (fun c => lo <= c < hi)%nat h' ch') (zkids z) vec }.

Lemma header_zone (z : zone) (a : nat) e0 refTime (h : list ZoneEvent.t) :
  zone_ok z -> h !! a = Some e0 -> ZoneEvent.ok e0 -> exists e1,
    ZoneEvent.SetStartSrcLoc (sint 64 (refTime + h_start (header refTime z))) (h_srcloc (header refTime z)) e0 = Some e1 /\
    sint 64 (refTime + h_start (header refTime z)) = z_start (zi z) /\
    let e := e1 <| ZoneEvent.extra := z_extra (zi z) |> in
    ZoneEvent.ok e /\ ZoneEvent.SrcLoc e = z_srcloc (zi z) /\ ZoneEvent.Start e = z_start (zi z).
Proof.
  destruct z as [i ks]. intros ((O1 & O2 & _) & _)%zone_ok_Zone _ He. cbn in O1, O2. cbn.
  rewrite sint_add_delta, (sint_small 64) by (lia || now apply sint_48_64).
  destruct (ZoneEvent.SetStartSrcLoc (z_start i) (z_srcloc i) e0) as [e1 |] eqn:E.
  - exists e1. destruct (zone_SetStartSrcLoc e0 _ He _ _ E) as (K1 & K2 & K3 & _). split_and!; try done.
    + change (ZoneEvent.SrcLoc e1 = z_srcloc i). rewrite K3. now apply sint_small.
    + change (ZoneEvent.Start e1 = z_start i). rewrite K2. now apply sint_small.
  - exfalso. unfold ZoneEvent.SetStartSrcLoc, assert47 in E.
    destruct (Z.ltb_spec (z_start i) (2 ^ 47)) as [|]; [done |]. unfold in_sint in O2. lia.
Qed.

Lemma junk_at vec n a : a ∈ seq n (Z.to_nat vec) -> forall h : list ZoneEvent.t, length h = n ->
  exists e, (h ++ map junk (seq n (Z.to_nat vec))) !! a = Some e /\ ZoneEvent.ok e.
Proof.
  intros Ha%elem_of_seq h Hh. exists (junk a). split; [| apply junk_ok].
  rewrite lookup_app_r by lia. change (map junk) with (fmap (M := list) junk). rewrite list_lookup_fmap, lookup_seq_lt by lia.
  cbn. do 2 f_equal. lia.
Qed.

(** A zone whose members are there gets its children. *)
Lemma have_size_wp rec bound z a e refTime idx f h ch rest (Q : Z * Z -> loader F -> Prop) :
  loads rec bound -> zone_ok z -> h !! a = Some e -> ZoneEvent.ok e ->
  ZoneEvent.SrcLoc e = z_srcloc (zi z) -> ZoneEvent.Start e = z_start (zi z) -> ZoneEvent.extra e = z_extra (zi z) ->
  free idx ch -> (idx + lists z <= length ch)%nat -> Z.of_nat (length ch) < 2 ^ 31 -> (lists z < S bound)%nat ->
  source (level_bytes refTime (zkids z) ++ rest) f ->
  (forall f' h' ch' e vec, source rest f' -> ext (fun b => b = a) idx (idx + lists z) h ch h' ch' ->
     opened_zone z a idx (idx + lists z) h h' ch' e vec ->
     Q (last_end refTime (zkids z), Z.of_nat (idx + lists z)) (L f' h' ch')) ->
  wp (ReadTimelineHaveSize rec a refTime (Z.of_nat idx) (Z.of_nat (length (zkids z)))) Q (L f h ch).
Proof.
  intros Hrec Hz Ee He S1 S2 S3 Hfree Hidx Hch Hb Hf HQ. destruct z as [i ks]. cbn [zi zkids] in *.
  apply zone_ok_Zone in Hz as (_ & Hlen & Hks). assert (Ha : (a < length h)%nat) by (apply lookup_lt_Some in Ee; done).
  rewrite lists_Zone in Hidx, Hb. unfold ReadTimelineHaveSize. destruct ks as [| k0 ks0].
  - cbn [length Z.of_nat]. rewrite Z.eqb_refl. apply wp_bind.
    eapply UpdZone_L; [exact Ee | reflexivity |]. wp_steps. destruct (zone_SetChild e (-1) He) as (K1 & K2 & K3 & K4 & K5).
    replace idx with (idx + lists (Zone i []))%nat at 1 by (cbn; lia).
    apply (HQ f _ ch (ZoneEvent.SetChild (-1) e) []); [exact Hf | |].
    + split; [now rewrite length_insert | done | | done].
      intros b Hb' Hne. rewrite list_lookup_insert_ne; [done | congruence].
    + split; cbn [zi]; try congruence.
      * now apply list_lookup_insert_eq.
      * exact S3.
      * unfold children_of. now rewrite ZoneEvent.HasChildren_Child, K2.
      * constructor.
  - set (ks := k0 :: ks0) in *. rewrite (proj2 (Z.eqb_neq _ _)) by (cbn; lia).
    apply wp_bind. eapply UpdZone_L; [exact Ee | reflexivity |]. set (e1 := ZoneEvent.SetChild (Z.of_nat idx) e).
    destruct (zone_SetChild e (Z.of_nat idx) He) as (K1 & K2 & K3 & K4 & K5). fold e1 in K1, K2, K3, K4, K5.
    rewrite sint_small in K2 by (unfold in_sint; lia).
    apply wp_bind, reserve_L. cbv zeta. rewrite length_insert, Nat2Z.id. set (vec := seq (length h) (length ks)).
    destruct (lookup_lt_is_Some_2 ch idx) as [old Eo]; [cbn in Hidx; lia |].
    set (h1 := <[a := e1]> h ++ map junk vec). apply wp_bind, children_L. apply wp_bind.
    eapply wp_expect; [rewrite Nat2Z.id; exact Eo |]. apply wp_bind.
    eapply wp_expect; [unfold Vector.reserve_exact; rewrite (Hfree idx old (Nat.le_refl _) Eo); reflexivity |].
    set (v := Vector.mk vec true Vector.MaxCapacity (Vector.live old)). apply wp_bind.
    change (wp (rec vec refTime (sint 32 (Z.of_nat idx + 1))) Q (L f h1 (<[Z.to_nat (Z.of_nat idx) := v]> ch))).
    rewrite Nat2Z.id, sint_small by (lia || (unfold in_sint; cbn in Hidx; lia)).
    replace (Z.of_nat idx + 1) with (Z.of_nat (S idx)) by lia.
    assert (Hl1 : length h1 = (length h + length ks)%nat).
    { unfold h1. rewrite length_app, length_insert, length_map. unfold vec. now rewrite length_seq. }
    assert (He1 : h1 !! a = Some e1) by (unfold h1; rewrite lookup_app_l by (rewrite length_insert; lia); now apply list_lookup_insert_eq).
    assert (Hx1 : ext (fun b => b = a) idx (S idx) h ch h1 (<[idx := v]> ch)).
    { split; [lia | now rewrite length_insert | |].
      - intros b Hb' Hne. unfold h1. rewrite lookup_app_l by (rewrite length_insert; lia).
        rewrite list_lookup_insert_ne; [done | congruence].
      - intros c Hc. rewrite list_lookup_insert_ne; [done | lia]. }
    apply (Hrec ks vec refTime (S idx) f h1 _ rest); [exact Hks | done | unfold vec; apply length_seq | apply NoDup_seq | | | | | | exact Hf |].
    + intros b Hb'. unfold h1, vec in *. rewrite <- (Nat2Z.id (length ks)) in Hb' at 1 |- *.
      eapply junk_at; [exact Hb' | now rewrite length_insert].
    + eapply free_ext; [exact Hx1 | lia | exact Hfree].
    + rewrite length_insert. lia.
    + rewrite length_insert. lia.
    + lia.
    + intros f' h' ch' Hf' Hx Hs. replace (S idx + lists_of ks)%nat with (idx + lists (Zone i ks))%nat in *
        by (rewrite lists_Zone; unfold ks; lia).
      assert (Hav : ~ a ∈ vec) by (unfold vec; rewrite elem_of_seq; lia).
      assert (Ea' : h' !! a = Some e1) by (rewrite (ex_zones _ _ _ _ _ _ _ Hx); [exact He1 | lia | exact Hav]).
      apply (HQ f' h' ch' e1 vec); [exact Hf' | |].
      * eapply (ext_trans _ _ _ _ _ _ _ _ _ _ _ _ Hx1 Hx); [rewrite lists_Zone; unfold ks; lia |].
        intros b Hb' [-> | Hv]; [done |]. unfold vec in Hv. apply elem_of_seq in Hv. lia.
      * split; cbn [zi zkids]; try congruence.
        -- exact S3.
        -- unfold children_of. rewrite ZoneEvent.HasChildren_Child, K2 by exact K1.
           rewrite (proj2 (Z.leb_le 0 (Z.of_nat idx))), Nat2Z.id by lia. split; [done |].
           split; [rewrite lists_Zone; unfold ks; lia |]. exists v. split; [| done].
           rewrite (ex_lists _ _ _ _ _ _ _ Hx) by lia. apply list_lookup_insert_eq. cbn in Hidx. lia.
        -- eapply Forall2_impl; [exact Hs |]. intros k b. apply saved_frame.
           ++ intros b' [Hv | Hv]; (split; [| done]); [| lia].
              pose proof (ex_grow _ _ _ _ _ _ _ Hx). unfold vec in Hv. apply elem_of_seq in Hv. lia.
           ++ intros c Hc. split; [lia | done].
Qed.

Lemma open_zone_wp rec bound z a e0 refTime idx f h ch rest (Q : Z * Z -> loader F -> Prop) :
  loads rec bound -> zone_ok z -> h !! a = Some e0 -> ZoneEvent.ok e0 ->
  free idx ch -> (idx + lists z <= length ch)%nat -> Z.of_nat (length ch) < 2 ^ 31 -> (lists z < S bound)%nat ->
  source (level_bytes (z_start (zi z)) (zkids z) ++ rest) f ->
  (forall f' h' ch' e vec, source rest f' -> ext (fun b => b = a) idx (idx + lists z) h ch h' ch' ->
     opened_zone z a idx (idx + lists z) h h' ch' e vec ->
     Q (last_end (z_start (zi z)) (zkids z), Z.of_nat (idx + lists z)) (L f' h' ch')) ->
  wp (open_zone rec a (header refTime z) refTime (Z.of_nat idx)) Q (L f h ch).
Proof.
  intros Hrec Hz Ee He Hfree Hidx Hch Hb Hf HQ. assert (Ha : (a < length h)%nat) by (apply lookup_lt_Some in Ee; done).
  destruct (header_zone z a e0 refTime h Hz Ee He) as (e1 & E1 & Er & K). cbv zeta in K. destruct K as (K1 & K2 & K3).
  unfold open_zone. rewrite Er. apply wp_bind. eapply UpdZone_L; [exact Ee | rewrite <- Er; exact E1 |].
  apply wp_bind. eapply UpdZone_L; [now apply list_lookup_insert_eq | reflexivity |].
  rewrite list_insert_insert_eq. set (e2 := e1 <| ZoneEvent.extra := _ |>).
  assert (Hx : ext (fun b => b = a) idx idx h ch (<[a := e2]> h) ch).
  { split; [now rewrite length_insert | done | | done]. intros b _ Hne. rewrite list_lookup_insert_ne; [done | congruence]. }
  apply (have_size_wp rec bound z a e2 _ _ _ _ _ rest); try done; [now apply list_lookup_insert_eq |].
  intros f' h' ch' e vec Hf' Hx' [A1 A2 A3 A4 A5 A6 A7]. rewrite length_insert in A7. apply (HQ f' h' ch' e vec Hf'); [| now split].
  eapply (ext_trans _ _ _ _ _ _ _ _ _ _ _ _ Hx Hx'); [lia | tauto].
Qed.

Lemma close_zone z a lo hi h h' ch' e vec :
  opened_zone z a lo hi h h' ch' e vec -> (a < length h)%nat -> (length h <= length h')%nat -> zone_ok z ->
  exists e', ZoneEvent.SetEnd (z_end (zi z)) e = Some e' /\
    saved (fun b => b = a \/ length h <= b < length h')%nat (fun c => lo <= c < hi)%nat (<[a := e']> h') ch' z a.
Proof.
  intros [A1 A2 A3 A4 A5 A6 A7] Ha Hl Hz. destruct z as [i ks]. cbn [zi zkids] in *.
  apply zone_ok_Zone in Hz as ((O1 & O2 & O3 & O4) & _).
  destruct (ZoneEvent.SetEnd (z_end i) e) as [e' |] eqn:E.
  2: { exfalso. unfold ZoneEvent.SetEnd, assert47 in E. destruct (Z.ltb_spec (z_end i) (2 ^ 47)); [done |].
       unfold in_sint in O3. lia. }
  destruct (zone_SetEnd e _ A2 _ E) as (K1 & K2 & K3 & K4 & K5). exists e'. split; [done |].
  apply saved_Zone. split; [now left |]. exists e', vec.
  rewrite list_lookup_insert_eq by lia. split_and!; try done.
  - unfold info_of. rewrite K2, K3, K4, A3, A4, sint_small by (lia || done).
    apply assert47_some in E as [-> _]. cbn. rewrite A5. now destruct i.
  - unfold children_of in *. rewrite ZoneEvent.HasChildren_Child, K5 by done.
    now rewrite ZoneEvent.HasChildren_Child in A6 by done.
  - eapply Forall2_impl; [exact A7 |]. intros k b. apply saved_frame; [| done].
    intros b' Hb'. split; [now right |]. rewrite list_lookup_insert_ne; [done | lia].
Qed.

(** The end of a zone, as it is read back. *)
Lemma end_time z : zone_ok z ->
  sint 64 (last_end (z_start (zi z)) (zkids z) + sint 64 (uint (8 * Z.of_nat 8)
    (sint 64 (z_end (zi z) - last_end (z_start (zi z)) (zkids z))))) = z_end (zi z).
Proof.
  destruct z as [i ks]. intros ((_ & _ & O3 & _) & _)%zone_ok_Zone. change (8 * Z.of_nat 8) with 64.
  rewrite sint_uint, sint_sint, sint_add_delta by lia. apply sint_small; [lia | now apply sint_48_64].
Qed.
Definition head_fields (refTime : Z) (z : zone) : list (nat * Z) :=
  [(2%nat, z_srcloc (zi z)); (8%nat, sint 64 (z_start (zi z) - refTime)); (4%nat, z_extra (zi z));
   (4%nat, Z.of_nat (length (zkids z)))].
Lemma head_fields_bytes refTime z : head_bytes refTime z = field_bytes (head_fields refTime z).
Proof. unfold head_bytes, field_bytes, head_fields. cbn [map concat fst snd]. now rewrite app_nil_r. Qed.
Lemma header_of_fields refTime z : zone_ok z ->
  header_of (map (fun p => uint (8 * Z.of_nat (fst p)) (snd p)) (head_fields refTime z)) = Some (header refTime z).
Proof.
  destruct z as [i ks]. intros ((O1 & _ & _ & O4) & Hl & _)%zone_ok_Zone. cbn [head_fields map fst snd zi zkids header_of].
  change (8 * Z.of_nat 2) with 16. change (8 * Z.of_nat 8) with 64. change (8 * Z.of_nat 4) with 32.
  rewrite !sint_uint, sint_sint, (sint_small 16), !(uint_small 32) by (lia || done || (red; lia)). done.
Qed.

Lemma read_zones_wp rec bound zs z a vec refTime idx f h ch rest (Q : Z * Z -> loader F -> Prop) :
  loads rec bound -> Forall zone_ok (z :: zs) -> length vec = length zs -> NoDup (a :: vec) ->
  (forall b, b ∈ a :: vec -> exists e, h !! b = Some e /\ ZoneEvent.ok e) ->
  free idx ch -> (idx + lists_of (z :: zs) <= length ch)%nat -> Z.of_nat (length ch) < 2 ^ 31 ->
  (lists_of (z :: zs) < S bound)%nat ->
  source (level_bytes (z_start (zi z)) (zkids z) ++ end_bytes z ++ level_bytes (z_end (zi z)) zs ++ rest) f ->
  (forall f' h' ch', source rest f' -> ext (fun b => b ∈ a :: vec) idx (idx + lists_of (z :: zs)) h ch h' ch' ->
     Forall2 (saved (fun b => b ∈ a :: vec \/ length h <= b < length h')%nat
       (fun c => idx <= c < idx + lists_of (z :: zs))%nat h' ch') (z :: zs) (a :: vec) ->
     Q (last_end refTime (z :: zs), Z.of_nat (idx + lists_of (z :: zs))) (L f' h' ch')) ->
  wp (read_zones rec (a :: vec) (header refTime z) refTime (Z.of_nat idx)) Q (L f h ch).
Proof.
  intros Hrec. revert z a vec refTime idx f h ch Q.
  induction zs as [| z' zs IH]; intros z a vec refTime idx f h ch Q Hok Hlen Hnd Hat Hfree Hidx Hch Hb Hf HQ;
    apply Forall_cons in Hok as [Hz Hok]; destruct (Hat a ltac:(left)) as (e0 & Ee0 & He0);
    assert (Ha : (a < length h)%nat) by (apply lookup_lt_Some in Ee0; done); rewrite lists_cons in Hidx, Hb, HQ.
  - destruct vec; [| done]. change (lists_of []) with 0%nat in *. rewrite Nat.add_0_r in *. cbn [read_zones].
    apply wp_bind. eapply (open_zone_wp rec bound z a e0); try done.
    intros f1 h1 ch1 e kv Hf1 Hx Ho. destruct (close_zone z a _ _ _ _ _ _ _ Ho Ha (ex_grow _ _ _ _ _ _ _ Hx) Hz) as (e' & Ee' & Hs).
    apply wp_bind. eapply (read1_wp 8); [exact Hf1 |]. intros f2 Hf2. cbn [fst snd]. rewrite (end_time z Hz).
    apply wp_bind. eapply UpdZone_L; [exact (oz_at _ _ _ _ _ _ _ _ _ Ho) | exact Ee' |]. wp_steps.
    apply (HQ f2 _ ch1); [exact Hf2 | |].
    + assert (Hlast : ext (fun b => b = a) (idx + lists z) (idx + lists z) h1 ch1 (<[a := e']> h1) ch1).
      { split; [now rewrite length_insert | done | | done]. intros b _ Hne. rewrite list_lookup_insert_ne; [done | congruence]. }
      eapply (ext_trans _ _ _ _ _ _ _ _ _ _ _ _ Hx Hlast); [lia |]. intros b _ [-> | ->]; left.
    + constructor; [| constructor]. eapply saved_frame; [| | exact Hs]; [| done].
      intros b Hb'. rewrite length_insert. split; [| done]. destruct Hb' as [-> | Hb']; [left; left | now right].
  - destruct vec as [| a' vec]; [done |]. cbn [length] in Hlen. injection Hlen as Hlen.
    apply NoDup_cons in Hnd as [Hna Hnd]. cbn [read_zones]. rewrite lists_cons in *.
    apply wp_bind. eapply (open_zone_wp rec bound z a e0); try done; try lia.
    intros f1 h1 ch1 e kv Hf1 Hx Ho. destruct (close_zone z a _ _ _ _ _ _ _ Ho Ha (ex_grow _ _ _ _ _ _ _ Hx) Hz) as (e' & Ee' & Hs).
    apply Forall_cons in Hok as Hok'. destruct Hok' as [Hz' _].
    set (fields := (8%nat, sint 64 (z_end (zi z) - last_end (z_start (zi z)) (zkids z))) :: head_fields (z_end (zi z)) z').
    assert (Eb : end_bytes z ++ level_bytes (z_end (zi z)) (z' :: zs) ++ rest =
      field_bytes fields ++ level_bytes (z_start (zi z')) (zkids z') ++ end_bytes z' ++ level_bytes (z_end (zi z')) zs ++ rest).
    { cbn [level_bytes]. rewrite zone_bytes_eq, head_fields_bytes. unfold fields, field_bytes at 2, end_bytes.
      cbn [map concat fst snd]. rewrite <- !app_assoc. reflexivity. }
    rewrite Eb in Hf1. apply wp_bind, (read_n_wp fields _ _ _ _ _ Hf1). intros f2 Hf2.
    apply wp_bind. eapply wp_expect; [reflexivity |]. apply wp_bind. eapply wp_expect; [exact (header_of_fields _ z' Hz') |].
    cbn [fst snd]. rewrite (end_time z Hz).
    apply wp_bind. eapply UpdZone_L; [exact (oz_at _ _ _ _ _ _ _ _ _ Ho) | exact Ee' |].
    set (h2 := <[a := e']> h1) in *. assert (Hl2 : length h2 = length h1) by apply length_insert.
    assert (Hx2 : ext (fun b => b = a) idx (idx + lists z) h ch h2 ch1).
    { assert (Hlast : ext (fun b => b = a) (idx + lists z) (idx + lists z) h1 ch1 h2 ch1).
      { split; [lia | done | | done]. intros b _ Hne. unfold h2. rewrite list_lookup_insert_ne; [done | congruence]. }
      eapply (ext_trans _ _ _ _ _ _ _ _ _ _ _ _ Hx Hlast); [lia |]. intros b _ [-> | ->]; done. }
    assert (Hsz := ex_size _ _ _ _ _ _ _ Hx). assert (Hgr := ex_grow _ _ _ _ _ _ _ Hx).
    assert (Hvec : forall b, b ∈ a' :: vec -> (b < length h)%nat /\ b <> a /\ exists e, h2 !! b = Some e /\ ZoneEvent.ok e).
    { intros b Hb'. destruct (Hat b) as (eb & Eeb & Hokb); [now right |]. apply lookup_lt_Some in Eeb as Hbl.
      assert (b <> a) by (intros ->; done). split; [done |]. split; [done |]. exists eb.
      rewrite (ex_zones _ _ _ _ _ _ _ Hx2) by done. done. }
    apply (IH z' a' vec _ _ _ _ _ _ Hok Hlen Hnd); try (rewrite lists_cons); try lia.
    + intros b Hb'. now destruct (Hvec b Hb') as (_ & _ & He).
    + eapply free_ext; [exact Hx2 | lia | exact Hfree].
    + exact Hf2.
    + intros f3 h3 ch3 Hf3 Hx3 Hs3. rewrite <- Nat.add_assoc in *. apply (HQ f3 h3 ch3 Hf3).
      * eapply (ext_trans _ _ _ _ _ _ _ _ _ _ _ _ Hx2 Hx3); [lia |]. intros b _ [-> | Hb']; [left | now right].
      * assert (Hgr3 := ex_grow _ _ _ _ _ _ _ Hx3). constructor.
        -- eapply saved_frame; [| | exact Hs].
           ++ intros b Hb'. assert (Hnv : (b ∉ a' :: vec) /\ (b < length h2)%nat).
              { destruct Hb' as [-> | Hb']; [split; [done | lia] |]. split; [| lia].
                intros Hv. destruct (Hvec b Hv) as [Hlt _]. lia. }
              split; [destruct Hb' as [-> | Hb']; [left; left | right; lia] |].
              now apply (ex_zones _ _ _ _ _ _ _ Hx3).
           ++ intros c Hc. cbv beta in *. split; [lia |]. apply (ex_lists _ _ _ _ _ _ _ Hx3). lia.
        -- eapply Forall2_impl; [exact Hs3 |]. intros k b. apply saved_frame.
           ++ intros b' [Hv | Hv]; (split; [| done]); [left; now right | right; lia].
           ++ intros c Hc. split; [lia | done].
Qed.

Lemma ReadTimeline_loads fuel : loads (ReadTimeline fuel) fuel.
Proof.
  induction fuel as [| fuel IH]; intros zs vec refTime idx f h ch rest Q Hok Hne Hlen Hnd Hat Hfree Hidx Hch Hb Hf HQ; [lia |].
  cbn [ReadTimeline]. destruct zs as [| z zs]; [done |]. destruct vec as [| a vec]; [done |].
  apply Forall_cons in Hok as Hok'. destruct Hok' as [Hz _].
  apply wp_bind, wp_assert; [done |].
  assert (Eb : level_bytes refTime (z :: zs) ++ rest = field_bytes (head_fields refTime z) ++
    level_bytes (z_start (zi z)) (zkids z) ++ end_bytes z ++ level_bytes (z_end (zi z)) zs ++ rest).
  { cbn [level_bytes]. now rewrite zone_bytes_eq, head_fields_bytes, <- !app_assoc. }
  rewrite Eb in Hf. apply wp_bind, (read_n_wp (head_fields refTime z) _ _ _ _ _ Hf). intros f1 Hf1.
  apply wp_bind. eapply wp_expect; [exact (header_of_fields _ z Hz) |].
  injection Hlen as Hlen. now apply (read_zones_wp (ReadTimeline fuel) fuel zs z a vec refTime idx f1 h ch rest).
Qed.

(** The timeline of a thread, into the free places from [idx] on. *)
Lemma ReadThreadTimeline_wp zs idx f h ch rest (Q : list nat * Z -> loader F -> Prop) :
  Forall zone_ok zs -> Z.of_nat (length zs) < 2 ^ 32 -> free idx ch ->
  (idx + lists_of zs <= length ch)%nat -> Z.of_nat (length ch) < 2 ^ 31 ->
  source (le_bytes 4 (Z.of_nat (length zs)) ++ level_bytes 0 zs ++ rest) f ->
  (forall vec f' h' ch', source rest f' -> Forall2 (in_trace (l_w (L f' h' ch'))) zs vec ->
     ext (fun _ => False) idx (idx + lists_of zs) h ch h' ch' ->
     Q (vec, Z.of_nat (idx + lists_of zs)) (L f' h' ch')) ->
  wp (ReadThreadTimeline (Z.of_nat idx)) Q (L f h ch).
Proof.
  intros Hok Hlen Hfree Hidx Hch Hf HQ. unfold ReadThreadTimeline.
  apply wp_bind, (read1_wp 4 _ _ _ _ _ _ Hf). intros f1 Hf1. change (8 * Z.of_nat 4) with 32.
  rewrite uint_small by (red; lia). destruct zs as [| z zs].
  - cbn [length Z.of_nat]. rewrite Z.eqb_refl. wp_steps. change (lists_of []) with 0%nat in *.
    rewrite Nat.add_0_r in *. apply HQ; [exact Hf1 | constructor |]. split; try done.
  - rewrite (proj2 (Z.eqb_neq _ _)) by (cbn; lia). apply wp_bind, reserve_L. cbv zeta. rewrite Nat2Z.id.
    set (vec := seq (length h) (length (z :: zs))). apply wp_bind, children_L. apply wp_bind.
    apply (ReadTimeline_loads (S (length ch)) (z :: zs) vec 0 idx f1 _ ch rest); try done.
    + unfold vec. apply length_seq.
    + apply NoDup_seq.
    + intros a Ha. unfold vec in *. rewrite <- (Nat2Z.id (length (z :: zs))) in Ha at 1 |- *.
      eapply junk_at; [exact Ha | done].
    + lia.
    + intros f2 h2 ch2 Hf2 Hx Hs. wp_steps. apply HQ; [exact Hf2 | |].
      * eapply Forall2_impl; [exact Hs |]. intros k a. apply saved_frame; done.
      * destruct Hx as [X1 X2 X3 X4]. rewrite length_app in X1. split; [lia | done | | done].
        intros a Ha _. rewrite X3, lookup_app_l; [done | done | rewrite length_app; lia |].
        unfold vec. rewrite elem_of_seq. lia.
Qed.
End ReadSpec.

(** ** Through a file *)
Section Files.
Context `{CodecOk} `{Slab}.

Section Sink.
Variables (sched : nat -> list nat) (comp : FileCompression) (level : Z) (n : nat).
#[local] Instance FileWrite_sink : ByteSink FileWrite := Write sched.
#[local] Program Instance FileWrite_sink_ok (Hn : (0 < n < 256)%nat) : ByteSinkOk FileWrite :=
  {| sink := holds comp level n |}.
Next Obligation. intros Hn data x f Hf. now apply Write_wp. Qed.

(** A trace file with the timeline of one thread. *)
Definition save_timeline (fuel : nat) (w : W) (vec : list nat) : option (list Z) :=
  f ← new_FileWrite comp level (Z.of_nat n);
  r ← (WriteTimeline fuel w vec 0;; Finish sched) f;
  Some (w_file (snd r)).

Lemma save_timeline_image fuel w vec zs :
  (0 < n < 256)%nat -> Forall zone_ok zs -> Z.of_nat (length zs) < 2 ^ 32 -> Forall2 (in_trace w) zs vec ->
  (lists_of zs < fuel)%nat -> exists bs, save_timeline fuel w vec = Some (image comp level n bs (length bs)) /\
    chunked bs (le_bytes 4 (Z.of_nat (length zs)) ++ level_bytes 0 zs).
Proof.
  intros Hn Hok Hlen Hz Hfuel. destruct (new_FileWrite_holds comp level n Hn) as (f & E & Hf).
  unfold save_timeline. rewrite E. cbn [mbind option_bind].
  assert (Hw : wp (WriteTimeline fuel w vec 0;; Finish sched) (fun _ f' => exists bs,
    chunked bs (le_bytes 4 (Z.of_nat (length zs)) ++ level_bytes 0 zs) /\ w_file f' = image comp level n bs (length bs)) f).
  { apply wp_bind. pose (ok := FileWrite_sink_ok Hn).
    eapply wp_mono; [exact (WriteTimeline_wp fuel w vec zs 0 [] f Hok Hlen Hz Hfuel Hf) |].
    intros r f1 [_ Hf1]. now apply Finish_wp. }
  unfold wp in Hw. destruct ((WriteTimeline fuel w vec 0;; Finish sched) f) as [[[] f'] |]; [| done].
  destruct Hw as (bs & Hch & Ef). exists bs. cbn. rewrite Ef. done.
Qed.
End Sink.

Section Source.
Variable sched : nat -> list nat.
#[local] Instance FileRead_source : ByteSource FileRead := Read sched.
Section Ok.
Context (comp : FileCompression) (level : Z) (n : nat) (Hn : (0 < n < 256)%nat) (bs : list (list Z)) (data : list Z).
Context (Hch : chunked bs data) (Hne : bs <> []).
#[local] Program Instance FileRead_source_ok : ByteSourceOk FileRead := {| source := reads comp level n bs |}.
Next Obligation. intros size rest f Hf Hs. now apply (Read_wp sched comp level n Hn bs data Hch Hne). Qed.
End Ok.

(** The timeline of one thread, from the beginning of a trace file. *)
Definition load_timeline (file : list Z) (w : W) : option (list nat * Z * W) :=
  o ← new_FileRead sched file;
  match o with
  | NotTracyDump => None
  | Opened r => p ← ReadThreadTimeline 0 (mkLoader r w); Some (fst p, l_w (snd p))
  end.

Lemma load_timeline_image comp level n bs zs w :
  (0 < n < 256)%nat -> chunked bs (le_bytes 4 (Z.of_nat (length zs)) ++ level_bytes 0 zs) ->
  Forall zone_ok zs -> Z.of_nat (length zs) < 2 ^ 32 -> free 0 (zoneChildren w) ->
  (lists_of zs <= length (zoneChildren w))%nat -> Z.of_nat (length (zoneChildren w)) < 2 ^ 31 ->
  exists vec w', load_timeline (image comp level n bs (length bs)) w = Some (vec, Z.of_nat (lists_of zs), w') /\
    Forall2 (in_trace w') zs vec /\
    ext (fun _ => False) 0 (lists_of zs) (zone_heap w) (zoneChildren w) (zone_heap w') (zoneChildren w').
Proof.
  intros Hn Hch Hok Hlen Hfree Hidx Hsz. assert (Hne : bs <> []).
  { intros ->. destruct Hch as [E _]. discriminate. }
  destruct (new_FileRead_opens sched comp level n Hn bs _ Hch Hne) as (r & E & Hr).
  unfold load_timeline. rewrite E. cbn [mbind option_bind].
  pose (ok := FileRead_source_ok comp level n Hn bs _ Hch Hne).
  assert (Hw : wp (ReadThreadTimeline 0) (fun p l => snd p = Z.of_nat (lists_of zs) /\ Forall2 (in_trace (l_w l)) zs (fst p) /\
      ext (fun _ => False) 0 (lists_of zs) (zone_heap w) (zoneChildren w) (zone_heap (l_w l)) (zoneChildren (l_w l)))
    (mkLoader r w)).
  { replace (mkLoader r w) with (L w r (zone_heap w) (zoneChildren w)) by (now destruct w).
    apply (ReadThreadTimeline_wp w zs 0 r _ _ []); try done. now rewrite app_nil_r. }
  unfold wp in Hw. destruct (ReadThreadTimeline 0 (mkLoader r w)) as [[[vec i] l] |]; [| done].
  cbn in Hw. destruct Hw as (-> & Hs & Hx). exists vec, (l_w l). done.
Qed.
End Source.
End Files.

(** C26: the timeline of a thread, zones within zones, survives a trace file: what is
    loaded into another trace is the same call tree, with the times, source locations
    and extras of all zones, next to the zones that were there. *)
Theorem timeline_roundtrip `{CodecOk} `{Slab} (write_sched read_sched : nat -> list nat) (comp : FileCompression)
    (level : Z) (n fuel : nat) (w w0 : W) (vec : list nat) (zs : list zone) :
  (0 < n < 256)%nat -> Forall zone_ok zs -> Z.of_nat (length zs) < 2 ^ 32 ->
  Forall2 (in_trace w) zs vec -> (lists_of zs < fuel)%nat ->
  free 0 (zoneChildren w0) -> (lists_of zs <= length (zoneChildren w0))%nat ->
  Z.of_nat (length (zoneChildren w0)) < 2 ^ 31 ->
  exists file vec' w', save_timeline write_sched comp level n fuel w vec = Some file /\
    load_timeline read_sched file w0 = Some (vec', Z.of_nat (lists_of zs), w') /\ Forall2 (in_trace w') zs vec' /\
    forall a, (a < length (zone_heap w0))%nat -> zone_heap w' !! a = zone_heap w0 !! a.
Proof.
  intros Hn Hok Hlen Hz Hfuel Hfree Hidx Hsz.
  destruct (save_timeline_image write_sched comp level n fuel w vec zs Hn Hok Hlen Hz Hfuel) as (bs & E & Hch).
  destruct (load_timeline_image read_sched comp level n bs zs w0 Hn Hch Hok Hlen Hfree Hidx Hsz) as (vec' & w' & E' & Hs & Hx).
  exists (image comp level n bs (length bs)), vec', w'. split_and!; try done.
  intros a Ha. now apply (ex_zones _ _ _ _ _ _ _ Hx).
Qed.

#[local] Instance plain : Codec := {|
  cstate := unit; dstate := unit; cnew _ _ := tt; dnew _ := tt;
  compress b _ := (b, tt); decompress b _ := (b, tt) |}.
#[local] Instance plain_ok : CodecOk.
Proof.
  refine {| agree _ _ := True |}; [done | done |]. intros c b Hb. cbn. unfold FileBufSize in Hb. lia.
Defined.
#[local] Instance demo_memory : Slab.
Proof. refine {| junk := fun _ => ZoneEvent.mk 0 0 0 0 |}. intros _. repeat split; vm_compute; discriminate || reflexivity. Defined.

(** A zone from 10 to 50 with one from 20 to 30 in it, and a trace with a zone and room
    for a child list. *)
Definition demo_event (srcloc tstart tend child : Z) : ZoneEvent.t :=
  ZoneEvent.SetChild child (ZoneEvent.mk (pack48 tstart srcloc) 0 (set_time48 tend 0) 7).
Lemma demo_event_ok srcloc tstart tend child : ZoneEvent.ok (demo_event srcloc tstart tend child).
Proof.
  apply zone_SetChild. split; [apply pack48_range |]. split; [done | now apply set_time48_range].
Qed.
Definition demo_saved : W :=
  (Worker (double_of_Z 1) 1000 1000 100 false false [0; 0])
    <| zone_heap := [demo_event 3 20 30 (-1); demo_event 2 10 50 0] |> <| zoneChildren := [Vector.make 0%nat] |>.
Definition demo_loading : W :=
  (Worker (double_of_Z 1) 1000 1000 100 false false [0; 0])
    <| zone_heap := [demo_event 1 1 2 (-1)] |> <| zoneChildren := [Vector.empty] |>.

Lemma timeline_roundtrip_witness :
  let zs := [Zone (mkZinfo 2 10 50 7) [Zone (mkZinfo 3 20 30 7) []]] in
  exists file vec' w', save_timeline (fun t => [t; 1%nat]) Zstd 3 2 2 demo_saved [1%nat] = Some file /\
    load_timeline (fun _ => []) file demo_loading = Some (vec', 1, w') /\ Forall2 (in_trace w') zs vec' /\
    forall a, (a < 1)%nat -> zone_heap w' !! a = zone_heap demo_loading !! a.
Proof.
  intros zs. apply (timeline_roundtrip (fun t => [t; 1%nat]) (fun _ => []) Zstd 3 2 2 demo_saved demo_loading [1%nat] zs).
  - lia.
  - repeat constructor; discriminate.
  - reflexivity.
  - constructor; [| constructor]. apply saved_Zone. split; [exact I |].
    exists (demo_event 2 10 50 0), [0%nat]. split; [reflexivity |]. split; [now apply demo_event_ok |].
    split; [vm_compute; reflexivity |]. split.
    + split; [discriminate |]. split; [exact I |]. exists (Vector.make 0%nat). split; reflexivity.
    + constructor; [| constructor]. apply saved_Zone. split; [exact I |].
      exists (demo_event 3 20 30 (-1)), []. split; [reflexivity |]. split; [now apply demo_event_ok |].
      split; [vm_compute; reflexivity |]. split; [vm_compute; reflexivity | constructor].
  - cbn. lia.
  - intros [| c] v _ E; [injection E as <-; reflexivity | discriminate].
  - cbn. lia.
  - reflexivity.
Defined.
