(* ===== verification/ServerCallstack.v ===== *)
(** * Call stacks and source files: the handlers of payloads

    The client sends a call stack as a list of addresses.  The server keeps every
    stack once ([callstackPayload]) and asks the client for every address it has not
    seen ([callstackFrameMap]).  Source files that frames and source locations name are
    read, or asked for. *)
From S2P Require Import Prelude Double Queue Event Containers Trace Server.

Definition UpdCst (f : Callstacks -> Callstacks) : M W unit := modify (fun w => w <| cst ::= f |>).
Definition UpdSrcs (f : Sources -> Sources) : M W unit := modify (fun w => w <| srcs ::= f |>).

(** ** Strings *)

(** The bytes before the end of the string that a pointer of the client stands for. *)
(* TracyWorker.cpp:2476-2487 GetString *)
Definition GetString_ptr (ptr : Z) : M W (list Z) :=
  m ← gets strings; d ← gets stringData;
  match m !! ptr with
  | Some (Some i) => s ← expect (d !! Z.to_nat i); mret (c_str s)
  | _ => mret unknown
  end.
(* TracyWorker.cpp:2489-2507 GetString *)
Definition GetString_ref (ref : StringRef.t) : M W (list Z) :=
  if StringRef.isidx ref then
    assert_ (StringRef.active ref);;
    d ← gets stringData; s ← expect (d !! Z.to_nat (StringRef.str ref)); mret (c_str s)
  else if StringRef.active ref then GetString_ptr (StringRef.str ref)
  else mret unknown.
(* TracyWorker.cpp:2509-2513 GetString *)
Definition GetString_idx (idx : StringIdx.t) : M W (list Z) :=
  i ← expect (StringIdx.Idx idx); d ← gets stringData; s ← expect (d !! Z.to_nat i); mret (c_str s).

(** ** Queries *)

(** The two members of the next packet, the second one padded with zeros. *)
(* TracyWorker.cpp:3289-3312 QueryDataTransfer *)
Definition data_part (data : list Z) : Z * Z * list Z :=
  let size := Z.of_nat (length data) in
  if 12 <=? size then (le_val (take 8 data), le_val (take 4 (drop 8 data)), drop 12 data)
  else if 8 <? size then (le_val (take 8 data), le_val (drop 8 data), [])
  else (le_val data, 0, []).
(* TracyWorker.cpp:3287-3314 QueryDataTransfer *)
Fixpoint QueryDataTransfer_loop (fuel : nat) (data : list Z) : M W unit :=
  match fuel, data with
  | _, [] => mret tt
  | O, _ => stop
  | S fuel, _ =>
      let '(d8, d4, rest) := data_part data in
      Query ServerQueryDataTransferPart d8 d4;;
      QueryDataTransfer_loop fuel rest
  end.
(** Every round takes a byte, so there are no more rounds than bytes. *)
(* TracyWorker.cpp:3283-3314 *)
Definition QueryDataTransfer (data : list Z) : M W unit :=
  Query ServerQueryDataTransfer (Z.of_nat (length data)) 0;;
  QueryDataTransfer_loop (length data) data.
(* TracyWorker.cpp:3274-3281 *)
Definition QuerySourceFile (fn : list Z) (image : option (list Z)) : M W unit :=
  match image with Some image => QueryDataTransfer (image ++ [0]) | None => mret tt end;;
  QueryDataTransfer (fn ++ [0]);;
  s ← gets srcs;
  let next := m_nextSourceCodeQuery s in
  UpdSrcs (fun s => s <| m_sourceCodeQuery ::= emplace next fn |>);;
  Query ServerQuerySourceCode next 0;;
  UpdSrcs (fun s => s <| m_nextSourceCodeQuery ::= (fun n => uint 32 (n + 1)) |>).

(** ** Source files *)

(** The file system of the server: the time of the last change of a regular file, and
    the content of a file that can be opened. *)
Class FileSystem := {
  mtime : list Z -> option Z;
  content : list Z -> option (list Z) }.

Section SourceFiles.
Context `{FileSystem}.

(* TracyWorker.cpp:45-53 *)
Definition SourceFileValid (fn : list Z) (olderThan : Z) : bool :=
  match mtime fn with Some t => uint 64 t <? olderThan | None => false end.
(* TracyWorker.cpp:9059-9069 *)
Definition CacheSourceFromFile (fn : list Z) : M W unit :=
  src ← expect (content fn);
  UpdSrcs (fun s => s <| sourceFileCache ::= emplace fn src |>).
(* TracyWorker.cpp:9040-9057 *)
Definition CacheSource (str : StringRef.t) (image : StringIdx.t) : M W unit :=
  assert_ (StringRef.active str);;
  s ← gets srcs;
  assert_ (negb (bool_decide (str ∈ m_checkedFileStrings s)));;
  UpdSrcs (fun s => s <| m_checkedFileStrings ::= union {[str]} |>);;
  file ← GetString_ref str;
  if bool_decide (is_Some (sourceFileCache s !! file)) then mret tt else
  let execTime := m_executableTime s in
  if SourceFileValid file (if negb (execTime =? 0) then execTime else m_captureTime s) then
    CacheSourceFromFile file
  else if negb (execTime =? 0) && m_codeTransfer s then
    image ← (if StringIdx.Active image then i ← GetString_idx image; mret (Some i) else mret None);
    QuerySourceFile file image
  else mret tt.

(* TracyWorker.cpp:3795-3826 *)
Definition AddSourceLocation (name function file line b g r : Z) : M W unit :=
  n ← gets m_pendingSourceLocation; assert_ (0 <? n);;
  modify (fun w => w <| m_pendingSourceLocation ::= (fun n => n - 1) |>);;
  q ← gets m_sourceLocationQueue;
  ptr ← expect (head q);
  modify (fun w => w <| m_sourceLocationQueue ::= tail |>);;
  m ← gets sourceLocation;
  assert_ (bool_decide (is_Some (m !! ptr)));;
  _ ← CheckString name;
  known ← CheckString file;
  let ref := StringRef.make StringRef.Ptr file in
  s ← gets srcs;
  (if known : bool then
     if negb (file =? 0) && negb (bool_decide (ref ∈ m_checkedFileStrings s))
        && negb (bool_decide (ref ∈ m_pendingFileStrings s)) then CacheSource ref StringIdx.none
     else mret tt
   else
     assert_ (negb (bool_decide (ref ∈ m_checkedFileStrings s)));;
     UpdSrcs (fun s => s <| m_pendingFileStrings ::= union {[ref]} |>));;
  _ ← CheckString function;
  let color := Z.lor (Z.lor (Z.shiftl b 16) (Z.shiftl g 8)) r in
  modify (fun w => w <| sourceLocation ::= <[ptr := mkSrcLoc
    (if name =? 0 then StringRef.none else StringRef.make StringRef.Ptr name)
    (StringRef.make StringRef.Ptr function) ref line color]> |>).

(** A source location that the client made up: its color, line, function, file and, in
    the remaining bytes, name. *)
(* TracyWorker.cpp:3828-3888 *)
Definition AddSourceLocationPayload (data : list Z) : M W unit :=
  p ← gets m_pendingSourceLocationPayload; assert_ (p =? 0);;
  let color := le_val (take 4 data) in
  let line := le_val (take 4 (drop 4 data)) in
  let rest := drop 8 data in
  let func := c_str rest in
  func_idx ← StoreString func;
  let rest := drop (S (length func)) rest in
  let source := c_str rest in
  source_idx ← StoreString source;
  let rest := drop (S (length source)) rest in
  let color := Z.lor (Z.lor (Z.shiftr (Z.land color 0x00FF0000) 16) (Z.land color 0x0000FF00))
                     (Z.shiftl (Z.land color 0x000000FF) 16) in
  name ← (if Z.of_nat (length rest) =? 0 then mret StringRef.none
          else i ← StoreString rest; mret (StringRef.make StringRef.Idx i));
  let srcloc := mkSrcLoc name (StringRef.make StringRef.Idx func_idx)
                  (StringRef.make StringRef.Idx source_idx) line color in
  s ← gets srcs;
  match sourceLocationPayloadMap s !! srcloc_key_of srcloc with
  | None =>
      let idx := uint 32 (Z.of_nat (length (sourceLocationPayload s))) in
      if int16_max <? uint 32 (idx + 1) then SourceLocationOverflowFailure else
      let key := sint 16 (- sint 16 (idx + 1)) in
      UpdSrcs (fun s => s <| sourceLocationPayloadMap ::= emplace (srcloc_key_of srcloc) (sint 16 idx) |>
                          <| sourceLocationPayload ::= (fun l => l ++ [srcloc]) |>);;
      modify (fun w => w <| m_pendingSourceLocationPayload := key |>);;
      (if bool_decide (sl_file srcloc ∈ m_checkedFileStrings s) then mret tt
       else CacheSource (sl_file srcloc) StringIdx.none);;
      modify (fun w => w <| sourceLocationZones ::= emplace key new_SourceLocationZones |>
                         <| srclocZonesLast := (uint 16 key, Some key) |>)
  | Some idx => modify (fun w => w <| m_pendingSourceLocationPayload := sint 16 (- sint 16 (idx + 1)) |>)
  end.

(* TracyWorker.cpp:3890-3906 *)
Definition AddString (ptr : Z) (str : list Z) : M W unit :=
  n ← gets m_pendingStrings; assert_ (0 <? n);;
  modify (fun w => w <| m_pendingStrings ::= (fun n => n - 1) |>);;
  m ← gets strings; d ← gets stringData;
  p ← expect (m !! ptr); assert_ (is_unknown d p);;
  sl ← StoreString str;
  modify (fun w => w <| strings ::= <[ptr := Some sl]> |>);;
  let ref := StringRef.make StringRef.Ptr ptr in
  s ← gets srcs;
  if bool_decide (ref ∈ m_pendingFileStrings s) then
    UpdSrcs (fun s => s <| m_pendingFileStrings ::= (fun f => f ∖ {[ref]}) |>);;
    CacheSource ref StringIdx.none
  else mret tt.
End SourceFiles.

(* TracyWorker.cpp:4073-4083 *)
Definition AddSourceCode (id : Z) (data : list Z) : M W unit :=
  s ← gets srcs;
  file ← expect (m_sourceCodeQuery s !! id);
  UpdSrcs (fun s => s <| m_sourceCodeQuery ::= delete id |>);;
  UpdSrcs (fun s => s <| sourceFileCache ::= emplace file data |>).
(* TracyWorker.cpp:7338-7343 *)
Definition ProcessSourceCodeNotAvailable (id : Z) : M W unit :=
  s ← gets srcs;
  _ ← expect (m_sourceCodeQuery s !! id);
  UpdSrcs (fun s => s <| m_sourceCodeQuery ::= delete id |>).

(** ** Call stacks *)

(* TracyWorker.cpp:4085-4093 *)
Definition PackPointer (ptr : Z) : option CallstackFrameId.t :=
  if negb (uint 64 (Z.shiftl (Z.land ptr 0x3000000000000000) 2) =? Z.land ptr 0xC000000000000000) then None
  else Some (CallstackFrameId.make ptr 0 0).
(** A bit-field of 62 bits has its declared type, so the shift is one of 64 bits. *)
(* TracyWorker.cpp:4095-4099 *)
Definition GetCanonicalPointer (id : CallstackFrameId.t) : option Z :=
  if negb (CallstackFrameId.sel id =? 0) then None else
  let idx := CallstackFrameId.idx id in
  Some (Z.lor (Z.land idx 0x3FFFFFFFFFFFFFFF) (uint 64 (Z.shiftl (Z.land idx 0x3000000000000000) 2))).

(* TracyWorker.cpp:3316-3324 *)
Definition QueryCallstackFrame (addr : Z) : M W unit :=
  packed ← expect (PackPointer addr);
  c ← gets cst;
  if bool_decide (is_Some (callstackFrameMap c !! packed)) then mret tt else
  UpdCst (fun c => c <| m_pendingCallstackFrames ::= (fun n => uint 32 (n + 1)) |>
                     <| callstackFrameMap ::= emplace packed None |>);;
  Query ServerQueryCallstackFrame addr 0.

(** The place of a call stack, a new one for a stack that was not there, whose frames
    are then asked for. *)
(* TracyWorker.cpp:4119-4138 AddCallstackPayload *)
Definition intern_callstack (arr : list CallstackFrameId.t) (ask : CallstackFrameId.t -> M W unit) : M W Z :=
  c ← gets cst;
  match callstackMap c !! arr with
  | None =>
      let idx := uint 32 (Z.of_nat (length (callstackPayload c))) in
      UpdCst (fun c => c <| callstackMap ::= emplace arr idx |>
                         <| callstackPayload ::= (fun l => l ++ [Some arr]) |>);;
      for_each arr ask;;
      mret idx
  | Some idx => mret idx
  end.

(** Words of eight bytes; a rest is left out. *)
Fixpoint words (fuel : nat) (data : list Z) : list Z :=
  match fuel with
  | O => []
  | S fuel => if Nat.ltb (length data) 8 then [] else le_val (take 8 data) :: words fuel (drop 8 data)
  end.
(* TracyWorker.cpp:4101-4140 *)
Definition AddCallstackPayload (data : list Z) : M W unit :=
  p ← gets m_pendingCallstackId; assert_ (p =? 0);;
  arr ← expect (mapM PackPointer (words (length data) data));
  idx ← intern_callstack arr (fun frame => ptr ← expect (GetCanonicalPointer frame); QueryCallstackFrame ptr);
  modify (fun w => w <| m_pendingCallstackId := idx |>).

(** A frame of the client's own (of a script): a name and a file, each with its length,
    and a line. *)
(* TracyWorker.cpp:4148-4180 AddCallstackAllocPayload *)
Definition alloc_frame (data : list Z) : M W (CallstackFrameId.t * list Z) :=
  let line := le_val (take 4 data) in
  let data := drop 4 data in
  let sz := Z.to_nat (le_val (take 2 data)) in
  let data := drop 2 data in
  name ← StoreString (take sz data);
  let data := drop sz data in
  let sz := Z.to_nat (le_val (take 2 data)) in
  let data := drop 2 data in
  file ← StoreString (take sz data);
  let data := drop sz data in
  let cf := mkFrame (StringIdx.SetIdx name) (StringIdx.SetIdx file) line 0 in
  let cfd := mkFrameGroup [cf] 1 StringIdx.none in
  c ← gets cst;
  match revFrameMap c !! rev_frame_key cfd with
  | None =>
      let id := CallstackFrameId.make (m_callstackAllocNextIdx c) 1 0 in
      UpdCst (fun c => c <| m_callstackAllocNextIdx ::= (fun n => uint 64 (n + 1)) |>
                         <| callstackFrameMap ::= emplace id (Some cfd) |>
                         <| revFrameMap ::= emplace (rev_frame_key cfd) id |>);;
      mret (id, data)
  | Some id => mret (id, data)
  end.
Fixpoint alloc_frames (n : nat) (data : list Z) : M W (list CallstackFrameId.t) :=
  match n with
  | O => mret []
  | S n => p ← alloc_frame data; stack ← alloc_frames n (snd p); mret (fst p :: stack)
  end.
(* TracyWorker.cpp:4142-4228 *)
Definition AddCallstackAllocPayload (data : list Z) : M W unit :=
  sz ← expect (head data);
  assert_ (sz <=? 64);;
  stack ← alloc_frames (Z.to_nat sz) (tail data);
  p ← gets m_pendingCallstackId;
  c ← gets cst;
  native ← (if negb (p =? 0) then cs ← expect (callstackPayload c !! Z.to_nat p); expect cs else mret []);
  idx ← intern_callstack (stack ++ native) (fun frame =>
    when (CallstackFrameId.sel frame =? 0) (ptr ← expect (GetCanonicalPointer frame); QueryCallstackFrame ptr));
  modify (fun w => w <| m_pendingCallstackId := idx |>).

(* TracyWorker.hpp:581-581 *)
Definition GetCallstack (idx : Z) : M W (list CallstackFrameId.t) :=
  c ← gets cst; cs ← expect (callstackPayload c !! Z.to_nat idx); expect cs.
(* TracyWorker.cpp:4230-4261 *)
Definition MergeCallstacks (first second : Z) : M W Z :=
  cs1 ← GetCallstack first; cs2 ← GetCallstack second;
  intern_callstack (cs1 ++ cs2) (fun _ => mret tt).

(** ** Frames *)

(** A frame that is not in the map, and one that has not arrived, is a null pointer. *)
(* TracyWorker.cpp:2294-2306 *)
Definition GetCallstackFrame (ptr : CallstackFrameId.t) : M W (option CallstackFrameData) :=
  assert_ (CallstackFrameId.custom ptr =? 0);;
  c ← gets cst;
  mret (match callstackFrameMap c !! ptr with Some d => d | None => None end).

