(* ===== verification/ServerSymbol.v ===== *)
(** * Frames of call stacks: the handlers of what the client knows about an address

    The client answers a question about an address with the frames at it, several when
    functions were inlined, and one about a symbol with its place, then with its code.
    The code is disassembled for more addresses to ask about.  The samples of an
    address whose frames were not known are handed to its symbol. *)
From S2P Require Import Prelude Double Queue Event Containers Discovery Trace Server ServerMem ServerPlot ServerCallstack.

Definition UpdSmp (f : Samples -> Samples) : M W unit := modify (fun w => w <| smp ::= f |>).

(** The array of frames is fresh memory. *)
(* TracyWorker.cpp:6847-6871 *)
Definition ProcessCallstackFrameSize (ptr size : Z) : M W unit :=
  c ← gets cst;
  assert_ (negb (bool_decide (is_Some (m_callstackFrameStaging c))));;
  assert_ (m_pendingCallstackSubframes c =? 0);;
  assert_ (0 <? m_pendingCallstackFrames c);;
  UpdCst (fun c => c <| m_pendingCallstackFrames ::= (fun n => n - 1) |>
                     <| m_pendingCallstackSubframes := size |>);;
  modify (fun w => w <| smp ::= (fun s => s <| newFramesWereReceived := true |>) |>);;
  idx ← GetSingleStringIdx;
  frameId ← expect (PackPointer ptr);
  known ← expect (callstackFrameMap c !! frameId);
  match known with
  | None =>
      UpdCst (fun c => c <| m_callstackFrameStaging :=
          Some (mkFrameGroup (repeat zero_frame (Z.to_nat size)) size (StringIdx.SetIdx idx)) |>
        <| m_callstackFrameStagingPtr := ptr |>)
  | Some _ => mret tt
  end.

(* TracyStackFrames.cpp:26-119 s_tracySkipSubframes *)
Definition s_tracySkipSubframes : list (string * Z) :=
  [("/include/arm_neon.h", 19);
   ("/include/adxintrin.h", 20);
   ("/include/ammintrin.h", 20);
   ("/include/amxbf16intrin.h", 24);
   ("/include/amxint8intrin.h", 24);
   ("/include/amxtileintrin.h", 24);
   ("/include/avx2intrin.h", 21);
   ("/include/avx5124fmapsintrin.h", 29);
   ("/include/avx5124vnniwintrin.h", 29);
   ("/include/avx512bf16intrin.h", 27);
   ("/include/avx512bf16vlintrin.h", 29);
   ("/include/avx512bitalgintrin.h", 29);
   ("/include/avx512bwintrin.h", 25);
   ("/include/avx512cdintrin.h", 25);
   ("/include/avx512dqintrin.h", 25);
   ("/include/avx512erintrin.h", 25);
   ("/include/avx512fintrin.h", 24);
   ("/include/avx512ifmaintrin.h", 27);
   ("/include/avx512ifmavlintrin.h", 29);
   ("/include/avx512pfintrin.h", 25);
   ("/include/avx512vbmi2intrin.h", 28);
   ("/include/avx512vbmi2vlintrin.h", 30);
   ("/include/avx512vbmiintrin.h", 27);
   ("/include/avx512vbmivlintrin.h", 29);
   ("/include/avx512vlbwintrin.h", 27);
   ("/include/avx512vldqintrin.h", 27);
   ("/include/avx512vlintrin.h", 25);
   ("/include/avx512vnniintrin.h", 27);
   ("/include/avx512vnnivlintrin.h", 29);
   ("/include/avx512vp2intersectintrin.h", 35);
   ("/include/avx512vp2intersectvlintrin.h", 37);
   ("/include/avx512vpopcntdqintrin.h", 32);
   ("/include/avx512vpopcntdqvlintrin.h", 34);
   ("/include/avxintrin.h", 20);
   ("/include/avxvnniintrin.h", 24);
   ("/include/bmi2intrin.h", 21);
   ("/include/bmiintrin.h", 20);
   ("/include/bmmintrin.h", 20);
   ("/include/cetintrin.h", 20);
   ("/include/cldemoteintrin.h", 25);
   ("/include/clflushoptintrin.h", 27);
   ("/include/clwbintrin.h", 21);
   ("/include/clzerointrin.h", 23);
   ("/include/emmintrin.h", 20);
   ("/include/enqcmdintrin.h", 23);
   ("/include/f16cintrin.h", 21);
   ("/include/fma4intrin.h", 21);
   ("/include/fmaintrin.h", 20);
   ("/include/fxsrintrin.h", 21);
   ("/include/gfniintrin.h", 21);
   ("/include/hresetintrin.h", 23);
   ("/include/ia32intrin.h", 21);
   ("/include/immintrin.h", 20);
   ("/include/keylockerintrin.h", 26);
   ("/include/lwpintrin.h", 20);
   ("/include/lzcntintrin.h", 22);
   ("/include/mmintrin.h", 19);
   ("/include/movdirintrin.h", 23);
   ("/include/mwaitxintrin.h", 23);
   ("/include/nmmintrin.h", 20);
   ("/include/pconfigintrin.h", 24);
   ("/include/pkuintrin.h", 20);
   ("/include/pmmintrin.h", 20);
   ("/include/popcntintrin.h", 23);
   ("/include/prfchwintrin.h", 23);
   ("/include/rdseedintrin.h", 23);
   ("/include/rtmintrin.h", 20);
   ("/include/serializeintrin.h", 26);
   ("/include/sgxintrin.h", 20);
   ("/include/shaintrin.h", 20);
   ("/include/smmintrin.h", 20);
   ("/include/tbmintrin.h", 20);
   ("/include/tmmintrin.h", 20);
   ("/include/tsxldtrkintrin.h", 25);
   ("/include/uintrintrin.h", 22);
   ("/include/vaesintrin.h", 21);
   ("/include/vpclmulqdqintrin.h", 27);
   ("/include/waitpkgintrin.h", 24);
   ("/include/wbnoinvdintrin.h", 25);
   ("/include/wmmintrin.h", 20);
   ("/include/x86gprintrin.h", 23);
   ("/include/x86intrin.h", 20);
   ("/include/xmmintrin.h", 20);
   ("/include/xopintrin.h", 20);
   ("/include/xsavecintrin.h", 23);
   ("/include/xsaveintrin.h", 22);
   ("/include/xsaveoptintrin.h", 25);
   ("/include/xsavesintrin.h", 23);
   ("/include/xtestintrin.h", 22);
   ("/bits/atomic_base.h", 19);
   ("/atomic", 7)].
(* TracyStackFrames.hpp:18-18 *)
Definition s_tracySkipSubframesMinLen : Z := 7.
(* TracyWorker.cpp:6886-6904 ProcessCallstackFrame *)
Definition skipped_file (fstr : list Z) : bool :=
  let flen := Z.of_nat (length fstr) in
  (s_tracySkipSubframesMinLen <=? flen) &&
  existsb (fun p => (snd p <=? flen) &&
    bool_decide (take (Z.to_nat (snd p)) (drop (Z.to_nat (flen - snd p)) fstr) = take (Z.to_nat (snd p)) (ascii (fst p))))
    s_tracySkipSubframes.

(** The parallel sort is a parameter: it permutes its range and leaves it in order. *)
Class SampleSort := pdqsort_branchless : list SampleDataRange -> list SampleDataRange.
Definition range_before (lhs rhs : SampleDataRange) : bool :=
  Int48.Val (sr_time lhs) <? Int48.Val (sr_time rhs).
(** The samples of a symbol are in the order of time; there is at least one. *)
(* TracyWorker.cpp:6953-6966 ProcessCallstackFrame *)
Definition insert_range (v : SampleDataRange) (l : list SampleDataRange) : option (list SampleDataRange) :=
  b ← last l;
  if Int48.Val (sr_time b) <=? Int48.Val (sr_time v) then Some (l ++ [v])
  else let iit := upper_bound range_before l v in Some (take iit l ++ v :: drop iit l).
Fixpoint insert_ranges (vs l : list SampleDataRange) : option (list SampleDataRange) :=
  match vs with
  | [] => Some l
  | v :: vs => l ← insert_range v l; insert_ranges vs l
  end.

(** The counters of an address go to the symbol it turned out to be in. *)
(* TracyWorker.cpp:6924-6941 ProcessCallstackFrame *)
Definition settle_pointers (symAddr : Z) (frameId : CallstackFrameId.t) : M W unit :=
  s ← gets smp;
  match pendingInstructionPointers s !! frameId with
  | None => mret tt
  | Some n =>
      (if negb (symAddr =? 0) then
         let m := default ∅ (instructionPointersMap s !! symAddr) in
         assert_ (negb (bool_decide (is_Some (m !! frameId))));;
         UpdSmp (fun s => s <| instructionPointersMap ::= <[symAddr := <[frameId := n]> m]> |>)
       else mret tt);;
      UpdSmp (fun s => s <| pendingInstructionPointers ::= delete frameId |>)
  end.
(** And so do its samples. *)
(* TracyWorker.cpp:6942-6974 ProcessCallstackFrame *)
Definition settle_samples `{SampleSort} (symAddr : Z) (frameId : CallstackFrameId.t) : M W unit :=
  s ← gets smp;
  match pendingSymbolSamples s !! frameId with
  | None => mret tt
  | Some p =>
      (if negb (symAddr =? 0) then
         l ← match symbolSamples s !! symAddr with
             | None => mret (pdqsort_branchless p)
             | Some l => expect (insert_ranges p l)
             end;
         UpdSmp (fun s => s <| symbolSamples ::= <[symAddr := l]> |>)
       else mret tt);;
      UpdSmp (fun s => s <| pendingSymbolSamples ::= delete frameId |>)
  end.

(** [data[idx] = frame] *)
Definition set_frame (idx : Z) (frame : CallstackFrame) (d : CallstackFrameData) : option CallstackFrameData :=
  if (0 <=? idx) && (idx <? Z.of_nat (length (cfd_data d)))
  then Some (d <| cfd_data ::= <[Z.to_nat idx := frame]> |>) else None.
Definition UpdStaging (f : CallstackFrameData -> CallstackFrameData) : M W unit :=
  UpdCst (fun c => c <| m_callstackFrameStaging ::= fmap f |>).

Section Frames.
Context `{FileSystem} `{SampleSort}.

(** A frame that is kept. *)
(* TracyWorker.cpp:6906-6982 ProcessCallstackFrame *)
Definition stage_frame (line symAddr symLen : Z) (querySymbols : bool) (nitidx fitidx idx : Z)
    (staging : CallstackFrameData) : M W unit :=
  let name := StringIdx.SetIdx nitidx in
  let file := StringIdx.SetIdx fitidx in
  staging ← expect (set_frame idx (mkFrame name file line symAddr) staging);
  UpdCst (fun c => c <| m_callstackFrameStaging := Some staging |>);;
  c ← gets cst;
  (if querySymbols && negb (symAddr =? 0) && negb (bool_decide (is_Some (symbolMap c !! symAddr)))
      && negb (bool_decide (is_Some (m_pendingSymbols c !! symAddr))) then
     UpdCst (fun c => c <| m_pendingSymbols ::= emplace symAddr
       (mkSymbolPending name (cfd_imageName staging) file line symLen (idx <? cfd_size staging - 1)) |>);;
     Query ServerQuerySymbol symAddr 0
   else mret tt);;
  let ref := StringRef.make StringRef.Idx fitidx in
  s ← gets srcs;
  (if bool_decide (ref ∈ m_checkedFileStrings s) then mret tt else CacheSource ref (cfd_imageName staging));;
  frameId ← expect (PackPointer (m_callstackFrameStagingPtr c));
  settle_pointers symAddr frameId;;
  settle_samples symAddr frameId;;
  UpdCst (fun c => c <| m_pendingCallstackSubframes ::= (fun n => n - 1) |>);;
  c ← gets cst;
  if m_pendingCallstackSubframes c =? 0 then
    known ← expect (callstackFrameMap c !! frameId);
    assert_ (negb (bool_decide (is_Some known)));;
    first ← expect (head (cfd_data staging));
    UpdCst (fun c => c <| callstackFrameMap ::= <[frameId := Some staging]> |>
                       <| codeSymbolMap ::= emplace (m_callstackFrameStagingPtr c) (cf_symAddr first) |>
                       <| m_callstackFrameStaging := None |>)
  else mret tt.

(** The innermost frames of a group are left out when they are in a header of the
    compiler's intrinsics. *)
(* TracyWorker.cpp:6873-6987 *)
Definition ProcessCallstackFrame (line symAddr symLen : Z) (querySymbols : bool) : M W unit :=
  c ← gets cst;
  assert_ (0 <? m_pendingCallstackSubframes c);;
  nitidx ← GetSingleStringIdx;
  fitidx ← GetSecondStringIdx;
  match m_callstackFrameStaging c with
  | Some staging =>
      let idx := cfd_size staging - m_pendingCallstackSubframes c in
      skip ← (if (1 <? m_pendingCallstackSubframes c) && (idx =? 0)
              then fstr ← GetString_idx (StringIdx.SetIdx fitidx); mret (skipped_file fstr)
              else mret false);
      if skip : bool then
        UpdCst (fun c => c <| m_pendingCallstackSubframes ::= (fun n => n - 1) |>);;
        UpdStaging (fun d => d <| cfd_size ::= (fun n => n - 1) |>)
      else stage_frame line symAddr symLen querySymbols nitidx fitidx idx staging
  | None => UpdCst (fun c => c <| m_pendingCallstackSubframes ::= (fun n => n - 1) |>)
  end.

(* TracyWorker.cpp:6989-7029 *)
Definition ProcessSymbolInformation (line symAddr : Z) : M W unit :=
  c ← gets cst;
  p ← expect (m_pendingSymbols c !! symAddr);
  idx ← GetSingleStringIdx;
  UpdCst (fun c => c <| symbolMap ::= emplace symAddr
    (mkSymbolData (sp_name p) (StringIdx.SetIdx idx) line (sp_imageName p) (sp_file p) (sp_line p)
       (sp_isInline p) (Int24.make (sp_size p))) |>);;
  s ← gets srcs;
  (if m_codeTransfer s && (0 <? sp_size p) && (sp_size p <=? 128 * 1024) then
     UpdCst (fun c => c <| m_pendingSymbolCode ::= (fun n => uint 32 (n + 1)) |>);;
     Query ServerQuerySymbolCode symAddr (sp_size p)
   else mret tt);;
  (if negb (sp_isInline p) then
     UpdCst (fun c => c
       <| newSymbolsIndex ::= (fun i => if i <? 0 then Z.of_nat (length (symbolLoc c)) else i) |>
       <| symbolLoc ::= (fun l => l ++ [mkSymbolLocation symAddr (sp_size p)]) |>)
   else
     UpdCst (fun c => c
       <| newInlineSymbolsIndex ::= (fun i => if i <? 0 then Z.of_nat (length (symbolLocInline c)) else i) |>
       <| symbolLocInline ::= (fun l => l ++ [symAddr]) |>));;
  let ref := StringRef.make StringRef.Idx idx in
  s ← gets srcs;
  (if bool_decide (ref ∈ m_checkedFileStrings s) then mret tt else CacheSource ref (sp_imageName p));;
  UpdCst (fun c => c <| m_pendingSymbols ::= delete symAddr |>).
End Frames.

(** ** The code of symbols *)

(** An instruction as the disassembler describes it: which of its groups are jumps or
    calls, and the immediate value if that is its only operand. *)
Record Instruction := mkInsn { in_address : Z; in_groups : list bool; in_imm : option Z }.
(** What the disassembler makes of a piece of code, nothing if it cannot be opened for
    this processor. *)
Class Disassembler := disassemble : CpuArchitecture -> Z -> list Z -> option (list Instruction).

(* TracyWorker.cpp:4029-4062 AddSymbolCode *)
Fixpoint call_address (groups : list bool) (imm : option Z) : Z :=
  match groups with
  | [] => 0
  | jump_or_call :: groups =>
      let callAddr := if jump_or_call : bool then default 0 imm else 0 in
      if negb (callAddr =? 0) then callAddr else call_address groups imm
  end.
(* TracyWorker.cpp:3988-4070 *)
Definition AddSymbolCode `{Disassembler} (ptr : Z) (data : list Z) : M W unit :=
  c ← gets cst;
  assert_ (0 <? m_pendingSymbolCode c);;
  UpdCst (fun c => c <| m_pendingSymbolCode ::= (fun n => n - 1) |>
                     <| symbolCode ::= emplace ptr data |>
                     <| symbolCodeSize ::= (fun n => uint 64 (n + Z.of_nat (length data))) |>);;
  s ← gets sys;
  match cpuArch s with
  | CpuArchUnknown => mret tt
  | arch =>
      match disassemble arch ptr data with
      | None => mret tt
      | Some insn => for_each insn (fun op =>
          QueryCallstackFrame (in_address op);;
          let callAddr := call_address (in_groups op) (in_imm op) in
          if negb (callAddr =? 0) then QueryCallstackFrame callAddr else mret tt)
      end
  end.

(** ** The system *)
Definition UpdSys (f : System -> System) : M W unit := modify (fun w => w <| sys ::= f |>).

(* TracyWorker.cpp:7031-7050 *)
Definition ProcessCrashReport (ev_time text : Z) : M W unit :=
  _ ← CheckString text;
  td ← GetCurrentThreadData; t ← GetThread td;
  time ← TscTime ev_time;
  m ← gets m_nextCallstack;
  let cs := default 0 (m !! id t) in
  UpdSys (fun s => s <| crashEvent := mkCrash (id t) time text cs |>);;
  (if negb (cs =? 0) then modify (fun w => w <| m_nextCallstack ::= <[id t := 0]> |>) else mret tt).

(** The value is given by its bits. *)
(* TracyWorker.cpp:7052-7081 *)
Definition ProcessSysTime (ev_time sysTime : Z) : M W unit :=
  time ← TscTime ev_time;
  touch_lastTime time;;
  let val := float_of_bits sysTime in
  s ← gets sys;
  match m_sysTimePlot s with
  | None =>
      plot ← NewPlot (plot_push time val (mkPlotData 0 val val val SortedVector.empty PlotSysTime 2 0 1 0));
      UpdSys (fun s => s <| m_sysTimePlot := Some plot |>);;
      modify (fun w => w <| plots ::= (fun d => d <| StringDiscovery.m_data ::= (fun l => l ++ [plot]) |>) |>)
  | Some plot =>
      d ← GetPlot plot;
      d ← expect (plot_next time val d);
      SetPlot plot d
  end.

(** Power is energy by time; a microjoule in a nanosecond is a kilowatt. *)
(* TracyWorker.cpp:7083-7110 *)
Definition ProcessSysPower (ev_time delta name : Z) : M W unit :=
  time ← TscTime ev_time;
  s ← gets sys;
  match m_powerData s !! name with
  | None =>
      _ ← CheckString name;
      plot ← NewPlot (mkPlotData name (S754_zero false) (S754_zero false) (S754_zero false)
                       SortedVector.empty PlotPower 3 0 1 0);
      modify (fun w => w <| plots ::= (fun d => d <| StringDiscovery.m_data ::= (fun l => l ++ [plot]) |>) |>);;
      UpdSys (fun s => s <| m_powerData ::= <[name := (time, plot)]> |>)
  | Some (lastTime, plot) =>
      let dt := sint 64 (time - lastTime) in
      UpdSys (fun s => s <| m_powerData ::= <[name := (time, plot)]> |>);;
      touch_lastTime time;;
      let power := ddiv (dmul (double_of_Z delta) (double_of_Z 1000)) (double_of_Z dt) in
      InsertPlot plot time power
  end.
