(* ===== verification/CallstackSpec.v ===== *)
(** * Call stacks: every stack is kept once, every address is asked for once

    A payload of addresses gets the number of the call stack with these frames, the old
    number if the server has seen the stack before, and the client is asked for the
    frames of those of its addresses that it was not asked for yet. *)
From S2P Require Import Prelude Double Queue Event Containers Trace Server ServerCallstack.

(** ** Addresses *)

(** An address of x64 or arm64: the two high bits repeat the two below them. *)
Definition canonical (p : Z) : Prop := in_uint 64 p /\ bits 62 2 p = bits 60 2 p.
Definition frame_id (p : Z) : CallstackFrameId.t := uint 62 p.

Lemma land_mask p lo n : 0 <= lo -> 0 <= n -> Z.land p (2 ^ lo * (2 ^ n - 1)) = 2 ^ lo * bits lo n p.
Proof.
  intros Hlo Hn. rewrite !(Z.mul_comm (2 ^ lo)), <- !Z.shiftl_mul_pow2 by lia.
  replace (2 ^ n - 1) with (Z.ones n) by (rewrite Z.ones_equiv; lia).
  unfold bits. rewrite <- Z.shiftr_div_pow2, <- Z.land_ones by lia.
  apply Z.bits_inj'. intros i Hi. rewrite Z.land_spec, !Z.shiftl_spec by lia.
  destruct (Z.ltb_spec i lo).
  - rewrite !(Z.testbit_neg_r _ (i - lo)) by lia. apply andb_false_r.
  - rewrite Z.land_spec, Z.shiftr_spec by lia. do 2 f_equal. lia.
Qed.

Lemma bits_64_split p : uint 64 p = uint 62 p + 2 ^ 62 * bits 62 2 p.
Proof.
  pose proof (bits_split 0 62 2 p ltac:(lia) ltac:(lia) ltac:(lia)) as E.
  rewrite !bits_0 in E. exact E.
Qed.

Lemma high_bits p : uint 64 (Z.shiftl (Z.land p 0x3000000000000000) 2) = 2 ^ 62 * bits 60 2 p.
Proof.
  change 0x3000000000000000 with (2 ^ 60 * (2 ^ 2 - 1)). rewrite land_mask, Z.shiftl_mul_pow2 by lia.
  pose proof (bits_range 60 2 p ltac:(lia)) as Hb. red in Hb.
  rewrite uint_small; [ring |]. red. lia.
Qed.

Lemma PackPointer_canonical p : canonical p -> PackPointer p = Some (frame_id p).
Proof.
  intros [Hp Hb]. unfold PackPointer. rewrite high_bits.
  change 0xC000000000000000 with (2 ^ 62 * (2 ^ 2 - 1)). rewrite land_mask, Hb, Z.eqb_refl by lia.
  cbn [negb]. unfold CallstackFrameId.make, frame_id. f_equal. lia.
Qed.

Lemma frame_id_fields p :
  CallstackFrameId.sel (frame_id p) = 0 /\ CallstackFrameId.custom (frame_id p) = 0 /\
  CallstackFrameId.idx (frame_id p) = frame_id p.
Proof.
  unfold CallstackFrameId.sel, CallstackFrameId.custom, CallstackFrameId.idx, frame_id, bits.
  pose proof (uint_range 62 p ltac:(lia)) as [H1 H2].
  rewrite (Z.div_small _ (2 ^ 62)), (Z.div_small _ (2 ^ 63)), Z.pow_0_r, Z.div_1_r, (Z.mod_small (uint 62 p)) by lia. done.
Qed.

Lemma GetCanonicalPointer_frame_id p : canonical p -> GetCanonicalPointer (frame_id p) = Some p.
Proof.
  intros [Hp Hb]. destruct (frame_id_fields p) as (E1 & _ & E3). unfold GetCanonicalPointer. rewrite E1, E3, high_bits.
  cbn [negb Z.eqb]. change 0x3FFFFFFFFFFFFFFF with (Z.ones 62). rewrite Z.land_ones by lia. f_equal.
  assert (Eid : frame_id p mod 2 ^ 62 = uint 62 p) by (unfold frame_id, uint; apply Z.mod_mod; lia). rewrite Eid.
  assert (E60 : bits 60 2 (frame_id p) = bits 60 2 p).
  { unfold frame_id. apply bits_uint; lia. }
  rewrite E60, <- Hb, Z.mul_comm, <- Z.shiftl_mul_pow2, Z.lor_comm, lor_shiftl by (try apply uint_range; lia).
  rewrite <- (uint_small 64 p) at 3 by done. rewrite bits_64_split. ring.
Qed.

(** ** Questions *)

Definition question (a : Z) : ServerQueryPacket := mkQuery ServerQueryCallstackFrame a 0.

(** From [w] to [w'], the addresses [fresh] of [l] were asked for, those that were not
    known. *)
Record asks (l fresh : list Z) (w w' : W) : Prop := {
  as_nodup : NoDup fresh;
  as_fresh a : a ∈ fresh <-> a ∈ l /\ callstackFrameMap (cst w) !! frame_id a = None;
  as_map id : callstackFrameMap (cst w') !! id =
    match callstackFrameMap (cst w) !! id with
    | Some d => Some d
    | None => if decide (id ∈ map frame_id fresh) then Some None else None
    end;
  as_pending : m_pendingCallstackFrames (cst w') =
    uint 32 (m_pendingCallstackFrames (cst w) + Z.of_nat (length fresh));
  as_cst : cst w' = (cst w) <| m_pendingCallstackFrames := m_pendingCallstackFrames (cst w') |>
                          <| callstackFrameMap := callstackFrameMap (cst w') |>;
  as_queue : m_serverQueryQueue w' = m_serverQueryQueue w ++ map question fresh;
  as_state : w' = w <| cst := cst w' |> <| m_serverQueryQueue := m_serverQueryQueue w' |> }.

Lemma frame_id_inj p q : canonical p -> canonical q -> frame_id p = frame_id q -> p = q.
Proof. intros Hp Hq E. apply (f_equal GetCanonicalPointer) in E. rewrite !GetCanonicalPointer_frame_id in E by done. congruence. Qed.

Definition pending_ok (w : W) : Prop := in_uint 32 (m_pendingCallstackFrames (cst w)).

Lemma asks_nil w : pending_ok w -> asks [] [] w w.
Proof.
  intros Hw. split.
  - apply NoDup_nil_2.
  - intros a. split; [inversion 1 | intros [H _]; inversion H].
  - intros id. now destruct (callstackFrameMap (cst w) !! id).
  - cbn. now rewrite Z.add_0_r, uint_small.
  - now destruct (cst w).
  - cbn. now rewrite app_nil_r.
  - now destruct w.
Qed.

Lemma QueryCallstackFrame_wp a w (Q : unit -> W -> Prop) :
  canonical a -> pending_ok w ->
  (forall fresh w', asks [a] fresh w w' -> Q tt w') -> wp (QueryCallstackFrame a) Q w.
Proof.
  intros Ha Hw HQ. unfold QueryCallstackFrame. apply wp_bind. eapply wp_expect; [now apply PackPointer_canonical |].
  wp_steps. destruct (callstackFrameMap (cst w) !! frame_id a) as [d |] eqn:E.
  - wp_steps. apply (HQ []). destruct (asks_nil w Hw) as [A1 A2 A3 A4 A5 A6 A7]. split; try done. intros b.
    split; [inversion 1 |]. rewrite list_elem_of_singleton. intros [-> ?]. congruence.
  - cbn. wp_steps. apply (HQ [a]). split.
    + apply NoDup_singleton.
    + intros b. rewrite !list_elem_of_singleton. split; [intros ->; done | tauto].
    + intros id. cbn. unfold emplace. rewrite E. cbn.
      destruct (decide (id = frame_id a)) as [-> | Hne].
      * rewrite lookup_insert_eq, E. rewrite decide_True by (now apply list_elem_of_singleton). done.
      * rewrite lookup_insert_ne by congruence. rewrite decide_False by (now rewrite list_elem_of_singleton). now destruct (_ !! id).
    + reflexivity.
    + reflexivity.
    + reflexivity.
    + now destruct w.
Qed.

Lemma asks_trans a l f1 f2 w w1 w2 :
  Forall canonical (a :: l) -> asks [a] f1 w w1 -> asks l f2 w1 w2 -> asks (a :: l) (f1 ++ f2) w w2.
Proof.
  intros Hc [A1 A2 A3 A4 A5 A6 A7] [B1 B2 B3 B4 B5 B6 B7]. apply Forall_cons in Hc as [Ha Hl]. rewrite Forall_forall in Hl.
  assert (Hf1 : forall b, b ∈ f1 -> b = a) by (intros b Hb; apply A2 in Hb as [Hb _]; now apply list_elem_of_singleton in Hb).
  split.
  - apply NoDup_app. split_and!; [done | | done]. intros b Hb Hb'. pose proof (Hf1 b Hb) as ->.
    apply B2 in Hb' as [_ Hb']. rewrite A3 in Hb'. apply A2 in Hb as Hb2. destruct Hb2 as [_ E]. rewrite E in Hb'.
    rewrite decide_True in Hb' by (apply list_elem_of_In, in_map, list_elem_of_In; done). done.
  - intros b. rewrite elem_of_app, B2, elem_of_cons, A3, A2, list_elem_of_singleton. split.
    + intros [[-> Hb] | [Hb E]]; [tauto |]. split; [now right |]. now destruct (callstackFrameMap (cst w) !! frame_id b).
    + intros [[-> | Hb] E]; [now left |]. rewrite E. destruct (decide (b = a)) as [-> | Hne]; [now left |]. right.
      split; [done |]. rewrite decide_False; [done |]. intros Hin. apply list_elem_of_In, in_map_iff in Hin as (x & Ex & Hx).
      apply list_elem_of_In, Hf1 in Hx as ->. apply frame_id_inj in Ex; [congruence | done | now apply Hl].
  - intros id. rewrite B3, A3, map_app. destruct (callstackFrameMap (cst w) !! id); [done |].
    destruct (decide (id ∈ map frame_id f1)); [rewrite decide_True by (apply elem_of_app; tauto); done |].
    destruct (decide (id ∈ map frame_id f2)); [rewrite decide_True by (apply elem_of_app; tauto); done |].
    rewrite decide_False by (rewrite elem_of_app; tauto). done.
  - rewrite B4, A4, length_app. unfold uint. rewrite Zplus_mod_idemp_l. f_equal. lia.
  - rewrite B5, A5. now destruct (cst w).
  - rewrite B6, A6, map_app. now rewrite <- app_assoc.
  - rewrite B7, A7. now destruct w.
Qed.

Lemma asks_pending l fresh w w' : asks l fresh w w' -> pending_ok w'.
Proof. intros [_ _ _ E _ _ _]. unfold pending_ok. rewrite E. apply uint_range. lia. Qed.

Lemma ask_all_wp l w (ask : CallstackFrameId.t -> M W unit) :
  Forall canonical l -> pending_ok w ->
  (forall a, canonical a -> forall s, ask (frame_id a) s = QueryCallstackFrame a s) ->
  wp (for_each (map frame_id l) ask) (fun _ w' => exists fresh, asks l fresh w w') w.
Proof.
  intros Hl Hw Hask. revert w Hw. induction Hl as [| a l Ha Hl IH]; intros w Hw; cbn [map for_each].
  - wp_steps. exists []. now apply asks_nil.
  - apply wp_bind. unfold wp at 1. rewrite Hask by done. apply QueryCallstackFrame_wp; [done | done |].
    intros f1 w1 H1. eapply wp_mono; [apply IH, (asks_pending _ _ _ _ H1) |].
    intros [] w2 [f2 H2]. exists (f1 ++ f2). eapply asks_trans; [now constructor | exact H1 | exact H2].
Qed.

(** ** Stacks *)

(** The map finds every stack, and the frames of a stack were asked for. *)
Record stacks_ok (c : Callstacks) : Prop := {
  so_null : callstackPayload c !! 0%nat = Some None;
  so_map s i : callstackMap c !! s = Some i <-> 0 < i /\ callstackPayload c !! Z.to_nat i = Some (Some s);
  so_asked s i id : callstackMap c !! s = Some i -> id ∈ s -> CallstackFrameId.sel id = 0 ->
    is_Some (callstackFrameMap c !! id) }.

Lemma stacks_ok_new : stacks_ok new_Callstacks.
Proof.
  split; [done | | intros s i id E; inversion E].
  intros s i. split; [intros E; inversion E |]. intros [Hi E]. destruct (Z.to_nat i) as [| n] eqn:En; [lia |]. done.
Qed.

(** The call stack of a number, as addresses. *)
Definition callstack_of (c : Callstacks) (i : Z) : option (list Z) :=
  callstackPayload c !! Z.to_nat i ≫= fun p => p ≫= mapM GetCanonicalPointer.

Lemma mapM_PackPointer l : Forall canonical l -> mapM PackPointer l = Some (map frame_id l).
Proof. induction 1 as [| p l Hp _ IH]; cbn; [done |]. rewrite PackPointer_canonical, IH by done. done. Qed.
Lemma mapM_GetCanonicalPointer l : Forall canonical l -> mapM GetCanonicalPointer (map frame_id l) = Some l.
Proof. induction 1 as [| p l Hp _ IH]; cbn; [done |]. rewrite GetCanonicalPointer_frame_id, IH by done. done. Qed.

Lemma words_bytes l fuel :
  Forall (in_uint 64) l -> (length l <= fuel)%nat -> words fuel (concat (map (le_bytes 8) l)) = l.
Proof.
  intros Hl. revert fuel. induction Hl as [| p l Hp Hl IH]; intros [| fuel] Hf; try done; cbn [length] in Hf; [lia |].
  cbn [map concat]. cbn [words]. destruct (Nat.ltb_spec (length (le_bytes 8 p ++ concat (map (le_bytes 8) l))) 8) as [Hlt | _].
  { rewrite length_app, length_le_bytes in Hlt. lia. }
  rewrite take_app_length', drop_app_length' by (now rewrite length_le_bytes).
  rewrite le_val_bytes, uint_small by done. f_equal. apply IH. lia.
Qed.
Lemma length_words l : length (concat (map (le_bytes 8) l)) = (8 * length l)%nat.
Proof. induction l as [| p l IH]; [done |]. cbn [map concat length]. rewrite length_app, length_le_bytes, IH. lia. Qed.

Definition room (c : Callstacks) : Prop := Z.of_nat (length (callstackPayload c)) < 2 ^ 32.

(** The stack [arr] has the number [i], the other stacks theirs. *)
Record interned (arr : list CallstackFrameId.t) (i : Z) (c c' : Callstacks) : Prop := {
  in_pos : 0 < i;
  in_stack : callstackPayload c' !! Z.to_nat i = Some (Some arr);
  in_old j s : callstackPayload c !! j = Some s -> callstackPayload c' !! j = Some s;
  in_one j : 0 < j -> callstackPayload c !! Z.to_nat j = Some (Some arr) -> j = i }.

Lemma intern_known arr i c : stacks_ok c -> callstackMap c !! arr = Some i -> interned arr i c c.
Proof.
  intros Hc E. apply (so_map _ Hc) in E as E'. destruct E' as [Hi Ei]. split; try done.
  intros j Hj Ej. assert (E' : callstackMap c !! arr = Some j) by now apply (so_map _ Hc). congruence.
Qed.

Definition with_stack (arr : list CallstackFrameId.t) (c : Callstacks) : Callstacks :=
  c <| callstackMap ::= emplace arr (uint 32 (Z.of_nat (length (callstackPayload c)))) |>
    <| callstackPayload ::= (fun l => l ++ [Some arr]) |>.

Lemma intern_new arr c c' :
  stacks_ok c -> room c -> callstackMap c !! arr = None -> callstackPayload c' = callstackPayload (with_stack arr c) ->
  callstackMap c' = callstackMap (with_stack arr c) ->
  (forall id, is_Some (callstackFrameMap c !! id) -> is_Some (callstackFrameMap c' !! id)) ->
  (forall id, id ∈ arr -> CallstackFrameId.sel id = 0 -> is_Some (callstackFrameMap c' !! id)) ->
  interned arr (Z.of_nat (length (callstackPayload c))) c c' /\ stacks_ok c'.
Proof.
  intros Hc Hr E Ep Em Hk Ha. unfold with_stack in *. cbn in Ep, Em. red in Hr. set (n := length (callstackPayload c)) in *.
  rewrite uint_small in Em by (red; lia). unfold emplace in Em. rewrite E in Em.
  assert (Hn : (0 < n)%nat).
  { pose proof (so_null _ Hc) as E0. apply lookup_lt_Some in E0. done. }
  assert (Hat : callstackPayload c' !! n = Some (Some arr)).
  { rewrite Ep, lookup_app_r by done. unfold n. now rewrite Nat.sub_diag. }
  assert (Hold : forall j s, callstackPayload c !! j = Some s -> callstackPayload c' !! j = Some s).
  { intros j s Ej. rewrite Ep, lookup_app_l; [done | now apply lookup_lt_Some in Ej]. }
  split.
  - split; [lia | now rewrite Nat2Z.id | exact Hold |].
    intros j Hj Ej. assert (E' : callstackMap c !! arr = Some j) by now apply (so_map _ Hc). congruence.
  - split.
    + now apply Hold, so_null.
    + intros s i. rewrite Em. destruct (decide (s = arr)) as [-> | Hne].
      * rewrite lookup_insert_eq. split; [intros [= <-]; rewrite Nat2Z.id; split; [lia | done] |].
        intros [Hi Ei]. rewrite Ep in Ei. apply lookup_app_Some in Ei as [Ei | [Hge Ei]].
        -- assert (E' : callstackMap c !! arr = Some i) by now apply (so_map _ Hc). congruence.
        -- f_equal. apply lookup_lt_Some in Ei. cbn in Ei. fold n in Hge, Ei. lia.
      * rewrite lookup_insert_ne by congruence. rewrite (so_map _ Hc). split; intros [Hi Ei]; (split; [done |]).
        -- now apply Hold.
        -- rewrite Ep in Ei. apply lookup_app_Some in Ei as [Ei | [Hge Ei]]; [done |].
           fold n in Hge, Ei. destruct (Z.to_nat i - n)%nat as [| k]; cbn in Ei; [congruence | done].
    + intros s i id. rewrite Em. destruct (decide (s = arr)) as [-> | Hne].
      * intros _. apply Ha.
      * rewrite lookup_insert_ne by congruence. intros Ei Hid Hs. apply Hk. now apply (so_asked _ Hc s i).
Qed.

Lemma asks_known l fresh w w' id : asks l fresh w w' ->
  is_Some (callstackFrameMap (cst w) !! id) -> is_Some (callstackFrameMap (cst w') !! id).
Proof. intros H [d E]. rewrite (as_map _ _ _ _ H), E. eauto. Qed.
Lemma asks_asked l fresh w w' a : asks l fresh w w' -> a ∈ l -> is_Some (callstackFrameMap (cst w') !! frame_id a).
Proof.
  intros H Ha. rewrite (as_map _ _ _ _ H). destruct (callstackFrameMap (cst w) !! frame_id a) eqn:E; [eauto |].
  rewrite decide_True; [eauto |]. apply list_elem_of_In, in_map, list_elem_of_In, (as_fresh _ _ _ _ H). done.
Qed.

(** C32: a call stack of addresses gets a number under which it is found again, the
    number it had if the server has seen it before; the stacks with other numbers stay;
    and the client is asked, once, for the frames of exactly those of its addresses that
    were not asked for before. *)
Theorem AddCallstackPayload_interns (ptrs : list Z) (w : W) :
  Forall canonical ptrs -> stacks_ok (cst w) -> room (cst w) -> pending_ok w -> m_pendingCallstackId w = 0 ->
  wp (AddCallstackPayload (concat (map (le_bytes 8) ptrs))) (fun _ w' => let i := m_pendingCallstackId w' in
    interned (map frame_id ptrs) i (cst w) (cst w') /\ callstack_of (cst w') i = Some ptrs /\ stacks_ok (cst w') /\
    exists fresh, NoDup fresh /\
      (forall a, a ∈ fresh <-> a ∈ ptrs /\ callstackFrameMap (cst w) !! frame_id a = None) /\
      m_serverQueryQueue w' = m_serverQueryQueue w ++ map question fresh /\
      m_pendingCallstackFrames (cst w') = uint 32 (m_pendingCallstackFrames (cst w) + Z.of_nat (length fresh))) w.
Proof.
  intros Hp Hc Hr Hw H0. unfold AddCallstackPayload. apply wp_bind, wp_gets. rewrite H0. apply wp_bind, wp_assert; [done |].
  assert (Hu : Forall (in_uint 64) ptrs) by (eapply Forall_impl; [exact Hp | intros p [? _]; done]).
  apply wp_bind. eapply wp_expect.
  { rewrite words_bytes; [now apply mapM_PackPointer | done | rewrite length_words; lia]. }
  apply wp_bind. unfold intern_callstack. apply wp_bind, wp_gets.
  assert (Hof : forall c i, callstackPayload c !! Z.to_nat i = Some (Some (map frame_id ptrs)) -> callstack_of c i = Some ptrs).
  { intros c i E. unfold callstack_of. rewrite E. cbn. now apply mapM_GetCanonicalPointer. }
  destruct (callstackMap (cst w) !! map frame_id ptrs) as [i |] eqn:E.
  - wp_steps. pose proof (intern_known _ _ _ Hc E) as Hi. split; [exact Hi |]. split; [apply Hof, (in_stack _ _ _ _ Hi) |].
    split; [exact Hc |]. exists []. split; [apply NoDup_nil_2 |]. split; [| split; [now rewrite app_nil_r |]].
    + intros a. split; [inversion 1 |]. intros [Ha Ea]. destruct (so_asked _ Hc _ _ (frame_id a) E) as [d Ed]; [| | congruence].
      * apply list_elem_of_In, in_map, list_elem_of_In, Ha.
      * apply frame_id_fields.
    + cbn. now rewrite Z.add_0_r, uint_small.
  - apply wp_bind, wp_modify. apply wp_bind. eapply wp_mono.
    { apply ask_all_wp; [exact Hp | exact Hw |]. intros a Ha s.
      unfold mbind, M_bind, expect. now rewrite GetCanonicalPointer_frame_id. }
    intros [] w2 [fresh Hf]. wp_steps.
    assert (Ec : cst (w2 <| m_pendingCallstackId := uint 32 (Z.of_nat (length (callstackPayload (cst w)))) |>) = cst w2)
      by now destruct w2.
    rewrite Ec. cbn [m_pendingCallstackId]. pose proof (as_cst _ _ _ _ Hf) as E2. cbn in E2.
    destruct (intern_new (map frame_id ptrs) (cst w) (cst w2) Hc Hr E) as [Hi Hc2].
    + now rewrite E2.
    + now rewrite E2.
    + intros id. apply (asks_known _ _ _ _ id Hf).
    + intros id Hid _. apply list_elem_of_In, in_map_iff in Hid as (a & <- & Ha). apply list_elem_of_In in Ha.
      now apply (asks_asked _ _ _ _ a Hf).
    + unfold room in Hr. cbn. rewrite uint_small by (red; lia). split; [exact Hi |]. split; [apply Hof, (in_stack _ _ _ _ Hi) |].
      split; [exact Hc2 |]. exists fresh. split; [apply (as_nodup _ _ _ _ Hf) |]. split; [apply (as_fresh _ _ _ _ Hf) |].
      split; [apply (as_queue _ _ _ _ Hf) | apply (as_pending _ _ _ _ Hf)].
Qed.

(** A connection that has seen the stack [0x400100, 0x400200]. *)
Definition demo_stack_server : W :=
  (Worker (double_of_Z 1) 1000 0 100 false false [0; 0])
    <| cst ::= (fun c => c <| callstackPayload := [None; Some [0x400100; 0x400200]] |>
         <| callstackMap := {[ [0x400100; 0x400200] := 1 ]} |>
         <| callstackFrameMap := {[ 0x400100 := None; 0x400200 := None ]} |> <| m_pendingCallstackFrames := 2 |>) |>.

Lemma demo_stack_ok : stacks_ok (cst demo_stack_server).
Proof.
  split; [reflexivity | |].
  - intros s i. change (callstackMap (cst demo_stack_server)) with ({[ [0x400100; 0x400200] := 1 ]} : gmap (list Z) Z).
    rewrite lookup_singleton_Some. split; [intros [<- <-]; done |]. intros [Hi E].
    destruct (Z.to_nat i) as [| [| n]] eqn:En; [lia | | done]. injection E as <-. split; [done | lia].
  - intros s i id. change (callstackMap (cst demo_stack_server)) with ({[ [0x400100; 0x400200] := 1 ]} : gmap (list Z) Z).
    rewrite lookup_singleton_Some. intros [<- <-] Hid _. repeat (apply elem_of_cons in Hid as [-> | Hid]; [eexists; reflexivity |]).
    inversion Hid.
Qed.

Lemma AddCallstackPayload_interns_witness :
  let ptrs := [0x400100; 0xFFFFFFFF80000010] in
  wp (AddCallstackPayload (concat (map (le_bytes 8) ptrs))) (fun _ w' => let i := m_pendingCallstackId w' in
    interned (map frame_id ptrs) i (cst demo_stack_server) (cst w') /\ callstack_of (cst w') i = Some ptrs /\
    stacks_ok (cst w') /\
    exists fresh, NoDup fresh /\
      (forall a, a ∈ fresh <-> a ∈ ptrs /\ callstackFrameMap (cst demo_stack_server) !! frame_id a = None) /\
      m_serverQueryQueue w' = m_serverQueryQueue demo_stack_server ++ map question fresh /\
      m_pendingCallstackFrames (cst w') =
        uint 32 (m_pendingCallstackFrames (cst demo_stack_server) + Z.of_nat (length fresh))) demo_stack_server.
Proof.
  intros ptrs. apply (AddCallstackPayload_interns ptrs demo_stack_server).
  - repeat constructor; vm_compute; discriminate || reflexivity.
  - apply demo_stack_ok.
  - reflexivity.
  - split; [discriminate | reflexivity].
  - reflexivity.
Defined.
