(* ===== verification/ServerSample.v ===== *)
(** * Samples of call stacks: statistics and the call forest they suggest

    The operating system of the client reports, every sampling period, the call stack
    of a running thread.  The server keeps the samples of every thread, counts them by
    symbol, by call path and by caller, and builds from them a forest of ghost zones,
    which looks like the forest of the zones of an instrumented program.  What needs
    frames that have not arrived is put off until they have. *)
From S2P Require Import Prelude Double Queue Event Containers Discovery Wire Trace Server ServerZone ServerMem ServerPlot ServerCallstack ServerSymbol.

(** ** The samples of a thread *)
Definition GetSamples (td : nat) : M W ThreadSamples :=
  s ← gets smp; mret (default new_ThreadSamples (td_samples s !! td)).
Definition UpdSamples (td : nat) (f : ThreadSamples -> ThreadSamples) : M W unit :=
  s ← GetSamples td; UpdSmp (fun m => m <| td_samples ::= <[td := f s]> |>).

(* TracyEvent.hpp:267-267 SampleDataSort *)
Definition SampleDataSort (lhs rhs : SampleData) : bool := Int48.Val (sm_time lhs) <? Int48.Val (sm_time rhs).
Definition ChildSampleSort (lhs rhs : ChildSample) : bool := Int48.Val (ch_time lhs) <? Int48.Val (ch_time rhs).

(** A sample that is older than the last one is merged with the sample of the same
    time, if there is one. *)
(* TracyWorker.cpp:6547-6582 *)
Definition ProcessCallstackSampleInsertSample (sd : SampleData) (td : nat) : M W unit :=
  let t := Int48.Val (sm_time sd) in
  ts ← GetSamples td;
  merged ← match last (samples ts) with
    | Some b =>
        if negb (t =? 0) && (t <=? Int48.Val (sm_time b)) then
          UpdSmp (fun s => s <| m_inconsistentSamples := true |>);;
          let it := lower_bound SampleDataSort (samples ts) sd in
          x ← expect (samples ts !! it);
          if negb (Int48.Val (sm_time x) =? t) then mret false
          else
            mcs ← MergeCallstacks (Int24.Val (sm_callstack x)) (Int24.Val (sm_callstack sd));
            UpdSamples td (fun ts => ts <| samples ::= <[it := x <| sm_callstack ::= Int24.SetVal mcs |>]> |>);;
            mret true
        else mret false
    | None => mret false
    end;
  if merged : bool then mret tt else
  UpdSamples td (fun ts => ts <| samples ::= (fun l => l ++ [sd]) |>);;
  cs ← GetCallstack (Int24.Val (sm_callstack sd));
  ip ← expect (head cs);
  ptr ← expect (GetCanonicalPointer ip);
  (if negb (Z.shiftr ptr 63 =? 0) then
     UpdSamples td (fun ts => ts <| kernelSampleCnt ::= (fun n => uint 64 (n + 1)) |>)
   else mret tt);;
  UpdSmp (fun s => s <| samplesCnt ::= (fun n => uint 64 (n + 1)) |>).

(** ** Statistics of symbols *)

(* TracyWorker.cpp:7935-7963 *)
Definition InternSyntheticCallstack (head : option CallstackFrameId.t) (cs : list CallstackFrameId.t)
    (from : nat) : M W Z :=
  let arr := match head with Some h => h :: drop from cs | None => drop from cs end in
  s ← gets smp;
  match syntheticCallstackMap s !! arr with
  | Some i => mret i
  | None =>
      let idx := uint 32 (Z.of_nat (length (syntheticCallstackPayload s))) in
      UpdSmp (fun s => s <| syntheticCallstackMap ::= emplace arr idx |>
                         <| syntheticCallstackPayload ::= (fun l => l ++ [arr]) |>);;
      mret idx
  end.
(* TracyWorker.cpp:7965-7988 *)
Definition InternSyntheticFrame (cfd : CallstackFrameData) : M W CallstackFrameId.t :=
  s ← gets smp;
  match revSyntheticFrameMap s !! rev_frame_key cfd with
  | Some id => mret id
  | None =>
      let id := CallstackFrameId.make (m_callstackSyntheticNextIdx s) 0 1 in
      UpdSmp (fun s => s <| m_callstackSyntheticNextIdx ::= (fun n => uint 64 (n + 1)) |>
                         <| syntheticCallstackFrameMap ::= emplace id cfd |>
                         <| revSyntheticFrameMap ::= emplace (rev_frame_key cfd) id |>);;
      mret id
  end.

Definition new_SymbolStats : SymbolStats := mkSymbolStats 0 0 ∅ ∅ ∅ ∅.
Definition UpdSymbol (symAddr : Z) (f : SymbolStats -> SymbolStats) : M W unit :=
  UpdSmp (fun s => s <| symbolStats ::= (fun m => <[symAddr := f (default new_SymbolStats (m !! symAddr))]> m) |>).
(** The frames of a group that are in use. *)
Definition group_frames (d : CallstackFrameData) : list CallstackFrame := take (Z.to_nat (cfd_size d)) (cfd_data d).

(** The symbols of a call stack that were not [seen], each one once. *)
(* TracyWorker.cpp:7856-7875 UpdateSampleStatisticsImpl *)
Fixpoint count_inclusive (count : Z) (syms : list Z) (seen : gset Z) : M W unit :=
  match syms with
  | [] => mret tt
  | s :: syms =>
      if bool_decide (s ∈ seen) then count_inclusive count syms seen else
      UpdSymbol s (fun t => t <| ss_incl ::= (fun n => uint 32 (n + count)) |>);;
      count_inclusive count syms ({[s]} ∪ seen)
  end.
(* TracyWorker.cpp:7877-7888 UpdateSampleStatisticsImpl *)
Definition UpdateEntry (idx count : Z) (m : gmap Z Z) : gmap Z Z :=
  <[idx := match m !! idx with Some n => uint 32 (n + count) | None => count end]> m.

(** The frames of the group [c], from the outermost one, which has index [f - 1], on. *)
(* TracyWorker.cpp:7899-7930 UpdateSampleStatisticsImpl *)
Fixpoint entry_frames (cs : list CallstackFrameId.t) (count : Z) (fdat : CallstackFrameData) (c f : nat)
    (suffixIdx : Z) (seen : gset Z) : M W (gset Z) :=
  match f with
  | O => mret seen
  | S f =>
      frame ← expect (group_frames fdat !! f);
      let symAddr := cf_symAddr frame in
      idx ← (if Z.of_nat f =? cfd_size fdat - 1 then mret suffixIdx
             else
               let rest := drop (S f) (group_frames fdat) in
               synthetic ← InternSyntheticFrame (mkFrameGroup rest (Z.of_nat (length rest)) (cfd_imageName fdat));
               InternSyntheticCallstack (Some synthetic) cs (S c));
      s ← gets smp;
      assert_ (bool_decide (is_Some (symbolStats s !! symAddr)));;
      UpdSymbol symAddr (fun t => t <| wasReached ::= UpdateEntry idx count |>);;
      (if bool_decide (symAddr ∈ seen) then mret tt
       else UpdSymbol symAddr (fun t => t <| wasReachedNonReentrant ::= UpdateEntry idx count |>));;
      (if Nat.eqb c 0 && Nat.eqb f 0 then
         UpdSymbol symAddr (fun t => t <| wasExecuting ::= UpdateEntry idx count |>
                                       <| wasExecutingBase ::= UpdateEntry suffixIdx count |>)
       else mret tt);;
      entry_frames cs count fdat c f suffixIdx ({[symAddr]} ∪ seen)
  end.
(** The groups of a call stack, from the outermost one, which is the last, on. *)
(* TracyWorker.cpp:7895-7933 UpdateSampleStatisticsImpl *)
Fixpoint entry_groups (cs : list CallstackFrameId.t) (count : Z) (frames : list CallstackFrameData) (c : nat)
    (suffixIdx : Z) (seen : gset Z) : M W unit :=
  match c with
  | O => mret tt
  | S c =>
      fdat ← expect (frames !! c);
      seen ← entry_frames cs count fdat c (Z.to_nat (cfd_size fdat)) suffixIdx seen;
      suffixIdx ← (if Nat.ltb 0 c then InternSyntheticCallstack None cs c else mret suffixIdx);
      entry_groups cs count frames c suffixIdx seen
  end.
(* TracyWorker.cpp:7842-7933 *)
Definition UpdateSampleStatisticsImpl (frames : list CallstackFrameData) (count : Z)
    (cs : list CallstackFrameId.t) : M W unit :=
  fexcl ← expect (head frames);
  frame0 ← expect (head (cfd_data fexcl));
  let sym0 := cf_symAddr frame0 in
  UpdSymbol sym0 (fun t => t <| ss_excl ::= (fun n => uint 32 (n + count)) |>
                             <| ss_incl ::= (fun n => uint 32 (n + count)) |>);;
  count_inclusive count (map cf_symAddr (tail (group_frames fexcl) ++ concat (map group_frames (tail frames)))) {[sym0]};;
  suffixIdx ← InternSyntheticCallstack None cs (length frames);
  entry_groups cs count frames (length frames) suffixIdx ∅.

(** All frames of a call stack, or nothing if one of them has not arrived. *)
(* TracyWorker.cpp:7782-7805 UpdateSampleStatistics *)
Fixpoint known_frames (cs : list CallstackFrameId.t) : M W (option (list CallstackFrameData)) :=
  match cs with
  | [] => mret (Some [])
  | f :: cs =>
      frame ← GetCallstackFrame f;
      match frame with
      | None => mret None
      | Some d => r ← known_frames cs; mret (fmap (cons d) r)
      end
  end.
(* TracyWorker.cpp:7776-7819 *)
Definition UpdateSampleStatistics (callstack count : Z) (canPostpone : bool) : M W bool :=
  cs ← GetCallstack callstack;
  frames ← known_frames cs;
  s ← gets smp;
  let put_off := default 0 (postponedSamples s !! callstack) in
  match frames with
  | None =>
      when canPostpone (UpdSmp (fun s => s <| postponedSamples ::= <[callstack := uint 32 (put_off + count)]> |>));;
      mret false
  | Some frames =>
      let count := if canPostpone then uint 32 (count + put_off) else count in
      when canPostpone (UpdSmp (fun s => s <| postponedSamples ::= delete callstack |>));;
      UpdateSampleStatisticsImpl frames count cs;;
      mret true
  end.
(* TracyWorker.cpp:7821-7840 *)
Definition UpdateSampleStatisticsPostponed (callstack count : Z) : M W unit :=
  cs ← GetCallstack callstack;
  frames ← known_frames cs;
  match frames with
  | None => mret tt
  | Some frames =>
      UpdateSampleStatisticsImpl frames count cs;;
      UpdSmp (fun s => s <| postponedSamples ::= delete callstack |>)
  end.
(** The order in which a hash map is gone through is not known. *)
Class PostponedOrder := visit : gmap Z Z -> list (Z * Z).
(* TracyWorker.cpp:4401-4411 *)
Definition HandlePostponedSamples `{PostponedOrder} : M W unit :=
  s ← gets smp;
  assert_ (newFramesWereReceived s);;
  for_each (visit (postponedSamples s)) (fun p => UpdateSampleStatisticsPostponed (fst p) (snd p)).

(** ** Ghost zones *)

(* TracyWorker.hpp:161-166 InlineStackData *)
Record InlineStackData := mkInlineStack { is_symAddr : Z; is_frame : CallstackFrameId.t; is_inlineFrame : Z }.
(** The frames of an address, from the outermost one on. *)
(* TracyWorker.cpp:4420-4433 GetStackWithInlines *)
Definition inline_frames (entry : CallstackFrameId.t) : M W (list InlineStackData) :=
  frame ← GetCallstackFrame entry;
  match frame with
  | Some d => mret (rev (imap (fun i f => mkInlineStack (cf_symAddr f) entry (Z.of_nat i)) (group_frames d)))
  | None => ptr ← expect (GetCanonicalPointer entry); mret [mkInlineStack ptr entry 0]
  end.
Fixpoint stack_with_inlines (rcs : list CallstackFrameId.t) : M W (list InlineStackData) :=
  match rcs with
  | [] => mret []
  | entry :: rcs => l ← inline_frames entry; r ← stack_with_inlines rcs; mret (l ++ r)
  end.
(** A call stack lists the innermost address first. *)
(* TracyWorker.cpp:4413-4437 *)
Definition GetStackWithInlines (cs : list CallstackFrameId.t) : M W (list InlineStackData) :=
  assert_ (negb (bool_decide (cs = [])));; stack_with_inlines (rev cs).

(** A vector of ghost zones: that of a thread, or one of [ghostChildren]. *)
Inductive gvec := Root (td : nat) | Child (i : nat).
Definition GetVec (v : gvec) : M W (list GhostZone) :=
  match v with
  | Root td => ts ← GetSamples td; mret (ghostZones ts)
  | Child i => s ← gets smp; expect (ghostChildren s !! i)
  end.
Definition SetVec (v : gvec) (l : list GhostZone) : M W unit :=
  match v with
  | Root td => UpdSamples td (fun ts => ts <| ghostZones := l |>)
  | Child i => UpdSmp (fun s => s <| ghostChildren ::= <[i := l]> |>)
  end.
(** [&m_data.ghostChildren.push_next()] *)
Definition NewVec : M W nat :=
  s ← gets smp;
  UpdSmp (fun s => s <| ghostChildren ::= (fun l => l ++ [[]]) |>);; mret (length (ghostChildren s)).

(** The zones that were taken to last longer than the new sample says end at it: the
    last zone of each level, as long as they end together. *)
(* TracyWorker.cpp:4443-4455 AddGhostZone *)
Fixpoint cut_spine (fuel : nat) (refBackTime t : Z) (tmp : gvec) : M W unit :=
  match fuel with
  | O => stop
  | S fuel =>
      vec ← GetVec tmp;
      back ← expect (last vec);
      if negb (Int48.Val (gz_end back) =? refBackTime) then mret tt else
      SetVec tmp (set_back (back <| gz_end ::= Int48.SetVal t |>) vec);;
      if gz_child back <? 0 then mret tt else cut_spine fuel refBackTime t (Child (Z.to_nat (gz_child back)))
  end.
(** The zones that the new sample continues, and what is left of its stack. *)
(* TracyWorker.cpp:4459-4480 AddGhostZone *)
Fixpoint extend_spine (refBackTime t period : Z) (vec : gvec) (stack : list InlineStackData) :
    M W (gvec * list InlineStackData) :=
  match stack with
  | [] => mret (vec, [])
  | x :: rest =>
      v ← GetVec vec;
      match last v with
      | None => mret (vec, stack)
      | Some back =>
          s ← gets smp;
          backKey ← expect (ghostFrames s !! Z.to_nat (Int24.Val (gz_frame back)));
          backFrame ← GetCallstackFrame (fst backKey);
          match backFrame with
          | None => mret (vec, stack)
          | Some d =>
              inlineFrame ← expect (cfd_data d !! Z.to_nat (snd backKey));
              if negb (cf_symAddr inlineFrame =? is_symAddr x) then mret (vec, stack) else
              if negb (Int48.Val (gz_end back) =? refBackTime) then mret (vec, stack) else
              let back := back <| gz_end ::= Int48.SetVal (t + period) |> in
              SetVec vec (set_back back v);;
              match rest with
              | [] => mret (vec, [])
              | _ =>
                  if gz_child back <? 0 then
                    i ← NewVec;
                    SetVec vec (set_back (back <| gz_child := sint 32 (Z.of_nat i) |>) v);;
                    extend_spine refBackTime t period (Child i) rest
                  else extend_spine refBackTime t period (Child (Z.to_nat (gz_child back))) rest
              end
          end
      end
  end.
(* TracyWorker.cpp:4484-4496 AddGhostZone *)
Definition ghost_frame (key : GhostKey) : M W Z :=
  s ← gets smp;
  match ghostFramesMap s !! key with
  | Some fid => mret fid
  | None =>
      let fid := uint 32 (Z.of_nat (length (ghostFrames s))) in
      UpdSmp (fun s => s <| ghostFrames ::= (fun l => l ++ [key]) |> <| ghostFramesMap ::= emplace key fid |>);;
      mret fid
  end.
(** New zones for the rest of the stack. *)
(* TracyWorker.cpp:4481-4509 AddGhostZone *)
Fixpoint grow_spine (t period : Z) (vec : gvec) (stack : list InlineStackData) : M W unit :=
  match stack with
  | [] => mret tt
  | x :: rest =>
      fid ← ghost_frame (is_frame x, is_inlineFrame x);
      v ← GetVec vec;
      let zone c := mkGhost (Int48.make t) (Int48.make (t + period)) (Int24.make fid) c in
      match rest with
      | [] => SetVec vec (v ++ [zone (-1)])
      | _ =>
          s ← gets smp;
          SetVec vec (v ++ [zone (sint 32 (Z.of_nat (length (ghostChildren s))))]);;
          i ← NewVec;
          grow_spine t period (Child i) rest
      end
  end.
(** Every level below the first one is a vector of its own, so their number bounds the
    depth. *)
(* TracyWorker.cpp:4439-4511 *)
Definition AddGhostZone (cs : list CallstackFrameId.t) (vec : gvec) (t : Z) : M W Z :=
  stack ← GetStackWithInlines cs;
  s ← gets smp;
  let period := m_samplingPeriod s in
  v ← GetVec vec;
  match last v with
  | Some b => when (t <? Int48.Val (gz_end b))
                (cut_spine (S (length (ghostChildren s))) (Int48.Val (gz_end b)) t vec)
  | None => mret tt
  end;;
  v ← GetVec vec;
  let refBackTime := match last v with Some b => Int48.Val (gz_end b) | None => 0 end in
  p ← extend_spine refBackTime t period vec stack;
  grow_spine t period (fst p) (snd p);;
  mret (Z.of_nat (length (snd p))).

(** The samples of a thread that were not turned into ghost zones, as long as their
    frames are known; and whether there are some left. *)
(* TracyWorker.cpp:4518-4537 HandlePostponedGhostZones *)
Fixpoint postponed_ghosts (fuel : nat) (td : nat) : M W bool :=
  match fuel with
  | O => stop
  | S fuel =>
      ts ← GetSamples td;
      if ghostIdx ts =? Z.of_nat (length (samples ts)) then mret false else
      sample ← expect (samples ts !! Z.to_nat (ghostIdx ts));
      cs ← GetCallstack (Int24.Val (sm_callstack sample));
      frames ← known_frames cs;
      match frames with
      | None => mret true
      | Some _ =>
          UpdSamples td (fun ts => ts <| ghostIdx ::= (fun n => uint 64 (n + 1)) |>);;
          n ← AddGhostZone cs (Root td) (Int48.Val (sm_time sample));
          UpdSmp (fun s => s <| ghostCnt ::= (fun c => uint 64 (c + n)) |>);;
          postponed_ghosts fuel td
      end
  end.
Fixpoint postponed_threads (tds : list nat) : M W bool :=
  match tds with
  | [] => mret false
  | td :: tds =>
      ts ← GetSamples td;
      p ← postponed_ghosts (S (length (samples ts))) td;
      q ← postponed_threads tds;
      mret (p || q)
  end.
(* TracyWorker.cpp:4513-4539 *)
Definition HandlePostponedGhostZones : M W unit :=
  s ← gets smp;
  assert_ (newFramesWereReceived s);;
  if negb (ghostZonesPostponed s) then mret tt else
  ts ← gets threads;
  postponed ← postponed_threads (seq 0 (length ts));
  UpdSmp (fun s => s <| ghostZonesPostponed := postponed |>).

(** ** Samples as they arrive *)

(* TracyWorker.cpp:6638-6681 ProcessCallstackSampleImplStats *)
Definition count_pointer (sd : SampleData) (tid : Z) (ip : CallstackFrameId.t)
    (frame : option CallstackFrameData) : M W unit :=
  let r := mkSampleRange (sm_time sd) tid ip in
  s ← gets smp;
  match frame with
  | Some d =>
      f ← expect (head (cfd_data d));
      let symAddr := cf_symAddr f in
      let m := default ∅ (instructionPointersMap s !! symAddr) in
      let n := match m !! ip with Some n => uint 32 (n + 1) | None => 1 end in
      UpdSmp (fun s => s <| instructionPointersMap ::= <[symAddr := <[ip := n]> m]> |>);;
      l ← match symbolSamples s !! symAddr with
          | None => mret [r]
          | Some l => expect (insert_range r l)
          end;
      UpdSmp (fun s => s <| symbolSamples ::= <[symAddr := l]> |>)
  | None =>
      let n := match pendingInstructionPointers s !! ip with Some n => uint 32 (n + 1) | None => 1 end in
      UpdSmp (fun s => s <| pendingInstructionPointers ::= <[ip := n]> |>
        <| pendingSymbolSamples ::= <[ip := default [] (pendingSymbolSamples s !! ip) ++ [r]]> |>)
  end.
(** Every caller gets a sample of the callee. *)
(* TracyWorker.cpp:6697-6711 ProcessCallstackSampleImplStats *)
Fixpoint count_callers (time : Int48.t) (childAddr : Z) (cs : list CallstackFrameId.t) : M W unit :=
  match cs with
  | [] => mret tt
  | f :: cs =>
      addr ← expect (GetCanonicalPointer f);
      UpdSmp (fun s => s <| childSamples ::= (fun m =>
        <[addr := SortedVector.push_back ChildSampleSort (mkChildSample time childAddr)
                    (default SortedVector.empty (m !! addr))]> m) |>);;
      count_callers time addr cs
  end.
(* TracyWorker.cpp:6627-6729 *)
Definition ProcessCallstackSampleImplStats (sd : SampleData) (td : nat) : M W unit :=
  let t := Int48.Val (sm_time sd) in
  let callstack := Int24.Val (sm_callstack sd) in
  cs ← GetCallstack callstack;
  ip ← expect (head cs);
  thread ← GetThread td;
  tid ← CompressThread (id thread);
  frame ← GetCallstackFrame ip;
  count_pointer sd tid ip frame;;
  childAddr ← expect (GetCanonicalPointer ip);
  count_callers (sm_time sd) childAddr (tail cs);;
  framesKnown ← UpdateSampleStatistics callstack 1 true;
  if t =? 0 then mret tt else
  ts ← GetSamples td;
  if framesKnown && (ghostIdx ts + 1 =? Z.of_nat (length (samples ts))) then
    UpdSamples td (fun ts => ts <| ghostIdx ::= (fun n => uint 64 (n + 1)) |>);;
    n ← AddGhostZone cs (Root td) t;
    UpdSmp (fun s => s <| ghostCnt ::= (fun c => uint 64 (c + n)) |>)
  else UpdSmp (fun s => s <| ghostZonesPostponed := true |>).

(** [(uint64_t)l.End() < (uint64_t)r] *)
Definition ends_before (time : Z) (c : ContextSwitchData.t) : bool :=
  uint 64 (ContextSwitchData.End_ c) <? uint 64 time.
(** The regions from the first one on that does not end before [time]. *)
Fixpoint regions_from (time : Z) (v : list ContextSwitchData.t) : list ContextSwitchData.t :=
  match v with
  | [] => []
  | c :: v' => if ends_before time c then regions_from time v' else v
  end.

(** What is done with a sample: it is counted, or it waits for context switches, or it
    is the one that the start of a region caused. *)
(* TracyWorker.cpp:6584-6624 *)
Definition ProcessCallstackSampleImpl (sd : SampleData) (td : nat) : M W unit :=
  ProcessCallstackSampleInsertSample sd td;;
  let t := Int48.Val (sm_time sd) in
  s ← gets smp;
  if (t =? 0) || negb (m_identifySamples s) then ProcessCallstackSampleImplStats sd td else
  thread ← GetThread td;
  m ← gets ctxSwitch;
  match (ctx ← m !! id thread; head (regions_from t (cs_v ctx))) with
  | None => UpdSamples td (fun ts => ts <| td_postponedSamples ::= SortedVector.push_back SampleDataSort sd |>)
  | Some it =>
      if t =? ContextSwitchData.Start it then
        UpdSamples td (fun ts => ts <| ctxSwitchSamples ::= SortedVector.push_back SampleDataSort sd |>)
      else ProcessCallstackSampleImplStats sd td
  end.

(** The call stack, time and thread of an event. *)
(* TracyWorker.cpp:6733-6745 ProcessCallstackSample *)
Definition take_sample (thread ev_time : Z) : M W (SampleData * nat * Z * Z) :=
  callstack ← gets m_pendingCallstackId;
  assert_ (negb (callstack =? 0));;
  modify (fun w => w <| m_pendingCallstackId := 0 |>);;
  refTime ← RefTime m_refTimeCtx ev_time;
  t ← (if refTime =? 0 then mret 0 else TscTime refTime);
  touch_lastTime t;;
  p ← NoticeThread thread;
  td ← deref p;
  mret (mkSample (Int48.make t) (Int24.make callstack), td, t, callstack).
(** Two samples of the same time make one: what the kernel saw and what the program
    saw. *)
(* TracyWorker.cpp:6731-6774 *)
Definition ProcessCallstackSample (thread ev_time : Z) : M W unit :=
  p ← take_sample thread ev_time;
  let '(sd, td, t, callstack) := p in
  s ← gets smp;
  if m_combineSamples s && negb (t =? 0) then
    ts ← GetSamples td;
    let pendingTime := Int48.Val (sm_time (pendingSample ts)) in
    if pendingTime =? 0 then UpdSamples td (fun ts => ts <| pendingSample := sd |>)
    else if pendingTime =? t then
      mcs ← MergeCallstacks (Int24.Val (sm_callstack (pendingSample ts))) callstack;
      ProcessCallstackSampleImpl (sd <| sm_callstack ::= Int24.SetVal mcs |>) td;;
      UpdSamples td (fun ts => ts <| pendingSample ::= (fun p => p <| sm_time := 0 |>) |>)
    else
      ProcessCallstackSampleImpl (pendingSample ts) td;;
      UpdSamples td (fun ts => ts <| pendingSample := sd |>)
  else ProcessCallstackSampleImpl sd td.

(** The offsets that the client subtracted are added back. *)
(* TracyWorker.cpp:6776-6781 *)
Definition ProcessCallstackSample64 (thread time : Z) : M W unit :=
  ProcessCallstackSample thread (unpack64 time).
(* TracyWorker.cpp:6783-6790 *)
Definition ProcessCallstackSample32 (thread time : Z) : M W unit :=
  ProcessCallstackSample thread (sint 64 (time + ProtocolOffset16Bit)).
(* TracyWorker.cpp:6792-6799 *)
Definition ProcessCallstackSample16 (thread time : Z) : M W unit := ProcessCallstackSample thread time.

(* TracyWorker.cpp:6801-6820 *)
Definition ProcessCallstackSampleContextSwitch (thread ev_time : Z) : M W unit :=
  p ← take_sample thread ev_time;
  let '(sd, td, t, _) := p in
  ProcessCallstackSampleInsertSample sd td;;
  UpdSamples td (fun ts => ts <| ctxSwitchSamples ::= SortedVector.push_back SampleDataSort sd |>).
(* TracyWorker.cpp:6822-6827 *)
Definition ProcessCallstackSampleContextSwitch64 (thread time : Z) : M W unit :=
  ProcessCallstackSampleContextSwitch thread (unpack64 time).
(* TracyWorker.cpp:6829-6836 *)
Definition ProcessCallstackSampleContextSwitch32 (thread time : Z) : M W unit :=
  ProcessCallstackSampleContextSwitch thread (sint 64 (time + ProtocolOffset16Bit)).
(* TracyWorker.cpp:6838-6845 *)
Definition ProcessCallstackSampleContextSwitch16 (thread time : Z) : M W unit :=
  ProcessCallstackSampleContextSwitch thread time.

(** ** Work that was put off *)

(** The parallel sort of the third-party [ppqsort], for each type it is used at. *)
Class PostponedSorts := {
  ppq_samples : list SampleData -> list SampleData;
  ppq_symbols : list SymbolLocation -> list SymbolLocation;
  ppq_inline : list Z -> list Z;
  ppq_plot : list PlotItem -> list PlotItem }.

Section Postponed.
Context `{PostponedSorts} `{PostponedOrder}.

(** A sorted part, and after it new elements, which are sorted and merged into it. *)
Definition sort_new {T} (comp : T -> T -> bool) (ppq : list T -> list T) (n : nat) (l : list T) : option (list T) :=
  let pre := take n l in
  let suf := ppq (drop n l) in
  se ← head suf;
  let ms := lower_bound comp pre se in
  Some (take ms pre ++ merge comp (drop ms pre) suf).
Definition addr_before (l r : SymbolLocation) : bool := sl_addr l <? sl_addr r.
(* TracyWorker.cpp:4302-4315 *)
Definition DoPostponedSymbols : M W unit :=
  c ← gets cst;
  if 0 <=? newSymbolsIndex c then
    l ← expect (sort_new addr_before ppq_symbols (Z.to_nat (newSymbolsIndex c)) (symbolLoc c));
    UpdCst (fun c => c <| symbolLoc := l |> <| newSymbolsIndex := -1 |>)
  else mret tt.
(* TracyWorker.cpp:4317-4330 *)
Definition DoPostponedInlineSymbols : M W unit :=
  c ← gets cst;
  if 0 <=? newInlineSymbolsIndex c then
    l ← expect (sort_new Z.ltb ppq_inline (Z.to_nat (newInlineSymbolsIndex c)) (symbolLocInline c));
    UpdCst (fun c => c <| symbolLocInline := l |> <| newInlineSymbolsIndex := -1 |>)
  else mret tt.

(** The samples that the regions known by now cover; the others stay. *)
(* TracyWorker.cpp:4364-4381 DoPostponedWork *)
Fixpoint settle_postponed (td : nat) (sits : list SampleData) (v : list ContextSwitchData.t) :
    M W (list SampleData) :=
  match sits with
  | [] => mret []
  | sit :: rest =>
      let t := Int48.Val (sm_time sit) in
      match regions_from t v with
      | [] => mret sits
      | cit :: v' =>
          (if t =? ContextSwitchData.Start cit then
             UpdSamples td (fun ts => ts <| ctxSwitchSamples ::= SortedVector.push_back SampleDataSort sit |>)
           else ProcessCallstackSampleImplStats sit td);;
          settle_postponed td rest (cit :: v')
      end
  end.
(* TracyWorker.cpp:4356-4394 DoPostponedWork *)
Definition settle_thread (td : nat) : M W unit :=
  ts ← GetSamples td;
  match SortedVector.v (td_postponedSamples ts) with
  | [] => mret tt
  | _ =>
      thread ← GetThread td;
      m ← gets ctxSwitch;
      match m !! id thread with
      | None => mret tt
      | Some ctx =>
          s ← expect (SortedVector.ensure_sorted SampleDataSort ppq_samples (td_postponedSamples ts));
          UpdSamples td (fun ts => ts <| td_postponedSamples := s |>);;
          rest ← settle_postponed td (SortedVector.v s) (cs_v ctx);
          if Nat.eqb (length rest) (length (SortedVector.v s)) then mret tt else
          UpdSamples td (fun ts => ts <| td_postponedSamples := SortedVector.mk rest 0 |>);;
          ts ← GetSamples td;
          s ← expect (SortedVector.ensure_sorted SampleDataSort ppq_samples (ctxSwitchSamples ts));
          UpdSamples td (fun ts => ts <| ctxSwitchSamples := s |>)
      end
  end.
(* TracyWorker.cpp:4344-4398 *)
Definition DoPostponedWork : M W unit :=
  s ← gets smp;
  (if newFramesWereReceived s then
     HandlePostponedSamples;;
     HandlePostponedGhostZones;;
     UpdSmp (fun s => s <| newFramesWereReceived := false |>)
   else mret tt);;
  c ← gets cpu;
  if m_identifySamples s && newContextSwitchesReceived c then
    ts ← gets threads;
    for_each (seq 0 (length ts)) settle_thread;;
    modify (fun w => w <| cpu ::= (fun c => c <| newContextSwitchesReceived := false |>) |>)
  else mret tt.
(* TracyWorker.cpp:4332-4342 *)
Definition DoPostponedWorkAll : M W unit :=
  DoPostponedWork;;
  DoPostponedSymbols;;
  DoPostponedInlineSymbols;;
  p ← gets plots;
  for_each (StringDiscovery.Data p) (fun plot =>
    d ← GetPlot plot;
    s ← expect (SortedVector.ensure_sorted PlotItemSort ppq_plot (pl_data d));
    SetPlot plot (d <| pl_data := s |>)).
End Postponed.
