(* ===== verification/GhostSpec.v ===== *)
(** * Ghost zones: the open ones are the last call stack

    A ghost zone that is open ends one sampling period after the last sample; it is the
    last one of its level and has the next one below it.  A sample closes the zones
    that are not in its call stack, makes those that are last longer, and opens the
    others. *)
From S2P Require Import Prelude Double Queue Event Containers Discovery Wire Trace Server ServerZone ServerMem ServerPlot ServerCallstack ServerSymbol ServerSample.

(** ** Vectors of zones *)
Definition samples_of (w : W) (td : nat) : ThreadSamples := default new_ThreadSamples (td_samples (smp w) !! td).
Definition vec_at (w : W) (v : gvec) : list GhostZone :=
  match v with
  | Root td => ghostZones (samples_of w td)
  | Child i => default [] (ghostChildren (smp w) !! i)
  end.
Definition levels (w : W) : nat := length (ghostChildren (smp w)).
Definition is_vec (w : W) (v : gvec) : Prop := match v with Root _ => True | Child i => (i < levels w)%nat end.

Definition with_vec (v : gvec) (l : list GhostZone) (w : W) : W :=
  match v with
  | Root td => w <| smp ::= (fun m => m <| td_samples ::= <[td := (samples_of w td) <| ghostZones := l |>]> |>) |>
  | Child i => w <| smp ::= (fun m => m <| ghostChildren ::= <[i := l]> |>) |>
  end.
Definition new_level (w : W) : W := w <| smp ::= (fun m => m <| ghostChildren ::= (fun l => l ++ [[]]) |>) |>.

(** Only ghost zones are different. *)
Record ghosts_only (w w' : W) : Prop := {
  go_rest : w' = w <| smp := smp w' |>;
  go_threads td : samples_of w' td = (samples_of w td) <| ghostZones := vec_at w' (Root td) |>;
  go_smp : smp w' = (smp w) <| td_samples := td_samples (smp w') |> <| ghostChildren := ghostChildren (smp w') |>
    <| ghostFrames := ghostFrames (smp w') |> <| ghostFramesMap := ghostFramesMap (smp w') |> }.

Lemma ghosts_only_refl w : ghosts_only w w.
Proof. split; [now destruct w | intros td; cbn; now destruct (samples_of w td) | now destruct (smp w)]. Qed.
Lemma ghosts_only_trans w w1 w2 : ghosts_only w w1 -> ghosts_only w1 w2 -> ghosts_only w w2.
Proof.
  intros [A1 A2 A3] [B1 B2 B3]. split.
  - rewrite B1, A1. now destruct w.
  - intros td. rewrite B2, A2. cbn. now destruct (samples_of w td).
  - rewrite B3, A3. now destruct (smp w).
Qed.

Lemma vec_with w v l : is_vec w v -> vec_at (with_vec v l w) v = l.
Proof.
  destruct v as [td | i]; cbn; intros Hv.
  - unfold samples_of. cbn. now rewrite lookup_insert_eq.
  - now rewrite list_lookup_insert_eq.
Qed.
Lemma vec_with_ne w v l v' : v' <> v -> vec_at (with_vec v l w) v' = vec_at w v'.
Proof.
  destruct v as [td | i], v' as [td' | i']; cbn; intros Hv; try done.
  - unfold samples_of. cbn. rewrite lookup_insert_ne by congruence. done.
  - rewrite list_lookup_insert_ne by congruence. done.
Qed.
Lemma levels_with w v l : levels (with_vec v l w) = levels w.
Proof. destruct v; [done |]. unfold levels. cbn. now rewrite length_insert. Qed.
Lemma is_vec_levels w w' v : (levels w <= levels w')%nat -> is_vec w v -> is_vec w' v.
Proof. destruct v; cbn; [done | lia]. Qed.
Lemma ghosts_only_with w v l : ghosts_only w (with_vec v l w).
Proof.
  split.
  - destruct v; now destruct w.
  - intros td. destruct v as [td' | i]; cbn; unfold samples_of; cbn.
    + destruct (decide (td = td')) as [-> | Hne]; [rewrite lookup_insert_eq | rewrite lookup_insert_ne by congruence]; cbn.
      * now destruct (samples_of w td').
      * now destruct (td_samples (smp w) !! td) as [[] |].
    + now destruct (td_samples (smp w) !! td) as [[] |].
  - destruct v; cbn; now destruct (smp w).
Qed.

Lemma vec_new w v : vec_at (new_level w) v = vec_at w v.
Proof.
  destruct v as [td | i]; cbn; [done |]. destruct (lt_eq_lt_dec i (levels w)) as [[H | ->] | H]; unfold levels in *.
  - now rewrite lookup_app_l.
  - rewrite lookup_app_r, Nat.sub_diag, (lookup_ge_None_2 (ghostChildren (smp w))) by lia. done.
  - rewrite !lookup_ge_None_2; [done | lia | rewrite length_app; cbn; lia].
Qed.
Lemma levels_new w : levels (new_level w) = S (levels w).
Proof. unfold levels. cbn. rewrite length_app. cbn. lia. Qed.
Lemma ghosts_only_new w : ghosts_only w (new_level w).
Proof.
  split; [now destruct w | | cbn; now destruct (smp w)]. intros td.
  change (samples_of w td = (samples_of w td) <| ghostZones := ghostZones (samples_of w td) |>). now destruct (samples_of w td).
Qed.

Lemma GetSamples_wp td w (Q : ThreadSamples -> W -> Prop) : Q (samples_of w td) w -> wp (GetSamples td) Q w.
Proof. intros HQ. unfold GetSamples. wp_steps. exact HQ. Qed.
Lemma GetVec_wp v w (Q : list GhostZone -> W -> Prop) : is_vec w v -> Q (vec_at w v) w -> wp (GetVec v) Q w.
Proof.
  intros Hv HQ. destruct v as [td | i]; cbn in *.
  - apply wp_bind, GetSamples_wp. wp_steps. exact HQ.
  - destruct (lookup_lt_is_Some_2 _ _ Hv) as [l El]. wp_steps. rewrite El. cbn. rewrite El in HQ. exact HQ.
Qed.
Lemma SetVec_wp v l w (Q : unit -> W -> Prop) : Q tt (with_vec v l w) -> wp (SetVec v l) Q w.
Proof.
  intros HQ. destruct v as [td | i]; cbn in *.
  - unfold UpdSamples. apply wp_bind, GetSamples_wp. unfold UpdSmp. wp_steps. exact HQ.
  - unfold UpdSmp. wp_steps. exact HQ.
Qed.
Lemma NewVec_wp w (Q : nat -> W -> Prop) : Q (levels w) (new_level w) -> wp NewVec Q w.
Proof. intros HQ. unfold NewVec, UpdSmp. wp_steps. exact HQ. Qed.

(** ** Spines *)

(** Children are in later vectors. *)
Definition above (v : gvec) (c : nat) : Prop := match v with Root _ => True | Child i => (i < c)%nat end.

(** The last zones of the levels from [v] down, with the vectors they go through. *)
Inductive spine (w : W) : gvec -> list GhostZone -> list nat -> Prop :=
  | spine_one v b : last (vec_at w v) = Some b -> gz_child b < 0 -> spine w v [b] []
  | spine_more v b c l ix : last (vec_at w v) = Some b -> gz_child b = Z.of_nat c -> above v c ->
      (c < levels w)%nat -> spine w (Child c) l ix -> spine w v (b :: l) (c :: ix).

(** The way down to the vector [u]. *)
Inductive path (w : W) : gvec -> list GhostZone -> gvec -> list nat -> Prop :=
  | path_nil v : path w v [] v []
  | path_cons v b c l u ix : last (vec_at w v) = Some b -> gz_child b = Z.of_nat c -> above v c ->
      (c < levels w)%nat -> path w (Child c) l u ix -> path w v (b :: l) u (c :: ix).

Lemma spine_above w v l ix : spine w v l ix -> Forall (above v) ix.
Proof.
  induction 1 as [| v b c l ix _ _ Hc _ _ IH]; constructor; [done |].
  eapply Forall_impl; [exact IH |]. destruct v; cbn in *; [done |]. intros; lia.
Qed.
Lemma spine_below w v l ix : spine w v l ix -> Forall (fun c => (c < levels w)%nat) ix.
Proof. induction 1; constructor; done. Qed.
Lemma spine_length w v l ix : spine w v l ix -> is_vec w v -> length l = S (length ix) /\
  (length ix + match v with Root _ => 0 | Child i => S i end <= levels w)%nat.
Proof.
  induction 1 as [v b | v b c l ix _ _ Hc Hlt _ IH]; intros Hv.
  - destruct v as [| i]; cbn in *; lia.
  - destruct (IH Hlt) as [E IH']. cbn [length]. destruct v; cbn in *; lia.
Qed.

(** A spine depends on its vectors only. *)
Lemma spine_same w w' v l ix :
  spine w v l ix -> vec_at w' v = vec_at w v -> (forall c, c ∈ ix -> vec_at w' (Child c) = vec_at w (Child c)) ->
  (levels w <= levels w')%nat -> spine w' v l ix.
Proof.
  induction 1 as [v b Hb Hc | v b c l ix Hb Hc Ha Hlt Hs IH]; intros Ev Ec Hl.
  - apply spine_one; [now rewrite Ev | done].
  - eapply spine_more; try done; [now rewrite Ev | lia |]. apply IH; [apply Ec; left | intros; apply Ec; now right | done].
Qed.

Definition set_end (t : Z) (z : GhostZone) : GhostZone := z <| gz_end ::= Int48.SetVal t |>.
Definition end_of (z : GhostZone) : Z := Int48.Val (gz_end z).
Lemma end_set t z : in_sint 48 t -> end_of (set_end t z) = t.
Proof. intros Ht. unfold end_of, set_end. cbn. rewrite Int48.Val48_SetVal. now apply sint_small. Qed.

(** The vectors other than [v] and those of [ix] stay, but for new ones. *)
Definition others_stay (v : gvec) (ix : list nat) (w w' : W) : Prop :=
  (levels w <= levels w')%nat /\
  forall v', v' <> v -> (forall c, c ∈ ix -> v' <> Child c) -> is_vec w v' -> vec_at w' v' = vec_at w v'.
Lemma above_ne v c : above v c -> v <> Child c.
Proof. destruct v; cbn; [done |]. intros H [= ->]. lia. Qed.

Fixpoint cut (ref t : Z) (l : list GhostZone) : list GhostZone :=
  match l with
  | [] => []
  | z :: l => if end_of z =? ref then set_end t z :: cut ref t l else z :: l
  end.

Lemma others_refl v ix w : others_stay v ix w w.
Proof. split; [lia | done]. Qed.
(** A step at [v], then one below it. *)
Lemma others_below v c ix w l w' :
  is_vec w v -> others_stay (Child c) ix (with_vec v l w) w' -> others_stay v (c :: ix) w w'.
Proof.
  intros Hv [H1 H2]. rewrite levels_with in H1. split; [done |]. intros v' Hne Hix Hv'.
  rewrite H2; [now apply vec_with_ne | | | ].
  - apply Hix. left.
  - intros c' Hc'. apply Hix. now right.
  - eapply is_vec_levels; [| exact Hv']. now rewrite levels_with.
Qed.
Lemma others_at v l w : others_stay v [] w (with_vec v l w).
Proof. split; [now rewrite levels_with |]. intros v' Hne _ _. now apply vec_with_ne. Qed.

Lemma frames_with v l w : ghostFrames (smp (with_vec v l w)) = ghostFrames (smp w).
Proof. now destruct v. Qed.

Lemma map_with v x w : ghostFramesMap (smp (with_vec v x w)) = ghostFramesMap (smp w).
Proof. now destruct v. Qed.

(** The vector [v] after a change of its last element and of what is below it. *)
Lemma kept_last v c ix w l w' b :
  is_vec w v -> above v c -> Forall (above (Child c)) ix -> others_stay (Child c) ix (with_vec v l w) w' ->
  last l = Some b -> last (vec_at w' v) = Some b.
Proof.
  intros Hv Hc Hix [_ H] Hl. rewrite H, vec_with; try done.
  - now apply above_ne.
  - intros c' Hc'. apply above_ne. rewrite Forall_forall in Hix. specialize (Hix c' Hc'). destruct v; cbn in *; [done | lia].
  - eapply is_vec_levels; [| exact Hv]. now rewrite levels_with.
Qed.
(** A spine below [v] is not touched by a change at [v]. *)
Lemma spine_with v c l ix w x : above v c -> spine w (Child c) l ix -> spine (with_vec v x w) (Child c) l ix.
Proof.
  intros Hc Hs. pose proof (spine_above _ _ _ _ Hs) as Ha. eapply spine_same; [exact Hs | | |].
  - apply vec_with_ne. now apply not_eq_sym, above_ne.
  - intros c' Hc'. apply vec_with_ne. apply not_eq_sym, above_ne.
    rewrite Forall_forall in Ha. specialize (Ha c' Hc'). destruct v; cbn in *; [done | lia].
  - now rewrite levels_with.
Qed.

Lemma cut_spine_wp fuel ref t v l ix w (Q : unit -> W -> Prop) :
  spine w v l ix -> is_vec w v -> (length l <= fuel)%nat ->
  (forall w', spine w' v (cut ref t l) ix -> ghosts_only w w' ->
     ghostFrames (smp w') = ghostFrames (smp w) /\ ghostFramesMap (smp w') = ghostFramesMap (smp w) ->
     levels w' = levels w -> others_stay v ix w w' -> Q tt w') ->
  wp (cut_spine fuel ref t v) Q w.
Proof.
  intros Hs. revert fuel w Hs Q. revert v ix. induction l as [| b l IH]; intros v ix fuel w Hs Q Hv Hf HQ; [inversion Hs |].
  destruct fuel as [| fuel]; [cbn in Hf; lia |]. cbn [cut_spine]. apply wp_bind, GetVec_wp; [done |].
  assert (Hb : last (vec_at w v) = Some b) by now inversion Hs. apply wp_bind. eapply wp_expect; [exact Hb |].
  change (Int48.Val (gz_end b)) with (end_of b). cbn [cut] in HQ. destruct (end_of b =? ref); cbn [negb].
  2: { wp_steps. apply HQ; [done | apply ghosts_only_refl | done | done | apply others_refl]. }
  apply wp_bind, SetVec_wp. change (b <| gz_end ::= Int48.SetVal t |>) with (set_end t b).
  set (x := set_back (set_end t b) (vec_at w v)).
  assert (Hx : last (vec_at (with_vec v x w) v) = Some (set_end t b)) by (rewrite vec_with by done; apply last_snoc).
  inversion Hs as [? ? _ Hc | ? ? c ? ix' _ Hc Ha Hlt Hs']; subst.
  - rewrite (proj2 (Z.ltb_lt _ _) Hc). wp_steps. apply HQ.
    + apply spine_one; done.
    + apply ghosts_only_with.
    + now rewrite frames_with, map_with.
    + apply levels_with.
    + apply others_at.
  - rewrite Hc, (proj2 (Z.ltb_ge _ _)), Nat2Z.id by lia.
    apply (IH _ ix'); [now apply spine_with | cbn; rewrite levels_with; done | cbn in Hf; lia |].
    intros w' H1 H2 H3 H4 H5. pose proof (spine_above _ _ _ _ H1) as Hab. apply HQ.
    + eapply spine_more; [| exact Hc | exact Ha | | exact H1].
      * eapply kept_last; [exact Hv | exact Ha | exact Hab | exact H5 | apply last_snoc].
      * rewrite H4, levels_with. done.
    + eapply ghosts_only_trans; [apply ghosts_only_with | exact H2].
    + now rewrite (proj1 H3), (proj2 H3), frames_with, map_with.
    + now rewrite H4, levels_with.
    + eapply others_below; [exact Hv | exact H5].
Qed.

(** ** Zones that last longer *)

(** The zone [z] is one of the symbol [s]. *)
Definition frame_shows (w : W) (key : GhostKey) (s : Z) : Prop :=
  CallstackFrameId.custom (fst key) = 0 /\ exists d f, callstackFrameMap (cst w) !! fst key = Some (Some d) /\
    cfd_data d !! Z.to_nat (snd key) = Some f /\ cf_symAddr f = s.
Definition shows (w : W) (z : GhostZone) (s : Z) : Prop :=
  exists key, ghostFrames (smp w) !! Z.to_nat (Int24.Val (gz_frame z)) = Some key /\ frame_shows w key s.

(** How many zones of the spine [l], whose symbols are [ls], the stack continues. *)
Fixpoint matched (ref : Z) (l : list GhostZone) (ls stack : list Z) : nat :=
  match l, ls, stack with
  | z :: l, s :: ls, x :: stack => if (s =? x) && (end_of z =? ref) then S (matched ref l ls stack) else 0
  | _, _, _ => 0
  end.

(** From [w] to [w'], [la] is what has become of the first zones of the spine of [v]. *)
Record extended (v : gvec) (ix : list nat) (e : Z) (la : list GhostZone) (syms : list Z) (w w' : W) : Prop := {
  ex_end : Forall (fun z => end_of z = e) la;
  ex_shows : Forall2 (shows w) la syms;
  ex_only : ghosts_only w w';
  ex_frames : ghostFrames (smp w') = ghostFrames (smp w) /\ ghostFramesMap (smp w') = ghostFramesMap (smp w);
  ex_others : others_stay v ix w w' }.

(** The spine of [v], or nothing yet. *)
Definition spine_or_new (w : W) (v : gvec) (l : list GhostZone) (ix : list nat) : Prop :=
  spine w v l ix \/ (l = [] /\ ix = [] /\ vec_at w v = []).

Lemma shows_with w v x z s : shows (with_vec v x w) z s <-> shows w z s.
Proof. unfold shows, frame_shows. destruct v; cbn; done. Qed.
Lemma shows_new_level w z s : shows (new_level w) z s <-> shows w z s.
Proof. done. Qed.
Lemma shows_end w t z s : shows w (set_end t z) s <-> shows w z s.
Proof. done. Qed.

Lemma shows_GetCallstackFrame w z s (Q : option CallstackFrameData -> W -> Prop) key :
  ghostFrames (smp w) !! Z.to_nat (Int24.Val (gz_frame z)) = Some key -> frame_shows w key s ->
  (forall d f, cfd_data d !! Z.to_nat (snd key) = Some f -> cf_symAddr f = s -> Q (Some d) w) ->
  wp (GetCallstackFrame (fst key)) Q w.
Proof.
  intros _ (Hc & d & f & Em & Ef & Es) HQ. unfold GetCallstackFrame. rewrite Hc. wp_steps. rewrite Em. now apply (HQ d f).
Qed.

Lemma above_Child v c ix : above v c -> Forall (above (Child c)) ix -> Forall (above v) ix.
Proof. intros Hc H. eapply Forall_impl; [exact H |]. destruct v; cbn in *; [done |]. intros; lia. Qed.

Lemma extended_one v ix e b s w x :
  in_sint 48 e -> shows w b s -> extended v ix e [set_end e b] [s] w (with_vec v x w).
Proof.
  intros He Hb. split.
  - constructor; [now apply end_set | done].
  - constructor; [exact Hb | done].
  - apply ghosts_only_with.
  - now rewrite frames_with, map_with.
  - destruct (others_at v x w) as [H1 H2]. split; [done |]. intros v' Hne _. apply H2; [done |]. intros c Hc. inversion Hc.
Qed.

(** What happens at a zone of the spine, then below it. *)
Lemma extended_cons v c ix e b la s syms w x w' :
  is_vec w v -> in_sint 48 e -> shows w b s -> extended (Child c) ix e la syms (with_vec v x w) w' ->
  extended v (c :: ix) e (set_end e b :: la) (s :: syms) w w'.
Proof.
  intros Hv He Hb [A1 A2 A3 A4 A5]. split.
  - constructor; [now apply end_set | done].
  - constructor; [now apply shows_end |]. eapply Forall2_impl; [exact A2 |]. intros z s'. apply shows_with.
  - eapply ghosts_only_trans; [apply ghosts_only_with | exact A3].
  - now rewrite (proj1 A4), (proj2 A4), frames_with, map_with.
  - eapply others_below; [exact Hv | exact A5].
Qed.

(** The zone [b] lasts longer, and the spine is the same otherwise. *)
Lemma spine_longer w v b b' l ix :
  is_vec w v -> spine w v (b :: l) ix -> gz_child b' = gz_child b ->
  spine (with_vec v (set_back b' (vec_at w v)) w) v (b' :: l) ix.
Proof.
  intros Hv Hs Ec. assert (E : last (vec_at (with_vec v (set_back b' (vec_at w v)) w) v) = Some b')
    by (rewrite vec_with by done; apply last_snoc).
  inversion Hs as [? ? _ Hc | ? ? c ? ix' _ Hc Ha Hlt Hs']; subst.
  - apply spine_one; [done | now rewrite Ec].
  - eapply spine_more; [exact E | now rewrite Ec | exact Ha | now rewrite levels_with | now apply spine_with].
Qed.

(** The zone [b] gets its first child, in the vector that is made for it. *)
Definition first_child (v : gvec) (b : GhostZone) (w : W) : W :=
  with_vec v (set_back (b <| gz_child := Z.of_nat (levels w) |>) (vec_at w v))
    (new_level (with_vec v (set_back b (vec_at w v)) w)).
Section FirstChild.
Context (w : W) (v : gvec) (b : GhostZone) (Hv : is_vec w v).
Let w' := first_child v b w.

Lemma first_levels : levels w' = S (levels w).
Proof. unfold w', first_child. now rewrite levels_with, levels_new, levels_with. Qed.
Lemma first_empty : vec_at w' (Child (levels w)) = [].
Proof.
  unfold w', first_child. assert (Child (levels w) <> v) by (intros <-; cbn in Hv; lia).
  rewrite vec_with_ne, vec_new, vec_with_ne by done. cbn. unfold levels. now rewrite lookup_ge_None_2.
Qed.
Lemma first_above : above v (levels w).
Proof. now destruct v. Qed.
Lemma first_last : last (vec_at w' v) = Some (b <| gz_child := Z.of_nat (levels w) |>).
Proof.
  unfold w', first_child. rewrite vec_with; [apply last_snoc |]. eapply is_vec_levels; [| exact Hv].
  rewrite levels_new, levels_with. lia.
Qed.
Lemma first_only : ghosts_only w w'.
Proof.
  eapply ghosts_only_trans; [apply ghosts_only_with |].
  eapply ghosts_only_trans; [apply ghosts_only_new | apply ghosts_only_with].
Qed.
Lemma first_others ix w2 : others_stay (Child (levels w)) [] w' w2 -> others_stay v ix w w2.
Proof.
  intros [H1 H2]. rewrite first_levels in H1. split; [lia |]. intros u Hne _ Hu. rewrite H2.
  - unfold w', first_child. now rewrite vec_with_ne, vec_new, vec_with_ne.
  - intros ->. cbn in Hu. lia.
  - intros c Hc. inversion Hc.
  - eapply is_vec_levels; [| exact Hu]. rewrite first_levels. lia.
Qed.
End FirstChild.

Lemma extended_first v e b la s syms w w' :
  is_vec w v -> in_sint 48 e -> shows w b s ->
  extended (Child (levels w)) [] e la syms (first_child v (set_end e b) w) w' ->
  extended v [] e ((set_end e b) <| gz_child := Z.of_nat (levels w) |> :: la) (s :: syms) w w'.
Proof.
  intros Hv He Hb [A1 A2 A3 A4 A5]. split.
  - constructor; [| done]. transitivity (end_of (set_end e b)); [apply (f_equal Int48.Val); reflexivity | exact (end_set e b He)].
  - constructor; [exact Hb |]. eapply Forall2_impl; [exact A2 |]. intros z s'. unfold first_child.
    now rewrite shows_with, shows_new_level, shows_with.
  - eapply ghosts_only_trans; [now apply first_only | exact A3].
  - rewrite (proj1 A4), (proj2 A4). unfold first_child. destruct v; done.
  - exact (first_others w v _ _ _ A5).
Qed.

Lemma extend_spine_wp ref t p stack : forall v l ls ix w (Q : gvec * list InlineStackData -> W -> Prop),
  spine_or_new w v l ix -> Forall2 (shows w) l ls -> is_vec w v -> in_sint 48 (t + p) -> stack <> [] ->
  Z.of_nat (levels w + length stack) <= 2 ^ 31 ->
  (forall w' u la, let k := matched ref l ls (map is_symAddr stack) in
     length la = k -> extended v ix (t + p) la (take k (map is_symAddr stack)) w w' ->
     (levels w' + length (drop k stack) <= levels w + length stack)%nat ->
     match drop k stack with
     | [] => exists ixb, spine w' v (la ++ drop k l) ixb /\ (forall c, c ∈ ixb -> c ∈ ix)
     | _ => exists ixa, path w' v la u ixa /\ is_vec w' u /\ (forall c, c ∈ ixa -> c ∈ ix \/ (levels w <= c)%nat)
     end -> Q (u, drop k stack) w') ->
  wp (extend_spine ref t p v stack) Q w.
Proof.
  induction stack as [| x rest IH]; intros v l ls ix w Q Hs Hl Hv Hp Hne Hlv HQ; [done |]. cbn [extend_spine].
  apply wp_bind, GetVec_wp; [done |].
  assert (Hstop : matched ref l ls (map is_symAddr (x :: rest)) = 0%nat -> Q (v, x :: rest) w).
  { intros E. rewrite E in HQ. apply (HQ w v []); [done | | cbn [drop length] in *; lia |].
    - split; [constructor | constructor | apply ghosts_only_refl | done | apply others_refl].
    - exists []. split; [constructor |]. split; [done | intros c Hc; inversion Hc]. }
  destruct Hs as [Hs | (-> & -> & E)]; [| now rewrite E; wp_steps; apply Hstop].
  destruct l as [| b l]; [inversion Hs |]. destruct ls as [| s ls]; [inversion Hl |]. apply Forall2_cons in Hl as [Hb Hl].
  assert (Eb : last (vec_at w v) = Some b) by now inversion Hs. rewrite Eb. wp_steps.
  pose proof Hb as (key & Ek & Hk). eapply wp_expect; [exact Ek |]. apply wp_bind. eapply shows_GetCallstackFrame; [exact Ek | exact Hk |].
  intros d f Ef Es. apply wp_bind. eapply wp_expect; [exact Ef |]. rewrite Es. cbn [map matched] in HQ, Hstop.
  destruct (s =? is_symAddr x) eqn:E1; cbn [negb andb] in *; [| wp_steps; now apply Hstop].
  change (Int48.Val (gz_end b)) with (end_of b). destruct (end_of b =? ref) eqn:E2; cbn [negb] in *; [| wp_steps; now apply Hstop].
  clear Hstop. apply wp_bind, SetVec_wp. change (b <| gz_end ::= Int48.SetVal (t + p) |>) with (set_end (t + p) b).
  apply Z.eqb_eq in E1. set (y := set_back (set_end (t + p) b) (vec_at w v)).
  assert (Hspine : spine (with_vec v y w) v (set_end (t + p) b :: l) ix) by now apply (spine_longer w v b).
  assert (Hm0 : matched ref l ls [] = 0%nat) by (destruct l, ls; done).
  destruct rest as [| x2 rest].
  { wp_steps. cbn [map] in HQ. rewrite Hm0 in HQ. cbn [take drop] in HQ. apply (HQ _ _ [set_end (t + p) b]); [done | | |].
    - subst s. now apply extended_one.
    - rewrite levels_with. cbn [drop length] in *. lia.
    - exists ix. split; [exact Hspine | done]. }
  set (b' := set_end (t + p) b) in *. change (gz_child b') with (gz_child b).
  inversion Hs as [? ? _ Hc | ? ? c l' ix' _ Hc Ha Hlt Hs']; subst l ix.
  - rewrite (proj2 (Z.ltb_lt _ _) Hc). apply wp_bind, NewVec_wp. apply wp_bind, SetVec_wp.
    cbn [length] in Hlv. rewrite levels_with, sint_small by (lia || (red; lia)). set (b2 := b' <| gz_child := Z.of_nat (levels w) |>).
    assert (Ew : with_vec v (set_back b2 (vec_at w v)) (new_level (with_vec v y w)) = first_child v b' w) by done.
    rewrite Ew. apply (IH (Child (levels w)) [] [] []).
    + right. split; [done |]. split; [done |]. now apply first_empty.
    + constructor.
    + cbn. rewrite first_levels. lia.
    + done.
    + done.
    + rewrite first_levels. cbn [length] in *. lia.
    + assert (Em : matched ref [] [] (map is_symAddr (x2 :: rest)) = 0%nat) by done. rewrite Em. cbn [drop].
      intros w' u la Hk' Hx Hlv' (ixa & Hpath & Hu & Hixa). destruct la; [| done].
      assert (Em' : matched ref [] ls (map is_symAddr (x2 :: rest)) = 0%nat) by done. rewrite Em' in HQ.
      apply (HQ w' u [b2]); [done | | | ].
      * subst s. now apply (extended_first v (t + p) b [] (is_symAddr x) []).
      * rewrite first_levels in Hlv'. cbn [drop length] in *. lia.
      * exists (levels w :: ixa). split; [| split; [exact Hu |]].
        -- eapply path_cons; [| done | now apply first_above | | exact Hpath].
           ++ destruct (ex_others _ _ _ _ _ _ _ Hx) as [_ Ho]. rewrite Ho; [now apply first_last | | |].
              ** intros ->. cbn in Hv. lia.
              ** intros c' Hc'. inversion Hc'.
              ** eapply is_vec_levels; [| exact Hv]. rewrite first_levels. lia.
           ++ destruct (ex_others _ _ _ _ _ _ _ Hx) as [Ho _]. rewrite first_levels in Ho. lia.
        -- intros c Hc'. apply elem_of_cons in Hc' as [-> | Hc']; [now right |].
           destruct (Hixa c Hc') as [Hin | Hge]; [inversion Hin | right]. rewrite first_levels in Hge. lia.
  - rewrite Hc, (proj2 (Z.ltb_ge _ _)), Nat2Z.id by lia.
    apply (IH (Child c) l' ls ix'); try done.
    + left. now apply spine_with.
    + eapply Forall2_impl; [exact Hl |]. intros z s'. apply shows_with.
    + cbn. now rewrite levels_with.
    + rewrite levels_with. cbn [length] in *. lia.
    + intros w' u la Hk' Hx Hlv' Hpath. apply (HQ w' u (b' :: la)); [exact (f_equal S Hk') | | |].
      * subst s. eapply (extended_cons v c ix'); [exact Hv | exact Hp | exact Hb | exact Hx].
      * rewrite levels_with in Hlv'. cbn [drop length] in *. lia.
      * cbn [drop]. assert (Hlast : last (vec_at w' v) = Some b').
        { eapply kept_last; [exact Hv | exact Ha | exact (spine_above _ _ _ _ Hs') | exact (ex_others _ _ _ _ _ _ _ Hx) | apply last_snoc]. }
        assert (Hlt' : (c < levels w')%nat) by (destruct (ex_others _ _ _ _ _ _ _ Hx) as [Ho _]; rewrite levels_with in Ho; lia).
        destruct (drop _ (x2 :: rest)).
        -- destruct Hpath as (ixb & Hsp & Hix). exists (c :: ixb). split; [now eapply spine_more |].
           intros c' Hc'. apply elem_of_cons in Hc' as [-> | Hc']; [left | right; now apply Hix].
        -- destruct Hpath as (ixa & Hpath & Hu & Hix). exists (c :: ixa). split; [now eapply path_cons |]. split; [exact Hu |].
           intros c' Hc'. apply elem_of_cons in Hc' as [-> | Hc']; [left; left |].
           destruct (Hix c' Hc') as [Hin | Hge]; [left; now right | right]. now rewrite levels_with in Hge.
Qed.

(** ** New zones *)
Definition frame_map_ok (w : W) : Prop := forall key fid, ghostFramesMap (smp w) !! key = Some fid ->
  0 <= fid /\ ghostFrames (smp w) !! Z.to_nat fid = Some key.
Definition frame_known (w : W) (x : InlineStackData) : Prop :=
  frame_shows w (is_frame x, is_inlineFrame x) (is_symAddr x).

(** From [w] to [w'], [new] was put below the vector [u]. *)
Record grown (u : gvec) (new : list GhostZone) (ix : list nat) (e : Z) (syms : list Z) (w w' : W) : Prop := {
  gr_spine : spine w' u new ix;
  gr_end : Forall (fun z => end_of z = e) new;
  gr_shows : Forall2 (shows w') new syms;
  gr_only : ghosts_only w w';
  gr_frames : ghostFrames (smp w) `prefix_of` ghostFrames (smp w');
  gr_map : frame_map_ok w';
  gr_others : others_stay u [] w w';
  gr_new c : c ∈ ix -> (levels w <= c)%nat;
  gr_size : (levels w' <= levels w + length new)%nat /\
    (length (ghostFrames (smp w')) <= length (ghostFrames (smp w)) + length new)%nat }.

Lemma shows_mono w w' z s :
  cst w' = cst w -> ghostFrames (smp w) `prefix_of` ghostFrames (smp w') -> shows w z s -> shows w' z s.
Proof.
  intros Ec Hp (key & Ek & Hk). exists key. split; [eapply prefix_lookup_Some; eassumption |].
  unfold frame_shows in *. now rewrite Ec.
Qed.
Lemma ghosts_only_cst w w' : ghosts_only w w' -> cst w' = cst w.
Proof. intros [E _ _]. rewrite E. now destruct w. Qed.

Definition frames_room (w : W) (n : nat) : Prop := Z.of_nat (length (ghostFrames (smp w)) + n) <= 2 ^ 24.

Lemma ghost_frame_wp key n w (Q : Z -> W -> Prop) :
  frame_map_ok w -> frames_room w (S n) ->
  (forall fid w', ghostFrames (smp w') !! Z.to_nat fid = Some key -> 0 <= fid -> frame_map_ok w' -> frames_room w' n ->
     ghostFrames (smp w) `prefix_of` ghostFrames (smp w') -> ghosts_only w w' ->
     (forall v, vec_at w' v = vec_at w v) -> levels w' = levels w ->
     (length (ghostFrames (smp w')) <= S (length (ghostFrames (smp w))))%nat -> Q fid w') ->
  wp (ghost_frame key) Q w.
Proof.
  intros Hm Hr HQ. unfold ghost_frame. apply wp_bind, wp_gets. unfold frames_room in *.
  destruct (ghostFramesMap (smp w) !! key) as [fid |] eqn:E.
  - wp_steps. destruct (Hm key fid E) as [H0 Hk]. apply HQ; try done; [lia | apply ghosts_only_refl | lia].
  - rewrite uint_small by (red; lia). unfold UpdSmp. wp_steps. set (n0 := length (ghostFrames (smp w))) in *. apply HQ.
    + cbn. now rewrite Nat2Z.id, lookup_app_r, Nat.sub_diag by done.
    + lia.
    + intros key' fid. cbn. unfold emplace. rewrite E. destruct (decide (key' = key)) as [-> | Hne].
      * rewrite lookup_insert_eq. intros [= <-]. split; [lia |]. now rewrite Nat2Z.id, lookup_app_r, Nat.sub_diag by done.
      * rewrite lookup_insert_ne by congruence. intros E'. destruct (Hm key' fid E') as [H0 Hk]. split; [done |].
        now apply lookup_app_l_Some.
    + cbn. rewrite length_app. cbn. fold n0. lia.
    + cbn. now apply prefix_app_r.
    + split; [now destruct w | | cbn; now destruct (smp w)]. intros td.
      change (samples_of w td = (samples_of w td) <| ghostZones := ghostZones (samples_of w td) |>). now destruct (samples_of w td).
    + intros [td | i]; done.
    + done.
    + cbn. rewrite length_app. cbn. fold n0. lia.
Qed.

Lemma grow_spine_wp t p stack : forall u w (Q : unit -> W -> Prop),
  is_vec w u -> stack <> [] -> Forall (frame_known w) stack -> frame_map_ok w -> in_sint 48 (t + p) ->
  frames_room w (length stack) -> Z.of_nat (levels w + length stack) <= 2 ^ 31 ->
  (forall w' new ix, length new = length stack -> grown u new ix (t + p) (map is_symAddr stack) w w' -> Q tt w') ->
  wp (grow_spine t p u stack) Q w.
Proof.
  induction stack as [| x rest IH]; intros u w Q Hu Hne Hk Hm Hp Hr Hlv HQ; [done |]. cbn [grow_spine].
  apply Forall_cons in Hk as [Hx Hk]. apply wp_bind. eapply ghost_frame_wp; [exact Hm | exact Hr |].
  intros fid w1 Ef H0 Hm1 Hr1 Hpre Hg1 Hv1 Hl1 Hn1. assert (Hu1 : is_vec w1 u) by (eapply is_vec_levels; [| exact Hu]; lia).
  assert (Hfid : fid < 2 ^ 24) by (apply lookup_lt_Some in Ef; unfold frames_room in Hr1; lia).
  apply wp_bind, GetVec_wp; [done |].
  set (zone c := mkGhost (Int48.make t) (Int48.make (t + p)) (Int24.make fid) c).
  assert (Hend : forall c, end_of (zone c) = t + p).
  { intros c. unfold end_of. cbn [gz_end zone]. unfold Int48.make. rewrite Int48.Val48_SetVal. now apply sint_small. }
  assert (Hshow : forall c w', cst w' = cst w -> ghostFrames (smp w1) `prefix_of` ghostFrames (smp w') ->
    shows w' (zone c) (is_symAddr x)).
  { intros c w' Ec Hp'. apply (shows_mono w1); [now rewrite Ec, (ghosts_only_cst _ _ Hg1) | done |].
    exists (is_frame x, is_inlineFrame x). split.
    - cbn [gz_frame zone]. unfold Int24.make. rewrite Int24.Val_SetVal, uint_small by (red; lia). exact Ef.
    - unfold frame_known, frame_shows in *. now rewrite (ghosts_only_cst _ _ Hg1). }
  destruct rest as [| x2 rest].
  - apply SetVec_wp. set (w2 := with_vec u (vec_at w1 u ++ [zone (-1)]) w1). apply (HQ w2 [zone (-1)] []); [done |].
    assert (Hg : ghosts_only w w2) by (eapply ghosts_only_trans; [exact Hg1 | apply ghosts_only_with]). split.
    + apply spine_one; [unfold w2; rewrite vec_with by done; apply last_snoc | done].
    + constructor; [apply Hend | done].
    + constructor; [| done]. apply Hshow; [exact (ghosts_only_cst _ _ Hg) | unfold w2; now rewrite frames_with].
    + exact Hg.
    + unfold w2. now rewrite frames_with.
    + unfold w2, frame_map_ok. intros key fid'. rewrite frames_with, map_with. apply Hm1.
    + split; [unfold w2; rewrite levels_with; lia |]. intros v' Hne' _ _. unfold w2. now rewrite vec_with_ne.
    + intros c Hc. inversion Hc.
    + unfold w2. rewrite levels_with, frames_with. cbn [length]. lia.
  - set (stack := x2 :: rest) in *. apply wp_bind, wp_gets. apply wp_bind, SetVec_wp. apply wp_bind, NewVec_wp.
    change (length (ghostChildren (smp w1))) with (levels w1). rewrite levels_with, Hl1. cbn [length] in Hlv.
    rewrite sint_small by (lia || (red; lia)). set (w2 := with_vec u _ w1). set (w3 := new_level w2).
    assert (Hl3 : levels w3 = S (levels w)) by (unfold w3, w2; now rewrite levels_new, levels_with, Hl1).
    assert (Hg3 : ghosts_only w w3).
    { eapply ghosts_only_trans; [exact Hg1 |]. eapply ghosts_only_trans; [apply ghosts_only_with | apply ghosts_only_new]. }
    assert (Hf3 : ghostFrames (smp w3) = ghostFrames (smp w1)) by (unfold w3, w2; apply frames_with).
    apply IH.
    + change (levels w < levels w3)%nat. lia.
    + done.
    + eapply Forall_impl; [exact Hk |]. intros y. unfold frame_known, frame_shows. now rewrite (ghosts_only_cst _ _ Hg3).
    + intros key fid'. unfold w3, w2, new_level. cbn. rewrite frames_with, map_with. apply Hm1.
    + done.
    + unfold frames_room. rewrite Hf3. exact Hr1.
    + rewrite Hl3. unfold stack in *. cbn [length] in *. lia.
    + intros w' new ix Hlen [G1 G2 G3 G4 G5 G6 G7 G8 G9].
      assert (Hg : ghosts_only w w') by (eapply ghosts_only_trans; [exact Hg3 | exact G4]).
      assert (Hu3 : is_vec w3 u) by (eapply is_vec_levels; [| exact Hu]; lia).
      assert (Hne3 : u <> Child (levels w)) by (intros ->; cbn in Hu; lia).
      apply (HQ w' (zone (Z.of_nat (levels w)) :: new) (levels w :: ix)); [cbn [length]; now rewrite Hlen |].
      destruct G7 as [G71 G72]. split.
      * eapply spine_more; [| reflexivity | | lia | exact G1].
        -- rewrite G72; [| done | intros c Hc; inversion Hc | done]. unfold w3, w2. rewrite vec_new, vec_with by done. apply last_snoc.
        -- destruct u; cbn in *; [done | lia].
      * constructor; [apply Hend | exact G2].
      * constructor; [| exact G3]. apply Hshow; [exact (ghosts_only_cst _ _ Hg) | now rewrite <- Hf3].
      * exact Hg.
      * etransitivity; [exact Hpre |]. now rewrite <- Hf3.
      * exact G6.
      * split; [lia |]. intros v' Hne' _ Hv'. assert (is_vec w3 v') by (eapply is_vec_levels; [| exact Hv']; lia).
        rewrite G72; [| intros ->; cbn in Hv'; lia | intros c Hc; inversion Hc | done].
        unfold w3, w2. now rewrite vec_new, vec_with_ne, Hv1.
      * intros c Hc. apply elem_of_cons in Hc as [-> | Hc]; [lia |]. apply G8 in Hc. lia.
      * rewrite Hl3, Hf3 in G9. cbn [length]. lia.
Qed.

(** A way down to new zones is a spine. *)
Lemma path_above w v l u ix : path w v l u ix -> l <> [] -> exists c, u = Child c /\ above v c.
Proof.
  induction 1 as [| v b c l u ix _ _ Hc _ Hp IH]; intros Hne; [done |]. destruct l as [| b' l].
  - exists c. inversion Hp. done.
  - destruct IH as (c' & -> & Hc'); [done |]. exists c'. split; [done |]. destruct v; cbn in *; [done | lia].
Qed.
Lemma path_spine w w' v l u ix new ixn :
  path w v l u ix -> is_vec w v -> others_stay u [] w w' -> spine w' u new ixn -> spine w' v (l ++ new) (ix ++ ixn).
Proof.
  intros Hp Hv Ho Hs. induction Hp as [v | v b c l u ix Hb Hc Ha Hlt Hp IH]; [exact Hs |].
  assert (Hne : v <> u).
  { intros ->. destruct (path_above _ _ _ _ _ (path_cons _ _ _ _ _ _ _ Hb Hc Ha Hlt Hp) ltac:(done)) as (c' & -> & Hc').
    cbn in Hc'. lia. }
  cbn [app]. eapply spine_more; [| exact Hc | exact Ha | | now apply IH].
  - rewrite (proj2 Ho); [exact Hb | done | intros c' Hc'; inversion Hc' | done].
  - destruct Ho as [Ho _]. lia.
Qed.

(** ** Call stacks *)

(** The frames at an address have arrived. *)
Definition known_group (w : W) (id : CallstackFrameId.t) (d : CallstackFrameData) : Prop :=
  CallstackFrameId.custom id = 0 /\ callstackFrameMap (cst w) !! id = Some (Some d) /\ group_frames d <> [].
(** The symbols of a call stack, the outermost one first. *)
Definition stack_symbols (groups : list CallstackFrameData) : list Z :=
  concat (map (fun d => rev (map cf_symAddr (group_frames d))) (rev groups)).

Lemma inline_frames_wp id d w (Q : list InlineStackData -> W -> Prop) :
  known_group w id d ->
  (forall l, map is_symAddr l = rev (map cf_symAddr (group_frames d)) -> Forall (frame_known w) l -> l <> [] -> Q l w) ->
  wp (inline_frames id) Q w.
Proof.
  intros (Hc & Hm & Hne) HQ. unfold inline_frames, GetCallstackFrame. rewrite Hc. wp_steps. rewrite Hm. cbn. wp_steps. apply HQ.
  - rewrite map_rev. f_equal. change (map is_symAddr) with (fmap (M := list) is_symAddr). rewrite fmap_imap.
    exact (imap_const cf_symAddr (group_frames d)).
  - apply Forall_rev, Forall_lookup. intros i x E. apply list_lookup_imap_Some in E as (f & Ef & ->).
    split; [exact Hc |]. exists d, f. split; [exact Hm |]. split; [| done]. cbn. rewrite Nat2Z.id.
    unfold group_frames in Ef. now apply lookup_take_Some in Ef as [Ef _].
  - intros E. apply (f_equal (@length _)) in E. rewrite length_rev, length_imap in E. now destruct (group_frames d).
Qed.

Lemma stack_with_inlines_wp rcs groups w (Q : list InlineStackData -> W -> Prop) :
  Forall2 (known_group w) rcs groups ->
  (forall l, map is_symAddr l = concat (map (fun d => rev (map cf_symAddr (group_frames d))) groups) ->
     Forall (frame_known w) l -> (rcs <> [] -> l <> []) -> Q l w) ->
  wp (stack_with_inlines rcs) Q w.
Proof.
  intros Hg. revert Q. induction Hg as [| id d rcs groups Hd Hg IH]; intros Q HQ; cbn [stack_with_inlines].
  { wp_steps. apply HQ; done. }
  apply wp_bind. eapply inline_frames_wp; [exact Hd |]. intros l El Hl Hne. apply wp_bind, IH. intros r Er Hr _. wp_steps.
  apply HQ.
  - now rewrite map_app, El, Er.
  - now apply Forall_app.
  - intros _. now destruct l.
Qed.
Lemma GetStackWithInlines_wp cs groups w (Q : list InlineStackData -> W -> Prop) :
  Forall2 (known_group w) cs groups -> cs <> [] ->
  (forall l, map is_symAddr l = stack_symbols groups -> Forall (frame_known w) l -> l <> [] -> Q l w) ->
  wp (GetStackWithInlines cs) Q w.
Proof.
  intros Hg Hne HQ. unfold GetStackWithInlines. apply wp_bind, wp_assert; [now apply negb_true_iff, bool_decide_eq_false |].
  apply (stack_with_inlines_wp _ (rev groups)).
  - rewrite !rev_alt. exact (Forall2_reverse _ _ _ Hg).
  - intros l El Hl Hnl. apply HQ; [exact El | exact Hl |]. apply Hnl. intros E. apply Hne.
    apply (f_equal (@length _)) in E. rewrite length_rev in E. now destruct cs.
Qed.

(** ** The open zones of a thread *)

(** The length of the longest common beginning. *)
Fixpoint common (a b : list Z) : nat :=
  match a, b with x :: a, y :: b => if x =? y then S (common a b) else O | _, _ => O end.

(** After the sample of time [T] with the symbols [syms]: no zones, or open ones that
    end a period after [T], and below them some that have ended. *)
Definition open_zones (w : W) (td : nat) (T : Z) (syms : list Z) (ix : list nat) : Prop :=
  (vec_at w (Root td) = [] /\ syms = [] /\ ix = []) \/
  exists l1 l2 ls2, spine w (Root td) (l1 ++ l2) ix /\ l1 <> [] /\
    Forall (fun z => end_of z = T + m_samplingPeriod (smp w)) l1 /\ Forall (fun z => end_of z <= T) l2 /\
    Forall2 (shows w) l1 syms /\ Forall2 (shows w) l2 ls2.

Lemma cut_open ref t l1 l2 :
  Forall (fun z => end_of z = ref) l1 -> Forall (fun z => end_of z < ref) l2 -> cut ref t (l1 ++ l2) = map (set_end t) l1 ++ l2.
Proof.
  intros H1 H2. induction H1 as [| z l1 Hz H1 IH]; cbn [app cut map].
  - destruct H2 as [| z l2 Hz _]; [done |]. cbn [cut]. destruct (Z.eqb_spec (end_of z) ref); [lia | done].
  - rewrite Hz, Z.eqb_refl. cbn. now rewrite IH.
Qed.
Lemma matched_open ref l1 l2 syms ls2 st :
  Forall (fun z => end_of z = ref) l1 -> Forall (fun z => end_of z < ref) l2 -> length l1 = length syms ->
  matched ref (l1 ++ l2) (syms ++ ls2) st = common syms st.
Proof.
  intros H1 H2. revert syms st. induction H1 as [| z l1 Hz H1 IH]; intros [| s syms] st Hl; try done; cbn [app matched common].
  - destruct H2 as [| z l2 Hz _], ls2, st; try done. cbn [matched].
    destruct (Z.eqb_spec (end_of z) ref); [lia |]. now rewrite andb_false_r.
  - destruct st as [| x st]; [done |]. rewrite Hz, Z.eqb_refl, andb_true_r. destruct (s =? x); [| done].
    f_equal. apply IH. cbn in Hl. lia.
Qed.
Lemma common_le a b : (common a b <= length b)%nat.
Proof. revert b. induction a as [| x a IH]; intros [| y b]; cbn; try lia. destruct (x =? y); [specialize (IH b); lia | lia]. Qed.

Lemma path_end w v l u ix : path w v l u ix -> u = v \/ exists c, c ∈ ix /\ u = Child c.
Proof.
  induction 1 as [| v b c l u ix _ _ _ _ _ [-> | (c' & Hc' & ->)]]; [now left | right | right].
  - exists c. split; [left | done].
  - exists c'. split; [now right | done].
Qed.
Lemma period_only w w' : ghosts_only w w' -> m_samplingPeriod (smp w') = m_samplingPeriod (smp w).
Proof. intros [_ _ E]. rewrite E. done. Qed.
Lemma others_trans v ix w w1 w2 : others_stay v ix w w1 -> others_stay v ix w1 w2 -> others_stay v ix w w2.
Proof.
  intros [A1 A2] [B1 B2]. split; [lia |]. intros u Hne Hix Hu. rewrite B2, A2; try done. eapply is_vec_levels; [exact A1 | done].
Qed.

(** The open zones of a thread end at [ref], or a little later when the next sample
    comes in time: then they were cut. *)
Record ready (td : nat) (syms : list Z) (ix : list nat) (ref t : Z) (l1 l2 : list GhostZone) (ls2 : list Z) (w : W) : Prop := {
  rd_spine : spine_or_new w (Root td) (l1 ++ l2) ix;
  rd_open : Forall (fun z => end_of z = ref) l1;
  rd_ended : Forall (fun z => end_of z < ref) l2;
  rd_ref : match last (vec_at w (Root td)) with Some b => end_of b | None => 0 end = ref;
  rd_late : Forall (fun z => end_of z <= t) (l1 ++ l2);
  rd_shows1 : Forall2 (shows w) l1 syms;
  rd_shows2 : Forall2 (shows w) l2 ls2 }.

Lemma spine_head w v b l ix : spine w v (b :: l) ix -> last (vec_at w v) = Some b.
Proof. now inversion 1. Qed.

Lemma Forall2_map_end w t l syms : Forall2 (shows w) l syms -> Forall2 (shows w) (map (set_end t) l) syms.
Proof. induction 1; cbn [map]; constructor; done. Qed.

Lemma cut_ready td T syms ix t w (Q : unit -> W -> Prop) :
  open_zones w td T syms ix -> T < t -> in_sint 48 t -> 0 < m_samplingPeriod (smp w) ->
  (forall w1 l1 l2 ls2 ref, ready td syms ix ref t l1 l2 ls2 w1 -> ghosts_only w w1 ->
     ghostFrames (smp w1) = ghostFrames (smp w) -> ghostFramesMap (smp w1) = ghostFramesMap (smp w) ->
     levels w1 = levels w -> others_stay (Root td) ix w w1 -> Q tt w1) ->
  wp (match last (vec_at w (Root td)) with
      | Some b => when (t <? end_of b) (cut_spine (S (levels w)) (end_of b) t (Root td))
      | None => mret tt
      end) Q w.
Proof.
  intros [(E & -> & ->) | (l1 & l2 & ls2 & Hs & Hne & H1 & H2 & S1 & S2)] HT Ht Hp HQ.
  - rewrite E. wp_steps. apply (HQ w [] [] [] 0); try done; [| apply ghosts_only_refl].
    split; [now right | apply Forall_nil_2 | apply Forall_nil_2 | now rewrite E | apply Forall_nil_2 | apply Forall2_nil_2 | apply Forall2_nil_2].
  - destruct l1 as [| b l1]; [done |]. pose proof (spine_head _ _ _ _ _ Hs) as Eb. rewrite Eb.
    assert (H2' : forall r, T < r -> Forall (fun z => end_of z < r) l2).
    { intros r Hr. eapply Forall_impl; [exact H2 |]. cbv beta. intros; lia. }
    assert (H2l : forall r, T <= r -> Forall (fun z => end_of z <= r) l2).
    { intros r Hr. eapply Forall_impl; [exact H2 |]. cbv beta. intros; lia. }
    apply Forall_cons in H1 as H1'. destruct H1' as [Hb _]. destruct (Z.ltb_spec t (end_of b)) as [Hlt | Hge]; cbn [when].
    + pose proof (spine_length _ _ _ _ Hs I) as [Hlen Hix].
      eapply cut_spine_wp; [exact Hs | exact I | lia |]. rewrite Hb.
      rewrite (cut_open _ t (b :: l1) l2) by (done || (apply H2'; lia)). intros w1 G1 G2 [G3 G3'] G4 G5.
      assert (Hsh : forall z s, shows w z s -> shows w1 z s).
      { intros z s. apply shows_mono; [exact (ghosts_only_cst _ _ G2) | now rewrite G3]. }
      apply (HQ w1 (map (set_end t) (b :: l1)) l2 ls2 t); try done. split.
      * now left.
      * apply Forall_map. apply Forall_forall. intros z _. now apply end_set.
      * now apply H2'.
      * rewrite (spine_head _ _ _ _ _ G1). now apply end_set.
      * apply Forall_app. split; [| apply H2l; lia]. apply Forall_map, Forall_forall. intros z _. cbv beta. rewrite end_set by done. lia.
      * apply Forall2_map_end. eapply Forall2_impl; [exact S1 | exact Hsh].
      * eapply Forall2_impl; [exact S2 | exact Hsh].
    + wp_steps. apply (HQ w (b :: l1) l2 ls2 (end_of b)); try done; [| apply ghosts_only_refl].
      split; try done; [now left | now rewrite Hb | apply H2'; lia | now rewrite Eb |].
      apply Forall_app. split; [| apply H2l; lia]. eapply Forall_impl; [exact H1 |]. cbv beta. intros; lia.
Qed.

(** What a sample does to the zones of its thread. *)
Record sampled (td : nat) (ix ix' : list nat) (t : Z) (syms : list Z) (w w' : W) : Prop := {
  sa_open : open_zones w' td t syms ix';
  sa_new c : c ∈ ix' -> c ∈ ix \/ (levels w <= c)%nat;
  sa_only : ghosts_only w w';
  sa_frames : ghostFrames (smp w) `prefix_of` ghostFrames (smp w');
  sa_map : frame_map_ok w';
  sa_others : others_stay (Root td) ix w w';
  sa_size : (levels w' <= levels w + length syms)%nat /\
    (length (ghostFrames (smp w')) <= length (ghostFrames (smp w)) + length syms)%nat }.

Lemma map_take_drop {A B} (f : A -> B) n l : take n (map f l) ++ map f (drop n l) = map f l.
Proof. rewrite <- (take_drop n (map f l)) at 2. f_equal. now rewrite skipn_map. Qed.

(** The new zones go below what the sample continues. *)
Lemma grown_sampled td ix t syms1 la u ixa new ixn syms2 w w2 w3 :
  ghosts_only w w2 -> ghostFrames (smp w2) = ghostFrames (smp w) -> others_stay (Root td) ix w w2 ->
  path w2 (Root td) la u ixa -> (forall c, c ∈ ixa -> c ∈ ix \/ (levels w <= c)%nat) ->
  Forall (fun z => end_of z = t + m_samplingPeriod (smp w)) la -> Forall2 (shows w) la syms1 -> new <> [] ->
  grown u new ixn (t + m_samplingPeriod (smp w)) syms2 w2 w3 -> (levels w2 <= levels w + length syms1)%nat ->
  sampled td ix (ixa ++ ixn) t (syms1 ++ syms2) w w3.
Proof.
  intros Hg Hf Ho Hp Hixa He Hs Hne [G1 G2 G3 G4 G5 G6 G7 G8 G9] Hsize.
  assert (Hg3 : ghosts_only w w3) by (eapply ghosts_only_trans; eassumption).
  assert (Hpre : ghostFrames (smp w) `prefix_of` ghostFrames (smp w3)) by now rewrite <- Hf. split.
  - right. exists (la ++ new), [], []. rewrite app_nil_r. split; [eapply path_spine; [exact Hp | exact I | exact G7 | exact G1] |].
    split; [now destruct la |]. rewrite (period_only _ _ Hg3). split; [now apply Forall_app |].
    split; [apply Forall_nil_2 |]. split; [| apply Forall2_nil_2]. apply Forall2_app; [| exact G3].
    eapply Forall2_impl; [exact Hs |]. intros z s. apply shows_mono; [exact (ghosts_only_cst _ _ Hg3) | exact Hpre].
  - intros c Hc. apply elem_of_app in Hc as [Hc | Hc]; [now apply Hixa |]. right. apply G8 in Hc. destruct Ho as [Ho _]. lia.
  - exact Hg3.
  - exact Hpre.
  - exact G6.
  - destruct Ho as [Ho1 Ho2], G7 as [G71 G72]. split; [lia |]. intros v Hv Hix Hval.
    rewrite G72; [now apply Ho2 | | intros c Hc; inversion Hc | eapply is_vec_levels; eassumption].
    destruct (path_end _ _ _ _ _ Hp) as [-> | (c & Hc & ->)]; [done |]. intros ->.
    destruct (Hixa c Hc) as [Hin | Hge]; [now apply (Hix c) | cbn in Hval; lia].
  - rewrite Hf, (Forall2_length _ _ _ G3) in G9. rewrite length_app. lia.
Qed.

(** The sample continues all zones that it has: nothing is new. *)
Lemma extended_sampled td ix t syms la l2 ls2 ixb w w2 :
  extended (Root td) ix (t + m_samplingPeriod (smp w)) la syms w w2 -> frame_map_ok w ->
  spine w2 (Root td) (la ++ l2) ixb -> (forall c, c ∈ ixb -> c ∈ ix) -> la <> [] ->
  Forall (fun z => end_of z <= t) l2 -> Forall2 (shows w) l2 ls2 -> (levels w2 <= levels w + length syms)%nat ->
  sampled td ix ixb t syms w w2.
Proof.
  intros [A1 A2 A3 [A4 A4'] A5] Hm Hs Hix Hne H2 S2 Hsize.
  assert (Hsh : forall z s, shows w z s -> shows w2 z s).
  { intros z s. apply shows_mono; [exact (ghosts_only_cst _ _ A3) | now rewrite A4]. } split.
  - right. exists la, l2, ls2. rewrite (period_only _ _ A3). split_and!; try done; (eapply Forall2_impl; [eassumption | exact Hsh]).
  - intros c Hc. left. now apply Hix.
  - exact A3.
  - now rewrite A4.
  - intros key fid. rewrite A4, A4'. apply Hm.
  - exact A5.
  - rewrite A4. lia.
Qed.

Lemma sampled_trans td ix ix' t syms w w1 w2 :
  ghosts_only w w1 -> ghostFrames (smp w1) = ghostFrames (smp w) -> levels w1 = levels w ->
  others_stay (Root td) ix w w1 -> sampled td ix ix' t syms w1 w2 -> sampled td ix ix' t syms w w2.
Proof.
  intros Hg Hf Hl Ho [A1 A2 A3 A4 A5 A6 A7]. split; [exact A1 | now rewrite <- Hl | | now rewrite <- Hf | exact A5 | |].
  - eapply ghosts_only_trans; eassumption.
  - eapply others_trans; eassumption.
  - now rewrite <- Hl, <- Hf.
Qed.

Definition stack_room (w : W) (n : nat) : Prop := frames_room w n /\ Z.of_nat (levels w + n) <= 2 ^ 31.

(** [extend_spine] and [grow_spine], for a thread that is ready. *)
Lemma extend_grow_wp td syms ix ref t l1 l2 ls2 stack w (Q : Z -> W -> Prop) :
  let p := m_samplingPeriod (smp w) in let st := map is_symAddr stack in
  ready td syms ix ref t l1 l2 ls2 w -> Forall (frame_known w) stack -> stack <> [] -> frame_map_ok w ->
  in_sint 48 (t + p) -> stack_room w (length stack) ->
  (forall w' ix', sampled td ix ix' t st w w' -> Q (Z.of_nat (length st - common syms st)) w') ->
  wp (r ← extend_spine ref t p (Root td) stack; grow_spine t p (fst r) (snd r);; mret (Z.of_nat (length (snd r)))) Q w.
Proof.
  intros p st [R1 R2 R3 R4 R5 R6 R7] Hk Hne Hm Ht [Hr Hlv] HQ. set (k := common syms st) in *.
  pose proof (common_le syms st) as Hkle. fold k in Hkle. assert (Hlst : length st = length stack) by apply length_map.
  assert (Hmatch : matched ref (l1 ++ l2) (syms ++ ls2) st = k).
  { apply matched_open; [exact R2 | exact R3 | now apply Forall2_length in R6]. }
  apply wp_bind. eapply extend_spine_wp; [exact R1 | apply Forall2_app; [exact R6 | exact R7] | exact I | exact Ht | exact Hne | exact Hlv |].
  intros w2 u la. fold st. rewrite Hmatch. cbv zeta. intros Hla Hx Hlv2 Hend. cbn [fst snd].
  assert (Hst : take k st ++ map is_symAddr (drop k stack) = st) by apply map_take_drop.
  assert (Hdrop : (length (drop k stack) = length st - k)%nat) by (rewrite length_drop; lia).
  destruct (drop k stack) as [| x rest] eqn:Ed.
  - cbn [grow_spine map] in *. wp_steps. destruct Hend as (ixb & Hsp & Hixb). rewrite app_nil_r in Hst.
    assert (Ek : (length st - k = 0)%nat) by (cbn in Hdrop; lia). cbn [length]. rewrite Ek in HQ. apply (HQ _ ixb).
    rewrite Hst in Hx. eapply (extended_sampled td ix t st la (drop k (l1 ++ l2)) (drop k (syms ++ ls2))); try done.
    + intros ->. cbn [length] in Hla. assert (length stack <> 0%nat) by (now destruct stack). lia.
    + now apply Forall_drop.
    + now apply Forall2_drop, Forall2_app.
    + rewrite <- Hlst in Hlv2. cbn [length] in Hlv2. lia.
  - destruct Hend as (ixa & Hp & Hu & Hixa). destruct Hx as [A1 A2 A3 [A4 A4'] A5].
    apply wp_bind. eapply grow_spine_wp; [exact Hu | done | | | exact Ht | | |].
    + rewrite <- Ed. apply Forall_drop. eapply Forall_impl; [exact Hk |]. intros y. unfold frame_known, frame_shows.
      now rewrite (ghosts_only_cst _ _ A3).
    + intros key fid. rewrite A4, A4'. apply Hm.
    + unfold frames_room in *. rewrite A4, Hdrop. lia.
    + lia.
    + intros w3 new ixn Hnew Hg. wp_steps. rewrite Hdrop. apply (HQ _ (ixa ++ ixn)). rewrite <- Hst.
      eapply grown_sampled; try eassumption; [now destruct new |]. rewrite length_take. lia.
Qed.

(** ** All threads *)

(** [cur]: the time of the last sample of each thread, and the symbols of its call
    stack. *)
Definition ghost_stacks (w : W) (cur : nat -> Z * list Z) : Prop :=
  exists ixs : nat -> list nat, (forall td, open_zones w td (fst (cur td)) (snd (cur td)) (ixs td)) /\
    forall td td' c, c ∈ ixs td -> c ∈ ixs td' -> td = td'.
Definition next_sample (td : nat) (t : Z) (syms : list Z) (cur : nat -> Z * list Z) : nat -> Z * list Z :=
  fun td' => if decide (td' = td) then (t, syms) else cur td'.

Lemma open_zones_below w td T syms ix c : open_zones w td T syms ix -> c ∈ ix -> (c < levels w)%nat.
Proof.
  intros [(_ & _ & ->) | (l1 & l2 & ls2 & Hs & _)] Hc; [inversion Hc |].
  pose proof (spine_below _ _ _ _ Hs) as Hb. rewrite Forall_forall in Hb. now apply Hb.
Qed.
Lemma open_zones_other w w' td td' T syms ix ix' :
  td' <> td -> open_zones w td' T syms ix' -> (forall c, c ∈ ix' -> c ∉ ix) -> ghosts_only w w' ->
  ghostFrames (smp w) `prefix_of` ghostFrames (smp w') -> others_stay (Root td) ix w w' -> open_zones w' td' T syms ix'.
Proof.
  intros Hne Ho Hd Hg Hp [Hl Hs]. assert (Er : vec_at w' (Root td') = vec_at w (Root td')) by (apply Hs; congruence || done).
  pose proof (fun c => open_zones_below w td' T syms ix' c Ho) as Hb.
  destruct Ho as [(E & -> & ->) | (l1 & l2 & ls2 & Hsp & H1 & H2 & H3 & S1 & S2)]; [left; now rewrite Er |].
  right. exists l1, l2, ls2. rewrite (period_only _ _ Hg).
  assert (Hsh : forall z s, shows w z s -> shows w' z s).
  { intros z s. apply shows_mono; [exact (ghosts_only_cst _ _ Hg) | exact Hp]. }
  split_and!; try done; [| eapply Forall2_impl; [exact S1 | exact Hsh] | eapply Forall2_impl; [exact S2 | exact Hsh]].
  eapply spine_same; [exact Hsp | exact Er | | exact Hl]. intros c Hc. apply Hs; [done | | now apply Hb].
  intros c' Hc' [= ->]. now apply (Hd c').
Qed.

Lemma ghost_stacks_sampled td cur ixs ix' t syms w w' :
  (forall td, open_zones w td (fst (cur td)) (snd (cur td)) (ixs td)) ->
  (forall td td' c, c ∈ ixs td -> c ∈ ixs td' -> td = td') ->
  sampled td (ixs td) ix' t syms w w' -> ghost_stacks w' (next_sample td t syms cur).
Proof.
  intros Hall Hdis [A1 A2 A3 A4 A5 A6 _].
  exists (fun td' => if decide (td' = td) then ix' else ixs td'). unfold next_sample.
  assert (Hnew : forall td' c, td' <> td -> c ∈ ix' -> c ∈ ixs td' -> False).
  { intros td' c Hne Hc Hc'. destruct (A2 c Hc) as [Hin | Hge]; [now apply Hne, (Hdis td' td c) |].
    pose proof (open_zones_below _ _ _ _ _ c (Hall td') Hc'). lia. }
  split.
  - intros td'. destruct (decide (td' = td)) as [-> | Hne]; [exact A1 |].
    eapply open_zones_other; [exact Hne | apply Hall | | exact A3 | exact A4 | exact A6].
    intros c Hc Hc'. now apply Hne, (Hdis td' td c).
  - intros td1 td2 c. destruct (decide (td1 = td)) as [-> | H1], (decide (td2 = td)) as [-> | H2]; try done.
    + intros Hc Hc'. destruct (Hnew td2 c H2 Hc Hc').
    + intros Hc Hc'. destruct (Hnew td1 c H1 Hc' Hc).
    + apply Hdis.
Qed.

Lemma AddGhostZone_wp cs groups td t cur w (Q : Z -> W -> Prop) :
  let syms := stack_symbols groups in
  ghost_stacks w cur -> frame_map_ok w -> Forall2 (known_group w) cs groups -> cs <> [] ->
  0 < m_samplingPeriod (smp w) -> in_sint 48 t -> in_sint 48 (t + m_samplingPeriod (smp w)) ->
  fst (cur td) < t -> stack_room w (length syms) ->
  (forall w', ghost_stacks w' (next_sample td t syms cur) -> frame_map_ok w' -> ghosts_only w w' ->
     (forall n, stack_room w (length syms + n) -> stack_room w' n) ->
     Q (Z.of_nat (length syms - common (snd (cur td)) syms)) w') ->
  wp (AddGhostZone cs (Root td) t) Q w.
Proof.
  intros syms (ixs & Hall & Hdis) Hm Hg Hne Hp Ht Hte Hlt Hroom HQ. unfold AddGhostZone.
  apply wp_bind. eapply GetStackWithInlines_wp; [exact Hg | exact Hne |]. intros stack Est Hk Hns. fold syms in Est.
  apply wp_bind, wp_gets. apply wp_bind, GetVec_wp; [exact I |]. apply wp_bind.
  apply (cut_ready td (fst (cur td)) (snd (cur td)) (ixs td)); [apply Hall | exact Hlt | exact Ht | exact Hp |].
  intros w1 l1 l2 ls2 ref Hr Hg1 Hf1 Hm1 Hl1 Ho1. apply wp_bind, GetVec_wp; [exact I |]. cbv zeta.
  pose proof (rd_ref _ _ _ _ _ _ _ _ _ Hr) as Href. unfold end_of in Href. rewrite Href, <- (period_only _ _ Hg1).
  assert (Hlen : length stack = length syms) by (rewrite <- Est; symmetry; apply length_map).
  apply (extend_grow_wp td (snd (cur td)) (ixs td) ref t l1 l2 ls2 stack); try done.
  - eapply Forall_impl; [exact Hk |]. intros y. unfold frame_known, frame_shows. now rewrite (ghosts_only_cst _ _ Hg1).
  - intros key fid. rewrite Hf1, Hm1. apply Hm.
  - now rewrite (period_only _ _ Hg1).
  - unfold stack_room, frames_room in *. rewrite Hf1, Hl1, Hlen. exact Hroom.
  - intros w' ix' Hs. rewrite Est in *. apply (sampled_trans _ _ _ _ _ w) in Hs; [| exact Hg1 | exact Hf1 | exact Hl1 | exact Ho1].
    apply HQ.
    + eapply ghost_stacks_sampled; eassumption.
    + exact (sa_map _ _ _ _ _ _ _ Hs).
    + exact (sa_only _ _ _ _ _ _ _ Hs).
    + intros n. pose proof (sa_size _ _ _ _ _ _ _ Hs). unfold stack_room, frames_room. lia.
Qed.

(** C30: a sample ends, for its thread, with open zones that are exactly the functions
    of its call stack, the outermost one first: those that it shares with the sample
    before, counted from the outermost one, last longer, the others are new, and their
    number is returned.  The open zones of other threads stay, and nothing but ghost
    zones is changed. *)
Theorem AddGhostZone_opens (cs : list CallstackFrameId.t) (groups : list CallstackFrameData) (td : nat) (t : Z)
    (cur : nat -> Z * list Z) (w : W) :
  let syms := stack_symbols groups in
  ghost_stacks w cur -> frame_map_ok w -> Forall2 (known_group w) cs groups -> cs <> [] ->
  0 < m_samplingPeriod (smp w) -> in_sint 48 t -> in_sint 48 (t + m_samplingPeriod (smp w)) ->
  fst (cur td) < t -> stack_room w (length syms) ->
  wp (AddGhostZone cs (Root td) t) (fun n w' =>
    n = Z.of_nat (length syms - common (snd (cur td)) syms) /\
    ghost_stacks w' (next_sample td t syms cur) /\ frame_map_ok w' /\ ghosts_only w w') w.
Proof.
  intros syms Hs Hm Hg Hne Hp Ht Hte Hlt Hroom. eapply AddGhostZone_wp; try eassumption. intros w' H1 H2 H3 _. done.
Qed.

(** A connection that knows what is at two addresses: the function 0x10, and at the
    other one the function 0x20, which was inlined into 0x30. *)
Definition demo_groups : list CallstackFrameData :=
  [mkFrameGroup [mkFrame 0 0 1 0x10] 1 0; mkFrameGroup [mkFrame 0 0 2 0x20; mkFrame 0 0 3 0x30] 2 0].
Definition demo_sampler : W :=
  (Worker (double_of_Z 1) 1000 0 100 false false [0; 0])
    <| smp := new_Samples 125000 false false |>
    <| cst ::= (fun c => c <| callstackPayload := [None; Some [0x400100; 0x400200]; Some [0x400200; 0x400300]] |>
         <| callstackFrameMap := {[ 0x400100 := head demo_groups; 0x400200 := last demo_groups; 0x400300 := None ]} |>) |>.

Lemma no_ghosts w : (forall v, vec_at w v = []) -> ghost_stacks w (fun _ => (0, [])).
Proof.
  intros E. exists (fun _ => []). split.
  - intros td. left. now rewrite E.
  - intros td td' c Hc. inversion Hc.
Qed.
Lemma demo_no_ghosts v : vec_at demo_sampler v = [].
Proof. destruct v as [td | i]; [vm_compute | destruct i]; done. Qed.
Lemma demo_known : Forall2 (known_group demo_sampler) [0x400100; 0x400200] demo_groups.
Proof. repeat constructor; vm_compute; discriminate || reflexivity. Qed.
Lemma demo_map_ok : frame_map_ok demo_sampler.
Proof. intros key fid. change (ghostFramesMap (smp demo_sampler)) with (∅ : gmap GhostKey Z). now rewrite lookup_empty. Qed.

Lemma AddGhostZone_opens_witness :
  wp (AddGhostZone [0x400100; 0x400200] (Root 3) 500) (fun n w' =>
    n = 3 /\ ghost_stacks w' (next_sample 3 500 [0x30; 0x20; 0x10] (fun _ => (0, []))) /\
    frame_map_ok w' /\ ghosts_only demo_sampler w') demo_sampler.
Proof.
  apply (AddGhostZone_opens [0x400100; 0x400200] demo_groups 3 500 (fun _ => (0, [])) demo_sampler).
  - exact (no_ghosts demo_sampler demo_no_ghosts).
  - exact demo_map_ok.
  - exact demo_known.
  - discriminate.
  - reflexivity.
  - split; [vm_compute; discriminate | reflexivity].
  - split; [vm_compute; discriminate | reflexivity].
  - reflexivity.
  - split; vm_compute; discriminate.
Defined.
