(* ===== verification/GhostLoop.v ===== *)
(** * Ghost zones that were put off

    Samples whose frames have not arrived wait for them.  Going through them again ends
    always: every thread takes those that are first and whose frames are known by now. *)
From S2P Require Import Prelude Double Queue Event Containers Discovery Wire Trace Server ServerZone ServerMem ServerPlot ServerCallstack ServerSymbol ServerSample GhostSpec.

(** ** What a sample says *)
Definition frame_at (w : W) (id : CallstackFrameId.t) : option CallstackFrameData :=
  match callstackFrameMap (cst w) !! id with Some d => d | None => None end.
Definition stack_at (w : W) (sd : SampleData) : option (list CallstackFrameId.t) :=
  mjoin (callstackPayload (cst w) !! Z.to_nat (Int24.Val (sm_callstack sd))).
Definition time_at (sd : SampleData) : Z := Int48.Val (sm_time sd).
(** The functions that were running, the outermost one first, if all are known. *)
Definition sample_symbols (w : W) (sd : SampleData) : option (list Z) :=
  cs ← stack_at w sd; groups ← mapM (frame_at w) cs; Some (stack_symbols groups).
(** The leading samples whose functions are known. *)
Fixpoint known_samples (w : W) (l : list SampleData) : list (Z * list Z) :=
  match l with
  | [] => []
  | sd :: l => match sample_symbols w sd with Some syms => (time_at sd, syms) :: known_samples w l | None => [] end
  end.
Definition waiting (w : W) (td : nat) : list SampleData :=
  drop (Z.to_nat (ghostIdx (samples_of w td))) (samples (samples_of w td)).
Definition taken (w : W) (td : nat) : list (Z * list Z) := known_samples w (waiting w td).
Definition zones_of (l : list (Z * list Z)) : nat := list_sum (map (fun p => length (snd p)) l).

(** The samples of a thread name call stacks that exist, with frames, and the ones that
    wait are later than [T], one after the other. *)
Definition stack_ok (w : W) (sd : SampleData) : Prop := exists cs, stack_at w sd = Some cs /\ cs <> [] /\
  Forall (fun id => CallstackFrameId.custom id = 0 /\ forall d, frame_at w id = Some d -> group_frames d <> []) cs.
Fixpoint in_order (p T : Z) (l : list SampleData) : Prop :=
  match l with [] => True | sd :: l => T < time_at sd /\ in_sint 48 (time_at sd + p) /\ in_order p (time_at sd) l end.
Record samples_ok (w : W) (td : nat) (T : Z) : Prop := {
  so_idx : 0 <= ghostIdx (samples_of w td) <= Z.of_nat (length (samples (samples_of w td)));
  so_size : Z.of_nat (length (samples (samples_of w td))) < 2 ^ 64;
  so_stacks : Forall (stack_ok w) (waiting w td);
  so_order : in_order (m_samplingPeriod (smp w)) T (waiting w td) }.

(** ** States with the same ghost zones *)
Record same_ghosts (w w' : W) : Prop := {
  sg_vec v : vec_at w' v = vec_at w v;
  sg_levels : levels w' = levels w;
  sg_frames : ghostFrames (smp w') = ghostFrames (smp w);
  sg_map : ghostFramesMap (smp w') = ghostFramesMap (smp w);
  sg_cst : cst w' = cst w;
  sg_period : m_samplingPeriod (smp w') = m_samplingPeriod (smp w) }.

Lemma same_ghosts_stacks w w' cur : same_ghosts w w' -> ghost_stacks w cur -> ghost_stacks w' cur.
Proof.
  intros [S1 S2 S3 S4 S5 S6] (ixs & Hall & Hdis). exists ixs. split; [| exact Hdis]. intros td.
  destruct (Hall td) as [(E & Es & Ei) | (l1 & l2 & ls2 & Hs & Hne & H1 & H2 & H3 & H4)]; [left; now rewrite S1 |].
  right. exists l1, l2, ls2. rewrite S6.
  assert (Hsh : forall z s, shows w z s -> shows w' z s) by (intros z s; apply shows_mono; [exact S5 | now rewrite S3]).
  split_and!; try done; [| eapply Forall2_impl; [exact H3 | exact Hsh] | eapply Forall2_impl; [exact H4 | exact Hsh]].
  eapply spine_same; [exact Hs | apply S1 | intros; apply S1 | lia].
Qed.
Lemma same_ghosts_map w w' : same_ghosts w w' -> frame_map_ok w -> frame_map_ok w'.
Proof. intros [_ _ S3 S4 _ _] Hm key fid. rewrite S3, S4. apply Hm. Qed.
Lemma ghost_stacks_ext w cur cur' : (forall td, cur' td = cur td) -> ghost_stacks w cur -> ghost_stacks w cur'.
Proof. intros E (ixs & Hall & Hdis). exists ixs. split; [| exact Hdis]. intros td. rewrite E. apply Hall. Qed.

(** What a loop over the threads [tds] leaves alone. *)
Record looped (tds : list nat) (w w' : W) : Prop := {
  lo_cst : cst w' = cst w;
  lo_period : m_samplingPeriod (smp w') = m_samplingPeriod (smp w);
  lo_threads : threads w' = threads w;
  lo_samples td : samples (samples_of w' td) = samples (samples_of w td);
  lo_idx td : td ∉ tds -> ghostIdx (samples_of w' td) = ghostIdx (samples_of w td) }.

Lemma looped_refl tds w : looped tds w w.
Proof. split; done. Qed.
Lemma looped_trans tds1 tds2 tds w w1 w2 :
  looped tds1 w w1 -> looped tds2 w1 w2 -> (forall td, td ∈ tds1 \/ td ∈ tds2 -> td ∈ tds) -> looped tds w w2.
Proof.
  intros [A1 A2 A3 A4 A5] [B1 B2 B3 B4 B5] Ht. split; try congruence.
  - intros td Hn. etransitivity; [apply B5 | apply A5]; intros Hin; apply Hn, Ht; [now right | now left].
Qed.
Lemma looped_ghosts tds w w' : ghosts_only w w' -> looped tds w w'.
Proof.
  intros Hg. split.
  - exact (ghosts_only_cst _ _ Hg).
  - exact (period_only _ _ Hg).
  - rewrite (go_rest _ _ Hg). now destruct w.
  - intros td. now rewrite (go_threads _ _ Hg).
  - intros td _. now rewrite (go_threads _ _ Hg).
Qed.

Lemma frame_at_looped tds w w' id : looped tds w w' -> frame_at w' id = frame_at w id.
Proof. intros H. unfold frame_at. now rewrite (lo_cst _ _ _ H). Qed.
Lemma stack_at_looped tds w w' sd : looped tds w w' -> stack_at w' sd = stack_at w sd.
Proof. intros H. unfold stack_at. now rewrite (lo_cst _ _ _ H). Qed.
Lemma sample_symbols_looped tds w w' sd : looped tds w w' -> sample_symbols w' sd = sample_symbols w sd.
Proof. intros H. unfold sample_symbols, stack_at, frame_at. now rewrite (lo_cst _ _ _ H). Qed.
Lemma known_looped tds w w' l : looped tds w w' -> known_samples w' l = known_samples w l.
Proof. intros H. induction l as [| sd l IH]; [done |]. cbn. now rewrite (sample_symbols_looped _ _ _ _ H), IH. Qed.
Lemma stack_ok_looped tds w w' sd : looped tds w w' -> stack_ok w sd -> stack_ok w' sd.
Proof.
  intros H (cs & E & Hne & Hcs). exists cs. rewrite (stack_at_looped _ _ _ _ H). split_and!; try done.
  eapply Forall_impl; [exact Hcs |]. intros id [Hc Hd]. split; [exact Hc |]. intros d. rewrite (frame_at_looped _ _ _ _ H). apply Hd.
Qed.
Lemma samples_ok_looped tds w w' td T :
  looped tds w w' -> td ∉ tds -> samples_ok w td T -> samples_ok w' td T /\ taken w' td = taken w td /\ waiting w' td = waiting w td.
Proof.
  intros H Hn [A1 A0 A2 A3]. assert (E : waiting w' td = waiting w td).
  { unfold waiting. now rewrite (lo_samples _ _ _ H), (lo_idx _ _ _ H). }
  split; [split |].
  - now rewrite (lo_samples _ _ _ H), (lo_idx _ _ _ H).
  - now rewrite (lo_samples _ _ _ H).
  - rewrite E. eapply Forall_impl; [exact A2 |]. intros sd. apply (stack_ok_looped _ _ _ _ H).
  - now rewrite E, (lo_period _ _ _ H).
  - unfold taken. now rewrite E, (known_looped _ _ _ _ H).
Qed.

(** ** One sample *)
Lemma GetCallstack_wp w sd cs (Q : list CallstackFrameId.t -> W -> Prop) :
  stack_at w sd = Some cs -> Q cs w -> wp (GetCallstack (Int24.Val (sm_callstack sd))) Q w.
Proof.
  intros E HQ. unfold GetCallstack, stack_at in *. wp_steps.
  destruct (callstackPayload (cst w) !! _) as [o |]; [cbn in E; subst o | done]. now eapply wp_expect; [| eapply wp_expect].
Qed.
Lemma known_frames_wp cs w (Q : option (list CallstackFrameData) -> W -> Prop) :
  Forall (fun id => CallstackFrameId.custom id = 0) cs -> Q (mapM (frame_at w) cs) w -> wp (known_frames cs) Q w.
Proof.
  intros Hc. revert Q. induction Hc as [| id cs Hid Hcs IH]; intros Q HQ; cbn [known_frames]; [exact HQ |].
  unfold GetCallstackFrame. rewrite Hid. wp_steps. change (mapM (frame_at w) (id :: cs)) with
    (d ← frame_at w id; l ← mapM (frame_at w) cs; Some (d :: l)) in HQ.
  change (match callstackFrameMap (cst w) !! id with Some d => d | None => None end) with (frame_at w id).
  destruct (frame_at w id) as [d |].
  - apply wp_bind, IH. wp_steps. destruct (mapM (frame_at w) cs); exact HQ.
  - wp_steps. exact HQ.
Qed.

(** The samples before the next one have been taken. *)
Definition count_taken (td : nat) (w : W) : W :=
  w <| smp ::= (fun m => m <| td_samples ::= <[td := (samples_of w td) <| ghostIdx ::= (fun n => uint 64 (n + 1)) |>]> |>) |>.
Lemma samples_of_taken td td' w : samples_of (count_taken td w) td' =
  if decide (td' = td) then (samples_of w td) <| ghostIdx ::= (fun n => uint 64 (n + 1)) |> else samples_of w td'.
Proof.
  unfold samples_of at 1, count_taken. cbn. destruct (decide (td' = td)) as [-> | Hne].
  - now rewrite lookup_insert_eq.
  - now rewrite lookup_insert_ne by congruence.
Qed.
Lemma taken_same td w : same_ghosts w (count_taken td w).
Proof. split; try done. intros [td' | i]; [| done]. cbn. rewrite samples_of_taken. destruct (decide (td' = td)) as [-> |]; done. Qed.
Lemma taken_looped td w : looped [td] w (count_taken td w).
Proof.
  split; try done.
  - intros td'. rewrite samples_of_taken. destruct (decide (td' = td)) as [-> |]; done.
  - intros td' Hn. rewrite samples_of_taken. destruct (decide (td' = td)) as [-> |]; [| done]. destruct Hn. left.
Qed.
Definition count_ghosts (n : Z) (w : W) : W := w <| smp ::= (fun s => s <| ghostCnt ::= (fun c => uint 64 (c + n)) |>) |>.
Lemma ghosts_same n w : same_ghosts w (count_ghosts n w).
Proof. split; done. Qed.
Lemma ghosts_looped n w : looped [] w (count_ghosts n w).
Proof. split; done. Qed.

(** From [w] to [w'], the thread [td] takes one sample. *)
Record took (td : nat) (t : Z) (syms : list Z) (cur : nat -> Z * list Z) (w w' : W) : Prop := {
  tk_stacks : ghost_stacks w' (next_sample td t syms cur);
  tk_map : frame_map_ok w';
  tk_looped : looped [td] w w';
  tk_idx : ghostIdx (samples_of w' td) = ghostIdx (samples_of w td) + 1;
  tk_room n : stack_room w (length syms + n) -> stack_room w' n }.

Lemma take_one_wp {A} td sd cs groups cur w (k : M W A) (Q : A -> W -> Prop) :
  let syms := stack_symbols groups in
  ghost_stacks w cur -> frame_map_ok w -> 0 < m_samplingPeriod (smp w) ->
  Forall2 (known_group w) cs groups -> cs <> [] -> fst (cur td) < time_at sd ->
  in_sint 48 (time_at sd + m_samplingPeriod (smp w)) -> stack_room w (length syms) ->
  0 <= ghostIdx (samples_of w td) < 2 ^ 64 - 1 ->
  (forall w', took td (time_at sd) syms cur w w' -> wp k Q w') ->
  wp (UpdSamples td (fun ts => ts <| ghostIdx ::= (fun n => uint 64 (n + 1)) |>);;
      n ← AddGhostZone cs (Root td) (Int48.Val (sm_time sd));
      UpdSmp (fun s => s <| ghostCnt ::= (fun c => uint 64 (c + n)) |>);; k) Q w.
Proof.
  intros syms Hs Hm Hp Hg Hne Hlt Hend Hroom Hidx HQ. unfold UpdSamples. apply wp_bind, wp_bind, GetSamples_wp.
  unfold UpdSmp. apply wp_modify. change (wp (n ← AddGhostZone cs (Root td) (Int48.Val (sm_time sd));
    modify (fun w0 => w0 <| smp ::= (fun s => s <| ghostCnt ::= (fun c => uint 64 (c + n)) |>) |>);; k) Q (count_taken td w)).
  pose proof (taken_same td w) as H1. apply wp_bind. eapply (AddGhostZone_wp cs groups td _ cur).
  - exact (same_ghosts_stacks _ _ _ H1 Hs).
  - exact (same_ghosts_map _ _ H1 Hm).
  - eapply Forall2_impl; [exact Hg |]. done.
  - exact Hne.
  - exact Hp.
  - rewrite Int48.Val48_bits. apply sint_range. lia.
  - exact Hend.
  - exact Hlt.
  - exact Hroom.
  - intros w' G1 G2 G3 G4. apply wp_bind, wp_modify. set (n := Z.of_nat _).
    change (wp k Q (count_ghosts n w')). apply HQ. split.
    + exact (same_ghosts_stacks _ _ _ (ghosts_same n w') G1).
    + exact (same_ghosts_map _ _ (ghosts_same n w') G2).
    + eapply (looped_trans [td] [td]); [apply taken_looped | | tauto].
      eapply (looped_trans [td] []); [apply looped_ghosts, G3 | apply ghosts_looped |]. intros td' [? | Hin]; [done | inversion Hin].
    + change (ghostIdx (samples_of w' td) = ghostIdx (samples_of w td) + 1). rewrite (go_threads _ _ G3), samples_of_taken, decide_True by done.
      cbn. apply uint_small. red. lia.
    + exact G4.
Qed.

(** ** The loop over the samples of a thread *)
Definition last_or (c : Z * list Z) (l : list (Z * list Z)) : Z * list Z := default c (last l).
(** The threads [tds] took what they could. *)
Definition all_taken (tds : list nat) (w : W) (cur : nat -> Z * list Z) : nat -> Z * list Z :=
  fun td => if decide (td ∈ tds) then last_or (cur td) (taken w td) else cur td.

Lemma last_or_cons c p l : last_or c (p :: l) = last_or p l.
Proof. unfold last_or. rewrite last_cons. now destruct (last l). Qed.

Lemma known_prefix w sd cs groups :
  stack_at w sd = Some cs -> mapM (frame_at w) cs = Some groups -> sample_symbols w sd = Some (stack_symbols groups).
Proof. intros E1 E2. unfold sample_symbols. rewrite E1. cbn. now rewrite E2. Qed.
Lemma known_none w sd cs : stack_at w sd = Some cs -> mapM (frame_at w) cs = None -> sample_symbols w sd = None.
Proof. intros E1 E2. unfold sample_symbols. rewrite E1. cbn. now rewrite E2. Qed.
Lemma known_groups w cs groups :
  Forall (fun id => CallstackFrameId.custom id = 0 /\ forall d, frame_at w id = Some d -> group_frames d <> []) cs ->
  mapM (frame_at w) cs = Some groups -> Forall2 (known_group w) cs groups.
Proof.
  intros Hcs E. apply mapM_Some in E. induction E as [| id d cs groups Hd E IH]; [constructor |].
  apply Forall_cons in Hcs as [[Hc Hg] Hcs]. constructor; [| now apply IH]. split; [exact Hc |].
  split; [| now apply Hg]. unfold frame_at in Hd. destruct (callstackFrameMap (cst w) !! id); [now subst | done].
Qed.

Lemma waiting_cons w td sd l : waiting w td = sd :: l -> samples (samples_of w td) !! Z.to_nat (ghostIdx (samples_of w td)) = Some sd.
Proof.
  unfold waiting. intros E. rewrite <- (Nat.add_0_r (Z.to_nat _)), <- lookup_drop, E. done.
Qed.
Lemma waiting_next td w w' sd l :
  looped [td] w w' -> 0 <= ghostIdx (samples_of w td) -> ghostIdx (samples_of w' td) = ghostIdx (samples_of w td) + 1 ->
  waiting w td = sd :: l -> waiting w' td = l.
Proof.
  intros Hl H0 E Hw. unfold waiting in *. rewrite E, (lo_samples _ _ _ Hl).
  replace (Z.to_nat (ghostIdx (samples_of w td) + 1)) with (Z.to_nat (ghostIdx (samples_of w td)) + 1)%nat by lia.
  now rewrite <- drop_drop, Hw.
Qed.

(** What a thread took, and whether something is left. *)
Definition some_left (w : W) (td : nat) : bool := (length (taken w td) <? length (waiting w td))%nat.

Lemma all_taken_same td w cur : taken w td = [] -> forall td', all_taken [td] w cur td' = cur td'.
Proof.
  intros E td'. unfold all_taken. destruct (decide (td' ∈ [td])) as [Hin |]; [| done].
  apply list_elem_of_singleton in Hin as ->. now rewrite E.
Qed.
Lemma all_taken_next td w w' cur t syms :
  taken w td = (t, syms) :: taken w' td -> forall td', all_taken [td] w cur td' = all_taken [td] w' (next_sample td t syms cur) td'.
Proof.
  intros E td'. unfold all_taken, next_sample. destruct (decide (td' ∈ [td])) as [Hin | Hn].
  - apply list_elem_of_singleton in Hin as ->. now rewrite decide_True, E, last_or_cons.
  - rewrite decide_False; [done |]. intros ->. apply Hn. left.
Qed.

Lemma postponed_ghosts_wp td fuel : forall cur w (Q : bool -> W -> Prop),
  ghost_stacks w cur -> frame_map_ok w -> 0 < m_samplingPeriod (smp w) ->
  samples_ok w td (fst (cur td)) -> (length (waiting w td) < fuel)%nat ->
  (forall w', ghost_stacks w' (all_taken [td] w cur) -> frame_map_ok w' -> looped [td] w w' ->
     ghostIdx (samples_of w' td) = ghostIdx (samples_of w td) + Z.of_nat (length (taken w td)) ->
     (forall n, stack_room w (zones_of (taken w td) + n) -> stack_room w' n) -> Q (some_left w td) w') ->
  stack_room w (zones_of (taken w td)) ->
  wp (postponed_ghosts fuel td) Q w.
Proof.
  induction fuel as [| fuel IH]; intros cur w Q Hs Hm Hp [Hidx Hsz Hst Hord] Hf HQ Hroom; [lia |]. cbn [postponed_ghosts].
  apply wp_bind, GetSamples_wp.
  assert (Hstop : taken w td = [] -> Q (some_left w td) w).
  { intros E. apply HQ; [| exact Hm | apply looped_refl | rewrite E; cbn; lia | now rewrite E].
    eapply ghost_stacks_ext; [now apply all_taken_same | exact Hs]. }
  destruct (waiting w td) as [| sd l] eqn:Ew.
  - assert (El : ghostIdx (samples_of w td) = Z.of_nat (length (samples (samples_of w td)))).
    { apply (f_equal length) in Ew. unfold waiting in Ew. rewrite length_drop in Ew. cbn in Ew. lia. }
    rewrite El, Z.eqb_refl. wp_steps. assert (E : taken w td = []) by (unfold taken; now rewrite Ew).
    replace false with (some_left w td) by (unfold some_left; now rewrite E, Ew). now apply Hstop.
  - pose proof (waiting_cons _ _ _ _ Ew) as Esd. pose proof (lookup_lt_Some _ _ _ Esd) as Hlt.
    rewrite (proj2 (Z.eqb_neq _ _)) by lia. apply wp_bind. eapply wp_expect; [exact Esd |].
    apply Forall_cons in Hst as [(cs & Ecs & Hne & Hcs) Hst]. destruct Hord as (Ht & Hend & Hord).
    apply wp_bind. eapply GetCallstack_wp; [exact Ecs |]. apply wp_bind.
    apply known_frames_wp; [eapply Forall_impl; [exact Hcs |]; now intros ? [? _] |].
    destruct (mapM (frame_at w) cs) as [groups |] eqn:Eg.
    + pose proof (known_prefix _ _ _ _ Ecs Eg) as Esy.
      assert (Etk : taken w td = (time_at sd, stack_symbols groups) :: known_samples w l) by (unfold taken; rewrite Ew; cbn; now rewrite Esy).
      assert (Hz : zones_of (taken w td) = (length (stack_symbols groups) + zones_of (known_samples w l))%nat) by now rewrite Etk.
      apply (take_one_wp td sd cs groups cur); try done.
      * now apply known_groups.
      * unfold stack_room, frames_room in *. lia.
      * lia.
      * intros w' [K1 K2 K3 K4 K5]. pose proof (waiting_next _ _ _ _ _ K3 (proj1 Hidx) K4 Ew) as Ew'.
        assert (Etk' : taken w' td = known_samples w l) by (unfold taken; now rewrite Ew', (known_looped _ _ _ _ K3)).
        rewrite <- Etk' in Etk, Hz. apply (IH (next_sample td (time_at sd) (stack_symbols groups) cur)); try done.
        -- now rewrite (lo_period _ _ _ K3).
        -- split; [rewrite (lo_samples _ _ _ K3); lia | now rewrite (lo_samples _ _ _ K3) | |].
           ++ rewrite Ew'. eapply Forall_impl; [exact Hst |]. intros sd'. apply (stack_ok_looped _ _ _ _ K3).
           ++ rewrite Ew', (lo_period _ _ _ K3). unfold next_sample. now rewrite decide_True.
        -- rewrite Ew'. cbn in Hf. lia.
        -- intros w2 L1 L2 L3 L4 L5. replace (some_left w' td) with (some_left w td) by (unfold some_left; now rewrite Etk, Ew, Ew').
           apply HQ.
           ++ eapply ghost_stacks_ext; [| exact L1]. now apply all_taken_next.
           ++ exact L2.
           ++ eapply looped_trans; [exact K3 | exact L3 | tauto].
           ++ rewrite L4, K4, Etk. cbn [length]. lia.
           ++ intros n Hn. apply L5, K5. now rewrite Nat.add_assoc, <- Hz.
        -- apply K5. now rewrite <- Hz.
    + assert (E : taken w td = []) by (unfold taken; rewrite Ew; cbn; now rewrite (known_none _ _ _ Ecs Eg)).
      wp_steps. replace true with (some_left w td) by (unfold some_left; now rewrite E, Ew). now apply Hstop.
Qed.

(** ** All threads *)
Definition all_zones (w : W) (tds : list nat) : nat := list_sum (map (fun td => zones_of (taken w td)) tds).

Lemma all_zones_looped tds0 w w' tds :
  looped tds0 w w' -> (forall td, td ∈ tds -> taken w' td = taken w td) -> all_zones w' tds = all_zones w tds.
Proof.
  intros Hl Ht. unfold all_zones. f_equal. apply map_ext_in. intros td Hin. rewrite Ht; [done |]. now apply list_elem_of_In.
Qed.

Lemma existsb_same {A} (f g : A -> bool) l : (forall a, a ∈ l -> f a = g a) -> existsb f l = existsb g l.
Proof.
  induction l as [| a l IH]; intros H; [done |]. cbn. rewrite H by left. f_equal. apply IH. intros; apply H. now right.
Qed.
Lemma postponed_threads_wp tds : forall cur w (Q : bool -> W -> Prop),
  NoDup tds -> ghost_stacks w cur -> frame_map_ok w -> 0 < m_samplingPeriod (smp w) ->
  (forall td, td ∈ tds -> samples_ok w td (fst (cur td))) -> stack_room w (all_zones w tds) ->
  (forall w', ghost_stacks w' (all_taken tds w cur) -> frame_map_ok w' -> looped tds w w' ->
     (forall td, td ∈ tds -> ghostIdx (samples_of w' td) = ghostIdx (samples_of w td) + Z.of_nat (length (taken w td))) ->
     Q (existsb (some_left w) tds) w') ->
  wp (postponed_threads tds) Q w.
Proof.
  induction tds as [| td tds IH]; intros cur w Q Hnd Hs Hm Hp Hok Hroom HQ; cbn [postponed_threads].
  { wp_steps. apply HQ; [| done | apply looped_refl | intros td Hin; inversion Hin]. eapply ghost_stacks_ext; [| exact Hs].
    intros td. unfold all_taken. now rewrite decide_False by (intros Hin; inversion Hin). }
  apply NoDup_cons in Hnd as [Hni Hnd]. apply wp_bind, GetSamples_wp. apply wp_bind.
  change (all_zones w (td :: tds)) with (zones_of (taken w td) + all_zones w tds)%nat in Hroom.
  apply (postponed_ghosts_wp td _ cur); try done.
  - apply Hok. left.
  - unfold waiting. rewrite length_drop. lia.
  - intros w1 A1 A2 A3 A4 A5.
    assert (Hrest : forall td', td' ∈ tds -> samples_ok w1 td' (fst (cur td')) /\ taken w1 td' = taken w td' /\ waiting w1 td' = waiting w td').
    { intros td' Hin. apply (samples_ok_looped [td]); [exact A3 | | apply Hok; now right].
      intros E. apply list_elem_of_singleton in E as ->. done. }
    apply wp_bind, (IH (all_taken [td] w cur)); try done.
    + now rewrite (lo_period _ _ _ A3).
    + intros td' Hin. unfold all_taken. rewrite decide_False; [now apply Hrest |].
      intros E. apply list_elem_of_singleton in E as ->. done.
    + rewrite (all_zones_looped [td] w) by (exact A3 || (intros td' Hin; now apply Hrest)). apply A5. exact Hroom.
    + intros w2 B1 B2 B3 B4. wp_steps. replace (existsb (some_left w1) tds) with (existsb (some_left w) tds).
      2: { apply existsb_same. intros td' Hin. unfold some_left.
           destruct (Hrest td' Hin) as (_ & -> & ->). done. }
      apply HQ.
      * eapply ghost_stacks_ext; [| exact B1]. intros td'. unfold all_taken. destruct (decide (td' ∈ td :: tds)) as [Hin | Hn].
        -- apply elem_of_cons in Hin as [-> | Hin].
           ++ rewrite decide_False by done. now rewrite decide_True by left.
           ++ rewrite (decide_True _ _ Hin). destruct (Hrest td' Hin) as (_ & -> & _). rewrite decide_False; [done |].
              intros E. apply list_elem_of_singleton in E as ->. done.
        -- apply not_elem_of_cons in Hn as [Hn1 Hn2]. rewrite !decide_False; try done. now rewrite list_elem_of_singleton.
      * exact B2.
      * eapply looped_trans; [exact A3 | exact B3 |]. intros td' [E | E]; [apply list_elem_of_singleton in E as ->; left | now right].
      * intros td' Hin. apply elem_of_cons in Hin as [-> | Hin].
        -- now rewrite (lo_idx _ _ _ B3).
        -- destruct (Hrest td' Hin) as (_ & E & _). rewrite B4, E, (lo_idx _ _ _ A3); [done | | done].
           intros E'. apply list_elem_of_singleton in E' as ->. done.
  - unfold stack_room, frames_room in *. lia.
Qed.

Definition thread_ids (w : W) : list nat := seq 0 (length (threads w)).

(** C31: when frames have arrived, going through the samples that wait for them ends.
    Every thread takes the leading samples whose frames are known by now: its open
    ghost zones are the call stack of the last of them, the next sample to take is the
    one after it, and another round is asked for exactly when some thread has a sample
    left.  Samples are never dropped or taken twice. *)
Theorem HandlePostponedGhostZones_ends (cur : nat -> Z * list Z) (w : W) :
  newFramesWereReceived (smp w) = true -> ghostZonesPostponed (smp w) = true ->
  ghost_stacks w cur -> frame_map_ok w -> 0 < m_samplingPeriod (smp w) ->
  (forall td, td ∈ thread_ids w -> samples_ok w td (fst (cur td))) -> stack_room w (all_zones w (thread_ids w)) ->
  wp HandlePostponedGhostZones (fun _ w' =>
    ghost_stacks w' (all_taken (thread_ids w) w cur) /\ frame_map_ok w' /\
    (forall td, td ∈ thread_ids w ->
       ghostIdx (samples_of w' td) = ghostIdx (samples_of w td) + Z.of_nat (length (taken w td))) /\
    (forall td, samples (samples_of w' td) = samples (samples_of w td)) /\
    ghostZonesPostponed (smp w') = existsb (some_left w) (thread_ids w)) w.
Proof.
  intros Hnew Hpost Hs Hm Hp Hok Hroom. unfold HandlePostponedGhostZones. apply wp_bind, wp_gets, wp_bind, wp_assert; [exact Hnew |].
  rewrite Hpost. cbn [negb]. apply wp_bind, wp_gets, wp_bind. eapply (postponed_threads_wp (thread_ids w) cur); try done; [apply NoDup_seq |].
  intros w1 A1 A2 A3 A4. unfold UpdSmp. wp_steps. set (w2 := over smp _ w1).
  assert (Hsg : same_ghosts w1 w2) by (split; done). split_and!.
  - exact (same_ghosts_stacks _ _ _ Hsg A1).
  - exact (same_ghosts_map _ _ Hsg A2).
  - exact A4.
  - exact (lo_samples _ _ _ A3).
  - done.
Qed.

(** Two samples wait; the frames of the second one have not arrived. *)
Definition demo_waiting : W :=
  (demo_sampler <| threads := [mkThreadData 7 0 [] [] 0 [] [] false None ∅ 0 []] |>)
    <| smp ::= (fun m => m <| newFramesWereReceived := true |> <| ghostZonesPostponed := true |>
         <| td_samples := {[ 0%nat := new_ThreadSamples <| samples := [mkSample (Int48.make 500) (Int24.make 1); mkSample (Int48.make 900) (Int24.make 2)] |> ]} |>) |>.
Lemma demo_frames cs : Forall (fun id => 0x400100 <= id <= 0x400300) cs ->
  Forall (fun id => CallstackFrameId.custom id = 0 /\ forall d, frame_at demo_waiting id = Some d -> group_frames d <> []) cs.
Proof.
  intros H. eapply Forall_impl; [exact H |]. cbv beta. intros id Hid. split.
  - unfold CallstackFrameId.custom, bits. rewrite Z.div_small by lia. done.
  - intros d. change (callstackFrameMap (cst demo_waiting)) with
      ({[ 0x400100 := head demo_groups; 0x400200 := last demo_groups; 0x400300 := None ]} : gmap Z (option CallstackFrameData)).
    unfold frame_at. change (callstackFrameMap (cst demo_waiting)) with
      ({[ 0x400100 := head demo_groups; 0x400200 := last demo_groups; 0x400300 := None ]} : gmap Z (option CallstackFrameData)).
    destruct (_ !! id) as [o |] eqn:E; [| done]. repeat (apply lookup_insert_some in E as [[_ <-] | [_ E]]; [intros [= <-]; discriminate || done |]).
    now rewrite lookup_empty in E.
Qed.
Lemma demo_waiting_ok td : td ∈ thread_ids demo_waiting -> samples_ok demo_waiting td 0.
Proof.
  intros Hin. apply list_elem_of_singleton in Hin as ->. split.
  - split; vm_compute; discriminate.
  - reflexivity.
  - assert (H : forall i, i = 1 \/ i = 2 -> stack_ok demo_waiting (mkSample (Int48.make 900) (Int24.make i)) /\
      stack_ok demo_waiting (mkSample (Int48.make 500) (Int24.make i))).
    { intros i Hi. split; destruct Hi as [-> | ->]; (eexists; split_and!; [reflexivity | discriminate | apply demo_frames; repeat constructor; lia]). }
    apply Forall_cons. split; [apply H; now left |]. apply Forall_cons. split; [apply H; now right | constructor].
  - vm_compute. repeat split; discriminate.
Qed.
Lemma demo_waiting_same : same_ghosts demo_sampler demo_waiting.
Proof.
  split; try reflexivity. intros [td | i]; [| done]. destruct td as [| td]; [reflexivity |].
  unfold vec_at, samples_of. change (td_samples (smp demo_waiting)) with
    ({[ 0%nat := new_ThreadSamples <| samples := [mkSample (Int48.make 500) (Int24.make 1); mkSample (Int48.make 900) (Int24.make 2)] |> ]} : gmap nat ThreadSamples).
  change (td_samples (smp demo_sampler)) with (∅ : gmap nat ThreadSamples). now rewrite lookup_singleton_ne, lookup_empty.
Qed.

Lemma HandlePostponedGhostZones_ends_witness :
  wp HandlePostponedGhostZones (fun _ w' =>
    ghost_stacks w' (all_taken (thread_ids demo_waiting) demo_waiting (fun _ => (0, []))) /\ frame_map_ok w' /\
    (forall td, td ∈ thread_ids demo_waiting ->
       ghostIdx (samples_of w' td) = ghostIdx (samples_of demo_waiting td) + Z.of_nat (length (taken demo_waiting td))) /\
    (forall td, samples (samples_of w' td) = samples (samples_of demo_waiting td)) /\
    ghostZonesPostponed (smp w') = existsb (some_left demo_waiting) (thread_ids demo_waiting)) demo_waiting.
Proof.
  apply (HandlePostponedGhostZones_ends (fun _ => (0, [])) demo_waiting).
  - reflexivity.
  - reflexivity.
  - exact (same_ghosts_stacks _ _ _ demo_waiting_same (no_ghosts _ demo_no_ghosts)).
  - exact (same_ghosts_map _ _ demo_waiting_same demo_map_ok).
  - reflexivity.
  - exact demo_waiting_ok.
  - split; vm_compute; discriminate.
Defined.
Example demo_taken : taken demo_waiting 0 = [(500, [0x30; 0x20; 0x10])] /\ some_left demo_waiting 0 = true.
Proof. split; reflexivity. Qed.
