(* ===== verification/ServerImage.v ===== *)
(** * Frame images

    The client sends the image of a frame as DXT1 blocks of eight bytes: two colours of
    sixteen bits and sixteen indices of two bits.  The server changes the numbering of
    the indices, makes the blocks easier to compress where that is hardly seen, and
    compresses them.  The compressor is zstd. *)
From S2P Require Import Prelude Double Queue Event Containers Discovery Wire Trace Server ServerFrame.

(** [ZSTD_compressCCtx] at level 3. *)
Class TextureZstd := zstd_pack : list Z -> list Z.

(* TracyTextureCompression.cpp:83-100 *)
Definition Dxtc4To3Table : list Z :=
  [85; 84; 86; 86; 81; 80; 82; 82; 89; 88; 90; 90; 89; 88; 90; 90;
   69; 68; 70; 70; 65; 64; 66; 66; 73; 72; 74; 74; 73; 72; 74; 74;
   101; 100; 102; 102; 97; 96; 98; 98; 105; 104; 106; 106; 105; 104; 106; 106;
   101; 100; 102; 102; 97; 96; 98; 98; 105; 104; 106; 106; 105; 104; 106; 106;
   21; 20; 22; 22; 17; 16; 18; 18; 25; 24; 26; 26; 25; 24; 26; 26;
   5; 4; 6; 6; 1; 0; 2; 2; 9; 8; 10; 10; 9; 8; 10; 10;
   37; 36; 38; 38; 33; 32; 34; 34; 41; 40; 42; 42; 41; 40; 42; 42;
   37; 36; 38; 38; 33; 32; 34; 34; 41; 40; 42; 42; 41; 40; 42; 42;
   149; 148; 150; 150; 145; 144; 146; 146; 153; 152; 154; 154; 153; 152; 154; 154;
   133; 132; 134; 134; 129; 128; 130; 130; 137; 136; 138; 138; 137; 136; 138; 138;
   165; 164; 166; 166; 161; 160; 162; 162; 169; 168; 170; 170; 169; 168; 170; 170;
   165; 164; 166; 166; 161; 160; 162; 162; 169; 168; 170; 170; 169; 168; 170; 170;
   149; 148; 150; 150; 145; 144; 146; 146; 153; 152; 154; 154; 153; 152; 154; 154;
   133; 132; 134; 134; 129; 128; 130; 130; 137; 136; 138; 138; 137; 136; 138; 138;
   165; 164; 166; 166; 161; 160; 162; 162; 169; 168; 170; 170; 169; 168; 170; 170;
   165; 164; 166; 166; 161; 160; 162; 162; 169; 168; 170; 170; 169; 168; 170; 170].
(* TracyTextureCompression.cpp:102-112 *)
Definition max3 (a b c : Z) : Z := if b <? a then (if c <? a then a else c) else (if c <? b then b else c).
(* TracyTextureCompression.cpp:114-114 *)
Definition TrTbl1 : list Z :=
  [12; 12; 12; 12; 6; 6; 6; 6; 6; 6; 6; 3; 3; 3; 3; 3; 3; 3; 3; 3; 3; 3; 3; 3; 3; 3; 3; 3; 3; 3; 3; 3;
   3; 3; 3; 3; 3; 3; 3; 3; 3; 3; 3; 3; 3; 3; 3; 3; 3; 3; 3; 3; 3; 3; 3; 3; 3; 3; 3; 3; 3; 3; 3; 3].
(* TracyTextureCompression.cpp:115-115 *)
Definition TrTbl2 : list Z := [12; 12; 6; 3; 3; 3; 3; 3; 3; 3; 3; 3; 3; 3; 3; 3].
(* TracyTextureCompression.cpp:116-116 *)
Definition TrTbl3 : list Z := [48; 48; 48; 32; 24; 24; 24; 24; 24; 24; 24; 24; 24; 24; 24; 24].

(** A loop over blocks of eight bytes, [do ... while( --blocks )]. *)
Fixpoint on_blocks (f : Z -> option Z) (blocks : nat) (data : list Z) : option (list Z) :=
  match blocks with
  | O => Some data
  | S blocks => b ← f (le_val (take 8 data)); r ← on_blocks f blocks (drop 8 data); Some (le_bytes 8 b ++ r)
  end.

(** The parts of a colour, and the same with eight bits. *)
Definition red (c : Z) : Z := Z.land c 0xF800.
Definition green (c : Z) : Z := Z.land c 0x07E0.
Definition blue (c : Z) : Z := Z.land c 0x001F.
(* TracyTextureCompression.cpp:144-146 Rdo *)
Definition red8 (c : Z) : Z := Z.lor (Z.shiftr (red c) 8) (Z.shiftr (red c) 13).
Definition green8 (c : Z) : Z := Z.lor (Z.shiftr (green c) 3) (Z.shiftr (green c) 9).
Definition blue8 (c : Z) : Z := Z.lor (Z.shiftl (blue c) 3) (Z.shiftr (blue c) 2).

(** Both colours averaged; all indices become zero. *)
(* TracyTextureCompression.cpp:161-164 Rdo *)
Definition average (c0 c1 : Z) : Z :=
  Z.lor (Z.lor (Z.land (Z.shiftr (red c0 + red c1) 1) 0xF800) (Z.land (Z.shiftr (green c0 + green c1) 1) 0x07E0))
    (Z.shiftr (blue c0 + blue c1) 1).
(** The two colours the other way round, and indices for the mode in which the third
    colour is the average. *)
(* TracyTextureCompression.cpp:182-183 Rdo *)
Fixpoint table_indices (idx : Z) (ks : list Z) (c : Z) : option Z :=
  match ks with
  | [] => Some c
  | k :: ks =>
      v ← Dxtc4To3Table !! Z.to_nat (Z.land (Z.shiftr idx (k * 8)) 0xFF);
      table_indices idx ks (Z.lor c (Z.shiftl v (32 + k * 8)))
  end.
Definition to_3_colours (c0 c1 idx : Z) : option Z := table_indices idx [0; 1; 2; 3] (Z.lor c1 (Z.shiftl c0 16)).

(** One block. *)
(* TracyTextureCompression.cpp:123-188 Rdo *)
Definition rdo_block (blk : Z) : option Z :=
  let idx := Z.shiftr blk 32 in
  if idx =? 0x55555555 then Some blk else
  let c0 := Z.land blk 0xFFFF in
  let c1 := Z.land (Z.shiftr blk 16) 0xFFFF in
  let dr := Z.abs (red8 c0 - red8 c1) in
  let dg := Z.abs (green8 c0 - green8 c1) in
  let db := Z.abs (blue8 c0 - blue8 c1) in
  let maxChan1 := max3 (red8 c0 - 1) (green8 c0) (blue8 c0 - 2) in
  let maxDelta1 := max3 (dr - 1) dg (db - 2) in
  tr1 ← TrTbl1 !! Z.to_nat (Z.quot maxChan1 4);
  if maxDelta1 <=? tr1 then Some (average c0 c1) else
  let maxChan23 := max3 (red8 c0 - 2) (green8 c0) (blue8 c0 - 5) in
  let maxDelta23 := max3 (dr - 2) dg (db - 5) in
  tr2 ← TrTbl2 !! Z.to_nat (Z.quot maxChan23 16);
  if maxDelta23 <=? tr2 then
    Some (Z.lor (Z.land blk 0xFFFFFFFF) (Z.shiftl (Z.land idx 0x55555555) 32))
  else
    tr3 ← TrTbl3 !! Z.to_nat (Z.quot maxChan23 16);
    if maxDelta23 <=? tr3 then to_3_colours c0 c1 idx else Some blk.
(* TracyTextureCompression.cpp:118-192 *)
Definition Rdo (data : list Z) (blocks : nat) : option (list Z) :=
  if Nat.eqb blocks 0 then None else on_blocks rdo_block blocks data.

(* TracyTextureCompression.cpp:199-205 FixOrder *)
Definition fix_block (blk : Z) : Z :=
  let tmp := Z.lxor (Z.shiftr blk 32) 0xFFFFFFFF in
  let t0 := Z.land tmp 0x55555555 in
  let t1 := Z.land tmp 0xAAAAAAAA in
  let tmp := Z.lxor (Z.lor (uint 32 (Z.shiftl t0 1)) (Z.shiftr t1 1)) t1 in
  Z.lor (Z.land blk 0xFFFFFFFF) (Z.shiftl tmp 32).
(* TracyTextureCompression.cpp:194-209 *)
Definition FixOrder (data : list Z) (blocks : nat) : option (list Z) :=
  if Nat.eqb blocks 0 then None else on_blocks (fun b => Some (fix_block b)) blocks data.

(** The buffer that the blocks are changed in is not kept. *)
(* TracyWorker.cpp:3969-3986 *)
Definition AddFrameImageData `{TextureZstd} (data : list Z) : M W unit :=
  s ← gets fr;
  assert_ (match m_pendingFrameImageData s with None => true | Some _ => false end);;
  assert_ (Nat.eqb (length data mod 8) 0);;
  dst ← expect (FixOrder data (length data / 8));
  dst ← expect (Rdo dst (length data / 8));
  UpdFr (fun s => s <| m_pendingFrameImageData := Some (zstd_pack dst) |>).
