(* ===== verification/Dispatch.v ===== *)
(** * The dispatch of events and the main loop of the server

    [Worker::Exec] takes the frames that the network thread has received, hands every
    event of a frame to its handler, and sends the queries that the handlers asked for,
    as many as the client has room for.  After a protocol error it goes on for as long
    as it takes to name what failed.  Sockets, threads and their queues are not
    modelled: a frame is the bytes of one [NetBuffer], and what is sent is returned. *)
From S2P Require Import Prelude Double Queue Wire Event Containers Discovery Trace Server ServerZone ServerLock ServerMem ServerFrame ServerSection ServerPlot ServerMessage ServerGpu ServerCtx ServerCallstack ServerSymbol ServerSample ServerImage.
Import QueueType(t(..)).

(** The bytes of a member that is an array. *)
Definition MemChars (l : layout) (f : string) (m : list Z) : list Z :=
  match offset_of f l with
  | Some (o, t) => take (sizeof_type t) (drop (sizeof_hdr + o) m)
  | None => []
  end.
(** A value that is none of an enumeration is no behaviour. *)
Definition lock_type (v : Z) : option LockType :=
  match v with 0 => Some Lockable | 1 => Some SharedLockable | _ => None end.

(** The client has answered a query. *)
(* TracyWorker.cpp:3346-3346 DispatchProcess *)
Definition answered : M W unit := modify (fun w => w <| m_serverQuerySpaceLeft ::= (fun n => uint 64 (n + 1)) |>).

Section Dispatch.
Context `{Slab} `{LockSlab} `{ServerMem.MapOrder} `{GpuSlab} `{FileSystem} `{SampleSort} `{Disassembler} `{TextureZstd}.

(** ** Items *)
(* TracyWorker.cpp:4585-4726 Process *)
Definition Process_switch_1 (type : QueueType.t) (item : list Z) : option (M W unit) :=
  match type with
  | ThreadContext => let ev f := MemRead QueueThreadContext f item in Some (ProcessThreadContext (ev "thread"))
  | ZoneBegin => let ev f := MemRead QueueZoneBegin f item in Some (ProcessZoneBegin64 (ev "time") (ev "srcloc"))
  | ZoneBegin32 =>
      let ev f := MemRead QueueZoneBegin32 f item in Some (ProcessZoneBegin32 (ev "time") (ev "srcloc"))
  | ZoneBegin16 =>
      let ev f := MemRead QueueZoneBegin16 f item in Some (ProcessZoneBegin16 (ev "time") (ev "srcloc"))
  | ZoneBeginCallstack =>
      let ev f := MemRead QueueZoneBegin f item in Some (ProcessZoneBeginCallstack64 (ev "time") (ev "srcloc"))
  | ZoneBeginCallstack32 =>
      let ev f := MemRead QueueZoneBegin32 f item in Some (ProcessZoneBeginCallstack32 (ev "time") (ev "srcloc"))
  | ZoneBeginCallstack16 =>
      let ev f := MemRead QueueZoneBegin16 f item in Some (ProcessZoneBeginCallstack16 (ev "time") (ev "srcloc"))
  | ZoneBeginAllocSrcLoc =>
      let ev f := MemRead QueueZoneBeginLean f item in Some (ProcessZoneBeginAllocSrcLoc (ev "time"))
  | ZoneBeginAllocSrcLocCallstack =>
      let ev f := MemRead QueueZoneBeginLean f item in Some (ProcessZoneBeginAllocSrcLocCallstack (ev "time"))
  | ZoneEnd => let ev f := MemRead QueueZoneEnd f item in Some (ProcessZoneEnd64 (ev "time"))
  | ZoneEnd32 => let ev f := MemRead QueueZoneEnd32 f item in Some (ProcessZoneEnd32 (ev "time"))
  | ZoneEnd16 => let ev f := MemRead QueueZoneEnd16 f item in Some (ProcessZoneEnd16 (ev "time"))
  | ZoneValidation => let ev f := MemRead QueueZoneValidation f item in Some (ProcessZoneValidation (ev "id"))
  | FrameMarkMsg => let ev f := MemRead QueueFrameMark f item in Some (ProcessFrameMark (ev "time") (ev "name"))
  | FrameMarkMsgStart =>
      let ev f := MemRead QueueFrameMark f item in Some (ProcessFrameMarkStart (ev "time") (ev "name"))
  | FrameMarkMsgEnd =>
      let ev f := MemRead QueueFrameMark f item in Some (ProcessFrameMarkEnd (ev "time") (ev "name"))
  | FrameVsync => let ev f := MemRead QueueFrameVsync f item in Some (ProcessFrameVsync (ev "time") (ev "id"))
  | FrameImage =>
      let ev f := MemRead QueueFrameImage f item in
      Some (ProcessFrameImage (ev "frame") (ev "w") (ev "h") (ev "flip"))
  | SourceLocation =>
      let ev f := MemRead QueueSourceLocation f item in
      Some (AddSourceLocation (ev "name") (ev "function") (ev "file") (ev "line") (ev "b") (ev "g") (ev "r");;
            answered)
  | ZoneText => Some ProcessZoneText
  | ZoneName => Some ProcessZoneName
  | ZoneColor => let ev f := MemRead QueueZoneColor f item in Some (ProcessZoneColor (ev "b") (ev "g") (ev "r"))
  | ZoneValue => let ev f := MemRead QueueZoneValue f item in Some (ProcessZoneValue (ev "value"))
  | LockAnnounce =>
      let ev f := MemRead QueueLockAnnounce f item in
      Some (ty ← expect (lock_type (ev "type")); ProcessLockAnnounce (ev "id") (ev "time") (ev "lckloc") ty)
  | LockTerminate =>
      let ev f := MemRead QueueLockTerminate f item in Some (ProcessLockTerminate (ev "id") (ev "time"))
  | LockWait =>
      let ev f := MemRead QueueLockWait f item in Some (ProcessLockWait (ev "thread") (ev "id") (ev "time"))
  | LockObtain =>
      let ev f := MemRead QueueLockObtain f item in Some (ProcessLockObtain (ev "thread") (ev "id") (ev "time"))
  | LockRelease => let ev f := MemRead QueueLockRelease f item in Some (ProcessLockRelease (ev "id") (ev "time"))
  | LockSharedWait =>
      let ev f := MemRead QueueLockWait f item in Some (ProcessLockSharedWait (ev "thread") (ev "id") (ev "time"))
  | LockSharedObtain =>
      let ev f := MemRead QueueLockObtain f item in
      Some (ProcessLockSharedObtain (ev "thread") (ev "id") (ev "time"))
  | LockSharedRelease =>
      let ev f := MemRead QueueLockReleaseShared f item in
      Some (ProcessLockSharedRelease (ev "thread") (ev "id") (ev "time"))
  | LockMark =>
      let ev f := MemRead QueueLockMark f item in Some (ProcessLockMark (ev "thread") (ev "id") (ev "srcloc"))
  | LockName => let ev f := MemRead QueueLockName f item in Some (ProcessLockName (ev "id"))
  | PlotDataInt =>
      let ev f := MemRead QueuePlotDataInt f item in Some (ProcessPlotDataInt (ev "name") (ev "time") (ev "val"))
  | PlotDataFloat =>
      let ev f := MemRead QueuePlotDataFloat f item in
      Some (ProcessPlotDataFloat (ev "name") (ev "time") (ev "val"))
  | PlotDataDouble =>
      let ev f := MemRead QueuePlotDataDouble f item in
      Some (ProcessPlotDataDouble (ev "name") (ev "time") (ev "val"))
  | PlotConfig =>
      let ev f := MemRead QueuePlotConfig f item in
      Some (ProcessPlotConfig (ev "name") (ev "type") (ev "step") (ev "fill") (ev "color"))
  | Message => let ev f := MemRead QueueMessageMetadata f item in Some (ProcessMessage (ev "time") (ev "metadata"))
  | MessageLiteral =>
      let ev f := MemRead QueueMessageLiteral f item in
      Some (ProcessMessageLiteral (ev "time") (ev "textAndMetadata"))
  | MessageColor =>
      let ev f := MemRead QueueMessageColorMetadata f item in
      Some (ProcessMessageColor (ev "time") (ev "r") (ev "g") (ev "b") (ev "metadata"))
  | MessageLiteralColor =>
      let ev f := MemRead QueueMessageColorLiteral f item in
      Some (ProcessMessageLiteralColor (ev "time") (ev "r") (ev "g") (ev "b") (ev "textAndMetadata"))
  | MessageCallstack =>
      let ev f := MemRead QueueMessageMetadata f item in Some (ProcessMessageCallstack (ev "time") (ev "metadata"))
  | MessageLiteralCallstack =>
      let ev f := MemRead QueueMessageLiteral f item in
      Some (ProcessMessageLiteralCallstack (ev "time") (ev "textAndMetadata"))
  | MessageColorCallstack =>
      let ev f := MemRead QueueMessageColorMetadata f item in
      Some (ProcessMessageColorCallstack (ev "time") (ev "r") (ev "g") (ev "b") (ev "metadata"))
  | MessageLiteralColorCallstack =>
      let ev f := MemRead QueueMessageColorLiteral f item in
      Some (ProcessMessageLiteralColorCallstack (ev "time") (ev "r") (ev "g") (ev "b") (ev "textAndMetadata"))
  | MessageAppInfo => let ev f := MemRead QueueMessage f item in Some (ProcessMessageAppInfo (ev "time"))
  | GpuNewContext =>
      let ev f := MemRead QueueGpuNewContext f item in
      Some (ProcessGpuNewContext (ev "cpuTime") (ev "gpuTime") (ev "thread") (float_of_bits (ev "period")) (ev "context") (ev "flags") (ev "type"))
  | _ => None
  end.
(* TracyWorker.cpp:4727-4875 Process *)
Definition Process_switch_2 (type : QueueType.t) (item : list Z) : option (M W unit) :=
  match type with
  | GpuZoneBegin =>
      let ev f := MemRead QueueGpuZoneBegin f item in
      Some (ProcessGpuZoneBegin (ev "cpuTime") (ev "thread") (ev "queryId") (ev "context") (ev "srcloc") false)
  | GpuZoneBeginCallstack =>
      let ev f := MemRead QueueGpuZoneBegin f item in
      Some (ProcessGpuZoneBeginCallstack (ev "cpuTime") (ev "thread") (ev "queryId") (ev "context") (ev "srcloc") false)
  | GpuZoneBeginAllocSrcLoc =>
      let ev f := MemRead QueueGpuZoneBeginLean f item in
      Some (ProcessGpuZoneBeginAllocSrcLoc (ev "cpuTime") (ev "thread") (ev "queryId") (ev "context") false)
  | GpuZoneBeginAllocSrcLocCallstack =>
      let ev f := MemRead QueueGpuZoneBeginLean f item in
      Some (ProcessGpuZoneBeginAllocSrcLocCallstack (ev "cpuTime") (ev "thread") (ev "queryId") (ev "context") false)
  | GpuZoneEnd =>
      let ev f := MemRead QueueGpuZoneEnd f item in
      Some (ProcessGpuZoneEnd (ev "cpuTime") (ev "thread") (ev "queryId") (ev "context") false)
  | GpuZoneBeginSerial =>
      let ev f := MemRead QueueGpuZoneBegin f item in
      Some (ProcessGpuZoneBegin (ev "cpuTime") (ev "thread") (ev "queryId") (ev "context") (ev "srcloc") true)
  | GpuZoneBeginCallstackSerial =>
      let ev f := MemRead QueueGpuZoneBegin f item in
      Some (ProcessGpuZoneBeginCallstack (ev "cpuTime") (ev "thread") (ev "queryId") (ev "context") (ev "srcloc") true)
  | GpuZoneBeginAllocSrcLocSerial =>
      let ev f := MemRead QueueGpuZoneBeginLean f item in
      Some (ProcessGpuZoneBeginAllocSrcLoc (ev "cpuTime") (ev "thread") (ev "queryId") (ev "context") true)
  | GpuZoneBeginAllocSrcLocCallstackSerial =>
      let ev f := MemRead QueueGpuZoneBeginLean f item in
      Some (ProcessGpuZoneBeginAllocSrcLocCallstack (ev "cpuTime") (ev "thread") (ev "queryId") (ev "context") true)
  | GpuZoneEndSerial =>
      let ev f := MemRead QueueGpuZoneEnd f item in
      Some (ProcessGpuZoneEnd (ev "cpuTime") (ev "thread") (ev "queryId") (ev "context") true)
  | GpuTime =>
      let ev f := MemRead QueueGpuTime f item in Some (ProcessGpuTime (ev "gpuTime") (ev "queryId") (ev "context"))
  | GpuCalibration =>
      let ev f := MemRead QueueGpuCalibration f item in
      Some (ProcessGpuCalibration (ev "gpuTime") (ev "cpuTime") (ev "cpuDelta") (ev "context"))
  | GpuTimeSync =>
      let ev f := MemRead QueueGpuTimeSync f item in
      Some (ProcessGpuTimeSync (ev "gpuTime") (ev "cpuTime") (ev "context"))
  | GpuContextName => let ev f := MemRead QueueGpuContextName f item in Some (ProcessGpuContextName (ev "context"))
  | GpuAnnotationName =>
      let ev f := MemRead QueueGpuAnnotationName f item in
      Some (ProcessGpuAnnotationName (ev "noteId") (ev "context"))
  | GpuZoneAnnotation =>
      let ev f := MemRead QueueGpuZoneAnnotation f item in
      Some (ProcessGpuZoneAnnotation (ev "noteId") (double_of_bits (ev "value")) (ev "queryId") (ev "context"))
  | MemAlloc =>
      let ev f := MemRead QueueMemAlloc f item in
      Some (_ ← ProcessMemAlloc (ev "time") (ev "thread") (ev "ptr") (MemChars QueueMemAlloc "size" item); mret tt)
  | MemAllocNamed =>
      let ev f := MemRead QueueMemAlloc f item in
      Some (_ ← ProcessMemAllocNamed (ev "time") (ev "thread") (ev "ptr") (MemChars QueueMemAlloc "size" item); mret tt)
  | MemFree =>
      let ev f := MemRead QueueMemFree f item in
      Some (_ ← ProcessMemFree (ev "time") (ev "thread") (ev "ptr"); mret tt)
  | MemFreeNamed =>
      let ev f := MemRead QueueMemFree f item in
      Some (_ ← ProcessMemFreeNamed (ev "time") (ev "thread") (ev "ptr"); mret tt)
  | MemAllocCallstack =>
      let ev f := MemRead QueueMemAlloc f item in
      Some (ProcessMemAllocCallstack (ev "time") (ev "thread") (ev "ptr") (MemChars QueueMemAlloc "size" item))
  | MemAllocCallstackNamed =>
      let ev f := MemRead QueueMemAlloc f item in
      Some (ProcessMemAllocCallstackNamed (ev "time") (ev "thread") (ev "ptr") (MemChars QueueMemAlloc "size" item))
  | MemFreeCallstack =>
      let ev f := MemRead QueueMemFree f item in Some (ProcessMemFreeCallstack (ev "time") (ev "thread") (ev "ptr"))
  | MemFreeCallstackNamed =>
      let ev f := MemRead QueueMemFree f item in
      Some (ProcessMemFreeCallstackNamed (ev "time") (ev "thread") (ev "ptr"))
  | MemDiscard =>
      let ev f := MemRead QueueMemDiscard f item in Some (ProcessMemDiscard (ev "time") (ev "thread") (ev "name"))
  | MemDiscardCallstack =>
      let ev f := MemRead QueueMemDiscard f item in
      Some (ProcessMemDiscardCallstack (ev "time") (ev "thread") (ev "name"))
  | CallstackSerial => Some ProcessCallstackSerial
  | Callstack | CallstackAlloc => Some ProcessCallstack
  | CallstackSample =>
      let ev f := MemRead QueueCallstackSample f item in Some (ProcessCallstackSample64 (ev "thread") (ev "time"))
  | CallstackSample32 =>
      let ev f := MemRead QueueCallstackSample32 f item in Some (ProcessCallstackSample32 (ev "thread") (ev "time"))
  | CallstackSample16 =>
      let ev f := MemRead QueueCallstackSample16 f item in Some (ProcessCallstackSample16 (ev "thread") (ev "time"))
  | CallstackSampleContextSwitch =>
      let ev f := MemRead QueueCallstackSample f item in
      Some (ProcessCallstackSampleContextSwitch64 (ev "thread") (ev "time"))
  | CallstackSampleContextSwitch32 =>
      let ev f := MemRead QueueCallstackSample32 f item in
      Some (ProcessCallstackSampleContextSwitch32 (ev "thread") (ev "time"))
  | CallstackSampleContextSwitch16 =>
      let ev f := MemRead QueueCallstackSample16 f item in
      Some (ProcessCallstackSampleContextSwitch16 (ev "thread") (ev "time"))
  | CallstackFrameSize =>
      let ev f := MemRead QueueCallstackFrameSize f item in
      Some (ProcessCallstackFrameSize (ev "ptr") (ev "size");; answered)
  | CallstackFrame =>
      let ev f := MemRead QueueCallstackFrame f item in
      Some (ProcessCallstackFrame (ev "line") (ev "symAddr") (ev "symLen") true)
  | SymbolInformation =>
      let ev f := MemRead QueueSymbolInformation f item in
      Some (ProcessSymbolInformation (ev "line") (ev "symAddr");; answered)
  | Terminate => Some (UpdSys (fun s => s <| m_terminate := true |>))
  | KeepAlive => Some (mret tt)
  | Crash => Some (UpdSys (fun s => s <| m_crashed := true |>))
  | CrashReport => let ev f := MemRead QueueCrashReport f item in Some (ProcessCrashReport (ev "time") (ev "text"))
  | SysTimeReport => let ev f := MemRead QueueSysTime f item in Some (ProcessSysTime (ev "time") (ev "sysTime"))
  | SysPowerReport =>
      let ev f := MemRead QueueSysPower f item in Some (ProcessSysPower (ev "time") (ev "delta") (ev "name"))
  | ContextSwitch =>
      let ev f := MemRead QueueContextSwitch f item in
      Some (ProcessContextSwitch (ev "time") (ev "oldThread") (ev "newThread") (ev "cpu") (ev "oldThreadWaitReason") (ev "oldThreadState"))
  | ThreadWakeup =>
      let ev f := MemRead QueueThreadWakeup f item in
      Some (ProcessThreadWakeup (ev "time") (ev "thread") (ev "cpu"))
  | TidToPid => let ev f := MemRead QueueTidToPid f item in Some (ProcessTidToPid (ev "tid") (ev "pid"))
  | HwSampleCpuCycle =>
      let ev f := MemRead QueueHwSample f item in Some (ProcessHwSampleCpuCycle (ev "ip") (ev "time"))
  | HwSampleInstructionRetired =>
      let ev f := MemRead QueueHwSample f item in Some (ProcessHwSampleInstructionRetired (ev "ip") (ev "time"))
  | HwSampleCacheReference =>
      let ev f := MemRead QueueHwSample f item in Some (ProcessHwSampleCacheReference (ev "ip") (ev "time"))
  | _ => None
  end.
(* TracyWorker.cpp:4876-4922 Process *)
Definition Process_switch_3 (type : QueueType.t) (item : list Z) : option (M W unit) :=
  match type with
  | HwSampleCacheMiss =>
      let ev f := MemRead QueueHwSample f item in Some (ProcessHwSampleCacheMiss (ev "ip") (ev "time"))
  | HwSampleBranchRetired =>
      let ev f := MemRead QueueHwSample f item in Some (ProcessHwSampleBranchRetired (ev "ip") (ev "time"))
  | HwSampleBranchMiss =>
      let ev f := MemRead QueueHwSample f item in Some (ProcessHwSampleBranchMiss (ev "ip") (ev "time"))
  | ParamSetup =>
      let ev f := MemRead QueueParamSetup f item in
      Some (ProcessParamSetup (ev "idx") (ev "name") (ev "type") (ev "val"))
  | AckServerQueryNoop => Some answered
  | AckSourceCodeNotAvailable =>
      let ev f := MemRead QueueSourceCodeNotAvailable f item in
      Some (ProcessSourceCodeNotAvailable (ev "id");; answered)
  | AckSymbolCodeNotAvailable =>
      Some (UpdCst (fun c => c <| m_pendingSymbolCode ::= (fun n => uint 32 (n - 1)) |>);; answered)
  | CpuTopology =>
      let ev f := MemRead QueueCpuTopology f item in
      Some (ProcessCpuTopology (ev "package") (ev "die") (ev "core") (ev "thread"))
  | MemNamePayload => let ev f := MemRead QueueMemNamePayload f item in Some (ProcessMemNamePayload (ev "name"))
  | ThreadGroupHint =>
      let ev f := MemRead QueueThreadGroupHint f item in
      Some (ProcessThreadGroupHint (ev "thread") (ev "groupHint"))
  | FiberEnter =>
      let ev f := MemRead QueueFiberEnter f item in
      Some (ProcessFiberEnter (ev "time") (ev "fiber") (ev "thread") (ev "groupHint"))
  | FiberLeave => let ev f := MemRead QueueFiberLeave f item in Some (ProcessFiberLeave (ev "time") (ev "thread"))
  | SectionEnter =>
      let ev f := MemRead QueueSectionEnter f item in
      Some (ProcessSectionEnter (ev "id") (ev "time") (ev "category"))
  | SectionLeave => let ev f := MemRead QueueSectionLeave f item in Some (ProcessSectionLeave (ev "id") (ev "time"))
  | SectionSetup => let ev f := MemRead QueueSectionSetup f item in Some (ProcessSectionSetup (ev "category"))
  | _ => None
  end.
(* TracyWorker.cpp:4922-4929 Process *)
Definition Process (ev : list Z) : M W bool :=
  type ← expect (QueueType.of_idx (MemReadHdr ev));
  match Process_switch_1 type ev with
  | Some m => m
  | None =>
      match Process_switch_2 type ev with
      | Some m => m
      | None => match Process_switch_3 type ev with Some m => m | None => stop end
      end
  end;;
  failure ← gets m_failure;
  mret (bool_decide (failure = NoFailure)).

(** ** Events *)
(* TracyWorker.cpp:3340-3354 DispatchProcess *)
Definition long_transfer (type : QueueType.t) (ptr : Z) (data : list Z) : M W unit :=
  match type with
  | FrameImageData => AddFrameImageData data
  | SymbolCode => AddSymbolCode ptr data;; answered
  | SourceCode => AddSourceCode (uint 32 ptr) data;; answered
  | _ => stop
  end.
(* TracyWorker.cpp:3359-3402 DispatchProcess *)
Definition transfer (type : QueueType.t) (ptr : Z) (data : list Z) : M W unit :=
  match type with
  | StringData => AddString ptr data;; answered
  | ThreadName => AddThreadString ptr data;; answered
  | FiberName => AddFiberName ptr data;; answered
  | PlotName => HandlePlotName ptr data;; answered
  | SourceLocationPayload => AddSourceLocationPayload data
  | CallstackPayload => AddCallstackPayload data
  | FrameName => HandleFrameName ptr data;; answered
  | CallstackAllocPayload => AddCallstackAllocPayload data
  | ExternalName => AddExternalName ptr data;; answered
  | ExternalThreadName => AddExternalThreadName ptr data
  | _ => stop
  end.
(* TracyWorker.cpp:3403-3449 DispatchProcess *)
Definition handle_event (e : event) : M W bool :=
  match e with
  | Fixed ev => Process ev
  | Transfer type ptr data =>
      (if is_long type then long_transfer type ptr data else transfer type ptr data);; mret true
  | Single str => AddSingleString str;; mret true
  | Second str => AddSecondString str;; mret true
  end.
(** The event at the read pointer; the result is whether there was no failure, and what
    is left of the frame. *)
(* TracyWorker.cpp:3326-3339 *)
Definition DispatchProcess (m : list Z) : M W (bool * list Z) :=
  p ← expect (read_event m);
  ok ← handle_event (fst p);
  mret (ok, snd p).

(** ** After a failure *)
(* TracyWorker.cpp:2515-2519 *)
Definition BadExternalThreadNames : list (list Z) := [ascii "ntdll.dll"; ascii "???"].
(** [atoi] of a string that begins with a digit; out of range is no behaviour. *)
Fixpoint atoi (acc : Z) (s : list Z) : option Z :=
  match s with
  | c :: s' => if (48 <=? c) && (c <=? 57) then atoi (acc * 10 + (c - 48)) s'
               else if acc <? 2 ^ 31 then Some acc else None
  | [] => if acc <? 2 ^ 31 then Some acc else None
  end.
Definition stored (p : option Z) : M W (list Z) :=
  match p with Some i => d ← gets stringData; s ← expect (d !! Z.to_nat i); mret (c_str s) | None => mret unknown end.
(* TracyWorker.cpp:2521-2558 *)
Definition GetThreadName (id : Z) : M W (list Z) :=
  names ← gets threadNames; c ← gets cpu;
  match names !! id, externalNames c !! id with
  | None, None => mret unknown
  | None, Some e => stored (snd e)
  | Some p, e =>
      txt ← stored p;
      match txt with
      | c0 :: _ =>
          same ← (if (48 <=? c0) && (c0 <=? 57) then n ← expect (atoi 0 txt); mret (n =? id) else mret false);
          match e with
          | Some e =>
              if same : bool then
                ext ← stored (snd e);
                mret (if bool_decide (ext ∈ BadExternalThreadNames) then txt else ext)
              else mret txt
          | None => mret txt
          end
      | [] => mret txt
      end
  end.
(* TracyWorker.cpp:2571-2588 *)
Definition GetSourceLocation (srcloc : Z) : M W Server.SourceLocation :=
  if srcloc <? 0 then s ← gets srcs; expect (sourceLocationPayload s !! Z.to_nat (- srcloc - 1))
  else if negb (srcloc =? 2 ^ 15 - 1) then
    l ← gets sourceLocationExpand; m ← gets sourceLocation;
    ptr ← expect (l !! Z.to_nat srcloc); expect (m !! ptr)
  else mret (mkSrcLoc StringRef.none StringRef.none StringRef.none 0 0).
(* TracyWorker.cpp:3048-3052 *)
Definition IsFailureThreadStringRetrieved : M W bool :=
  d ← gets m_failureData;
  name ← GetThreadName (fd_thread d);
  mret (negb (bool_decide (name = unknown))).
(* TracyWorker.cpp:3054-3063 *)
Fixpoint all_frames_known (cs : list CallstackFrameId.t) : M W bool :=
  match cs with
  | [] => mret true
  | f :: cs =>
      frameData ← GetCallstackFrame f;
      match frameData with Some _ => all_frames_known cs | None => mret false end
  end.
Definition IsCallstackRetrieved (callstack : Z) : M W bool := cs ← GetCallstack callstack; all_frames_known cs.
(* TracyWorker.cpp:3065-3071 *)
Definition IsSourceLocationRetrieved (srcloc : Z) : M W bool :=
  sl ← GetSourceLocation srcloc;
  func ← GetString_ref (sl_function sl);
  file ← GetString_ref (sl_file sl);
  mret (negb (bool_decide (func = unknown)) && negb (bool_decide (file = unknown))).
(* TracyWorker.cpp:3073-3079 *)
Definition HasAllFailureData : M W bool :=
  d ← gets m_failureData;
  a ← (if fd_thread d =? 0 then mret true else IsFailureThreadStringRetrieved);
  if negb a then mret false else
  b ← (if fd_srcloc d =? 0 then mret true else IsSourceLocationRetrieved (fd_srcloc d));
  if negb b then mret false else
  if fd_callstack d =? 0 then mret true else IsCallstackRetrieved (fd_callstack d).

(** Only names are taken from what the client still sends. *)
(* TracyWorker.cpp:3144-3253 *)
Definition failure_event (e : event) : M W unit :=
  match e with
  | Transfer type ptr data =>
      match type with
      | SymbolCode | SourceCode => answered
      | StringData => AddString ptr data;; answered
      | ThreadName => AddThreadString ptr data;; answered
      | FiberName => AddFiberName ptr data;; answered
      | PlotName | FrameName | ExternalName => answered
      | _ => mret tt
      end
  | Single str => AddSingleStringFailure str
  | Second str => AddSecondString str
  | Fixed ev =>
      type ← expect (QueueType.of_idx (MemReadHdr ev));
      match type with
      | SourceLocation =>
          AddSourceLocation (MemRead QueueSourceLocation "name" ev) (MemRead QueueSourceLocation "function" ev)
            (MemRead QueueSourceLocation "file" ev) (MemRead QueueSourceLocation "line" ev)
            (MemRead QueueSourceLocation "b" ev) (MemRead QueueSourceLocation "g" ev)
            (MemRead QueueSourceLocation "r" ev);;
          answered
      | CallstackFrameSize =>
          ProcessCallstackFrameSize (MemRead QueueCallstackFrameSize "ptr" ev) (MemRead QueueCallstackFrameSize "size" ev);;
          answered
      | CallstackFrame =>
          ProcessCallstackFrame (MemRead QueueCallstackFrame "line" ev) (MemRead QueueCallstackFrame "symAddr" ev)
            (MemRead QueueCallstackFrame "symLen" ev) false
      | SymbolInformation | AckServerQueryNoop | AckSourceCodeNotAvailable | AckSymbolCodeNotAvailable => answered
      | _ => mret tt
      end
  end.
(** [DispatchFailure] for what is left of a frame; every event has a byte. *)
(* TracyWorker.cpp:3086-3090 HandleFailure *)
Fixpoint dispatch_failures (fuel : nat) (m : list Z) : M W unit :=
  match m, fuel with
  | [], _ => mret tt
  | _, O => stop
  | _, S fuel => p ← expect (read_event m); failure_event (fst p);; dispatch_failures fuel (snd p)
  end.

(** ** The queries *)

(** The packets that are sent from the front of a queue, and those that stay. *)
(* TracyWorker.cpp:2957-2970 Exec *)
Definition send_from (space : Z) (queue : list ServerQueryPacket) : list ServerQueryPacket * list ServerQueryPacket :=
  if (0 <? space) && negb (bool_decide (queue = [])) then
    let toSend := Z.to_nat (Z.min space (Z.of_nat (length queue))) in (take toSend queue, drop toSend queue)
  else ([], queue).
(* TracyWorker.cpp:2957-2984 Exec *)
Definition send_queries : M W (list ServerQueryPacket) :=
  space ← gets m_serverQuerySpaceLeft; prio ← gets m_serverQueryQueuePrio;
  let '(sent1, rest) := send_from space prio in
  modify (fun w => w <| m_serverQueryQueuePrio := rest |>
    <| m_serverQuerySpaceLeft ::= (fun n => uint 64 (n - Z.of_nat (length sent1))) |>);;
  space ← gets m_serverQuerySpaceLeft; queue ← gets m_serverQueryQueue;
  let '(sent2, rest) := send_from space queue in
  modify (fun w => w <| m_serverQueryQueue := rest |>
    <| m_serverQuerySpaceLeft ::= (fun n => uint 64 (n - Z.of_nat (length sent2))) |>);;
  mret (sent1 ++ sent2).

(** ** Frames *)

(** The events of a frame, to its end or to a failure; the result is what is left. *)
(* TracyWorker.cpp:2940-2949 Exec *)
Fixpoint dispatch_frame (fuel : nat) (m : list Z) : M W (option (list Z)) :=
  match m, fuel with
  | [], _ => mret None
  | _, O => stop
  | _, S fuel =>
      p ← DispatchProcess m;
      if fst p : bool then dispatch_frame fuel (snd p) else mret (Some (snd p))
  end.

(** Whether nothing is on its way from the client; [m_disconnect] is set by the user
    interface. *)
(* TracyWorker.cpp:2998-3018 Exec *)
Definition may_terminate (m_disconnect : bool) (w : W) : bool :=
  negb ((negb (m_pendingStrings w =? 0)) || (negb (m_pendingThreads w =? 0)) ||
    (negb (m_pendingSourceLocation w =? 0)) || (negb (m_pendingCallstackFrames (cst w) =? 0)) ||
    StringDiscovery.IsPending (plots w) || (negb (m_pendingCallstackId w =? 0)) ||
    (negb (m_pendingExternalNames (cpu w) =? 0)) || (negb (m_pendingCallstackSubframes (cst w) =? 0)) ||
    (match m_pendingFrameImageData (fr w) with Some _ => true | None => false end) ||
    negb (bool_decide (m_pendingSymbols (cst w) = ∅)) || (negb (m_pendingSymbolCode (cst w) =? 0)) ||
    negb (bool_decide (m_serverQueryQueue w = [])) || negb (bool_decide (m_serverQueryQueuePrio w = [])) ||
    (negb (m_pendingSourceLocationPayload w =? 0)) ||
    (match m_pendingSingleString w with Some _ => true | None => false end) ||
    (match m_pendingSecondString w with Some _ => true | None => false end) ||
    negb (bool_decide (m_sourceCodeQuery (srcs w) = ∅)) || (negb (m_pendingFibers w =? 0))) &&
  (m_crashed (sys w) || m_disconnect || forallb (fun t => match stack t with [] => true | _ => false end) (threads w)).

(** What one turn of the loop does with the connection. *)
Inductive turn : Type :=
  | Continue (sent : list ServerQueryPacket)
  | Terminated (sent : list ServerQueryPacket)
  | Failed (rest : list Z).
(* TracyWorker.cpp:2936-3023 Exec *)
Definition Exec_turn (m_disconnect : bool) (frame : list Z) : M W turn :=
  r ← dispatch_frame (length frame) frame;
  match r with
  | Some rest => mret (Failed rest)
  | None =>
      sent ← send_queries;
      w ← gets (fun w => w);
      mret (if m_terminate (sys w) && may_terminate m_disconnect w then Terminated sent else Continue sent)
  end.
(** The loop, for the frames that the network thread hands over: the packets that every
    turn sends, and how it ends. *)
Inductive ending : Type := Waiting | Closed | Broken (rest : list Z).
(* TracyWorker.cpp:2918-3025 Exec *)
Fixpoint Exec_loop (m_disconnect : bool) (frames : list (list Z)) : M W (list (list ServerQueryPacket) * ending) :=
  match frames with
  | [] => mret ([], Waiting)
  | frame :: frames =>
      t ← Exec_turn m_disconnect frame;
      match t with
      | Continue sent => r ← Exec_loop m_disconnect frames; mret (sent :: fst r, snd r)
      | Terminated sent => mret ([sent], Closed)
      | Failed rest => mret ([], Broken rest)
      end
  end.
(** One turn of [HandleFailure]: whether all is known, and what is sent otherwise. *)
(* TracyWorker.cpp:3083-3142 HandleFailure *)
Definition HandleFailure_turn (rest : list Z) : M W (option (list ServerQueryPacket)) :=
  dispatch_failures (length rest) rest;;
  done ← HasAllFailureData;
  if done : bool then mret None else sent ← send_queries; mret (Some sent).
(* TracyWorker.cpp:3081-3083 *)
Definition HandleFailure (rest : list Z) : M W (option (list ServerQueryPacket)) :=
  done ← HasAllFailureData;
  if done : bool then mret None else HandleFailure_turn rest.
End Dispatch.

(** The room for queries is what fits the buffer of the socket. *)
(* TracyWorker.cpp:2897-2897 Exec *)
Definition query_space (GetSendBufSize : Z) : Z := uint 64 (Z.min (GetSendBufSize / 13) (8 * 1024) - 4).
