(* ===== verification/Respect.v ===== *)
(** * Relations that all handlers respect

    Most of what a handler does leaves the queues of queries, the reference times and
    the failure alone.  A relation on states that such changes respect, and that asking
    and failing respect, is respected by a handler as soon as its other steps are. *)
From S2P Require Import Prelude Double Queue Wire Event Containers Discovery Trace Server ServerZone ServerLock ServerMem ServerFrame ServerSection ServerPlot ServerMessage ServerGpu ServerCtx ServerCallstack ServerSymbol ServerSample ServerImage Dispatch.

(** What a relation may depend on. *)
Definition core (w : W) :=
  (m_serverQuerySpaceLeft w, m_serverQueryQueuePrio w, m_serverQueryQueue w,
   (m_refTimeThread w, m_refTimeSerial w, m_refTimeCtx w, m_refTimeGpu w), m_failure w).

Definition respects (R : W -> W -> Prop) {A} (m : M W A) : Prop := forall w, wlp m (fun _ w' => R w w') w.

Class Stable (R : W -> W -> Prop) : Prop := {
  stable_order :: PreOrder R;
  stable_core w w' : core w' = core w -> R w w';
  stable_query type data extra : respects R (Query type data extra);
  stable_failure f upd : f <> NoFailure -> respects R (set_failure f upd) }.

Create HintDb respects.

Section Respects.
Context (R : W -> W -> Prop) `{!Stable R}.

Lemma respects_ret {A} (a : A) : respects R (mret a).
Proof. intros w. apply wlp_ret. cbv beta. reflexivity. Qed.
Lemma respects_bind {A B} (m : M W A) (k : A -> M W B) :
  respects R m -> (forall a, respects R (k a)) -> respects R (m ≫= k).
Proof.
  intros Hm Hk w. apply wlp_bind. eapply wlp_mono; [apply Hm |]. intros a w1 H1. eapply wlp_mono; [apply Hk |].
  intros b w2 H2. cbv beta in *. etransitivity; [exact H1 | exact H2].
Qed.
Lemma respects_gets {A} (f : W -> A) : respects R (gets f).
Proof. intros w. apply wlp_gets. cbv beta. reflexivity. Qed.
Lemma respects_modify (f : W -> W) : (forall w, R w (f w)) -> respects R (modify f).
Proof. intros H w. apply wlp_modify, H. Qed.
Lemma respects_assert b : respects R (assert_ b).
Proof. intros w. apply wlp_assert. intros _. cbv beta. reflexivity. Qed.
Lemma respects_expect {A} (o : option A) : respects R (expect o).
Proof. intros w. apply wlp_expect. intros. cbv beta. reflexivity. Qed.
Lemma respects_stop {A} : respects R (stop (A := A)).
Proof. intros w. exact Logic.I. Qed.
Lemma respects_when b m : respects R m -> respects R (when b m).
Proof. intros Hm. destruct b; [exact Hm | apply respects_ret]. Qed.
Lemma respects_for_each {A} (l : list A) f : (forall a, respects R (f a)) -> respects R (for_each l f).
Proof. intros H. induction l; cbn; [apply respects_ret | apply respects_bind; auto]. Qed.
Lemma respects_RefTime (p : W -> Z) `{!FieldSet p} delta :
  (forall w v, R w (over p v w)) -> respects R (RefTime p delta).
Proof.
  intros Hp. unfold RefTime. apply respects_bind; [apply respects_gets | intros r]. cbv zeta.
  apply respects_bind; [apply respects_modify; intros w; apply Hp | intros _; apply respects_ret].
Qed.
End Respects.
#[export] Hint Resolve respects_ret respects_gets respects_assert respects_expect respects_stop stable_query : respects.

(** [respects R m], by the parts of [m]; its constants are unfolded. *)
Ltac head_of t := lazymatch t with ?f _ => head_of f | _ => t end.
Ltac respects_step :=
  lazymatch goal with
  | |- forall _, _ => intro
  | |- respects _ (_ ≫= _) => apply respects_bind; [typeclasses eauto | |]
  | |- respects _ (when _ _) => apply respects_when; [typeclasses eauto |]
  | |- respects _ (for_each _ _) => apply respects_for_each; [typeclasses eauto |]
  | |- respects _ (modify _) => apply respects_modify
  | |- respects _ (set_failure _ _) => apply stable_failure; discriminate
  | |- respects _ (match ?x with _ => _ end) => destruct x
  | |- respects _ (let '_ := ?x in _) => destruct x
  | |- respects _ ?m =>
      first [solve [auto with respects typeclass_instances] | let h := head_of m in progress (unfold h; cbv beta zeta)]
  | |- ?R ?w ?w' => first [apply stable_core; reflexivity | solve [auto with respects]]
  end.
Ltac respects_auto := repeat respects_step.

(** ** Recursive handlers *)
Section Handlers.
Context (R : W -> W -> Prop) `{!Stable R}.

Lemma respects_QueryDataTransfer_loop fuel data : respects R (QueryDataTransfer_loop fuel data).
Proof. revert data. induction fuel as [| fuel IH]; intros data; cbn [QueryDataTransfer_loop]; respects_auto. Qed.
Lemma respects_alloc_frames n data : respects R (alloc_frames n data).
Proof. revert data. induction n as [| n IH]; intros data; cbn [alloc_frames]; respects_auto. Qed.
Lemma respects_count_inclusive count syms seen : respects R (count_inclusive count syms seen).
Proof. revert seen. induction syms as [| s syms IH]; intros seen; cbn [count_inclusive]; respects_auto. Qed.
Lemma respects_entry_frames cs count d c f suffix seen : respects R (entry_frames cs count d c f suffix seen).
Proof. revert seen. induction f as [| f IH]; intros seen; cbn [entry_frames]; respects_auto. Qed.
Hint Resolve respects_QueryDataTransfer_loop respects_alloc_frames respects_count_inclusive respects_entry_frames : respects.
Lemma respects_entry_groups cs count frames c suffix seen : respects R (entry_groups cs count frames c suffix seen).
Proof. revert suffix seen. induction c as [| c IH]; intros suffix seen; cbn [entry_groups]; respects_auto. Qed.
Lemma respects_known_frames cs : respects R (known_frames cs).
Proof. induction cs as [| id cs IH]; cbn [known_frames]; respects_auto. Qed.
Lemma respects_stack_with_inlines cs : respects R (stack_with_inlines cs).
Proof. induction cs as [| id cs IH]; cbn [stack_with_inlines]; respects_auto. Qed.
Lemma respects_cut_spine fuel ref t v : respects R (cut_spine fuel ref t v).
Proof. revert v. induction fuel as [| fuel IH]; intros v; cbn [cut_spine]; respects_auto. Qed.
Lemma respects_extend_spine ref t p v stack : respects R (extend_spine ref t p v stack).
Proof. revert v. induction stack as [| x stack IH]; intros v; cbn [extend_spine]; respects_auto. Qed.
Lemma respects_grow_spine t p v stack : respects R (grow_spine t p v stack).
Proof. revert v. induction stack as [| x stack IH]; intros v; cbn [grow_spine]; respects_auto. Qed.
Lemma respects_count_callers time addr cs : respects R (count_callers time addr cs).
Proof. revert addr. induction cs as [| c cs IH]; intros addr; cbn [count_callers]; respects_auto. Qed.
Hint Resolve respects_entry_groups respects_known_frames respects_stack_with_inlines respects_cut_spine respects_extend_spine respects_grow_spine
  respects_count_callers : respects.
End Handlers.
#[export] Hint Resolve respects_QueryDataTransfer_loop respects_alloc_frames respects_count_inclusive respects_entry_frames respects_entry_groups respects_known_frames respects_stack_with_inlines respects_cut_spine respects_extend_spine respects_grow_spine respects_count_callers : respects.
