(* ===== verification/QuerySpec.v ===== *)
(** * Queries are asked, sent and answered

    Handlers only add queries at the end of a queue, and only the answers of the client
    make room; so the room and the queries that are under way add up to what the client
    can take, and every query is sent when those before it were answered. *)
From S2P Require Import Prelude Double Queue Wire Event Containers Discovery Trace Server ServerZone ServerLock ServerMem ServerFrame ServerSection ServerPlot ServerMessage ServerGpu ServerCtx ServerCallstack ServerSymbol ServerSample ServerImage Dispatch Respect.
Import QueueType(t(..)).

Definition is_prio (q : ServerQueryPacket) : bool := IsQueryPrio (q_type q).

(** From [w] to [w'], queries may have been asked. *)
Record asked (w w' : W) : Prop := {
  aq_space : m_serverQuerySpaceLeft w' = m_serverQuerySpaceLeft w;
  aq_prio : exists new, m_serverQueryQueuePrio w' = m_serverQueryQueuePrio w ++ new /\ Forall (fun q => is_prio q = true) new;
  aq_queue : exists new, m_serverQueryQueue w' = m_serverQueryQueue w ++ new /\ Forall (fun q => is_prio q = false) new }.

#[export] Instance asked_preorder : PreOrder asked.
Proof.
  split.
  - intros w. split; [done | |]; exists []; rewrite app_nil_r; done.
  - intros w1 w2 w3 [A1 (p1 & A2 & A3) (q1 & A4 & A5)] [B1 (p2 & B2 & B3) (q2 & B4 & B5)]. split; [congruence | |].
    + exists (p1 ++ p2). rewrite B2, A2, app_assoc. split; [done | now apply Forall_app].
    + exists (q1 ++ q2). rewrite B4, A4, app_assoc. split; [done | now apply Forall_app].
Qed.

Lemma asked_same w w' :
  m_serverQuerySpaceLeft w' = m_serverQuerySpaceLeft w -> m_serverQueryQueuePrio w' = m_serverQueryQueuePrio w ->
  m_serverQueryQueue w' = m_serverQueryQueue w -> asked w w'.
Proof. intros E1 E2 E3. split; [done | |]; exists []; rewrite app_nil_r; done. Qed.

#[export] Instance asked_stable : Stable asked.
Proof.
  split.
  - apply asked_preorder.
  - intros w w' E. injection E. intros. now apply asked_same.
  - intros type data extra. unfold Query. destruct (IsQueryPrio type) eqn:E; intros w; apply wlp_modify; split; try done.
    + exists [mkQuery type data extra]. split; [done | now repeat constructor].
    + exists []. rewrite app_nil_r. done.
    + exists []. rewrite app_nil_r. done.
    + exists [mkQuery type data extra]. split; [done | now repeat constructor].
  - intros f upd _ w. apply wlp_modify. now apply asked_same.
Qed.
#[local] Hint Extern 1 (asked _ _) => apply asked_same; reflexivity : respects.
#[local] Hint Extern 1 (respects asked (RefTime _ _)) =>
  apply respects_RefTime; [typeclasses eauto | intros; apply asked_same; reflexivity] : respects.

Section Handlers.
Context `{Slab} `{LockSlab} `{ServerMem.MapOrder} `{GpuSlab} `{FileSystem} `{SampleSort} `{Disassembler} `{TextureZstd}.

(** ** What an event does to the queries *)

(** Whether the event answers a query. *)
Definition is_answer (e : event) : bool :=
  match e with
  | Fixed item =>
      match QueueType.of_idx (MemReadHdr item) with
      | Some (SourceLocation | CallstackFrameSize | SymbolInformation | AckServerQueryNoop
              | AckSourceCodeNotAvailable | AckSymbolCodeNotAvailable) => true
      | _ => false
      end
  | Transfer (SymbolCode | SourceCode | StringData | ThreadName | FiberName | PlotName | FrameName | ExternalName) _ _ => true
  | _ => false
  end.
Definition answer_type (type : QueueType.t) : bool :=
  match type with
  | SourceLocation | CallstackFrameSize | SymbolInformation | AckServerQueryNoop | AckSourceCodeNotAvailable
  | AckSymbolCodeNotAvailable => true
  | _ => false
  end.

(** There is room for one more query. *)
Definition more_room (w : W) : W := w <| m_serverQuerySpaceLeft ::= (fun n => uint 64 (n + 1)) |>.
Definition answers {A} (m : M W A) : Prop := forall w, wlp m (fun _ w' => asked (more_room w) w') w.
Definition asks_or_answers {A} (b : bool) (m : M W A) : Prop := if b then answers m else respects asked m.

Lemma more_room_asked w w' : asked w w' -> asked (more_room w) (more_room w').
Proof. intros [A1 A2 A3]. split; [| exact A2 | exact A3]. unfold more_room. cbn. now rewrite A1. Qed.
Lemma answers_answered : answers answered.
Proof. intros w. apply wlp_modify. cbv beta. reflexivity. Qed.
Lemma answers_after {A B} (m : M W A) (k : A -> M W B) : respects asked m -> (forall a, answers (k a)) -> answers (m ≫= k).
Proof.
  intros Hm Hk w. apply wlp_bind. eapply wlp_mono; [apply Hm |]. intros a w1 Ha. eapply wlp_mono; [apply Hk |].
  intros b w2 Hb. cbv beta in *. etransitivity; [apply more_room_asked, Ha | exact Hb].
Qed.
Lemma answers_before {A B} (m : M W A) (k : A -> M W B) : answers m -> (forall a, respects asked (k a)) -> answers (m ≫= k).
Proof.
  intros Hm Hk w. apply wlp_bind. eapply wlp_mono; [apply Hm |]. intros a w1 Ha. eapply wlp_mono; [apply Hk |].
  intros b w2 Hb. cbv beta in *. etransitivity; [exact Ha | exact Hb].
Qed.
Lemma asks_or_answers_before {A B} (b : bool) (m : M W A) (k : A -> M W B) :
  asks_or_answers b m -> (forall a, respects asked (k a)) -> asks_or_answers b (m ≫= k).
Proof. destruct b; [apply answers_before | apply (respects_bind asked)]. Qed.

(** The handlers of the three parts of the switch. *)
Ltac switch_case E := injection E as <-; cbn [asks_or_answers answer_type];
  lazymatch goal with
  | |- answers answered => apply answers_answered
  | |- answers _ => apply answers_after; [respects_auto | intros _; apply answers_answered]
  | |- _ => respects_auto
  end.
Lemma asks_1 type item m : Process_switch_1 type item = Some m -> asks_or_answers (answer_type type) m.
Proof. destruct type; cbn [Process_switch_1]; intros E; try discriminate E; switch_case E. Qed.
Lemma asks_2 type item m : Process_switch_2 type item = Some m -> asks_or_answers (answer_type type) m.
Proof. destruct type; cbn [Process_switch_2]; intros E; try discriminate E; switch_case E. Qed.
Lemma asks_3 type item m : Process_switch_3 type item = Some m -> asks_or_answers (answer_type type) m.
Proof. destruct type; cbn [Process_switch_3]; intros E; try discriminate E; switch_case E.
Qed.

Lemma Process_asks item : asks_or_answers (is_answer (Fixed item)) (Process item).
Proof.
  unfold Process. cbn [is_answer]. destruct (QueueType.of_idx (MemReadHdr item)) as [type |].
  2: { intros w. exact Logic.I. }
  change (match type with SourceLocation | CallstackFrameSize | SymbolInformation | AckServerQueryNoop
    | AckSourceCodeNotAvailable | AckSymbolCodeNotAvailable => true | _ => false end) with (answer_type type).
  change (asks_or_answers (answer_type type)
    (match Process_switch_1 type item with
     | Some m => m
     | None => match Process_switch_2 type item with
       | Some m => m
       | None => match Process_switch_3 type item with Some m => m | None => stop end
       end
     end;; failure ← gets m_failure; mret (bool_decide (failure = NoFailure)))).
  apply asks_or_answers_before; [| respects_auto].
  destruct (Process_switch_1 type item) as [m |] eqn:E1; [now apply asks_1 in E1 |].
  destruct (Process_switch_2 type item) as [m |] eqn:E2; [now apply asks_2 in E2 |].
  destruct (Process_switch_3 type item) as [m |] eqn:E3; [now apply asks_3 in E3 |].
  destruct (answer_type type); intros w; exact Logic.I.
Qed.
Lemma handle_event_asks e : asks_or_answers (is_answer e) (handle_event e).
Proof.
  destruct e as [item | type ptr data | str | str].
  - apply Process_asks.
  - destruct type; cbn [is_answer handle_event is_long long_transfer transfer asks_or_answers];
      try solve [apply answers_before; [apply answers_after; [respects_auto | intros _; apply answers_answered] | respects_auto] | respects_auto].
  - cbn [is_answer handle_event asks_or_answers]. respects_auto.
  - cbn [is_answer handle_event asks_or_answers]. respects_auto.
Qed.

(** ** Frames *)
Definition room_for (n : nat) (w : W) : W := Nat.iter n more_room w.
Lemma room_for_space n w : in_uint 64 (m_serverQuerySpaceLeft w + Z.of_nat n) -> in_uint 64 (m_serverQuerySpaceLeft w) ->
  m_serverQuerySpaceLeft (room_for n w) = m_serverQuerySpaceLeft w + Z.of_nat n.
Proof.
  intros Hn H0'. induction n as [| n IH]; [cbn; lia |].
  change (uint 64 (m_serverQuerySpaceLeft (room_for n w) + 1) = m_serverQuerySpaceLeft w + Z.of_nat (S n)).
  rewrite IH by (unfold in_uint in *; lia). rewrite uint_small; unfold in_uint in *; lia.
Qed.
Lemma room_for_queues n w : m_serverQueryQueuePrio (room_for n w) = m_serverQueryQueuePrio w /\
  m_serverQueryQueue (room_for n w) = m_serverQueryQueue w.
Proof. induction n as [| n IH]; [done | exact IH]. Qed.
Lemma room_for_asked n w w' : asked w w' -> asked (room_for n w) (room_for n w').
Proof. intros Ha. induction n as [| n IH]; [exact Ha | exact (more_room_asked _ _ IH)]. Qed.
Lemma room_for_S n w : room_for n (more_room w) = room_for (S n) w.
Proof. unfold room_for. induction n as [| n IH]; [done |]. cbn. f_equal. exact IH. Qed.

(** The answers in a frame. *)
Definition answers_in (frame : list Z) : nat :=
  match read_frame frame with Some es => length (List.filter is_answer es) | None => O end.

Lemma dispatch_frame_asks fuel : forall m w,
  wlp (dispatch_frame fuel m) (fun r w' => r = None -> exists es, read_events fuel m = Some es /\
    asked (room_for (length (List.filter is_answer es)) w) w') w.
Proof.
  induction fuel as [| fuel IH]; intros m w; (destruct m as [| b m]; [apply wlp_ret; intros _; exists []; done |]).
  { exact Logic.I. }
  set (l := b :: m). change (dispatch_frame (S fuel) l) with
    (p ← DispatchProcess l; if fst p : bool then dispatch_frame fuel (snd p) else mret (Some (snd p))).
  change (read_events (S fuel) l) with ('(e, m) ← read_event l; es ← read_events fuel m; Some (e :: es)).
  unfold DispatchProcess. apply wlp_bind, wlp_bind, wlp_expect. intros [e rest] Er. cbn [fst snd]. apply wlp_bind.
  pose proof (handle_event_asks e) as He. rewrite Er. unfold asks_or_answers in He.
  destruct (is_answer e) eqn:Ea; (eapply wlp_mono; [apply He |]; cbv beta; intros ok w1 H1'; apply wlp_ret; cbn [fst snd];
    destruct ok; [| now apply wlp_ret]; eapply wlp_mono; [apply IH |]; cbv beta; intros r w2 Hr Hn;
    destruct (Hr Hn) as (es & Ees & Has); exists (e :: es); bind_red; rewrite Ees; split; [reflexivity |];
    change (List.filter is_answer (e :: es)) with (if is_answer e then e :: List.filter is_answer es else List.filter is_answer es);
    rewrite Ea).
  - cbn [length]. etransitivity; [| exact Has]. rewrite <- room_for_S. now apply room_for_asked.
  - etransitivity; [| exact Has]. now apply room_for_asked.
Qed.

(** ** What a turn sends *)

(** The client can take [base] queries, and [n] of them are under way. *)
Definition room (base : Z) (n : nat) (w : W) : Prop := m_serverQuerySpaceLeft w + Z.of_nat n = base.

(** From [w] to [w'], with [a] answers, [p] and [q] were sent from the two queues: as
    much as there was room for. *)
Record turned (a : nat) (p q : list ServerQueryPacket) (w w' : W) : Prop := {
  tn_prio : exists new, m_serverQueryQueuePrio w ++ new = p ++ m_serverQueryQueuePrio w' /\
    Forall (fun q => is_prio q = true) new;
  tn_queue : exists new, m_serverQueryQueue w ++ new = q ++ m_serverQueryQueue w' /\
    Forall (fun q => is_prio q = false) new;
  tn_space : m_serverQuerySpaceLeft w' = m_serverQuerySpaceLeft w + Z.of_nat a - Z.of_nat (length p + length q);
  tn_fits : Z.of_nat (length p + length q) <= m_serverQuerySpaceLeft w + Z.of_nat a;
  tn_first : m_serverQueryQueuePrio w' = [] \/ q = [];
  tn_all : m_serverQueryQueuePrio w' = [] /\ m_serverQueryQueue w' = [] \/ m_serverQuerySpaceLeft w' = 0 }.

Lemma send_from_spec space queue : 0 <= space -> let '(sent, rest) := send_from space queue in
  queue = sent ++ rest /\ Z.of_nat (length sent) <= space /\ (rest = [] \/ Z.of_nat (length sent) = space).
Proof.
  intros Hs. unfold send_from. destruct (Z.ltb_spec 0 space) as [Hlt | Hge]; cbn [andb].
  - destruct (bool_decide_reflect (queue = [])) as [-> | Hne]; cbn [negb]; [cbn; split_and!; [done | lia | now left] |].
    split; [symmetry; apply take_drop |]. rewrite length_take. split; [lia |].
    destruct (Z.leb_spec (Z.of_nat (length queue)) space) as [Hle | Hgt].
    + left. apply drop_ge. lia.
    + right. lia.
  - cbn. split_and!; [done | lia | right; lia].
Qed.

Lemma send_queries_turned a w w1 (Q : list ServerQueryPacket -> W -> Prop) :
  asked (room_for a w) w1 -> in_uint 64 (m_serverQuerySpaceLeft w) -> in_uint 64 (m_serverQuerySpaceLeft w + Z.of_nat a) ->
  (forall p q w', turned a p q w w' -> Q (p ++ q) w') -> wp send_queries Q w1.
Proof.
  intros [A1 (np & A2 & A3) (nq & A4 & A5)] H0' Ha HQ. rewrite room_for_space in A1 by done.
  destruct (room_for_queues a w) as [E1 E2]. rewrite E1 in A2. rewrite E2 in A4. clear E1 E2.
  unfold send_queries. apply wp_bind, wp_gets. apply wp_bind, wp_gets. rewrite A1.
  pose proof (send_from_spec (m_serverQuerySpaceLeft w + Z.of_nat a) (m_serverQueryQueuePrio w1) (proj1 Ha)) as Hp.
  destruct (send_from _ (m_serverQueryQueuePrio w1)) as [p rp]. destruct Hp as (P1 & P2 & P3).
  apply wp_bind, wp_modify. set (w2 := over m_serverQuerySpaceLeft _ _). apply wp_bind, wp_gets. apply wp_bind, wp_gets.
  assert (E2 : m_serverQuerySpaceLeft w2 = m_serverQuerySpaceLeft w + Z.of_nat a - Z.of_nat (length p)).
  { change (uint 64 (m_serverQuerySpaceLeft w1 - Z.of_nat (length p)) = m_serverQuerySpaceLeft w + Z.of_nat a - Z.of_nat (length p)).
    rewrite A1. apply uint_small. unfold in_uint in *. lia. }
  rewrite E2. change (m_serverQueryQueue w2) with (m_serverQueryQueue w1).
  pose proof (send_from_spec (m_serverQuerySpaceLeft w + Z.of_nat a - Z.of_nat (length p)) (m_serverQueryQueue w1) ltac:(lia)) as Hq.
  destruct (send_from _ (m_serverQueryQueue w1)) as [q rq]. destruct Hq as (Q1 & Q2 & Q3).
  apply wp_bind, wp_modify. set (w3 := over m_serverQuerySpaceLeft _ _). apply wp_ret, HQ.
  assert (E3 : m_serverQuerySpaceLeft w3 = m_serverQuerySpaceLeft w + Z.of_nat a - Z.of_nat (length p + length q)).
  { change (uint 64 (m_serverQuerySpaceLeft w2 - Z.of_nat (length q)) = m_serverQuerySpaceLeft w + Z.of_nat a - Z.of_nat (length p + length q)).
    rewrite E2, uint_small; unfold in_uint in *; lia. }
  split.
  - exists np. split; [| exact A3]. change (m_serverQueryQueuePrio w3) with rp. now rewrite <- A2.
  - exists nq. split; [| exact A5]. change (m_serverQueryQueue w3) with rq. now rewrite <- A4.
  - exact E3.
  - lia.
  - change (m_serverQueryQueuePrio w3) with rp. destruct P3 as [-> | P3]; [now left | right]. destruct q; [done |].
    cbn [length] in Q2. lia.
  - rewrite E3. change (m_serverQueryQueuePrio w3) with rp. change (m_serverQueryQueue w3) with rq.
    destruct P3 as [-> | P3]; [| right; lia]. destruct Q3 as [-> | Q3]; [now left | right; lia].
Qed.

Lemma Exec_turn_turned d frame w :
  in_uint 64 (m_serverQuerySpaceLeft w) -> in_uint 64 (m_serverQuerySpaceLeft w + Z.of_nat (answers_in frame)) ->
  wlp (Exec_turn d frame) (fun t w' => forall sent, t = Continue sent \/ t = Terminated sent ->
    exists p q, sent = p ++ q /\ turned (answers_in frame) p q w w') w.
Proof.
  intros H0' Ha. unfold Exec_turn. apply wlp_bind. eapply wlp_mono; [apply dispatch_frame_asks |]. cbv beta.
  intros [rest |] w1 Hr; [apply wlp_ret; intros sent [E | E]; discriminate |]. destruct (Hr eq_refl) as (es & Ees & Has).
  assert (Ea : answers_in frame = length (List.filter is_answer es)) by (unfold answers_in, read_frame; now rewrite Ees).
  rewrite <- Ea in Has. apply wlp_bind, wp_wlp. eapply send_queries_turned; [exact Has | exact H0' | exact Ha |].
  intros p q w' Ht. apply wlp_bind, wlp_gets. apply wlp_ret.
  destruct (_ && _); intros sent [E | E]; try discriminate; injection E as <-; exists p, q; done.
Qed.

(** ** The loop *)
Definition queues_typed (w : W) : Prop :=
  Forall (fun q => is_prio q = true) (m_serverQueryQueuePrio w) /\ Forall (fun q => is_prio q = false) (m_serverQueryQueue w).

(** The client answers only what it was asked; [n] queries are under way before the
    frames. *)
Fixpoint polite (n : nat) (frames : list (list Z)) (sents : list (list ServerQueryPacket)) : Prop :=
  match frames, sents with
  | frame :: frames, sent :: sents =>
      (answers_in frame <= n)%nat /\ polite (n - answers_in frame + length sent) frames sents
  | _, _ => True
  end.
(** The turns in which the client has room for a query. *)
Fixpoint turns_with_room (base : Z) (n : nat) (frames : list (list Z)) (sents : list (list ServerQueryPacket)) : nat :=
  match frames, sents with
  | frame :: frames, sent :: sents =>
      let left := (n - answers_in frame)%nat in
      let rest := turns_with_room base (left + length sent) frames sents in
      if Z.of_nat left <? base then S rest else rest
  | _, _ => O
  end.
Fixpoint under_way (n : nat) (frames : list (list Z)) (sents : list (list ServerQueryPacket)) : nat :=
  match frames, sents with
  | frame :: frames, sent :: sents => under_way (n - answers_in frame + length sent) frames sents
  | _, _ => n
  end.
Definition prio_sent (sents : list (list ServerQueryPacket)) : nat := length (List.filter is_prio (concat sents)).

Lemma turned_typed a p q w w' : turned a p q w w' -> queues_typed w ->
  queues_typed w' /\ Forall (fun q => is_prio q = true) p /\ Forall (fun q => is_prio q = false) q.
Proof.
  intros [(np & A1 & A2) (nq & B1 & B2) _ _ _ _] [Hp Hq].
  assert (Hp' : Forall (fun q => is_prio q = true) (p ++ m_serverQueryQueuePrio w')) by (rewrite <- A1; now apply Forall_app).
  assert (Hq' : Forall (fun q => is_prio q = false) (q ++ m_serverQueryQueue w')) by (rewrite <- B1; now apply Forall_app).
  apply Forall_app in Hp' as [? ?], Hq' as [? ?]. repeat split; assumption.
Qed.
Lemma prio_count p q : Forall (fun q => is_prio q = true) p -> Forall (fun q => is_prio q = false) q ->
  length (List.filter is_prio (p ++ q)) = length p.
Proof.
  intros Hp Hq. rewrite List.filter_app, length_app.
  assert (E1 : List.filter is_prio p = p) by (induction Hp as [| x l Hx _ IH]; cbn; [done | rewrite Hx; now f_equal]).
  assert (E2 : List.filter is_prio q = []) by (induction Hq as [| x l Hx _ IH]; cbn; [done | rewrite Hx; exact IH]).
  rewrite E1, E2. cbn. lia.
Qed.
Lemma turned_room base n frame p q w w' :
  turned (answers_in frame) p q w w' -> room base n w -> (answers_in frame <= n)%nat ->
  room base (n - answers_in frame + length (p ++ q)) w'.
Proof. intros Ht Hr Ha. unfold room in *. rewrite (tn_space _ _ _ _ _ Ht), length_app. lia. Qed.

(** What is left of a queue after some of it was sent. *)
Lemma left_over {A} (l new p l' : list A) i x :
  l ++ new = p ++ l' -> l !! i = Some x -> x ∈ p \/ (length p <= i)%nat /\ l' !! (i - length p)%nat = Some x.
Proof.
  intros E Hi. apply (lookup_app_l_Some l new) in Hi. rewrite E in Hi.
  apply lookup_app_Some in Hi as [Hi | [Hle Hi]]; [left; now apply list_elem_of_lookup_2 in Hi | now right].
Qed.

Section Loop.
Context (d : bool) (base : Z) (Hbase : 0 < base < 2 ^ 64).

Lemma Exec_loop_sends frames : forall n w sents w',
  Exec_loop d frames w = Some ((sents, Waiting), w') -> room base n w -> 0 <= m_serverQuerySpaceLeft w -> queues_typed w ->
  polite n frames sents ->
  length sents = length frames /\ room base (under_way n frames sents) w' /\ 0 <= m_serverQuerySpaceLeft w' /\
  (forall i x, m_serverQueryQueuePrio w !! i = Some x -> (i < turns_with_room base n frames sents)%nat -> x ∈ concat sents) /\
  (forall i x, m_serverQueryQueue w !! i = Some x -> (i + prio_sent sents < turns_with_room base n frames sents)%nat -> x ∈ concat sents).
Proof.
  induction frames as [| frame frames IH]; intros n w sents w' E Hr H0' Ht Hf.
  { cbn in E. injection E as <- <-. repeat split; try done; cbn in *; lia. }
  cbn [Exec_loop] in E. unfold mbind, M_bind in E. destruct (Exec_turn d frame w) as [[t w1] |] eqn:Et; [| done].
  assert (exists sent sents', t = Continue sent /\ sents = sent :: sents' /\ Exec_loop d frames w1 = Some ((sents', Waiting), w'))
    as (sent & sents' & -> & -> & El).
  { destruct t as [sent | sent | rest]; [| discriminate E | discriminate E].
    destruct (Exec_loop d frames w1) as [[[ss e] w2] |] eqn:El; [| discriminate E]. cbn in E. injection E as <- -> ->.
    exists sent, ss. done. }
  destruct Hf as [Ha Hf].
  assert (Hin : in_uint 64 (m_serverQuerySpaceLeft w)) by (unfold in_uint, room in *; lia).
  assert (Hin2 : in_uint 64 (m_serverQuerySpaceLeft w + Z.of_nat (answers_in frame))) by (unfold in_uint, room in *; lia).
  pose proof (wlp_run _ _ _ _ _ (Exec_turn_turned d frame w Hin Hin2) Et sent (or_introl eq_refl)) as (p & q & -> & Hturn).
  pose proof (turned_room base n frame p q w w1 Hturn Hr Ha) as Hr1. destruct (turned_typed _ _ _ _ _ Hturn Ht) as (Ht1 & Hp & Hq).
  pose proof (tn_fits _ _ _ _ _ Hturn) as Hfit. pose proof (tn_space _ _ _ _ _ Hturn) as Hsp.
  destruct (IH _ w1 sents' w' El Hr1 ltac:(lia) Ht1 Hf) as (I1 & I2 & I3 & I4 & I5).
  cbn [turns_with_room]. set (k := turns_with_room base _ frames sents') in *.
  assert (Hk : (if Z.of_nat (n - answers_in frame) <? base then S k else k) = k /\ p = [] /\ q = [] \/
    (if Z.of_nat (n - answers_in frame) <? base then S k else k) = S k /\ 0 < m_serverQuerySpaceLeft w + Z.of_nat (answers_in frame)).
  { unfold room in Hr. destruct (Z.ltb_spec (Z.of_nat (n - answers_in frame)) base) as [Hlt | Hge]; [right; lia | left].
    split_and!; [done | destruct p; [done |] | destruct q; [done |]]; cbn [length] in Hfit; lia. }
  repeat split.
  - cbn [length]. lia.
  - exact I2.
  - exact I3.
  - intros i x Hi Hlt. cbn [concat]. rewrite !elem_of_app. destruct (tn_prio _ _ _ _ _ Hturn) as (new & En & _).
    destruct (left_over _ _ _ _ _ _ En Hi) as [Hin' | [Hle Hi']]; [now left; left | right]. eapply I4; [exact Hi' |].
    destruct Hk as [(Ek & -> & ->) | [Ek Hpos]]; rewrite Ek in Hlt; [cbn; lia |].
    assert (Hne : m_serverQueryQueuePrio w1 <> []) by (intros E0; rewrite E0 in Hi'; done).
    destruct (tn_first _ _ _ _ _ Hturn) as [? | Eq]; [done |]. destruct (tn_all _ _ _ _ _ Hturn) as [[? _] | Es]; [done |].
    rewrite Eq in *. cbn [length] in *. lia.
  - intros i x Hi Hlt. unfold prio_sent in *. cbn [concat] in *. rewrite List.filter_app, length_app, prio_count in Hlt by done.
    rewrite !elem_of_app. destruct (tn_queue _ _ _ _ _ Hturn) as (new & En & _).
    destruct (left_over _ _ _ _ _ _ En Hi) as [Hin' | [Hle Hi']]; [now left; right | right]. eapply I5; [exact Hi' |].
    destruct Hk as [(Ek & -> & ->) | [Ek Hpos]]; rewrite Ek in Hlt; [cbn [length] in *; lia |].
    assert (Hne : m_serverQueryQueue w1 <> []) by (intros E0; rewrite E0 in Hi'; done).
    destruct (tn_all _ _ _ _ _ Hturn) as [[_ ?] | Es]; [done |]. lia.
Qed.
End Loop.

(** C3: no query is lost or starved.  Whatever the handlers ask and the client
    answers, the queries under way and the room that is left add up to what the client
    can take; a query of high priority that has [i] before it in its queue is sent when
    the client has had room in [i + 1] turns, and one of low priority, when it has had
    room in as many turns as were queries of high priority sent, and [i + 1] more. *)
Theorem Exec_loop_sends_queries (d : bool) (base : Z) (n : nat) (frames : list (list Z)) (w w' : W)
    (sents : list (list ServerQueryPacket)) :
  0 < base < 2 ^ 64 -> Exec_loop d frames w = Some ((sents, Waiting), w') ->
  room base n w -> 0 <= m_serverQuerySpaceLeft w -> queues_typed w -> polite n frames sents ->
  room base (under_way n frames sents) w' /\ Z.of_nat (under_way n frames sents) <= base /\
  (forall i x, m_serverQueryQueuePrio w !! i = Some x -> (i < turns_with_room base n frames sents)%nat -> x ∈ concat sents) /\
  (forall i x, m_serverQueryQueue w !! i = Some x ->
     (i + prio_sent sents < turns_with_room base n frames sents)%nat -> x ∈ concat sents).
Proof.
  intros Hbase E Hr H0' Ht Hf. destruct (Exec_loop_sends d base Hbase frames n w sents w' E Hr H0' Ht Hf) as (_ & I2 & I3 & I4 & I5).
  split; [exact I2 |]. split; [unfold room in I2; lia | now split].
Qed.
End Handlers.

(** A client that can take two queries; three strings are asked for and one call-stack
    frame, and it answers one query in every frame, by a note that there is none. *)
#[export] Instance demo_zone_memory : Slab.
Proof. refine {| junk := fun _ => ZoneEvent.mk 0 0 0 0 |}. intros _. repeat split; vm_compute; discriminate || reflexivity. Defined.
#[export] Instance demo_lock_memory : LockSlab.
Proof. refine {| lock_junk := fun _ _ => LockEvent.mk 0 0 LockEvent.Wait 0 0 |}. intros _ _. split; vm_compute; discriminate || reflexivity. Defined.
#[export] Instance demo_gpu_memory : GpuSlab.
Proof. refine {| gpu_junk := fun _ => GpuEvent.mk 0 0 0 0 0 0 |}. intros _. repeat split; done. Defined.
#[export] Instance demo_visit : ServerMem.MapOrder :=
  {| ServerMem.visit := map_to_list; visit_perm := fun m => reflexivity (map_to_list m) |}.
#[export] Instance demo_files : FileSystem := {| mtime := fun _ => None; content := fun _ => None |}.
#[export] Instance demo_sort : SampleSort := fun l => l.
#[export] Instance demo_disassembler : Disassembler := fun _ _ _ => None.
#[export] Instance demo_zstd : TextureZstd := fun l => l.

Definition demo_asker : W :=
  (Worker (double_of_Z 1) 1000 0 2 false false [0; 0])
    <| m_serverQueryQueuePrio := [mkQuery ServerQueryString 16 0; mkQuery ServerQueryString 32 0; mkQuery ServerQueryString 48 0] |>
    <| m_serverQueryQueue := [mkQuery ServerQueryCallstackFrame 64 0] |>.
Definition demo_frames : list (list Z) :=
  [[QueueType.idx KeepAlive]; [QueueType.idx AckServerQueryNoop]; [QueueType.idx AckServerQueryNoop]; [QueueType.idx AckServerQueryNoop]].
Definition demo_sents : list (list ServerQueryPacket) :=
  [[mkQuery ServerQueryString 16 0; mkQuery ServerQueryString 32 0]; [mkQuery ServerQueryString 48 0];
   [mkQuery ServerQueryCallstackFrame 64 0]; []].
Definition demo_after : W := match Exec_loop false demo_frames demo_asker with Some (_, w) => w | None => demo_asker end.

Lemma Exec_loop_sends_queries_witness :
  room 2 1 demo_after /\ 1 <= 2 /\
  (forall i x, m_serverQueryQueuePrio demo_asker !! i = Some x -> (i < 4)%nat -> x ∈ concat demo_sents) /\
  (forall i x, m_serverQueryQueue demo_asker !! i = Some x -> (i + 3 < 4)%nat -> x ∈ concat demo_sents).
Proof.
  apply (Exec_loop_sends_queries false 2 0 demo_frames demo_asker demo_after demo_sents).
  - split; reflexivity.
  - vm_compute. reflexivity.
  - reflexivity.
  - discriminate.
  - split; repeat constructor.
  - cbn. repeat split; vm_compute; lia.
Defined.
