(* ===== verification/Link.v ===== *)
(** * Client and server agree on time

    The client sends differences of times, by four references, and the server adds them
    up again.  Both sides have the same references after every event, whatever was sent
    in between, so the server works with the times that the instrumented program took. *)
From S2P Require Import Prelude Double Queue Wire Client Dequeue DequeueSpec Event Containers Discovery Trace Server ServerZone ServerLock ServerMem ServerFrame ServerSection ServerPlot ServerMessage ServerGpu ServerCtx ServerCallstack ServerSymbol ServerSample ServerImage Dispatch Respect QuerySpec.
Import QueueType(t(..)).

(** ** The references of the server *)
Definition server_refs (w : W) : Refs :=
  mkRefs (m_refTimeThread w) (m_refTimeSerial w) (m_refTimeCtx w) (m_refTimeGpu w).

(** The references stay, and a failure is not forgotten. *)
Definition calm (w w' : W) : Prop :=
  server_refs w' = server_refs w /\ (m_failure w <> NoFailure -> m_failure w' <> NoFailure).
#[export] Instance calm_stable : Stable calm.
Proof.
  split.
  - split; [done |]. intros w1 w2 w3 [A1 A2] [B1 B2]. split; [congruence | auto].
  - intros w w' E. injection E. intros Ef _ _ _ _ _ _ _. unfold calm, server_refs. injection E. intros. split; congruence.
  - intros type data extra. unfold Query. destruct (IsQueryPrio type); intros w; apply wlp_modify; done.
  - intros f upd Hf w. apply wlp_modify. done.
Qed.
#[local] Hint Extern 1 (calm _ _) => split; [reflexivity | auto] : respects.

Inductive clock : Set := CThread | CSerial | CCtx | CGpu.
Definition tick (c : clock) (dt : Z) (r : Refs) : Refs :=
  match c with
  | CThread => r <| refThread ::= fun t => sint 64 (t + dt) |>
  | CSerial => r <| refSerial ::= fun t => sint 64 (t + dt) |>
  | CCtx => r <| refCtx ::= fun t => sint 64 (t + dt) |>
  | CGpu => r <| refGpu ::= fun t => sint 64 (t + dt) |>
  end.

(** [m] fails, or does [f] to the references. *)
Definition follows (f : Refs -> Refs) {A} (m : M W A) : Prop :=
  forall w, wlp m (fun _ w' => m_failure w' <> NoFailure \/ server_refs w' = f (server_refs w)) w.

Lemma follows_calm_first f {A B} (m : M W A) (k : A -> M W B) :
  respects calm m -> (forall a, follows f (k a)) -> follows f (m ≫= k).
Proof.
  intros Hm Hk w. apply wlp_bind. eapply wlp_mono; [apply Hm |]. cbv beta. intros a w1 [E _].
  eapply wlp_mono; [apply Hk |]. cbv beta. intros b w2. now rewrite E.
Qed.
Lemma follows_calm_last f {A B} (m : M W A) (k : A -> M W B) :
  follows f m -> (forall a, respects calm (k a)) -> follows f (m ≫= k).
Proof.
  intros Hm Hk w. apply wlp_bind. eapply wlp_mono; [apply Hm |]. cbv beta. intros a w1 H1.
  eapply wlp_mono; [apply Hk |]. cbv beta. intros b w2 [E Hf]. destruct H1 as [H1 | H1]; [left; auto | right; congruence].
Qed.
Lemma follows_calm {A} (m : M W A) : respects calm m -> follows (fun r => r) m.
Proof. intros Hm w. eapply wlp_mono; [apply Hm |]. cbv beta. intros a w' [E _]. now right. Qed.
Lemma follows_failure f g upd : g <> NoFailure -> follows f (set_failure g upd).
Proof. intros Hg w. apply wlp_modify. now left. Qed.
Lemma follows_stop f {A} : follows f (stop (A := A)).
Proof. intros w. exact Logic.I. Qed.

Lemma follows_thread dt : follows (tick CThread dt) (RefTime m_refTimeThread dt).
Proof. intros w. unfold RefTime. wlp_steps. now right. Qed.
Lemma follows_serial dt : follows (tick CSerial dt) (RefTime m_refTimeSerial dt).
Proof. intros w. unfold RefTime. wlp_steps. now right. Qed.
Lemma follows_ctx dt : follows (tick CCtx dt) (RefTime m_refTimeCtx dt).
Proof. intros w. unfold RefTime. wlp_steps. now right. Qed.
Lemma follows_gpu dt : follows (tick CGpu dt) (RefTime m_refTimeGpu dt).
Proof. intros w. unfold RefTime. wlp_steps. now right. Qed.
Create HintDb follows.
#[local] Hint Resolve follows_thread follows_serial follows_ctx follows_gpu follows_stop : follows.

Ltac follows_step :=
  lazymatch goal with
  | |- forall _, _ => intro
  | |- follows _ (set_failure _ _) => apply follows_failure; discriminate
  | |- follows _ (_ ≫= _) =>
      first [apply follows_calm_first; [solve [respects_auto] |] | apply follows_calm_last; [| solve [respects_auto]]]
  | |- follows _ (match ?x with _ => _ end) => destruct x
  | |- follows _ (let '_ := ?x in _) => destruct x
  | |- follows _ ?m => first [solve [auto with follows] | let h := head_of m in progress (unfold h; cbv beta zeta)]
  end.
Ltac follows_auto := repeat follows_step.

(** ** What an event does to the references *)

(** The difference in an item, as the server unpacks it. *)
Definition server_tick (type : QueueType.t) (item : list Z) : option (clock * Z) :=
  match type with
  | ZoneBegin | ZoneBeginCallstack => Some (CThread, unpack64 (MemRead QueueZoneBegin "time" item))
  | ZoneBegin32 | ZoneBeginCallstack32 =>
      Some (CThread, sint 64 (MemRead QueueZoneBegin32 "time" item + ProtocolOffset16Bit))
  | ZoneBegin16 | ZoneBeginCallstack16 => Some (CThread, MemRead QueueZoneBegin16 "time" item)
  | ZoneBeginAllocSrcLoc | ZoneBeginAllocSrcLocCallstack => Some (CThread, MemRead QueueZoneBeginLean "time" item)
  | ZoneEnd => Some (CThread, unpack64 (MemRead QueueZoneEnd "time" item))
  | ZoneEnd32 => Some (CThread, sint 64 (MemRead QueueZoneEnd32 "time" item + ProtocolOffset16Bit))
  | ZoneEnd16 => Some (CThread, MemRead QueueZoneEnd16 "time" item)
  | GpuZoneBegin | GpuZoneBeginCallstack => Some (CThread, MemRead QueueGpuZoneBegin "cpuTime" item)
  | GpuZoneBeginAllocSrcLoc | GpuZoneBeginAllocSrcLocCallstack =>
      Some (CThread, MemRead QueueGpuZoneBeginLean "cpuTime" item)
  | GpuZoneEnd => Some (CThread, MemRead QueueGpuZoneEnd "cpuTime" item)
  | PlotDataInt | PlotDataFloat | PlotDataDouble => Some (CThread, MemRead QueuePlotDataBase "time" item)
  | SectionEnter => Some (CThread, MemRead QueueSectionEnter "time" item)
  | SectionLeave => Some (CThread, MemRead QueueSectionLeave "time" item)
  | FiberEnter => Some (CThread, MemRead QueueFiberEnter "time" item)
  | FiberLeave => Some (CThread, MemRead QueueFiberLeave "time" item)
  | ContextSwitch => Some (CCtx, MemRead QueueContextSwitch "time" item)
  | ThreadWakeup => Some (CCtx, MemRead QueueThreadWakeup "time" item)
  | CallstackSample | CallstackSampleContextSwitch => Some (CCtx, unpack64 (MemRead QueueCallstackSample "time" item))
  | CallstackSample32 | CallstackSampleContextSwitch32 =>
      Some (CCtx, sint 64 (MemRead QueueCallstackSample32 "time" item + ProtocolOffset16Bit))
  | CallstackSample16 | CallstackSampleContextSwitch16 => Some (CCtx, MemRead QueueCallstackSample16 "time" item)
  | GpuTime => Some (CGpu, MemRead QueueGpuTime "gpuTime" item)
  | LockWait | LockSharedWait => Some (CSerial, MemRead QueueLockWait "time" item)
  | LockObtain | LockSharedObtain => Some (CSerial, MemRead QueueLockObtain "time" item)
  | LockRelease | LockSharedRelease => Some (CSerial, MemRead QueueLockRelease "time" item)
  | MemAlloc | MemAllocNamed | MemAllocCallstack | MemAllocCallstackNamed =>
      Some (CSerial, MemRead QueueMemAlloc "time" item)
  | MemFree | MemFreeNamed | MemFreeCallstack | MemFreeCallstackNamed => Some (CSerial, MemRead QueueMemFree "time" item)
  | GpuZoneBeginSerial | GpuZoneBeginCallstackSerial => Some (CSerial, MemRead QueueGpuZoneBegin "cpuTime" item)
  | GpuZoneBeginAllocSrcLocSerial | GpuZoneBeginAllocSrcLocCallstackSerial =>
      Some (CSerial, MemRead QueueGpuZoneBeginLean "cpuTime" item)
  | GpuZoneEndSerial => Some (CSerial, MemRead QueueGpuZoneEnd "cpuTime" item)
  | _ => None
  end.

(** The items that keep client and server in step: a value that is plotted must be a
    number, and the server drops a discard of a pool it does not know. *)
Definition in_step (type : QueueType.t) (item : list Z) : bool :=
  match type with
  | PlotDataFloat => isfinite (float_of_bits (MemRead QueuePlotDataFloat "val" item))
  | PlotDataDouble => isfinite (double_of_bits (MemRead QueuePlotDataDouble "val" item))
  | MemDiscard | MemDiscardCallstack => false
  | _ => true
  end.
Definition item_refs (type : QueueType.t) (item : list Z) (r : Refs) : Refs :=
  match type with
  | ThreadContext => r <| refThread := 0 |>
  | _ => match server_tick type item with Some (c, dt) => tick c dt r | None => r end
  end.

Section Server.
Context `{Slab} `{LockSlab} `{ServerMem.MapOrder} `{GpuSlab} `{FileSystem} `{SampleSort} `{Disassembler} `{TextureZstd}.

Lemma follows_ThreadContext th : follows (fun r => r <| refThread := 0 |>) (ProcessThreadContext th).
Proof.
  unfold ProcessThreadContext. apply follows_calm_last; [| respects_auto]. intros w. apply wlp_modify. now right.
Qed.
#[local] Hint Resolve follows_ThreadContext : follows.

Ltac switch_follows E Hs :=
  injection E as <-; unfold item_refs; cbn [server_tick in_step] in Hs |- *;
  lazymatch goal with
  | |- follows (fun r => r) _ => apply follows_calm; respects_auto
  | |- follows _ (ProcessPlotDataFloat _ _ _) => unfold ProcessPlotDataFloat; rewrite Hs; cbn [negb]; follows_auto
  | |- follows _ (ProcessPlotDataDouble _ _ _) => unfold ProcessPlotDataDouble; rewrite Hs; cbn [negb]; follows_auto
  | |- _ => follows_auto
  end.
Lemma follows_1 type item m : Process_switch_1 type item = Some m -> in_step type item = true -> follows (item_refs type item) m.
Proof. destruct type; cbn [Process_switch_1]; intros E Hs; try discriminate E; switch_follows E Hs. Qed.
Lemma follows_2 type item m : Process_switch_2 type item = Some m -> in_step type item = true -> follows (item_refs type item) m.
Proof. destruct type; cbn [Process_switch_2]; intros E Hs; try discriminate E; try discriminate Hs; switch_follows E Hs. Qed.
Lemma follows_3 type item m : Process_switch_3 type item = Some m -> in_step type item = true -> follows (item_refs type item) m.
Proof. destruct type; cbn [Process_switch_3]; intros E Hs; try discriminate E; switch_follows E Hs. Qed.

(** ** Events *)
Definition event_refs (e : event) (r : Refs) : Refs :=
  match e with
  | Fixed item => match QueueType.of_idx (MemReadHdr item) with Some type => item_refs type item r | None => r end
  | _ => r
  end.
Definition event_in_step (e : event) : bool :=
  match e with
  | Fixed item => match QueueType.of_idx (MemReadHdr item) with Some type => in_step type item | None => true end
  | _ => true
  end.
Lemma Process_follows item type :
  QueueType.of_idx (MemReadHdr item) = Some type -> in_step type item = true ->
  forall w, wlp (Process item) (fun ok w' => ok = true -> server_refs w' = item_refs type item (server_refs w)) w.
Proof.
  intros Et Hs w. unfold Process. rewrite Et. apply wlp_bind. apply wlp_expect. intros ? [= <-]. apply wlp_bind.
  assert (Hf : follows (item_refs type item) (match Process_switch_1 type item with
     | Some m => m
     | None => match Process_switch_2 type item with
       | Some m => m
       | None => match Process_switch_3 type item with Some m => m | None => stop end
       end
     end)).
  { destruct (Process_switch_1 type item) as [m |] eqn:E1; [now apply follows_1 |].
    destruct (Process_switch_2 type item) as [m |] eqn:E2; [now apply follows_2 |].
    destruct (Process_switch_3 type item) as [m |] eqn:E3; [now apply follows_3 | apply follows_stop]. }
  eapply wlp_mono; [apply Hf |]. cbv beta. intros _ w' Hw. apply wlp_bind, wlp_gets, wlp_ret.
  destruct (bool_decide_reflect (m_failure w' = NoFailure)) as [Ef | Ef]; [| done]. intros _. destruct Hw; done.
Qed.
Lemma calm_handle_event e : (forall item, e <> Fixed item) -> respects calm (handle_event e).
Proof.
  intros He. destruct e as [item | type ptr data | str | str]; [now destruct (He item) | | respects_auto | respects_auto].
  destruct type; cbn [handle_event is_long long_transfer transfer]; respects_auto.
Qed.
Lemma handle_event_follows e : event_in_step e = true ->
  forall w, wlp (handle_event e) (fun ok w' => ok = true -> server_refs w' = event_refs e (server_refs w)) w.
Proof.
  intros Hs w. destruct e as [item | type ptr data | str | str].
  2-4: eapply wlp_mono; [apply calm_handle_event; done |]; cbv beta; intros ok w' [E _] _; exact E.
  cbn [event_in_step event_refs] in *. destruct (QueueType.of_idx (MemReadHdr item)) as [type |] eqn:Et.
  - now apply Process_follows.
  - cbn [handle_event]. unfold Process. rewrite Et. exact Logic.I.
Qed.
End Server.

(** ** What the client sends *)
Lemma rd_take n o k m : (o + k <= n)%nat -> rd o k (take n m) = rd o k m.
Proof.
  intros Hn. unfold rd. f_equal. rewrite skipn_firstn_comm, firstn_firstn. f_equal. lia.
Qed.
Lemma MemRead_take l f o t n m :
  offset_of f l = Some (o, t) -> (sizeof_hdr + o + sizeof_type t <= n)%nat -> MemRead l f (take n m) = MemRead l f m.
Proof. intros E Hn. unfold MemRead. rewrite E, rd_take by lia. done. Qed.
Lemma MemReadHdr_take n m : (1 <= n)%nat -> MemReadHdr (take n m) = MemReadHdr m.
Proof. intros Hn. unfold MemReadHdr. now rewrite rd_take by (unfold sizeof_hdr; lia). Qed.

Lemma take_le_bytes k n v : (k <= n)%nat -> take k (le_bytes n v) = le_bytes k v.
Proof.
  revert n v. induction k as [| k IH]; intros n v Hk; [done |]. destruct n as [| n]; [lia |]. cbn. f_equal. apply IH. lia.
Qed.
Lemma rd_wr_narrow o k n v m : (k <= n)%nat -> (o + n <= length m)%nat -> rd o k (wr o n v m) = uint (8 * Z.of_nat k) v.
Proof.
  intros Hk Hm. unfold rd, wr. rewrite drop_app_length' by (rewrite length_take; lia).
  rewrite take_app_le by (rewrite length_le_bytes; lia). rewrite take_le_bytes by done. apply le_val_bytes.
Qed.
(** What the server reads of a member that the client wrote, at the same place but
    maybe of a smaller type. *)
Lemma read_back l f o t l' g t' v n m :
  offset_of f l = Some (o, t) -> offset_of g l' = Some (o, t') -> (sizeof_type t' <= sizeof_type t)%nat ->
  (sizeof_hdr + sizeof l <= length m)%nat -> (sizeof_hdr + o + sizeof_type t' <= n)%nat ->
  MemRead l' g (take n (MemWrite l f v m)) = cast t' v.
Proof.
  intros E E' Ht Hm Hn. pose proof (offset_of_bound _ _ _ _ E) as Hb. rewrite (MemRead_take _ _ _ _ _ _ E' Hn).
  unfold MemRead, MemWrite. rewrite E, E', rd_wr_narrow by lia. apply cast_uint.
Qed.

Lemma tick_rebase (c : clock) (t : Z) (r : Refs) : in_sint 64 t ->
  tick c (sint 64 (t - match c with CThread => refThread r | CSerial => refSerial r | CCtx => refCtx r | CGpu => refGpu r end)) r =
  match c with
  | CThread => r <| refThread := t |> | CSerial => r <| refSerial := t |>
  | CCtx => r <| refCtx := t |> | CGpu => r <| refGpu := t |>
  end.
Proof. intros Ht. destruct c; unfold tick, over; cbn; f_equal; rewrite sint_add_delta by lia; now apply sint_small. Qed.

(** The types of items that a program queues. *)
Definition queued_type (ty : QueueType.t) : bool :=
  match ty with
  | ThreadContext | ZoneBegin32 | ZoneBegin16 | ZoneBeginCallstack32 | ZoneBeginCallstack16 | ZoneEnd32 | ZoneEnd16
  | CallstackSample32 | CallstackSample16 | CallstackSampleContextSwitch32 | CallstackSampleContextSwitch16 => false
  | _ => true
  end.

Lemma MemRead_I64 l f o item : offset_of f l = Some (o, I64) -> in_sint 64 (MemRead l f item).
Proof. intros E. unfold MemRead. rewrite E. apply sint_range. lia. Qed.

Definition sent_refs (ty : QueueType.t) (r : Refs) (item : list Z) : Prop :=
  let '(r', item') := sent_item ty r item in
  exists ty', MemReadHdr item' = QueueType.idx ty' /\
    in_step ty' (take (QueueDataSize_at (QueueType.idx ty')) item') = true /\
    item_refs ty' (take (QueueDataSize_at (QueueType.idx ty')) item') r = r'.

(** A difference of 64 bits. *)
Lemma sent_rebased ty r item c l f o l' g (p : Refs -> Z) `{!FieldSet p} :
  item_ok ty item -> sent_item ty r item = rebase p l f r item ->
  (forall item, item_refs ty item r = tick c (MemRead l' g item) r) ->
  offset_of f l = Some (o, I64) -> offset_of g l' = Some (o, I64) -> (sizeof_hdr + sizeof l <= 32)%nat ->
  (sizeof_hdr + o + 8 <= QueueDataSize_at (QueueType.idx ty))%nat ->
  (forall t, in_sint 64 t -> tick c (sint 64 (t - p r)) r = r <| p := t |>) ->
  (forall dt, in_step ty (take (QueueDataSize_at (QueueType.idx ty)) (MemWrite l f dt item)) = true) ->
  sent_refs ty r item.
Proof.
  intros (Hh & Hlen & _ & _) Es Ei Ef Eg Hl Hn Ht Hs. unfold sent_refs. rewrite Es. unfold rebase. exists ty.
  rewrite QueueItemSize_32 in Hlen. split; [rewrite MemReadHdr_write by lia; exact Hh |]. split; [apply Hs |].
  rewrite Ei, (read_back l f o I64 l' g I64) by (done || lia). cbn [cast]. rewrite sint_sint by lia.
  apply Ht. now apply (MemRead_I64 _ _ o).
Qed.
Ltac rebased :=
  lazymatch goal with
  | |- sent_refs ?ty ?r ?item =>
      lazymatch eval cbn [sent_item] in (sent_item ty r item) with
      | @rebase ?p ?inst ?l ?f _ _ =>
          lazymatch eval cbn [item_refs server_tick] in (item_refs ty item r) with
          | tick ?c (MemRead ?l' ?g _) _ =>
              eapply (@sent_rebased ty r item c l f _ l' g p inst);
                [eassumption | reflexivity | reflexivity | reflexivity | reflexivity | vm_compute; lia | vm_compute; lia |
                 intros t Ht; exact (tick_rebase c t _ Ht) | intros dt]
          end
      end
  end.
(** An item without a time. *)
Lemma sent_untimed ty r item :
  item_ok ty item -> sent_item ty r item = (r, item) -> (forall item, item_refs ty item r = r) ->
  (forall item, in_step ty item = true) -> sent_refs ty r item.
Proof.
  intros (Hh & _) Es Ei Hs. unfold sent_refs. rewrite Es. exists ty. split; [exact Hh | split; [apply Hs | apply Ei]].
Qed.

(** A difference in as few bytes as it fits. *)
Lemma narrow_ok dt full t32 t16 : in_sint 64 dt ->
  let '(ty, d) := narrow dt full t32 t16 in
  ty = full /\ unpack64 (sint 64 d) = dt \/
  ty = t32 /\ sint 64 (uint 32 d + ProtocolOffset16Bit) = dt \/ ty = t16 /\ uint 16 d = dt.
Proof.
  unfold narrow, unpack64, ProtocolOffset16Bit, ProtocolOffset32Bit. intros [Hl Hh].
  destruct (Z.leb_spec 0 dt) as [H0 | H0].
  - destruct (Z.ltb_spec dt (2 ^ 16)); [right; right; split; [done | apply uint_small; red; lia] |].
    destruct (Z.ltb_spec dt (2 ^ 16 + 2 ^ 32)).
    + right. left. split; [done |]. rewrite (sint_small 64 (dt - 2 ^ 16)) by (lia || (red; lia)).
      rewrite uint_small by (red; lia). rewrite sint_small; [lia | lia | red; lia].
    + left. split; [done |]. rewrite sint_sint by lia. rewrite (sint_small 64 (dt - _)) by (lia || (red; lia)).
      rewrite (proj2 (Z.leb_le _ _)) by lia. rewrite sint_small; [lia | lia | red; lia].
  - left. split; [done |]. rewrite sint_small by (lia || (red; lia)). now rewrite (proj2 (Z.leb_gt _ _)) by lia.
Qed.
Lemma length_set_type ty item : (1 <= length item)%nat -> length (set_type ty item) = length item.
Proof. intros. now apply length_MemWriteHdr. Qed.
Lemma MemReadHdr_set_type ty item : (1 <= length item)%nat -> MemReadHdr (set_type ty item) = QueueType.idx ty.
Proof.
  intros. unfold set_type. rewrite MemReadHdr_writeHdr by done. apply uint_small. pose proof (QueueType.idx_range ty). split; [lia |].
  destruct ty; reflexivity.
Qed.

Lemma sent_ZoneEnd r item : item_ok ZoneEnd item -> sent_refs ZoneEnd r item.
Proof.
  intros (Hh & Hlen & _ & _). rewrite QueueItemSize_32 in Hlen. unfold sent_refs. cbn [sent_item]. unfold ZoneEnd_case.
  set (t := MemRead QueueZoneEnd "time" item). set (dt := sint 64 (t - refThread r)).
  assert (Ht : in_sint 64 t) by now apply (MemRead_I64 _ _ 0).
  pose proof (narrow_ok dt ZoneEnd ZoneEnd32 ZoneEnd16 ltac:(apply sint_range; lia)) as Hn.
  destruct (narrow dt ZoneEnd ZoneEnd32 ZoneEnd16) as [ty d].
  pose proof (length_set_type ty item ltac:(lia)) as Hl. pose proof (MemReadHdr_set_type ty item ltac:(lia)) as Hs.
  exists ty. destruct Hn as [[-> Hd] | [[-> Hd] | [-> Hd]]]; cbn [QueueType.eqb] in *.
  all: change (QueueType.eqb ZoneEnd ZoneEnd) with true; change (QueueType.eqb ZoneEnd32 ZoneEnd) with false;
    change (QueueType.eqb ZoneEnd16 ZoneEnd) with false; cbv iota.
  all: split; [rewrite MemReadHdr_write by (cbn; lia); assumption |]; split; [reflexivity |]; unfold item_refs; cbn [server_tick].
  - rewrite (read_back QueueZoneEnd "time" 0 I64 QueueZoneEnd "time" I64) by (done || (vm_compute; lia) || (cbn; lia)).
    cbn [cast]. rewrite Hd. exact (tick_rebase CThread t r Ht).
  - rewrite (read_back QueueZoneEnd "time" 0 I64 QueueZoneEnd32 "time" U32) by (done || (vm_compute; lia) || (cbn; lia)).
    cbn [cast sizeof_type]. change (8 * Z.of_nat 4) with 32. rewrite Hd. exact (tick_rebase CThread t r Ht).
  - rewrite (read_back QueueZoneEnd "time" 0 I64 QueueZoneEnd16 "time" U16) by (done || (vm_compute; lia) || (cbn; lia)).
    cbn [cast sizeof_type]. change (8 * Z.of_nat 2) with 16. rewrite Hd. exact (tick_rebase CThread t r Ht).
Qed.

Lemma sent_ZoneBegin ty r item :
  ty = ZoneBegin \/ ty = ZoneBeginCallstack -> item_ok ty item -> sent_refs ty r item.
Proof.
  intros Hty (Hh & Hlen & _ & _). rewrite QueueItemSize_32 in Hlen. unfold sent_refs.
  assert (sent_item ty r item = ZoneBegin_case ty r item) as -> by now destruct Hty as [-> | ->].
  unfold ZoneBegin_case. set (t := MemRead QueueZoneBegin "time" item). set (dt := sint 64 (t - refThread r)).
  assert (Ht : in_sint 64 t) by now apply (MemRead_I64 _ _ 0).
  match goal with |- context [narrow dt ty ?t32 ?t16] =>
    pose proof (narrow_ok dt ty t32 t16 ltac:(apply sint_range; lia)) as Hn; destruct (narrow dt ty t32 t16) as [ty' d] end.
  assert (Hlen' : (sizeof_hdr + sizeof QueueZoneBegin16 <= length (set_type ty' item))%nat
                  /\ (sizeof_hdr + sizeof QueueZoneBegin32 <= length (set_type ty' item))%nat)
    by (rewrite length_set_type by lia; cbn; lia).
  destruct Hlen' as [H16 H32].
  assert (Hs := MemReadHdr_set_type ty' item ltac:(lia)).
  destruct Hty as [-> | ->], Hn as [[-> Hd] | [[-> Hd] | [-> Hd]]];
    change (QueueType.eqb ZoneBegin ZoneBegin) with true in *; change (QueueType.eqb ZoneBeginCallstack ZoneBegin) with false in *;
    cbv iota in *; eexists; (split; [rewrite !MemReadHdr_write by (rewrite ?length_MemWrite by assumption; assumption || (cbn; lia)); eassumption |]); (split; [reflexivity |]);
    unfold item_refs; cbn [server_tick];
    lazymatch goal with
    | |- tick _ (unpack64 _) _ = _ =>
        rewrite (read_back QueueZoneBegin "time" 0 I64 QueueZoneBegin "time" I64) by (done || (vm_compute; lia) || (cbn; lia));
        cbn [cast]; rewrite Hd
    | |- tick _ (sint 64 _) _ = _ =>
        rewrite (MemRead_take QueueZoneBegin32 "time" 0 U32) by (done || (vm_compute; lia));
        rewrite MemRead_write_other by (done || (rewrite length_MemWrite by assumption; assumption));
        rewrite (MemRead_write_same _ _ 0 U32) by (done || assumption); cbn [cast sizeof_type]; change (8 * Z.of_nat 4) with 32;
        rewrite uint_uint by lia; rewrite Hd
    | |- _ =>
        rewrite (MemRead_take QueueZoneBegin16 "time" 0 U16) by (done || (vm_compute; lia));
        rewrite MemRead_write_other by (done || (rewrite length_MemWrite by assumption; assumption));
        rewrite (MemRead_write_same _ _ 0 U16) by (done || assumption); cbn [cast sizeof_type]; change (8 * Z.of_nat 2) with 16;
        rewrite uint_uint by lia; rewrite Hd
    end; exact (tick_rebase CThread t r Ht).
Qed.

Lemma sent_CallstackSample ty r item :
  ty = CallstackSample \/ ty = CallstackSampleContextSwitch -> item_ok ty item -> sent_refs ty r item.
Proof.
  intros Hty (Hh & Hlen & _ & _). rewrite QueueItemSize_32 in Hlen. unfold sent_refs.
  assert (sent_item ty r item = CallstackSample_case ty r item) as -> by now destruct Hty as [-> | ->].
  unfold CallstackSample_case. set (t := MemRead QueueCallstackSampleFat "time" item). set (dt := sint 64 (t - refCtx r)).
  assert (Ht : in_sint 64 t) by now apply (MemRead_I64 _ _ 4).
  match goal with |- context [narrow dt ty ?t32 ?t16] =>
    pose proof (narrow_ok dt ty t32 t16 ltac:(apply sint_range; lia)) as Hn; destruct (narrow dt ty t32 t16) as [ty' d] end.
  pose proof (length_set_type ty' item ltac:(rewrite Hlen; lia)) as Hl.
  pose proof (MemReadHdr_set_type ty' item ltac:(rewrite Hlen; lia)) as Hs.
  destruct Hty as [-> | ->], Hn as [[-> Hd] | [[-> Hd] | [-> Hd]]]; eexists;
    lazymatch goal with |- context [if ?b then _ else set_type _ _] => let v := eval vm_compute in b in change b with v end; cbv iota;
    (split; [rewrite MemReadHdr_write by (rewrite ?Hl, Hlen; vm_compute; lia); first [exact Hh | exact Hs] |]); (split; [reflexivity |]); unfold item_refs; cbn [server_tick];
    lazymatch goal with
    | |- tick _ (unpack64 _) _ = _ =>
        rewrite (read_back QueueCallstackSampleFat "time" 4 I64 QueueCallstackSample "time" I64) by (done || (vm_compute; lia) || (rewrite ?Hl, Hlen; vm_compute; lia));
        cbn [cast]; rewrite Hd
    | |- tick _ (sint 64 _) _ = _ =>
        rewrite (read_back QueueCallstackSampleFat "time" 4 I64 QueueCallstackSample32 "time" U32) by (done || (vm_compute; lia) || (rewrite ?Hl, Hlen; vm_compute; lia));
        cbn [cast sizeof_type]; change (8 * Z.of_nat 4) with 32; rewrite Hd
    | |- _ =>
        rewrite (read_back QueueCallstackSampleFat "time" 4 I64 QueueCallstackSample16 "time" U16) by (done || (vm_compute; lia) || (rewrite ?Hl, Hlen; vm_compute; lia));
        cbn [cast sizeof_type]; change (8 * Z.of_nat 2) with 16; rewrite Hd
    end; exact (tick_rebase CCtx t r Ht).
Qed.

(** The value of a plot is not touched. *)
Lemma plot_value l g dt item o t n :
  offset_of "time" QueuePlotDataInt = offset_of "time" l -> offset_of g l = Some (o, t) -> "time"%string <> g ->
  (sizeof_hdr + sizeof l <= length item)%nat -> (sizeof_hdr + o + sizeof_type t <= n)%nat ->
  MemRead l g (take n (MemWrite QueuePlotDataInt "time" dt item)) = MemRead l g item.
Proof.
  intros E Eg Hg Hl Hn. rewrite (MemRead_take _ _ _ _ _ _ Eg Hn).
  replace (MemWrite QueuePlotDataInt "time" dt item) with (MemWrite l "time" dt item) by (unfold MemWrite; now rewrite E).
  now apply MemRead_write_other.
Qed.

(** Every item: the server does to its references what the client did to its own. *)
Lemma sent_item_refs ty r item :
  item_ok ty item -> queued_type ty = true -> in_step ty item = true -> sent_refs ty r item.
Proof.
  intros Hi Hq Hs. assert (Hlen : length item = 32%nat) by (destruct Hi as (_ & -> & _); exact QueueItemSize_32).
  destruct ty; try discriminate Hq; try discriminate Hs;
    lazymatch goal with
    | |- sent_refs ZoneBegin _ _ => apply sent_ZoneBegin; auto
    | |- sent_refs ZoneBeginCallstack _ _ => apply sent_ZoneBegin; auto
    | |- sent_refs CallstackSample _ _ => apply sent_CallstackSample; auto
    | |- sent_refs CallstackSampleContextSwitch _ _ => apply sent_CallstackSample; auto
    | |- sent_refs ZoneEnd _ _ => now apply sent_ZoneEnd
    | |- sent_refs PlotDataFloat _ _ =>
        rebased; cbn [in_step] in *; erewrite plot_value; [exact Hs | reflexivity | reflexivity | done | rewrite Hlen; vm_compute; lia | vm_compute; lia]
    | |- sent_refs PlotDataDouble _ _ =>
        rebased; cbn [in_step] in *; erewrite plot_value; [exact Hs | reflexivity | reflexivity | done | rewrite Hlen; vm_compute; lia | vm_compute; lia]
    | |- _ => first [solve [rebased; reflexivity] | apply sent_untimed; [exact Hi | reflexivity | reflexivity | reflexivity]]
    end.
Qed.

(** ** What an item stands for *)
Section Client.
Context {P : Platform}.

(** An event without a time. *)
Definition quiet (e : event) : Prop := event_in_step e = true /\ forall r, event_refs e r = r.

Lemma wire_type ty item : MemReadHdr item = QueueType.idx ty -> length item = QueueItemSize ->
  QueueType.of_idx (MemReadHdr (wire (QueueType.idx ty) item)) = Some ty.
Proof.
  intros Hh Hl. unfold wire. rewrite MemReadHdr_take by (destruct ty; vm_compute; lia). rewrite Hh. apply QueueType.of_idx_idx.
Qed.
Lemma quiet_frames data n h : Forall quiet (frame_events data n h).
Proof.
  revert data. induction n as [| n IH]; intros data; cbn [frame_events]; [constructor |].
  apply Forall_app. split; [| apply IH]. repeat constructor.
  all: unfold event_in_step, event_refs; rewrite wire_type by
    (rewrite ?length_MemWrite, ?MemReadHdr_write by (rewrite ?length_MemWrite; vm_compute; lia); reflexivity); reflexivity.
Qed.
Lemma quiet_payload ty item h : item_ok ty item -> Forall quiet (payload ty item h).
Proof.
  intros (Hh & Hl & _). destruct ty; cbn [payload]; try (repeat constructor; fail).
  - repeat case_match; repeat constructor.
  - constructor; [repeat constructor |]. constructor; [| apply quiet_frames].
    unfold quiet, event_in_step, event_refs. now rewrite wire_type.
Qed.

(** The references after a sequence of events. *)
Definition replay (r : Refs) (es : list event) : Refs := foldl (fun r e => event_refs e r) r es.
Lemma replay_app r es es' : replay r (es ++ es') = replay (replay r es) es'.
Proof. apply foldl_app. Qed.
Lemma replay_quiet es r : Forall quiet es -> replay r es = r /\ Forall (fun e => event_in_step e = true) es.
Proof.
  induction 1 as [| e es [Hs Hr] _ IH]; [done |]. destruct IH as [IH1 IH2]. split; [| now constructor].
  cbn. rewrite Hr. exact IH1.
Qed.

(** An item that a program queues and that keeps the two sides in step. *)
Definition linked (item : list Z) : bool := queued_type (item_type item) && in_step (item_type item) item.

Lemma item_events_refs ty r item h : item_ok ty item -> queued_type ty = true -> in_step ty item = true ->
  replay r (item_events ty r item h) = (sent_item ty r item).1 /\ Forall (fun e => event_in_step e = true) (item_events ty r item h).
Proof.
  intros Hi Hq Hs. unfold item_events. destruct (replay_quiet _ r (quiet_payload ty item h Hi)) as [Ep Hp].
  rewrite replay_app, Ep. destruct (no_item ty) eqn:En.
  - rewrite no_item_refs by done. rewrite app_nil_r. now split.
  - pose proof (sent_item_refs ty r item Hi Hq Hs) as H. unfold sent_refs in H.
    destruct (sent_item_ok ty r item Hi) as [ty2 Hi2]. destruct (sent_item ty r item) as [r' item'].
    cbn [fst snd] in *. destruct H as (ty' & Hh & Hst & Hr).
    assert (Hw : QueueType.of_idx (MemReadHdr (wire (MemReadHdr item') item')) = Some ty')
      by (rewrite Hh; now apply wire_type; [| apply Hi2]).
    split; [| apply Forall_app; split; [done | constructor; [| done]]].
    + cbn [replay foldl]. unfold event_refs. rewrite Hw, Hh. exact Hr.
    + unfold event_in_step. rewrite Hw, Hh. exact Hst.
Qed.

Lemma run_items_refs queued items r h : items_ok queued items h -> Forall (fun i => linked i = true) items ->
  let '(r', es, _, _) := run_items r items h in
  replay r es = r' /\ Forall (fun e => event_in_step e = true) es.
Proof.
  revert r h. induction items as [| item items IH]; intros r h Hok Hl; cbn [run_items]; [done |].
  destruct Hok as ((Hi & _) & Hok). inversion_clear Hl as [| ? ? Hl1 Hl2]. apply andb_true_iff in Hl1 as [Hq Hs].
  specialize (IH (sent_item (item_type item) r item).1 _ Hok Hl2).
  destruct (run_items _ items _) as [[[r' es] fr] h']. destruct IH as [IH1 IH2].
  destruct (item_events_refs _ r item h Hi Hq Hs) as [E1 E2].
  rewrite replay_app, E1. split; [exact IH1 | now apply Forall_app].
Qed.

Lemma sent_thread ty r item : thread_type ty = true -> refSerial (sent_item ty r item).1 = refSerial r.
Proof.
  intros Ht. destruct ty; try discriminate Ht; try reflexivity; cbn [sent_item].
  all: unfold ZoneBegin_case, ZoneEnd_case, CallstackSample_case; destruct (narrow _ _ _ _) as [[] ?]; reflexivity.
Qed.
Lemma sent_serial ty r item : serial_type ty = true ->
  refThread (sent_item ty r item).1 = refThread r /\ refCtx (sent_item ty r item).1 = refCtx r.
Proof. intros Ht. destruct ty; try discriminate Ht; done. Qed.
Lemma run_thread items r h : items_ok thread_type items h -> refSerial (run_items r items h).1.1.1 = refSerial r.
Proof.
  revert r h. induction items as [| item items IH]; intros r h Hok; [done |]. destruct Hok as ((Hi & Ht & _) & Hok).
  cbn [run_items]. specialize (IH (sent_item (item_type item) r item).1 _ Hok).
  destruct (run_items _ items _) as [[[r' es] fr] h']. cbn in *. rewrite IH. now apply sent_thread.
Qed.
Lemma run_serial items r h : items_ok serial_type items h ->
  refThread (run_items r items h).1.1.1 = refThread r /\ refCtx (run_items r items h).1.1.1 = refCtx r.
Proof.
  revert r h. induction items as [| item items IH]; intros r h Hok; [done |]. destruct Hok as ((Hi & Ht & _) & Hok).
  cbn [run_items]. specialize (IH (sent_item (item_type item) r item).1 _ Hok).
  destruct (run_items _ items _) as [[[r' es] fr] h']. cbn in *. destruct (sent_serial _ r item Ht). intuition congruence.
Qed.

(** The heap after a sequence of items. *)
Definition items_heap (items : list (list Z)) (h : memory) : memory := foldl (fun h i => item_heap (item_type i) i h) h items.
Lemma run_items_heap r items h : (run_items r items h).2 = items_heap items h.
Proof.
  revert r h. induction items as [| item items IH]; intros r h; [done |]. cbn [run_items].
  specialize (IH (sent_item (item_type item) r item).1 (item_heap (item_type item) item h)).
  destruct (run_items _ items _) as [[[r' es] fr] h']. exact IH.
Qed.
Lemma items_ok_app queued items items' h :
  items_ok queued (items ++ items') h <-> items_ok queued items h /\ items_ok queued items' (items_heap items h).
Proof.
  revert h. induction items as [| item items IH]; intros h; [cbn; tauto |].
  cbn [app items_ok]. rewrite IH. cbn. tauto.
Qed.
Lemma items_heap_ok items h : memory_ok h -> memory_ok (items_heap items h).
Proof. revert h. induction items as [| item items IH]; intros h Hm; [done |]. apply IH. now apply item_heap_ok. Qed.
End Client.

(** ** Client and server *)
Definition client_refs (s : Profiler) : Refs :=
  mkRefs (Client.m_refTimeThread s) (Client.m_refTimeSerial s) (Client.m_refTimeCtx s) (Client.m_refTimeGpu s).

(** The bytes of [s], sent and pending, are events after which a server that starts
    with [r0] has the references of [s]. *)
Definition synced (m0 : memory) (r0 : Refs) (s : Profiler) : Prop :=
  exists es, logged m0 es [] s /\ Forall (fun e => event_in_step e = true) es /\ replay r0 es = client_refs s.

Section Sync.
Context {P : Platform} (m0 : memory) (r0 : Refs).

Lemma synced_step es new s s' :
  logged m0 (es ++ new) [] s' -> Forall (fun e => event_in_step e = true) es -> Forall (fun e => event_in_step e = true) new ->
  replay r0 es = client_refs s -> replay (client_refs s) new = client_refs s' -> synced m0 r0 s'.
Proof.
  intros Hl Hes Hnew E E'. exists (es ++ new). split; [done |]. split; [now apply Forall_app |]. now rewrite replay_app, E.
Qed.

Lemma ThreadCtxCheck_synced th s : synced m0 r0 s ->
  wp (ThreadCtxCheck th) (fun st s' => heap s' = heap s /\ (st <> CtxConnectionLost -> synced m0 r0 s')) s.
Proof.
  intros (es & Hl & Hes & E). unfold ThreadCtxCheck. wp_steps. destruct (Client.m_threadCtx s =? th).
  { apply wp_ret. split; [done |]. intros _. now exists es. }
  set (item := MemWrite _ _ _ _). assert (Hi : item_ok ThreadContext item).
  { apply item_ok_write; [vm_compute; lia |]. now apply local_ok. }
  apply wp_bind. eapply wp_mono; [apply (AppendData_spec m0 _ s (event_ok_wire _ _ Hi) es Hl) |].
  intros ok s' (Hl' & Hr). cbv beta. destruct ok; cbn [negb]; [| apply wp_ret; split; [apply Hr | congruence]].
  wp_steps. split; [apply Hr |]. intros _.
  assert (Hw : QueueType.of_idx (MemReadHdr (wire (QueueType.idx ThreadContext) item)) = Some ThreadContext)
    by (apply wire_type; apply Hi).
  eapply synced_step; [eapply logged_mono; [exact Hl' | reflexivity ..] | exact Hes | | exact E |].
  - constructor; [| done]. unfold event_in_step. now rewrite Hw.
  - cbn [replay foldl]. unfold event_refs. rewrite Hw. unfold item_refs, client_refs. cbn.
    destruct Hr as (_ & _ & Hs & Hc & Hg & _). now rewrite Hs, Hc, Hg.
Qed.

Lemma Dequeue_block_synced items s :
  items <> [] -> memory_ok (heap s) -> items_ok thread_type items (heap s) -> Forall (fun i => linked i = true) items ->
  synced m0 r0 s ->
  wp (Dequeue_block items) (fun ok s' => ok = true -> heap s' = items_heap items (heap s) /\ synced m0 r0 s') s.
Proof.
  intros Hne Hm Hok Hlk (es & Hl & Hes & E).
  eapply wp_mono; [now apply (Dequeue_block_wp m0 items es) |]. cbv zeta. fold (client_refs s). intros ok s1 (n & Hn) ->.
  pose proof (run_items_heap (client_refs s) (take n items) (heap s)) as Hheap.
  destruct (run_items (client_refs s) (take n items) (heap s)) as [[[r1 new] fr] h'] eqn:Er.
  destruct Hn as (H1 & Hh1 & _ & Ht & Hc & Hg & Hs & Hn). rewrite (Hn eq_refl) in *. cbn in Hheap.
  split; [congruence |].
  pose proof (run_items_refs thread_type items (client_refs s) (heap s) Hok Hlk) as Hrun.
  pose proof (run_thread items (client_refs s) (heap s) Hok) as Hser. rewrite Er in Hrun, Hser. destruct Hrun as [Hrep Hstep].
  eapply synced_step; [exact H1 | exact Hes | exact Hstep | exact E |].
  rewrite Hrep. cbn in Hser. unfold client_refs. rewrite Ht, Hc, Hg, Hs. destruct r1; cbn in *. congruence.
Qed.

Lemma Dequeue_blocks_synced blocks s :
  Forall (fun b => b <> []) blocks -> memory_ok (heap s) -> items_ok thread_type (mjoin blocks) (heap s) ->
  Forall (fun i => linked i = true) (mjoin blocks) -> synced m0 r0 s ->
  wp (Dequeue_blocks blocks) (fun ok s' => ok = true -> synced m0 r0 s') s.
Proof.
  revert s. induction blocks as [| items blocks IH]; intros s Hne Hm Hok Hlk Hs; cbn [Dequeue_blocks]; [now apply wp_ret |].
  inversion_clear Hne as [| ? ? Hne1 Hne2]. change (mjoin (items :: blocks)) with (items ++ mjoin blocks) in *.
  apply items_ok_app in Hok as [Hok1 Hok2]. apply Forall_app in Hlk as [Hlk1 Hlk2].
  apply wp_bind. eapply wp_mono; [now apply Dequeue_block_synced |]. cbv beta. intros [|] s1 H1; [| now apply wp_ret].
  destruct (H1 eq_refl) as [Hh Hs1]. apply IH; try done; rewrite Hh; [now apply items_heap_ok | done].
Qed.
End Sync.

(** ** The server on those bytes *)
Section Agreement.
Context `{Slab} `{LockSlab} `{ServerMem.MapOrder} `{GpuSlab} `{FileSystem} `{SampleSort} `{Disassembler} `{TextureZstd}.

Lemma dispatch_frame_replays fuel es :
  Forall event_ok es -> Forall (fun e => event_in_step e = true) es ->
  forall w, wlp (dispatch_frame fuel (mjoin (encode <$> es)))
    (fun r w' => r = None -> server_refs w' = replay (server_refs w) es) w.
Proof.
  revert fuel. induction es as [| e es IH]; intros fuel Hok Hes w; [destruct fuel; now apply wlp_ret |].
  inversion_clear Hok as [| ? ? He Hok']. inversion_clear Hes as [| ? ? Hs Hes'].
  change (mjoin (encode <$> e :: es)) with (encode e ++ mjoin (encode <$> es)).
  destruct (encode e ++ mjoin (encode <$> es)) as [| b bs] eqn:E.
  { apply app_eq_nil in E as [E _]. now destruct (encode_nonempty e He). }
  destruct fuel as [| fuel]; [exact Logic.I |]. cbn [dispatch_frame]. rewrite <- E. unfold DispatchProcess.
  apply wlp_bind, wlp_bind. apply wlp_expect. intros p. rewrite read_encode by done. intros [= <-].
  apply wlp_bind. cbn [fst snd]. eapply wlp_mono; [now apply handle_event_follows |]. cbv beta. intros ok w1 Hw.
  apply wlp_ret. cbn [fst snd]. destruct ok; [| now apply wlp_ret].
  unfold replay. cbn [foldl]. rewrite <- (Hw eq_refl). now apply IH.
Qed.

Lemma calm_send_queries : respects calm send_queries.
Proof. respects_auto. Qed.

Lemma Exec_loop_replays d gs :
  Forall event_ok (mjoin gs) -> Forall (fun e => event_in_step e = true) (mjoin gs) ->
  forall w, wlp (Exec_loop d (encode_frame <$> gs))
    (fun r w' => snd r = Waiting -> server_refs w' = replay (server_refs w) (mjoin gs)) w.
Proof.
  induction gs as [| g gs IH]; intros Hok Hes w; [now apply wlp_ret |].
  change (mjoin (g :: gs)) with (g ++ mjoin gs) in *. apply Forall_app in Hok as [Hok1 Hok2]. apply Forall_app in Hes as [Hes1 Hes2].
  cbn [fmap list_fmap Exec_loop]. apply wlp_bind. unfold Exec_turn. apply wlp_bind.
  eapply wlp_mono; [now apply dispatch_frame_replays |]. cbv beta. intros r w1 Hr.
  destruct r as [rest |]; [now apply wlp_ret, wlp_ret |].
  apply wlp_bind. eapply wlp_mono; [apply calm_send_queries |]. cbv beta. intros sent w2 [Es _].
  apply wlp_bind, wlp_gets, wlp_ret. destruct (_ && _); [now apply wlp_ret |].
  apply wlp_bind. eapply wlp_mono; [now apply IH |]. cbv beta. intros [sents e] w3 Hw. apply wlp_ret. cbn [snd] in *.
  intros He. rewrite (Hw He), replay_app, Es. now rewrite (Hr eq_refl).
Qed.

(** The main loop, on what the client sent and has yet to send. *)
Definition agrees (r0 : Refs) (s : Profiler) : Prop :=
  forall d w w' sents, server_refs w = r0 ->
    Exec_loop d (m_sent s ++ [pending s]) w = Some ((sents, Waiting), w') -> server_refs w' = client_refs s.

Lemma synced_agrees m0 r0 s : synced m0 r0 s -> agrees r0 s.
Proof.
  intros (es & [_ (gs & cur & Hg & Hp & -> & Hok)] & Hes & E) d w w' sents Hw.
  rewrite Hg, Hp, app_nil_r. intros Hrun.
  assert (Hj : mjoin (gs ++ [cur]) = mjoin gs ++ cur) by (rewrite join_app; cbn; now rewrite app_nil_r).
  pose proof (Exec_loop_replays d (gs ++ [cur])) as H'. rewrite Hj in H'. specialize (H' Hok Hes w).
  rewrite fmap_app in H'. cbn [fmap list_fmap] in H'. unfold wlp in H'. rewrite Hrun in H'.
  rewrite (H' eq_refl), Hw. exact E.
Qed.
End Agreement.

Section Claims.
Context `{Slab} `{LockSlab} `{ServerMem.MapOrder} `{GpuSlab} `{FileSystem} `{SampleSort} `{Disassembler} `{TextureZstd}.
Context {P : Platform}.

(** C2: the times of the server are those of the client.  When a client that is in
    step drains the queue of a thread, in any number of runs and with a change of
    thread, and the connection holds, it is in step again: whatever the state of a
    server that started with the same references, if its main loop takes all of the
    bytes that were sent and that are pending without a failure, then its four reference
    times are those of the client, so every absolute time it recorded is the one that
    was taken by the program.  The items must be those that programs queue, and the
    values that are plotted must be numbers. *)
Theorem Dequeue_in_sync (m0 : memory) (r0 : Refs) (thread : Z) (blocks : list (list (list Z))) (s : Profiler) :
  Forall (fun b => b <> []) blocks -> memory_ok (heap s) -> items_ok thread_type (mjoin blocks) (heap s) ->
  Forall (fun i => linked i = true) (mjoin blocks) -> synced m0 r0 s ->
  wp (Dequeue (Some (thread, blocks))) (fun status s' =>
    status = DataDequeued -> synced m0 r0 s' /\ agrees r0 s') s.
Proof.
  intros Hne Hm Hok Hlk Hs. unfold Dequeue. apply wp_bind.
  eapply wp_mono; [now apply (ThreadCtxCheck_synced m0 r0 thread) |]. cbv beta. intros st s1 [Hh H1'].
  destruct st; [| | now apply wp_ret].
  all: specialize (H1' ltac:(discriminate)); apply wp_bind; eapply wp_mono;
    [apply (Dequeue_blocks_synced m0 r0); rewrite ?Hh; done |]; cbv beta; intros ok s2 H2'; apply wp_ret; intros E;
    destruct ok; [| discriminate E]; specialize (H2' eq_refl); split; [done | now apply (synced_agrees m0)].
Qed.

(** The same holds when a client without fibers drains its serial queue, unless
    the program discards memory pools: of a pool the server does not know it skips the
    time of the discard. *)
Theorem DequeueSerial_in_sync (m0 : memory) (r0 : Refs) (s : Profiler) :
  TRACY_FIBERS = false -> m_serialDequeue s = [] -> m_serialQueue s <> [] ->
  memory_ok (heap s) -> items_ok serial_type (m_serialQueue s) (heap s) ->
  Forall (fun i => linked i = true) (m_serialQueue s) -> synced m0 r0 s ->
  wp DequeueSerial (fun status s' => status = DataDequeued -> synced m0 r0 s' /\ agrees r0 s') s.
Proof.
  intros Hf Hd Hq Hm Hok Hlk (es & Hl & Hes & E).
  eapply wp_mono; [now apply (DequeueSerial_wp m0 es) |]. cbv zeta. fold (client_refs s). intros status s1 (sent & Hn) ->.
  pose proof (run_items_refs serial_type _ (client_refs s) (heap s) Hok Hlk) as Hrun.
  pose proof (run_serial _ (client_refs s) (heap s) Hok) as Hser.
  destruct (run_items (client_refs s) _ (heap s)) as [[[r1 new] fr] h'].
  destruct Hn as (H1' & _ & _ & Hs & Hg & Ht & Hc & _ & _ & [[_ ->] | [=]]). destruct Hrun as [Hrep Hstep].
  assert (Hsync : synced m0 r0 s1).
  { eapply synced_step; [exact H1' | exact Hes | exact Hstep | exact E |].
    rewrite Hrep. cbn in Hser. destruct Hser. unfold client_refs. rewrite Ht, Hc, Hg, Hs. destruct r1; cbn in *. congruence. }
  split; [exact Hsync | now apply (synced_agrees m0)].
Qed.
End Claims.

(** A client that has sent nothing, and the servers with its reference times. *)
#[local] Existing Instance demo_platform.
Lemma demo_synced queue : synced (fun _ => 0) (mkRefs 0 0 0 0) (demo_profiler queue).
Proof. exists []. split; [apply demo_logged | split; [constructor | reflexivity]]. Qed.

Lemma demo_blocks_ok :
  items_ok (P := demo_platform) thread_type (mjoin [demo_items]) (heap (demo_profiler [])).
Proof. vm_compute. repeat split; first [discriminate | reflexivity]. Qed.
Lemma demo_serial_queue_ok :
  items_ok (P := demo_platform) serial_type (m_serialQueue (demo_profiler demo_serial)) (heap (demo_profiler demo_serial)).
Proof. vm_compute. repeat split; first [discriminate | reflexivity]. Qed.

Lemma Dequeue_in_sync_witness :
  wp (Dequeue (P := demo_platform) (Some (7, [demo_items]))) (fun status s' =>
    status = DataDequeued -> synced (fun _ => 0) (mkRefs 0 0 0 0) s' /\ agrees (mkRefs 0 0 0 0) s') (demo_profiler []).
Proof.
  apply (Dequeue_in_sync (P := demo_platform) (fun _ => 0) (mkRefs 0 0 0 0) 7 [demo_items] (demo_profiler [])).
  - repeat constructor. discriminate.
  - apply demo_heap_ok.
  - exact demo_blocks_ok.
  - repeat constructor.
  - apply demo_synced.
Defined.

Lemma DequeueSerial_in_sync_witness :
  wp (DequeueSerial (P := demo_platform)) (fun status s' =>
    status = DataDequeued -> synced (fun _ => 0) (mkRefs 0 0 0 0) s' /\ agrees (mkRefs 0 0 0 0) s') (demo_profiler demo_serial).
Proof.
  apply (DequeueSerial_in_sync (P := demo_platform) (fun _ => 0) (mkRefs 0 0 0 0) (demo_profiler demo_serial)).
  - reflexivity.
  - reflexivity.
  - discriminate.
  - apply demo_heap_ok.
  - exact demo_serial_queue_ok.
  - repeat constructor.
  - apply demo_synced.
Defined.
