(* ===== verification/ClientQuery.v ===== *)
(** * The client answers the queries of the server

    The thread of the profiler reads the packets that the server sends and answers them,
    at once or, where a symbol or a source file has to be found, by a job for the thread
    that resolves symbols, which puts its answer in the lock-free queue.  A string that
    the server sends itself (the name of a source file) comes in packets of twelve bytes
    that are put together here. *)
From S2P Require Import Prelude Queue Wire Client Dequeue Event Server.
Import QueueType(t(..)).

(** ** Jobs *)
Module SymbolQueueItemType.
(* TracyProfiler.hpp:217-224 SymbolQueueItemType *)
Inductive t : Set := CallstackFrame | SymbolQuery | ExternalName | KernelCode | SourceCode.
End SymbolQueueItemType.
(* TracyProfiler.hpp:226-232 SymbolQueueItem *)
Record SymbolQueueItem := mkSymbolQueueItem { si_type : SymbolQueueItemType.t; si_ptr : Z; si_extra : Z; si_id : Z }.

(* TracyCallstack.hpp:67-74 CallstackEntry *)
Record CallstackEntry := mkCallstackEntry { ce_name : Z; ce_file : Z; ce_line : Z; ce_symLen : Z; ce_symAddr : Z }.
Definition entry_bytes (e : CallstackEntry) : list Z :=
  le_bytes 8 (ce_name e) ++ le_bytes 8 (ce_file e) ++ le_bytes 4 (ce_line e) ++ le_bytes 4 (ce_symLen e) ++
  le_bytes 8 (ce_symAddr e).
(* TracyCallstack.hpp:59-65 CallstackSymbolData *)
Record CallstackSymbolData := mkCallstackSymbolData { cd_file : Z; cd_line : Z; cd_needFree : bool }.
(* TracySystem.hpp:17-23 ThreadNameData *)
Record ThreadNameData := mkThreadNameData { tn_id : Z; tn_groupHint : Z; tn_name : Z }.

(** What [fstat] and [fread] give for a source file. *)
Record SourceFile := mkSourceFile { st_mtime : Z; st_size : Z; file_bytes : list Z }.

(** ** What is not the code of the client: the allocator, the operating system, the
    resolver of symbols (which allocates the strings it returns), the callbacks of the
    program. *)
Class Environment := {
  tracy_malloc : nat -> Z -> Z;                 (* of the n-th allocation, for a size *)
  m_mainThread : Z;
  ThreadNames : list ThreadNameData;
  system_thread_name : Z -> Z;                  (* GetThreadName of a thread without a name *)
  m_exectime : Z;
  m_safeSendBuffer : Z;
  copy_fails : Z -> Z -> bool;                  (* whether memory cannot be read *)
  EnsureReadable : Z -> bool;
  external_process : bool;                      (* ___tracy_magic_pid_override *)
  DecodeCallstackPtr : Z -> memory -> memory * (list CallstackEntry * Z);
  DecodeSymbolAddress : Z -> memory -> memory * CallstackSymbolData;
  SysTraceGetExternalName : Z -> memory -> memory * (Z * Z);
  kcore_Retrieve : Z -> Z -> memory -> memory * Z;
  source_file : list Z -> option (option SourceFile);   (* fopen, fstat *)
  m_sourceCallback : option (list Z -> memory -> memory * (Z * Z));
  has_paramCallback : bool
}.

(** ** The state *)
Record Session := mkSession {
  prof : Profiler;
  m_symbolQueue : list SymbolQueueItem;
  m_queryImage : Z; m_queryData : Z; m_queryDataPtr : Z;
  lfq : list (list Z);          (* the items these threads queued that were not dequeued *)
  allocations : nat;
  params : list (Z * Z)         (* the calls of the callback for parameters *)
}.
#[export] Instance eta_Session : Eta Session := fun r =>
  mkSession (prof r) (m_symbolQueue r) (m_queryImage r) (m_queryData r) (m_queryDataPtr r) (lfq r) (allocations r) (params r).

(** What is done to the send buffer and the memory. *)
Definition on_prof {A} (m : M Profiler A) : M Session A := fun c =>
  match m (prof c) with Some (a, p) => Some (a, c <| prof := p |>) | None => None end.

Section Queries.
Context {P : Platform} {E : Environment}.

Definition malloc (size : Z) : M Session Z :=
  n ← gets allocations; modify (fun c => c <| allocations := S n |>);; mret (tracy_malloc n size).
Definition store (dst : Z) (data : list Z) : M Session unit :=
  modify (fun c => c <| prof ::= (fun p => p <| heap ::= memcpy dst data |>) |>).
(** A call of the environment that may allocate. *)
Definition call {A} (f : memory -> memory * A) : M Session A :=
  h ← gets (fun c => heap (prof c));
  let '(h, a) := f h in
  modify (fun c => c <| prof ::= (fun p => p <| heap := h |>) |>);; mret a.
(** [TracyLfqPrepare] to [TracyLfqCommit]. *)
Definition commit (item : list Z) : M Session unit := modify (fun c => c <| lfq ::= (fun l => l ++ [item]) |>).
Definition add_job (si : SymbolQueueItem) : M Session unit :=
  modify (fun c => c <| m_symbolQueue ::= (fun l => l ++ [si]) |>).

(* TracyProfiler.cpp:770-776 *)
Definition AckServerQuery : M Profiler unit :=
  let item := QueueItem_local AckServerQueryNoop in
  let data := wire (QueueType.idx AckServerQueryNoop) item in
  NeedDataSize (Z.of_nat (length data));; AppendDataUnsafe data.
(* TracyProfiler.cpp:778-784 *)
Definition Ack_SymbolCodeNotAvailable : M Profiler unit :=
  let item := QueueItem_local AckSymbolCodeNotAvailable in
  let data := wire (QueueType.idx AckSymbolCodeNotAvailable) item in
  NeedDataSize (Z.of_nat (length data));; AppendDataUnsafe data.

(** [SendString] and [SendSingleString] of a literal. *)
Definition SendString_literal (str : Z) (data : list Z) (ty : QueueType.t) : M Profiler unit :=
  let item := MemWrite QueueStringTransfer "ptr" str (QueueItem_local ty) in
  append_block (wire (QueueType.idx ty) item) (le_bytes 2 (Z.of_nat (length data))) data.
Definition SendSingleString_literal (data : list Z) : M Profiler unit :=
  let item := QueueItem_local SingleStringData8 in
  append_block (wire (QueueType.idx SingleStringData8) item) (le_bytes 1 (Z.of_nat (length data))) data.
Definition literal (s : string) : list Z := Z.of_nat <$> (Ascii.nat_of_ascii <$> String.list_ascii_of_string s).

(** ** Answers that a job finds *)
(* TracyProfiler.cpp:3687-3694 *)
Definition Queue_CallstackFrame (ptr : Z) : M Session unit :=
  if TRACY_HAS_CALLSTACK then add_job (mkSymbolQueueItem SymbolQueueItemType.CallstackFrame ptr 0 0)
  else on_prof AckServerQuery.
(** The top bit of an address of the kernel is set. *)
(* TracyProfiler.cpp:3696-3716 *)
Definition QueueSymbolQuery (symbol : Z) : M Session unit :=
  if TRACY_HAS_CALLSTACK then
    if negb (Z.shiftr symbol 63 =? 0) then
      on_prof (SendSingleString_literal (literal "<kernel>");;
        let item := QueueItem_local SymbolInformation in
        let item := MemWrite QueueSymbolInformation "line" 0 item in
        let item := MemWrite QueueSymbolInformation "symAddr" symbol item in
        _ ← AppendData (wire (QueueType.idx SymbolInformation) item); mret tt)
    else add_job (mkSymbolQueueItem SymbolQueueItemType.SymbolQuery symbol 0 0)
  else on_prof AckServerQuery.
(* TracyProfiler.cpp:3718-3723 *)
Definition QueueExternalName (ptr : Z) : M Session unit :=
  when TRACY_HAS_SYSTEM_TRACING (add_job (mkSymbolQueueItem SymbolQueueItemType.ExternalName ptr 0 0)).
(* TracyProfiler.cpp:3725-3733 *)
Definition QueueKernelCode (symbol size : Z) : M Session unit :=
  assert_ (negb (Z.shiftr symbol 63 =? 0));;
  if TRACY_HAS_CALLSTACK then add_job (mkSymbolQueueItem SymbolQueueItemType.KernelCode symbol size 0)
  else on_prof Ack_SymbolCodeNotAvailable.
(* TracyProfiler.cpp:3735-3742 *)
Definition QueueSourceCodeQuery (id : Z) : M Session unit :=
  assert_ (negb (m_exectime =? 0));;
  data ← gets m_queryData; image ← gets m_queryImage;
  assert_ (negb (data =? 0));;
  add_job (mkSymbolQueueItem SymbolQueueItemType.SourceCode data image id);;
  modify (fun c => c <| m_queryData := 0 |> <| m_queryImage := 0 |>).

(** ** Answers that are there *)
(* TracyProfiler.cpp:4408-4415 *)
Definition HandleParameter (payload : Z) : M Session unit :=
  assert_ has_paramCallback;;
  let idx := uint 32 (Z.shiftr payload 32) in
  let val := sint 32 (Z.land payload 0xFFFFFFFF) in
  modify (fun c => c <| params ::= (fun l => l ++ [(idx, val)]) |>);;
  on_prof AckServerQuery.

(* TracyProfiler.cpp:1510-1510 *)
Definition SafeSendBufferSize : Z := 65536.
(** The copy, or the null pointer when the memory cannot be read. *)
(* TracyProfiler.cpp:3404-3455 *)
Definition SafeCopyProlog (data size : Z) : M Session Z :=
  buf ← (if SafeSendBufferSize <? size then malloc size else mret m_safeSendBuffer);
  if copy_fails data size then
    on_prof (when (negb (buf =? m_safeSendBuffer)) (tracy_free_fast buf));; mret 0
  else
    bytes ← on_prof (heap_bytes data size); store buf bytes;; mret buf.
(* TracyProfiler.cpp:3457-3464 *)
Definition SafeCopyEpilog (buf : Z) : M Profiler unit := when (negb (buf =? m_safeSendBuffer)) (tracy_free_fast buf).
(* TracyProfiler.hpp:1014-1024 *)
Definition WithSafeCopy (p size : Z) (callable : Z -> Z -> M Profiler unit) : M Session bool :=
  buf ← SafeCopyProlog p size;
  if buf =? 0 then mret false else on_prof (callable buf size;; SafeCopyEpilog buf);; mret true.
(* TracyProfiler.cpp:4417-4441 *)
Definition HandleSymbolCodeQuery (symbol size : Z) : M Session unit :=
  if external_process then on_prof Ack_SymbolCodeNotAvailable else
  if negb (Z.shiftr symbol 63 =? 0) then QueueKernelCode symbol size else
  ok ← WithSafeCopy symbol size (fun buf size => SendLongString symbol buf size SymbolCode);
  if ok : bool then mret tt else on_prof Ack_SymbolCodeNotAvailable.

(** The name that the program gave a thread, newest first. *)
(* TracySystem.cpp:227-239 *)
Definition GetThreadNameData (id : Z) : option ThreadNameData := List.find (fun t => tn_id t =? id) ThreadNames.

Definition item_of (ty : QueueType.t) (l : layout) (fields : list (string * Z)) : list Z :=
  foldl (fun item f => MemWrite l f.1 f.2 item) (QueueItem_local ty) fields.

(* TracyProfiler.cpp:3918-3943 HandleServerQuery *)
Definition answer_thread_name (ptr : Z) : M Session unit :=
  if ptr =? m_mainThread then on_prof (SendString_literal ptr (literal "Main thread") ThreadName) else
  match GetThreadNameData (uint 32 ptr) with
  | Some t =>
      on_prof (SendString_z ptr (tn_name t) ThreadName);;
      when (negb (tn_groupHint t =? 0))
        (commit (item_of ThreadGroupHint QueueThreadGroupHint [("thread", uint 32 ptr); ("groupHint", tn_groupHint t)]))
  | None => on_prof (SendString_z ptr (system_thread_name (uint 32 ptr)) ThreadName)
  end.

(** The start of a string of the server; a string that was there is the image. *)
(* TracyProfiler.cpp:3978-3986 HandleServerQuery *)
Definition begin_transfer (size : Z) : M Session unit :=
  data ← gets m_queryData; image ← gets m_queryImage;
  (if negb (data =? 0) then assert_ (image =? 0);; modify (fun c => c <| m_queryImage := data |>) else mret tt);;
  p ← malloc (uint 64 (size + 11));
  modify (fun c => c <| m_queryData := p |> <| m_queryDataPtr := p |>);;
  on_prof AckServerQuery.
(* TracyProfiler.cpp:3987-3992 HandleServerQuery *)
Definition transfer_part (ptr extra : Z) : M Session unit :=
  p ← gets m_queryDataPtr;
  store p (le_bytes 8 ptr);; store (p + 8) (le_bytes 4 extra);;
  modify (fun c => c <| m_queryDataPtr := p + 12 |>);;
  on_prof AckServerQuery.

(** Whether the connection goes on; a packet that asks to disconnect is left to the
    caller, as [HandleDisconnect]. *)
Inductive reply : Set := Served | Stopped | Disconnect.
(* TracyProfiler.cpp:3902-4003 *)
Definition HandleServerQuery (payload : ServerQueryPacket) : M Session reply :=
  let ptr := q_ptr payload in
  match q_type payload with
  | ServerQueryString => on_prof (SendString_z ptr ptr StringData);; mret Served
  | ServerQueryThreadString => answer_thread_name ptr;; mret Served
  | ServerQuerySourceLocation => on_prof (SendSourceLocation ptr);; mret Served
  | ServerQueryPlotName => on_prof (SendString_z ptr ptr PlotName);; mret Served
  | ServerQueryTerminate => mret Stopped
  | ServerQueryCallstackFrame => Queue_CallstackFrame ptr;; mret Served
  | ServerQueryFrameName => on_prof (SendString_z ptr ptr FrameName);; mret Served
  | ServerQueryDisconnect => mret Disconnect
  | ServerQueryExternalName =>
      assert_ TRACY_HAS_SYSTEM_TRACING;; QueueExternalName ptr;; mret Served
  | ServerQueryParameter => HandleParameter ptr;; mret Served
  | ServerQuerySymbol => QueueSymbolQuery ptr;; mret Served
  | ServerQuerySymbolCode => HandleSymbolCodeQuery ptr (q_extra payload);; mret Served
  | ServerQuerySourceCode => QueueSourceCodeQuery (uint 32 ptr);; mret Served
  | ServerQueryDataTransfer => begin_transfer ptr;; mret Served
  | ServerQueryDataTransferPart => transfer_part ptr (q_extra payload);; mret Served
  | ServerQueryFiberName => assert_ TRACY_FIBERS;; on_prof (SendString_z ptr ptr FiberName);; mret Served
  end.

(** ** The thread that resolves symbols *)

(** The contents of a source file: from the disk, if the file is older than the program,
    or from the program. *)
(* TracyProfiler.cpp:4443-4545 *)
Definition HandleSourceCodeQuery (data image id : Z) : M Session unit :=
  name ← (h ← gets (fun c => heap (prof c)); o ← expect (strlen strlen_fuel data h); mret (slice h data (Z.to_nat o)));
  let found ptr size := commit (item_of SourceCodeMetadata QueueSourceCodeMetadata [("ptr", ptr); ("size", uint 32 size); ("id", id)]) in
  ok ← match source_file name with
    | Some (Some f) =>
        if (uint 64 (st_mtime f) <? m_exectime) && (st_size f <? TargetFrameSize - 16) then
          ptr ← malloc (st_size f);
          store ptr (file_bytes f);;
          if Z.of_nat (length (file_bytes f)) =? st_size f then found ptr (st_size f);; mret true
          else on_prof (tracy_free_fast ptr);; mret false
        else mret false
    | _ => mret false
    end;
  ok ← match m_sourceCallback with
    | Some f =>
        if ok : bool then mret true else
        '(ptr, sz) ← call (f name);
        if ptr =? 0 then mret false
        else if sz <? TargetFrameSize - 16 then found ptr sz;; mret true
        else on_prof (tracy_free_fast ptr);; mret false
    | None => mret ok
    end;
  when (negb ok) (commit (item_of AckSourceCodeNotAvailable QueueSourceCodeNotAvailable [("id", id)]));;
  on_prof (tracy_free_fast data;; tracy_free_fast image).

(* TracyProfiler.cpp:3745-3842 *)
Definition HandleSymbolQueueItem (si : SymbolQueueItem) : M Session unit :=
  match si_type si with
  | SymbolQueueItemType.CallstackFrame =>
      '(entries, imageName) ← call (DecodeCallstackPtr (si_ptr si));
      let size := Z.of_nat (length entries) in
      data ← malloc (32 * size);
      store data (mjoin (entry_bytes <$> entries));;
      commit (item_of CallstackFrameSize QueueCallstackFrameSizeFat
        [("ptr", si_ptr si); ("size", size); ("data", data); ("imageName", imageName)])
  | SymbolQueueItemType.SymbolQuery =>
      if negb (EnsureReadable (si_ptr si)) then commit (QueueItem_local AckServerQueryNoop) else
      sym ← call (DecodeSymbolAddress (si_ptr si));
      commit (item_of SymbolInformation QueueSymbolInformationFat
        [("line", cd_line sym); ("symAddr", si_ptr si); ("fileString", cd_file sym);
         ("needFree", if cd_needFree sym then 1 else 0)])
  | SymbolQueueItemType.ExternalName =>
      assert_ TRACY_HAS_SYSTEM_TRACING;;
      '(threadName, name) ← call (SysTraceGetExternalName (si_ptr si));
      commit (item_of ExternalNameMetadata QueueExternalNameMetadata
        [("thread", si_ptr si); ("name", name); ("threadName", threadName)])
  | SymbolQueueItemType.KernelCode =>
      data ← call (kcore_Retrieve (si_ptr si) (si_extra si));
      if negb (data =? 0) then
        commit (item_of SymbolCodeMetadata QueueSymbolCodeMetadata
          [("symbol", si_ptr si); ("ptr", data); ("size", uint 32 (si_extra si))])
      else commit (QueueItem_local AckSymbolCodeNotAvailable)
  | SymbolQueueItemType.SourceCode => HandleSourceCodeQuery (si_ptr si) (si_extra si) (si_id si)
  end.

(** ** The rounds of the thread of the profiler *)

(** The packets that have arrived. *)
(* TracyProfiler.cpp:2130-2135 Worker *)
Fixpoint serve (packets : list ServerQueryPacket) : M Session reply :=
  match packets with
  | [] => mret Served
  | q :: packets => r ← HandleServerQuery q; match r with Served => serve packets | _ => mret r end
  end.
(** The jobs, at shutdown. *)
(* TracyProfiler.cpp:2270-2278 Worker *)
Definition resolve_symbols : M Session unit :=
  jobs ← gets m_symbolQueue;
  for_each jobs (fun si => HandleSymbolQueueItem si;; modify (fun c => c <| m_symbolQueue ::= tail |>)).
(** What the two threads put in the queue is sent. *)
(* TracyProfiler.cpp:2279-2279 Worker *)
Definition drain_queue (thread : Z) : M Session DequeueStatus :=
  items ← gets lfq;
  status ← on_prof (Dequeue (match items with [] => None | _ => Some (thread, [items]) end));
  modify (fun c => c <| lfq := [] |>);;
  mret status.
(** A round of the end of the connection; the result is whether the connection goes on. *)
(* TracyProfiler.cpp:2260-2294 Worker *)
Definition last_round (thread : Z) (packets : list ServerQueryPacket) : M Session bool :=
  r ← serve packets;
  match r with
  | Served =>
      when TRACY_HAS_CALLSTACK resolve_symbols;;
      status ← drain_queue thread;
      serial ← on_prof DequeueSerial;
      if (match status, serial with ConnectionLost, _ | _, ConnectionLost => true | _, _ => false end) then mret false else
      p ← gets prof;
      if negb (m_bufferOffset p =? m_bufferStart p) then on_prof CommitData else mret true
  | _ => mret false
  end.
End Queries.
