(* ===== verification/AnswerSpec.v ===== *)
(** * Every query is answered once

    The client answers a query with one event that the server counts, at once or through
    a job and the lock-free queue: the answers that were sent and those that are owed
    always add up to the queries that were read.  The strings that the server sends in
    pieces are put together as they were. *)
From S2P Require Import Prelude Queue Wire Client Dequeue DequeueSpec Event Containers Trace Server ServerCallstack Dispatch Respect QuerySpec Link ClientQuery.
Import QueueType(t(..)).

(** ** Answers among the events of an item *)
Definition count_answers (es : list event) : nat := length (List.filter is_answer es).
Lemma count_answers_app es es' : count_answers (es ++ es') = (count_answers es + count_answers es')%nat.
Proof. unfold count_answers. now rewrite List.filter_app, length_app. Qed.

(** The types of items that answer a query. *)
Definition queue_answer (ty : QueueType.t) : bool :=
  match ty with
  | CallstackFrameSize | SymbolInformation | SymbolCodeMetadata | ExternalNameMetadata | SourceCodeMetadata
  | SourceLocation | AckServerQueryNoop | AckSourceCodeNotAvailable | AckSymbolCodeNotAvailable => true
  | _ => false
  end.
Definition answer_weight (item : list Z) : nat := if queue_answer (item_type item) then 1 else 0.

Section Items.
Context {P : Platform}.

Lemma count_frames data n h : count_answers (frame_events data n h) = O.
Proof.
  revert data. induction n as [| n IH]; intros data; [done |]. cbn [frame_events]. rewrite count_answers_app, IH.
  unfold count_answers. cbn [List.filter is_answer]. rewrite wire_type by
    (rewrite ?length_MemWrite, ?MemReadHdr_write by (rewrite ?length_MemWrite; vm_compute; lia); reflexivity).
  reflexivity.
Qed.
Lemma count_payload ty item h : item_ok ty item ->
  count_answers (payload ty item h) =
    match ty with CallstackFrameSize | SymbolCodeMetadata | ExternalNameMetadata | SourceCodeMetadata => 1 | _ => 0 end%nat.
Proof.
  intros (Hh & Hl & _). destruct ty; cbn [payload]; try reflexivity.
  - now repeat case_match.
  - unfold count_answers. cbn [List.filter is_answer]. rewrite wire_type by done. cbn [length].
    f_equal. apply count_frames.
Qed.

#[local] Hint Extern 1 (sizeof _ <= 31)%nat => vm_compute; lia : item_ok.
#[local] Hint Extern 1 (_ = false) => reflexivity : item_ok.
#[local] Hint Resolve item_ok_write item_ok_set : item_ok.

Ltac narrow_cases :=
  lazymatch goal with |- context [narrow ?dt ?a ?b ?c] =>
    pose proof (narrow_type dt a b c) as Hn; destruct (narrow dt a b c) as [ty' d]; cbn [fst] in Hn; exists ty';
    destruct Hn as [-> | [-> | ->]]; cbn -[MemWrite MemRead set_type]; split; eauto 6 with item_ok
  end.
(** The narrow types are no answers either. *)
Lemma sent_answer ty r item : item_ok ty item ->
  exists ty', item_ok ty' (sent_item ty r item).2 /\ answer_type ty' = answer_type ty.
Proof.
  intros Hi. destruct ty; cbn [sent_item];
    lazymatch goal with
    | |- context [rebase _ _ _ _ _] => unfold rebase; cbn [snd]; eexists; (split; [eapply item_ok_write; [vm_compute; lia | exact Hi] | reflexivity])
    | |- context [ZoneBegin_case] => unfold ZoneBegin_case; narrow_cases
    | |- context [ZoneEnd_case] => unfold ZoneEnd_case; narrow_cases
    | |- context [CallstackSample_case] => unfold CallstackSample_case; narrow_cases
    | |- _ => eexists; split; [exact Hi | reflexivity]
    end.
Qed.

Lemma item_events_answers ty r item h : item_ok ty item ->
  count_answers (item_events ty r item h) = if queue_answer ty then 1%nat else 0%nat.
Proof.
  intros Hi. unfold item_events. rewrite count_answers_app, count_payload by done.
  destruct (sent_answer ty r item Hi) as (ty' & Hi' & Ht).
  assert (Hw : QueueType.of_idx (MemReadHdr (wire (MemReadHdr (sent_item ty r item).2) (sent_item ty r item).2)) = Some ty').
  { rewrite (proj1 Hi'). apply wire_type; apply Hi'. }
  assert (Hc : count_answers [Fixed (wire (MemReadHdr (sent_item ty r item).2) (sent_item ty r item).2)] = if answer_type ty then 1%nat else 0%nat).
  { unfold count_answers. cbn [List.filter is_answer]. rewrite Hw, <- Ht. now destruct ty'. }
  destruct ty; cbn [no_item queue_answer]; cbv zeta; rewrite ?Hc; reflexivity.
Qed.

Lemma run_items_answers queued items r h : items_ok queued items h ->
  count_answers (run_items r items h).1.1.2 = list_sum (answer_weight <$> items).
Proof.
  revert r h. induction items as [| item items IH]; intros r h Hok; [done |]. destruct Hok as ((Hi & _) & Hok).
  cbn [run_items]. specialize (IH (sent_item (item_type item) r item).1 _ Hok).
  destruct (run_items _ items _) as [[[r' es] fr] h']. cbn [fst snd] in IH |- *.
  rewrite count_answers_app, IH, item_events_answers by done. reflexivity.
Qed.
End Items.

(** ** What is owed *)
Definition owed (c : Session) : nat := (length (m_symbolQueue c) + list_sum (answer_weight <$> lfq c))%nat.

(** Of [n] queries that were read, those that are not answered are owed, and what waits
    in the queue can be sent. *)
Definition balanced {P : Platform} (m0 : memory) (n : nat) (c : Session) : Prop :=
  exists es, logged m0 es [] (prof c) /\ (count_answers es + owed c)%nat = n /\
    Forall (fun item => item_ok (item_type item) item /\ thread_type (item_type item) = true) (lfq c).

Section Queries.
Context {P : Platform} {E : Environment} (m0 : memory).

(** [m] succeeds, and settles or takes on [d] queries. *)
Definition settles {A} (d : nat) (R : A -> Prop) (m : M Session A) (c : Session) : Prop :=
  forall n, balanced m0 n c -> wp m (fun a c' => R a /\ balanced m0 (n + d) c') c.

Lemma settles_ret {A} (a : A) (R : A -> Prop) c : R a -> settles 0 R (mret a) c.
Proof. intros Ha n Hn. apply wp_ret. now rewrite Nat.add_0_r. Qed.
Lemma settles_bind {A B} d d' (R : A -> Prop) (R' : B -> Prop) (m : M Session A) (k : A -> M Session B) c :
  settles d R m c -> (forall a c', R a -> settles d' R' (k a) c') -> settles (d + d') R' (m ≫= k) c.
Proof.
  intros Hm Hk n Hn. apply wp_bind. eapply wp_mono; [exact (Hm n Hn) |]. cbv beta. intros a c' [Ha Hc].
  eapply wp_mono; [exact (Hk a c' Ha _ Hc) |]. cbv beta. intros b c2. now rewrite Nat.add_assoc.
Qed.
Lemma settles_then {A} d (m : M Session unit) (a : A) (R : A -> Prop) c :
  R a -> settles d (fun _ => True) m c -> settles d R (m;; mret a) c.
Proof.
  intros Ha Hm. replace d with (d + 0)%nat by lia. eapply settles_bind; [exact Hm |]. intros. now apply settles_ret.
Qed.

Lemma wp_on_prof {A} (m : M Profiler A) (Q : A -> Session -> Prop) c :
  wp m (fun a p => Q a (c <| prof := p |>)) (prof c) -> wp (on_prof m) Q c.
Proof. unfold wp, on_prof. destruct (m (prof c)) as [[a p] |]; done. Qed.

(** Events that are sent. *)
Lemma settles_sends {A} new (m : M Profiler A) c :
  sends m0 new m (prof c) -> settles (count_answers new) (fun _ => True) (on_prof m) c.
Proof.
  intros Hm n (es & Hl & En & Hq). apply wp_on_prof. eapply wp_mono; [exact (Hm es Hl) |]. cbv beta. intros a p (Hl' & _).
  split; [done |]. exists (es ++ new). split; [exact Hl' |]. split; [| exact Hq]. rewrite count_answers_app.
  change (owed (c <| prof := p |>)) with (owed c). lia.
Qed.
(** What touches only the memory. *)
Lemma settles_quiet {A} (m : M Session A) c :
  wp m (fun _ c' => m_symbolQueue c' = m_symbolQueue c /\ lfq c' = lfq c /\
    forall es, logged m0 es [] (prof c) -> logged m0 es [] (prof c')) c -> settles 0 (fun _ => True) m c.
Proof.
  intros Hm n (es & Hl & En & Hq). eapply wp_mono; [exact Hm |]. cbv beta. intros a c' (E1 & E2 & Hl').
  split; [done |]. exists es. unfold owed. rewrite E1, E2. split; [now apply Hl' |]. split; [unfold owed in En; lia | exact Hq].
Qed.
Lemma settles_job si c : settles 1 (fun _ => True) (add_job si) c.
Proof.
  intros n (es & Hl & En & Hq). apply wp_modify. split; [done |]. exists es. split; [exact Hl |]. split; [| exact Hq].
  unfold owed in *. cbn [m_symbolQueue lfq over]. change (m_symbolQueue (c <| m_symbolQueue ::= (fun l => l ++ [si]) |>)) with (m_symbolQueue c ++ [si]).
  rewrite length_app. cbn [length]. change (lfq (c <| m_symbolQueue ::= (fun l => l ++ [si]) |>)) with (lfq c). lia.
Qed.
Lemma settles_commit ty item c : item_ok ty item -> thread_type ty = true ->
  settles (if queue_answer ty then 1 else 0) (fun _ => True) (commit item) c.
Proof.
  intros Hi Ht n (es & Hl & En & Hq). apply wp_modify. split; [done |]. exists es. split; [exact Hl |].
  pose proof (item_type_ok ty item Hi) as Ety. split.
  - change (count_answers es + (length (m_symbolQueue c) + list_sum (answer_weight <$> (lfq c ++ [item]))) = n + (if queue_answer ty then 1 else 0))%nat.
    rewrite fmap_app, list_sum_app. change (list_sum (answer_weight <$> [item])) with (answer_weight item + 0)%nat.
    unfold answer_weight at 2. rewrite Ety. unfold owed in En. lia.
  - cbn. apply Forall_app. split; [exact Hq |]. constructor; [| done]. now rewrite Ety.
Qed.

Lemma item_of_ok ty l fields : is_transfer ty = false -> is_string ty = false -> (sizeof l <= 31)%nat -> item_ok ty (item_of ty l fields).
Proof.
  intros H1 H2 Hl. unfold item_of. assert (Hi : item_ok ty (QueueItem_local ty)) by now apply local_ok.
  revert Hi. generalize (QueueItem_local ty). induction fields as [| f fields IH]; intros item Hi; [done |].
  cbn [foldl]. apply IH. now apply item_ok_write.
Qed.

Lemma ack_sends data s : event_ok (Fixed data) ->
  sends m0 [Fixed data] (NeedDataSize (Z.of_nat (length data));; AppendDataUnsafe data) s.
Proof.
  intros Hok es H. pose proof (AppendData_spec m0 data s Hok es H) as Hw. unfold AppendData in Hw. apply wp_unbind in Hw.
  apply wp_bind. eapply wp_mono; [exact Hw |]. cbv beta. intros ret s1 H1. apply wp_unbind in H1.
  eapply wp_mono; [exact H1 |]. cbv beta. intros _ s2 H2. exact H2.
Qed.
Lemma local_event_ok ty : is_transfer ty = false -> is_string ty = false -> event_ok (Fixed (wire (QueueType.idx ty) (QueueItem_local ty))).
Proof. intros H1 H2. apply event_ok_wire. now apply local_ok. Qed.
Lemma settles_ack c : settles 1 (fun _ => True) (on_prof AckServerQuery) c.
Proof. exact (settles_sends _ _ c (ack_sends _ (prof c) (local_event_ok AckServerQueryNoop eq_refl eq_refl))). Qed.
Lemma settles_ack_code c : settles 1 (fun _ => True) (on_prof Ack_SymbolCodeNotAvailable) c.
Proof. exact (settles_sends _ _ c (ack_sends _ (prof c) (local_event_ok AckSymbolCodeNotAvailable eq_refl eq_refl))). Qed.

(** A transfer that is an answer. *)
Lemma settles_string ty str ptr c :
  is_string_type ty = true -> is_answer (Transfer ty str []) = true -> in_uint 64 str -> cstring_ok (heap (prof c)) ptr ->
  settles 1 (fun _ => True) (on_prof (SendString_z str ptr ty)) c.
Proof.
  intros Ht Ha Hs Hp. pose proof (settles_sends _ _ c (SendString_z_spec m0 str ptr ty (prof c) Ht Hs Hp)) as H.
  replace (count_answers _) with 1%nat in H; [exact H |]. unfold count_answers. destruct ty; try discriminate Ha; reflexivity.
Qed.
Lemma settles_main_thread str c : in_uint 64 str ->
  settles 1 (fun _ => True) (on_prof (SendString_literal str (literal "Main thread") ThreadName)) c.
Proof.
  intros Hs. change 1%nat with (count_answers [Transfer ThreadName str (literal "Main thread")]). apply settles_sends.
  unfold SendString_literal. apply append_block_spec.
  - split; [reflexivity |]. split; [exact Hs |]. reflexivity.
  - unfold fits, encode, len. rewrite length_cons, !length_app, !length_le_bytes. vm_compute. discriminate.
  - rewrite wire_transfer by done. reflexivity.
Qed.
Lemma settles_kernel symbol c :
  settles 1 (fun _ => True) (on_prof (SendSingleString_literal (literal "<kernel>");;
        let item := QueueItem_local SymbolInformation in
        let item := MemWrite QueueSymbolInformation "line" 0 item in
        let item := MemWrite QueueSymbolInformation "symAddr" symbol item in
        _ ← AppendData (wire (QueueType.idx SymbolInformation) item); mret tt)) c.
Proof.
  cbv zeta. set (item := MemWrite _ "symAddr" _ _).
  assert (Hi : item_ok SymbolInformation item) by (repeat (apply item_ok_write; [vm_compute; lia |]); now apply local_ok).
  pose proof (wire_type _ _ (proj1 Hi) (proj1 (proj2 Hi))) as Hw.
  assert (Ec : count_answers [Single (literal "<kernel>"); Fixed (wire (QueueType.idx SymbolInformation) item)] = 1%nat)
    by (unfold count_answers; cbn [List.filter is_answer]; now rewrite Hw).
  rewrite <- Ec. apply settles_sends. intros es H. apply wp_bind. eapply wp_mono.
  - unfold SendSingleString_literal. eapply (append_block_spec m0 _ _ _ (Single (literal "<kernel>"))); [reflexivity | vm_compute; discriminate | reflexivity | exact H].
  - cbv beta zeta. fold item. intros _ s1 (H1 & Hr1). apply wp_bind. eapply wp_mono; [exact (AppendData_spec m0 _ s1 (event_ok_wire _ _ Hi) _ H1) |].
    cbv beta. intros ok s2 (H2 & Hr2). apply wp_ret. rewrite <- app_assoc in H2. split; [exact H2 | etrans; eauto].
Qed.
Lemma settles_source_location ptr c : settles 1 (fun _ => True) (on_prof (SendSourceLocation ptr)) c.
Proof.
  intros n Hn. apply wp_on_prof. unfold SendSourceLocation. apply wp_bind, wp_gets. cbv zeta.
  set (item := MemWrite _ "r" _ _).
  assert (Hi : item_ok SourceLocation item) by (repeat (apply item_ok_write; [vm_compute; lia |]); now apply local_ok).
  pose proof (wire_type _ _ (proj1 Hi) (proj1 (proj2 Hi))) as Hw.
  destruct Hn as (es & Hl & En & Hq). apply wp_bind.
  eapply wp_mono; [exact (AppendData_spec m0 _ _ (event_ok_wire _ _ Hi) es Hl) |]. cbv beta. intros ok p (Hl' & _). apply wp_ret.
  split; [done |]. eexists. split; [exact Hl' |]. split; [| exact Hq]. rewrite count_answers_app.
  replace (count_answers [_]) with 1%nat by (unfold count_answers; cbn [List.filter is_answer]; now rewrite Hw).
  change (owed (c <| prof := p |>)) with (owed c). lia.
Qed.

(** What a query needs: the string it asks for is there, the memory it asks for fits a
    frame, a string of the server was sent before its use. *)
Definition query_ok (q : ServerQueryPacket) (c : Session) : Prop :=
  let ptr := q_ptr q in let h := heap (prof c) in
  in_uint 64 ptr /\
  match q_type q with
  | ServerQueryString | ServerQueryPlotName | ServerQueryFrameName => cstring_ok h ptr
  | ServerQueryFiberName => TRACY_FIBERS = true /\ cstring_ok h ptr
  | ServerQueryThreadString =>
      ptr = m_mainThread \/
      cstring_ok h (match GetThreadNameData (uint 32 ptr) with Some t => tn_name t | None => system_thread_name (uint 32 ptr) end)
  | ServerQueryExternalName => TRACY_HAS_SYSTEM_TRACING = true
  | ServerQueryParameter => has_paramCallback = true
  | ServerQuerySymbolCode => 0 <= q_extra q /\ 9 + 4 + q_extra q <= TargetFrameSize
  | ServerQuerySourceCode => m_exectime <> 0 /\ m_queryData c <> 0
  | ServerQueryDataTransfer => m_queryData c = 0 \/ m_queryImage c = 0
  | ServerQueryTerminate | ServerQueryDisconnect => False
  | _ => True
  end.

Lemma settles_later {A B} d (R : B -> Prop) (m : M Session A) (k : A -> M Session B) c :
  settles 0 (fun _ => True) m c -> (forall a c', settles d R (k a) c') -> settles d R (m ≫= k) c.
Proof. intros Hm Hk. change d with (0 + d)%nat. eapply settles_bind; [exact Hm |]. auto. Qed.
Lemma settles_gets {A B} d (R : B -> Prop) (f : Session -> A) (k : A -> M Session B) c :
  settles d R (k (f c)) c -> settles d R (gets f ≫= k) c.
Proof. intros Hk n Hn. apply wp_bind, wp_gets. now apply Hk. Qed.
Lemma settles_assert {A} d (R : A -> Prop) (b : bool) (k : unit -> M Session A) c :
  b = true -> settles d R (k tt) c -> settles d R (assert_ b ≫= k) c.
Proof. intros -> Hk n Hn. apply wp_bind. apply wp_assert; [done |]. now apply Hk. Qed.
Lemma settles_modify f c : (forall c, m_symbolQueue (f c) = m_symbolQueue c /\ lfq (f c) = lfq c /\ m_buffer (prof (f c)) = m_buffer (prof c) /\
    m_bufferStart (prof (f c)) = m_bufferStart (prof c) /\ m_bufferOffset (prof (f c)) = m_bufferOffset (prof c) /\
    m_sent (prof (f c)) = m_sent (prof c)) ->
  settles 0 (fun _ => True) (modify f) c.
Proof.
  intros Hf. apply settles_quiet. apply wp_modify. destruct (Hf c) as (E1 & E2 & E3 & E4 & E5 & E6).
  split; [done |]. split; [done |]. intros es Hl. eapply logged_mono; eassumption.
Qed.
Lemma settles_malloc size c : settles 0 (fun _ => True) (malloc size) c.
Proof. apply settles_quiet. unfold malloc. apply wp_bind, wp_gets. apply wp_bind, wp_modify. now apply wp_ret. Qed.
Lemma settles_store dst data c : settles 0 (fun _ => True) (store dst data) c.
Proof. apply settles_modify. done. Qed.
Lemma settles_free_when (b : bool) p c : settles 0 (fun _ => True) (on_prof (when b (tracy_free_fast p))) c.
Proof.
  apply settles_quiet. apply wp_on_prof. destruct b; [apply wp_modify | apply wp_ret]; (split; [done |]; split; [done |]); intros es Hl; [| exact Hl].
  eapply logged_mono; [exact Hl | reflexivity ..].
Qed.
Lemma settles_copy data size c : settles 0 (fun _ => True) (SafeCopyProlog data size) c.
Proof.
  unfold SafeCopyProlog. apply settles_later; [destruct (_ <? _); [apply settles_malloc | now apply settles_ret] |]. intros buf c1.
  destruct (copy_fails data size); [apply settles_later; [apply settles_free_when |]; intros _ c2; now apply settles_ret |].
  apply settles_later; [apply settles_quiet, wp_on_prof; unfold heap_bytes; now apply wp_gets |]. intros bytes c2.
  apply settles_later; [apply settles_store |]. intros _ c3. now apply settles_ret.
Qed.
Lemma settles_code symbol buf size c : in_uint 64 symbol -> 0 <= size -> 9 + 4 + size <= TargetFrameSize ->
  settles 1 (fun _ => True) (on_prof (SendLongString symbol buf size SymbolCode;; SafeCopyEpilog buf)) c.
Proof.
  intros Hs H0 Hf n Hn. apply wp_on_prof, wp_bind.
  pose proof (settles_sends _ _ c (SendLongString_spec m0 symbol buf size SymbolCode (prof c) eq_refl Hs H0 Hf) n Hn) as Hw.
  change (count_answers _) with 1%nat in Hw. unfold wp, on_prof in Hw. unfold wp.
  destruct (SendLongString _ _ _ _ (prof c)) as [[u p] |]; [| done]. destruct Hw as [_ Hw].
  pose proof (settles_free_when (negb (buf =? m_safeSendBuffer)) buf (c <| prof := p |>) _ Hw) as H2.
  rewrite Nat.add_0_r in H2. unfold wp, on_prof in H2. cbn [prof] in H2. unfold SafeCopyEpilog.
  change (prof (c <| prof := p |>)) with p in H2. destruct (when _ _ p) as [[v p'] |]; [| done]. exact H2.
Qed.
Lemma settles_symbol_code symbol size c : in_uint 64 symbol -> 0 <= size -> 9 + 4 + size <= TargetFrameSize ->
  settles 1 (fun _ => True) (HandleSymbolCodeQuery symbol size) c.
Proof.
  intros Hs H0 Hf. unfold HandleSymbolCodeQuery. destruct external_process; [apply settles_ack_code |].
  destruct (negb (Z.shiftr symbol 63 =? 0)) eqn:Ek.
  - unfold QueueKernelCode. apply settles_assert; [exact Ek |]. destruct TRACY_HAS_CALLSTACK; [apply settles_job | apply settles_ack_code].
  - unfold WithSafeCopy. intros n Hn. apply wp_bind, wp_bind. eapply wp_mono; [exact (settles_copy symbol size c n Hn) |].
    cbv beta. intros buf c1 [_ H1]. rewrite Nat.add_0_r in H1. destruct (buf =? 0).
    + apply wp_ret. now apply settles_ack_code.
    + apply wp_bind. eapply wp_mono; [exact (settles_code symbol buf size c1 Hs H0 Hf n H1) |]. cbv beta. intros _ c2 H2.
      apply wp_ret. now apply wp_ret.
Qed.

(** Every query: it is answered, or it is owed. *)
Lemma HandleServerQuery_settles q c : query_ok q c -> settles 1 (fun r => r = Served) (HandleServerQuery q) c.
Proof.
  intros [Hp Hq]. unfold HandleServerQuery. destruct (q_type q); try contradiction; try (apply settles_then; [reflexivity |]).
  - now apply settles_string.
  - unfold answer_thread_name. destruct (Z.eqb_spec (q_ptr q) m_mainThread) as [Hm | Hm]; [now apply settles_main_thread |].
    destruct Hq as [Hq | Hq]; [done |]. destruct (GetThreadNameData _) as [t |]; [| now apply settles_string].
    change 1%nat with (1 + 0)%nat. eapply settles_bind; [now apply settles_string |]. intros _ c' _.
    destruct (negb _); [| now apply settles_ret]. apply (settles_commit ThreadGroupHint); [| reflexivity].
    apply item_of_ok; try reflexivity. vm_compute. lia.
  - apply settles_source_location.
  - now apply settles_string.
  - now apply settles_string.
  - unfold HandleParameter. apply settles_assert; [exact Hq |]. apply settles_later; [now apply settles_modify |]. intros _ c'. apply settles_ack.
  - destruct Hq as [Hf Hq]. apply settles_assert; [exact Hf |]. apply settles_then; [reflexivity |]. now apply settles_string.
  - apply settles_assert; [exact Hq |]. apply settles_then; [reflexivity |]. unfold QueueExternalName. rewrite Hq. apply settles_job.
  - unfold Queue_CallstackFrame. destruct TRACY_HAS_CALLSTACK; [apply settles_job | apply settles_ack].
  - unfold QueueSymbolQuery. destruct TRACY_HAS_CALLSTACK; [| apply settles_ack]. destruct (negb _); [apply settles_kernel | apply settles_job].
  - now apply settles_symbol_code.
  - destruct Hq as [Hx Hd]. unfold QueueSourceCodeQuery. apply settles_assert; [now apply negb_true_iff, Z.eqb_neq |].
    apply settles_gets, settles_gets. apply settles_assert; [now apply negb_true_iff, Z.eqb_neq |].
    change 1%nat with (1 + 0)%nat. eapply settles_bind; [apply settles_job |]. intros _ c' _. now apply settles_modify.
  - unfold begin_transfer. apply settles_gets, settles_gets. apply settles_later.
    { destruct (Z.eqb_spec (m_queryData c) 0) as [E0 | E0]; cbn [negb]; [now apply settles_ret |].
      destruct Hq as [Hq | Hq]; [done |]. apply settles_assert; [now apply Z.eqb_eq |]. now apply settles_modify. }
    intros _ c1. apply settles_later; [apply settles_malloc |]. intros p c2. apply settles_later; [now apply settles_modify |].
    intros _ c3. apply settles_ack.
  - unfold transfer_part. apply settles_gets. apply settles_later; [apply settles_store |]. intros _ c1.
    apply settles_later; [apply settles_store |]. intros _ c2. apply settles_later; [now apply settles_modify |]. intros _ c3. apply settles_ack.
Qed.

(** ** Jobs *)
Definition job_ok (si : SymbolQueueItem) (c : Session) : Prop :=
  TRACY_HAS_CALLSTACK = true /\
  match si_type si with
  | SymbolQueueItemType.ExternalName => TRACY_HAS_SYSTEM_TRACING = true
  | SymbolQueueItemType.SourceCode => cstring_ok (heap (prof c)) (si_ptr si)
  | _ => True
  end.

Lemma settles_call {A} (f : memory -> memory * A) c : settles 0 (fun _ => True) (call f) c.
Proof.
  apply settles_quiet. unfold call. apply wp_bind, wp_gets. destruct (f (heap (prof c))) as [h a]. apply wp_bind, wp_modify, wp_ret.
  split; [done |]. split; [done |]. intros es Hl. eapply logged_mono; [exact Hl | reflexivity ..].
Qed.
Lemma settles_free p c : settles 0 (fun _ => True) (on_prof (tracy_free_fast p)) c.
Proof. exact (settles_free_when true p c). Qed.
(** An answer goes to the queue. *)
Lemma settles_answer ty l fields c : is_transfer ty = false -> is_string ty = false -> (sizeof l <= 31)%nat ->
  thread_type ty = true -> queue_answer ty = true -> settles 1 (fun _ => True) (commit (item_of ty l fields)) c.
Proof.
  intros H1 H2 H3 H4 H5. pose proof (settles_commit ty (item_of ty l fields) c (item_of_ok ty l fields H1 H2 H3) H4) as H. now rewrite H5 in H.
Qed.

(** The file is found, or not: one of the two is told. *)
Definition told (ok : bool) : nat := if ok then 1 else 0.
Definition tells (m : M Session bool) (c : Session) : Prop :=
  forall n, balanced m0 n c -> wp m (fun ok c' => balanced m0 (n + told ok) c') c.
Lemma tells_ret c : tells (mret false) c.
Proof. intros n Hn. apply wp_ret. now rewrite Nat.add_0_r. Qed.
Lemma tells_found ptr size id c :
  tells (commit (item_of SourceCodeMetadata QueueSourceCodeMetadata [("ptr"%string, ptr); ("size"%string, size); ("id"%string, id)]);; mret true) c.
Proof.
  intros n Hn. apply wp_bind. eapply wp_mono; [refine (settles_answer SourceCodeMetadata _ _ c _ _ _ _ _ n Hn); try reflexivity; vm_compute; lia |].
  cbv beta. intros _ c' [_ H]. now apply wp_ret.
Qed.
Lemma tells_later {A} (m : M Session A) (k : A -> M Session bool) c :
  settles 0 (fun _ => True) m c -> (forall a c', tells (k a) c') -> tells (m ≫= k) c.
Proof.
  intros Hm Hk n Hn. apply wp_bind. eapply wp_mono; [exact (Hm n Hn) |]. cbv beta. intros a c' [_ H]. rewrite Nat.add_0_r in H. now apply Hk.
Qed.

Lemma settles_source_code data image id c : cstring_ok (heap (prof c)) data ->
  settles 1 (fun _ => True) (HandleSourceCodeQuery data image id) c.
Proof.
  intros [o Ho] n Hn. unfold HandleSourceCodeQuery. apply wp_bind, wp_bind, wp_gets. apply wp_bind. eapply wp_expect; [exact Ho |].
  apply wp_ret. set (name := slice _ _ _). cbv zeta.
  apply wp_bind. eapply wp_mono with (Q := fun ok c' => balanced m0 (n + told ok) c').
  { refine ((_ : tells _ c) n Hn). destruct (source_file name) as [[f |] |]; [| apply tells_ret ..].
    destruct (_ && _); [| apply tells_ret]. apply tells_later; [apply settles_malloc |]. intros p c1.
    apply tells_later; [apply settles_store |]. intros _ c2. destruct (_ =? _); [apply tells_found |].
    apply tells_later; [apply settles_free |]. intros _ c3. apply tells_ret. }
  intros ok c1 H1. apply wp_bind. eapply wp_mono with (Q := fun ok c' => balanced m0 (n + told ok) c').
  { destruct m_sourceCallback as [f |]; [| now apply wp_ret]. destruct ok; [now apply wp_ret |].
    cbn [told] in H1. rewrite Nat.add_0_r in H1. refine ((_ : tells _ c1) n H1). apply tells_later; [apply settles_call |].
    intros [ptr sz] c2. destruct (ptr =? 0); [apply tells_ret |]. destruct (_ <? _); [apply tells_found |].
    apply tells_later; [apply settles_free |]. intros _ c3. apply tells_ret. }
  intros ok2 c2 H2. apply wp_bind. eapply wp_mono with (Q := fun _ c' => balanced m0 (n + 1) c').
  { destruct ok2; [now apply wp_ret |]. cbn [told] in H2. rewrite Nat.add_0_r in H2.
    eapply wp_mono; [refine (settles_answer AckSourceCodeNotAvailable _ _ c2 _ _ _ _ _ n H2); try reflexivity; vm_compute; lia |].
    cbv beta. intros _ c' [_ H]. exact H. }
  intros _ c3 H3. assert (Hf : settles 0 (fun _ => True) (on_prof (tracy_free_fast data;; tracy_free_fast image)) c3).
  { apply settles_quiet, wp_on_prof. apply wp_bind, wp_modify, wp_modify. split; [done |]. split; [done |].
    intros es Hl. eapply logged_mono; [exact Hl | reflexivity ..]. }
  pose proof (Hf _ H3) as H. now rewrite Nat.add_0_r in H.
Qed.

Lemma HandleSymbolQueueItem_settles si c : job_ok si c -> settles 1 (fun _ => True) (HandleSymbolQueueItem si) c.
Proof.
  intros [Hc Hj]. unfold HandleSymbolQueueItem. destruct (si_type si).
  - apply settles_later; [apply settles_call |]. intros [entries image] c1. cbv zeta.
    apply settles_later; [apply settles_malloc |]. intros p c2. apply settles_later; [apply settles_store |]. intros _ c3.
    apply settles_answer; first [reflexivity | exact Hc | vm_compute; lia].
  - destruct (negb _); [exact (settles_commit AckServerQueryNoop _ c (local_ok AckServerQueryNoop eq_refl eq_refl) eq_refl) |].
    apply settles_later; [apply settles_call |]. intros sym c1. apply settles_answer; first [reflexivity | exact Hc | vm_compute; lia].
  - apply settles_assert; [exact Hj |]. apply settles_later; [apply settles_call |]. intros [tn nm] c1.
    apply settles_answer; first [reflexivity | exact Hj | vm_compute; lia].
  - apply settles_later; [apply settles_call |]. intros data c1. destruct (negb _).
    + apply settles_answer; first [reflexivity | exact Hc | vm_compute; lia].
    + exact (settles_commit AckSymbolCodeNotAvailable _ c1 (local_ok AckSymbolCodeNotAvailable eq_refl eq_refl) eq_refl).
  - now apply settles_source_code.
Qed.

(** A job is taken from the queue when it is done. *)
Definition resolve_one : M Session unit :=
  jobs ← gets m_symbolQueue;
  match jobs with
  | [] => mret tt
  | si :: _ => HandleSymbolQueueItem si;; modify (fun c => c <| m_symbolQueue ::= tail |>)
  end.

(** [m] leaves the jobs alone. *)
Definition keeps_jobs {A} (m : M Session A) : Prop := forall c, wlp m (fun _ c' => m_symbolQueue c' = m_symbolQueue c) c.
Lemma jobs_bind {A B} (m : M Session A) (k : A -> M Session B) : keeps_jobs m -> (forall a, keeps_jobs (k a)) -> keeps_jobs (m ≫= k).
Proof.
  intros Hm Hk c. apply wlp_bind. eapply wlp_mono; [apply Hm |]. cbv beta. intros a c1 H1.
  eapply wlp_mono; [apply Hk |]. cbv beta. congruence.
Qed.
Lemma keeps_on_prof {A} (m : M Profiler A) : keeps_jobs (on_prof m).
Proof. intros c. unfold wlp, on_prof. destruct (m (prof c)) as [[a p] |]; done. Qed.
Lemma jobs_modify f : (forall c, m_symbolQueue (f c) = m_symbolQueue c) -> keeps_jobs (modify f).
Proof. intros Hf c. apply wlp_modify, Hf. Qed.
Lemma jobs_gets {A} (f : Session -> A) : keeps_jobs (gets f).
Proof. intros c. now apply wlp_gets. Qed.
Lemma jobs_ret {A} (a : A) : keeps_jobs (mret a).
Proof. intros c. now apply wlp_ret. Qed.
Lemma jobs_expect {A} (o : option A) : keeps_jobs (expect o).
Proof. intros c. apply wlp_expect. done. Qed.
Lemma keeps_call {A} (f : memory -> memory * A) : keeps_jobs (call f).
Proof.
  unfold call. apply jobs_bind; [apply jobs_gets |]. intros h. destruct (f h) as [h' a].
  apply jobs_bind; [now apply jobs_modify |]. intros _. apply jobs_ret.
Qed.
Ltac keeps_step :=
  lazymatch goal with
  | |- forall _, _ => intro
  | |- keeps_jobs (_ ≫= _) => apply jobs_bind
  | |- keeps_jobs (modify _) => apply jobs_modify; reflexivity
  | |- keeps_jobs (gets _) => apply jobs_gets
  | |- keeps_jobs (mret _) => apply jobs_ret
  | |- keeps_jobs (expect _) => apply jobs_expect
  | |- keeps_jobs (assert_ ?b) => intros c; unfold assert_; destruct b; [now apply wlp_ret | exact Logic.I]
  | |- keeps_jobs (call _) => apply keeps_call
  | |- keeps_jobs (on_prof _) => apply keeps_on_prof
  | |- keeps_jobs (match ?x with _ => _ end) => destruct x
  | |- keeps_jobs ?m => let h := head_of m in unfold h; cbv beta zeta
  end.
Lemma keeps_HandleSymbolQueueItem si : keeps_jobs (HandleSymbolQueueItem si).
Proof. unfold HandleSymbolQueueItem, HandleSourceCodeQuery. cbv zeta. repeat keeps_step. Qed.

Lemma resolve_one_balanced n c : balanced m0 n c -> match m_symbolQueue c with si :: _ => job_ok si c | [] => True end ->
  wp resolve_one (fun _ c' => balanced m0 n c') c.
Proof.
  intros Hn Hj. unfold resolve_one. apply wp_bind, wp_gets. destruct (m_symbolQueue c) as [| si jobs] eqn:Ej; [now apply wp_ret |].
  apply wp_bind. pose proof (HandleSymbolQueueItem_settles si c Hj n Hn) as Hw. pose proof (keeps_HandleSymbolQueueItem si c) as Hk.
  unfold wp, wlp in *. destruct (HandleSymbolQueueItem si c) as [[u c'] |]; [| done]. destruct Hw as (_ & es & Hl & En & Hq).
  rewrite Ej in Hk. apply wp_modify. exists es. split; [exact Hl |]. split; [| exact Hq].
  unfold owed in *. rewrite Hk in En. cbn [length] in En.
  change (m_symbolQueue (c' <| m_symbolQueue ::= tail |>)) with (tail (m_symbolQueue c')). rewrite Hk. cbn [tail].
  change (lfq (c' <| m_symbolQueue ::= tail |>)) with (lfq c'). lia.
Qed.

(** ** The queue is drained *)
Definition connected (st : DequeueStatus) : bool := match st with ConnectionLost => false | _ => true end.
Lemma ThreadCtxCheck_answers th es s : logged m0 es [] s ->
  wp (ThreadCtxCheck th) (fun _ s' => heap s' = heap s /\ exists new, logged m0 (es ++ new) [] s' /\ count_answers new = O) s.
Proof.
  intros Hl. unfold ThreadCtxCheck. wp_steps. destruct (Client.m_threadCtx s =? th).
  { apply wp_ret. split; [done |]. exists []. rewrite app_nil_r. done. }
  set (item := MemWrite _ _ _ _). assert (Hi : item_ok ThreadContext item).
  { apply item_ok_write; [vm_compute; lia |]. now apply local_ok. }
  assert (Hw : QueueType.of_idx (MemReadHdr (wire (QueueType.idx ThreadContext) item)) = Some ThreadContext)
    by (apply wire_type; apply Hi).
  assert (Hc : count_answers [Fixed (wire (QueueType.idx ThreadContext) item)] = O)
    by (unfold count_answers; cbn [List.filter is_answer]; now rewrite Hw).
  apply wp_bind. eapply wp_mono; [apply (AppendData_spec m0 _ s (event_ok_wire _ _ Hi) es Hl) |].
  intros ok s' (Hl' & Hr). cbv beta. destruct ok; cbn [negb]; wp_steps; (split; [apply Hr |]); eexists; (split; [| exact Hc]); [| exact Hl'].
  eapply logged_mono; [exact Hl' | reflexivity ..].
Qed.
Lemma Dequeue_blocks_answers blocks es s :
  Forall (fun b => b <> []) blocks -> memory_ok (heap s) -> items_ok thread_type (mjoin blocks) (heap s) -> logged m0 es [] s ->
  wp (Dequeue_blocks blocks) (fun ok s' => ok = true -> exists new, logged m0 (es ++ new) [] s' /\
    count_answers new = list_sum (answer_weight <$> mjoin blocks)) s.
Proof.
  revert es s. induction blocks as [| items blocks IH]; intros es s Hne Hm Hok Hl; cbn [Dequeue_blocks].
  { apply wp_ret. intros _. exists []. rewrite app_nil_r. done. }
  inversion_clear Hne as [| ? ? Hne1 Hne2]. change (mjoin (items :: blocks)) with (items ++ mjoin blocks) in *.
  apply items_ok_app in Hok as [Hok1 Hok2].
  apply wp_bind. eapply wp_mono; [now apply (Dequeue_block_wp m0 items es) |]. cbv zeta. intros ok s1 (k & Hk).
  pose proof (run_items_heap (mkRefs (Client.m_refTimeThread s) (Client.m_refTimeSerial s) (Client.m_refTimeCtx s) (Client.m_refTimeGpu s)) items (heap s)) as Hh.
  pose proof (run_items_answers thread_type items (mkRefs (Client.m_refTimeThread s) (Client.m_refTimeSerial s) (Client.m_refTimeCtx s) (Client.m_refTimeGpu s)) (heap s) Hok1) as Ha.
  destruct ok; [| now apply wp_ret]. destruct (run_items _ (take k items) _) as [[[r' new] fr] h'] eqn:Er.
  destruct Hk as (H1 & Hh1 & _ & _ & _ & _ & _ & Hall). rewrite (Hall eq_refl) in Er. clear Hall. rewrite Er in Hh, Ha. cbn [fst snd] in Hh, Ha. rewrite Hh in Hh1.
  eapply wp_mono; [apply (IH (es ++ new)); [exact Hne2 | rewrite Hh1; now apply items_heap_ok | now rewrite Hh1 | exact H1] |].
  cbv beta. intros ok2 s2 H2 E2. destruct (H2 E2) as (new2 & H3 & E3). exists (new ++ new2). rewrite app_assoc.
  split; [exact H3 |]. rewrite count_answers_app, Ha, E3, fmap_app, list_sum_app. done.
Qed.
Lemma Dequeue_answers th blocks es s :
  Forall (fun b => b <> []) blocks -> memory_ok (heap s) -> items_ok thread_type (mjoin blocks) (heap s) -> logged m0 es [] s ->
  wp (Dequeue (Some (th, blocks))) (fun st s' => connected st = true -> exists new, logged m0 (es ++ new) [] s' /\
    count_answers new = list_sum (answer_weight <$> mjoin blocks)) s.
Proof.
  intros Hne Hm Hok Hl. unfold Dequeue. apply wp_bind. eapply wp_mono; [exact (ThreadCtxCheck_answers th es s Hl) |].
  cbv beta. intros st s1 (Hh & new & Hl1 & E1).
  destruct st; [| | now apply wp_ret]; (apply wp_bind; eapply wp_mono;
    [apply (Dequeue_blocks_answers blocks (es ++ new)); rewrite ?Hh; assumption |]; cbv beta; intros ok s2 H2; apply wp_ret;
    destruct ok; [| done]; intros _; destruct (H2 eq_refl) as (new2 & H3 & E3); exists (new ++ new2); rewrite app_assoc;
    split; [exact H3 |]; rewrite count_answers_app; lia).
Qed.

(** ** Any order of the work *)

(** What the threads of the client do, in the order in which they do it: the one of the
    profiler reads a query, sends what is in its queue, what a thread of the program
    queued, or a frame; the one for symbols does a job. *)
Inductive action : Type :=
  | Ask (q : ServerQueryPacket) | Resolve | Drain (thread : Z) | Program (thread : Z) (blocks : list (list (list Z))) | Flush.
Definition perform (a : action) : M Session bool :=
  match a with
  | Ask q => r ← HandleServerQuery q; mret (match r with Served => true | _ => false end)
  | Resolve => resolve_one;; mret true
  | Drain thread => st ← drain_queue thread; mret (connected st)
  | Program thread blocks => st ← on_prof (Dequeue (Some (thread, blocks))); mret (connected st)
  | Flush => on_prof CommitData
  end.
Fixpoint perform_all (l : list action) : M Session bool :=
  match l with
  | [] => mret true
  | a :: l => ok ← perform a; if ok : bool then perform_all l else mret false
  end.
Definition asks (a : action) : nat := match a with Ask _ => 1 | _ => 0 end.

(** What an action needs: queries and jobs as above, items whose memory can be sent; a
    program queues no answers. *)
Definition action_ok (a : action) (c : Session) : Prop :=
  let h := heap (prof c) in
  match a with
  | Ask q => query_ok q c
  | Resolve => match m_symbolQueue c with si :: _ => job_ok si c | [] => True end
  | Drain _ => memory_ok h /\ items_ok thread_type (lfq c) h
  | Program _ blocks => Forall (fun b => b <> []) blocks /\ memory_ok h /\ items_ok thread_type (mjoin blocks) h /\
      Forall (fun item => answer_weight item = O) (mjoin blocks)
  | Flush => True
  end.
Fixpoint actions_ok (l : list action) (c : Session) : Prop :=
  match l with
  | [] => True
  | a :: l => action_ok a c /\ forall c', perform a c = Some (true, c') -> actions_ok l c'
  end.

Lemma Drain_balanced n th c : balanced m0 n c -> memory_ok (heap (prof c)) -> items_ok thread_type (lfq c) (heap (prof c)) ->
  wp (drain_queue th) (fun st c' => connected st = true -> balanced m0 n c') c.
Proof.
  intros (es & Hl & En & Hq) Hm Hok. unfold drain_queue. apply wp_bind, wp_gets. unfold owed in En.
  destruct (lfq c) as [| item items] eqn:El.
  { apply wp_bind, wp_on_prof, wp_ret. apply wp_bind, wp_modify, wp_ret. intros _. exists es. split; [exact Hl |].
    split; [| constructor]. unfold owed. cbn. cbn in En. lia. }
  rewrite <- El in *. apply wp_bind, wp_on_prof. eapply wp_mono.
  { apply (Dequeue_answers th [lfq c] es (prof c)); [| exact Hm | | exact Hl].
    - constructor; [rewrite El; done | constructor].
    - change (mjoin [lfq c]) with (lfq c ++ []). now rewrite app_nil_r. }
  cbv beta. intros st p H1. apply wp_bind, wp_modify, wp_ret. intros Hst.
  destruct (H1 Hst) as (new & Hl' & Ec). exists (es ++ new). split; [exact Hl' |]. split; [| constructor].
  change (mjoin [lfq c]) with (lfq c ++ []) in Ec. rewrite app_nil_r in Ec. rewrite count_answers_app, Ec. unfold owed. cbn. lia.
Qed.

Lemma perform_balanced a n c : action_ok a c -> balanced m0 n c ->
  wp (perform a) (fun ok c' => ok = true -> balanced m0 (n + asks a) c') c.
Proof.
  intros Ha Hn. destruct a as [q | | th | th blocks |]; cbn [perform asks action_ok] in *; rewrite ?Nat.add_0_r.
  - apply wp_bind. eapply wp_mono; [exact (HandleServerQuery_settles q c Ha n Hn) |]. cbv beta. intros r c' [-> H]. now apply wp_ret.
  - apply wp_bind. eapply wp_mono; [exact (resolve_one_balanced n c Hn Ha) |]. cbv beta. intros _ c' H. now apply wp_ret.
  - apply wp_bind. eapply wp_mono; [exact (Drain_balanced n th c Hn (proj1 Ha) (proj2 Ha)) |]. cbv beta. intros st c' H. now apply wp_ret.
  - destruct Ha as (Hne & Hm & Hok & Hw). destruct Hn as (es & Hl & En & Hq). apply wp_bind, wp_on_prof.
    eapply wp_mono; [exact (Dequeue_answers th blocks es (prof c) Hne Hm Hok Hl) |]. cbv beta. intros st p H1. apply wp_ret. intros Hst.
    destruct (H1 Hst) as (new & Hl' & Ec). exists (es ++ new). split; [exact Hl' |]. split; [| exact Hq].
    rewrite count_answers_app, Ec. replace (list_sum _) with O; [change (owed (c <| prof := p |>)) with (owed c); lia |].
    clear -Hw. induction Hw as [| item items E _ IH]; [done |]. cbn. rewrite E. exact IH.
  - destruct Hn as (es & Hl & En & Hq). apply wp_on_prof. eapply wp_mono; [exact (CommitData_spec m0 es _ Hl) |].
    cbv beta. intros ok p (Hl' & _) _. exists es. done.
Qed.

(** The answers in the bytes that were sent and that are pending. *)
Definition answers_sent (p : Profiler) : nat := list_sum (answers_in <$> (m_sent p ++ [pending p])).
Lemma answers_in_frame es : Forall event_ok es -> answers_in (encode_frame es) = count_answers es.
Proof. intros Hok. unfold answers_in, read_frame, encode_frame. now rewrite read_events_encode by (done || lia). Qed.
Lemma answers_sent_logged es p : logged m0 es [] p -> answers_sent p = count_answers es.
Proof.
  intros [_ (gs & cur & Hg & Hp & -> & Hok)]. unfold answers_sent. rewrite Hg, Hp, app_nil_r, fmap_app, list_sum_app.
  apply Forall_app in Hok as [Hok Hcur]. rewrite count_answers_app. cbn [fmap list_fmap list_sum]. rewrite answers_in_frame by done.
  assert (E1 : list_sum (answers_in <$> (encode_frame <$> gs)) = count_answers (mjoin gs)); [| rewrite E1; cbn; lia].
  clear -Hok. induction gs as [| g gs IH]; [done |]. change (mjoin (g :: gs)) with (g ++ mjoin gs) in *.
  apply Forall_app in Hok as [Hg Hok]. rewrite count_answers_app. cbn [fmap list_fmap list_sum]. rewrite answers_in_frame by done.
  cbn. f_equal. now apply IH.
Qed.

(** C27: every query that the server sends is answered exactly once.  Whatever the order
    in which the threads of the client read queries, find symbols and source files, and
    send what was queued, no assertion fails, and as long as the connection holds the answers
    among the bytes sent and pending and those that are owed (jobs, and items in the queue)
    add up to the queries that were read; so the server, which counts each answer as room
    for one more query, never has more room than the client gave it, and when the queues are
    empty it has all of it. *)
Theorem client_answers_once (l : list action) (c : Session) :
  logged m0 [] [] (prof c) -> m_symbolQueue c = [] -> lfq c = [] -> actions_ok l c ->
  wp (perform_all l) (fun ok c' => ok = true ->
    (answers_sent (prof c') + owed c')%nat = list_sum (asks <$> l)) c.
Proof.
  intros Hl Hj Hq Hok. assert (Hb : balanced m0 0 c).
  { exists []. split; [done |]. split; [unfold owed; now rewrite Hj, Hq |]. rewrite Hq. constructor. }
  change (list_sum (asks <$> l)) with (0 + list_sum (asks <$> l))%nat. clear Hl Hj Hq. revert Hb Hok. generalize O.
  revert c. induction l as [| a l IH]; intros c n Hb Hok; cbn [perform_all].
  { apply wp_ret. intros _. destruct Hb as (es & Hl & En & _). rewrite (answers_sent_logged es) by done. change (list_sum (asks <$> [])) with O. lia. }
  destruct Hok as [Ha Hok]. apply wp_bind. pose proof (perform_balanced a n c Ha Hb) as Hp. unfold wp in Hp |- *.
  destruct (perform a c) as [[ok c1] |]; [| done]. destruct ok; [| apply wp_ret; discriminate].
  specialize (IH c1 _ (Hp eq_refl) (Hok c1 eq_refl)). change (list_sum (asks <$> a :: l)) with (asks a + list_sum (asks <$> l))%nat.
  eapply wp_mono; [exact IH |]. cbv beta. intros ok c2 H Ht. rewrite (H Ht). lia.
Qed.
End Queries.

(** ** A concrete client *)
#[local] Existing Instance demo_platform.
Definition demo_environment : Environment := {|
  tracy_malloc := fun n _ => 0x100000 + 0x10000 * Z.of_nat n; m_mainThread := 1; ThreadNames := [];
  system_thread_name := fun _ => 0x1000; m_exectime := 5; m_safeSendBuffer := 0x80000; copy_fails := fun _ _ => false;
  EnsureReadable := fun _ => true; external_process := false; DecodeCallstackPtr := fun _ h => (h, ([], 0x1000));
  DecodeSymbolAddress := fun _ h => (h, mkCallstackSymbolData 0x1000 0 false);
  SysTraceGetExternalName := fun _ h => (h, (0x1000, 0x1000)); kcore_Retrieve := fun _ _ h => (h, 0);
  source_file := fun _ => None; m_sourceCallback := None; has_paramCallback := true |}.
#[local] Existing Instance demo_environment.
Definition demo_session : Session := mkSession (demo_profiler []) [] 0 0 0 [] 0 [].
(** A string is asked for, and the code of the kernel, which is not there. *)
Definition demo_actions : list action :=
  [Ask (mkQuery ServerQueryString 0x1000 0); Ask (mkQuery ServerQuerySymbolCode (2 ^ 63 + 5) 16); Resolve; Drain 7; Flush].

Definition after (a : action) (c : Session) : Session := match perform a c with Some (_, c') => c' | None => c end.
Lemma actions_ok_after a l c : action_ok a c -> actions_ok l (after a c) -> actions_ok (a :: l) c.
Proof. intros Ha Hl. split; [exact Ha |]. intros c' E. unfold after in Hl. now rewrite E in Hl. Qed.
Lemma demo_actions_ok : actions_ok demo_actions demo_session.
Proof.
  unfold demo_actions. apply actions_ok_after; [split; [split; vm_compute; done |] |].
  { vm_compute. eexists. reflexivity. }
  apply actions_ok_after; [split; [split; vm_compute; done |]; split; vm_compute; discriminate |].
  apply actions_ok_after; [vm_compute; done |].
  apply actions_ok_after.
  { split.
    - match goal with |- memory_ok ?h => replace h with demo_heap by (vm_compute; reflexivity) end. apply demo_heap_ok.
    - vm_compute. repeat split; first [discriminate | reflexivity]. }
  apply actions_ok_after; [exact Logic.I | exact Logic.I].
Qed.

Lemma client_answers_once_witness :
  wp (perform_all demo_actions) (fun ok c' => ok = true -> (answers_sent (prof c') + owed c')%nat = list_sum (asks <$> demo_actions)) demo_session.
Proof.
  apply (client_answers_once (fun _ => 0) demo_actions demo_session).
  - apply demo_logged.
  - reflexivity.
  - reflexivity.
  - apply demo_actions_ok.
Defined.
