(* ===== verification/TransferSpec.v ===== *)
(** * The strings that the server sends

    The name of a source file, and of the image it belongs to, go to the client in
    packets of twelve bytes.  The client puts them together in a block of eleven bytes
    more than the string, which is as much as the last packet can write past its end. *)
From S2P Require Import Prelude Queue Wire Client Dequeue DequeueSpec Event Containers Trace Server ServerCallstack Dispatch Respect QuerySpec Link ClientQuery AnswerSpec.
Import QueueType(t(..)).

(** ** The packets of the server *)
Fixpoint parts (fuel : nat) (data : list Z) : list ServerQueryPacket :=
  match fuel, data with
  | _, [] => []
  | O, _ => []
  | S fuel, _ => let '(d8, d4, rest) := data_part data in mkQuery ServerQueryDataTransferPart d8 d4 :: parts fuel rest
  end.
Definition transfer_packets (data : list Z) : list ServerQueryPacket :=
  mkQuery ServerQueryDataTransfer (Z.of_nat (length data)) 0 :: parts (length data) data.

Lemma data_part_rest data : snd (data_part data) = drop 12 data.
Proof.
  unfold data_part. destruct (Z.leb_spec 12 (Z.of_nat (length data))); [done |].
  destruct (_ <? _); cbn [snd]; symmetry; apply drop_ge; lia.
Qed.
Lemma QueryDataTransfer_loop_wp fuel data (w : W) : (length data <= fuel)%nat ->
  wp (QueryDataTransfer_loop fuel data) (fun _ w' =>
    m_serverQueryQueue w' = m_serverQueryQueue w ++ parts fuel data /\ srcs w' = srcs w) w.
Proof.
  revert data w. induction fuel as [| fuel IH]; intros data w Hf; (destruct data as [| b data]; [apply wp_ret; now rewrite app_nil_r |]).
  { cbn in Hf. lia. }
  set (l := b :: data) in *. cbn [QueryDataTransfer_loop parts]. pose proof (data_part_rest l) as Hr.
  change (match l with [] => mret tt | _ :: _ => let '(d8, d4, rest) := data_part l in Query ServerQueryDataTransferPart d8 d4;; QueryDataTransfer_loop fuel rest end)
    with (let '(d8, d4, rest) := data_part l in Query ServerQueryDataTransferPart d8 d4;; QueryDataTransfer_loop fuel rest).
  change (match l with [] => [] | _ :: _ => let '(d8, d4, rest) := data_part l in mkQuery ServerQueryDataTransferPart d8 d4 :: parts fuel rest end)
    with (let '(d8, d4, rest) := data_part l in mkQuery ServerQueryDataTransferPart d8 d4 :: parts fuel rest).
  destruct (data_part l) as [[d8 d4] rest]. cbn [snd] in Hr. apply wp_bind, wp_modify.
  assert (Hl : (length rest <= fuel)%nat) by (subst rest; subst l; rewrite length_drop; cbn [length] in *; lia).
  eapply wp_mono; [apply (IH rest _ Hl) |]. cbv beta. intros _ w' [E1 E2]. split; [| exact E2].
  rewrite E1. cbn. now rewrite <- app_assoc.
Qed.
Lemma QueryDataTransfer_wp data (w : W) :
  wp (QueryDataTransfer data) (fun _ w' => m_serverQueryQueue w' = m_serverQueryQueue w ++ transfer_packets data /\ srcs w' = srcs w) w.
Proof.
  unfold QueryDataTransfer. apply wp_bind, wp_modify. eapply wp_mono; [apply QueryDataTransfer_loop_wp; lia |].
  cbv beta. intros _ w' [E1 E2]. split; [| exact E2]. rewrite E1. cbn. now rewrite <- app_assoc.
Qed.

(** ** What a packet carries *)
Lemma le_val_zeros bs n : le_val (bs ++ repeat 0 n) = le_val bs.
Proof.
  induction bs as [| b bs IH]; cbn [app le_val]; [| now rewrite IH].
  induction n as [| n IH]; [done |]. cbn [repeat le_val]. lia.
Qed.
Lemma le_bytes_pad n bs : Forall byte_ok bs -> (length bs <= n)%nat -> le_bytes n (le_val bs) = bs ++ repeat 0 (n - length bs).
Proof.
  intros Hb Hl. rewrite <- (le_val_zeros bs (n - length bs)).
  replace n with (length (bs ++ repeat 0 (n - length bs))) at 1 by (rewrite length_app, repeat_length; lia).
  apply le_bytes_val. apply Forall_app. split; [exact Hb |]. clear. induction (n - length bs)%nat; constructor; [split; lia | done].
Qed.
Lemma repeat_take {A} (x : A) n k : take k (repeat x n) = repeat x (k `min` n).
Proof. revert k. induction n as [| n IH]; intros [| k]; cbn; [done .. |]. now rewrite IH. Qed.

(** Twelve bytes, with zeros after the last of the string. *)
Lemma data_part_bytes data : Forall byte_ok data -> data <> [] ->
  let '(d8, d4, _) := data_part data in le_bytes 8 d8 ++ le_bytes 4 d4 = take 12 (data ++ repeat 0 11).
Proof.
  intros Hb Hne. assert (Hpos : (1 <= length data)%nat) by (destruct data; [done | cbn; lia]).
  unfold data_part. destruct (Z.leb_spec 12 (Z.of_nat (length data))) as [H12 | H12].
  - rewrite !le_bytes_pad by (auto using Forall_take, Forall_drop; rewrite length_take; lia).
    rewrite !length_take, length_drop, !Nat.min_l, !Nat.sub_diag by lia. cbn [repeat]. rewrite !app_nil_r, take_app_le by lia.
    rewrite <- (take_drop 8 (take 12 data)) at 1. rewrite take_take, skipn_firstn_comm. done.
  - destruct (Z.ltb_spec 8 (Z.of_nat (length data))) as [H8 | H8].
    + rewrite !le_bytes_pad by (auto using Forall_take, Forall_drop; rewrite ?length_take, ?length_drop; lia).
      rewrite length_take, length_drop, Nat.min_l, Nat.sub_diag by lia. change (repeat 0 0) with (@nil Z). rewrite app_nil_r, app_assoc, take_drop.
      rewrite take_app_ge by lia. rewrite repeat_take. do 2 f_equal. lia.
    + rewrite le_bytes_pad by (done || lia). rewrite take_app_ge, repeat_take by lia. rewrite <- app_assoc. f_equal.
      change (le_bytes 4 0) with (repeat 0 4). rewrite <- repeat_app. f_equal. lia.
Qed.

(** ** The client *)
Section Client.
Context {P : Platform} {E : Environment} (m0 : memory).

Definition ack_event : event := Fixed (wire (QueueType.idx AckServerQueryNoop) (QueueItem_local AckServerQueryNoop)).
Lemma ack_wp es (c : Session) (Q : unit -> Session -> Prop) : logged m0 es [] (prof c) ->
  (forall p, logged m0 (es ++ [ack_event]) [] p -> heap p = heap (prof c) -> Q tt (c <| prof := p |>)) ->
  wp (on_prof AckServerQuery) Q c.
Proof.
  intros Hl HQ. apply wp_on_prof.
  eapply wp_mono; [exact (ack_sends m0 _ (prof c) (local_event_ok AckServerQueryNoop eq_refl eq_refl) es Hl) |].
  cbv beta. intros [] p (Hl' & Hr). apply HQ; [exact Hl' | apply Hr].
Qed.

Lemma serve_cons q l (Q : reply -> Session -> Prop) c :
  wp (HandleServerQuery q) (fun r c' => r = Served /\ wp (serve l) Q c') c -> wp (serve (q :: l)) Q c.
Proof. intros H. cbn [serve]. apply wp_bind. eapply wp_mono; [exact H |]. cbv beta. intros r c' [-> Hl]. exact Hl. Qed.
Lemma serve_app l l' (Q : reply -> Session -> Prop) c :
  wp (serve l) (fun r c' => r = Served /\ wp (serve l') Q c') c -> wp (serve (l ++ l')) Q c.
Proof.
  revert c. induction l as [| q l IH]; intros c H; cbn [app].
  - apply wp_ret in H || cbn [serve] in H. destruct H as [_ H]. exact H.
  - cbn [serve] in *. apply wp_unbind in H. apply wp_bind. eapply wp_mono; [exact H |]. cbv beta. intros r c' Hr.
    destruct r; [now apply IH | destruct Hr as [E' _]; discriminate E' ..].
Qed.

(** The bytes that [n] bytes take. *)
Definition packed_end (n : nat) : Z := 12 * ((Z.of_nat n + 11) / 12).
Lemma packed_end_bound n : packed_end n <= Z.of_nat n + 11.
Proof. unfold packed_end. pose proof (Z.mul_div_le (Z.of_nat n + 11) 12). lia. Qed.
Lemma packed_end_step n : (0 < n)%nat -> packed_end n = 12 + packed_end (n - 12).
Proof.
  intros Hn. unfold packed_end. destruct (Nat.leb_spec 12 n) as [H | H].
  - replace (Z.of_nat n + 11) with (Z.of_nat (n - 12) + 11 + 1 * 12) by lia. rewrite Z.div_add by lia. lia.
  - replace (n - 12)%nat with O by lia. change ((Z.of_nat 0 + 11) / 12) with 0.
    assert (D : (Z.of_nat n + 11) / 12 = 1) by (symmetry; apply (Z.div_unique _ 12 1 (Z.of_nat n - 1)); lia). lia.
Qed.

(** What the packets of a string change. *)
Record written (p : Z) (data : list Z) (c c' : Session) : Prop := {
  wr_bytes : forall i, (i < length data)%nat -> heap (prof c') (p + Z.of_nat i) = nth i data 0;
  wr_frame : forall a, a < p \/ p + packed_end (length data) <= a -> heap (prof c') a = heap (prof c) a;
  wr_data : m_queryData c' = m_queryData c;
  wr_image : m_queryImage c' = m_queryImage c;
  wr_jobs : m_symbolQueue c' = m_symbolQueue c;
  wr_allocations : allocations c' = allocations c }.

Lemma memcpy_twice p d d' h a :
  memcpy (p + Z.of_nat (length d)) d' (memcpy p d h) a = memcpy p (d ++ d') h a.
Proof.
  unfold memcpy. rewrite length_app.
  destruct (Z.leb_spec p a), (Z.ltb_spec a (p + Z.of_nat (length d))), (Z.leb_spec (p + Z.of_nat (length d)) a),
    (Z.ltb_spec a (p + Z.of_nat (length d) + Z.of_nat (length d'))), (Z.ltb_spec a (p + Z.of_nat (length d + length d')));
    cbn [andb]; try lia; try done.
  - now rewrite app_nth1 by lia.
  - rewrite app_nth2 by lia. f_equal. lia.
Qed.
Lemma memcpy_nth p d h i : (i < length d)%nat -> memcpy p d h (p + Z.of_nat i) = nth i d 0.
Proof.
  intros Hi. unfold memcpy. rewrite (proj2 (Z.leb_le _ _)), (proj2 (Z.ltb_lt _ _)) by lia. cbn [andb]. f_equal. lia.
Qed.
Lemma nth_take {A} (d : A) n l i : (i < n)%nat -> nth i (take n l) d = nth i l d.
Proof. revert l i. induction n as [| n IH]; intros [| x l] [| i] Hi; try lia; cbn; [done .. |]. apply IH. lia. Qed.

Lemma parts_served fuel data p es c :
  (length data <= fuel)%nat -> Forall byte_ok data -> logged m0 es [] (prof c) -> m_queryDataPtr c = p ->
  wp (serve (parts fuel data)) (fun r c' => r = Served /\
    logged m0 (es ++ repeat ack_event (length (parts fuel data))) [] (prof c') /\ written p data c c') c.
Proof.
  revert data p es c. induction fuel as [| fuel IH]; intros data p es c Hf Hb Hl Hp.
  { destruct data; [| cbn in Hf; lia]. apply wp_ret. rewrite app_nil_r. split; [done |]. split; [done |]. split; try done. cbn. lia. }
  destruct data as [| b data]; [apply wp_ret; rewrite app_nil_r; split; [done |]; split; [done |]; split; try done; cbn; lia |].
  set (l := b :: data) in *. assert (Hne : l <> []) by done. cbn [parts]. pose proof (data_part_rest l) as Hrest. pose proof (data_part_bytes l Hb Hne) as Hbytes.
  change (match l with [] => [] | _ :: _ => let '(d8, d4, rest) := data_part l in mkQuery ServerQueryDataTransferPart d8 d4 :: parts fuel rest end)
    with (let '(d8, d4, rest) := data_part l in mkQuery ServerQueryDataTransferPart d8 d4 :: parts fuel rest).
  destruct (data_part l) as [[d8 d4] rest]. cbn [snd] in Hrest.
  apply serve_cons. cbn [HandleServerQuery q_type q_ptr q_extra]. apply wp_bind. unfold transfer_part.
  apply wp_bind, wp_gets. rewrite Hp. apply wp_bind, wp_modify. apply wp_bind, wp_modify. apply wp_bind, wp_modify.
  set (c1 := over m_queryDataPtr _ _). apply (ack_wp es); [eapply logged_mono; [exact Hl | reflexivity ..] |].
  intros q Hl' Hh. apply wp_ret. split; [done |].
  assert (Hh1 : forall a, heap q a = memcpy p (take 12 (l ++ repeat 0 11)) (heap (prof c)) a).
  { intros a. rewrite Hh, <- Hbytes. change 8 with (Z.of_nat (length (le_bytes 8 d8))). exact (memcpy_twice p (le_bytes 8 d8) (le_bytes 4 d4) (heap (prof c)) a). }
  assert (Hlen : length (take 12 (l ++ repeat 0 11)) = 12%nat) by (rewrite length_take, length_app, repeat_length; subst l; cbn [length]; lia).
  assert (Hl0 : (0 < length l)%nat) by (subst l; cbn; lia).
  eapply wp_mono; [apply (IH rest (p + 12)); [subst rest; rewrite length_drop; subst l; cbn [length] in *; lia | subst rest; now apply Forall_drop | exact Hl' | reflexivity] |].
  cbv beta. intros r c2 (-> & Hl2 & Hw). split; [done |]. cbn [length repeat]. rewrite <- app_assoc in Hl2. split; [exact Hl2 |].
  destruct Hw as [Hbs Hfr Hd Hi Hj Ha]. assert (Hr : length rest = (length l - 12)%nat) by (subst rest; apply length_drop).
  split; try assumption.
  - intros i Hi'. destruct (Nat.ltb_spec i 12) as [H12 | H12].
    + rewrite Hfr by lia. change (heap (prof (c1 <| prof := q |>))) with (heap q). rewrite Hh1, memcpy_nth by lia.
      rewrite nth_take, app_nth1 by lia. done.
    + replace (p + Z.of_nat i) with (p + 12 + Z.of_nat (i - 12)) by lia. rewrite Hbs by lia. subst rest. rewrite nth_skipn. f_equal. lia.
  - intros a Ha'. rewrite packed_end_step in Ha' by lia. assert (0 <= packed_end (length l - 12)) by (unfold packed_end; pose proof (Z.div_pos (Z.of_nat (length l - 12) + 11) 12 ltac:(lia) ltac:(lia)); lia).
    rewrite Hfr by (rewrite Hr; lia). change (heap (prof (c1 <| prof := q |>))) with (heap q). rewrite Hh1, memcpy_other by (rewrite Hlen; lia). done.
Qed.

(** The client has the string [data] at [p], in a block of its own; a string that was
    there is the image. *)
Record received (p : Z) (data : list Z) (c c' : Session) : Prop := {
  rc_bytes : forall i, (i < length data)%nat -> heap (prof c') (p + Z.of_nat i) = nth i data 0;
  rc_frame : forall a, a < p \/ p + (Z.of_nat (length data) + 11) <= a -> heap (prof c') a = heap (prof c) a;
  rc_data : m_queryData c' = p;
  rc_image : m_queryImage c' = if m_queryData c =? 0 then m_queryImage c else m_queryData c;
  rc_jobs : m_symbolQueue c' = m_symbolQueue c;
  rc_allocations : allocations c' = S (allocations c) }.

Lemma transfer_served data es c :
  Forall byte_ok data -> Z.of_nat (length data) + 11 < 2 ^ 64 -> m_queryData c = 0 \/ m_queryImage c = 0 -> logged m0 es [] (prof c) ->
  wp (serve (transfer_packets data)) (fun r c' => r = Served /\
    logged m0 (es ++ repeat ack_event (length (transfer_packets data))) [] (prof c') /\
    received (tracy_malloc (allocations c) (Z.of_nat (length data) + 11)) data c c') c.
Proof.
  intros Hb Hlen Hq Hl. unfold transfer_packets. apply serve_cons. cbn [HandleServerQuery q_type q_ptr].
  apply wp_bind. unfold begin_transfer. apply wp_bind, wp_gets. apply wp_bind, wp_gets. apply wp_bind.
  set (image := if m_queryData c =? 0 then m_queryImage c else m_queryData c).
  eapply wp_mono with (Q := fun _ c1 => c1 = c <| m_queryImage := image |>).
  { subst image. destruct (Z.eqb_spec (m_queryData c) 0) as [E0 | E0]; cbn [negb]; [apply wp_ret; now destruct c |].
    destruct Hq as [Hq | Hq]; [done |]. apply wp_bind, wp_assert; [now apply Z.eqb_eq |]. now apply wp_modify. }
  intros _ c1 ->. rewrite uint_small by (red; lia). set (p := tracy_malloc _ _). unfold malloc.
  apply wp_bind, wp_bind, wp_gets. apply wp_bind, wp_modify, wp_ret. apply wp_bind, wp_modify.
  set (c1 := over m_queryDataPtr _ _).
  apply (ack_wp es c1); [exact Hl |]. intros q Hl' Hh. apply wp_ret. split; [done |].
  eapply wp_mono; [apply (parts_served (length data) data p (es ++ [ack_event])); [lia | exact Hb | exact Hl' | reflexivity] |].
  cbv beta. intros r c2 (-> & Hl2 & [Hbs Hfr Hd Hi Hj Ha]). split; [done |]. cbn [length repeat]. rewrite <- app_assoc in Hl2. split; [exact Hl2 |].
  pose proof (packed_end_bound (length data)). split; try assumption.
  intros a Ha'. rewrite Hfr by lia. change (heap (prof (c1 <| prof := q |>))) with (heap q). now rewrite Hh.
Qed.

(** A C string. *)
Definition c_string (s : list Z) : Prop := Forall (fun b => 0 < b < 256) s /\ Z.of_nat (length s) < 65536.
Lemma strlen_of fuel (h : memory) (p : Z) (s : list Z) : (forall i, (i < length s)%nat -> h (p + Z.of_nat i) = nth i s 0) -> h (p + Z.of_nat (length s)) = 0 ->
  Forall (fun b => 0 < b < 256) s -> (length s < fuel)%nat -> strlen fuel p h = Some (Z.of_nat (length s)).
Proof.
  revert p s. induction fuel as [| fuel IH]; intros p s Hb Hz Hs Hf; [lia |]. cbn [strlen]. destruct s as [| b s].
  - cbn [length] in Hz. replace (p + Z.of_nat 0) with p in Hz by lia. now rewrite Hz.
  - inversion_clear Hs as [| ? ? Hb0 Hs']. pose proof (Hb O ltac:(cbn; lia)) as H0. cbn [nth] in H0. replace (p + Z.of_nat 0) with p in H0 by lia.
    rewrite H0. rewrite (proj2 (Z.eqb_neq b 0)) by lia. rewrite (IH (p + 1) s).
    + bind_red. f_equal. cbn [length]. lia.
    + intros i Hi. specialize (Hb (S i) ltac:(cbn; lia)). cbn [nth] in Hb. rewrite <- Hb. f_equal. lia.
    + rewrite <- Hz. f_equal. cbn [length]. lia.
    + exact Hs'.
    + cbn [length] in Hf. lia.
Qed.
Lemma cstring_of (h : memory) (p : Z) (s : list Z) : c_string s -> (forall i, (i < length (s ++ [0%Z]))%nat -> h (p + Z.of_nat i) = nth i (s ++ [0]) 0) -> cstring h p = s.
Proof.
  intros [Hs Hlen] Hb. rewrite length_app in Hb. cbn [length] in Hb.
  assert (Hbs : forall i, (i < length s)%nat -> h (p + Z.of_nat i) = nth i s 0).
  { intros i Hi. rewrite Hb by lia. now rewrite app_nth1. }
  unfold cstring. rewrite (strlen_of strlen_fuel h p s); [| exact Hbs | | exact Hs |].
  - rewrite Nat2Z.id. rewrite (slice_ext h (memcpy p s h)); [apply slice_memcpy_same |].
    intros x Hx. replace x with (p + Z.of_nat (Z.to_nat (x - p))) by lia. rewrite memcpy_nth by lia. apply Hbs. lia.
  - rewrite Hb by lia. rewrite app_nth2, Nat.sub_diag by lia. done.
  - pose proof strlen_fuel_eq. lia.
Qed.

(** The packets of a source file. *)
Definition source_packets (fn : list Z) (image : option (list Z)) (id : Z) : list ServerQueryPacket :=
  (match image with Some im => transfer_packets (im ++ [0]) | None => [] end ++ transfer_packets (fn ++ [0])) ++
  [mkQuery ServerQuerySourceCode id 0].
Lemma QuerySourceFile_wp fn image (w : W) : m_sourceCodeQuery (srcs w) !! m_nextSourceCodeQuery (srcs w) = None ->
  wp (QuerySourceFile fn image) (fun _ w' =>
    m_serverQueryQueue w' = m_serverQueryQueue w ++ source_packets fn image (m_nextSourceCodeQuery (srcs w)) /\
    m_sourceCodeQuery (srcs w') !! m_nextSourceCodeQuery (srcs w) = Some fn) w.
Proof.
  intros Hnew. unfold QuerySourceFile. apply wp_bind.
  eapply wp_mono with (Q := fun _ w1 => srcs w1 = srcs w /\ m_serverQueryQueue w1 =
    m_serverQueryQueue w ++ match image with Some im => transfer_packets (im ++ [0]) | None => [] end).
  { destruct image as [im |]; [| apply wp_ret; now rewrite app_nil_r].
    eapply wp_mono; [apply QueryDataTransfer_wp |]. cbv beta. intros _ w1 [E1 E2]. now split. }
  intros _ w1 [S1 Q1]. apply wp_bind. eapply wp_mono; [apply QueryDataTransfer_wp |]. cbv beta. intros _ w2 [Q2 S2].
  apply wp_bind, wp_gets. cbv zeta. rewrite S2, S1. apply wp_bind, wp_modify. apply wp_bind, wp_modify. apply wp_modify.
  split.
  - cbn. rewrite Q2, Q1. unfold source_packets. now rewrite <- !app_assoc.
  - change (emplace (m_nextSourceCodeQuery (srcs w)) fn (m_sourceCodeQuery (srcs w2)) !! m_nextSourceCodeQuery (srcs w) = Some fn).
    rewrite S2, S1, emplace_fresh by done. apply lookup_insert_eq.
Qed.

Lemma string_bytes s : c_string s -> Forall byte_ok (s ++ [0]).
Proof.
  intros [Hs _]. apply Forall_app. split; [| constructor; [split; lia | done]].
  eapply Forall_impl; [exact Hs |]. cbv beta. intros b Hb. unfold byte_ok. split; lia.
Qed.
(** The blocks that hold the image and the file, in this order. *)
Definition image_block (im : list Z) (c : Session) : Z := tracy_malloc (allocations c) (Z.of_nat (length im) + 12).
Definition file_block (fn : list Z) (image : option (list Z)) (c : Session) : Z :=
  tracy_malloc (match image with Some _ => S (allocations c) | None => allocations c end) (Z.of_nat (length fn) + 12).

(** C28: the name of a source file, and of the image it is in, arrives as it was
    asked for.  For the packets that the server queues the client puts exactly one job for
    the thread of symbols in its queue, with the number under which the server keeps the
    name, the name and the image as C strings of their own; it writes nothing outside of
    the two blocks it allocated, which are as short as the code makes them, and answers
    every packet but the last one at once. *)
Theorem QuerySourceFile_arrives (fn : list Z) (image : option (list Z)) (w : W) (es : list event) (c : Session) :
  c_string fn -> (forall im, image = Some im -> c_string im) ->
  in_uint 32 (m_nextSourceCodeQuery (srcs w)) -> m_sourceCodeQuery (srcs w) !! m_nextSourceCodeQuery (srcs w) = None ->
  logged m0 es [] (prof c) -> m_queryData c = 0 -> m_queryImage c = 0 -> m_exectime <> 0 ->
  (forall n size, tracy_malloc n size <> 0) ->
  (forall im, image = Some im -> image_block im c + Z.of_nat (length im) + 12 <= file_block fn image c \/
                                file_block fn image c + Z.of_nat (length fn) + 12 <= image_block im c) ->
  wp (QuerySourceFile fn image) (fun _ w' => exists packets,
    m_serverQueryQueue w' = m_serverQueryQueue w ++ packets /\
    wp (serve packets) (fun r c' => r = Served /\ exists job,
      m_symbolQueue c' = m_symbolQueue c ++ [job] /\ si_type job = SymbolQueueItemType.SourceCode /\
      m_sourceCodeQuery (srcs w') !! si_id job = Some fn /\
      cstring (heap (prof c')) (si_ptr job) = fn /\
      match image with Some im => cstring (heap (prof c')) (si_extra job) = im | None => si_extra job = 0 end /\
      (forall a, (forall im, image = Some im -> a < image_block im c \/ image_block im c + Z.of_nat (length im) + 12 <= a) ->
        a < file_block fn image c \/ file_block fn image c + Z.of_nat (length fn) + 12 <= a -> heap (prof c') a = heap (prof c) a) /\
      logged m0 (es ++ repeat ack_event (length packets - 1)) [] (prof c')) c) w.
Proof.
  intros Hfn Him Hid Hnew Hl Hd Hi Hx Hm Hdis. eapply wp_mono; [now apply QuerySourceFile_wp |]. cbv beta. intros _ w' [Eq Es].
  eexists. split; [exact Eq |]. unfold source_packets. apply serve_app, serve_app.
  assert (Hlen : forall s : list Z, Z.of_nat (length (s ++ [0%Z])) + 11 = Z.of_nat (length s) + 12) by (intros s; rewrite length_app; cbn [length]; lia).
  set (pre := match image with Some im => transfer_packets (im ++ [0]) | None => [] end).
  eapply wp_mono with (Q := fun r c1 => r = Served /\ logged m0 (es ++ repeat ack_event (length pre)) [] (prof c1) /\
    match image with Some im => received (image_block im c) (im ++ [0]) c c1 | None => c1 = c end).
  { destruct image as [im |]; [| apply wp_ret; rewrite app_nil_r; now split].
    pose proof (Him im eq_refl) as Hc. pose proof (Hlen im) as Hli. destruct Hc as [Hc1 Hc2].
    eapply wp_mono; [apply transfer_served; [now apply string_bytes | lia | now left | exact Hl] |]. cbv beta. intros r c1 (-> & H1 & H2).
    split; [done |]. split; [exact H1 |]. unfold image_block. now rewrite Hli in H2. }
  intros r c1 (-> & Hl1 & H1). split; [done |].
  assert (Hq1 : m_queryData c1 = 0 \/ m_queryImage c1 = 0).
  { destruct image; [right; rewrite (rc_image _ _ _ _ H1), Hd; exact Hi | subst c1; now left]. }
  assert (Ha1 : tracy_malloc (allocations c1) (Z.of_nat (length fn) + 12) = file_block fn image c).
  { unfold file_block. destruct image; [now rewrite (rc_allocations _ _ _ _ H1) | now subst c1]. }
  eapply wp_mono; [apply transfer_served; [now apply string_bytes | destruct Hfn; rewrite Hlen; lia | exact Hq1 | exact Hl1] |].
  cbv beta. rewrite Hlen, Ha1. intros r c2 (-> & Hl2 & H2). split; [done |].
  apply serve_cons. cbn [HandleServerQuery q_type q_ptr]. apply wp_bind. unfold QueueSourceCodeQuery.
  apply wp_bind, wp_assert; [now apply negb_true_iff, Z.eqb_neq |]. apply wp_bind, wp_gets. apply wp_bind, wp_gets.
  rewrite (rc_data _ _ _ _ H2). apply wp_bind, wp_assert; [apply negb_true_iff, Z.eqb_neq, Hm |].
  apply wp_bind, wp_modify, wp_modify, wp_ret. split; [done |]. apply wp_ret. split; [done |].
  eexists. split; [cbn; f_equal; rewrite (rc_jobs _ _ _ _ H2); destruct image; [apply (rc_jobs _ _ _ _ H1) | now subst c1] |].
  cbn [si_type si_id si_ptr si_extra]. split; [done |]. rewrite uint_small by exact Hid. split; [exact Es |].
  split; [apply cstring_of; [exact Hfn | exact (rc_bytes _ _ _ _ H2)] |].
  pose proof (rc_frame _ _ _ _ H2) as Hf2. rewrite Hlen in Hf2. pose proof (rc_image _ _ _ _ H2) as Hi2.
  split.
  { destruct image as [im |].
    - rewrite Hi2, (rc_data _ _ _ _ H1), (proj2 (Z.eqb_neq _ _)) by apply Hm. apply cstring_of; [now apply Him |].
      intros i Hi'. change (heap (prof c2) (image_block im c + Z.of_nat i) = nth i (im ++ [0]) 0).
      rewrite Hf2; [exact (rc_bytes _ _ _ _ H1 i Hi') |]. pose proof (Hdis im eq_refl). rewrite length_app in Hi'. cbn [length] in Hi'. lia.
    - subst c1. rewrite Hi2, Hd. exact Hi. }
  split.
  { intros a Hai Haf. change (heap (prof c2) a = heap (prof c) a). rewrite Hf2 by lia. destruct image as [im |]; [| now subst c1].
    pose proof (rc_frame _ _ _ _ H1) as Hf1. rewrite Hlen in Hf1. apply Hf1. pose proof (Hai im eq_refl). lia. }
  change (logged m0 (es ++ repeat ack_event (length ((pre ++ transfer_packets (fn ++ [0])) ++ [mkQuery ServerQuerySourceCode (m_nextSourceCodeQuery (srcs w)) 0]) - 1)) [] (prof c2)).
  rewrite !length_app, Nat.add_sub, repeat_app, app_assoc. exact Hl2.
Qed.
End Client.

#[local] Existing Instance demo_platform.
#[local] Existing Instance demo_environment.
(** A name of thirteen letters, in an image. *)
Definition demo_name : list Z := repeat 97 13.
Lemma QuerySourceFile_arrives_witness :
  wp (QuerySourceFile demo_name (Some [47; 98])) (fun _ w' => exists packets,
    m_serverQueryQueue w' = m_serverQueryQueue demo_asker ++ packets /\
    wp (serve packets) (fun r c' => r = Served /\ exists job,
      m_symbolQueue c' = m_symbolQueue demo_session ++ [job] /\ si_type job = SymbolQueueItemType.SourceCode /\
      m_sourceCodeQuery (srcs w') !! si_id job = Some demo_name /\
      cstring (heap (prof c')) (si_ptr job) = demo_name /\
      cstring (heap (prof c')) (si_extra job) = [47; 98] /\
      (forall a, (forall im, Some [47; 98] = Some im -> a < image_block im demo_session \/ image_block im demo_session + Z.of_nat (length im) + 12 <= a) ->
        a < file_block demo_name (Some [47; 98]) demo_session \/
        file_block demo_name (Some [47; 98]) demo_session + Z.of_nat (length demo_name) + 12 <= a ->
        heap (prof c') a = heap (prof demo_session) a) /\
      logged (fun _ => 0) ([] ++ repeat ack_event (length packets - 1)) [] (prof c')) demo_session) demo_asker.
Proof.
  apply (QuerySourceFile_arrives (fun _ => 0) demo_name (Some [47; 98]) demo_asker [] demo_session).
  - split; [repeat constructor | reflexivity].
  - intros im [= <-]. split; [repeat constructor | reflexivity].
  - split; [discriminate | reflexivity].
  - reflexivity.
  - apply demo_logged.
  - reflexivity.
  - reflexivity.
  - discriminate.
  - intros n size. cbn. lia.
  - intros im [= <-]. left. vm_compute. discriminate.
Defined.
