(* ===== verification/ImageSpec.v ===== *)
(** * What the server does to a frame image is hardly seen

    A block has sixteen pixels between two colours.  The client numbers the four levels
    from the second colour to the first, a graphics card in another order, which
    [FixOrder] knows; [Rdo] replaces a block by one that is easier to compress.  Here is
    how far a channel of a pixel moves. *)
From S2P Require Import Prelude Double Queue Event Containers Discovery Wire Trace Server ServerFrame ServerImage.

(** ** The pixels of a block *)
Definition colour0 (b : Z) : Z := Z.land b 0xFFFF.
Definition colour1 (b : Z) : Z := Z.land (Z.shiftr b 16) 0xFFFF.
Definition index_at (b k : Z) : Z := Z.land (Z.shiftr b (32 + 2 * k)) 3.
Inductive channel : Set := Red | Green | Blue.
Definition channel8 (ch : channel) : Z -> Z := match ch with Red => red8 | Green => green8 | Blue => blue8 end.

(** A level of the client: from the second colour to the first, by thirds. *)
Definition level (i v0 v1 : Z) : Z := (i * v0 + (3 - i) * v1) / 3.
(** DXT1: a block whose first colour is not the larger one has three colours and black. *)
Definition dxt1 (four : bool) (i v0 v1 : Z) : Z :=
  if i =? 0 then v0 else if i =? 1 then v1 else
  if four then (if i =? 2 then (2 * v0 + v1) / 3 else (v0 + 2 * v1) / 3) else (if i =? 2 then (v0 + v1) / 2 else 0).
Definition sent_pixel (ch : channel) (b k : Z) : Z :=
  level (index_at b k) (channel8 ch (colour0 b)) (channel8 ch (colour1 b)).
Definition shown_pixel (ch : channel) (b k : Z) : Z :=
  dxt1 (colour1 b <? colour0 b) (index_at b k) (channel8 ch (colour0 b)) (channel8 ch (colour1 b)).

(** The blocks that the client makes: the first colour is the larger one, or all pixels
    are the second. *)
Definition client_block (b : Z) : Prop := 0 <= b < 2 ^ 64 /\ (colour1 b <= colour0 b \/ Z.shiftr b 32 = 0).

(** ** Exhaustive checks *)
Fixpoint zfrom (z : Z) (n : nat) : list Z := match n with O => [] | S n => z :: zfrom (z + 1) n end.
Definition zseq (n : nat) : list Z := zfrom 0 n.
Lemma zfrom_all (n : nat) (f : Z -> bool) z : forallb f (zfrom z n) = true -> forall x, z <= x < z + Z.of_nat n -> f x = true.
Proof.
  revert z. induction n as [| n IH]; intros z H x Hx; [lia |]. cbn [zfrom forallb] in H. apply andb_true_iff in H as [H1 H2].
  destruct (Z.eq_dec x z) as [-> | Hne]; [exact H1 |]. apply (IH _ H2). lia.
Qed.
Lemma zseq_all (n : nat) (f : Z -> bool) : forallb f (zseq n) = true -> forall x, 0 <= x < Z.of_nat n -> f x = true.
Proof. intros H x Hx. apply (zfrom_all n f 0 H). lia. Qed.
Lemma zseq_all2 (n m : nat) (f : Z -> Z -> bool) :
  forallb (fun x => forallb (f x) (zseq m)) (zseq n) = true -> forall x y, 0 <= x < Z.of_nat n -> 0 <= y < Z.of_nat m -> f x y = true.
Proof. intros H x y Hx Hy. apply (zseq_all m (f x)); [| exact Hy]. exact (zseq_all n _ H x Hx). Qed.

(** A channel of five or six bits, with eight. *)
Definition wide5 (x : Z) : Z := Z.lor (Z.shiftl x 3) (Z.shiftr x 2).
Definition wide6 (x : Z) : Z := Z.lor (Z.shiftl x 2) (Z.shiftr x 4).
Definition width (ch : channel) : nat := match ch with Green => 64 | _ => 32 end.
Definition wide (ch : channel) : Z -> Z := match ch with Green => wide6 | _ => wide5 end.
Definition part (ch : channel) (c : Z) : Z := match ch with Red => c / 2048 | Green => (c / 32) mod 64 | Blue => c mod 32 end.

Definition parts_ok (c : Z) : bool :=
  (red c =? 2048 * (c / 2048)) && (green c =? 32 * ((c / 32) mod 64)) && (blue c =? c mod 32) &&
  (red8 c =? wide5 (c / 2048)) && (green8 c =? wide6 ((c / 32) mod 64)) && (blue8 c =? wide5 (c mod 32)) &&
  (Z.lor (Z.lor (2048 * (c / 2048)) (32 * ((c / 32) mod 64))) (c mod 32) =? c).
Lemma parts_all c : 0 <= c < 65536 -> parts_ok c = true.
Proof. intros Hc. apply (zseq_all (Z.to_nat 65536)); [vm_compute; reflexivity |]. rewrite Z2Nat.id; lia. Qed.
Lemma channel8_wide ch c : 0 <= c < 65536 -> channel8 ch c = wide ch (part ch c).
Proof.
  intros Hc. pose proof (parts_all c Hc) as H. unfold parts_ok in H. rewrite !andb_true_iff, !Z.eqb_eq in H. destruct ch; cbn; tauto.
Qed.
Lemma part_range ch c : 0 <= c < 65536 -> 0 <= part ch c < Z.of_nat (width ch).
Proof.
  intros Hc. destruct ch; cbn [part width].
  - split; [apply Z.div_pos; lia | apply Z.div_lt_upper_bound; lia].
  - change (Z.of_nat 64) with 64. apply Z.mod_pos_bound. lia.
  - change (Z.of_nat 32) with 32. apply Z.mod_pos_bound. lia.
Qed.

(** ** Colours *)
Lemma average_parts ch c0 c1 : 0 <= c0 < 65536 -> 0 <= c1 < 65536 ->
  0 <= average c0 c1 < 65536 /\ part ch (average c0 c1) = (part ch c0 + part ch c1) / 2.
Proof.
  intros H0 H1. pose proof (parts_all c0 H0) as P0. pose proof (parts_all c1 H1) as P1.
  unfold parts_ok in P0, P1. rewrite !andb_true_iff, !Z.eqb_eq in P0, P1.
  destruct P0 as ((((((R0 & G0) & B0) & _) & _) & _) & _), P1 as ((((((R1 & G1) & B1) & _) & _) & _) & _).
  pose proof (part_range Red c0 H0) as r0. pose proof (part_range Green c0 H0) as g0. pose proof (part_range Blue c0 H0) as b0.
  pose proof (part_range Red c1 H1) as r1. pose proof (part_range Green c1 H1) as g1. pose proof (part_range Blue c1 H1) as b1.
  unfold average. rewrite R0, R1, G0, G1, B0, B1. cbn [part width] in *. cbv [Z.of_nat Pos.of_succ_nat Pos.succ] in *.
  set (x := c0 / 2048) in *. set (x' := c1 / 2048) in *. set (y := (c0 / 32) mod 64) in *. set (y' := (c1 / 32) mod 64) in *.
  set (z := c0 mod 32) in *. set (z' := c1 mod 32) in *.
  assert (Er : Z.land (Z.shiftr (2048 * x + 2048 * x') 1) 0xF800 = 2048 * ((x + x') / 2)).
  { rewrite <- Z.mul_add_distr_l. apply Z.eqb_eq. apply (zseq_all 64 (fun s => Z.land (Z.shiftr (2048 * s) 1) 0xF800 =? 2048 * (s / 2))); [vm_compute; reflexivity |].
    change (Z.of_nat 64) with 64. lia. }
  assert (Eg : Z.land (Z.shiftr (32 * y + 32 * y') 1) 0x07E0 = 32 * ((y + y') / 2)).
  { rewrite <- Z.mul_add_distr_l. apply Z.eqb_eq. apply (zseq_all 128 (fun s => Z.land (Z.shiftr (32 * s) 1) 0x07E0 =? 32 * (s / 2))); [vm_compute; reflexivity |].
    change (Z.of_nat 128) with 128. lia. }
  rewrite Er, Eg, Z.shiftr_div_pow2 by lia. change (2 ^ 1) with 2.
  set (a := (x + x') / 2). set (b := (y + y') / 2). set (c := (z + z') / 2).
  assert (0 <= a < 32) by (subst a; split; [apply Z.div_pos; lia | apply Z.div_lt_upper_bound; lia]).
  assert (0 <= b < 64) by (subst b; split; [apply Z.div_pos; lia | apply Z.div_lt_upper_bound; lia]).
  assert (0 <= c < 32) by (subst c; split; [apply Z.div_pos; lia | apply Z.div_lt_upper_bound; lia]).
  set (s := 2048 * a + 32 * b + c).
  assert (Sr : s / 2048 = a) by (symmetry; apply (Z.div_unique s 2048 a (32 * b + c)); lia).
  assert (Sg' : s / 32 = 64 * a + b) by (symmetry; apply (Z.div_unique s 32 (64 * a + b) c); lia).
  assert (Sg : (s / 32) mod 64 = b) by (rewrite Sg'; symmetry; apply (Z.mod_unique _ 64 a b); lia).
  assert (Sb : s mod 32 = c) by (symmetry; apply (Z.mod_unique s 32 (64 * a + b) c); lia).
  assert (Hs : 0 <= s < 65536) by lia.
  pose proof (parts_all s Hs) as Ps. unfold parts_ok in Ps. rewrite !andb_true_iff, !Z.eqb_eq in Ps. destruct Ps as [_ El].
  rewrite Sr, Sg, Sb in El. rewrite El. split; [exact Hs |]. destruct ch; cbn [part]; assumption.
Qed.

(** ** How far a channel moves *)
Definition near9 (v v' : Z) : bool := Z.abs (v - v') <=? 9.
Definition levels (f : Z -> bool) : bool := f 0 && f 1 && f 2 && f 3.
Lemma levels_all f i : levels f = true -> 0 <= i < 4 -> f i = true.
Proof.
  unfold levels. rewrite !andb_true_iff. intros (((H0 & H1) & H2) & H3) Hi.
  destruct (Z.eq_dec i 0) as [-> |]; [done |]. destruct (Z.eq_dec i 1) as [-> |]; [done |]. destruct (Z.eq_dec i 2) as [-> |]; [done |].
  now replace i with 3 by lia.
Qed.
(** The largest difference between the colours at which a block is simplified. *)
Definition limit1 (ch : channel) : Z := match ch with Red => 13 | Green => 12 | Blue => 14 end.
Definition limit2 (ch : channel) : Z := match ch with Red => 14 | Green => 12 | Blue => 17 end.
Definition limit3 (ch : channel) : Z := match ch with Red => 50 | Green => 48 | Blue => 53 end.
Definition near_table (limit : channel -> Z) (f : channel -> Z -> Z -> Z -> Z) (ch : channel) : bool :=
  forallb (fun x => forallb (fun y =>
    if Z.abs (wide ch x - wide ch y) <=? limit ch
    then levels (fun i => near9 (level i (wide ch x) (wide ch y)) (f ch i x y)) else true) (zseq (width ch))) (zseq (width ch)).
Lemma near_all limit f ch c0 c1 i : near_table limit f ch = true -> 0 <= c0 < 65536 -> 0 <= c1 < 65536 -> 0 <= i < 4 ->
  Z.abs (channel8 ch c0 - channel8 ch c1) <= limit ch ->
  Z.abs (level i (channel8 ch c0) (channel8 ch c1) - f ch i (part ch c0) (part ch c1)) <= 9.
Proof.
  intros Ht H0 H1 Hi Hl. rewrite !channel8_wide in * by done.
  pose proof (zseq_all2 _ _ _ Ht (part ch c0) (part ch c1) (part_range ch c0 H0) (part_range ch c1 H1)) as H. cbv beta in H.
  rewrite (proj2 (Z.leb_le _ _)) in H by exact Hl. apply (levels_all _ i) in H; [| exact Hi]. now apply Z.leb_le in H.
Qed.
(** The three ways: one colour, two colours, the average between them. *)
Definition one_colour (ch : channel) (i x y : Z) : Z := wide ch ((x + y) / 2).
Definition two_colours (ch : channel) (i x y : Z) : Z := if i <? 2 then wide ch y else wide ch x.
Definition three_colours (ch : channel) (i x y : Z) : Z :=
  if i =? 0 then wide ch y else if i =? 3 then wide ch x else (wide ch y + wide ch x) / 2.
Lemma near_1 ch : near_table limit1 one_colour ch = true.
Proof. destruct ch; vm_compute; reflexivity. Qed.
Lemma near_2 ch : near_table limit2 two_colours ch = true.
Proof. destruct ch; vm_compute; reflexivity. Qed.
Lemma near_3 ch : near_table limit3 three_colours ch = true.
Proof. destruct ch; vm_compute; reflexivity. Qed.

(** ** Indices *)
Lemma index_bits b k : 0 <= k -> index_at b k = Z.b2z (Z.testbit b (32 + 2 * k)) + 2 * Z.b2z (Z.testbit b (33 + 2 * k)).
Proof.
  intros Hk. unfold index_at. change 3 with (Z.ones 2). rewrite Z.land_ones by lia.
  set (x := Z.shiftr b (32 + 2 * k)).
  replace (Z.testbit b (32 + 2 * k)) with (Z.testbit x 0) by (subst x; rewrite Z.shiftr_spec by lia; f_equal; lia).
  replace (Z.testbit b (33 + 2 * k)) with (Z.testbit x 1) by (subst x; rewrite Z.shiftr_spec by lia; f_equal; lia).
  rewrite !Z.testbit_spec' by lia. change (2 ^ 2) with 4. change (2 ^ 0) with 1. change (2 ^ 1) with 2.
  Z.to_euclidean_division_equations. lia.
Qed.
Lemma index_range b k : 0 <= k -> 0 <= index_at b k < 4.
Proof. intros Hk. rewrite index_bits by done. destruct (Z.testbit b (32 + 2 * k)), (Z.testbit b (33 + 2 * k)); cbn; lia. Qed.
Lemma mask_even n : 0 <= n < 32 -> Z.testbit 0x55555555 n = Z.even n.
Proof. intros Hn. apply eqb_prop. apply (zseq_all 32 (fun n => Bool.eqb (Z.testbit 0x55555555 n) (Z.even n))); [vm_compute; reflexivity | exact Hn]. Qed.
Lemma mask_odd n : 0 <= n < 32 -> Z.testbit 0xAAAAAAAA n = Z.odd n.
Proof. intros Hn. apply eqb_prop. apply (zseq_all 32 (fun n => Bool.eqb (Z.testbit 0xAAAAAAAA n) (Z.odd n))); [vm_compute; reflexivity | exact Hn]. Qed.
Lemma mask_all n : 0 <= n < 32 -> Z.testbit 0xFFFFFFFF n = true.
Proof. intros Hn. apply (zseq_all 32 (fun n => Z.testbit 0xFFFFFFFF n)); [vm_compute; reflexivity | exact Hn]. Qed.
Lemma even_twice k : Z.even (2 * k) = true. Proof. rewrite Z.even_mul. done. Qed.
Lemma odd_twice k : Z.odd (2 * k) = false. Proof. rewrite Z.odd_mul. done. Qed.

(** The low half of a block, and the bits of the high half. *)
Lemma low_half_bits x t n : 0 <= n < 32 -> Z.testbit (Z.lor (Z.land x 0xFFFFFFFF) (Z.shiftl t 32)) n = Z.testbit x n.
Proof.
  intros Hn. rewrite Z.lor_spec, Z.land_spec, mask_all, andb_true_r, Z.shiftl_spec_low by lia. apply orb_false_r.
Qed.
Lemma high_half_bits x t n : 0 <= n -> Z.testbit (Z.lor (Z.land x 0xFFFFFFFF) (Z.shiftl t 32)) (32 + n) = Z.testbit t n.
Proof.
  intros Hn. rewrite Z.lor_spec, Z.land_spec, Z.shiftl_spec by lia. change 0xFFFFFFFF with (Z.ones 32).
  rewrite Z.ones_spec_high by lia. rewrite andb_false_r. cbn [orb]. f_equal. lia.
Qed.
Lemma colours_of_low x y : (forall n, 0 <= n < 32 -> Z.testbit x n = Z.testbit y n) -> colour0 x = colour0 y /\ colour1 x = colour1 y.
Proof.
  intros H. unfold colour0, colour1. change 0xFFFF with (Z.ones 16). split; apply Z.bits_inj'; intros n Hn; rewrite !Z.land_spec;
    (destruct (Z.ltb_spec n 16); [| rewrite !Z.ones_spec_high by lia; now rewrite !andb_false_r]).
  - now rewrite H by lia.
  - rewrite !Z.shiftr_spec by lia. now rewrite H by lia.
Qed.

(** The order of the client and the order of the card. *)
Definition card_index (i : Z) : Z := if i =? 0 then 1 else if i =? 1 then 3 else if i =? 2 then 2 else 0.
Lemma fix_block_colours b : colour0 (fix_block b) = colour0 b /\ colour1 (fix_block b) = colour1 b.
Proof. apply colours_of_low. intros n Hn. unfold fix_block. cbv zeta. now apply low_half_bits. Qed.
Lemma fix_block_index b k : 0 <= k < 16 -> index_at (fix_block b) k = card_index (index_at b k).
Proof.
  intros Hk. rewrite !index_bits by lia. unfold fix_block. cbv zeta. replace (33 + 2 * k) with (32 + (2 * k + 1)) by lia.
  rewrite !high_half_bits by lia.
  set (x := Z.lxor (Z.shiftr b 32) 0xFFFFFFFF).
  assert (Hx : forall n, 0 <= n < 32 -> Z.testbit x n = negb (Z.testbit b (32 + n))).
  { intros n Hn. unfold x. rewrite Z.lxor_spec, Z.shiftr_spec, mask_all, xorb_true_r by lia. do 2 f_equal. lia. }
  assert (Ho : Z.odd (2 * k + 1) = true) by (rewrite Z.odd_add, odd_twice; done).
  assert (He : Z.even (2 * k + 1) = false) by (rewrite Z.even_add, even_twice; done).
  assert (Hsh : forall n, 0 <= n < 32 -> Z.testbit (uint 32 (Z.shiftl (Z.land x 0x55555555) 1)) n =
    if n =? 0 then false else Z.testbit x (n - 1) && Z.even (n - 1)).
  { intros n Hn. unfold uint. rewrite Z.mod_pow2_bits_low by lia. rewrite Z.shiftl_spec by lia. destruct (Z.eqb_spec n 0) as [-> | Hne]; [apply Z.testbit_neg_r; lia |].
    now rewrite Z.land_spec, mask_even by lia. }
  assert (Hlo : Z.testbit (Z.lxor (Z.lor (uint 32 (Z.shiftl (Z.land x 0x55555555) 1)) (Z.shiftr (Z.land x 0xAAAAAAAA) 1)) (Z.land x 0xAAAAAAAA)) (2 * k)
    = negb (Z.testbit b (32 + (2 * k + 1)))).
  { rewrite Z.lxor_spec, Z.lor_spec, Hsh, Z.shiftr_spec, !Z.land_spec, !mask_odd, Ho, odd_twice, andb_false_r, xorb_false_r, andb_true_r by lia. rewrite (Hx (2 * k + 1)) by lia.
    destruct (Z.eqb_spec (2 * k) 0) as [-> | Hne]; [done |]. replace (Z.even (2 * k - 1)) with false; [rewrite andb_false_r; done |].
    replace (2 * k - 1) with (2 * (k - 1) + 1) by lia. rewrite Z.even_add, even_twice. done. }
  assert (Hhi : Z.testbit (Z.lxor (Z.lor (uint 32 (Z.shiftl (Z.land x 0x55555555) 1)) (Z.shiftr (Z.land x 0xAAAAAAAA) 1)) (Z.land x 0xAAAAAAAA)) (2 * k + 1)
    = xorb (negb (Z.testbit b (32 + 2 * k))) (negb (Z.testbit b (32 + (2 * k + 1))))).
  { rewrite Z.lxor_spec, Z.lor_spec, Hsh, Z.shiftr_spec, !Z.land_spec by lia. rewrite (mask_odd (2 * k + 1)), Ho, andb_true_r by lia.
    rewrite (proj2 (Z.eqb_neq _ _)) by lia. replace (2 * k + 1 - 1) with (2 * k) by lia. rewrite even_twice, andb_true_r, (Hx (2 * k)), (Hx (2 * k + 1)) by lia.
    replace (2 * k + 1 + 1) with (2 * (k + 1)) by lia. replace (Z.testbit 0xAAAAAAAA (2 * (k + 1))) with false; [now rewrite andb_false_r, orb_false_r |].
    destruct (Z.eq_dec k 15) as [-> | Hne]; [reflexivity |]. now rewrite mask_odd, odd_twice by lia. }
  rewrite Hlo, Hhi. destruct (Z.testbit b (32 + 2 * k)), (Z.testbit b (32 + (2 * k + 1))); reflexivity.
Qed.

(** ** The cases of [Rdo] *)
Lemma index_eq b k x i : 0 <= k -> 0 <= i -> (forall m, 0 <= m < 2 -> Z.testbit b (32 + 2 * k + m) = Z.testbit x (2 * i + m)) ->
  index_at b k = Z.land (Z.shiftr x (2 * i)) 3.
Proof.
  intros Hk Hi H. unfold index_at. change 3 with (Z.ones 2). apply Z.bits_inj'. intros n Hn. rewrite !Z.land_spec.
  destruct (Z.ltb_spec n 2); [| rewrite !Z.ones_spec_high by lia; now rewrite !andb_false_r].
  rewrite !Z.shiftr_spec by lia. replace (n + (32 + 2 * k)) with (32 + 2 * k + n) by lia. rewrite H by lia. do 2 f_equal. lia.
Qed.
Definition three_index (i : Z) : Z := if i =? 0 then 1 else if i =? 1 then 0 else 2.
Definition entry_ok (v t : Z) : bool := (0 <=? t) && (t <? 256) &&
  forallb (fun i => Z.land (Z.shiftr t (2 * i)) 3 =? three_index (Z.land (Z.shiftr v (2 * i)) 3)) [0; 1; 2; 3].
Definition table_ok (v : Z) : bool := match Dxtc4To3Table !! Z.to_nat v with Some t => entry_ok v t | None => false end.
Lemma table_all : forallb table_ok (zseq 256) = true.
Proof. vm_compute. reflexivity. Qed.
Lemma table_entry v : 0 <= v < 256 -> exists t, Dxtc4To3Table !! Z.to_nat v = Some t /\ 0 <= t < 256 /\
  forall i, 0 <= i < 4 -> Z.land (Z.shiftr t (2 * i)) 3 = three_index (Z.land (Z.shiftr v (2 * i)) 3).
Proof.
  intros Hv. pose proof (zseq_all 256 table_ok table_all v Hv) as H. unfold table_ok in H.
  destruct (Dxtc4To3Table !! Z.to_nat v) as [t |]; [| discriminate H].
  exists t. split; [done |]. unfold entry_ok in H. rewrite !andb_true_iff, Z.leb_le, Z.ltb_lt, forallb_forall in H. destruct H as [Ht H].
  split; [exact Ht |]. intros i Hi. apply Z.eqb_eq, H. assert (i = 0 \/ i = 1 \/ i = 2 \/ i = 3) as [-> | [-> | [-> | ->]]] by lia; cbn; auto.
Qed.
Lemma byte_high t n : 0 <= t < 256 -> 8 <= n -> Z.testbit t n = false.
Proof.
  intros Ht Hn. rewrite <- (Z.mod_small t (2 ^ 8)) by (change (2 ^ 8) with 256; lia). apply Z.mod_pow2_bits_high. lia.
Qed.
(** Four bytes over a word. *)
Lemma four_bytes_low low t0 t1 t2 t3 n : 0 <= n < 32 ->
  Z.testbit (Z.lor (Z.lor (Z.lor (Z.lor low (Z.shiftl t0 32)) (Z.shiftl t1 40)) (Z.shiftl t2 48)) (Z.shiftl t3 56)) n = Z.testbit low n.
Proof. intros Hn. rewrite !Z.lor_spec, !Z.shiftl_spec_low by lia. now rewrite !orb_false_r. Qed.
Lemma four_bytes_high low t0 t1 t2 t3 j i : 0 <= low < 2 ^ 32 -> 0 <= t0 < 256 -> 0 <= t1 < 256 -> 0 <= t2 < 256 -> 0 <= t3 < 256 ->
  0 <= j < 4 -> 0 <= i < 8 ->
  Z.testbit (Z.lor (Z.lor (Z.lor (Z.lor low (Z.shiftl t0 32)) (Z.shiftl t1 40)) (Z.shiftl t2 48)) (Z.shiftl t3 56)) (32 + 8 * j + i) =
  Z.testbit (if j =? 0 then t0 else if j =? 1 then t1 else if j =? 2 then t2 else t3) i.
Proof.
  intros Hl H0 H1 H2 H3 Hj Hi. rewrite !Z.lor_spec, !Z.shiftl_spec by lia.
  replace (Z.testbit low (32 + 8 * j + i)) with false
    by (rewrite <- (Z.mod_small low (2 ^ 32)) by exact Hl; symmetry; apply Z.mod_pow2_bits_high; lia).
  assert (j = 0 \/ j = 1 \/ j = 2 \/ j = 3) as [-> | [-> | [-> | ->]]] by lia; cbn [Z.eqb Pos.eqb];
    repeat match goal with
    | |- context [Z.testbit ?t ?n] =>
        first [rewrite (Z.testbit_neg_r t n) by lia | rewrite (byte_high t n) by lia]
    end; rewrite ?orb_false_r, ?orb_false_l; cbn [orb]; f_equal; lia.
Qed.

Lemma byte_index idx j i : 0 <= j -> 0 <= i < 4 ->
  Z.land (Z.shiftr (Z.land (Z.shiftr idx (j * 8)) 0xFF) (2 * i)) 3 = Z.land (Z.shiftr idx (2 * (4 * j + i))) 3.
Proof.
  intros Hj Hi. change 3 with (Z.ones 2). change 0xFF with (Z.ones 8). apply Z.bits_inj'. intros n Hn. rewrite !Z.land_spec.
  destruct (Z.ltb_spec n 2); [| rewrite !(Z.ones_spec_high 2) by lia; now rewrite !andb_false_r].
  rewrite !Z.shiftr_spec, Z.land_spec, Z.shiftr_spec, (Z.ones_spec_low 8) by lia. rewrite andb_true_r. do 2 f_equal. lia.
Qed.
Lemma to_3_colours_spec c0 c1 idx : 0 <= c0 < 65536 -> 0 <= c1 < 65536 -> 0 <= idx ->
  exists d, to_3_colours c0 c1 idx = Some d /\ colour0 d = c1 /\ colour1 d = c0 /\
    forall k, 0 <= k < 16 -> index_at d k = three_index (Z.land (Z.shiftr idx (2 * k)) 3).
Proof.
  intros H0 H1 Hidx. unfold to_3_colours, table_indices.
  assert (Hv : forall s, 0 <= Z.land (Z.shiftr idx s) 0xFF < 256).
  { intros s. change 0xFF with (Z.ones 8). rewrite Z.land_ones by lia. change 256 with (2 ^ 8). apply Z.mod_pos_bound. lia. }
  destruct (table_entry _ (Hv (0 * 8))) as (t0 & E0 & R0 & T0). rewrite E0. bind_red.
  destruct (table_entry _ (Hv (1 * 8))) as (t1 & E1 & R1 & T1). rewrite E1. bind_red.
  destruct (table_entry _ (Hv (2 * 8))) as (t2 & E2 & R2 & T2). rewrite E2. bind_red.
  destruct (table_entry _ (Hv (3 * 8))) as (t3 & E3 & R3 & T3). rewrite E3. bind_red.
  change (32 + 0 * 8) with 32. change (32 + 1 * 8) with 40. change (32 + 2 * 8) with 48. change (32 + 3 * 8) with 56.
  set (low := Z.lor c1 (Z.shiftl c0 16)). eexists. split; [reflexivity |].
  assert (Hlow : low = c1 + 65536 * c0).
  { unfold low. rewrite Z.shiftl_mul_pow2 by lia. change (2 ^ 16) with 65536. rewrite (Z.mul_comm c0). 
    rewrite <- Z.lxor_lor, Z.add_nocarry_lxor; [lia | |];
      (apply Z.bits_inj'; intros n Hn; rewrite Z.land_spec, Z.bits_0; change 65536 with (2 ^ 16); rewrite Z.mul_comm, <- Z.shiftl_mul_pow2 by lia;
       destruct (Z.ltb_spec n 16); [rewrite Z.shiftl_spec_low by lia; apply andb_false_r |
         rewrite <- (Z.mod_small c1 (2 ^ 16)) by (change (2 ^ 16) with 65536; lia); rewrite Z.mod_pow2_bits_high by lia; done]). }
  destruct (colours_of_low (Z.lor (Z.lor (Z.lor (Z.lor low (Z.shiftl t0 32)) (Z.shiftl t1 40)) (Z.shiftl t2 48)) (Z.shiftl t3 56)) low)
    as [C0 C1]; [intros n Hn; now apply four_bytes_low |].
  rewrite C0, C1. unfold colour0, colour1. change 0xFFFF with (Z.ones 16). rewrite !Z.land_ones by lia. change (2 ^ 16) with 65536.
  rewrite Z.shiftr_div_pow2 by lia. change (2 ^ 16) with 65536. rewrite Hlow.
  split; [symmetry; apply (Z.mod_unique _ _ c0); lia |].
  split; [rewrite (Z.mul_comm 65536), Z.div_add, Z.div_small, Z.add_0_l by lia; apply Z.mod_small; lia |].
  intros k Hk. rewrite <- Hlow. set (j := k / 4). set (i := k mod 4).
  assert (Hk' : k = 4 * j + i) by (apply Z.div_mod; lia).
  assert (Hi : 0 <= i < 4) by (apply Z.mod_pos_bound; lia).
  assert (Hj : 0 <= j < 4) by (split; [apply Z.div_pos; lia | apply Z.div_lt_upper_bound; lia]).
  rewrite (index_eq _ k (if j =? 0 then t0 else if j =? 1 then t1 else if j =? 2 then t2 else t3) i); [| lia | lia |].
  - rewrite Hk', <- byte_index by lia. destruct (Z.eqb_spec j 0) as [-> | ]; [now apply T0 |]. destruct (Z.eqb_spec j 1) as [-> | ]; [now apply T1 |].
    destruct (Z.eqb_spec j 2) as [-> | ]; [now apply T2 |]. replace j with 3 by lia. now apply T3.
  - intros m Hm. replace (32 + 2 * k + m) with (32 + 8 * j + (2 * i + m)) by lia. apply four_bytes_high; lia.
Qed.

Lemma max3_spec a b c : max3 a b c = Z.max a (Z.max b c).
Proof. unfold max3. repeat case_match; rewrite ?Z.ltb_lt, ?Z.ltb_ge in *; lia. Qed.
Definition table_range (l : list Z) (lo hi : Z) : bool := forallb (fun x => (lo <=? x) && (x <=? hi)) l.
Lemma table_lookup l lo hi i : table_range l lo hi = true -> 0 <= i < Z.of_nat (length l) ->
  exists x, l !! Z.to_nat i = Some x /\ lo <= x <= hi.
Proof.
  intros Hl Hi. destruct (lookup_lt_is_Some_2 l (Z.to_nat i)) as [x Hx]; [lia |]. exists x. split; [exact Hx |].
  unfold table_range in Hl. rewrite forallb_forall in Hl. apply list_elem_of_lookup_2, list_elem_of_In, Hl in Hx.
  rewrite andb_true_iff, !Z.leb_le in Hx. exact Hx.
Qed.
Lemma channel8_range ch c : 0 <= c < 65536 -> 0 <= channel8 ch c < 256.
Proof.
  intros Hc. rewrite channel8_wide by done. pose proof (part_range ch c Hc) as Hp.
  assert (H : forall x, 0 <= x < Z.of_nat (width ch) -> (0 <=? wide ch x) && (wide ch x <? 256) = true)
    by (apply zseq_all; destruct ch; vm_compute; reflexivity).
  specialize (H _ Hp). rewrite andb_true_iff, Z.leb_le, Z.ltb_lt in H. exact H.
Qed.

(** ** A block *)
Definition near_block (b d : Z) : Prop := forall ch k, 0 <= k < 16 -> Z.abs (sent_pixel ch b k - shown_pixel ch d k) <= 9.

Lemma colour_range b : 0 <= colour0 b < 65536 /\ 0 <= colour1 b < 65536.
Proof.
  unfold colour0, colour1. change 0xFFFF with (Z.ones 16). rewrite !Z.land_ones by lia. change 65536 with (2 ^ 16).
  split; apply Z.mod_pos_bound; lia.
Qed.
Lemma level_ends v0 v1 : level 0 v0 v1 = v1 /\ level 3 v0 v1 = v0.
Proof.
  unfold level. change (3 - 0) with 3. change (3 - 3) with 0. rewrite !Z.mul_0_l, Z.add_0_l, Z.add_0_r, (Z.mul_comm 3 v1), (Z.mul_comm 3 v0), !Z.div_mul by lia. done.
Qed.
(** All four levels, in the order of the card. *)
Lemma card_level i v0 v1 : 0 <= i < 4 -> dxt1 true (card_index i) v0 v1 = level i v0 v1.
Proof.
  intros Hi. destruct (level_ends v0 v1) as [L0 L3].
  assert (i = 0 \/ i = 1 \/ i = 2 \/ i = 3) as [-> | [-> | [-> | ->]]] by lia; cbn [card_index dxt1 Z.eqb Pos.eqb];
    [now rewrite L0 | unfold level; f_equal; lia | unfold level; f_equal; lia | now rewrite L3].
Qed.
Lemma all_second d b : 0 <= b -> Z.shiftr (fix_block b) 32 = 0x55555555 -> d = fix_block b -> near_block b d.
Proof.
  intros Hb E -> ch k Hk. pose proof (fix_block_index b k Hk) as Hf. destruct (fix_block_colours b) as [C0 C1].
  assert (H1 : index_at (fix_block b) k = 1).
  { rewrite (index_eq _ k 0x55555555 k); [| lia | lia |].
    - apply Z.eqb_eq. apply (zseq_all 16 (fun k => Z.land (Z.shiftr 0x55555555 (2 * k)) 3 =? 1)); [vm_compute; reflexivity | exact Hk].
    - intros m Hm. rewrite <- E, Z.shiftr_spec by lia. f_equal. lia. }
  pose proof (index_range b k ltac:(lia)) as Hr. rewrite H1 in Hf.
  assert (H0 : index_at b k = 0).
  { unfold card_index in Hf. destruct (Z.eqb_spec (index_at b k) 0); [done |]. repeat case_match; discriminate Hf. }
  unfold sent_pixel, shown_pixel. rewrite H1, H0, C0, C1. cbn [dxt1 Z.eqb Pos.eqb]. destruct (level_ends (channel8 ch (colour0 b)) (channel8 ch (colour1 b))) as [-> _]. lia.
Qed.
Lemma fix_block_solid b : Z.shiftr b 32 = 0 -> Z.shiftr (fix_block b) 32 = 0x55555555.
Proof.
  intros E. unfold fix_block. rewrite E. cbv zeta. apply Z.bits_inj'. intros n Hn. rewrite Z.shiftr_spec, (Z.add_comm n), high_half_bits by lia.
  reflexivity.
Qed.
Lemma near_average b : colour1 b <= colour0 b -> (forall ch, Z.abs (channel8 ch (colour0 b) - channel8 ch (colour1 b)) <= limit1 ch) ->
  near_block b (average (colour0 b) (colour1 b)).
Proof.
  intros Hc Hl ch k Hk. destruct (colour_range b) as [R0 R1]. destruct (average_parts ch _ _ R0 R1) as [Ra Ea].
  set (a := average _ _) in *.
  assert (C0 : colour0 a = a) by (unfold colour0; change 0xFFFF with (Z.ones 16); rewrite Z.land_ones by lia; apply Z.mod_small; exact Ra).
  assert (Hi : index_at a k = 0).
  { unfold index_at. rewrite Z.shiftr_div_pow2, Z.div_small; [done | | lia]. split; [lia |].
    apply Z.lt_le_trans with (2 ^ 32); [change (2 ^ 32) with 4294967296; lia | apply Z.pow_le_mono_r; lia]. }
  unfold shown_pixel. rewrite Hi, C0. cbn [dxt1 Z.eqb]. rewrite channel8_wide by exact Ra. rewrite Ea.
  exact (near_all limit1 one_colour ch _ _ _ (near_1 ch) R0 R1 (index_range b k ltac:(lia)) (Hl ch)).
Qed.
Lemma near_two b d : (forall ch, Z.abs (channel8 ch (colour0 b) - channel8 ch (colour1 b)) <= limit2 ch) ->
  colour0 d = colour0 b -> colour1 d = colour1 b -> (forall k, 0 <= k < 16 -> index_at d k = Z.land (card_index (index_at b k)) 1) -> near_block b d.
Proof.
  intros Hl C0 C1 Hi ch k Hk. destruct (colour_range b) as [R0 R1]. pose proof (index_range b k ltac:(lia)) as Hr.
  pose proof (near_all limit2 two_colours ch _ _ _ (near_2 ch) R0 R1 Hr (Hl ch)) as Hn.
  unfold shown_pixel, sent_pixel. rewrite Hi, C0, C1 by exact Hk.
  replace (dxt1 _ _ _ _) with (two_colours ch (index_at b k) (part ch (colour0 b)) (part ch (colour1 b))); [exact Hn |].
  rewrite !channel8_wide by done. unfold two_colours.
  assert (index_at b k = 0 \/ index_at b k = 1 \/ index_at b k = 2 \/ index_at b k = 3) as [-> | [-> | [-> | ->]]] by lia; reflexivity.
Qed.
Lemma near_three b d : colour1 b <= colour0 b -> (forall ch, Z.abs (channel8 ch (colour0 b) - channel8 ch (colour1 b)) <= limit3 ch) ->
  colour0 d = colour1 b -> colour1 d = colour0 b -> (forall k, 0 <= k < 16 -> index_at d k = three_index (card_index (index_at b k))) -> near_block b d.
Proof.
  intros Hc Hl C0 C1 Hi ch k Hk. destruct (colour_range b) as [R0 R1]. pose proof (index_range b k ltac:(lia)) as Hr.
  pose proof (near_all limit3 three_colours ch _ _ _ (near_3 ch) R0 R1 Hr (Hl ch)) as Hn.
  unfold shown_pixel, sent_pixel. rewrite Hi, C0, C1, (proj2 (Z.ltb_ge _ _)) by done.
  replace (dxt1 _ _ _ _) with (three_colours ch (index_at b k) (part ch (colour0 b)) (part ch (colour1 b))); [exact Hn |].
  rewrite !channel8_wide by done. unfold three_colours.
  assert (index_at b k = 0 \/ index_at b k = 1 \/ index_at b k = 2 \/ index_at b k = 3) as [-> | [-> | [-> | ->]]] by lia; reflexivity.
Qed.
Lemma near_same b : colour1 b < colour0 b -> near_block b (fix_block b).
Proof.
  intros Hc ch k Hk. destruct (fix_block_colours b) as [C0 C1]. unfold shown_pixel, sent_pixel. rewrite C0, C1, (proj2 (Z.ltb_lt _ _)) by done.
  rewrite fix_block_index, card_level by (done || apply index_range; lia). lia.
Qed.

Lemma fix_index_and b k t : 0 <= k < 16 -> (forall n, 0 <= n -> Z.testbit t n = Z.testbit (fix_block b) (32 + n)) ->
  Z.land (Z.shiftr t (2 * k)) 3 = card_index (index_at b k).
Proof.
  intros Hk Ht. rewrite <- fix_block_index by done. symmetry. apply index_eq; [lia | lia |]. intros m Hm. rewrite Ht by lia. f_equal. lia.
Qed.
Lemma two_index b k : 0 <= k < 16 ->
  index_at (Z.lor (Z.land b 0xFFFFFFFF) (Z.shiftl (Z.land (Z.shiftr b 32) 0x55555555) 32)) k = Z.land (index_at b k) 1.
Proof.
  intros Hk. rewrite !index_bits by lia. replace (33 + 2 * k) with (32 + (2 * k + 1)) by lia.
  rewrite !high_half_bits, !Z.land_spec, !mask_even, even_twice, !Z.shiftr_spec by lia. rewrite Z.even_add, even_twice. cbn [Z.even Bool.eqb].
  rewrite andb_true_r, andb_false_r. replace (2 * k + 32) with (32 + 2 * k) by lia.
  now destruct (Z.testbit _ (32 + 2 * k)), (Z.testbit _ (32 + (2 * k + 1))).
Qed.
Lemma rdo_block_near b : client_block b -> exists d, rdo_block (fix_block b) = Some d /\ near_block b d.
Proof.
  intros [Hb Hc]. destruct (colour_range b) as [R0 R1]. destruct (fix_block_colours b) as [C0 C1].
  assert (Hf : forall n, 0 <= n -> Z.testbit (Z.shiftr (fix_block b) 32) n = Z.testbit (fix_block b) (32 + n))
    by (intros n Hn; rewrite Z.shiftr_spec by lia; f_equal; lia).
  unfold rdo_block. cbv zeta. change (Z.land (fix_block b) 0xFFFF) with (colour0 (fix_block b)).
  change (Z.land (Z.shiftr (fix_block b) 16) 0xFFFF) with (colour1 (fix_block b)). rewrite C0, C1.
  destruct (Z.eqb_spec (Z.shiftr (fix_block b) 32) 0x55555555) as [Es | Es].
  { eexists. split; [reflexivity |]. apply all_second; [lia | exact Es | reflexivity]. }
  assert (Hle : colour1 b <= colour0 b) by (destruct Hc as [Hc | Hc]; [exact Hc | now apply fix_block_solid in Hc]).
  clear Hc Es.
  pose proof (channel8_range Red _ R0) as r0. pose proof (channel8_range Green _ R0) as g0. pose proof (channel8_range Blue _ R0) as b0.
  pose proof (channel8_range Red _ R1) as r1. pose proof (channel8_range Green _ R1) as g1. pose proof (channel8_range Blue _ R1) as b1.
  cbn [channel8] in *. rewrite !max3_spec.
  assert (Hlim : forall limit, Z.abs (red8 (colour0 b) - red8 (colour1 b)) <= limit Red -> Z.abs (green8 (colour0 b) - green8 (colour1 b)) <= limit Green ->
    Z.abs (blue8 (colour0 b) - blue8 (colour1 b)) <= limit Blue -> forall ch, Z.abs (channel8 ch (colour0 b) - channel8 ch (colour1 b)) <= limit ch)
    by (intros limit ? ? ? []; assumption).
  set (dr := Z.abs (red8 _ - _)) in *. set (dg := Z.abs (green8 _ - _)) in *. set (db := Z.abs (blue8 _ - _)) in *.
  set (mc1 := Z.max (red8 _ - 1) _). set (mc23 := Z.max (red8 _ - 2) _).
  assert (M1 : 0 <= mc1 < 256) by (subst mc1; lia). assert (M23 : 0 <= mc23 < 256) by (subst mc23; lia).
  rewrite !Z.quot_div_nonneg by lia.
  assert (Q1 : 0 <= mc1 / 4 < 64) by (split; [apply Z.div_pos; lia | apply Z.div_lt_upper_bound; lia]).
  assert (Q2 : 0 <= mc23 / 16 < 16) by (split; [apply Z.div_pos; lia | apply Z.div_lt_upper_bound; lia]).
  destruct (table_lookup TrTbl1 3 12 (mc1 / 4) ltac:(vm_compute; reflexivity) Q1) as (tr1 & E1 & T1). rewrite E1. bind_red.
  destruct (Z.leb_spec (Z.max (dr - 1) (Z.max dg (db - 2))) tr1) as [L1 | L1].
  { eexists. split; [reflexivity |]. apply near_average; [exact Hle |]. apply Hlim; cbn [limit1]; clear -L1 T1; lia. }
  destruct (table_lookup TrTbl2 3 12 (mc23 / 16) ltac:(vm_compute; reflexivity) Q2) as (tr2 & E2 & T2). rewrite E2. bind_red.
  destruct (Z.leb_spec (Z.max (dr - 2) (Z.max dg (db - 5))) tr2) as [L2 | L2].
  { eexists. split; [reflexivity |]. apply near_two; [apply Hlim; cbn [limit2]; clear -L2 T2; lia | | |].
    - rewrite <- C0. apply (colours_of_low _ (fix_block b)). intros n Hn. now apply low_half_bits.
    - rewrite <- C1. apply (colours_of_low _ (fix_block b)). intros n Hn. now apply low_half_bits.
    - intros k Hk. rewrite <- fix_block_index by done. now apply two_index. }
  destruct (table_lookup TrTbl3 24 48 (mc23 / 16) ltac:(vm_compute; reflexivity) Q2) as (tr3 & E3 & T3). rewrite E3. bind_red.
  destruct (Z.leb_spec (Z.max (dr - 2) (Z.max dg (db - 5))) tr3) as [L3 | L3].
  { destruct (to_3_colours_spec (colour0 b) (colour1 b) (Z.shiftr (fix_block b) 32) R0 R1) as (d & Ed & D0 & D1 & Di).
    { apply Z.shiftr_nonneg. unfold fix_block. cbv zeta. apply Z.lor_nonneg. split; [apply Z.land_nonneg; lia |].
      apply Z.shiftl_nonneg. apply Z.lxor_nonneg. split; intros _; [apply Z.land_nonneg; lia |]. apply Z.lor_nonneg.
      split; [apply uint_range; lia | apply Z.shiftr_nonneg, Z.land_nonneg; lia]. }
    rewrite Ed. eexists. split; [reflexivity |]. apply near_three; [exact Hle | apply Hlim; cbn [limit3]; clear -L3 T3; lia | exact D0 | exact D1 |].
    intros k Hk. rewrite Di by done. f_equal. now apply fix_index_and. }
  eexists. split; [reflexivity |]. apply near_same. destruct (Z.eq_dec (colour1 b) (colour0 b)) as [E | E]; [| lia].
  exfalso. subst dr dg db. rewrite E in L1. clear -L1 T1. lia.
Qed.

(** ** The image *)
Definition block (data : list Z) (i : nat) : Z := le_val (take 8 (drop (8 * i) data)).
Lemma on_blocks_spec f (g : nat -> Z) n data : (forall i, (i < n)%nat -> f (block data i) = Some (g i)) ->
  exists r, on_blocks f n data = Some r /\ (length data = (8 * n)%nat -> length r = (8 * n)%nat) /\ forall i, (i < n)%nat -> block r i = uint 64 (g i).
Proof.
  revert g data. induction n as [| n IH]; intros g data Hf; cbn [on_blocks].
  { exists data. split; [done |]. split; [done |]. lia. }
  pose proof (Hf O ltac:(lia)) as H0. unfold block in H0. rewrite Nat.mul_0_r, drop_0 in H0. rewrite H0. bind_red.
  destruct (IH (fun i => g (S i)) (drop 8 data)) as (r & Er & Hl & Hr).
  { intros i Hi. rewrite <- Hf by lia. unfold block. rewrite drop_drop. do 4 f_equal. lia. }
  rewrite Er. bind_red. eexists. split; [reflexivity |]. split.
  - intros Hd. rewrite length_app, length_le_bytes, Hl; [lia |]. rewrite length_drop. lia.
  - intros i Hi. unfold block. destruct i as [| i].
    + rewrite Nat.mul_0_r, drop_0, take_app_length' by (now rewrite length_le_bytes). apply le_val_bytes.
    + replace (8 * S i)%nat with (length (le_bytes 8 (g O)) + 8 * i)%nat by (rewrite length_le_bytes; lia). rewrite drop_app_add'; [| done].
      apply Hr. lia.
Qed.

(** Only the bits of a block are seen. *)
Lemma near_uint b d : near_block b d -> near_block b (uint 64 d).
Proof.
  intros H ch k Hk. assert (Hb : forall n, 0 <= n < 64 -> Z.testbit (uint 64 d) n = Z.testbit d n)
    by (intros n Hn; apply Z.mod_pow2_bits_low; lia).
  destruct (colours_of_low (uint 64 d) d) as [C0 C1]; [intros n Hn; apply Hb; lia |].
  specialize (H ch k Hk). unfold shown_pixel in *. rewrite C0, C1.
  replace (index_at (uint 64 d) k) with (index_at d k); [exact H |]. rewrite !index_bits, !Hb by lia. done.
Qed.
Lemma fix_block_uint b : 0 <= b < 2 ^ 64 -> uint 64 (fix_block b) = fix_block b.
Proof.
  intros Hb. apply Z.bits_inj'. intros n Hn. destruct (Z.ltb_spec n 64) as [H | H]; [apply Z.mod_pow2_bits_low; lia |].
  unfold uint. rewrite Z.mod_pow2_bits_high by lia. symmetry. replace n with (32 + (n - 32)) by lia. unfold fix_block. cbv zeta.
  rewrite high_half_bits by lia. set (m := n - 32). set (x := Z.lxor (Z.shiftr b 32) 0xFFFFFFFF).
  assert (Hx : forall j, 32 <= j -> Z.testbit x j = false).
  { intros j Hj. unfold x. rewrite Z.lxor_spec, Z.shiftr_spec by lia. change 0xFFFFFFFF with (Z.ones 32). rewrite Z.ones_spec_high by lia.
    rewrite <- (Z.mod_small b (2 ^ 64)) by exact Hb. rewrite Z.mod_pow2_bits_high by lia. done. }
  rewrite Z.lxor_spec, Z.lor_spec, Z.shiftr_spec, !Z.land_spec, !Hx by lia. unfold uint. rewrite Z.mod_pow2_bits_high by lia. done.
Qed.

(** C29: a frame image that the server keeps looks like the one that the client
    sent: whatever the blocks are that the client makes, no table is read out of its range,
    and no channel of no pixel of the image that a graphics card shows is more than nine (of
    255) away from the level that the client gave it, in the other numbering. *)
Theorem AddFrameImageData_near `{TextureZstd} (data : list Z) (w : W) :
  data <> [] -> (length data mod 8)%nat = O -> m_pendingFrameImageData (fr w) = None ->
  (forall i, (i < length data / 8)%nat -> client_block (block data i)) ->
  wp (AddFrameImageData data) (fun _ w' => exists dst,
    m_pendingFrameImageData (fr w') = Some (zstd_pack dst) /\ length dst = length data /\
    forall i, (i < length data / 8)%nat -> near_block (block data i) (block dst i)) w.
Proof.
  intros Hne Hmod Hp Hb. unfold AddFrameImageData. apply wp_bind, wp_gets. rewrite Hp. apply wp_bind, wp_assert; [done |].
  apply wp_bind, wp_assert; [now rewrite Hmod |]. set (n := (length data / 8)%nat) in *.
  assert (Hlen : length data = (8 * n)%nat) by (pose proof (Nat.div_mod_eq (length data) 8); lia).
  assert (Hn : Nat.eqb n 0 = false) by (apply Nat.eqb_neq; intros E; rewrite E in Hlen; destruct data; [done | discriminate Hlen]).
  unfold FixOrder, Rdo. rewrite Hn.
  destruct (on_blocks_spec (fun b => Some (fix_block b)) (fun i => fix_block (block data i)) n data ltac:(done)) as (d1 & E1 & L1 & B1).
  apply wp_bind. eapply wp_expect; [exact E1 |].
  destruct (on_blocks_spec rdo_block (fun i => default 0 (rdo_block (fix_block (block data i)))) n d1) as (d2 & E2 & L2 & B2).
  { intros i Hi. rewrite B1 by done. destruct (Hb i Hi) as [Hr Hc]. rewrite fix_block_uint by exact Hr.
    destruct (rdo_block_near _ (conj Hr Hc)) as (d & -> & _). done. }
  apply wp_bind. eapply wp_expect; [exact E2 |]. apply wp_modify. exists d2. split; [done |].
  split; [rewrite L2 by (apply L1, Hlen); lia |]. intros i Hi. rewrite B2 by done. apply near_uint.
  destruct (rdo_block_near _ (Hb i Hi)) as (d & -> & Hnear). exact Hnear.
Qed.

(** A block of two colours, with all levels, and one of a single colour. *)
Definition demo_image : list Z := le_bytes 8 0x1B1B1B1B08418410 ++ le_bytes 8 0x84100000.
#[local] Instance demo_pack : TextureZstd := fun l => l.
Lemma AddFrameImageData_near_witness :
  wp (AddFrameImageData demo_image) (fun _ w' => exists dst,
    m_pendingFrameImageData (fr w') = Some (zstd_pack dst) /\ length dst = 16%nat /\
    forall i, (i < 2)%nat -> near_block (block demo_image i) (block dst i)) (Worker (double_of_Z 1) 1000 0 2 false false []).
Proof.
  apply (AddFrameImageData_near demo_image).
  - discriminate.
  - reflexivity.
  - reflexivity.
  - intros [| [| i]] Hi; [split; [vm_compute; split; [discriminate | reflexivity] | left; vm_compute; discriminate] |
      split; [vm_compute; split; [discriminate | reflexivity] | right; reflexivity] | cbn in Hi; lia].
Defined.
