(* ===== verification/MemFile.v ===== *)
(** * Memory pools in trace files

    A trace file keeps the allocations of every pool, in order, each time as the
    difference to the allocation before it and the time of a free as the age of the
    block.  The order of the frees and the plot of the bytes in use are not saved: the
    loader lists the freed blocks by their allocations, and a job that runs after
    loading sorts them and rebuilds the plot. *)
From S2P Require Import Prelude Double Event Containers Discovery Trace Server ServerMem Timeline.

(** ** Saving *)
Section Write.
Context `{ByteSink F}.

(* TracyWorker.cpp:8643-8662 *)
Definition WriteMemEvent (mem : MemEvent.t) (refTime : Z) : M F Z :=
  let ptr := MemEvent.Ptr mem in
  let size := MemEvent.Size mem in
  let csAlloc := Int24.make (MemEvent.CsAlloc mem) in
  put 8 ptr;; put 8 size;; put 3 csAlloc;; put 3 (MemEvent.csFree mem);;
  let timeAlloc := MemEvent.TimeAlloc mem in
  let timeFree := MemEvent.TimeFree mem in
  refTime ← WriteTimeOffset refTime timeAlloc;
  let freeOffset := if timeFree <? 0 then timeFree else timeFree - timeAlloc in
  put 8 freeOffset;; put 2 (MemEvent.ThreadAlloc mem);; put 2 (MemEvent.ThreadFree mem);;
  mret refTime.

Fixpoint WriteMemEvents (mems : list MemEvent.t) (refTime : Z) : M F unit :=
  match mems with
  | [] => mret tt
  | mem :: mems => refTime ← WriteMemEvent mem refTime; WriteMemEvents mems refTime
  end.

(* TracyWorker.cpp:8631-8667 *)
Definition WriteMemPool (nm : Z) (memdata : MemData) : M F unit :=
  put 8 nm;;
  put 8 (Z.of_nat (length (data memdata)));;
  put 8 (Z.of_nat (size (active memdata)));;
  put 8 (Z.of_nat (length (frees memdata)));;
  WriteMemEvents (data memdata) 0;;
  put 8 (high memdata);; put 8 (low memdata);; put 8 (usage memdata);; put 8 (name memdata).

(** [pools]: the pools in the order in which the hash map lists them. *)
(* TracyWorker.cpp:8622-8630 *)
Definition WriteMemory (pools : list (Z * MemData)) : M F unit :=
  put 8 (Z.of_nat (length pools));;
  put 8 (foldr Z.add 0 (map (fun p => Z.of_nat (length (data p.2))) pools));;
  for_each pools (fun p => WriteMemPool p.1 p.2).
End Write.

(** ** Loading *)

(** What the arrays of a pool hold before the loader fills them. *)
Class MemSlab := {
  junk_mem : nat -> MemEvent.t; junk_mem_ok : forall n, MemEvent.ok (junk_mem n);
  junk_free : nat -> Z }.

(** The members of an allocation, in the order of the file. *)
Record mem_header := mkMemHeader {
  mh_ptr : Z; mh_size : Z; mh_csAlloc : Z; mh_csFree : Z; mh_timeAlloc : Z; mh_timeFree : Z;
  mh_threadAlloc : Z; mh_threadFree : Z }.
Definition mem_header_of (xs : list Z) : option mem_header :=
  match xs with
  | [ptr; size; csAlloc; csFree; timeAlloc; timeFree; threadAlloc; threadFree] =>
      Some (mkMemHeader ptr size csAlloc csFree (sint 64 timeAlloc) (sint 64 timeFree) threadAlloc threadFree)
  | _ => None
  end.

Section Read.
Context `{ByteSource F} `{MemSlab}.

(** The pool, the reference time and the number of frees so far. *)
Record mem_cursor := mkCursor { mc_pool : MemData; mc_refTime : Z; mc_fidx : nat }.

(** The arrays have the sizes that were read, a write past their ends is undefined. *)
(* TracyWorker.cpp:1282-1299 Worker *)
Definition load_mem_event (i : nat) (h : mem_header) (c : mem_cursor) : option mem_cursor :=
  let memdata := mc_pool c in
  mem ← data memdata !! i;
  mem ← MemEvent.SetSize (mh_size h) (MemEvent.SetPtr (mh_ptr h) (mem <| MemEvent.csFree := mh_csFree h |>));
  let mem := MemEvent.SetCsAlloc (Int24.Val (mh_csAlloc h)) mem in
  let refTime := sint 64 (mc_refTime c + mh_timeAlloc h) in
  let mem := MemEvent.SetTimeThreadAlloc refTime (mh_threadAlloc h) mem in
  if 0 <=? mh_timeFree h then
    let mem := MemEvent.SetTimeThreadFree (sint 64 (mh_timeFree h + refTime)) (mh_threadFree h) mem in
    if Nat.ltb (mc_fidx c) (length (frees memdata)) then
      Some (mkCursor (memdata <| frees ::= <[mc_fidx c := uint 32 (Z.of_nat i)]> |> <| data ::= <[i := mem]> |>)
        refTime (S (mc_fidx c)))
    else None
  else
    let mem := MemEvent.SetTimeThreadFree (mh_timeFree h) (mh_threadFree h) mem in
    Some (mkCursor (memdata <| active ::= emplace (mh_ptr h) (Z.of_nat i) |> <| data ::= <[i := mem]> |>)
      refTime (mc_fidx c)).

(** The [n] allocations from the [i]th on. *)
(* TracyWorker.cpp:1275-1301 Worker *)
Fixpoint load_mem_events (n i : nat) (c : mem_cursor) : M (loader F) mem_cursor :=
  match n with
  | O => mret c
  | S n =>
      xs ← read_n [8; 8; 3; 3; 8; 8; 2; 2];
      h ← expect (mem_header_of xs);
      c ← expect (load_mem_event i h c);
      load_mem_events n (S i) c
  end.

(** [reserve_exact] of an array that has memory already fails its assertion. *)
(* TracyWorker.cpp:1257-1309 Worker *)
Definition load_mem_pool : M (loader F) unit :=
  xs ← read_n [8; 8];
  memname ← expect (xs !! 0%nat);
  sz ← expect (xs !! 1%nat);
  on_w (modify (fun w => w <| memNameMap ::= emplace memname new_MemData |>));;
  memdata ← on_w (GetMem memname);
  assert_ (bool_decide (data memdata = []) && bool_decide (frees memdata = []));;
  xs ← read_n [8; 8];
  freesSz ← expect (xs !! 1%nat);
  let memdata := memdata <| data := map junk_mem (seq 0 (Z.to_nat (uint 32 sz))) |>
    <| frees := map junk_free (seq 0 (Z.to_nat (uint 32 freesSz))) |> in
  c ← load_mem_events (Z.to_nat sz) 0 (mkCursor memdata 0 0);
  let memdata := mc_pool c in
  xs ← read_n [8; 8; 8; 8];
  high' ← expect (xs !! 0%nat);
  low' ← expect (xs !! 1%nat);
  usage' ← expect (xs !! 2%nat);
  name' ← expect (xs !! 3%nat);
  let memdata := memdata <| high := high' |> <| low := low' |> <| usage := usage' |> <| name := name' |> in
  let memdata := if negb (sz =? 0) then memdata <| reconstruct := true |> else memdata in
  on_w (SetMem memname memdata).

Fixpoint load_mem_pools (n : nat) : M (loader F) unit :=
  match n with
  | O => mret tt
  | S n => load_mem_pool;; load_mem_pools n
  end.
(** With the memory events selected. *)
(* TracyWorker.cpp:1250-1256 Worker *)
Definition load_memory : M (loader F) unit :=
  xs ← read_n [8; 8];
  memcount ← expect (xs !! 0%nat);
  load_mem_pools (Z.to_nat memcount).
End Read.

(** ** Rebuilding the plot *)
Definition dleb : double -> double -> bool := SFleb.

(** The numbers of [ReconstructMemAllocPlot], and the points it has written. *)
(* TracyWorker.cpp:7597-7604 ReconstructMemAllocPlot *)
Record rebuild := mkRebuild { rb_sum : double; rb_max : double; rb_usage : double; rb_points : list PlotItem }.
#[export] Instance eta_rebuild : Eta rebuild := fun r =>
  mkRebuild (rb_sum r) (rb_max r) (rb_usage r) (rb_points r).

(** A point of the plot: [assert( usage >= 0 )], the maximum if it may grow, the sum. *)
(* TracyWorker.cpp:7616-7621 ReconstructMemAllocPlot *)
Definition rebuild_point (time : Z) (usage : double) (r : rebuild) : option rebuild :=
  if dleb (S754_zero false) usage then
    Some (mkRebuild (dadd (rb_sum r) usage) (if dltb (rb_max r) usage then usage else rb_max r) usage
      (rb_points r ++ [mkPlotItem (Int48.make time) usage]))
  else None.
(* TracyWorker.cpp:7615-7622 ReconstructMemAllocPlot *)
Definition rebuild_alloc (a : MemEvent.t) (r : rebuild) : option rebuild :=
  rebuild_point (MemEvent.TimeAlloc a) (dadd (rb_usage r) (double_of_Z (MemEvent.Size a))) r.
(* TracyWorker.cpp:7628-7635 ReconstructMemAllocPlot *)
Definition rebuild_free (m : MemEvent.t) (r : rebuild) : option rebuild :=
  rebuild_point (MemEvent.TimeFree m) (dsub (rb_usage r) (double_of_Z (MemEvent.Size m))) r.

Section Rebuild.
Variable mems : list MemEvent.t.

(** Merges the allocations and the frees until one of them is used up; they are what
    remains of the arrays. *)
(* TracyWorker.cpp:7606-7640 ReconstructMemAllocPlot *)
Fixpoint merge_events (aptr : list MemEvent.t) :
    list Z -> rebuild -> option (list MemEvent.t * list Z * rebuild) :=
  fix go fptr r :=
    match aptr, fptr with
    | a :: aptr', f :: fptr' =>
        m ← mems !! Z.to_nat f;
        if MemEvent.TimeAlloc a <? MemEvent.TimeFree m then
          r ← rebuild_alloc a r; merge_events aptr' fptr r
        else
          r ← rebuild_free m r; go fptr' r
    | _, _ => Some (aptr, fptr, r)
    end.

(* TracyWorker.cpp:7642-7654 ReconstructMemAllocPlot *)
Fixpoint rest_allocs (aptr : list MemEvent.t) (r : rebuild) : option rebuild :=
  match aptr with
  | [] => Some r
  | a :: aptr =>
      if MemEvent.TimeFree a <? 0 then r ← rebuild_alloc a r; rest_allocs aptr r else None
  end.

(** A free does not raise the maximum: [assert( max >= usage )]. *)
(* TracyWorker.cpp:7655-7667 ReconstructMemAllocPlot *)
Fixpoint rest_frees (fptr : list Z) (r : rebuild) : option rebuild :=
  match fptr with
  | [] => Some r
  | f :: fptr =>
      m ← mems !! Z.to_nat f;
      let usage := dsub (rb_usage r) (double_of_Z (MemEvent.Size m)) in
      if dleb (S754_zero false) usage && dleb usage (rb_max r) then
        rest_frees fptr (r <| rb_sum ::= (fun s => dadd s usage) |> <| rb_usage := usage |>
          <| rb_points ::= (fun l => l ++ [mkPlotItem (Int48.make (MemEvent.TimeFree m)) usage]) |>)
      else None
  end.

(** The array of the points has room for [uint32_t( psz )] of them. *)
(* TracyWorker.cpp:7576-7667 ReconstructMemAllocPlot *)
Definition rebuild_plot (first : Z) (frees : list Z) : option rebuild :=
  let psz := Z.of_nat (length mems) + Z.of_nat (length frees) + 1 in
  let zero := S754_zero false in
  let r := mkRebuild zero zero zero [mkPlotItem (Int48.make first) zero] in
  p ← merge_events mems frees r;
  let '(aptr, fptr, r) := p in
  r ← rest_allocs aptr r;
  r ← rest_frees fptr r;
  if psz <=? uint 32 psz then Some r else None.
End Rebuild.

(** [ppqsort::sort], and the order it is given. *)
Class FreeSort := free_sort : (Z -> Z -> bool) -> list Z -> list Z.
(* TracyWorker.cpp:7573-7573 ReconstructMemAllocPlot *)
Definition freed_before (mems : list MemEvent.t) (lhs rhs : Z) : bool :=
  let TimeFree i := from_option MemEvent.TimeFree 0 (mems !! Z.to_nat i) in TimeFree lhs <? TimeFree rhs.

(* TracyWorker.cpp:7568-7676 *)
Definition ReconstructMemAllocPlot `{FreeSort} (pool : Z) : M W unit :=
  mem ← GetMem pool;
  let mem := mem <| frees ::= free_sort (freed_before (data mem)) |> in
  SetMem pool mem;;
  first ← GetFirstTime;
  r ← expect (rebuild_plot (data mem) first (frees mem));
  h ← gets plot_heap;
  let p := length h in
  let d := mkPlotData (name mem) (S754_zero false) (rb_max r) (rb_sum r)
    (SortedVector.mk (rb_points r) 0) PlotMemory 1 1 1 0 in
  modify (fun w => w <| plot_heap ::= (fun h => h ++ [d]) |>
    <| plots ::= (fun ps => ps <| StringDiscovery.m_data ::= cons p |>) |>);;
  SetMem pool (mem <| plot := Some p |>).

(** A block that was allocated and freed at the same time, as a coarse clock allows and
    the handlers accept: the free is merged first, and [assert( usage >= 0 )] fails. *)
Definition same_time : MemEvent.t :=
  MemEvent.SetTimeThreadFree 5 0 (MemEvent.SetTimeThreadAlloc 5 0 (MemEvent.mk 0 (16 * 2 ^ 16) 0 0 0)).
Lemma same_time_not_rebuilt : MemEvent.Size same_time = 16 /\ rebuild_plot [same_time] 0 [0] = None.
Proof. split; vm_compute; reflexivity. Qed.
