(* ===== verification/MemPlot.v ===== *)
(** * The plot of the bytes in use is a function of the pool

    The plot that is drawn while the events of a pool arrive and the one that is
    rebuilt from the pool later are both the drawing of the pool's history: the
    allocations and frees in the order of their times. *)
From S2P Require Import Prelude Double Exact Event Containers Trace Server ServerMem MemFile.

(** ** The drawing of a history *)

(** A change of the bytes in use, and its time. *)
Definition change : Type := Z * Z.

Record drawing := mkDrawing {
  dr_points : list PlotItem; dr_max : Z; dr_sum : double; dr_level : Z }.
Definition draw_start (first : Z) : drawing :=
  mkDrawing [mkPlotItem (Int48.make first) (double_of_Z 0)] 0 (double_of_Z 0) 0.
Definition draw_next (g : drawing) (c : change) : drawing :=
  let u := dr_level g + c.2 in
  mkDrawing (dr_points g ++ [mkPlotItem (Int48.make c.1) (double_of_Z u)]) (Z.max (dr_max g) u)
    (dadd (dr_sum g) (double_of_Z u)) u.
Definition draw (first : Z) (L : list change) : drawing := fold_left draw_next L (draw_start first).

(** No level of the history is negative, or too large for a double. *)
Fixpoint levels_ok (u : Z) (L : list change) : Prop :=
  match L with
  | [] => True
  | c :: L => exact (u + c.2) /\ levels_ok (u + c.2) L
  end.
Definition level (u : Z) (L : list change) : Z := fold_left (fun u c => u + c.2) L u.

Lemma draw_snoc first L c : draw first (L ++ [c]) = draw_next (draw first L) c.
Proof. unfold draw. now rewrite fold_left_app. Qed.

Lemma levels_ok_snoc u L c : levels_ok u (L ++ [c]) <-> levels_ok u L /\ exact (level u L + c.2).
Proof.
  revert u. induction L as [| d L IH]; intros u; cbn; [tauto |]. rewrite IH. unfold level. cbn. tauto.
Qed.

Lemma level_draw first L : dr_level (draw first L) = level 0 L.
Proof.
  induction L as [| c L IH] using rev_ind; [done |]. rewrite draw_snoc. unfold level in *.
  rewrite fold_left_app. cbn. now rewrite IH.
Qed.

(** ** The rebuilding loops draw *)
Definition rebuild_of (g : drawing) : rebuild :=
  mkRebuild (dr_sum g) (double_of_Z (dr_max g)) (double_of_Z (dr_level g)) (dr_points g).

(** The numbers of a drawing are exact, and no level was above the maximum. *)
Record drawn_ok (g : drawing) : Prop := {
  do_level : exact (dr_level g); do_max : exact (dr_max g); do_le : dr_level g <= dr_max g }.

Lemma draw_next_ok g c : drawn_ok g -> exact (dr_level g + c.2) -> drawn_ok (draw_next g c).
Proof. intros [H1 H2 H3] Hc. split; cbn; [done | unfold exact in *; lia | lia]. Qed.

Lemma draw_start_ok first : drawn_ok (draw_start first).
Proof. split; cbn; unfold exact, prec; lia. Qed.

Lemma draw_ok first L : levels_ok 0 L -> drawn_ok (draw first L).
Proof.
  induction L as [| c L IH] using rev_ind; [intros _; apply draw_start_ok |].
  intros [H1 H2]%levels_ok_snoc. rewrite draw_snoc. apply draw_next_ok; [auto | now rewrite level_draw].
Qed.

Lemma dleb_exact a b : exact a -> exact b -> dleb (double_of_Z a) (double_of_Z b) = (a <=? b).
Proof. intros. unfold dleb, SFleb, Z.leb. rewrite compare_exact by done. now destruct (a ?= b). Qed.

Lemma rebuild_point_draws g t d :
  drawn_ok g -> exact (dr_level g + d) ->
  rebuild_point t (double_of_Z (dr_level g + d)) (rebuild_of g) = Some (rebuild_of (draw_next g (t, d))).
Proof.
  intros [H1 H2 H3] Hd. unfold rebuild_point. change (S754_zero false) with (double_of_Z 0).
  assert (E0 : exact 0) by (unfold exact, prec; lia).
  rewrite dleb_exact by done. destruct (Z.leb_spec 0 (dr_level g + d)); [| unfold exact in *; lia].
  unfold rebuild_of at 1 2. cbn [rb_max rb_sum rb_points]. rewrite dltb_exact by done.
  unfold rebuild_of, draw_next. cbn. do 2 f_equal. rewrite Z.max_comm.
  destruct (Z.ltb_spec (dr_max g) (dr_level g + d)); [now rewrite Z.max_l by lia | now rewrite Z.max_r by lia].
Qed.

(** An allocation and the free of one, as changes. *)
Definition alloc_change (m : MemEvent.t) : change := (MemEvent.TimeAlloc m, MemEvent.Size m).
Definition free_change (m : MemEvent.t) : change := (MemEvent.TimeFree m, - MemEvent.Size m).

Lemma rebuild_alloc_draws g m :
  drawn_ok g -> exact (MemEvent.Size m) -> exact (dr_level g + MemEvent.Size m) ->
  rebuild_alloc m (rebuild_of g) = Some (rebuild_of (draw_next g (alloc_change m))).
Proof.
  intros Hg Hs Hc. unfold rebuild_alloc. cbn [rebuild_of rb_usage].
  rewrite dadd_exact by (apply Hg || done). now apply rebuild_point_draws.
Qed.

Lemma rebuild_free_draws g m :
  drawn_ok g -> exact (MemEvent.Size m) -> exact (dr_level g + - MemEvent.Size m) ->
  rebuild_free m (rebuild_of g) = Some (rebuild_of (draw_next g (free_change m))).
Proof.
  intros Hg Hs Hc. unfold rebuild_free. cbn [rebuild_of rb_usage].
  rewrite dsub_exact by (apply Hg || done || (unfold exact in *; lia)).
  unfold free_change. now apply rebuild_point_draws.
Qed.

(** ** Merging *)
Definition earlier (c d : change) : Prop := c.1 < d.1.
Definition timeline (L : list change) : Prop := StronglySorted earlier L.

Lemma first_change c L x :
  timeline (c :: L) -> x ∈ c :: L -> (forall y, y ∈ c :: L -> x.1 <= y.1) -> c = x.
Proof.
  intros Hs Hx Hmin. apply StronglySorted_inv in Hs as [_ Hc]. rewrite Forall_forall in Hc.
  apply elem_of_cons in Hx as [-> | Hx]; [done |].
  specialize (Hc x Hx). specialize (Hmin c (list_elem_of_here _ _)). unfold earlier in Hc. lia.
Qed.

Section Merge.
Variable mems : list MemEvent.t.
Definition sorted_by (f : MemEvent.t -> Z) (l : list MemEvent.t) : Prop :=
  StronglySorted (fun a b => f a <= f b) l.

(** What remains to be merged: the allocations [A], the frees [fs] of the events [F],
    and their changes in the order of time, [L].  The free of a block that is still to
    be allocated is still to come. *)
Record remains (A : list MemEvent.t) (fs : list Z) (F : list MemEvent.t) (L : list change) (u : Z) : Prop := {
  re_frees : Forall2 (fun f m => mems !! Z.to_nat f = Some m) fs F;
  re_perm : Permutation L (map alloc_change A ++ map free_change F);
  re_line : timeline L;
  re_allocs : sorted_by MemEvent.TimeAlloc A;
  re_freed : sorted_by MemEvent.TimeFree F;
  re_exact : Forall (fun m => exact (MemEvent.Size m)) (A ++ F);
  re_levels : levels_ok u L;
  re_after : Forall (fun a => MemEvent.TimeFree a < 0 \/ MemEvent.TimeAlloc a < MemEvent.TimeFree a /\
    exists m, m ∈ F /\ MemEvent.TimeFree m = MemEvent.TimeFree a) A }.

Lemma in_changes A F y : y ∈ map alloc_change A ++ map free_change F ->
  (exists a, a ∈ A /\ y = alloc_change a) \/ (exists m, m ∈ F /\ y = free_change m).
Proof.
  intros [H | H]%elem_of_app; apply list_elem_of_fmap in H as (x & -> & Hx); eauto.
Qed.

(** The earliest change is the first allocation, or the first free. *)
Lemma remains_alloc a A fs F L u :
  remains (a :: A) fs F L u -> Forall (fun m => MemEvent.TimeAlloc a < MemEvent.TimeFree m) F ->
  exists L', L = alloc_change a :: L' /\ remains A fs F L' (u + MemEvent.Size a).
Proof.
  intros [H1 H2 H3 H4 H5 H6 H7 H8] Hlt. apply StronglySorted_inv in H4 as [H4 H4']. rewrite Forall_forall in H4'.
  destruct L as [| c L]; [now apply Permutation_nil_cons in H2 |].
  assert (Hin : alloc_change a ∈ c :: L) by (rewrite H2; apply list_elem_of_here).
  assert (E : c = alloc_change a).
  { apply (first_change c L); [done | done |]. intros y Hy. rewrite H2 in Hy.
    apply in_changes in Hy as [(x & Hx & ->) | (m & Hm & ->)].
    - apply elem_of_cons in Hx as [-> | Hx]; [done | exact (H4' x Hx)].
    - rewrite Forall_forall in Hlt. specialize (Hlt m Hm). cbn. lia. }
  subst c. exists L. split; [done |]. destruct H7 as [_ H7]. apply StronglySorted_inv in H3 as [H3 _].
  cbn in H2. apply Permutation_cons_inv in H2. apply Forall_inv_tail in H8.
  split; auto. now apply Forall_inv_tail in H6.
Qed.

Lemma remains_free f fs m A F L u :
  remains A (f :: fs) (m :: F) L u -> Forall (fun a => MemEvent.TimeFree m <= MemEvent.TimeAlloc a) A ->
  exists L', L = free_change m :: L' /\ remains A fs F L' (u + - MemEvent.Size m).
Proof.
  intros [H1 H2 H3 H4 H5 H6 H7 H8] Hlt. apply StronglySorted_inv in H5 as [H5 H5']. rewrite Forall_forall in H5'.
  rewrite Forall_forall in Hlt.
  destruct L as [| c L]; [apply Permutation_length in H2; rewrite length_app in H2; cbn in H2; lia |].
  assert (Hin : free_change m ∈ c :: L) by (rewrite H2; apply elem_of_app; right; apply list_elem_of_here).
  assert (E : c = free_change m).
  { apply (first_change c L); [done | done |]. intros y Hy. rewrite H2 in Hy.
    apply in_changes in Hy as [(x & Hx & ->) | (x & Hx & ->)].
    - exact (Hlt x Hx).
    - apply elem_of_cons in Hx as [-> | Hx]; [done | exact (H5' x Hx)]. }
  subst c. exists L. split; [done |]. destruct H7 as [_ H7]. inversion H1; subst.
  cbn in H2. rewrite <- Permutation_middle in H2. apply Permutation_cons_inv in H2.
  apply StronglySorted_inv in H3 as [H3 H3']. split; auto.
  - apply Forall_app in H6 as [H6 H6']. apply Forall_inv_tail in H6'. now apply Forall_app.
  - apply Forall_forall. intros a Ha. rewrite Forall_forall in H8. destruct (H8 a Ha) as [| (Hta & x & Hx & Ex)]; [auto | right].
    split; [done |]. apply elem_of_cons in Hx as [-> | Hx]; [| eauto]. exfalso.
    assert (Hc : earlier (free_change m) (alloc_change a)) by (apply (proj1 (Forall_forall _ _) H3'); rewrite H2; apply elem_of_app; left; now apply list_elem_of_fmap_2).
    unfold earlier in Hc. cbn in Hc. lia.
Qed.

Lemma rest_allocs_draws A : forall L g,
  remains A [] [] L (dr_level g) -> drawn_ok g ->
  rest_allocs A (rebuild_of g) = Some (rebuild_of (fold_left draw_next L g)).
Proof.
  induction A as [| a A IH]; intros L g Hr Hg.
  { pose proof (re_perm _ _ _ _ _ Hr) as Hp. cbn in Hp. now apply Permutation_nil_r in Hp as ->. }
  destruct (remains_alloc a A [] [] L (dr_level g) Hr ltac:(constructor)) as (L' & -> & Hr').
  pose proof (re_levels _ _ _ _ _ Hr) as [Hl _]. cbn in Hl.
  pose proof (Forall_inv (re_exact _ _ _ _ _ Hr)) as Hs. cbn [rest_allocs].
  destruct (Forall_inv (re_after _ _ _ _ _ Hr)) as [Hneg | (_ & m & Hm & _)]; [| now apply elem_of_nil in Hm].
  rewrite (proj2 (Z.ltb_lt _ _) Hneg), rebuild_alloc_draws by done. cbn [mbind option_bind fold_left].
  apply IH; [exact Hr' | now apply draw_next_ok].
Qed.

Lemma rest_frees_draws fs : forall F L g,
  remains [] fs F L (dr_level g) -> drawn_ok g ->
  rest_frees mems fs (rebuild_of g) = Some (rebuild_of (fold_left draw_next L g)).
Proof.
  induction fs as [| f fs IH]; intros F L g Hr Hg; pose proof (re_frees _ _ _ _ _ Hr) as Hf.
  { inversion Hf. subst F. pose proof (re_perm _ _ _ _ _ Hr) as Hp. cbn in Hp.
    now apply Permutation_nil_r in Hp as ->. }
  inversion Hf as [| ? m ? F' Em Hf']; subst. clear Hf Hf'.
  destruct (remains_free f fs m [] F' L (dr_level g) Hr ltac:(constructor)) as (L' & -> & Hr').
  pose proof (re_levels _ _ _ _ _ Hr) as [Hl _]. cbn in Hl.
  pose proof (Forall_inv (re_exact _ _ _ _ _ Hr)) as Hs. destruct (Hg) as [G1 G2 G3].
  cbn [rest_frees]. rewrite Em. cbn [mbind option_bind rebuild_of rb_usage rb_max].
  rewrite dsub_exact by (done || (unfold exact in *; lia)).
  change (S754_zero false) with (double_of_Z 0).
  rewrite !dleb_exact by (done || (unfold exact, prec; lia)).
  assert (E : (0 <=? dr_level g - MemEvent.Size m) && (dr_level g - MemEvent.Size m <=? dr_max g) = true)
    by (unfold exact in *; lia).
  rewrite E. cbn [fold_left]. rewrite <- (IH F' L' (draw_next g (free_change m)) Hr') by now apply draw_next_ok.
  f_equal. unfold rebuild_of, draw_next, free_change. cbn.
  rewrite Z.max_l by (unfold exact in *; lia). reflexivity.
Qed.

Lemma merge_nil_l fs r : merge_events mems [] fs r = Some ([], fs, r).
Proof. now destruct fs. Qed.
Lemma merge_nil_r A r : merge_events mems A [] r = Some (A, [], r).
Proof. now destruct A. Qed.

(** All three loops. *)
Lemma merge_draws L : forall A fs F g,
  remains A fs F L (dr_level g) -> drawn_ok g ->
  (p ← merge_events mems A fs (rebuild_of g); let '(aptr, fptr, r) := p in
   r ← rest_allocs aptr r; rest_frees mems fptr r) = Some (rebuild_of (fold_left draw_next L g)).
Proof.
  assert (Hend : forall A fs F L g, remains A fs F L (dr_level g) -> drawn_ok g -> A = [] \/ fs = [] ->
    (r ← rest_allocs A (rebuild_of g); rest_frees mems fs r) = Some (rebuild_of (fold_left draw_next L g))).
  { intros A fs F L' g Hr Hg [-> | ->]; [exact (rest_frees_draws fs F L' g Hr Hg) |].
    pose proof (re_frees _ _ _ _ _ Hr) as Hf. inversion Hf. subst F.
    now rewrite (rest_allocs_draws A L' g Hr Hg). }
  induction L as [| c L IH]; intros A fs F g Hr Hg.
  { pose proof (re_perm _ _ _ _ _ Hr) as Hp. symmetry in Hp. apply Permutation_nil_r, app_nil in Hp as [HA _].
    destruct A; [| done]. rewrite merge_nil_l. apply (Hend _ _ F [] g Hr Hg). auto. }
  pose proof (re_frees _ _ _ _ _ Hr) as Hf.
  destruct A as [| a A]; [rewrite merge_nil_l; apply (Hend _ _ F (c :: L) g Hr Hg); auto |].
  destruct Hf as [| f m fs F Em Hf]; [rewrite merge_nil_r; apply (Hend _ _ [] (c :: L) g Hr Hg); auto |].
  pose proof (re_levels _ _ _ _ _ Hr) as [Hl _]. pose proof (re_exact _ _ _ _ _ Hr) as Hs.
  pose proof (re_allocs _ _ _ _ _ Hr) as [_ HA]%StronglySorted_inv.
  pose proof (re_freed _ _ _ _ _ Hr) as [_ HF]%StronglySorted_inv.
  cbn [merge_events]. rewrite Em. cbn [mbind option_bind].
  destruct (Z.ltb_spec (MemEvent.TimeAlloc a) (MemEvent.TimeFree m)) as [Hlt | Hge].
  - destruct (remains_alloc _ _ _ _ _ _ Hr) as (L' & [= -> <-] & Hr').
    { constructor; [done |]. eapply Forall_impl; [exact HF |]. cbn. lia. }
    apply Forall_inv in Hs. rewrite rebuild_alloc_draws by done. cbn [mbind option_bind fold_left].
    apply (IH A (f :: fs) (m :: F)); [exact Hr' | now apply draw_next_ok].
  - destruct (remains_free _ _ _ _ _ _ _ Hr) as (L' & [= -> <-] & Hr').
    { constructor; [done |]. eapply Forall_impl; [exact HA |]. cbn. lia. }
    apply Forall_app in Hs as [_ Hs]. apply Forall_inv in Hs.
    rewrite rebuild_free_draws by done. cbn [mbind option_bind fold_left].
    apply (IH (a :: A) fs F); [exact Hr' | now apply draw_next_ok].
Qed.
End Merge.

(** ** Pools *)

(** The free of the [f]th allocation. *)
Definition freed_change (mems : list MemEvent.t) (f : Z) : change :=
  from_option free_change (0, 0) (mems !! Z.to_nat f).

(** [L] is the history of a pool with these allocations and frees. *)
Record history (mems : list MemEvent.t) (frees : list Z) (L : list change) : Prop := {
  hi_frees : Forall (fun f => is_Some (mems !! Z.to_nat f)) frees;
  hi_perm : Permutation L (map alloc_change mems ++ map (freed_change mems) frees);
  hi_line : timeline L;
  hi_order : sorted_by MemEvent.TimeAlloc mems;
  hi_exact : Forall (fun m => exact (MemEvent.Size m)) mems;
  hi_levels : levels_ok 0 L;
  hi_after : forall i m, mems !! i = Some m -> MemEvent.TimeFree m < 0 \/
    MemEvent.TimeAlloc m < MemEvent.TimeFree m /\ Z.of_nat i ∈ frees }.

Lemma history_length mems frees L : history mems frees L -> length L = (length mems + length frees)%nat.
Proof. intros H. rewrite (hi_perm _ _ _ H), length_app, !length_map. done. Qed.

Lemma history_perm mems frees frees' L :
  Permutation frees' frees -> history mems frees L -> history mems frees' L.
Proof.
  intros Hp [H1 H2 H3 H4 H5 H6 H7]. split; auto.
  - now rewrite Hp.
  - rewrite H2. apply Permutation_app_head, Permutation_map. now symmetry.
  - intros i m E. destruct (H7 i m E) as [| [Hlt Hin]]; [auto | right]. split; [done |]. now rewrite Hp.
Qed.

(** A sort sorts by any strict weak order. *)
Class FreeSortOk `{FreeSort} := free_sorts comp : WeakOrder comp -> SortedVector.sorts comp (free_sort comp).

#[export] Instance freed_before_order mems : WeakOrder (freed_before mems).
Proof.
  unfold freed_before. split; intros *; rewrite ?Z.ltb_lt, ?Z.ltb_ge; cbv zeta; lia.
Qed.

Lemma freed_events mems fs : Forall (fun f => is_Some (mems !! Z.to_nat f)) fs ->
  exists F, Forall2 (fun f m => mems !! Z.to_nat f = Some m) fs F /\
    map (freed_change mems) fs = map free_change F.
Proof.
  induction 1 as [| f fs [m Em] _ (F & HF & E)]; [now exists [] |]. exists (m :: F). split; [now constructor |].
  cbn. unfold freed_change at 1. now rewrite Em, E.
Qed.

Lemma freed_sorted mems fs F : Forall2 (fun f m => mems !! Z.to_nat f = Some m) fs F ->
  sorted (freed_before mems) fs -> sorted_by MemEvent.TimeFree F.
Proof.
  induction 1 as [| f m fs F Em HF IH]; intros Hs; [constructor |].
  apply StronglySorted_inv in Hs as [Hs Hf]. constructor; [now apply IH |]. clear IH Hs.
  induction HF as [| f' m' fs F Em' HF IH]; [constructor |].
  apply Forall_cons in Hf as [Hf Hfs]. constructor; [| now apply IH].
  unfold le_, freed_before in Hf. rewrite Em, Em' in Hf. cbn in Hf. lia.
Qed.

(** The rebuilt plot is the drawing of the history. *)
Lemma rebuild_plot_draws mems first fs L :
  history mems fs L -> sorted (freed_before mems) fs ->
  Z.of_nat (length L) + 1 < 2 ^ 32 ->
  rebuild_plot mems first fs = Some (rebuild_of (draw first L)).
Proof.
  intros Hh Hs Hlen. rewrite (history_length _ _ _ Hh) in Hlen. destruct Hh as [H1 H2 H3 H4 H5 H6 H7].
  destruct (freed_events mems fs H1) as (F & HF & EF). rewrite EF in H2.
  assert (Hr : remains mems mems fs F L 0).
  { split; auto.
    - now apply (freed_sorted mems fs).
    - apply Forall_app. split; [done |]. clear - HF H5. induction HF as [| f m fs F Em HF IH]; constructor.
      + exact (Forall_lookup_1 _ _ _ _ H5 Em).
      + exact IH.
    - apply Forall_lookup. intros i a Ea. destruct (H7 i a Ea) as [| [Hlt Hin]]; [auto | right].
      split; [done |]. exists a. split; [| done]. apply list_elem_of_lookup in Hin as [k Ek].
      destruct (Forall2_lookup_l _ _ _ _ _ HF Ek) as (m & Em & Emm). rewrite Nat2Z.id in Emm.
      replace a with m by congruence. now apply list_elem_of_lookup_2 in Em. }
  unfold rebuild_plot. change (mkRebuild _ _ _ _) with (rebuild_of (draw_start first)).
  pose proof (merge_draws mems L mems fs F (draw_start first) Hr (draw_start_ok first)) as E.
  destruct (merge_events mems mems fs (rebuild_of (draw_start first))) as [[[a f] r] |]; [| discriminate E].
  cbn [mbind option_bind] in E |- *. destruct (rest_allocs a r) as [r1 |]; [| discriminate E].
  cbn [mbind option_bind] in E |- *. rewrite E. cbn [mbind option_bind].
  rewrite uint_small by (red; lia). now rewrite Z.leb_refl.
Qed.

(** The time of the first frame. *)
Definition first_time (w : W) (first : Z) : Prop :=
  if m_onDemand w then (2 <= length (framesBase_start w))%nat /\ framesBase_start w !! 2%nat = Some first
  else first = 0.

Lemma first_time_wp w first (Q : Z -> W -> Prop) : first_time w first -> Q first w -> wp GetFirstTime Q w.
Proof.
  unfold first_time, GetFirstTime. intros Hf HQ. wp_steps. destruct (m_onDemand w).
  - destruct Hf as [Hl E]. wp_steps; [now apply Nat.leb_le |]. eapply wp_expect; [exact E | exact HQ].
  - subst. now wp_steps.
Qed.

Lemma first_time_frame w w' first : m_onDemand w' = m_onDemand w ->
  framesBase_start w' = framesBase_start w -> first_time w first -> first_time w' first.
Proof. unfold first_time. now intros -> ->. Qed.

(** The plot of a pool with this name and history; [pmin] is the least value. *)
Definition pool_plot (nm : Z) (pmin : double) (first : Z) (L : list change) : PlotData :=
  let g := draw first L in
  mkPlotData nm pmin (double_of_Z (dr_max g)) (dr_sum g) (SortedVector.mk (dr_points g) 0)
    PlotMemory 1 1 1 0.

Lemma ReconstructMemAllocPlot_wp `{FreeSortOk} pool md first L w (Q : unit -> W -> Prop) :
  memNameMap w !! pool = Some md -> history (data md) (frees md) L ->
  Z.of_nat (length L) + 1 < 2 ^ 32 -> first_time w first ->
  (forall w' md', memNameMap w' !! pool = Some md' -> plot md' = Some (length (plot_heap w)) ->
     plot_heap w' = plot_heap w ++ [pool_plot (name md) (S754_zero false) first L] -> Q tt w') ->
  wp (ReconstructMemAllocPlot pool) Q w.
Proof.
  intros Em Hh Hlen Hf HQ. unfold ReconstructMemAllocPlot, GetMem, SetMem. wp_steps.
  eapply wp_expect; [exact Em |]. cbv zeta. wp_steps.
  eapply first_time_wp; [eapply first_time_frame; [| | exact Hf]; reflexivity |].
  set (md1 := md <| frees ::= _ |>).
  destruct (free_sorts (freed_before (data md)) (freed_before_order _) (frees md)) as [Hs Hp].
  change (free_sort (freed_before (data md)) (frees md)) with (frees md1) in Hs, Hp.
  wp_steps. eapply wp_expect; [apply (rebuild_plot_draws _ first (frees md1) L); [| exact Hs | exact Hlen] |].
  { now apply (history_perm _ (frees md)). }
  wp_steps. eapply HQ; [cbn; now rewrite insert_insert_eq, lookup_insert_eq | reflexivity | reflexivity].
Qed.
