(* ===== verification/MemHistory.v ===== *)
(** * Histories of pools

    While the events of a pool arrive, one after the other in time, its allocations,
    its frees and its plot are those of one growing history. *)
From S2P Require Import Prelude Double Exact Queue Event Containers Discovery Trace Server ServerSpec ServerMem MemSpec MemRefine MemFile MemPlot.

(** ** The plot grows with the history *)
Lemma make_val t : - 2 ^ 47 <= t < 2 ^ 47 -> Int48.Val (Int48.make t) = t.
Proof. apply time_make. Qed.

Definition last_time (first : Z) (L : list change) : Z := from_option (fun c : change => c.1) first (last L).

Lemma draw_last first L : exists v,
  last (dr_points (draw first L)) = Some (mkPlotItem (Int48.make (last_time first L)) v).
Proof.
  induction L as [| c L _] using rev_ind; [now eexists |].
  unfold last_time. rewrite draw_snoc, last_snoc. cbn. rewrite last_snoc. now eexists.
Qed.

(** All changes are between [first] and [now]. *)
Definition within (first now : Z) (L : list change) : Prop :=
  - 2 ^ 47 <= first <= now /\ now < 2 ^ 47 /\ Forall (fun c => first <= c.1 <= now) L.

Lemma within_last first now L : within first now L ->
  - 2 ^ 47 <= last_time first L <= now /\ now < 2 ^ 47.
Proof.
  intros (Hf & Hn & HL). split; [| done]. unfold last_time. destruct (last L) as [c |] eqn:E; cbn; [| lia].
  apply last_snoc_inv in E as [L' ->]. apply Forall_app in HL as [_ HL]. apply Forall_inv in HL. lia.
Qed.

Lemma within_snoc first now L (c : change) : within first now L -> now < c.1 < 2 ^ 47 -> within first c.1 (L ++ [c]).
Proof.
  intros (Hf & Hn & HL) Hc. split; [lia |]. split; [lia |]. apply Forall_app. split.
  - eapply Forall_impl; [exact HL |]. cbn. lia.
  - repeat constructor; lia.
Qed.

Lemma push_draws nm pmin pmax psum first L now (c : change) v :
  within first now L -> now < c.1 < 2 ^ 47 ->
  plot_push c.1 v (mkPlotData nm pmin pmax psum (SortedVector.mk (dr_points (draw first L)) 0) PlotMemory 1 1 1 0) =
  mkPlotData nm pmin pmax psum
    (SortedVector.mk (dr_points (draw first L) ++ [mkPlotItem (Int48.make c.1) v]) 0) PlotMemory 1 1 1 0.
Proof.
  intros Hw Hc. destruct (draw_last first L) as [x Ex]. pose proof (within_last _ _ _ Hw).
  unfold plot_push, over, SortedVector.push_back. cbn -[last draw]. rewrite Ex. unfold PlotItemSort. cbn [pi_time].
  rewrite !make_val by lia. destruct (Z.ltb_spec c.1 (last_time first L)); [lia | reflexivity].
Qed.

Lemma plot_next_draws nm pmin first L now (c : change) :
  let u := level 0 L + c.2 in
  within first now L -> now < c.1 < 2 ^ 47 -> levels_ok 0 L -> exact u ->
  exact pmin -> pmin <= dr_max (draw first L) ->
  exists pmin', exact pmin' /\ pmin' <= dr_max (draw first (L ++ [c])) /\
    plot_next c.1 (double_of_Z u) (pool_plot nm (double_of_Z pmin) first L) =
      Some (pool_plot nm (double_of_Z pmin') first (L ++ [c])).
Proof.
  intros u Hw Hc Hl Hu Hm Hle. destruct (draw_ok first L Hl) as [G1 G2 G3].
  destruct (draw_last first L) as [x Ex]. pose proof (within_last _ _ _ Hw).
  unfold plot_next. change (SortedVector.v (pl_data (pool_plot _ _ _ _))) with (dr_points (draw first L)).
  rewrite Ex. cbn [pi_time]. rewrite make_val by lia.
  rewrite (proj2 (Z.leb_le _ _)) by lia. cbn [pool_plot pl_min pl_max].
  rewrite !dltb_exact by done. unfold pool_plot. rewrite draw_snoc. unfold draw_next. rewrite level_draw. fold u. cbn [dr_max dr_sum dr_points].
  destruct (Z.ltb_spec u pmin); [| destruct (Z.ltb_spec (dr_max (draw first L)) u)].
  - exists u. split; [done |]. split; [lia |]. rewrite Z.max_l by lia. f_equal. apply (push_draws nm _ _ _ first L now c _ Hw Hc).
  - exists pmin. split; [done |]. split; [lia |]. rewrite Z.max_r by lia. f_equal. apply (push_draws nm _ _ _ first L now c _ Hw Hc).
  - exists pmin. split; [done |]. split; [lia |]. rewrite Z.max_l by lia. f_equal. apply (push_draws nm _ _ _ first L now c _ Hw Hc).
Qed.

(** The plot of a pool with this history; a pool without events has none yet. *)
Definition plot_state (first : Z) (L : list change) (md : MemData) (w : W) : Prop :=
  match L with
  | [] => plot md = None
  | _ => exists p pmin, plot md = Some p /\ exact pmin /\ pmin <= dr_max (draw first L) /\
      plot_heap w !! p = Some (pool_plot (name md) (double_of_Z pmin) first L)
  end.

Lemma plot_state_frame first L md md' w w' : plot md' = plot md -> name md' = name md ->
  plot_heap w' = plot_heap w -> plot_state first L md w -> plot_state first L md' w'.
Proof. unfold plot_state. now intros -> -> ->. Qed.

Lemma MemAllocChanged_draws pool md first L now (c : change) w :
  memNameMap w !! pool = Some md -> first_time w first -> within first now L -> now < c.1 < 2 ^ 47 ->
  levels_ok 0 L -> exact (level 0 L + c.2) -> usage md = level 0 L + c.2 -> plot_state first L md w ->
  wp (MemAllocChanged pool c.1) (fun _ w' => erase_plots w' = erase_plots w /\ exists p,
    let md' := md <| plot := Some p |> in
    memNameMap w' = <[pool := md']> (memNameMap w) /\ plot_state first (L ++ [c]) md' w') w.
Proof.
  intros Em Hf Hw Hc Hl Hu Eu Hp. unfold MemAllocChanged, GetMem, GetPlot, SetPlot. wp_steps.
  eapply wp_expect; [exact Em |]. rewrite Eu. destruct L as [| c0 L'].
  - cbn in Hp. rewrite Hp. unfold CreateMemAllocPlot, GetMem, SetMem. wp_steps. eapply wp_expect; [exact Em |].
    wp_steps; [now rewrite Hp |]. eapply first_time_wp; [exact Hf |]. wp_steps.
    eapply wp_expect; [apply list_lookup_middle; reflexivity |]. wp_steps.
    split; [erased |]. exists (length (plot_heap w)). cbv zeta. split; [reflexivity |].
    exists (length (plot_heap w)), (level 0 [] + c.2). split; [done |]. split; [done |].
    split; [cbn; lia |].
    transitivity (Some (mkPlotData (name md) (double_of_Z (level 0 [] + c.2)) (double_of_Z (level 0 [] + c.2))
      (double_of_Z (level 0 [] + c.2)) (SortedVector.mk (dr_points (draw first []) ++
        [mkPlotItem (Int48.make c.1) (double_of_Z (level 0 [] + c.2))]) 0) PlotMemory 1 1 1 0)).
    + rewrite <- (push_draws (name md) _ _ _ first [] now c _ Hw Hc). cbn -[plot_push].
      rewrite list_lookup_insert_eq by (rewrite length_app; cbn; lia). reflexivity.
    + unfold pool_plot. rewrite draw_snoc. unfold draw_next. change (dr_level (draw first [])) with (level 0 []).
      cbn [dr_max dr_sum dr_points]. change (dr_max (draw first [])) with 0.
      change (dr_sum (draw first [])) with (double_of_Z 0).
      rewrite Z.max_r by (unfold exact in *; lia). rewrite dadd_exact; [reflexivity | | exact Hu | exact Hu].
      unfold exact, prec. lia.
  - destruct Hp as (p & pmin & Ep & Hm & Hle & Eh). rewrite Ep. wp_steps. eapply wp_expect; [exact Eh |].
    destruct (plot_next_draws (name md) pmin first (c0 :: L') now c) as (pmin' & Hm' & Hle' & En); try done.
    wp_steps. eapply wp_expect; [exact En |]. wp_steps.
    split; [erased |]. exists p. cbv zeta. split.
    + cbn. rewrite insert_id; [done |]. rewrite Em. f_equal. destruct md. cbn in *. now subst.
    + exists p, pmin'. split; [done |]. split; [done |]. split; [done |].
      apply list_lookup_insert_eq. now apply lookup_lt_Some in Eh.
Qed.

(** ** The pool grows with the history *)
(** An event that a pool may hold. *)
Definition sane (m : MemEvent.t) : Prop :=
  MemEvent.ok m /\ MemEvent.Size m < 2 ^ 47 /\ in_uint 24 (MemEvent.csFree m).

Lemma new_mem_sane ptr size time thread e : new_mem_event ptr size time thread = Some e ->
  live_event ptr size e -> size < 2 ^ 47 -> sane e.
Proof.
  intros E (He & _ & Hs & _) Hlt. split; [done |]. split; [now rewrite Hs |].
  unfold new_mem_event, MemEvent.SetSize, assert47 in E. destruct (size <? 2 ^ 47); [| discriminate].
  injection E as <-. split; vm_compute; [discriminate | reflexivity].
Qed.

Record traced (first : Z) (L : list change) (now : Z) (md : MemData) (live : gmap Z Z) : Prop := {
  td_ok : pool_ok md live;
  td_history : history (data md) (frees md) L;
  td_level : level 0 L = total live;
  td_within : within first now L;
  td_sane : Forall sane (data md);
  td_extent : in_uint 64 (high md) /\ in_uint 64 (low md) }.

Lemma level_snoc u L (c : change) : level u (L ++ [c]) = level u L + c.2.
Proof. unfold level. now rewrite fold_left_app. Qed.

Lemma level_exact L : levels_ok 0 L -> exact (level 0 L).
Proof. intros H. rewrite <- (level_draw 0). apply draw_ok, H. Qed.

Lemma timeline_snoc L (c : change) now : timeline L -> Forall (fun d : change => d.1 <= now) L -> now < c.1 ->
  timeline (L ++ [c]).
Proof.
  intros Hs Hn Hc. induction Hs as [| d L Hs IH Hd]; cbn; [repeat constructor |].
  apply Forall_cons in Hn as [Hd' Hn]. constructor; [now apply IH |]. apply Forall_app. split; [done |].
  constructor; [unfold earlier; lia | constructor].
Qed.

Lemma within_le first now L : within first now L -> Forall (fun d : change => d.1 <= now) L.
Proof. intros (_ & _ & H). eapply Forall_impl; [exact H |]. cbn. lia. Qed.

Lemma sorted_by_map f l : sorted_by f l <-> StronglySorted Z.le (map f l).
Proof.
  unfold sorted_by. induction l as [| a l IH]; cbn; [split; constructor |].
  split; intros [H1 H2]%StronglySorted_inv; constructor; try tauto.
  - now rewrite Forall_map.
  - now rewrite Forall_map in H2.
Qed.

Lemma sorted_snoc l t : StronglySorted Z.le l -> Forall (fun x => x <= t) l -> StronglySorted Z.le (l ++ [t]).
Proof.
  induction 1 as [| x l Hs IH Hx]; cbn; intros Ht; [repeat constructor |].
  apply Forall_cons in Ht as [Hxt Ht]. constructor; [auto |]. apply Forall_app. auto.
Qed.

(** No allocation is later than the history. *)
Lemma alloc_le first now L md live m : traced first L now md live -> m ∈ data md -> MemEvent.TimeAlloc m <= now.
Proof.
  intros H Hm. pose proof (within_le _ _ _ (td_within _ _ _ _ _ H)) as Hw. rewrite Forall_forall in Hw.
  apply (Hw (alloc_change m)). rewrite (hi_perm _ _ _ (td_history _ _ _ _ _ H)).
  apply elem_of_app. left. now apply list_elem_of_fmap_2.
Qed.

Lemma freed_change_app mems m f : is_Some (mems !! Z.to_nat f) -> freed_change (mems ++ [m]) f = freed_change mems f.
Proof. intros Hs. unfold freed_change. now rewrite lookup_app_l by now apply lookup_lt_is_Some. Qed.

Lemma allocated_traced first L now md live ptr size e t :
  traced first L now md live -> live !! ptr = None -> live_event ptr size e -> sane e -> in_uint 64 ptr -> MemEvent.TimeAlloc e = t ->
  now < t < 2 ^ 47 -> 0 <= size -> exact (level 0 L + size) -> Z.of_nat (length L) < 2 ^ 32 ->
  traced first (L ++ [(t, size)]) t (allocated ptr size e md) (<[ptr := size]> live).
Proof.
  intros H El He Hsane Hptr Et Ht Hsz Hex Hlen. destruct (H) as [Hok [H1 H2 H3 H4 H5 H6 H7] Hl Hw Hd Hx].
  assert (Hsize : MemEvent.Size e = size) by apply He.
  assert (Hfree : MemEvent.TimeFree e = -1) by apply He.
  assert (Hcount : Z.of_nat (length (data md)) < 2 ^ 32)
    by (rewrite (history_length _ _ _ (td_history _ _ _ _ _ H)) in Hlen; lia).
  split; [| | rewrite level_snoc, Hl, total_insert by done; cbn; lia | now apply (within_snoc first now L (t, size)) |
    apply Forall_app; split; [done | now apply Forall_singleton] |
    cbn; pose proof (uint_range 64 (ptr + size) ltac:(lia)); unfold in_uint in *; lia].
  - eapply (allocated_ok _ _ t); eauto. destruct (last (data md)) as [b |] eqn:Eb; [| done].
    rewrite last_lookup in Eb. apply list_elem_of_lookup_2, (alloc_le _ _ _ _ _ _ H) in Eb. lia.
  - cbn. split.
    + eapply Forall_impl; [exact H1 |]. cbn. intros f [m Em]. exists m. now apply lookup_app_l_Some.
    + assert (Ec : alloc_change e = (t, size)) by (unfold alloc_change; congruence).
      rewrite map_app, H2. cbn. rewrite Ec.
      assert (Ef : map (freed_change (data md ++ [e])) (frees md) = map (freed_change (data md)) (frees md))
        by (apply map_ext_Forall; eapply Forall_impl; [exact H1 |]; intros f; apply freed_change_app).
      rewrite Ef.
      rewrite <- !app_assoc. apply Permutation_app_head. apply Permutation_app_comm.
    + apply (timeline_snoc _ _ now); [done | now apply (within_le first) | cbn; lia].
    + apply sorted_by_map. rewrite map_app. cbn. apply sorted_snoc; [now apply sorted_by_map |].
      apply Forall_map, Forall_forall. intros m Hm. apply (alloc_le _ _ _ _ _ _ H) in Hm. cbn. lia.
    + apply Forall_app. split; [done |]. constructor; [| constructor]. rewrite Hsize.
      pose proof (level_exact L H6). unfold exact in *. lia.
    + now apply levels_ok_snoc.
    + intros i m Em. apply lookup_app_Some in Em as [Em | [_ Em]]; [exact (H7 i m Em) | left].
      apply list_elem_of_lookup_2, list_elem_of_singleton in Em as ->. lia.
Qed.

Lemma total_nonneg live : (forall p sz, live !! p = Some sz -> 0 <= sz) -> 0 <= total live.
Proof.
  induction live as [| p sz live E IH] using map_ind; intros H; [now rewrite total_empty |].
  rewrite total_insert by done. pose proof (H p sz (lookup_insert_eq _ _ _)).
  enough (0 <= total live) by lia. apply IH. intros q s Eq. apply (H q). rewrite lookup_insert_ne by congruence. done.
Qed.

Lemma size_nonneg e : MemEvent.ok e -> 0 <= MemEvent.Size e.
Proof. intros (_ & H & _). apply Z.shiftr_nonneg, H. Qed.

Lemma live_nonneg md live p sz : pool_ok md live -> live !! p = Some sz -> 0 <= sz.
Proof.
  intros H E. destruct (po_some _ _ _ _ H E) as (i & e & _ & _ & _ & He & _ & <- & _). now apply size_nonneg.
Qed.

Lemma frees_index md live f : pool_ok md live -> f ∈ frees md -> 0 <= f.
Proof.
  intros H Hf. assert (Hin : f ∈ map Z.of_nat (seq 0 (length (data md)))).
  { rewrite <- (po_once _ _ H). apply elem_of_app. auto. }
  apply list_elem_of_fmap in Hin as (k & -> & _). lia.
Qed.

Lemma freed_traced first L now md live ptr sz i e t thread :
  traced first L now md live -> live !! ptr = Some sz -> active md !! ptr = Some i ->
  data md !! Z.to_nat i = Some e -> live_event ptr sz e -> now < t < 2 ^ 47 ->
  traced first (L ++ [(t, - sz)]) t (freed ptr i e (MemEvent.SetTimeThreadFree t thread e) md) (delete ptr live).
Proof.
  intros H El Ei Ee (He & _ & Hsize & _) Ht. destruct (H) as [Hok [H1 H2 H3 H4 H5 H6 H7] Hl Hw Hd Hx].
  assert (Hix := po_index _ _ _ _ Hok Ei). assert (Hlen := po_len _ _ Hok).
  assert (Eu : uint 32 i = i) by (apply uint_small; red; lia).
  destruct (mem_SetTimeThreadFree e t thread He) as (_ & Htf & _ & Hta).
  set (e' := MemEvent.SetTimeThreadFree t thread e) in *.
  assert (Hsize' : MemEvent.Size e' = sz) by exact Hsize.
  destruct Hw as (Hw1 & Hw2 & Hw3). assert (Hw : within first now L) by done.
  rewrite sint_small in Htf by (lia || (red; lia)).
  assert (Ea : map alloc_change (<[Z.to_nat i := e']> (data md)) = map alloc_change (data md)).
  { rewrite (list_fmap_insert alloc_change). apply list_insert_id. rewrite list_lookup_fmap, Ee. cbn.
    unfold alloc_change. now rewrite Hta, Hsize', Hsize. }
  assert (Hnot : i ∉ frees md).
  { pose proof (po_nodup _ _ Hok) as (_ & Hnd & _)%NoDup_app. intros Hin. apply (Hnd i Hin).
    apply list_elem_of_fmap. exists (ptr, i). split; [done |]. now apply elem_of_map_to_list. }
  assert (Hle : exact (level 0 L + - sz)).
  { pose proof (level_exact L H6) as Hxl. rewrite Hl, (total_delete _ _ _ El) in Hxl |- *.
    pose proof (live_nonneg _ _ _ _ Hok El). enough (0 <= total (delete ptr live)) by (unfold exact in *; lia).
    apply total_nonneg. intros p s [_ E]%lookup_delete_Some. exact (live_nonneg _ _ _ _ Hok E). }
  split; [| | rewrite level_snoc, Hl, (total_delete _ _ _ El); cbn; lia | now apply (within_snoc first now L (t, - sz)) |
    apply Forall_insert; [done |]; pose proof (Forall_lookup_1 _ _ _ _ Hd Ee) as (S1 & S2 & S3);
    split; [apply (mem_SetTimeThreadFree e t thread He) | done] | exact Hx].
  - eapply freed_ok; eauto.
  - cbn. rewrite Eu. split.
    + apply Forall_app. split; [eapply Forall_impl; [exact H1 |] | repeat constructor];
        intros; rewrite lookup_lt_is_Some, length_insert, <- lookup_lt_is_Some; [done | eauto].
    + assert (Ef : map (freed_change (<[Z.to_nat i := e']> (data md))) (frees md) = map (freed_change (data md)) (frees md)).
      { apply map_ext_Forall, Forall_forall. intros f Hf. unfold freed_change.
        rewrite list_lookup_insert_ne; [done |]. intros E.
        pose proof (frees_index _ _ _ Hok Hf). assert (f = i) as -> by lia. done. }
      assert (Ei' : freed_change (<[Z.to_nat i := e']> (data md)) i = (t, - sz)).
      { unfold freed_change. rewrite list_lookup_insert_eq by lia. cbn. unfold free_change. now rewrite Htf, Hsize'. }
      rewrite Ea, map_app, Ef, H2, <- app_assoc. cbn. now rewrite Ei'.
    + apply (timeline_snoc _ _ now); [done | now apply (within_le first) | cbn; lia].
    + apply sorted_by_map. rewrite (list_fmap_insert MemEvent.TimeAlloc), list_insert_id; [now apply sorted_by_map |].
      rewrite list_lookup_fmap, Ee. cbn. now rewrite Hta.
    + apply Forall_insert; [done |]. rewrite Hsize', <- Hsize. exact (Forall_lookup_1 _ _ _ _ H5 Ee).
    + now apply levels_ok_snoc.
    + intros k m Em. destruct (decide (k = Z.to_nat i)) as [-> | Hne].
      * rewrite list_lookup_insert_eq in Em by lia. injection Em as <-. right. rewrite Htf, Hta.
        apply list_elem_of_lookup_2, (alloc_le _ _ _ _ _ _ H) in Ee. split; [lia |].
        apply elem_of_app. right. rewrite Z2Nat.id by lia. apply list_elem_of_here.
      * rewrite list_lookup_insert_ne in Em by done. destruct (H7 k m Em) as [| [Hlt Hin]]; [auto | right].
        split; [done |]. apply elem_of_app. auto.
Qed.

(** ** The handlers extend the history *)
Record tracing (pool nm first : Z) (L : list change) (now : Z) (live : gmap Z Z) (w : W) : Prop := {
  tg_threads : threads_ok w;
  tg_first : first_time w first;
  tg_pool : exists md, memNameMap w !! pool = Some md /\ name md = nm /\
    traced first L now md live /\ plot_state first L md w }.

(** What the handlers leave, but for the time reference. *)
Definition moved (pool dt : Z) (w w' : W) : Prop :=
  erase_mem w' = erase_mem w /\ m_refTimeSerial w' = sint 64 (m_refTimeSerial w + dt) /\
  forall q, q <> pool -> memNameMap w' !! q = memNameMap w !! q.

Lemma usage_exact md live L : pool_ok md live -> level 0 L = total live -> levels_ok 0 L -> usage md = level 0 L.
Proof.
  intros Hok Hl Hx%level_exact. rewrite (po_usage _ _ Hok), <- Hl. apply uint_small. red.
  unfold exact, prec in Hx. lia.
Qed.

(** The end of both handlers: the pool is stored and the plot gets its point. *)
Lemma store_traced {A} pool nm first L now (c : change) live md w dt (k : M W A) w0 (Q : A -> W -> Prop) :
  threads_ok w -> first_time w first -> is_Some (memNameMap w !! pool) -> within first now L -> now < c.1 < 2 ^ 47 ->
  levels_ok 0 L -> name md = nm -> traced first (L ++ [c]) c.1 md live -> plot_state first L md w ->
  erase_enter w = erase_enter (w0 <| m_refTimeSerial := sint 64 (m_refTimeSerial w0 + dt) |>) ->
  (forall w', tracing pool nm first (L ++ [c]) c.1 live w' -> moved pool dt w0 w' -> wp k Q w') ->
  wp (SetMem pool md;; MemAllocChanged pool c.1;; k) Q w.
Proof.
  intros Ht Hf Hs Hw Hc Hl En Htr Hp He HQ. unfold SetMem. wp_steps. set (w1 := over memNameMap _ w).
  pose proof (hi_levels _ _ _ (td_history _ _ _ _ _ Htr)) as [_ Hx]%levels_ok_snoc.
  eapply wp_mono; [apply (MemAllocChanged_draws pool md first L now c w1) | ].
  - apply lookup_insert_eq.
  - eapply first_time_frame; [| | exact Hf]; reflexivity.
  - exact Hw.
  - exact Hc.
  - exact Hl.
  - exact Hx.
  - rewrite <- level_snoc. eapply usage_exact; [apply Htr | apply Htr | apply Htr].
  - eapply plot_state_frame; [..| exact Hp]; reflexivity.
  - intros _ w2 (He2 & p & Em2 & Hp2). apply HQ.
    + split.
      * eapply threads_ok_frame; [exact Ht | frame He2 m_threadMap | frame He2 threads |
          frame He2 threadDataLast | frame He2 m_threadCtxData | frame He2 m_threadCtx].
      * eapply first_time_frame; [frame He2 m_onDemand | frame He2 framesBase_start | exact Hf].
      * exists (md <| plot := Some p |>). split; [rewrite Em2; apply lookup_insert_eq |].
        split; [exact En |]. split; [| exact Hp2]. destruct Htr as [T1 T2 T3 T4 T5 T6].
        split; auto. now apply pool_ok_plot.
    + split.
      * transitivity (erase_mem (erase_plots w2)); [erased |]. rewrite He2.
        transitivity (erase_mem (erase_enter w)); [erased |]. rewrite He. erased.
      * split; [transitivity (m_refTimeSerial w); [frame He2 m_refTimeSerial | frame He m_refTimeSerial] |].
        intros q Hq. rewrite Em2. cbn. rewrite !lookup_insert_ne by done.
        assert (memNameMap w = memNameMap w0) as -> by frame He memNameMap. done.
Qed.

Lemma ProcessMemAllocImpl_traces pool nm dt thread ptr sizeb w first L now live t :
  tracing pool nm first L now live w -> thread <> max_u64 ->
  time_of w (sint 64 (m_refTimeSerial w + dt)) = Some t -> now < t < 2 ^ 47 ->
  live !! ptr = None -> in_uint 64 ptr -> 0 <= size_of_bytes sizeb < 2 ^ 47 -> exact (total live + size_of_bytes sizeb) ->
  Z.of_nat (length L) < 2 ^ 32 ->
  wp (ProcessMemAllocImpl pool dt thread ptr sizeb) (fun _ w' =>
    tracing pool nm first (L ++ [(t, size_of_bytes sizeb)]) t (<[ptr := size_of_bytes sizeb]> live) w' /\
    moved pool dt w w') w.
Proof.
  intros [Ht Hf (md & Em & En & Htr & Hp)] Hmax Htime Ht47 El Hptr Hsz Hx Hlen.
  unfold ProcessMemAllocImpl, RefTime. wp_steps. set (w0 := over m_refTimeSerial _ w).
  eapply TscTime_wp; [exact Htime |].
  apply enter_thread_wp; [eapply threads_ok_frame; [exact Ht | ..]; reflexivity | done |].
  set (ctid := compressed thread _). clearbody ctid. intros w1 He _ Ht1.
  assert (Em1 : memNameMap w1 !! pool = Some md) by (rewrite <- Em; f_equal; frame He memNameMap).
  unfold realloc_fault, GetMem. wp_steps. eapply wp_expect; [exact Em1 |].
  rewrite (po_none _ _ _ (td_ok _ _ _ _ _ Htr) El). wp_steps. cbn [negb]. wp_steps.
  eapply wp_expect; [exact Em1 |]. apply wp_bind, wp_assert.
  { destruct (last (data md)) as [b |] eqn:Eb; [| done]. rewrite last_lookup in Eb.
    apply list_elem_of_lookup_2, (alloc_le _ _ _ _ _ _ Htr) in Eb. apply Z.leb_le. lia. }
  destruct (new_mem_event_spec ptr (size_of_bytes sizeb) t ctid Hsz) as (e & Ee & Hev & Eta).
  pose proof (td_within _ _ _ _ _ Htr) as Hw. destruct (Hw) as (Hw1 & _).
  rewrite sint_small in Eta by (lia || (red; lia)).
  cbv zeta. wp_steps. eapply wp_expect; [exact Ee |].
  change (md <| active ::= _ |> <| data ::= _ |> <| low ::= _ |> <| high ::= _ |> <| usage ::= _ |>)
    with (allocated ptr (size_of_bytes sizeb) e md).
  eapply (store_traced pool nm first L now (t, size_of_bytes sizeb) _ _ w1 dt _ w); try done.
  - eapply first_time_frame; [frame He m_onDemand | frame He framesBase_start | exact Hf].
  - apply Htr.
  - apply (allocated_traced first L now); try done; [eapply new_mem_sane; eauto; lia | lia |]. now rewrite (td_level _ _ _ _ _ Htr).
  - eapply plot_state_frame; [reflexivity | reflexivity | frame He plot_heap | exact Hp].
Qed.

Lemma ProcessMemFreeImpl_traces pool nm dt thread ptr w first L now live t sz :
  tracing pool nm first L now live w -> thread <> max_u64 ->
  time_of w (sint 64 (m_refTimeSerial w + dt)) = Some t -> now < t < 2 ^ 47 -> live !! ptr = Some sz ->
  wp (ProcessMemFreeImpl pool dt thread ptr) (fun _ w' =>
    tracing pool nm first (L ++ [(t, - sz)]) t (delete ptr live) w' /\ moved pool dt w w') w.
Proof.
  intros [Ht Hf (md & Em & En & Htr & Hp)] Hmax Htime Ht47 El.
  destruct (po_some _ _ _ _ (td_ok _ _ _ _ _ Htr) El) as (i & e & Ei & _ & Ee & Hev).
  unfold ProcessMemFreeImpl, RefTime, GetMem. wp_steps. set (w0 := over m_refTimeSerial _ w).
  eapply wp_expect; [exact Em |]. rewrite Ei. wp_steps. eapply TscTime_wp; [exact Htime |].
  apply enter_thread_wp; [eapply threads_ok_frame; [exact Ht | ..]; reflexivity | done |].
  set (ctid := compressed thread _). clearbody ctid. intros w1 He _ Ht1.
  assert (Em1 : memNameMap w1 !! pool = Some md) by (rewrite <- Em; f_equal; frame He memNameMap).
  wp_steps. eapply wp_expect; [unfold MemDataFree; now rewrite Ee |].
  change (md <| frees ::= _ |> <| data ::= _ |> <| usage ::= _ |> <| active ::= _ |>)
    with (freed ptr i e (MemEvent.SetTimeThreadFree t ctid e) md).
  eapply (store_traced pool nm first L now (t, - sz) _ _ w1 dt _ w); try done.
  - eapply first_time_frame; [frame He m_onDemand | frame He framesBase_start | exact Hf].
  - apply Htr.
  - apply Htr.
  - now apply (freed_traced first L now).
  - eapply plot_state_frame; [reflexivity | reflexivity | frame He plot_heap | exact Hp].
Qed.

(** ** Runs of events *)
Inductive mem_call := CallAlloc (dt ptr : Z) (sizeb : list Z) | CallFree (dt ptr : Z).
Definition call_dt (c : mem_call) : Z := match c with CallAlloc dt _ _ | CallFree dt _ => dt end.
Definition mem_call_run (pool thread : Z) (c : mem_call) : M W unit :=
  match c with
  | CallAlloc dt ptr sizeb => ProcessMemAllocImpl pool dt thread ptr sizeb;; mret tt
  | CallFree dt ptr => ProcessMemFreeImpl pool dt thread ptr;; mret tt
  end.
Definition mem_run (pool thread : Z) (cs : list mem_call) : M W unit := for_each cs (mem_call_run pool thread).

(** Events that make sense: each is later than the one before it, an allocated block
    is not live, a freed one is, and the bytes in use fit a double. [time] converts
    the time stamps of the client, [ref] is the last one, [now] its time. *)
Fixpoint calls_ok (time : Z -> option Z) (ref now : Z) (live : gmap Z Z) (cs : list mem_call) : Prop :=
  match cs with
  | [] => True
  | c :: cs => exists t, let ref := sint 64 (ref + call_dt c) in
      time ref = Some t /\ now < t < 2 ^ 47 /\
      match c with
      | CallAlloc _ ptr sizeb => let size := size_of_bytes sizeb in
          live !! ptr = None /\ in_uint 64 ptr /\ 0 <= size < 2 ^ 47 /\ exact (total live + size) /\
          calls_ok time ref t (<[ptr := size]> live) cs
      | CallFree _ ptr => is_Some (live !! ptr) /\ calls_ok time ref t (delete ptr live) cs
      end
  end.

Lemma time_of_moved pool dt w w' : moved pool dt w w' -> forall tsc, time_of w' tsc = time_of w tsc.
Proof.
  intros [He _] tsc. unfold time_of.
  assert (baseTime w' = baseTime w) as -> by frame He baseTime.
  assert (m_timerMul w' = m_timerMul w) as -> by frame He m_timerMul. done.
Qed.

Lemma calls_ok_ext time time' cs : (forall t, time' t = time t) -> forall ref now live,
  calls_ok time ref now live cs -> calls_ok time' ref now live cs.
Proof.
  intros E. induction cs as [| c cs IH]; intros ref now live; cbn; [done |].
  intros (t & Et & Ht & H). exists t. rewrite E. split; [done |]. split; [done |].
  destruct c; [destruct H as (H1 & H2 & H3 & H4 & H5); auto 6 | destruct H; auto].
Qed.

Lemma mem_run_traces pool nm first thread cs : forall w L now live,
  tracing pool nm first L now live w -> thread <> max_u64 ->
  calls_ok (time_of w) (m_refTimeSerial w) now live cs -> Z.of_nat (length L + length cs) < 2 ^ 32 ->
  wp (mem_run pool thread cs) (fun _ w' => exists L' now' live',
    tracing pool nm first L' now' live' w' /\ length L' = (length L + length cs)%nat /\
    forall q, q <> pool -> memNameMap w' !! q = memNameMap w !! q) w.
Proof.
  induction cs as [| c cs IH]; intros w L now live Htr Hmax Hcs Hlen; cbn [mem_run for_each].
  { apply wp_ret. exists L, now, live. split; [done |]. split; [cbn; lia | done]. }
  cbn in Hlen, Hcs. destruct Hcs as (t & Et & Ht & Hc). unfold mem_run. cbn [for_each].
  assert (Hstep : exists d live', calls_ok (time_of w) (sint 64 (m_refTimeSerial w + call_dt c)) t live' cs /\
    wp (mem_call_run pool thread c) (fun _ w' => tracing pool nm first (L ++ [(t, d)]) t live' w' /\
      moved pool (call_dt c) w w') w).
  { destruct c as [dt ptr sizeb | dt ptr].
    - destruct Hc as (El & Hptr & Hsz & Hx & Hc). exists (size_of_bytes sizeb), (<[ptr := size_of_bytes sizeb]> live).
      split; [exact Hc |]. cbn [mem_call_run]. apply wp_bind.
      eapply wp_mono; [eapply ProcessMemAllocImpl_traces; eauto; lia |]. intros r w' Hw'. now apply wp_ret.
    - destruct Hc as [[sz El] Hc]. exists (- sz), (delete ptr live). split; [exact Hc |]. cbn [mem_call_run]. apply wp_bind.
      eapply wp_mono; [eapply ProcessMemFreeImpl_traces; eauto |]. intros r w' Hw'. now apply wp_ret. }
  destruct Hstep as (d & live' & Hc' & Hw). apply wp_bind. eapply wp_mono; [exact Hw |].
  intros [] w' [Htr' Hm]. eapply wp_mono; [apply (IH w' (L ++ [(t, d)]) t live'); [done | done | |] |].
  - destruct Hm as (He & Er & Hq). rewrite Er. eapply calls_ok_ext; [exact (time_of_moved pool (call_dt c) w w' (conj He (conj Er Hq))) | exact Hc'].
  - rewrite length_app. cbn. lia.
  - intros r w2 (L2 & now2 & live2 & H2 & E2 & Eq). exists L2, now2, live2. split; [done |].
    split; [rewrite E2, length_app; cbn; lia |]. intros q Hq. rewrite Eq by done. now apply Hm.
Qed.
