(* ===== verification/MemFileSpec.v ===== *)
(** * Memory pools in trace files: what is loaded is what was saved

    The allocations of a pool come back with all their fields; the frees come back in
    another order, and the plot is rebuilt as it was drawn. *)
From S2P Require Import Prelude Double Exact Queue Event Containers Discovery Trace Server ServerSpec ServerMem MemSpec MemRefine TraceFile FileSpec Timeline TimelineSpec MemFile MemPlot MemHistory.

(** ** The bytes of a pool *)
Definition free_offset (m : MemEvent.t) : Z :=
  if MemEvent.TimeFree m <? 0 then MemEvent.TimeFree m else MemEvent.TimeFree m - MemEvent.TimeAlloc m.
Definition event_fields (refTime : Z) (m : MemEvent.t) : list (nat * Z) :=
  [(8%nat, MemEvent.Ptr m); (8%nat, MemEvent.Size m); (3%nat, Int24.make (MemEvent.CsAlloc m));
   (3%nat, MemEvent.csFree m); (8%nat, sint 64 (MemEvent.TimeAlloc m - refTime)); (8%nat, free_offset m);
   (2%nat, MemEvent.ThreadAlloc m); (2%nat, MemEvent.ThreadFree m)].
Fixpoint events_bytes (refTime : Z) (mems : list MemEvent.t) : list Z :=
  match mems with
  | [] => []
  | m :: mems => field_bytes (event_fields refTime m) ++ events_bytes (MemEvent.TimeAlloc m) mems
  end.
Definition head_fields (nm : Z) (md : MemData) : list (nat * Z) :=
  [(8%nat, nm); (8%nat, Z.of_nat (length (data md)))].
Definition size_fields (md : MemData) : list (nat * Z) :=
  [(8%nat, Z.of_nat (size (active md))); (8%nat, Z.of_nat (length (frees md)))].
Definition tail_fields (md : MemData) : list (nat * Z) :=
  [(8%nat, high md); (8%nat, low md); (8%nat, usage md); (8%nat, name md)].
Definition pool_bytes (nm : Z) (md : MemData) : list Z :=
  field_bytes (head_fields nm md) ++ field_bytes (size_fields md) ++ events_bytes 0 (data md) ++
  field_bytes (tail_fields md).

(** ** Saving *)
Section Save.
Context `{ByteSinkOk F}.

Lemma time_in64 w : in_uint 64 w -> in_sint 64 (time48 w).
Proof. intros Hw. rewrite time48_bits by done. apply sint_48_64, sint_range. lia. Qed.

Lemma WriteMemEvent_wp m refTime bs f (Q : Z -> F -> Prop) :
  MemEvent.ok m -> sink bs f ->
  (forall f', sink (bs ++ field_bytes (event_fields refTime m)) f' -> Q (MemEvent.TimeAlloc m) f') ->
  wp (WriteMemEvent m refTime) Q f.
Proof.
  intros (_ & _ & Hta & _) Hf HQ. unfold WriteMemEvent.
  do 4 (apply wp_bind; eapply put_wp; [eassumption |]; clear dependent f; intros f Hf).
  apply wp_bind. eapply WriteTimeOffset_wp; [exact Hf | now apply time_in64 |]. clear dependent f. intros f Hf.
  do 3 (apply wp_bind; eapply put_wp; [eassumption |]; clear dependent f; intros f Hf).
  apply wp_ret, HQ. unfold event_fields, field_bytes, free_offset. cbn [map concat fst snd].
  rewrite app_nil_r. now rewrite <- !app_assoc in Hf.
Qed.

Lemma WriteMemEvents_wp mems : forall refTime bs f (Q : unit -> F -> Prop),
  Forall MemEvent.ok mems -> sink bs f ->
  (forall f', sink (bs ++ events_bytes refTime mems) f' -> Q tt f') -> wp (WriteMemEvents mems refTime) Q f.
Proof.
  induction mems as [| m mems IH]; intros refTime bs f Q Hok Hf HQ; cbn [WriteMemEvents].
  { apply wp_ret, HQ. cbn. now rewrite app_nil_r. }
  apply Forall_cons in Hok as [Hm Hok]. apply wp_bind. eapply WriteMemEvent_wp; [done | exact Hf |].
  intros f1 Hf1. eapply IH; [done | exact Hf1 |]. intros f2 Hf2. apply HQ. cbn. now rewrite <- app_assoc in Hf2.
Qed.

Lemma WriteMemPool_wp nm md bs f (Q : unit -> F -> Prop) :
  Forall MemEvent.ok (data md) -> sink bs f ->
  (forall f', sink (bs ++ pool_bytes nm md) f' -> Q tt f') -> wp (WriteMemPool nm md) Q f.
Proof.
  intros Hok Hf HQ. unfold WriteMemPool.
  do 4 (apply wp_bind; eapply put_wp; [eassumption |]; clear dependent f; intros f Hf).
  apply wp_bind. eapply WriteMemEvents_wp; [done | exact Hf |]. clear dependent f. intros f Hf.
  do 3 (apply wp_bind; eapply put_wp; [eassumption |]; clear dependent f; intros f Hf).
  eapply put_wp; [exact Hf |]. clear dependent f. intros f Hf. apply HQ.
  unfold pool_bytes, head_fields, size_fields, tail_fields, field_bytes. cbn [map concat fst snd].
  rewrite !app_nil_r. rewrite <- !app_assoc in Hf. rewrite <- !app_assoc. exact Hf.
Qed.

(** All pools, in the order in which the hash map lists them. *)
Fixpoint pools_bytes (pools : list (Z * MemData)) : list Z :=
  match pools with [] => [] | p :: pools => pool_bytes p.1 p.2 ++ pools_bytes pools end.
Definition count_fields (pools : list (Z * MemData)) : list (nat * Z) :=
  [(8%nat, Z.of_nat (length pools));
   (8%nat, foldr Z.add 0 (map (fun p => Z.of_nat (length (data p.2))) pools))].

Lemma WriteMemory_wp pools bs f (Q : unit -> F -> Prop) :
  Forall (fun p => Forall MemEvent.ok (data p.2)) pools -> sink bs f ->
  (forall f', sink (bs ++ field_bytes (count_fields pools) ++ pools_bytes pools) f' -> Q tt f') ->
  wp (WriteMemory pools) Q f.
Proof.
  intros Hok Hf HQ. unfold WriteMemory.
  do 2 (apply wp_bind; eapply put_wp; [eassumption |]; clear dependent f; intros f Hf).
  assert (Hall : forall bs f, sink bs f -> wp (for_each pools (fun p => WriteMemPool p.1 p.2))
    (fun _ f' => sink (bs ++ pools_bytes pools) f') f).
  { clear HQ Hf f bs. induction Hok as [| p pools Hp Hok IH]; intros bs f Hf; cbn [for_each pools_bytes].
    - apply wp_ret. now rewrite app_nil_r.
    - apply wp_bind. eapply WriteMemPool_wp; [exact Hp | exact Hf |]. intros f1 Hf1.
      rewrite app_assoc. now apply IH. }
  eapply wp_mono; [exact (Hall _ _ Hf) |]. intros [] f' Hf'. apply HQ.
  unfold count_fields, field_bytes. cbn [map concat fst snd]. rewrite app_nil_r. rewrite <- !app_assoc in Hf'. rewrite <- !app_assoc. exact Hf'.
Qed.
End Save.

(** ** An allocation is restored *)
Lemma mem_ext (a b : MemEvent.t) : MemEvent.ok a -> MemEvent.ok b ->
  MemEvent.Ptr a = MemEvent.Ptr b -> MemEvent.Size a = MemEvent.Size b -> MemEvent.CsAlloc a = MemEvent.CsAlloc b ->
  MemEvent.csFree a = MemEvent.csFree b -> MemEvent._time_thread_alloc a = MemEvent._time_thread_alloc b ->
  MemEvent._time_thread_free a = MemEvent._time_thread_free b -> a = b.
Proof.
  destruct a as [p s c ta tf], b as [p' s' c' ta' tf'].
  intros (Hp & Hs & _) (Hp' & Hs' & _). cbn in Hp, Hs, Hp', Hs'.
  unfold MemEvent.Ptr, MemEvent.Size, MemEvent.CsAlloc. cbn. intros E1 E2 E3 -> -> ->.
  rewrite !lor_shiftl in E3 by (try apply (uint_range 8); lia).
  pose proof (uint_range 8 p ltac:(lia)). pose proof (uint_range 8 p' ltac:(lia)). unfold in_uint in *.
  assert (Es : uint 16 s = uint 16 s') by lia. assert (Ep : uint 8 p = uint 8 p') by lia.
  rewrite !Z.shiftr_div_pow2 in E2 by lia.
  assert (E : forall a b, uint 64 (Z.shiftr (sint 64 a) 8) = uint 64 (Z.shiftr (sint 64 b) 8) ->
    in_uint 64 a -> in_uint 64 b -> a / 2 ^ 8 = b / 2 ^ 8).
  { intros a b Eab Ha Hb. apply (f_equal (uint 56)) in Eab. rewrite !shiftr_ptr in Eab by done.
    assert (Hu : forall x, uint 56 (uint 64 (sint 56 (bits 8 56 x))) = bits 8 56 x).
    { intros x. unfold uint at 1 2. rewrite Z.mod_mod_divide by now exists (2 ^ 8).
      change (uint 56 (sint 56 (bits 8 56 x)) = bits 8 56 x). rewrite uint_sint by lia.
      apply uint_small, bits_range. lia. }
    rewrite !Hu in Eab. unfold bits in Eab. unfold in_uint in *.
    rewrite !Z.mod_small in Eab; [done | |]; (split; [apply Z.div_pos; lia | apply Z.div_lt_upper_bound; lia]). }
  specialize (E p p' E1 Hp Hp'). unfold uint in Es, Ep.
  assert (p = p') as -> by (rewrite (Z.div_mod p (2 ^ 8)), (Z.div_mod p' (2 ^ 8)) by lia; now rewrite E, Ep).
  assert (s = s') as -> by (rewrite (Z.div_mod s (2 ^ 16)), (Z.div_mod s' (2 ^ 16)) by lia; now rewrite E2, Es).
  done.
Qed.

Lemma pack_time w : in_uint 64 w -> pack48 (time48 w) (uint 16 w) = w.
Proof.
  intros Hw. rewrite pack48_eq. unfold time48. rewrite Z.shiftr_div_pow2, (uint_small 16 (uint 16 w)) by (try apply uint_range; lia).
  assert (E : uint 64 (sint 64 w / 2 ^ 16 * 2 ^ 16 + uint 16 w) = uint 64 (sint 64 w)).
  { f_equal. rewrite (Z.div_mod (sint 64 w) (2 ^ 16)) at 2 by lia. unfold uint.
    assert (sint 64 w mod 2 ^ 16 = w mod 2 ^ 16) as ->; [| lia].
    assert (E : uint 64 (sint 64 w) = uint 64 w) by (apply uint_sint; lia). apply (f_equal (fun x => x mod 2 ^ 16)) in E.
    unfold uint in E. rewrite !Z.mod_mod_divide in E by now exists (2 ^ 48). exact E. }
  rewrite E, uint_sint by lia. now apply uint_small.
Qed.

Lemma ptr_canonical m : MemEvent.ok m -> uint 64 (sint 56 (MemEvent.Ptr m)) = MemEvent.Ptr m.
Proof.
  intros (Hp & _). unfold MemEvent.Ptr. rewrite shiftr_ptr by done. f_equal.
  apply sint_mod_eq. transitivity (uint 56 (sint 56 (bits 8 56 (MemEvent._ptr_csalloc1 m)))); [| apply uint_sint; lia].
  unfold uint. now rewrite Z.mod_mod_divide by now exists (2 ^ 8).
Qed.

Lemma csalloc_range m : MemEvent.ok m -> in_uint 24 (MemEvent.CsAlloc m).
Proof.
  intros _. unfold MemEvent.CsAlloc. rewrite lor_shiftl by (try apply (uint_range 8); lia).
  pose proof (uint_range 8 (MemEvent._ptr_csalloc1 m) ltac:(lia)).
  pose proof (uint_range 16 (MemEvent._size_csalloc2 m) ltac:(lia)). unfold in_uint in *. lia.
Qed.

(** The setters of the loader, on whatever was in memory. *)
Lemma restored j m : MemEvent.ok j -> sane m -> exists e,
  MemEvent.SetSize (MemEvent.Size m) (MemEvent.SetPtr (MemEvent.Ptr m) (j <| MemEvent.csFree := MemEvent.csFree m |>)) = Some e /\
  MemEvent.SetTimeThreadFree (MemEvent.TimeFree m) (MemEvent.ThreadFree m)
    (MemEvent.SetTimeThreadAlloc (MemEvent.TimeAlloc m) (MemEvent.ThreadAlloc m)
      (MemEvent.SetCsAlloc (MemEvent.CsAlloc m) e)) = m.
Proof.
  intros Hj (Hm & Hlt & Hcs). pose proof (size_nonneg m Hm) as Hge.
  set (j0 := j <| MemEvent.csFree := MemEvent.csFree m |>). assert (H0 : MemEvent.ok j0) by exact Hj.
  destruct (mem_SetPtr j0 (MemEvent.Ptr m) H0) as (H1 & P1 & _ & _).
  set (e1 := MemEvent.SetPtr (MemEvent.Ptr m) j0) in *.
  assert (E : exists e, MemEvent.SetSize (MemEvent.Size m) e1 = Some e).
  { unfold MemEvent.SetSize, assert47. destruct (Z.ltb_spec (MemEvent.Size m) (2 ^ 47)); [eauto | lia]. }
  destruct E as [e E]. exists e. split; [exact E |].
  destruct (mem_SetSize e1 (MemEvent.Size m) H1 e Hge E) as (H2 & S2 & P2 & _).
  assert (C2 : MemEvent.csFree e = MemEvent.csFree m).
  { unfold MemEvent.SetSize, assert47 in E. destruct (MemEvent.Size m <? 2 ^ 47); [| discriminate]. now injection E as <-. }
  destruct (mem_SetCsAlloc e (MemEvent.CsAlloc m) H2) as (H3 & C3 & P3 & S3).
  rewrite uint_small in C3 by now apply csalloc_range.
  destruct (Hm) as (_ & _ & Hta & Htf).
  apply mem_ext; cbn [MemEvent.csFree MemEvent._time_thread_alloc MemEvent._time_thread_free]; [| done | ..].
  - split; [apply H3 |]. split; [apply H3 |]. split; apply pack48_range.
  - transitivity (MemEvent.Ptr e); [exact P3 |]. rewrite P2, P1. now apply ptr_canonical.
  - transitivity (MemEvent.Size e); [exact S3 | exact S2].
  - exact C3.
  - exact C2.
  - now apply pack_time.
  - now apply pack_time.
Qed.

(** What is read of an allocation. *)
Definition header_of_event (refTime : Z) (m : MemEvent.t) : mem_header :=
  mkMemHeader (MemEvent.Ptr m) (MemEvent.Size m) (Int24.make (MemEvent.CsAlloc m)) (MemEvent.csFree m)
    (sint 64 (MemEvent.TimeAlloc m - refTime)) (free_offset m) (MemEvent.ThreadAlloc m) (MemEvent.ThreadFree m).

Lemma times_range m : MemEvent.ok m -> in_sint 48 (MemEvent.TimeAlloc m) /\ in_sint 48 (MemEvent.TimeFree m).
Proof.
  intros (_ & _ & Ha & Hf). unfold MemEvent.TimeAlloc, MemEvent.TimeFree.
  rewrite !time48_bits by done. split; apply sint_range; lia.
Qed.

Lemma make24_range v : in_uint 24 (Int24.make v).
Proof. unfold Int24.make, Int24.SetVal. repeat (apply put_range; try lia). red. unfold Int24.empty. lia. Qed.

Lemma header_event refTime m : sane m ->
  mem_header_of (map (fun p => uint (8 * Z.of_nat (fst p)) (snd p)) (event_fields refTime m)) =
    Some (header_of_event refTime m).
Proof.
  intros (Hm & Hlt & Hcs). destruct (times_range m Hm) as [Ha Hf]. pose proof (size_nonneg m Hm).
  cbn [map event_fields fst snd mem_header_of]. unfold header_of_event.
  change (8 * Z.of_nat 8) with 64. change (8 * Z.of_nat 3) with 24. change (8 * Z.of_nat 2) with 16.
  rewrite !sint_uint, sint_sint by lia.
  rewrite (sint_small 64 (free_offset m)) by (try lia; unfold free_offset, in_sint in *; destruct (_ <? 0); lia).
  rewrite !uint_small; [done |..]; try exact Hcs; try apply make24_range; try (apply uint_range; lia).
  red. lia.
Qed.

(** ** Loading *)

(** A free is not earlier than its allocation: ages are not negative. *)
Definition savable (m : MemEvent.t) : Prop :=
  sane m /\ (0 <= MemEvent.TimeFree m -> MemEvent.TimeAlloc m <= MemEvent.TimeFree m).

(** The freed allocations and the live ones, from the [i]th on. *)
Fixpoint freed_from (i : nat) (mems : list MemEvent.t) : list Z :=
  match mems with
  | [] => []
  | m :: mems => if 0 <=? MemEvent.TimeFree m then Z.of_nat i :: freed_from (S i) mems else freed_from (S i) mems
  end.
Fixpoint active_from (i : nat) (mems : list MemEvent.t) (act : gmap Z Z) : gmap Z Z :=
  match mems with
  | [] => act
  | m :: mems => active_from (S i) mems
      (if 0 <=? MemEvent.TimeFree m then act else emplace (MemEvent.Ptr m) (Z.of_nat i) act)
  end.

(** The pool with its [i]th allocation loaded. *)
Definition loaded (i fidx : nat) (m : MemEvent.t) (md : MemData) : MemData :=
  if 0 <=? MemEvent.TimeFree m
  then md <| frees ::= <[fidx := Z.of_nat i]> |> <| data ::= <[i := m]> |>
  else md <| active ::= emplace (MemEvent.Ptr m) (Z.of_nat i) |> <| data ::= <[i := m]> |>.

Lemma load_mem_event_spec i md refTime fidx j m :
  data md !! i = Some j -> MemEvent.ok j -> savable m -> Z.of_nat i < 2 ^ 32 ->
  (0 <= MemEvent.TimeFree m -> (fidx < length (frees md))%nat) ->
  load_mem_event i (header_of_event refTime m) (mkCursor md refTime fidx) =
    Some (mkCursor (loaded i fidx m md) (MemEvent.TimeAlloc m)
      (if 0 <=? MemEvent.TimeFree m then S fidx else fidx)).
Proof.
  intros Ej Hj [Hs Hage] Hi Hf. unfold load_mem_event. cbn [mc_pool mc_refTime mc_fidx]. rewrite Ej. cbn [mbind option_bind].
  destruct (restored j m Hj Hs) as (e & Ee & Er). destruct Hs as (Hm & Hlt & Hcs).
  destruct (times_range m Hm) as [Ha Hfr].
  cbn [header_of_event mh_ptr mh_size mh_csAlloc mh_csFree mh_timeAlloc mh_timeFree mh_threadAlloc mh_threadFree].
  rewrite Ee. cbn [mbind option_bind].
  assert (Ecs : Int24.Val (Int24.make (MemEvent.CsAlloc m)) = MemEvent.CsAlloc m).
  { unfold Int24.make. rewrite Int24.Val_SetVal. apply uint_small. now apply csalloc_range. }
  rewrite Ecs, sint_add_delta, (sint_small 64 (MemEvent.TimeAlloc m)) by (lia || now apply sint_48_64).
  unfold loaded, free_offset in *. destruct (Z.ltb_spec (MemEvent.TimeFree m) 0) as [Hneg | Hpos].
  - rewrite (proj2 (Z.leb_gt _ _) Hneg), Er. reflexivity.
  - rewrite (proj2 (Z.leb_le 0 (MemEvent.TimeFree m)) Hpos).
    rewrite (proj2 (Z.leb_le 0 (MemEvent.TimeFree m - MemEvent.TimeAlloc m))) by lia.
    replace (MemEvent.TimeFree m - MemEvent.TimeAlloc m + MemEvent.TimeAlloc m) with (MemEvent.TimeFree m) by lia.
    rewrite (sint_small 64 (MemEvent.TimeFree m)) by (lia || now apply sint_48_64).
    rewrite Er, (proj2 (Nat.ltb_lt _ _)) by auto. rewrite uint_small by (red; lia). reflexivity.
Qed.

Lemma insert_mid {A} (l k : list A) i a b : i = length l -> <[i := b]> (l ++ a :: k) = (l ++ [b]) ++ k.
Proof. intros ->. rewrite insert_app_r_alt, Nat.sub_diag by lia. cbn. now rewrite <- app_assoc. Qed.

(** A pool with these allocations, frees and live blocks. *)
Definition filled (md : MemData) (d : list MemEvent.t) (fr : list Z) (act : gmap Z Z) : MemData :=
  md <| data := d |> <| frees := fr |> <| active := act |>.

(** What can be saved, and what is loaded for it. *)
Record pool_savable (nm : Z) (md : MemData) : Prop := {
  ps_events : Forall savable (data md);
  ps_frees : Permutation (frees md) (freed_from 0 (data md));
  ps_len : Z.of_nat (length (data md)) < 2 ^ 32;
  ps_name : in_uint 64 nm;
  ps_fields : in_uint 64 (high md) /\ in_uint 64 (low md) /\ in_uint 64 (usage md) /\ in_uint 64 (name md) }.
Definition loaded_pool (md : MemData) : MemData :=
  mkMemData (data md) (freed_from 0 (data md)) (active_from 0 (data md) ∅) (high md) (low md) (usage md) None
    (negb (Z.of_nat (length (data md)) =? 0)) (name md).

Lemma length_freed i mems : (length (freed_from i mems) <= length mems)%nat.
Proof. revert i. induction mems as [| m mems IH]; intros i; cbn; [lia |]. specialize (IH (S i)). case_match; cbn; lia. Qed.

Lemma junk_all_ok `{MemSlab} l : Forall MemEvent.ok (map junk_mem l).
Proof. apply Forall_map, Forall_true. intros n. apply junk_mem_ok. Qed.

Section Load.
Context `{ByteSourceOk F} `{MemSlab}.

Lemma load_mem_events_wp (w : W) mems : forall pre jd fpre jf md refTime rest f (Q : mem_cursor -> loader F -> Prop),
  data md = pre ++ jd -> length jd = length mems -> Forall MemEvent.ok jd ->
  frees md = fpre ++ jf -> length jf = length (freed_from (length pre) mems) ->
  Forall savable mems -> Z.of_nat (length pre + length mems) <= 2 ^ 32 ->
  source (events_bytes refTime mems ++ rest) f ->
  (forall f' r k, source rest f' ->
    Q (mkCursor (filled md (pre ++ mems) (fpre ++ freed_from (length pre) mems)
        (active_from (length pre) mems (active md))) r k) (mkLoader f' w)) ->
  wp (load_mem_events (length mems) (length pre) (mkCursor md refTime (length fpre))) Q (mkLoader f w).
Proof.
  induction mems as [| m mems IH]; intros pre jd fpre jf md refTime rest f Q Ed Ljd Hjd Ef Ljf Hok Hlen Hf HQ.
  { apply wp_ret. cbn in Ljf, Ljd. apply nil_length_inv in Ljf, Ljd. subst jf jd.
    replace md with (filled md (pre ++ []) (fpre ++ []) (active md)); [now apply HQ |].
    unfold filled. rewrite <- Ed, <- Ef. now destruct md. }
  destruct jd as [| j jd]; [discriminate |]. apply Forall_cons in Hjd as [Hj Hjd]. apply Forall_cons in Hok as [Hm Hok].
  cbn [length load_mem_events events_bytes] in *. rewrite <- app_assoc in Hf.
  apply wp_bind. change [8; 8; 3; 3; 8; 8; 2; 2] with (sizes (event_fields refTime m)).
  eapply read_fields_wp; [exact Hf |]. intros f1 Hf1. apply wp_bind. eapply wp_expect; [apply header_event, Hm |].
  apply wp_bind. eapply wp_expect.
  { apply (load_mem_event_spec _ _ _ _ j); [rewrite Ed; now apply list_lookup_middle | done | done | lia |].
    intros Hge. rewrite Ef, length_app, Ljf. cbn. rewrite (proj2 (Z.leb_le _ _) Hge). cbn. lia. }
  cbn in Ljf, HQ. unfold loaded. destruct (0 <=? MemEvent.TimeFree m) eqn:Efree.
  - destruct jf as [| x jf]; [discriminate |]. set (md1 := md <| frees ::= _ |> <| data ::= _ |>).
    replace (S (length pre)) with (length (pre ++ [m])) in Ljf, HQ |- * by (rewrite length_app; cbn; lia).
    replace (S (length fpre)) with (length (fpre ++ [Z.of_nat (length pre)])) by (rewrite length_app; cbn; lia).
    eapply (IH (pre ++ [m]) jd (fpre ++ [Z.of_nat (length pre)]) jf md1).
    + cbn. rewrite Ed. now apply insert_mid.
    + lia.
    + done.
    + cbn. rewrite Ef. now apply insert_mid.
    + injection Ljf as Ljf. exact Ljf.
    + done.
    + rewrite length_app. cbn. lia.
    + exact Hf1.
    + intros f' r k Hf'. specialize (HQ f' r k Hf'). rewrite <- !app_assoc. exact HQ.
  - set (md1 := md <| active ::= _ |> <| data ::= _ |>).
    replace (S (length pre)) with (length (pre ++ [m])) in Ljf, HQ |- * by (rewrite length_app; cbn; lia).
    eapply (IH (pre ++ [m]) jd fpre jf md1).
    + cbn. rewrite Ed. now apply insert_mid.
    + lia.
    + done.
    + exact Ef.
    + exact Ljf.
    + done.
    + rewrite length_app. cbn. lia.
    + exact Hf1.
    + intros f' r k Hf'. specialize (HQ f' r k Hf'). rewrite <- !app_assoc. exact HQ.
Qed.

Lemma on_w_wp {A} (m : M W A) f w (Q : A -> loader F -> Prop) :
  wp m (fun a w' => Q a (mkLoader f w')) w -> wp (on_w m) Q (mkLoader f w).
Proof. unfold wp, on_w. cbn. destruct (m w) as [[a w'] |]; [intros HQ; exact HQ | done]. Qed.

Lemma load_mem_pool_wp nm md rest f w (Q : unit -> loader F -> Prop) :
  memNameMap w !! nm = None -> pool_savable nm md -> source (pool_bytes nm md ++ rest) f ->
  (forall f', source rest f' -> Q tt (mkLoader f' (w <| memNameMap ::= <[nm := loaded_pool md]> |>))) ->
  wp load_mem_pool Q (mkLoader f w).
Proof.
  intros En [Hev Hfr Hlen Hnm (Hh & Hl & Hu & Hn)] Hf HQ. unfold pool_bytes in Hf. rewrite <- !app_assoc in Hf.
  pose proof (length_freed 0 (data md)) as Hlf. pose proof (Permutation_length Hfr) as Elf.
  unfold load_mem_pool.
  apply wp_bind. apply (read_fields_wp (head_fields nm md) _ f w _ Hf). clear dependent f. intros f Hf.
  cbn [map head_fields fst snd]. change (8 * Z.of_nat 8) with 64.
  rewrite (uint_small 64 nm), (uint_small 64 (Z.of_nat (length (data md)))) by (done || (red; lia)).
  do 2 (apply wp_bind; eapply wp_expect; [reflexivity |]).
  apply wp_bind, on_w_wp, wp_modify. set (w1 := over memNameMap _ w).
  assert (E1 : memNameMap w1 = <[nm := new_MemData]> (memNameMap w)) by (cbn; now apply emplace_fresh).
  apply wp_bind, on_w_wp. unfold GetMem. apply wp_bind, wp_gets. eapply wp_expect; [rewrite E1; apply lookup_insert_eq |].
  apply wp_bind, wp_assert; [reflexivity |].
  apply wp_bind. apply (read_fields_wp (size_fields md) _ f w1 _ Hf). clear dependent f. intros f Hf.
  cbn [map size_fields fst snd]. change (8 * Z.of_nat 8) with 64.
  rewrite (uint_small 64 (Z.of_nat (length (frees md)))) by (red; lia).
  apply wp_bind. eapply wp_expect; [reflexivity |].
  rewrite !uint_small, !Nat2Z.id by (red; lia).
  set (md0 := new_MemData <| data := _ |> <| frees := _ |>).
  apply wp_bind. apply (load_mem_events_wp w1 (data md) [] (data md0) [] (frees md0) md0 0 (field_bytes (tail_fields md) ++ rest)).
  - done.
  - cbn. now rewrite length_map, length_seq.
  - apply junk_all_ok.
  - done.
  - cbn. now rewrite length_map, length_seq.
  - done.
  - cbn. lia.
  - exact Hf.
  - clear dependent f. intros f r k Hf. cbn [mc_pool].
    apply wp_bind. apply (read_fields_wp (tail_fields md) _ f w1 _ Hf). clear dependent f. intros f Hf.
    cbn [map tail_fields fst snd]. change (8 * Z.of_nat 8) with 64. rewrite !uint_small by done.
    do 4 (apply wp_bind; eapply wp_expect; [reflexivity |]).
    apply on_w_wp. unfold SetMem. apply wp_modify. specialize (HQ f Hf).
    match goal with |- Q tt (mkLoader f ?w2) => replace w2 with (w <| memNameMap ::= <[nm := loaded_pool md]> |>); [exact HQ |] end.
    transitivity (w1 <| memNameMap ::= <[nm := loaded_pool md]> |>).
    + destruct w. cbn. unfold over. cbn. f_equal. rewrite emplace_fresh by done. now rewrite insert_insert_eq.
    + do 2 f_equal. unfold loaded_pool. destruct (Z.of_nat (length (data md)) =? 0); reflexivity.
Qed.

(** The pools of the file, stored one after the other. *)
Definition load_into (pools : list (Z * MemData)) (m : gmap Z MemData) : gmap Z MemData :=
  fold_left (fun m p => <[p.1 := loaded_pool p.2]> m) pools m.

Lemma load_mem_pools_wp pools : forall rest f w (Q : unit -> loader F -> Prop),
  NoDup pools.*1 -> Forall (fun p => memNameMap w !! p.1 = None /\ pool_savable p.1 p.2) pools ->
  source (pools_bytes pools ++ rest) f ->
  (forall f', source rest f' -> Q tt (mkLoader f' (w <| memNameMap ::= load_into pools |>))) ->
  wp (load_mem_pools (length pools)) Q (mkLoader f w).
Proof.
  induction pools as [| [nm md] pools IH]; intros rest f w Q Hnd Hok Hf HQ; cbn [length load_mem_pools].
  { apply wp_ret. replace w with (w <| memNameMap ::= load_into [] |>); [now apply HQ | now destruct w]. }
  cbn in Hnd. apply NoDup_cons in Hnd as [Hn Hnd]. apply Forall_cons in Hok as [[En Hp] Hok].
  cbn [pools_bytes fst snd] in Hf. rewrite <- app_assoc in Hf. cbn in En, Hp.
  apply wp_bind. eapply load_mem_pool_wp; [exact En | exact Hp | exact Hf |]. clear dependent f. intros f Hf.
  eapply IH; [exact Hnd | | exact Hf |].
  - apply Forall_forall. intros [nm' md'] Hin. rewrite Forall_forall in Hok. destruct (Hok _ Hin) as [E' Hp'].
    split; [| done]. cbn in E' |- *. rewrite lookup_insert_ne; [done |]. intros <-. apply Hn.
    apply list_elem_of_fmap. now exists (nm, md').
  - intros f' Hf'. specialize (HQ f' Hf'). destruct w. exact HQ.
Qed.

Lemma load_memory_wp pools rest f w (Q : unit -> loader F -> Prop) :
  NoDup pools.*1 -> Forall (fun p => memNameMap w !! p.1 = None /\ pool_savable p.1 p.2) pools ->
  Z.of_nat (length pools) < 2 ^ 64 ->
  source ((field_bytes (count_fields pools) ++ pools_bytes pools) ++ rest) f ->
  (forall f', source rest f' -> Q tt (mkLoader f' (w <| memNameMap ::= load_into pools |>))) ->
  wp load_memory Q (mkLoader f w).
Proof.
  intros Hnd Hok Hlen Hf HQ. unfold load_memory. rewrite <- app_assoc in Hf.
  apply wp_bind. apply (read_fields_wp (count_fields pools) _ f w _ Hf). clear dependent f. intros f Hf.
  cbn [map count_fields fst snd]. change (8 * Z.of_nat 8) with 64.
  rewrite (uint_small 64 (Z.of_nat (length pools))) by (red; lia).
  apply wp_bind. eapply wp_expect; [reflexivity |]. rewrite Nat2Z.id. now apply (load_mem_pools_wp pools rest).
Qed.
End Load.

Lemma lookup_load_into pools m nm : NoDup pools.*1 ->
  load_into pools m !! nm = match list_to_map (M := gmap Z MemData) pools !! nm with
    | Some md => Some (loaded_pool md) | None => m !! nm end.
Proof.
  revert m. induction pools as [| [nm' md'] pools IH]; intros m Hnd; [cbn; now rewrite lookup_empty |].
  cbn in Hnd. apply NoDup_cons in Hnd as [Hn Hnd]. change (load_into ((nm', md') :: pools) m) with
    (load_into pools (<[nm' := loaded_pool md']> m)). rewrite IH by done. rewrite list_to_map_cons.
  destruct (decide (nm' = nm)) as [-> | Hne].
  - rewrite lookup_insert_eq, (not_elem_of_list_to_map_1 pools) by done. now rewrite lookup_insert_eq.
  - now rewrite !lookup_insert_ne by done.
Qed.

(** ** The loaded pool is the saved one *)
Lemma elem_of_freed_from i mems x : x ∈ freed_from i mems <->
  exists k m, mems !! k = Some m /\ 0 <= MemEvent.TimeFree m /\ x = Z.of_nat (i + k).
Proof.
  revert i. induction mems as [| m mems IH]; intros i; cbn [freed_from].
  { split; [intros H; now apply elem_of_nil in H | intros (k & m & E & _); discriminate]. }
  assert (Hstep : x ∈ freed_from (S i) mems <-> exists k m', mems !! k = Some m' /\ 0 <= MemEvent.TimeFree m' /\
    x = Z.of_nat (i + S k)).
  { rewrite IH. split; intros (k & m' & E & Ht & Ex); exists k, m'; (split; [done |]; split; [done |]; lia). }
  destruct (Z.leb_spec 0 (MemEvent.TimeFree m)); rewrite ?elem_of_cons, Hstep.
  - split.
    + intros [-> | (k & m' & E & Ht & Ex)]; [exists 0%nat, m; split; [done |]; split; [done |]; lia | exists (S k), m'; auto].
    + intros ([| k] & m' & E & Ht & Ex); [left; lia | right; exists k, m'; auto].
  - split.
    + intros (k & m' & E & Ht & Ex). exists (S k), m'. auto.
    + intros ([| k] & m' & E & Ht & Ex); [injection E as <-; lia | exists k, m'; auto].
Qed.

Lemma freed_from_nodup i mems : NoDup (freed_from i mems).
Proof.
  revert i. induction mems as [| m mems IH]; intros i; cbn; [constructor |].
  destruct (0 <=? MemEvent.TimeFree m); [| done]. constructor; [| done].
  intros (k & _ & _ & _ & E)%elem_of_freed_from. lia.
Qed.

Lemma emplace_lookup (k v p : Z) (m : gmap Z Z) :
  emplace k v m !! p = if decide (k = p) then Some (default v (m !! p)) else m !! p.
Proof.
  case_decide as E; [subst; apply lookup_emplace |]. unfold emplace. destruct (m !! k); [done |].
  now rewrite lookup_insert_ne.
Qed.

Lemma active_sound i mems act p x : active_from i mems act !! p = Some x ->
  act !! p = Some x \/ exists k m, mems !! k = Some m /\ MemEvent.TimeFree m < 0 /\ MemEvent.Ptr m = p /\
    x = Z.of_nat (i + k).
Proof.
  revert i act. induction mems as [| m mems IH]; intros i act; cbn [active_from]; [auto |].
  intros [E | (k & m' & E & Ht & Ep & Ex)]%IH.
  - destruct (Z.leb_spec 0 (MemEvent.TimeFree m)); [auto |]. rewrite emplace_lookup in E.
    case_decide as Hp; [| auto]. subst p. destruct (act !! MemEvent.Ptr m) eqn:Ea; [left; exact E | right].
    exists 0%nat, m. split; [done |]. split; [done |]. split; [done |]. injection E as <-. lia.
  - right. exists (S k), m'. split; [done |]. split; [done |]. split; [done |]. lia.
Qed.

Lemma active_keeps i mems act p : is_Some (act !! p) -> is_Some (active_from i mems act !! p).
Proof.
  revert i act. induction mems as [| m mems IH]; intros i act [x Ex]; cbn [active_from]; [eauto |].
  apply IH. destruct (0 <=? MemEvent.TimeFree m); [eauto |]. rewrite emplace_lookup, Ex. case_decide; eauto.
Qed.

Lemma active_complete i mems act k m : mems !! k = Some m -> MemEvent.TimeFree m < 0 ->
  is_Some (active_from i mems act !! MemEvent.Ptr m).
Proof.
  revert i act k. induction mems as [| m' mems IH]; intros i act [| k] E Ht; cbn [active_from]; try discriminate E.
  - injection E as ->. rewrite (proj2 (Z.leb_gt _ _) Ht). apply active_keeps. rewrite emplace_lookup.
    rewrite decide_True by done. eauto.
  - now apply (IH _ _ k).
Qed.

(** An address as the records keep it: 56 bits and their sign. *)
Definition canonical (p : Z) : Prop := uint 64 (sint 56 p) = p.

Lemma active_restored md live : pool_ok md live -> (forall p, is_Some (live !! p) -> canonical p) ->
  Permutation (frees md) (freed_from 0 (data md)) -> active_from 0 (data md) ∅ = active md.
Proof.
  intros Hok Hcan Hfr.
  assert (Hlive : forall p i, active md !! p = Some i -> exists m, 0 <= i /\ data md !! Z.to_nat i = Some m /\
    MemEvent.Ptr m = p /\ MemEvent.TimeFree m < 0).
  { intros p i Ei. pose proof (po_live _ _ Hok p) as Hp. rewrite Ei in Hp.
    destruct (live !! p) as [sz |] eqn:El; [| done]. destruct Hp as (Hi & m & Em & _ & Hptr & _ & Ht).
    exists m. rewrite Hptr. split; [done |]. split; [done |]. split; [apply Hcan; eauto | lia]. }
  assert (Hun : forall k m, data md !! k = Some m -> MemEvent.TimeFree m < 0 ->
    active md !! MemEvent.Ptr m = Some (Z.of_nat k)).
  { intros k m Em Ht. assert (Hk : Z.of_nat k ∈ frees md ++ (map_to_list (active md)).*2).
    { rewrite (po_once _ _ Hok). apply list_elem_of_fmap_2, elem_of_seq. apply lookup_lt_Some in Em. lia. }
    apply elem_of_app in Hk as [Hk | Hk].
    - rewrite Hfr in Hk. apply elem_of_freed_from in Hk as (k' & m' & Em' & Ht' & E).
      assert (k = k') as -> by lia. rewrite Em in Em'. injection Em' as ->. lia.
    - apply list_elem_of_fmap in Hk as ([p i] & Ei & Hpi). cbn in Ei. subst i.
      apply elem_of_map_to_list in Hpi. destruct (Hlive p _ Hpi) as (m' & _ & Em' & <- & _).
      rewrite Nat2Z.id in Em'. congruence. }
  apply map_eq. intros p. destruct (active_from 0 (data md) ∅ !! p) as [x |] eqn:E.
  - apply active_sound in E as [E | (k & m & Em & Ht & <- & ->)]; [now rewrite lookup_empty in E |].
    symmetry. now apply Hun.
  - destruct (active md !! p) as [i |] eqn:Ei; [| done]. destruct (Hlive p i Ei) as (m & _ & Em & <- & Ht).
    destruct (active_complete 0 _ ∅ _ _ Em Ht) as [x Ex]. congruence.
Qed.

(** A pool that is saved, and the same one after loading: all allocations with all
    their fields, the same blocks live, the freed ones in some order. *)
Record restored_pool (md md' : MemData) : Prop := {
  rp_data : data md' = data md;
  rp_frees : Permutation (frees md') (frees md);
  rp_active : active md' = active md;
  rp_numbers : (high md', low md', usage md', name md') = (high md, low md, usage md, name md);
  rp_rebuild : plot md' = None /\ (reconstruct md' = true <-> data md <> []) }.

Lemma loaded_restored nm md live : pool_savable nm md -> pool_ok md live ->
  (forall p, is_Some (live !! p) -> canonical p) -> restored_pool md (loaded_pool md).
Proof.
  intros Hs Hok Hcan. split; cbn; try done.
  - symmetry. apply Hs.
  - eapply active_restored; [exact Hok | exact Hcan | apply Hs].
  - split; [done |]. destruct (data md); cbn; [done |]. split; [discriminate |]. intros _. apply negb_true_iff, Z.eqb_neq. lia.
Qed.

(** ** Through a file *)

(** The order in which the hash map lists the pools. *)
Class PoolOrder := {
  pools_of : gmap Z MemData -> list (Z * MemData);
  pools_perm : forall m, Permutation (pools_of m) (map_to_list m) }.

Section Files.
Context `{CodecOk} `{MemSlab} `{PoolOrder}.
Context (write_sched read_sched : nat -> list nat) (comp : FileCompression) (level : Z) (n : nat).

(** A trace file with the memory pools. *)
Definition save_memory (w : W) : option (list Z) :=
  f ← new_FileWrite comp level (Z.of_nat n);
  r ← (@WriteMemory _ (FileWrite_sink write_sched) (pools_of (memNameMap w));; Finish write_sched) f;
  Some (w_file (snd r)).
Definition load_memory_file (file : list Z) (w : W) : option W :=
  o ← new_FileRead read_sched file;
  match o with
  | NotTracyDump => None
  | Opened r => p ← @load_memory _ (FileRead_source read_sched) _ (mkLoader r w); Some (l_w (snd p))
  end.

Definition memory_bytes (pools : list (Z * MemData)) : list Z :=
  field_bytes (count_fields pools) ++ pools_bytes pools.

Lemma save_memory_image w :
  (0 < n < 256)%nat -> (forall nm md, memNameMap w !! nm = Some md -> pool_savable nm md) ->
  exists bs, save_memory w = Some (image comp level n bs (length bs)) /\
    chunked bs (memory_bytes (pools_of (memNameMap w))).
Proof.
  intros Hn Hok. destruct (new_FileWrite_holds comp level n Hn) as (f & E & Hf).
  unfold save_memory. rewrite E. cbn [mbind option_bind].
  set (pools := pools_of (memNameMap w)).
  assert (Hp : Forall (fun p => Forall MemEvent.ok (data p.2)) pools).
  { apply Forall_forall. intros [nm md] Hin. unfold pools in Hin. rewrite pools_perm in Hin.
    apply elem_of_map_to_list, Hok in Hin. eapply Forall_impl; [apply Hin |]. intros m Hm. apply Hm. }
  assert (Hw : wp (@WriteMemory _ (FileWrite_sink write_sched) pools;; Finish write_sched) (fun _ f' => exists bs,
    chunked bs (memory_bytes pools) /\ w_file f' = image comp level n bs (length bs)) f).
  { apply wp_bind. pose (ok := FileWrite_sink_ok write_sched comp level n Hn).
    eapply (WriteMemory_wp (H0 := ok)); [exact Hp | exact Hf |].
    intros f1 Hf1. now apply Finish_wp. }
  unfold wp in Hw. destruct ((@WriteMemory _ (FileWrite_sink write_sched) pools;; Finish write_sched) f) as [[[] f'] |]; [| done].
  destruct Hw as (bs & Hch & Ef). exists bs. cbn. rewrite Ef. done.
Qed.

Lemma load_memory_image bs pools w :
  (0 < n < 256)%nat -> chunked bs (memory_bytes pools) ->
  NoDup pools.*1 -> Forall (fun p => memNameMap w !! p.1 = None /\ pool_savable p.1 p.2) pools ->
  Z.of_nat (length pools) < 2 ^ 64 ->
  load_memory_file (image comp level n bs (length bs)) w = Some (w <| memNameMap ::= load_into pools |>).
Proof.
  intros Hn Hch Hnd Hok Hlen. assert (Hne : bs <> []).
  { intros ->. destruct Hch as [E _]. discriminate. }
  destruct (new_FileRead_opens read_sched comp level n Hn bs _ Hch Hne) as (r & E & Hr).
  unfold load_memory_file. rewrite E. cbn [mbind option_bind].
  pose (ok := FileRead_source_ok read_sched comp level n Hn bs _ Hch Hne).
  assert (Hw : wp (@load_memory _ (FileRead_source read_sched) _) (fun _ l => l_w l = w <| memNameMap ::= load_into pools |>)
    (mkLoader r w)).
  { eapply (load_memory_wp (H0 := ok) pools []); [done | done | done | rewrite app_nil_r; exact Hr | done]. }
  unfold wp in Hw. destruct (@load_memory _ (FileRead_source read_sched) _ (mkLoader r w)) as [[[] l] |]; [| done].
  cbn. now rewrite Hw.
Qed.

(** Saving the pools of one trace and loading them into another. *)
Lemma saved_and_loaded w w0 :
  (0 < n < 256)%nat -> (forall nm md, memNameMap w !! nm = Some md -> pool_savable nm md) ->
  Z.of_nat (size (memNameMap w)) < 2 ^ 64 -> memNameMap w0 = ∅ ->
  exists file, save_memory w = Some file /\
    load_memory_file file w0 = Some (w0 <| memNameMap := loaded_pool <$> memNameMap w |>).
Proof.
  intros Hn Hok Hsz E0. destruct (save_memory_image w Hn Hok) as (bs & E & Hch).
  exists (image comp level n bs (length bs)). split; [done |].
  assert (Hnd : NoDup (pools_of (memNameMap w)).*1) by (rewrite pools_perm; apply NoDup_fst_map_to_list).
  rewrite (load_memory_image bs (pools_of (memNameMap w)) w0 Hn Hch Hnd).
  - f_equal. transitivity (w0 <| memNameMap := load_into (pools_of (memNameMap w)) ∅ |>); [now rewrite <- E0; destruct w0 |].
    assert (load_into (pools_of (memNameMap w)) ∅ = loaded_pool <$> memNameMap w) as ->; [| done].
    apply map_eq. intros nm. rewrite lookup_load_into, lookup_empty, lookup_fmap by done.
    rewrite (list_to_map_proper _ _ Hnd (pools_perm (memNameMap w))), list_to_map_to_list.
    now destruct (memNameMap w !! nm).
  - apply Forall_forall. intros [nm md] Hin. rewrite E0. split; [apply lookup_empty |].
    rewrite pools_perm in Hin. apply elem_of_map_to_list in Hin. now apply Hok.
  - rewrite pools_perm. rewrite length_map_to_list. exact Hsz.
Qed.
End Files.

(** C24: memory pools survive a trace file. Whatever compression, number of streams
    and order of the hash map, and however the threads of the streams are scheduled,
    loading the file puts the same pools, and no others, into the new trace: their
    allocations with all fields, the blocks that are live, the extent and the bytes in
    use; the freed blocks are listed, each once, in some order. *)
Theorem memory_roundtrip `{CodecOk} `{MemSlab} `{PoolOrder} (write_sched read_sched : nat -> list nat)
    (comp : FileCompression) (level : Z) (n : nat) (w w0 : W) :
  (0 < n < 256)%nat ->
  (forall nm md, memNameMap w !! nm = Some md -> pool_savable nm md /\
     exists live, pool_ok md live /\ forall p, is_Some (live !! p) -> canonical p) ->
  Z.of_nat (size (memNameMap w)) < 2 ^ 64 -> memNameMap w0 = ∅ ->
  exists file m', save_memory write_sched comp level n w = Some file /\
    load_memory_file read_sched file w0 = Some (w0 <| memNameMap := m' |>) /\
    forall nm, match memNameMap w !! nm, m' !! nm with
      | Some md, Some md' => restored_pool md md'
      | None, None => True
      | _, _ => False
      end.
Proof.
  intros Hn Hok Hsz E0.
  destruct (saved_and_loaded write_sched read_sched comp level n w w0 Hn) as (file & Es & El); [| done | done |].
  { intros nm md E. now apply Hok. }
  exists file. eexists. split; [exact Es |]. split; [exact El |]. intros nm. rewrite lookup_fmap.
  destruct (memNameMap w !! nm) as [md |] eqn:E; cbn; [| done].
  destruct (Hok nm md E) as (Hs & live & Hpool & Hcan). eapply loaded_restored; eauto.
Qed.

(** ** Witnesses *)
#[local] Existing Instances plain plain_ok.
#[local] Instance demo_slab : MemSlab.
Proof. refine {| junk_mem := fun _ => MemEvent.mk 1 2 3 4 5; junk_free := fun _ => 0 |}. intros _. repeat split; vm_compute; discriminate || reflexivity. Defined.
#[local] Instance demo_pools : PoolOrder :=
  {| pools_of := map_to_list; pools_perm := fun m => reflexivity (map_to_list m) |}.

Lemma demo_savable : pool_savable 0 demo_pool.
Proof.
  split.
  - constructor; [| constructor]. split; [| intros H; now vm_compute in H].
    split; [repeat split; vm_compute; discriminate || reflexivity |].
    split; [vm_compute; reflexivity | split; vm_compute; discriminate || reflexivity].
  - vm_compute. reflexivity.
  - vm_compute. reflexivity.
  - split; vm_compute; discriminate || reflexivity.
  - repeat split; vm_compute; discriminate || reflexivity.
Qed.

(** A trace that is being loaded. *)
Definition demo_empty_trace : W := demo_mem_server <| memNameMap := ∅ |>.

Lemma memory_roundtrip_witness : exists file m',
  save_memory (fun t => [t; 1%nat]) Zstd 3 2 demo_mem_live = Some file /\
  load_memory_file (fun _ => []) file demo_empty_trace = Some (demo_empty_trace <| memNameMap := m' |>) /\
  exists md', m' !! 0 = Some md' /\ restored_pool demo_pool md'.
Proof.
  destruct (memory_roundtrip (fun t => [t; 1%nat]) (fun _ => []) Zstd 3 2 demo_mem_live demo_empty_trace)
    as (file & m' & Es & El & Hm).
  - lia.
  - intros nm md E. change (memNameMap demo_mem_live) with ({[0 := demo_pool]} : gmap Z MemData) in E.
    apply lookup_singleton_Some in E as [<- <-]. split; [exact demo_savable |].
    exists {[0x1000 := 16]}. split; [exact demo_pool_ok |].
    intros p [sz E]. apply lookup_singleton_Some in E as [<- _]. vm_compute. reflexivity.
  - vm_compute. reflexivity.
  - reflexivity.
  - exists file, m'. split; [exact Es |]. split; [exact El |]. specialize (Hm 0).
    change (memNameMap demo_mem_live !! 0) with (Some demo_pool) in Hm.
    destruct (m' !! 0) as [md' |]; [exists md'; split; [reflexivity | exact Hm] | destruct Hm].
Defined.
