(* ===== verification/MemTrace.v ===== *)
(** * Memory pools: the trace that is loaded shows what the live one did

    A pool survives a trace file, and the plot of its bytes in use, which the file
    does not hold, is rebuilt as it was drawn. *)
From S2P Require Import Prelude Double Exact Queue Event Containers Discovery Trace Server ServerSpec ServerMem MemSpec MemRefine TraceFile FileSpec Timeline TimelineSpec MemFile MemPlot MemHistory MemFileSpec.

(** ** The rebuilt plot *)

(** The plot of a pool. *)
Definition shown_plot (w : W) (pool : Z) : option PlotData :=
  md ← memNameMap w !! pool; p ← plot md; plot_heap w !! p.

Lemma traced_savable nm first L now md live :
  traced first L now md live -> 0 <= first -> in_uint 64 nm -> in_uint 64 (name md) ->
  Z.of_nat (length L) < 2 ^ 32 -> pool_savable nm md.
Proof.
  intros [Hok Hh Hl Hw Hs Hx] Hf Hnm Hname Hlen. rewrite (history_length _ _ _ Hh) in Hlen.
  assert (Hfree : forall f, f ∈ frees md -> exists m, data md !! Z.to_nat f = Some m /\ first <= MemEvent.TimeFree m).
  { intros f Hfin. pose proof (hi_frees _ _ _ Hh) as Hfr. rewrite Forall_forall in Hfr.
    destruct (Hfr f Hfin) as [m Em]. exists m. split; [done |]. destruct Hw as (_ & _ & Hw).
    rewrite Forall_forall in Hw. apply (Hw (free_change m)). rewrite (hi_perm _ _ _ Hh).
    apply elem_of_app. right. apply list_elem_of_fmap. exists f. split; [| done].
    unfold freed_change. now rewrite Em. }
  split.
  - apply Forall_lookup. intros i m Em. split; [exact (Forall_lookup_1 _ _ _ _ Hs Em) |].
    intros Hge. destruct (hi_after _ _ _ Hh i m Em); lia.
  - apply list.NoDup_Permutation; [| apply freed_from_nodup |].
    { pose proof (po_nodup _ _ Hok) as (Hnd & _)%NoDup_app. exact Hnd. }
    intros f. rewrite elem_of_freed_from. split.
    + intros Hfin. destruct (Hfree f Hfin) as (m & Em & Hm). exists (Z.to_nat f), m.
      split; [done |]. split; [lia |]. pose proof (frees_index _ _ _ Hok Hfin). lia.
    + intros (k & m & Em & Hge & ->). destruct (hi_after _ _ _ Hh k m Em) as [| [_ Hin]]; [lia | exact Hin].
  - lia.
  - done.
  - split; [apply Hx |]. split; [apply Hx |]. split; [| done]. rewrite (po_usage _ _ Hok). apply uint_range. lia.
Qed.

(** A new pool has an empty history. *)
Lemma new_pool_tracing w pool nm first : threads_ok w -> first_time w first -> 0 <= first < 2 ^ 47 ->
  memNameMap w !! pool = Some (new_MemData <| name := nm |>) -> tracing pool nm first [] first ∅ w.
Proof.
  intros Ht Hf Hr E. split; [done | done |]. eexists. split; [exact E |]. split; [done |]. split; [| done].
  split; cbn.
  - apply pool_ok_new.
  - split; cbn; try done; try constructor.
  - now rewrite total_empty.
  - split; [lia |]. split; [lia |]. constructor.
  - constructor.
  - split; red; lia.
Qed.

Lemma tracing_shown pool nm first L now live w : tracing pool nm first L now live w -> L <> [] ->
  exists pmin, shown_plot w pool = Some (pool_plot nm pmin first L).
Proof.
  intros [_ _ (md & Em & En & _ & Hp)] Hne. destruct L as [| c L]; [done |].
  destruct Hp as (p & pmin & Ep & _ & _ & Eh). exists (double_of_Z pmin). unfold shown_plot.
  rewrite Em. cbn. rewrite Ep. cbn. now rewrite Eh, En.
Qed.

(** Rebuilding the plot of a loaded pool. *)
Lemma loaded_shown `{FreeSortOk} pool nm first L now live md w :
  memNameMap w !! pool = Some (loaded_pool md) -> traced first L now md live -> name md = nm ->
  0 <= first -> in_uint 64 nm -> Z.of_nat (length L) + 1 < 2 ^ 32 -> first_time w first ->
  wp (ReconstructMemAllocPlot pool) (fun _ w' => shown_plot w' pool = Some (pool_plot nm (S754_zero false) first L)) w.
Proof.
  intros Em Htr En Hf Hnm Hlen Hft.
  assert (Hs : pool_savable nm md) by (eapply traced_savable; eauto; rewrite ?En; auto; lia).
  eapply (ReconstructMemAllocPlot_wp pool (loaded_pool md) first L); [exact Em | | exact Hlen | exact Hft |].
  - apply (history_perm _ (frees md)); [symmetry; apply Hs | apply Htr].
  - intros w' md' Em' Ep Eh. unfold shown_plot. rewrite Em'. cbn. rewrite Ep. cbn. rewrite Eh.
    rewrite list_lookup_middle by done. now rewrite <- En.
Qed.

(** C12: the plot of the bytes in use of a pool, which is drawn while its events arrive,
    is drawn again after the trace was saved and loaded.  For allocations of
    addresses that are not live and frees of live ones, at strictly increasing times,
    such that the bytes in use are always exact as a double, the rebuilt plot has the same points,
    the same maximum and the same sum, as doubles, and only its minimum is zero; then
    no assertion of the handlers, of the loader or of the job that rebuilds the plot
    fails.  With equal times one does: [MemFile.same_time_not_rebuilt]. *)
Theorem ReconstructMemAllocPlot_redraws `{CodecOk} `{MemSlab} `{PoolOrder} `{FreeSortOk}
    (write_sched read_sched : nat -> list nat) (comp : FileCompression) (level : Z) (n : nat)
    (pool nm thread first : Z) (cs : list mem_call) (w w0 : W) :
  (0 < n < 256)%nat -> cs <> [] -> Z.of_nat (length cs) + 1 < 2 ^ 32 ->
  threads_ok w -> thread <> max_u64 -> in_uint 64 pool -> in_uint 64 nm ->
  first_time w first -> 0 <= first < 2 ^ 47 -> memNameMap w !! pool = Some (new_MemData <| name := nm |>) ->
  calls_ok (time_of w) (m_refTimeSerial w) first ∅ cs ->
  (forall q md, q <> pool -> memNameMap w !! q = Some md -> pool_savable q md) ->
  Z.of_nat (size (memNameMap w)) < 2 ^ 64 -> memNameMap w0 = ∅ -> first_time w0 first ->
  exists w1 d file w2 w3,
    mem_run pool thread cs w = Some (tt, w1) /\ shown_plot w1 pool = Some d /\
    save_memory write_sched comp level n w1 = Some file /\ load_memory_file read_sched file w0 = Some w2 /\
    ReconstructMemAllocPlot pool w2 = Some (tt, w3) /\
    shown_plot w3 pool = Some (d <| pl_min := S754_zero false |>).
Proof.
  intros Hn Hne Hlen Ht Hmax Hpool Hnm Hft Hf Em Hcs Hothers Hsz E0 Hft0.
  pose proof (mem_run_traces pool nm first thread cs w [] first ∅ (new_pool_tracing w pool nm first Ht Hft Hf Em)
    Hmax Hcs ltac:(cbn; lia)) as Hrun.
  unfold wp in Hrun. destruct (mem_run pool thread cs w) as [[[] w1] |]; [| done].
  destruct Hrun as (L & now & live & Htr & EL & Hq). cbn in EL.
  destruct (tracing_shown _ _ _ _ _ _ _ Htr) as [pmin Ed]; [now intros ->; destruct cs |].
  destruct Htr as [_ _ (md & Em1 & En & Htr & _)].
  destruct (saved_and_loaded write_sched read_sched comp level n w1 w0 Hn) as (file & Es & El).
  - intros q md' E. destruct (decide (q = pool)) as [-> | Hqn].
    + rewrite Em1 in E. injection E as <-. eapply traced_savable; eauto; rewrite ?En; auto; lia.
    + rewrite Hq in E by done. eauto.
  - rewrite <- size_dom in Hsz |- *. assert (dom (memNameMap w1) = dom (memNameMap w)) as ->; [| done].
    apply set_eq. intros q. rewrite !elem_of_dom. destruct (decide (q = pool)) as [-> | Hqn]; [| now rewrite Hq].
    rewrite Em, Em1. split; eauto.
  - done.
  - set (w2 := w0 <| memNameMap := loaded_pool <$> memNameMap w1 |>) in *.
    assert (Hre : wp (ReconstructMemAllocPlot pool)
      (fun _ w' => shown_plot w' pool = Some (pool_plot nm (S754_zero false) first L)) w2).
    { eapply (loaded_shown pool nm first L now live md); try done; [| lia | lia].
      change (memNameMap w2) with (loaded_pool <$> memNameMap w1). now rewrite lookup_fmap, Em1. }
    unfold wp in Hre. destruct (ReconstructMemAllocPlot pool w2) as [[[] w3] |] eqn:E3; [| done].
    exists w1, (pool_plot nm pmin first L), file, w2, w3. split_and!; try done.
Qed.

(** ** Witnesses *)
#[local] Existing Instances plain plain_ok demo_slab demo_pools.
(** An insertion sort. *)
#[local] Instance demo_free_sort : FreeSort := fun comp =>
  fix sort (l : list Z) : list Z := match l with [] => [] | a :: l => merge comp [a] (sort l) end.
#[local] Instance demo_free_sorts : FreeSortOk.
Proof.
  intros comp Hc l. induction l as [| a l [IH1 IH2]]; [split; [constructor | done] |]. split.
  - apply (merge_sorted comp); [repeat constructor | exact IH1].
  - etransitivity; [apply (merge_perm comp) |]. simpl. now constructor.
Defined.

(** Two blocks are allocated and the first is freed. *)
Definition demo_calls : list mem_call :=
  [CallAlloc 5 0x1000 [16; 0; 0; 0; 0; 0]; CallAlloc 7 0x2000 [8; 0; 0; 0; 0; 0]; CallFree 9 0x1000].

Lemma demo_calls_ok : calls_ok (time_of demo_mem_server) (m_refTimeSerial demo_mem_server) 0 ∅ demo_calls.
Proof.
  exists 5. split; [vm_compute; reflexivity |]. split; [lia |]. split; [reflexivity |]. split; [red; lia |].
  split; [vm_compute; split; [discriminate | reflexivity] |]. split; [vm_compute; split; [discriminate | reflexivity] |].
  exists 12. split; [vm_compute; reflexivity |]. split; [lia |]. split; [reflexivity |]. split; [red; lia |].
  split; [vm_compute; split; [discriminate | reflexivity] |]. split; [vm_compute; split; [discriminate | reflexivity] |].
  exists 21. split; [vm_compute; reflexivity |]. split; [lia |]. split; [vm_compute; eauto | exact I].
Qed.

Lemma ReconstructMemAllocPlot_redraws_witness : exists w1 d file w2 w3,
  mem_run 0 7 demo_calls demo_mem_server = Some (tt, w1) /\ shown_plot w1 0 = Some d /\
  save_memory (fun t => [t; 1%nat]) Zstd 3 2 w1 = Some file /\
  load_memory_file (fun _ => []) file demo_empty_trace = Some w2 /\
  ReconstructMemAllocPlot 0 w2 = Some (tt, w3) /\
  shown_plot w3 0 = Some (d <| pl_min := S754_zero false |>).
Proof.
  apply (ReconstructMemAllocPlot_redraws (fun t => [t; 1%nat]) (fun _ => []) Zstd 3 2 0 0 7 0 demo_calls
    demo_mem_server demo_empty_trace).
  - lia.
  - discriminate.
  - reflexivity.
  - exact demo_mem_threads.
  - discriminate.
  - red; lia.
  - red; lia.
  - reflexivity.
  - lia.
  - reflexivity.
  - exact demo_calls_ok.
  - intros q md Hq E. change (memNameMap demo_mem_server) with ({[0 := new_MemData]} : gmap Z MemData) in E.
    apply lookup_singleton_Some in E as [<- _]. now destruct Hq.
  - reflexivity.
  - reflexivity.
  - reflexivity.
Defined.
