(* ===== verification/LockFile.v ===== *)
(** * Locks in trace files

    Of the timeline of a lock a trace file keeps the events: their times, as the
    differences between them, their places in the source, threads and types.  The
    state of the lock after each event and the ranges of the threads are computed
    again when the file is loaded. *)
From S2P Require Import Prelude Double Queue Event Containers Discovery Trace Server ServerLock Timeline.

(** The bytes of the enumerations. *)
Definition LockType_byte (t : LockType) : Z := match t with Lockable => 0 | SharedLockable => 1 end.
Definition LockType_of (b : Z) : option LockType :=
  if b =? 0 then Some Lockable else if b =? 1 then Some SharedLockable else None.
Definition Type_byte (t : LockEvent.Type_) : Z :=
  match t with
  | LockEvent.Wait => 0 | LockEvent.Obtain => 1 | LockEvent.Release => 2
  | LockEvent.WaitShared => 3 | LockEvent.ObtainShared => 4 | LockEvent.ReleaseShared => 5
  end.
Definition Type_of (b : Z) : option LockEvent.Type_ :=
  [LockEvent.Wait; LockEvent.Obtain; LockEvent.Release; LockEvent.WaitShared; LockEvent.ObtainShared;
   LockEvent.ReleaseShared] !! Z.to_nat b.

(** ** Saving *)
Section Write.
Context `{ByteSink F}.

(* TracyWorker.cpp:8466-8473 *)
Fixpoint WriteLockEvents (tl : list LockEventPtr.t) (refTime : Z) : M F unit :=
  match tl with
  | [] => mret tt
  | lev :: tl =>
      let e := LockEventPtr.ptr lev in
      refTime ← WriteTimeOffset refTime (LockEvent.Time e);
      put 2 (LockEvent.SrcLoc e);; put 1 (LockEvent.thread e);; put 1 (Type_byte (LockEvent.type e));;
      WriteLockEvents tl refTime
  end.

(* TracyWorker.cpp:8448-8474 *)
Definition WriteLock (id : Z) (l : LockMap) : M F unit :=
  put 4 id;; put 3 (customName l);; put 2 (lk_srcloc l);; put 1 (LockType_byte (lk_type l));;
  put 1 (if valid l then 1 else 0);; put 8 (timeAnnounce l);; put 8 (timeTerminate l);;
  put 8 (Z.of_nat (length (threadList l)));;
  for_each (threadList l) (fun t => put 8 t);;
  put 8 (Z.of_nat (length (lk_timeline l)));;
  WriteLockEvents (lk_timeline l) (timeAnnounce l).

(** [locks]: in the order in which the hash map lists them. *)
(* TracyWorker.cpp:8446-8447 *)
Definition WriteLocks (locks : list (Z * LockMap)) : M F unit :=
  put 8 (Z.of_nat (length locks));; for_each locks (fun p => WriteLock p.1 p.2).
End Write.

(** ** Loading *)

(** [lockmap.range] has 64 elements; the others are not there. *)
(* TracyWorker.cpp:226-231 *)
Definition UpdateLockRange (lockmap : LockMap) (ev : LockEvent.t) (lt : Z) : option LockMap :=
  let i := LockEvent.thread ev in
  if (0 <=? i) && (i <? 64) then Some (lockmap <| range ::= <[i := widen lt (range_of lockmap i)]> |>) else None.

(** What [lockingThread], which is not initialised, is in the memory of each lock. *)
Class LockMapSlab := junk_locking : Z -> Z.

Section Read.
Context `{ByteSource F} `{LockSlab} `{LockMapSlab}.

(** An event of a lock without the state, and the lock with its range. *)
(* TracyWorker.cpp:965-973 Worker *)
Definition load_lock_event (id lt srcloc thread type : Z) (lockmap : LockMap) : option LockMap :=
  let lev := lock_junk id (length (lk_timeline lockmap)) in
  let lev := match lk_type lockmap with
             | Lockable => lev <| LockEvent.waitShared := 0 |> <| LockEvent.sharedList := 0 |>
             | SharedLockable => lev end in
  lev ← LockEvent.SetTime lt lev;
  type ← Type_of type;
  let lev := (LockEvent.SetSrcLoc srcloc lev) <| LockEvent.thread := thread |> <| LockEvent.type := type |> in
  UpdateLockRange (lockmap <| lk_timeline ::= (fun tl => tl ++ [LockEventPtr.mk lev 0 0 0]) |>) lev lt.

(* TracyWorker.cpp:946-975 Worker *)
Fixpoint load_lock_events (n : nat) (id refTime : Z) (lockmap : LockMap) : M (loader F) LockMap :=
  match n with
  | O => mret lockmap
  | S n =>
      lt ← ReadTimeOffset refTime;
      srcloc ← read1 2;
      xs ← read_n [1; 1];
      thread ← expect (xs !! 0%nat);
      type ← expect (xs !! 1%nat);
      lockmap ← expect (load_lock_event id lt (sint 16 srcloc) thread type lockmap);
      load_lock_events n id lt lockmap
  end.

(* TracyWorker.cpp:935-941 Worker *)
Fixpoint load_lock_threads (n : nat) (i : Z) (lockmap : LockMap) : M (loader F) LockMap :=
  match n with
  | O => mret lockmap
  | S n =>
      t ← read1 8;
      load_lock_threads n (i + 1) (lockmap <| threadMap ::= emplace t (uint 8 i) |>
        <| threadList ::= (fun l => l ++ [t]) |>)
  end.

(** The members that are read first. *)
Definition lock_of (xs : list Z) : option (Z * LockMap * Z) :=
  match xs with
  | [id; name; srcloc; type; valid; announce; terminate; tsz] =>
      type ← LockType_of type;
      Some (id, mkLockMap name (sint 16 srcloc) [] ∅ [] type (sint 64 announce) (sint 64 terminate)
        (negb (valid =? 0)) false (junk_locking id) ∅, tsz)
  | _ => None
  end.

(** The array of the events has room for [uint32_t( tsz )] of them. *)
(* TracyWorker.cpp:927-977 Worker *)
Definition load_lock : M (loader F) unit :=
  xs ← read_n [4; 3; 2; 1; 1; 8; 8; 8];
  r ← expect (lock_of xs);
  let '(id, lockmap, tsz) := r in
  lockmap ← load_lock_threads (Z.to_nat tsz) 0 lockmap;
  tsz ← read1 8;
  assert_ (tsz <=? uint 32 tsz);;
  lockmap ← load_lock_events (Z.to_nat tsz) id (timeAnnounce lockmap) lockmap;
  lockmap ← expect (UpdateLockCount lockmap 0);
  on_w (modify (fun w => w <| lockMap ::= emplace id lockmap |>)).

(* TracyWorker.cpp:924-978 Worker *)
Fixpoint load_lock_n (n : nat) : M (loader F) unit :=
  match n with O => mret tt | S n => load_lock;; load_lock_n n end.

(** With the lock events selected. *)
(* TracyWorker.cpp:920-924 Worker *)
Definition load_locks : M (loader F) unit := sz ← read1 8; load_lock_n (Z.to_nat sz).
End Read.
