(* ===== verification/LockFileSpec.v ===== *)
(** * Locks in trace files: what is loaded is what was saved

    The states that the loader computes for the events of a lock are those that the
    handlers computed, one event at a time; so are the ranges of the threads. *)
From S2P Require Import Prelude Double Queue Event Containers Discovery Trace Server ServerSpec ServerLock LockSpec LockRefine LockMarks TraceFile FileSpec Timeline TimelineSpec LockFile.
Import LockEvent(Type_(..)).

(** ** An event is restored *)

(** The loaded event is the saved one; its state is still to be computed. *)
Record reloaded (kind : LockType) (p p' : LockEventPtr.t) : Prop := {
  rl_word : LockEvent._time_srcloc (LockEventPtr.ptr p') = LockEvent._time_srcloc (LockEventPtr.ptr p);
  rl_thread : LockEvent.thread (LockEventPtr.ptr p') = LockEvent.thread (LockEventPtr.ptr p);
  rl_type : LockEvent.type (LockEventPtr.ptr p') = LockEvent.type (LockEventPtr.ptr p);
  rl_shared : kind = Lockable -> LockEventPtr.ptr p' = LockEventPtr.ptr p }.

Lemma update_reloaded kind tl tl' : Forall2 (reloaded kind) tl tl' -> forall c b,
  LockCount.update (code_step kind) (code_store kind) (code_contended kind) c b tl' =
  LockCount.update (code_step kind) (code_store kind) (code_contended kind) c b tl.
Proof.
  induction 1 as [| p p' tl tl' [E1 E2 E3 E4] _ IH]; intros c b; [done |]. cbn [LockCount.update].
  assert (Es : code_step kind (LockEventPtr.ptr p') c = code_step kind (LockEventPtr.ptr p) c)
    by (destruct kind; unfold code_step, LockCount.step_lockable, LockCount.step_shared; now rewrite E2, E3).
  rewrite Es. destruct (code_step kind (LockEventPtr.ptr p) c) as [c' |]; [| done]. cbn [mbind option_bind].
  rewrite IH. destruct (LockCount.update _ _ _ c' _ tl) as [[tl1 c1] |]; [| done]. cbn [mbind option_bind].
  do 3 f_equal. destruct kind.
  - unfold code_store, LockCount.store_lockable. now rewrite (E4 eq_refl).
  - destruct p as [[]], p' as [[]]. cbn in *. now subst.
Qed.

Lemma word_restored w w' : in_uint 64 w -> in_uint 64 w' ->
  set_low16 (sint 16 (low16 w')) (set_time48 (time48 w') w) = w'.
Proof.
  intros Hw Hw'.
  assert (Hsplit : forall x, in_uint 64 x -> x = bits 16 48 x * 2 ^ 16 + bits 0 16 x).
  { intros x Hx. pose proof (bits_split 0 16 48 x ltac:(lia) ltac:(lia) ltac:(lia)) as E.
    change (0 + 16) with 16 in E. change (16 + 48) with 64 in E. rewrite (bits_0 64), (uint_small 64) in E by done. lia. }
  assert (Hr : in_uint 64 (set_low16 (sint 16 (low16 w')) (set_time48 (time48 w') w)))
    by (apply set_low16_range, set_time48_range, Hw).
  etransitivity; [exact (Hsplit _ Hr) |]. etransitivity; [| symmetry; exact (Hsplit _ Hw')]. f_equal.
  - f_equal. unfold set_low16. rewrite bits_put_high by lia. rewrite bits_set_time48. rewrite (time48_bits w' Hw'). rewrite uint_sint by lia. apply uint_small, bits_range. lia.
  - unfold set_low16. rewrite bits_put by lia. rewrite low16_bits. rewrite uint_sint by lia. apply uint_small, bits_range. lia.
Qed.

Lemma Type_byte_of t : Type_of (Type_byte t) = Some t.
Proof. now destruct t. Qed.
Lemma LockType_byte_of t : LockType_of (LockType_byte t) = Some t.
Proof. now destruct t. Qed.

(** The ranges after these events. *)
Definition entry_range (r : gmap Z (Z * Z)) (p : LockEventPtr.t) : gmap Z (Z * Z) :=
  let e := LockEventPtr.ptr p in let i := LockEvent.thread e in
  <[i := widen (LockEvent.Time e) (default (2 ^ 63 - 1, - 2 ^ 63) (r !! i))]> r.

(** An entry that can be saved: six bytes of time, one of 64 threads. *)
Record entry_ok (kind : LockType) (p : LockEventPtr.t) : Prop := {
  eo_word : in_uint 64 (LockEvent._time_srcloc (LockEventPtr.ptr p));
  eo_thread : 0 <= LockEvent.thread (LockEventPtr.ptr p) < 64;
  eo_shared : kind = Lockable ->
    LockEvent.waitShared (LockEventPtr.ptr p) = 0 /\ LockEvent.sharedList (LockEventPtr.ptr p) = 0 }.

Lemma load_lock_event_spec `{LockSlab} id p lm : entry_ok (lk_type lm) p ->
  let e := LockEventPtr.ptr p in
  exists p', reloaded (lk_type lm) p p' /\
    load_lock_event id (LockEvent.Time e) (LockEvent.SrcLoc e) (LockEvent.thread e) (Type_byte (LockEvent.type e)) lm =
      Some (lm <| lk_timeline ::= (fun tl => tl ++ [p']) |> <| range := entry_range (range lm) p |>).
Proof.
  intros [Hw Ht Hsh] e. unfold load_lock_event. set (lev := match lk_type lm with Lockable => _ | SharedLockable => _ end).
  assert (Hj : in_uint 64 (LockEvent._time_srcloc lev)) by (unfold lev; destruct (lk_type lm); apply lock_junk_ok).
  assert (Hlt : LockEvent.Time e < 2 ^ 47).
  { unfold LockEvent.Time. rewrite time48_bits by done. pose proof (sint_range 48 (bits 16 48 (LockEvent._time_srcloc e)) ltac:(lia)) as Hr.
    unfold in_sint in Hr. lia. }
  unfold LockEvent.SetTime, assert47. rewrite (proj2 (Z.ltb_lt _ _) Hlt). cbn [mbind option_bind].
  rewrite Type_byte_of. cbn [mbind option_bind].
  set (lev1 := (LockEvent.SetSrcLoc (LockEvent.SrcLoc e)
    (lev <| LockEvent._time_srcloc ::= set_time48 (LockEvent.Time e) |>)) <| LockEvent.thread := LockEvent.thread e |>
    <| LockEvent.type := LockEvent.type e |>).
  exists (LockEventPtr.mk lev1 0 0 0). split.
  - assert (Ew : LockEvent._time_srcloc lev1 = LockEvent._time_srcloc e) by (apply word_restored; [exact Hj | exact Hw]).
    split; [exact Ew | done | done |]. intros Hk. cbn [LockEventPtr.ptr]. destruct (Hsh Hk) as [Z1 Z2].
    unfold lev1, lev in *. rewrite Hk in *. unfold e in *. destruct (LockEventPtr.ptr p) as [w0 th ty ws sl]. cbn in *.
    subst ws sl. unfold over. cbn. f_equal. exact Ew.
  - unfold UpdateLockRange. cbn [LockEvent.thread]. change (LockEvent.thread lev1) with (LockEvent.thread e).
    assert (E : (0 <=? LockEvent.thread e) && (LockEvent.thread e <? 64) = true) by (unfold e; lia). rewrite E. reflexivity.
Qed.

(** ** The ranges *)
Lemma range_rep_inj r r' t h : range_rep r t h -> range_rep r' t h -> r = r'.
Proof.
  intros ((e1 & I1 & T1 & E1) & (e2 & I2 & T2 & E2) & Hb) ((e1' & I1' & T1' & E1') & (e2' & I2' & T2' & E2') & Hb').
  pose proof (Hb e1' I1' T1'). pose proof (Hb e2' I2' T2'). pose proof (Hb' e1 I1 T1). pose proof (Hb' e2 I2 T2).
  destruct r, r'. cbn in *. f_equal; lia.
Qed.

Lemma hist_ranges kind ths tl h s c : NoDup ths -> hist kind ths tl h s c ->
  let r := fold_left entry_range tl ∅ in
  (forall (n : nat) t, ths !! n = Some t -> match r !! Z.of_nat n with
     | Some x => range_rep x t h
     | None => forall e, e ∈ h -> ev_thread e <> t end) /\
  forall k, is_Some (r !! k) -> 0 <= k < Z.of_nat (length ths).
Proof.
  intros Hnd. cbv zeta. induction 1 as [| tl h s c p e s' H [IH IHk] Ho Hr Hs [Et Hw Etm (i & Ei & Eth) Hc]].
  { cbn. split; [intros n t _; rewrite lookup_empty; intros e He; now apply elem_of_nil in He |].
    intros k [x Ex]. now rewrite lookup_empty in Ex. }
  rewrite fold_left_app. cbn [fold_left]. set (r := fold_left entry_range tl ∅) in *.
  unfold entry_range. rewrite Ei, Etm.
  assert (Hin : in_sint 64 (ev_time e)).
  { rewrite <- Etm. unfold LockEvent.Time. rewrite time48_bits by done.
    pose proof (sint_range 48 (bits 16 48 (LockEvent._time_srcloc (LockEventPtr.ptr p))) ltac:(lia)) as Hx.
    unfold in_sint in *. lia. }
  split.
  - intros n t En. destruct (decide (n = i)) as [-> | Hne].
    + rewrite lookup_insert_eq. rewrite Eth in En. injection En as <-. specialize (IH i _ Eth).
      destruct (r !! Z.of_nat i) as [x |]; [exact (widen_rep h e x IH) | exact (widen_fresh h e Hin IH)].
    + rewrite lookup_insert_ne by lia. specialize (IH n t En).
      assert (Hother : ev_thread e <> t) by (intros <-; exact (Hne (NoDup_lookup _ _ _ _ Hnd En Eth))).
      destruct (r !! Z.of_nat n); [now apply other_rep |].
      intros e' [He | ->]%event_cases; auto.
  - intros k Hk. destruct (decide (k = Z.of_nat i)) as [-> | Hne].
    + apply lookup_lt_Some in Eth. lia.
    + rewrite lookup_insert_ne in Hk by done. auto.
Qed.

(** The ranges of a lock are those of its timeline. *)
Lemma lock_ranges lm h s : lock_hist lm h s -> (forall k, is_Some (range lm !! k) -> 0 <= k) ->
  fold_left entry_range (lk_timeline lm) ∅ = range lm.
Proof.
  intros [Hn Hh Hr Hf] Hpos. destruct (hist_ranges _ _ _ _ _ _ (nu_nodup _ Hn) Hh) as [H1 H2].
  set (r := fold_left entry_range (lk_timeline lm) ∅) in *.
  assert (Heq : forall (n : nat) t, threadList lm !! n = Some t -> r !! Z.of_nat n = range lm !! Z.of_nat n).
  { intros n t En. specialize (H1 n t En). specialize (Hr n t En). unfold range_of in Hr.
    destruct (Hr) as ((e & He & Ht & _) & _).
    destruct (r !! Z.of_nat n) as [x |]; [| destruct (H1 e He Ht)].
    destruct (range lm !! Z.of_nat n) as [y |]; cbn in Hr.
    - f_equal. exact (range_rep_inj _ _ _ _ H1 Hr).
    - destruct Hr as (_ & _ & Hb). specialize (Hb e He Ht). cbn in Hb. lia. }
  assert (Hin : forall k, 0 <= k < Z.of_nat (length (threadList lm)) -> r !! k = range lm !! k).
  { intros k Hk. destruct (lookup_lt_is_Some_2 (threadList lm) (Z.to_nat k) ltac:(lia)) as [t Et].
    specialize (Heq _ _ Et). now rewrite Z2Nat.id in Heq by lia. }
  apply map_eq. intros k. destruct (decide (0 <= k < Z.of_nat (length (threadList lm)))) as [Hk | Hk]; [auto |].
  destruct (r !! k) eqn:E; [destruct Hk; apply H2; eauto |].
  destruct (range lm !! k) eqn:E'; [| done]. assert (is_Some (range lm !! k)) as Hs by eauto.
  destruct Hk. split; [auto | now apply Hf].
Qed.

(** ** The threads *)
Definition threads_map (ths : list Z) (tm : gmap Z Z) : Prop :=
  forall t i, tm !! t = Some i <-> exists n : nat, i = Z.of_nat n /\ ths !! n = Some t.

Lemma threads_map_snoc ths tm t : threads_map ths tm -> t ∉ ths ->
  threads_map (ths ++ [t]) (emplace t (Z.of_nat (length ths)) tm).
Proof.
  intros H Hn. assert (E : tm !! t = None).
  { destruct (tm !! t) as [i |] eqn:E; [| done]. apply H in E as (n & _ & E). now apply list_elem_of_lookup_2 in E. }
  rewrite emplace_fresh by done. intros t' i. destruct (decide (t' = t)) as [-> | Hne].
  - rewrite lookup_insert_eq. split.
    + intros [= <-]. exists (length ths). split; [done |]. now rewrite list_lookup_middle.
    + intros (n & -> & [Ei | [Hge Ei]]%lookup_app_Some); [now apply list_elem_of_lookup_2 in Ei |].
      apply lookup_lt_Some in Ei as Hlt. cbn in Hlt. do 2 f_equal. lia.
  - rewrite lookup_insert_ne by done. rewrite (H t' i). split; intros (n & -> & En); exists n; (split; [done |]).
    + now apply lookup_app_l_Some.
    + apply lookup_app_Some in En as [En | [_ En]]; [done |].
      apply list_elem_of_lookup_2, list_elem_of_singleton in En. now destruct Hne.
Qed.

(** ** Saving *)
Definition lock_head (id : Z) (l : LockMap) : list (nat * Z) :=
  [(4%nat, id); (3%nat, customName l); (2%nat, lk_srcloc l); (1%nat, LockType_byte (lk_type l));
   (1%nat, if valid l then 1 else 0); (8%nat, timeAnnounce l); (8%nat, timeTerminate l);
   (8%nat, Z.of_nat (length (threadList l)))].
Definition words (l : list Z) : list Z := concat (map (le_bytes 8) l).
Fixpoint lock_events_bytes (refTime : Z) (tl : list LockEventPtr.t) : list Z :=
  match tl with
  | [] => []
  | p :: tl => let e := LockEventPtr.ptr p in
      le_bytes 8 (sint 64 (LockEvent.Time e - refTime)) ++ le_bytes 2 (LockEvent.SrcLoc e) ++
      field_bytes [(1%nat, LockEvent.thread e); (1%nat, Type_byte (LockEvent.type e))] ++
      lock_events_bytes (LockEvent.Time e) tl
  end.
Definition lock_bytes (id : Z) (l : LockMap) : list Z :=
  field_bytes (lock_head id l) ++ words (threadList l) ++ le_bytes 8 (Z.of_nat (length (lk_timeline l))) ++
  lock_events_bytes (timeAnnounce l) (lk_timeline l).
Fixpoint locks_bytes (locks : list (Z * LockMap)) : list Z :=
  match locks with [] => [] | p :: locks => lock_bytes p.1 p.2 ++ locks_bytes locks end.

Lemma event_time_range p kind : entry_ok kind p -> in_sint 48 (LockEvent.Time (LockEventPtr.ptr p)).
Proof. intros [Hw _ _]. unfold LockEvent.Time. rewrite time48_bits by done. apply sint_range. lia. Qed.

Section Save.
Context `{ByteSinkOk F}.

Lemma for_each_wp {A} (bytes : A -> list Z) (body : A -> M F unit) l : forall bs f (Q : unit -> F -> Prop),
  Forall (fun a => forall bs f (R : unit -> F -> Prop), sink bs f -> (forall f', sink (bs ++ bytes a) f' -> R tt f') -> wp (body a) R f) l ->
  sink bs f -> (forall f', sink (bs ++ concat (map bytes l)) f' -> Q tt f') -> wp (for_each l body) Q f.
Proof.
  induction l as [| a l IH]; intros bs f Q Hl Hf HQ; cbn [for_each].
  { apply wp_ret, HQ. cbn. now rewrite app_nil_r. }
  apply Forall_cons in Hl as [Ha Hl]. apply wp_bind. eapply Ha; [exact Hf |]. intros f1 Hf1.
  eapply IH; [exact Hl | exact Hf1 |]. intros f2 Hf2. apply HQ. cbn. now rewrite <- app_assoc in Hf2.
Qed.

Lemma WriteLockEvents_wp kind tl : forall refTime bs f (Q : unit -> F -> Prop),
  Forall (entry_ok kind) tl -> sink bs f ->
  (forall f', sink (bs ++ lock_events_bytes refTime tl) f' -> Q tt f') -> wp (WriteLockEvents tl refTime) Q f.
Proof.
  induction tl as [| p tl IH]; intros refTime bs f Q Hok Hf HQ; cbn [WriteLockEvents].
  { apply wp_ret, HQ. cbn. now rewrite app_nil_r. }
  apply Forall_cons in Hok as [Hp Hok]. apply wp_bind.
  eapply WriteTimeOffset_wp; [exact Hf | apply sint_48_64; eapply event_time_range; exact Hp |]. clear dependent f. intros f Hf.
  do 3 (apply wp_bind; eapply put_wp; [eassumption |]; clear dependent f; intros f Hf).
  eapply IH; [exact Hok | exact Hf |]. clear dependent f. intros f Hf. apply HQ. cbn [lock_events_bytes].
  unfold field_bytes. cbn [map concat fst snd]. rewrite app_nil_r. rewrite <- !app_assoc in Hf. rewrite <- !app_assoc. exact Hf.
Qed.

Lemma WriteLock_wp id l bs f (Q : unit -> F -> Prop) :
  Forall (entry_ok (lk_type l)) (lk_timeline l) -> sink bs f ->
  (forall f', sink (bs ++ lock_bytes id l) f' -> Q tt f') -> wp (WriteLock id l) Q f.
Proof.
  intros Hok Hf HQ. unfold WriteLock.
  do 8 (apply wp_bind; eapply put_wp; [eassumption |]; clear dependent f; intros f Hf).
  apply wp_bind. eapply (for_each_wp (le_bytes 8)); [| exact Hf |].
  { apply Forall_true. intros t bs' f' R Hf' HR. eapply put_wp; [exact Hf' | exact HR]. }
  clear dependent f. intros f Hf. apply wp_bind. eapply put_wp; [exact Hf |]. clear dependent f. intros f Hf.
  eapply WriteLockEvents_wp; [exact Hok | exact Hf |]. clear dependent f. intros f Hf. apply HQ.
  unfold lock_bytes, lock_head, field_bytes. cbn [map concat fst snd]. rewrite app_nil_r.
  rewrite <- !app_assoc in Hf. rewrite <- !app_assoc. exact Hf.
Qed.

Lemma WriteLocks_wp locks bs f (Q : unit -> F -> Prop) :
  Forall (fun p => Forall (entry_ok (lk_type p.2)) (lk_timeline p.2)) locks -> sink bs f ->
  (forall f', sink (bs ++ le_bytes 8 (Z.of_nat (length locks)) ++ locks_bytes locks) f' -> Q tt f') ->
  wp (WriteLocks locks) Q f.
Proof.
  intros Hok Hf HQ. unfold WriteLocks. apply wp_bind. eapply put_wp; [exact Hf |]. clear dependent f. intros f Hf.
  eapply (for_each_wp (fun p => lock_bytes p.1 p.2)); [| exact Hf |].
  - eapply Forall_impl; [exact Hok |]. intros p Hp bs' f' R Hf' HR. eapply WriteLock_wp; eauto.
  - clear dependent f. intros f Hf. apply HQ. rewrite <- app_assoc in Hf.
    replace (locks_bytes locks) with (concat (map (fun p => lock_bytes p.1 p.2) locks)); [exact Hf |].
    clear. induction locks as [| p locks IH]; [done |]. cbn [map concat locks_bytes]. now rewrite IH.
Qed.
End Save.

(** ** Loading *)
Lemma hist_entries kind ths tl h s c : (length ths <= 64)%nat -> hist kind ths tl h s c -> Forall (entry_ok kind) tl.
Proof.
  intros Hlen H. induction H as [| tl h s c p e s' H IH Ho Hr Hs He]; [constructor |].
  apply Forall_app. split; [done |]. apply Forall_singleton.
  assert (H' := hist_snoc _ _ _ _ _ _ _ _ _ H Ho Hr Hs He). destruct He as [_ Hw _ (i & Ei & Eth) Hc].
  split; [done | rewrite Ei; apply lookup_lt_Some in Eth; lia |]. intros Hk.
  destruct (hist_kind _ _ _ _ _ _ H' Hk) as [Z1 Z2].
  split; [apply (bits_zero _ _ _ (cr_waiting_shared _ _ _ Hc)), Z1 | apply (bits_zero _ _ _ (cr_sharing _ _ _ Hc)), Z2].
Qed.

(** A lock that can be saved: one with a history, whose members have their widths. *)
Record lock_savable (id : Z) (l : LockMap) : Prop := {
  ls_hist : exists h s, lock_hist l h s;
  ls_range : forall k, is_Some (range l !! k) -> 0 <= k;
  ls_len : Z.of_nat (length (lk_timeline l)) < 2 ^ 32;
  ls_id : in_uint 32 id;
  ls_name : in_uint 24 (customName l);
  ls_srcloc : in_sint 16 (lk_srcloc l);
  ls_times : in_sint 64 (timeAnnounce l) /\ in_sint 64 (timeTerminate l);
  ls_threads : Forall (in_uint 64) (threadList l) }.

Section Load.
Context `{ByteSourceOk F} `{LockSlab} `{LockMapSlab}.

Lemma read_word_wp n v rest f w (Q : Z -> loader F -> Prop) :
  source (le_bytes n v ++ rest) f -> (forall f', source rest f' -> Q (uint (8 * Z.of_nat n) v) (mkLoader f' w)) ->
  wp (read1 (Z.of_nat n)) Q (mkLoader f w).
Proof.
  intros Hf HQ. unfold read1. apply wp_bind. apply (read_fields_wp [(n, v)] rest).
  - unfold field_bytes. cbn. now rewrite app_nil_r.
  - intros f' Hf'. now apply HQ.
Qed.

Lemma ReadTimeOffset_wp refTime t rest f w (Q : Z -> loader F -> Prop) :
  source (le_bytes 8 (sint 64 (t - refTime)) ++ rest) f -> in_sint 64 t ->
  (forall f', source rest f' -> Q t (mkLoader f' w)) -> wp (ReadTimeOffset refTime) Q (mkLoader f w).
Proof.
  intros Hf Ht HQ. unfold ReadTimeOffset. apply wp_bind. change 8 with (Z.of_nat 8).
  eapply read_word_wp; [exact Hf |]. intros f' Hf'. apply wp_ret. change (8 * Z.of_nat 8) with 64.
  rewrite sint_uint, sint_sint, sint_add_delta, sint_small by (lia || done). now apply HQ.
Qed.

Lemma load_lock_threads_wp ths : forall pre lm rest f w (Q : LockMap -> loader F -> Prop),
  threadList lm = pre -> threads_map pre (threadMap lm) -> NoDup (pre ++ ths) -> (length (pre ++ ths) <= 64)%nat ->
  Forall (in_uint 64) ths -> source (words ths ++ rest) f ->
  (forall f' tm, threads_map (pre ++ ths) tm -> source rest f' ->
    Q (lm <| threadMap := tm |> <| threadList := pre ++ ths |>) (mkLoader f' w)) ->
  wp (load_lock_threads (length ths) (Z.of_nat (length pre)) lm) Q (mkLoader f w).
Proof.
  induction ths as [| t ths IH]; intros pre lm rest f w Q El Hm Hnd Hlen Hw Hf HQ; cbn [length load_lock_threads].
  { apply wp_ret. rewrite app_nil_r in HQ. specialize (HQ f _ Hm Hf). destruct lm. cbn in *. now subst. }
  apply Forall_cons in Hw as [Ht Hw]. unfold words in Hf. cbn [map concat] in Hf. rewrite <- app_assoc in Hf.
  apply wp_bind. change 8 with (Z.of_nat 8). eapply read_word_wp; [exact Hf |]. clear dependent f. intros f Hf.
  change (8 * Z.of_nat 8) with 64. rewrite (uint_small 64 t Ht).
  rewrite length_app in Hlen. cbn in Hlen. rewrite (uint_small 8) by (red; lia).
  replace (Z.of_nat (length pre) + 1) with (Z.of_nat (length (pre ++ [t]))) by (rewrite length_app; cbn; lia).
  assert (Hn : t ∉ pre) by (apply NoDup_app in Hnd as (_ & Hnd & _); intros Hin; apply (Hnd t Hin), list_elem_of_here).
  eapply (IH (pre ++ [t])).
  - cbn. now rewrite El.
  - now apply threads_map_snoc.
  - now rewrite <- app_assoc.
  - rewrite !length_app. cbn. lia.
  - done.
  - exact Hf.
  - intros f' tm Htm Hf'. rewrite <- app_assoc in Htm |- *. exact (HQ f' tm Htm Hf').
Qed.

Lemma load_lock_events_wp id tl : forall refTime lm rest f w (Q : LockMap -> loader F -> Prop),
  Forall (entry_ok (lk_type lm)) tl -> source (lock_events_bytes refTime tl ++ rest) f ->
  (forall f' tl', Forall2 (reloaded (lk_type lm)) tl tl' -> source rest f' ->
    Q (lm <| lk_timeline ::= (fun l => l ++ tl') |> <| range := fold_left entry_range tl (range lm) |>) (mkLoader f' w)) ->
  wp (load_lock_events (length tl) id refTime lm) Q (mkLoader f w).
Proof.
  induction tl as [| p tl IH]; intros refTime lm rest f w Q Hok Hf HQ; cbn [length load_lock_events].
  { apply wp_ret. specialize (HQ f [] ltac:(constructor) Hf).
    replace lm with (lm <| lk_timeline ::= (fun l => l ++ []) |> <| range := range lm |>); [exact HQ |].
    destruct lm. unfold over. cbn. now rewrite app_nil_r. }
  apply Forall_cons in Hok as [Hp Hok]. cbn [lock_events_bytes] in Hf. rewrite <- !app_assoc in Hf.
  apply wp_bind. eapply ReadTimeOffset_wp; [exact Hf | apply sint_48_64; eapply event_time_range; exact Hp |].
  clear dependent f. intros f Hf. apply wp_bind. change 2 with (Z.of_nat 2) at 1.
  eapply read_word_wp; [exact Hf |]. clear dependent f. intros f Hf.
  apply wp_bind. apply (read_fields_wp [(1%nat, _); (1%nat, _)] _ f w _ Hf). clear dependent f. intros f Hf.
  destruct (load_lock_event_spec id p lm Hp) as (p' & Hp' & El). destruct Hp as [Hw Ht Hs].
  change (8 * Z.of_nat 2) with 16. cbn [map fst snd]. change (8 * Z.of_nat 1) with 8.
  assert (Esrc : sint 16 (uint 16 (LockEvent.SrcLoc (LockEventPtr.ptr p))) = LockEvent.SrcLoc (LockEventPtr.ptr p)).
  { rewrite sint_uint by lia. unfold LockEvent.SrcLoc. now rewrite sint_sint by lia. }
  rewrite Esrc, (uint_small 8 (LockEvent.thread _)) by (red; lia).
  rewrite (uint_small 8 (Type_byte _)) by (destruct (LockEvent.type _); red; cbn; lia).
  do 2 (apply wp_bind; eapply wp_expect; [reflexivity |]).
  apply wp_bind. eapply wp_expect; [exact El |].
  eapply IH; [exact Hok | exact Hf |]. clear dependent f. intros f tl' Htl Hf.
  specialize (HQ f (p' :: tl') ltac:(now constructor) Hf).
  match goal with |- Q ?l _ => match type of HQ with Q ?l' _ => replace l with l'; [exact HQ |] end end.
  destruct lm. unfold over. cbn. now rewrite <- app_assoc.
Qed.

Lemma load_lock_wp id l rest f w (Q : unit -> loader F -> Prop) :
  lockMap w !! id = None -> lock_savable id l -> source (lock_bytes id l ++ rest) f ->
  (forall f', source rest f' -> Q tt (mkLoader f' (w <| lockMap ::= <[id := l <| lockingThread := junk_locking id |>]> |>))) ->
  wp load_lock Q (mkLoader f w).
Proof.
  intros En [(h & s & Hh) Hrng Hlen Hid Hname Hsrc [Ha Ht] Hth] Hf HQ. unfold lock_bytes in Hf. rewrite <- !app_assoc in Hf.
  pose proof (lh_numbered _ _ _ Hh) as Hn. pose proof (nu_len _ Hn) as Hnl.
  unfold load_lock. apply wp_bind. apply (read_fields_wp (lock_head id l) _ f w _ Hf). clear dependent f. intros f Hf.
  cbn [map lock_head fst snd]. change (8 * Z.of_nat 4) with 32. change (8 * Z.of_nat 3) with 24.
  change (8 * Z.of_nat 2) with 16. change (8 * Z.of_nat 1) with 8. change (8 * Z.of_nat 8) with 64.
  rewrite (uint_small 32 id), (uint_small 24) by done.
  rewrite (uint_small 8 (LockType_byte _)), (uint_small 8 (if valid l then 1 else 0)),
    (uint_small 64 (Z.of_nat _)) by (try destruct (lk_type l); try destruct (valid l); red; cbn; lia).
  apply wp_bind. eapply wp_expect.
  { unfold lock_of. rewrite LockType_byte_of. cbn [mbind option_bind]. rewrite !sint_uint, !sint_small by (done || lia). reflexivity. }
  cbv beta iota. rewrite Nat2Z.id. set (l0 := mkLockMap _ _ _ _ _ _ _ _ _ _ _ _).
  apply wp_bind. eapply (load_lock_threads_wp (threadList l) []); [done | | apply Hn | exact Hnl | exact Hth | exact Hf |].
  { intros t i. cbn. rewrite lookup_empty. split; [done |]. intros (n & _ & E). now rewrite lookup_nil in E. }
  clear dependent f. intros f tm Htm Hf. apply wp_bind. change 8 with (Z.of_nat 8).
  eapply read_word_wp; [exact Hf |]. clear dependent f. intros f Hf. change (8 * Z.of_nat 8) with 64.
  rewrite (uint_small 64) by (red; lia). apply wp_bind, wp_assert.
  { rewrite uint_small by (red; lia). apply Z.leb_refl. }
  rewrite Nat2Z.id. apply wp_bind. eapply (load_lock_events_wp id (lk_timeline l)); [| exact Hf |].
  { exact (hist_entries _ _ _ _ _ _ Hnl (lh_hist _ _ _ Hh)). }
  clear dependent f. intros f tl' Htl Hf. cbn [lk_type l0 over] in Htl.
  set (l1 := (l0 <| threadMap := tm |> <| threadList := [] ++ threadList l |>)
    <| lk_timeline ::= (fun l => l ++ tl') |> <| range := fold_left entry_range (lk_timeline l) ∅ |>).
  destruct (hist_stable (lk_type l) _ _ _ _ _ (nu_nodup _ Hn) Hnl (lh_hist _ _ _ Hh)) as [Hst Hcon].
  pose proof (update_stable (lk_type l) (lk_timeline l) 0 LockCount.zero false Hst eq_refl) as Hup.
  assert (Eup : UpdateLockCount l1 0 = Some (l1 <| lk_timeline := lk_timeline l |> <| isContended := isContended l |>)).
  { rewrite (UpdateLockCount_kind (lk_type l)) by reflexivity. unfold UpdateLockCount_.
    change (lk_timeline l1) with tl'. change (isContended l1) with false. cbn [LockCount.before mbind option_bind].
    rewrite drop_0, (update_reloaded _ _ _ Htl). rewrite drop_0 in Hup. rewrite Hup. cbn [mbind option_bind].
    rewrite take_0, Hcon. reflexivity. }
  apply wp_bind. eapply wp_expect; [exact Eup |]. unfold on_w, modify, wp. cbn [l_w l_file].
  specialize (HQ f Hf).
  match goal with |- Q tt ?x => match type of HQ with Q tt ?y => replace x with y; [exact HQ |] end end.
  assert (Etm : tm = threadMap l).
  { apply map_eq. intros t. apply option_eq. intros i. rewrite (nu_map _ Hn t i). apply (Htm t i). }
  assert (El : l <| lockingThread := junk_locking id |> =
    l1 <| lk_timeline := lk_timeline l |> <| isContended := isContended l |>).
  { unfold l1. rewrite (lock_ranges l h s Hh Hrng), Etm. destruct l. unfold over. cbn. now destruct valid. }
  rewrite El. destruct w. unfold over. cbn. f_equal. f_equal. symmetry. now apply emplace_fresh.
Qed.
Fixpoint locks_into (locks : list (Z * LockMap)) (m : gmap Z LockMap) : gmap Z LockMap :=
  match locks with
  | [] => m
  | p :: locks => locks_into locks (<[p.1 := p.2 <| lockingThread := junk_locking p.1 |>]> m)
  end.

Lemma load_lock_n_wp locks : forall rest f w (Q : unit -> loader F -> Prop),
  NoDup locks.*1 -> Forall (fun p => lockMap w !! p.1 = None /\ lock_savable p.1 p.2) locks ->
  source (locks_bytes locks ++ rest) f ->
  (forall f', source rest f' -> Q tt (mkLoader f' (w <| lockMap ::= locks_into locks |>))) ->
  wp (load_lock_n (length locks)) Q (mkLoader f w).
Proof.
  induction locks as [| [id l] locks IH]; intros rest f w Q Hnd Hok Hf HQ; cbn [length load_lock_n].
  { apply wp_ret. specialize (HQ f Hf). now destruct w. }
  apply Forall_cons in Hok as [[En Hs] Hok]. cbn [fmap list_fmap fst] in Hnd. apply NoDup_cons in Hnd as [Hni Hnd].
  cbn [locks_bytes fst snd] in Hf. rewrite <- app_assoc in Hf. apply wp_bind.
  eapply load_lock_wp; [exact En | exact Hs | exact Hf |]. clear dependent f. intros f Hf.
  eapply IH; [exact Hnd | | exact Hf |].
  - apply Forall_forall. intros [id' l'] Hin. rewrite Forall_forall in Hok. destruct (Hok _ Hin) as [En' Hs'].
    split; [| exact Hs']. cbn. rewrite lookup_insert_ne; [exact En' |]. intros <-. apply Hni.
    now apply (list_elem_of_fmap_2 fst _ (id, l')).
  - clear dependent f. intros f Hf. specialize (HQ f Hf). now destruct w.
Qed.

Lemma load_locks_wp locks rest f w (Q : unit -> loader F -> Prop) :
  Z.of_nat (length locks) < 2 ^ 64 -> NoDup locks.*1 ->
  Forall (fun p => lockMap w !! p.1 = None /\ lock_savable p.1 p.2) locks ->
  source (le_bytes 8 (Z.of_nat (length locks)) ++ locks_bytes locks ++ rest) f ->
  (forall f', source rest f' -> Q tt (mkLoader f' (w <| lockMap ::= locks_into locks |>))) ->
  wp load_locks Q (mkLoader f w).
Proof.
  intros Hlen Hnd Hok Hf HQ. unfold load_locks. apply wp_bind. change 8 with (Z.of_nat 8).
  eapply read_word_wp; [exact Hf |]. clear dependent f. intros f Hf. change (8 * Z.of_nat 8) with 64.
  rewrite (uint_small 64) by (red; lia). rewrite Nat2Z.id. now apply (load_lock_n_wp locks rest).
Qed.
End Load.

Lemma lookup_locks_into `{LockMapSlab} locks : forall m id, NoDup locks.*1 ->
  locks_into locks m !! id = match (list_to_map locks : gmap Z LockMap) !! id with
    | Some l => Some (l <| lockingThread := junk_locking id |>)
    | None => m !! id
    end.
Proof.
  induction locks as [| [id' l'] locks IH]; intros m id Hnd; [done |].
  cbn [fmap list_fmap fst] in Hnd. apply NoDup_cons in Hnd as [Hni Hnd]. cbn [locks_into fst snd].
  rewrite IH by done. rewrite list_to_map_cons. destruct (decide (id' = id)) as [-> | Hne].
  - rewrite lookup_insert_eq, (not_elem_of_list_to_map_1 locks) by done. now rewrite lookup_insert_eq.
  - now rewrite !lookup_insert_ne by done.
Qed.

(** ** Through a file *)

(** The order in which the hash map lists the locks. *)
Class LockOrder := {
  locks_of : gmap Z LockMap -> list (Z * LockMap);
  locks_perm : forall m, Permutation (locks_of m) (map_to_list m) }.

Section Files.
Context `{CodecOk} `{LockSlab} `{LockMapSlab} `{LockOrder}.
Context (write_sched read_sched : nat -> list nat) (comp : FileCompression) (level : Z) (n : nat).

(** A trace file with the locks. *)
Definition save_locks (w : W) : option (list Z) :=
  f ← new_FileWrite comp level (Z.of_nat n);
  r ← (@WriteLocks _ (FileWrite_sink write_sched) (locks_of (lockMap w));; Finish write_sched) f;
  Some (w_file (snd r)).
Definition load_locks_file (file : list Z) (w : W) : option W :=
  o ← new_FileRead read_sched file;
  match o with
  | NotTracyDump => None
  | Opened r => p ← @load_locks _ (FileRead_source read_sched) _ _ (mkLoader r w); Some (l_w (snd p))
  end.

Definition lock_file_bytes (locks : list (Z * LockMap)) : list Z :=
  le_bytes 8 (Z.of_nat (length locks)) ++ locks_bytes locks.

Lemma savable_entries id l : lock_savable id l -> Forall (entry_ok (lk_type l)) (lk_timeline l).
Proof.
  intros [(h & s & Hh) _ _ _ _ _ _ _]. exact (hist_entries _ _ _ _ _ _ (nu_len _ (lh_numbered _ _ _ Hh)) (lh_hist _ _ _ Hh)).
Qed.

Lemma save_locks_image w :
  (0 < n < 256)%nat -> (forall id l, lockMap w !! id = Some l -> lock_savable id l) ->
  exists bs, save_locks w = Some (image comp level n bs (length bs)) /\
    chunked bs (lock_file_bytes (locks_of (lockMap w))).
Proof.
  intros Hn Hok. destruct (new_FileWrite_holds comp level n Hn) as (f & E & Hf).
  unfold save_locks. rewrite E. cbn [mbind option_bind]. set (locks := locks_of (lockMap w)).
  assert (Hp : Forall (fun p => Forall (entry_ok (lk_type p.2)) (lk_timeline p.2)) locks).
  { apply Forall_forall. intros [id l] Hin. unfold locks in Hin. rewrite locks_perm in Hin.
    apply elem_of_map_to_list, Hok in Hin. eapply savable_entries. exact Hin. }
  assert (Hw : wp (@WriteLocks _ (FileWrite_sink write_sched) locks;; Finish write_sched) (fun _ f' => exists bs,
    chunked bs (lock_file_bytes locks) /\ w_file f' = image comp level n bs (length bs)) f).
  { apply wp_bind. pose (ok := FileWrite_sink_ok write_sched comp level n Hn).
    eapply (WriteLocks_wp (H0 := ok)); [exact Hp | exact Hf |]. intros f1 Hf1. now apply Finish_wp. }
  unfold wp in Hw. destruct ((@WriteLocks _ (FileWrite_sink write_sched) locks;; Finish write_sched) f) as [[[] f'] |]; [| done].
  destruct Hw as (bs & Hch & Ef). exists bs. cbn. rewrite Ef. done.
Qed.

Lemma load_locks_image bs locks w :
  (0 < n < 256)%nat -> chunked bs (lock_file_bytes locks) ->
  NoDup locks.*1 -> Forall (fun p => lockMap w !! p.1 = None /\ lock_savable p.1 p.2) locks ->
  Z.of_nat (length locks) < 2 ^ 64 ->
  load_locks_file (image comp level n bs (length bs)) w = Some (w <| lockMap ::= locks_into locks |>).
Proof.
  intros Hn Hch Hnd Hok Hlen. assert (Hne : bs <> []).
  { intros ->. destruct Hch as [E _]. discriminate. }
  destruct (new_FileRead_opens read_sched comp level n Hn bs _ Hch Hne) as (r & E & Hr).
  unfold load_locks_file. rewrite E. cbn [mbind option_bind].
  pose (ok := FileRead_source_ok read_sched comp level n Hn bs _ Hch Hne).
  assert (Hw : wp (@load_locks _ (FileRead_source read_sched) _ _) (fun _ l => l_w l = w <| lockMap ::= locks_into locks |>)
    (mkLoader r w)).
  { eapply (load_locks_wp (H0 := ok) locks []); [done | done | done | rewrite app_nil_r; exact Hr | done]. }
  unfold wp in Hw. destruct (@load_locks _ (FileRead_source read_sched) _ _ (mkLoader r w)) as [[[] l] |]; [| done].
  cbn. now rewrite Hw.
Qed.
End Files.

(** C25: locks survive a trace file. Whatever compression, number of streams and order
    of the hash map, and however the threads of the streams are scheduled, loading the
    file puts the same locks, and no others, into the new trace: their names, places,
    threads and events, and, though the file does not hold them, for every event the
    owner, the recursion count and the sets of waiting and sharing threads, the range
    of every thread and whether the lock was ever contended. Only the thread that holds
    a lock at the end, which live events need, is not restored. *)
Theorem locks_roundtrip `{CodecOk} `{LockSlab} `{LockMapSlab} `{LockOrder} (write_sched read_sched : nat -> list nat)
    (comp : FileCompression) (level : Z) (n : nat) (w w0 : W) :
  (0 < n < 256)%nat -> (forall id l, lockMap w !! id = Some l -> lock_savable id l) ->
  Z.of_nat (size (lockMap w)) < 2 ^ 64 -> lockMap w0 = ∅ ->
  exists file m', save_locks write_sched comp level n w = Some file /\
    load_locks_file read_sched file w0 = Some (w0 <| lockMap := m' |>) /\
    forall id, m' !! id = (fun l => l <| lockingThread := junk_locking id |>) <$> lockMap w !! id.
Proof.
  intros Hn Hok Hsz E0. destruct (save_locks_image write_sched comp level n w Hn Hok) as (bs & E & Hch).
  assert (Hnd : NoDup (locks_of (lockMap w)).*1) by (rewrite locks_perm; apply NoDup_fst_map_to_list).
  exists (image comp level n bs (length bs)), (locks_into (locks_of (lockMap w)) ∅). split; [done |]. split.
  2: { intros id. rewrite lookup_locks_into, lookup_empty by done.
    rewrite (list_to_map_proper _ _ Hnd (locks_perm (lockMap w))), list_to_map_to_list.
    now destruct (lockMap w !! id). }
  rewrite (load_locks_image read_sched comp level n bs (locks_of (lockMap w)) w0 Hn Hch Hnd).
  - rewrite <- E0. now destruct w0.
  - apply Forall_forall. intros [id l] Hin. rewrite E0. split; [apply lookup_empty |].
    rewrite locks_perm in Hin. apply elem_of_map_to_list in Hin. now apply Hok.
  - rewrite locks_perm. rewrite length_map_to_list. exact Hsz.
Qed.

(** ** Witnesses *)
#[local] Existing Instances plain plain_ok.
#[local] Instance demo_junk_owner : LockMapSlab := fun _ => 0.
#[local] Instance demo_locks : LockOrder :=
  {| locks_of := map_to_list; locks_perm := fun m => reflexivity (map_to_list m) |}.

Lemma demo_lock_savable : lock_savable 3 demo_lock.
Proof.
  assert (H24 : in_uint 24 (customName demo_lock)) by (split; vm_compute; discriminate || reflexivity).
  split; [| | cbn; lia | red; lia | exact H24 | red; cbn; lia | split; red; cbn; lia |].
  - exists [demo_wait], demo_waiting. apply demo_lock_rep.
  - intros k Hk. change (is_Some (({[0 := (20, 20)]} : gmap Z (Z * Z)) !! k)) in Hk. destruct Hk as [r E].
    apply lookup_singleton_Some in E as [<- _]. lia.
  - apply Forall_singleton. red. lia.
Qed.

(** A trace that is being loaded. *)
Definition demo_no_locks : W := demo_lock_server <| lockMap := ∅ |>.

Lemma locks_roundtrip_witness : exists file m',
  save_locks (fun t => [t; 1%nat]) Zstd 3 2 demo_lock_server = Some file /\
  load_locks_file (fun _ => []) file demo_no_locks = Some (demo_no_locks <| lockMap := m' |>) /\
  m' !! 3 = Some demo_lock.
Proof.
  destruct (locks_roundtrip (fun t => [t; 1%nat]) (fun _ => []) Zstd 3 2 demo_lock_server demo_no_locks)
    as (file & m' & Es & El & Hm).
  - lia.
  - intros id l E. change (lockMap demo_lock_server) with ({[3 := demo_lock]} : gmap Z LockMap) in E.
    apply lookup_singleton_Some in E as [<- <-]. exact demo_lock_savable.
  - vm_compute. reflexivity.
  - reflexivity.
  - exists file, m'. split; [exact Es |]. split; [exact El | exact (Hm 3)].
Defined.
