(* ===== verification/CtxUsage.v ===== *)
(** * How many processors are busy

    After a trace is loaded a job merges the slices of all processors into a list of
    the numbers of processors that run threads of the program and of other programs
    ([Worker::ReconstructContextSwitchUsage]). *)
From S2P Require Import Prelude Event Containers Discovery Trace Server.

Section Usage.
Context (m_pid : Z) (w : W).

(* TracyWorker.hpp:101-101 ThreadCache *)
Definition ThreadCache : Type := Z * option nat.
Definition no_thread : ThreadCache := (0, None).

(** [RetrieveThread] with a cache of its own. *)
(* TracyWorker.cpp:3567-3580 RetrieveThreadReal *)
Definition retrieve_thread (thread : Z) (cache : ThreadCache) : option nat * ThreadCache :=
  if fst cache =? thread then (snd cache, cache)
  else match m_threadMap w !! thread with
       | Some td => (Some td, (thread, Some td))
       | None => (None, cache)
       end.
(* TracyWorker.cpp:2559-2563 *)
Definition IsThreadLocal (id : Z) (cache : ThreadCache) : option (bool * ThreadCache) :=
  let '(td, cache) := retrieve_thread id cache in
  match td with
  | Some td =>
      t ← threads w !! td;
      Some ((0 <? count t) ||
        negb (match samples (default new_ThreadSamples (td_samples (smp w) !! td)) with [] => true | _ => false end), cache)
  | None => Some (false, cache)
  end.
(* TracyWorker.cpp:2147-2152 *)
Definition GetPidFromTid (tid : Z) : Z := default 0 (tidToPid (cpu w) !! tid).
(* TracyWorker.hpp:665-665 *)
Definition DecompressThreadExternal (thread : Z) : option Z :=
  ThreadCompress.DecompressThread thread (externalThreadCompress (cpu w)).

(** [it]: the slices from the iterator to the end. *)
(* TracyWorker.cpp:7687-7692 Cpu *)
Record CpuIter := mkCpuIter { startDone : bool; it : list ContextSwitchCpu.t }.

(** The counters, of eight bits, and the cache. *)
Record counters := mkCounters { other : Z; own : Z; cache : ThreadCache }.

(** The time of the next start or end of a slice. *)
(* TracyWorker.cpp:7713-7713 ReconstructContextSwitchUsage *)
Definition slice_time (startDone : bool) (x : ContextSwitchCpu.t) : Z :=
  if startDone then ContextSwitchCpu.End_ x else ContextSwitchCpu.Start x.

(** [nextTime] and [atEnd]. *)
(* TracyWorker.cpp:7706-7717 ReconstructContextSwitchUsage *)
Definition look (acc : Z * bool) (c : CpuIter) : Z * bool :=
  match it c with
  | [] => acc
  | x :: _ => let ct := slice_time (startDone c) x in (if ct <? fst acc then ct else fst acc, false)
  end.

(* TracyWorker.cpp:7724-7725 ReconstructContextSwitchUsage *)
Definition is_own (x : ContextSwitchCpu.t) (cache : ThreadCache) : option (bool * ThreadCache) :=
  tid ← DecompressThreadExternal (ContextSwitchCpu.Thread x);
  r ← IsThreadLocal tid cache;
  Some (fst r || (GetPidFromTid tid =? m_pid), snd r).

(* TracyWorker.cpp:7726-7747 ReconstructContextSwitchUsage *)
Definition slice_begins (x : ContextSwitchCpu.t) (rest : list ContextSwitchCpu.t) (isOwn : bool) (k : counters) :
    option (CpuIter * counters) :=
  let cpucnt := cpuDataCount (cpu w) in
  let k := if isOwn then mkCounters (other k) (uint 8 (own k + 1)) (cache k)
           else mkCounters (uint 8 (other k + 1)) (own k) (cache k) in
  if negb (if isOwn then own k <=? cpucnt else other k <=? cpucnt) then None
  else if ContextSwitchCpu.IsEndValid x then Some (mkCpuIter true (x :: rest), k)
  else match rest with [] => Some (mkCpuIter false [], k) | _ => None end.
(* TracyWorker.cpp:7748-7762 ReconstructContextSwitchUsage *)
Definition slice_ends (rest : list ContextSwitchCpu.t) (isOwn : bool) (k : counters) : option (CpuIter * counters) :=
  if isOwn
  then if 0 <? own k then Some (mkCpuIter false rest, mkCounters (other k) (uint 8 (own k - 1)) (cache k)) else None
  else if 0 <? other k then Some (mkCpuIter false rest, mkCounters (uint 8 (other k - 1)) (own k) (cache k)) else None.

(** The starts and ends of one processor at [nextTime]. *)
(* TracyWorker.cpp:7720-7763 ReconstructContextSwitchUsage *)
Fixpoint pass (fuel : nat) (nextTime : Z) (c : CpuIter) (k : counters) : option (CpuIter * counters) :=
  match fuel with
  | O => None
  | S fuel =>
      match it c with
      | [] => Some (c, k)
      | x :: rest =>
          if negb (nextTime =? slice_time (startDone c) x) then Some (c, k) else
          o ← is_own x (cache k);
          let k := mkCounters (other k) (own k) (snd o) in
          r ← (if startDone c then slice_ends rest (fst o) k else slice_begins x rest (fst o) k);
          pass fuel nextTime (fst r) (snd r)
      end
  end.

(** A slice has two turns. *)
Definition enough (c : CpuIter) : nat := S (2 * length (it c)).

(** All processors. *)
(* TracyWorker.cpp:7718-7719 ReconstructContextSwitchUsage *)
Fixpoint pass_all (nextTime : Z) (cpus : list CpuIter) (k : counters) : option (list CpuIter * counters) :=
  match cpus with
  | [] => Some ([], k)
  | c :: cpus =>
      r ← pass (enough c) nextTime c k;
      rs ← pass_all nextTime cpus (snd r);
      Some (fst r :: fst rs, snd rs)
  end.

(* TracyWorker.cpp:7765-7769 ReconstructContextSwitchUsage *)
Definition note_change (nextTime : Z) (k : counters) (vec : list ContextSwitchUsage.t) :
    option (list ContextSwitchUsage.t) :=
  back ← last vec;
  if negb (ContextSwitchUsage.Other back =? other k) || negb (ContextSwitchUsage.Own back =? own k)
  then u ← ContextSwitchUsage.make nextTime (other k) (own k); Some (vec ++ [u])
  else Some vec.

(* TracyWorker.cpp:7704-7770 ReconstructContextSwitchUsage *)
Fixpoint sweep (fuel : nat) (cpus : list CpuIter) (k : counters) (vec : list ContextSwitchUsage.t) :
    option (list ContextSwitchUsage.t) :=
  match fuel with
  | O => None
  | S fuel =>
      let '(nextTime, atEnd) := fold_left look cpus (2 ^ 63 - 1, true) in
      if atEnd : bool then Some vec else
      r ← pass_all nextTime cpus k;
      vec ← note_change nextTime (snd r) vec;
      sweep fuel (fst r) (snd r) vec
  end.

(** In every round an iterator moves. *)
Definition rounds (cpus : list CpuIter) : nat := S (foldr Nat.add 0%nat (map enough cpus)).

(* TracyWorker.cpp:7693-7698 ReconstructContextSwitchUsage *)
Definition cpu_iters : list CpuIter :=
  map (fun i => mkCpuIter false (default [] (cpuData (cpu w) !! Z.of_nat i))) (seq 0 (Z.to_nat (cpuDataCount (cpu w)))).

(** The list [ctxUsage], which is empty before; [ctxUsageReady] is set then. *)
(* TracyWorker.cpp:7679-7774 *)
Definition ReconstructContextSwitchUsage : option (list ContextSwitchUsage.t) :=
  if cpuDataCount (cpu w) =? 0 then None else
  zero ← ContextSwitchUsage.make 0 0 0;
  sweep (rounds cpu_iters) cpu_iters (mkCounters 0 0 no_thread) [zero].
End Usage.
