(* ===== verification/CtxUsageSpec.v ===== *)
(** * The numbers of busy processors are the numbers of busy processors

    The job that merges the slices of the processors is a sweep over the times at which
    slices start and end.  Its reference is the count, at any time, of the processors
    with a slice that covers that time. *)
From S2P Require Import Prelude Double Queue Event Containers Discovery Trace Server ServerSpec ServerCtx CtxSpec CtxUsage.
Import ContextSwitchCpu.

(** ** Slices *)
Lemma End_val c : End_ c = s_end c.
Proof.
  unfold End_, s_end. rewrite Int48.Val48_bits.
  pose proof (bits_range 48 16 (_start_thread c) ltac:(lia)). pose proof (bits_range 0 48 (_end c) ltac:(lia)).
  unfold in_uint in *. rewrite (shiftr_sint 16 48) by (unfold in_uint; lia). f_equal.
  unfold bits at 1. rewrite Z.add_comm, Z.mul_comm, Z.div_add_l, (Z.div_small (bits 48 _ _)), Z.add_0_r by lia.
  now apply uint_small.
Qed.

Lemma IsEndValid_val c : IsEndValid c = (0 <=? s_end c).
Proof. apply Int48.IsNonNegative_Val. Qed.

Lemma slice_time_small d c : slice_time d c < 2 ^ 47.
Proof.
  unfold slice_time. destruct d.
  - rewrite End_val. unfold s_end. rewrite Int48.Val48_bits. pose proof (sint_range 48 (bits 0 48 (_end c)) ltac:(lia)) as H.
    unfold in_sint in H. lia.
  - unfold Start, time48. rewrite Z.shiftr_div_pow2 by lia. apply Z.div_lt_upper_bound; [lia |].
    pose proof (sint_range 64 (_start_thread c) ltac:(lia)) as H. unfold in_sint in H. lia.
Qed.

(** Slices follow each other, and only the last one may be open. *)
Fixpoint well (lo : Z) (l : list t) : Prop :=
  match l with
  | [] => True
  | x :: r => lo <= Start x /\ (if IsEndValid x then Start x <= End_ x /\ well (End_ x) r else r = [])
  end.

Lemma ended_well lo l hi k : 0 <= lo -> slices_ended lo l hi -> well hi k -> well lo (l ++ k).
Proof.
  revert lo. induction l as [| x l IH]; intros lo Hlo H Hk; cbn [app].
  - destruct k as [| y k]; [done |]. cbn in H |- *. destruct Hk as [H1 H2]. split; [lia | exact H2].
  - destruct H as [[H1 H2] H]. cbn [well]. rewrite IsEndValid_val, End_val, (proj2 (Z.leb_le _ _)) by lia.
    split; [lia |]. split; [lia |]. apply IH; [lia | done | done].
Qed.

Lemma slices_well T cs r : slices T cs r -> well 0 cs.
Proof.
  destruct r as [i |]; cbn [slices].
  - intros (l & c & -> & Hl & _ & Hc & _). eapply ended_well; [lia | exact Hl |]. cbn.
    rewrite IsEndValid_val, Hc. cbn. split; [lia | done].
  - intros H. rewrite <- (app_nil_r cs). eapply ended_well; [lia | exact H | done].
Qed.

(** ** The reference *)
Definition covers (time : Z) (x : t) : bool := (Start x <=? time) && (negb (IsEndValid x) || (time <? End_ x)).
Definition running_at (cs : list t) (time : Z) : option t := find (covers time) cs.

Lemma running_before lo l time : well lo l -> time < lo -> running_at l time = None.
Proof.
  revert lo. induction l as [| x r IH]; intros lo H Ht; [done |]. destruct H as [H1 H2].
  unfold running_at. cbn [find]. unfold covers. rewrite (proj2 (Z.leb_gt _ _)) by lia. cbn [andb].
  destruct (IsEndValid x); [| now subst]. destruct H2 as [H2 H3]. apply (IH _ H3). lia.
Qed.

Section Sweep.
Context (m_pid : Z) (w : W).
Abbreviation cpucnt := (cpuDataCount (cpu w)).

(** Whether a slice is of the program. *)
Definition tid_own (tid : Z) : bool :=
  match m_threadMap w !! tid ≫= (fun td => t ← threads w !! td; Some (td, t)) with
  | Some (td, t) => (0 <? count t) ||
      negb (match samples (default new_ThreadSamples (td_samples (smp w) !! td)) with [] => true | _ => false end)
  | None => false
  end || (GetPidFromTid w tid =? m_pid).
Definition slice_own (x : t) : bool :=
  match DecompressThreadExternal w (Thread x) with Some tid => tid_own tid | None => false end.
Definition known (x : t) : Prop := is_Some (DecompressThreadExternal w (Thread x)).

(** Whether a processor runs a thread of the program, or of another one. *)
Definition busy (o : bool) (cur : option t) : bool := match cur with Some x => Bool.eqb (slice_own x) o | None => false end.
Definition tally (o : bool) (curs : list (option t)) : Z := Z.of_nat (length (List.filter (busy o) curs)).
Definition slices_of (i : nat) : list t := default [] (cpuData (cpu w) !! Z.of_nat i).
Definition all_slices : list (list t) := map slices_of (seq 0 (Z.to_nat cpucnt)).
Definition busy_at (o : bool) (time : Z) : Z := tally o (map (fun cs => running_at cs time) all_slices).

Definition one (o : bool) (cur : option t) : Z := if busy o cur then 1 else 0.
Lemma tally_cons o c l : tally o (c :: l) = one o c + tally o l.
Proof. unfold tally, one. cbn. destruct (busy o c); cbn [length]; lia. Qed.
Lemma tally_nonneg o l : 0 <= tally o l.
Proof. unfold tally. lia. Qed.
Lemma one_both c : 0 <= one true c /\ 0 <= one false c /\ one true c + one false c <= 1.
Proof. unfold one, busy. destruct c as [x |]; [destruct (slice_own x) |]; cbn; lia. Qed.
Lemma one_some o x : one o (Some x) = if Bool.eqb (slice_own x) o then 1 else 0.
Proof. reflexivity. Qed.
Lemma tally_both l : tally true l + tally false l <= Z.of_nat (length l).
Proof. induction l as [| c l IH]; [done |]. rewrite !tally_cons. pose proof (one_both c). cbn [length]. lia. Qed.

(** ** Whose slice it is *)
Definition cache_ok (c : ThreadCache) : Prop := m_threadMap w !! fst c = snd c.
Hypothesis Hthreads : forall tid td, m_threadMap w !! tid = Some td -> is_Some (threads w !! td).

Lemma retrieve_thread_spec tid c : cache_ok c -> exists c', retrieve_thread w tid c = (m_threadMap w !! tid, c') /\ cache_ok c'.
Proof.
  intros Hc. unfold retrieve_thread. destruct (Z.eqb_spec (fst c) tid) as [<- | Hne]; [rewrite Hc; eauto |].
  destruct (m_threadMap w !! tid) as [td |] eqn:E; eexists; (split; [reflexivity |]); [exact E | exact Hc].
Qed.

Lemma is_own_spec x c : known x -> cache_ok c -> exists c', is_own m_pid w x c = Some (slice_own x, c') /\ cache_ok c'.
Proof.
  intros [tid Ex] Hc. unfold is_own, slice_own. rewrite Ex. cbn [mbind option_bind]. unfold IsThreadLocal, tid_own.
  destruct (retrieve_thread_spec tid c Hc) as (c' & -> & Hc'). exists c'. split; [| done].
  destruct (m_threadMap w !! tid) as [td |] eqn:E; [| done]. destruct (Hthreads _ _ E) as [th Eth].
  cbn [mbind option_bind]. now rewrite Eth.
Qed.

(** ** An iterator *)

(** [time] is before the next start or end. *)
Definition before (time : Z) (c : CpuIter) : bool :=
  match it c with [] => true | x :: _ => time <? slice_time (startDone c) x end.
(** The turns that are left. *)
Definition left_ (c : CpuIter) : nat := 2 * length (it c) - (if startDone c then 1 else 0).

(** All starts and ends before [T] are done, and perhaps some at [T]; [cur] is the
    slice that runs. *)
Record cpu_at (T : Z) (cs : list t) (c : CpuIter) (cur : option t) : Prop := {
  ca_next : forall time, time < T -> before time c = true;
  ca_well : exists lo, well lo (it c);
  ca_known : Forall known (it c);
  ca_cur : if startDone c then exists x r, it c = x :: r /\ IsEndValid x = true /\ cur = Some x
           else it c = [] \/ cur = None;
  ca_rest : forall time, T <= time -> running_at cs time = if before time c then cur else running_at (it c) time }.

Lemma cpu_at_later T T' cs c cur : cpu_at T cs c cur -> T <= T' -> (forall time, time < T' -> before time c = true) ->
  cpu_at T' cs c cur.
Proof. intros [H1 H2 H3 H4 H5] HT Hb. split; auto. intros time Ht. apply H5. lia. Qed.

Lemma before_cons time d x r : before time (mkCpuIter d (x :: r)) = (time <? slice_time d x).
Proof. reflexivity. Qed.

Lemma due T cs c cur x r : cpu_at T cs c cur -> it c = x :: r -> before T c = false -> slice_time (startDone c) x = T.
Proof.
  intros [Hn _ _ _ _] E Hb. unfold before in *. rewrite E in *. specialize (Hn (T - 1) ltac:(lia)). lia.
Qed.

Lemma begin_at T cs x r cur : cpu_at T cs (mkCpuIter false (x :: r)) cur -> Start x = T ->
  cur = None /\
  (IsEndValid x = true -> cpu_at T cs (mkCpuIter true (x :: r)) (Some x)) /\
  (IsEndValid x = false -> r = [] /\ cpu_at T cs (mkCpuIter false []) (Some x)).
Proof.
  intros [Hn [lo Hw] Hk Hc Hr] Ht. cbn [it startDone] in *. destruct Hc as [| ->]; [discriminate |].
  destruct Hw as [Hlo Hw]. split; [done |].
  assert (Hrest : forall time, T <= time -> running_at cs time = running_at (x :: r) time).
  { intros time Hge. rewrite (Hr time Hge), before_cons. cbn [slice_time]. now rewrite (proj2 (Z.ltb_ge _ _)) by lia. }
  split; intros Hv; rewrite Hv in Hw.
  - split; cbn [it startDone]; [| exists lo; cbn [well]; now rewrite Hv | done | eauto |].
    + intros time Hlt. rewrite before_cons. cbn [slice_time]. apply Z.ltb_lt. lia.
    + intros time Hge. rewrite (Hrest time Hge), before_cons. cbn [slice_time]. destruct (Z.ltb_spec time (End_ x)) as [H | H]; [| done].
      unfold running_at. cbn [find]. unfold covers. rewrite (proj2 (Z.leb_le _ _)), (proj2 (Z.ltb_lt _ _)) by lia.
      now rewrite orb_true_r.
  - subst r. split; [done |]. split; cbn [it startDone]; [done | now exists 0 | done | now left |].
    intros time Hge. rewrite (Hrest time Hge). unfold before, running_at. cbn [it find]. unfold covers. rewrite Hv.
    now rewrite (proj2 (Z.leb_le _ _)) by lia.
Qed.

Lemma end_at T cs x r cur : cpu_at T cs (mkCpuIter true (x :: r)) cur -> End_ x = T ->
  cur = Some x /\ cpu_at T cs (mkCpuIter false r) None.
Proof.
  intros [Hn [lo Hw] Hk Hc Hr] Ht. cbn [it startDone] in *. destruct Hc as (x' & r' & [= <- <-] & Hv & ->).
  destruct Hw as [Hlo Hw]. rewrite Hv in Hw. destruct Hw as [Hse Hw]. apply Forall_cons in Hk as [_ Hk].
  assert (Hnext : forall time, (match r with [] => True | y :: _ => time < Start y end) -> running_at r time = None).
  { intros time H. destruct r as [| y r]; [done |]. apply (running_before (Start y)); [| done].
    destruct Hw as [_ Hw]. split; [lia | exact Hw]. }
  split; [done |]. split; cbn [it startDone]; [| eauto | done | now right |].
  - intros time Hlt. unfold before. cbn [it startDone]. destruct r as [| y r]; [done |]. destruct Hw as [Hw _].
    cbn [slice_time]. apply Z.ltb_lt. lia.
  - intros time Hge. rewrite (Hr time Hge), before_cons. cbn [slice_time]. rewrite (proj2 (Z.ltb_ge _ _)) by lia.
    unfold running_at at 1. cbn [find]. unfold covers at 1. rewrite Hv, (proj2 (Z.ltb_ge _ _)) by lia.
    rewrite andb_false_r. fold (covers time). fold (running_at r time). unfold before. cbn [it startDone].
    destruct r as [| y r]; [done |]. cbn [slice_time]. destruct (Z.ltb_spec time (Start y)); [| done].
    now apply Hnext.
Qed.

(** ** The counters *)

(** The counters show these processors, and [a1] and [a0] others. *)
Record counts (a1 a0 : Z) (curs : list (option t)) (k : counters) : Prop := {
  co_own : own k = a1 + tally true curs;
  co_other : other k = a0 + tally false curs;
  co_cache : cache_ok (cache k) }.

Lemma counts_one a1 a0 cur k :
  counts a1 a0 [cur] k <-> own k = a1 + one true cur /\ other k = a0 + one false cur /\ cache_ok (cache k).
Proof.
  assert (E : forall o, tally o [cur] = one o cur) by (intros o; rewrite tally_cons; unfold tally; cbn; lia).
  split; [intros [H1 H2 H3] | intros (H1 & H2 & H3); split]; now rewrite ?E in *.
Qed.

Section OneSlice.
Context (a1 a0 : Z) (x : t) (r : list t) (k : counters).
Hypothesis (H1 : 0 <= a1) (H0 : 0 <= a0) (Hle : a1 + a0 + 1 <= cpucnt) (Hmax : cpucnt < 2 ^ 8).

Lemma slice_begins_spec : counts a1 a0 [None] k -> (IsEndValid x = false -> r = []) ->
  exists k', slice_begins w x r (slice_own x) k =
      Some (if IsEndValid x then mkCpuIter true (x :: r) else mkCpuIter false [], k') /\
    counts a1 a0 [Some x] k'.
Proof.
  intros (Ho & Ht & Hc)%counts_one Hr. cbn in Ho, Ht. unfold slice_begins.
  destruct (slice_own x) eqn:Ex; cbn [own other]; rewrite uint_small, (proj2 (Z.leb_le _ _)) by (lia || (red; lia));
    cbn [negb]; eexists; (split; [destruct (IsEndValid x); [reflexivity | now rewrite Hr] |]);
    apply counts_one; rewrite !one_some, Ex; cbn; split_and!; done || lia.
Qed.

Lemma slice_ends_spec : counts a1 a0 [Some x] k ->
  exists k', slice_ends r (slice_own x) k = Some (mkCpuIter false r, k') /\ counts a1 a0 [None] k'.
Proof.
  intros (Ho & Ht & Hc)%counts_one. rewrite one_some in Ho, Ht. unfold slice_ends.
  destruct (slice_own x) eqn:Ex; cbn in Ho, Ht; rewrite (proj2 (Z.ltb_lt _ _)), uint_small by (lia || (red; lia));
    (eexists; split; [reflexivity |]); apply counts_one; cbn; split_and!; done || lia.
Qed.
End OneSlice.

(** One processor at [T]. *)
Lemma pass_spec T a1 a0 cs : 0 <= a1 -> 0 <= a0 -> a1 + a0 + 1 <= cpucnt -> cpucnt < 2 ^ 8 ->
  forall fuel c cur k, cpu_at T cs c cur -> counts a1 a0 [cur] k -> (left_ c < fuel)%nat ->
  exists c' cur' k', pass m_pid w fuel T c k = Some (c', k') /\ cpu_at T cs c' cur' /\ counts a1 a0 [cur'] k' /\
    before T c' = true /\ (left_ c' <= left_ c)%nat /\ (before T c = false -> left_ c' < left_ c)%nat.
Proof.
  intros H1 H0 Hle Hmax. induction fuel as [| fuel IH]; intros c cur k Hc Hk Hf; [lia |]. cbn [pass].
  destruct (it c) as [| x r] eqn:Ec.
  { exists c, cur, k. unfold before. rewrite Ec. split_and!; done || lia. }
  destruct (before T c) eqn:Hb.
  { assert (E : (T =? slice_time (startDone c) x) = false) by (unfold before in Hb; rewrite Ec in Hb; lia).
    rewrite E. exists c, cur, k. split_and!; done || lia. }
  assert (Et := due T cs c cur x r Hc Ec Hb). rewrite Et, Z.eqb_refl. cbn [negb].
  assert (Hkn : known x) by (assert (Hk' := ca_known _ _ _ _ Hc); rewrite Ec in Hk'; now apply Forall_cons in Hk' as [? _]).
  destruct (is_own_spec x (cache k) Hkn (co_cache _ _ _ _ Hk)) as (ch & -> & Hch). cbn [mbind option_bind fst snd].
  set (k1 := mkCounters (other k) (own k) ch). assert (Hk1 : counts a1 a0 [cur] k1) by (destruct Hk; now split).
  destruct c as [[|] l]; cbn [it startDone slice_time] in *; subst l.
  - destruct (end_at T cs x r cur Hc Et) as [-> Hc'].
    destruct (slice_ends_spec a1 a0 x r k1 ltac:(lia) ltac:(lia) ltac:(lia) ltac:(lia) Hk1) as (k2 & -> & Hk2). cbn [mbind option_bind fst snd].
    destruct (IH _ _ _ Hc' Hk2) as (c' & cur' & k' & E & G1 & G2 & G3 & G4 & G5); [unfold left_ in *; cbn in *; lia |].
    exists c', cur', k'. split_and!; try done; unfold left_ in *; cbn in *; lia.
  - destruct (begin_at T cs x r cur Hc Et) as (-> & Hv & Hnv).
    destruct (slice_begins_spec a1 a0 x r k1 ltac:(lia) ltac:(lia) ltac:(lia) ltac:(lia) Hk1) as (k2 & -> & Hk2); [intros E; now apply Hnv |].
    cbn [mbind option_bind fst snd].
    assert (Hc' : cpu_at T cs (if IsEndValid x then mkCpuIter true (x :: r) else mkCpuIter false []) (Some x))
      by (destruct (IsEndValid x); [now apply Hv | now apply Hnv]).
    destruct (IH _ _ _ Hc' Hk2) as (c' & cur' & k' & E & G1 & G2 & G3 & G4 & G5);
      [destruct (IsEndValid x); unfold left_ in *; cbn in *; lia |].
    exists c', cur', k'. split_and!; try done; destruct (IsEndValid x); unfold left_ in *; cbn in *; lia.
Qed.

(** All processors: [gs] has the slices of each, and the one that runs. *)
Definition all_at (T : Z) : list CpuIter -> list (list t * option t) -> Prop :=
  Forall2 (fun c g => cpu_at T (fst g) c (snd g)).
Definition lefts (cpus : list CpuIter) : nat := foldr Nat.add 0%nat (map left_ cpus).

Lemma counts_split a1 a0 c l k : counts a1 a0 (c :: l) k -> counts (a1 + tally true l) (a0 + tally false l) [c] k.
Proof. intros [H1 H2 H3]. split; [| | done]; rewrite ?tally_cons in *; change (tally _ []) with 0; lia. Qed.
Lemma counts_rest a1 a0 c l k : counts (a1 + tally true l) (a0 + tally false l) [c] k -> counts (a1 + one true c) (a0 + one false c) l k.
Proof. intros [H1 H2 H3]. split; [| | done]; rewrite ?tally_cons in *; change (tally _ []) with 0 in *; lia. Qed.
Lemma counts_join a1 a0 c l k : counts (a1 + one true c) (a0 + one false c) l k -> counts a1 a0 (c :: l) k.
Proof. intros [H1 H2 H3]. split; [| | done]; rewrite ?tally_cons in *; lia. Qed.

Lemma pass_all_spec T : cpucnt < 2 ^ 8 -> forall cpus gs a1 a0 k, all_at T cpus gs ->
  0 <= a1 -> 0 <= a0 -> a1 + a0 + Z.of_nat (length cpus) <= cpucnt -> counts a1 a0 (map snd gs) k ->
  exists cpus' gs' k', pass_all m_pid w T cpus k = Some (cpus', k') /\ all_at T cpus' gs' /\
    map fst gs' = map fst gs /\ counts a1 a0 (map snd gs') k' /\ Forall (fun c => before T c = true) cpus' /\
    (lefts cpus' <= lefts cpus)%nat /\ (Exists (fun c => before T c = false) cpus -> (lefts cpus' < lefts cpus)%nat).
Proof.
  intros Hmax. induction cpus as [| c cpus IH]; intros gs a1 a0 k Hall H1 H0 Hle Hk; cbn [pass_all].
  { apply Forall2_nil_inv_l in Hall as ->. exists [], [], k. split_and!; try done; [constructor |].
    intros H. now apply Exists_nil in H. }
  apply Forall2_cons_inv_l in Hall as ([cs cur] & gs0 & Hc & Hall & ->). cbn [map fst snd length] in *.
  assert (Hlen : length cpus = length (map snd gs0)) by (rewrite length_map; exact (Forall2_length _ _ _ Hall)).
  pose proof (tally_both (map snd gs0)). pose proof (tally_nonneg true (map snd gs0)). pose proof (tally_nonneg false (map snd gs0)).
  destruct (pass_spec T (a1 + tally true (map snd gs0)) (a0 + tally false (map snd gs0)) cs ltac:(lia) ltac:(lia) ltac:(lia) Hmax
    (enough c) c cur k Hc (counts_split _ _ _ _ _ Hk)) as (c' & cur' & k1 & -> & G1 & G2 & G3 & G4 & G5);
    [unfold enough, left_; lia |]. cbn [mbind option_bind fst snd].
  pose proof (one_both cur').
  destruct (IH gs0 (a1 + one true cur') (a0 + one false cur') k1 Hall ltac:(lia) ltac:(lia) ltac:(lia) (counts_rest _ _ _ _ _ G2))
    as (cpus' & gs' & k' & -> & F1 & F2 & F3 & F4 & F5 & F6).
  cbn [mbind option_bind fst snd]. exists (c' :: cpus'), ((cs, cur') :: gs'), k'. split; [done |].
  split; [now constructor |]. split; [cbn; now rewrite F2 |]. split; [now apply counts_join |].
  split; [now constructor |]. change (lefts (?c :: ?l)) with (left_ c + lefts l)%nat. unfold lefts in *. cbn [map foldr].
  split; [lia |]. intros [Hb | Hb]%Exists_cons; [specialize (G5 Hb) | specialize (F6 Hb)]; lia.
Qed.

(** ** The next time *)
Lemma look_spec cpus : forall m e m' e', fold_left look cpus (m, e) = (m', e') ->
  m' <= m /\ (forall c, c ∈ cpus -> before (m' - 1) c = true) /\
  (e' = true -> e = true /\ forall c, c ∈ cpus -> it c = []) /\
  (m' = m \/ exists c, c ∈ cpus /\ before m' c = false) /\
  (e' = false -> e = false \/ exists c, c ∈ cpus /\ it c <> []).
Proof.
  induction cpus as [| c cpus IH]; intros m e m' e' E; cbn [fold_left] in E.
  { injection E as <- <-. split_and!; try (intros; now left) || lia.
    - intros c Hc. now apply elem_of_nil in Hc.
    - intros ->. split; [done |]. intros c Hc. now apply elem_of_nil in Hc. }
  destruct (look (m, e) c) as [m1 e1] eqn:El. destruct (IH _ _ _ _ E) as (A1 & A2 & A3 & A4 & A5).
  unfold look in El. cbn [fst] in El. destruct (it c) as [| x r] eqn:Ec; injection El as <- <-.
  - split_and!; [lia | | | |].
    + intros d [-> | Hd]%elem_of_cons; [unfold before; now rewrite Ec | now apply A2].
    + intros H. destruct (A3 H) as [-> H']. split; [done |]. intros d [-> | Hd]%elem_of_cons; auto.
    + destruct A4 as [A4 | (d & Hd & Hb)]; [now left | right; exists d; split; [now right | done]].
    + intros H. destruct (A5 H) as [H' | (d & Hd & Hb)]; [now left | right; exists d; split; [now right | done]].
  - assert (Hm : m' <= slice_time (startDone c) x /\ m' <= m) by (destruct (Z.ltb_spec (slice_time (startDone c) x) m); lia).
    split_and!; [lia | | | |].
    + intros d [-> | Hd]%elem_of_cons; [unfold before; rewrite Ec; apply Z.ltb_lt; lia | now apply A2].
    + intros H. now destruct (A3 H).
    + destruct A4 as [A4 | (d & Hd & Hb)]; [| right; exists d; split; [now right | done]].
      destruct (Z.ltb_spec (slice_time (startDone c) x) m); [| now left]. right. exists c. split; [now left |].
      unfold before. rewrite Ec. apply Z.ltb_ge. lia.
    + intros _. right. exists c. split; [now left | now rewrite Ec].
Qed.

Lemma before_mono t t' c : t' <= t -> before t c = true -> before t' c = true.
Proof. unfold before. destruct (it c); [done |]. lia. Qed.

(** The time of the next round. *)
Lemma next_round cpus n e : fold_left look cpus (2 ^ 63 - 1, true) = (n, e) ->
  if e : bool then forall c, c ∈ cpus -> it c = []
  else n < 2 ^ 47 /\ (forall c time, c ∈ cpus -> time < n -> before time c = true) /\
    Exists (fun c => before n c = false) cpus.
Proof.
  intros E. destruct (look_spec _ _ _ _ _ E) as (A1 & A2 & A3 & A4 & A5). destruct e; [now apply A3 |].
  assert (Hn : n < 2 ^ 47).
  { destruct (A5 eq_refl) as [| (c & Hc & Hne)]; [done |]. specialize (A2 c Hc). unfold before in A2.
    destruct (it c) as [| x r]; [done |]. pose proof (slice_time_small (startDone c) x). lia. }
  split; [done |]. split.
  - intros c time Hc Ht. apply (before_mono (n - 1)); [lia | now apply A2].
  - destruct A4 as [A4 | (c & Hc & Hb)]; [lia | apply Exists_exists; eauto].
Qed.

(** ** The list *)

(** What the list shows of a time: the processors that run threads of other programs,
    and those that run threads of the program. *)
Definition shown (vec : list ContextSwitchUsage.t) (time : Z) : Z * Z :=
  match last (List.filter (fun u => ContextSwitchUsage.Time u <=? time) vec) with
  | Some u => (ContextSwitchUsage.Other u, ContextSwitchUsage.Own u)
  | None => (0, 0)
  end.
(** The entries follow each other and tell something new. *)
Definition compact (vec : list ContextSwitchUsage.t) : Prop :=
  forall i a b, vec !! i = Some a -> vec !! S i = Some b ->
    (ContextSwitchUsage.Time a < ContextSwitchUsage.Time b \/ ContextSwitchUsage.Time b = 0) /\
    (ContextSwitchUsage.Other a, ContextSwitchUsage.Own a) <> (ContextSwitchUsage.Other b, ContextSwitchUsage.Own b).

Lemma shown_last pre u time : ContextSwitchUsage.Time u <= time ->
  shown (pre ++ [u]) time = (ContextSwitchUsage.Other u, ContextSwitchUsage.Own u).
Proof.
  intros H. unfold shown. rewrite List.filter_app. cbn [List.filter]. rewrite (proj2 (Z.leb_le _ _)) by done.
  now rewrite last_snoc.
Qed.
Lemma shown_before pre u time : time < ContextSwitchUsage.Time u -> shown (pre ++ [u]) time = shown pre time.
Proof.
  intros H. unfold shown. rewrite List.filter_app. cbn [List.filter]. rewrite (proj2 (Z.leb_gt _ _)) by done.
  now rewrite app_nil_r.
Qed.
Lemma compact_snoc pre a b : compact (pre ++ [a]) ->
  ContextSwitchUsage.Time a < ContextSwitchUsage.Time b \/ ContextSwitchUsage.Time b = 0 ->
  (ContextSwitchUsage.Other a, ContextSwitchUsage.Own a) <> (ContextSwitchUsage.Other b, ContextSwitchUsage.Own b) ->
  compact ((pre ++ [a]) ++ [b]).
Proof.
  intros H Ht Hne i x y Ex Ey. apply lookup_app_Some in Ey as [Ey | [Hge Ey]].
  - apply (H i); [| done]. apply lookup_lt_Some in Ey as Hlt. rewrite lookup_app_l in Ex by lia. exact Ex.
  - apply lookup_lt_Some in Ey as Hlt. cbn in Hlt. rewrite length_app in Hge, Hlt. cbn in Hge, Hlt.
    rewrite length_app in Ey. cbn in Ey. replace (S i - (length pre + 1))%nat with 0%nat in Ey by lia. injection Ey as <-.
    assert (i = length pre) as -> by lia. rewrite <- app_assoc in Ex. cbn in Ex. rewrite list_lookup_middle in Ex by done.
    now injection Ex as <-.
Qed.

Lemma make_usage time a b : 0 <= time < 2 ^ 47 -> 0 <= a < 2 ^ 8 -> 0 <= b < 2 ^ 8 ->
  exists u, ContextSwitchUsage.make time a b = Some u /\ ContextSwitchUsage.Time u = time /\
    ContextSwitchUsage.Other u = a /\ ContextSwitchUsage.Own u = b.
Proof.
  intros Ht Ha Hb. unfold ContextSwitchUsage.make, ContextSwitchUsage.SetTime, assert47.
  rewrite (proj2 (Z.ltb_lt _ _)) by lia. cbn [mbind option_bind]. eexists. split; [reflexivity |].
  unfold ContextSwitchUsage.Time, ContextSwitchUsage.Other, ContextSwitchUsage.Own,
    ContextSwitchUsage.SetOwn, ContextSwitchUsage.SetOther.
  assert (H0 : in_uint 64 (set_time48 time 0)) by (apply set_time48_range; red; lia).
  rewrite time48_bits by (repeat (apply put_range; try lia); done).
  rewrite !bits_put_high, bits_set_time48, sint_uint, bits_put, <- (bits_0 8) by lia.
  rewrite bits_put_low, bits_put by lia. rewrite sint_small, !uint_small by (red; lia) || (lia || red; lia). done.
Qed.

(** ** The sweep *)
Lemma still_running T time cpus gs : all_at T cpus gs -> T <= time -> (forall c, c ∈ cpus -> before time c = true) ->
  map (fun cs => running_at cs time) (map fst gs) = map snd gs.
Proof.
  intros Hall HT. induction Hall as [| c [cs cur] cpus gs Hc Hall IH]; intros Hb; [done |]. cbn [map fst snd] in *.
  rewrite IH by (intros d Hd; apply Hb; now right). f_equal. rewrite (ca_rest _ _ _ _ Hc time HT).
  now rewrite (Hb c) by now left.
Qed.

Lemma all_at_later T T' cpus gs : all_at T cpus gs -> T <= T' ->
  (forall c time, c ∈ cpus -> time < T' -> before time c = true) -> all_at T' cpus gs.
Proof.
  intros Hall HT Hb. apply Forall2_same_length_lookup. split; [now apply (Forall2_length _ _ _ Hall) |].
  intros i c g Ec Eg. apply (cpu_at_later T); [exact (Forall2_lookup_lr _ _ _ _ _ _ Hall Ec Eg) | done |].
  intros time Ht. apply (Hb c); [now apply list_elem_of_lookup_2 in Ec | done].
Qed.

(** The list shows all times up to [T], and the counters then. *)
Record noted (T : Z) (k : counters) (vec : list ContextSwitchUsage.t) : Prop := {
  no_back : exists pre u, vec = pre ++ [u] /\ ContextSwitchUsage.Other u = other k /\ ContextSwitchUsage.Own u = own k /\
    ContextSwitchUsage.Time u <= Z.max 0 T;
  no_compact : compact vec;
  no_shown : forall time, 0 <= time <= T -> shown vec time = (busy_at false time, busy_at true time) }.

Lemma noted_until T T1 k vec : noted T k vec -> T <= T1 ->
  (forall time, T < time <= T1 -> busy_at false time = other k /\ busy_at true time = own k) -> noted T1 k vec.
Proof.
  intros [(pre & u & -> & Eo & Ew & Et) Hc Hs] HT Hk. split; [exists pre, u; split_and!; done || lia | done |].
  intros time Ht. destruct (Z.le_gt_cases time T); [apply Hs; lia |]. destruct (Hk time ltac:(lia)) as [-> ->].
  rewrite shown_last by lia. congruence.
Qed.

Lemma note_change_spec T n k0 k vec : noted T k0 vec -> T = n - 1 -> 0 <= n < 2 ^ 47 ->
  0 <= other k < 2 ^ 8 -> 0 <= own k < 2 ^ 8 -> busy_at false n = other k -> busy_at true n = own k ->
  exists vec', note_change n k vec = Some vec' /\ noted n k vec'.
Proof.
  intros [(pre & u & -> & Eo & Ew & Et) Hc Hs] HT Hn Ho Hw Bo Bw. unfold note_change. rewrite last_snoc.
  cbn [mbind option_bind]. destruct (Z.eqb_spec (ContextSwitchUsage.Other u) (other k)) as [E1 | N1];
    [destruct (Z.eqb_spec (ContextSwitchUsage.Own u) (own k)) as [E2 | N2] |]; cbn [negb orb].
  { exists (pre ++ [u]). split; [done |]. split; [exists pre, u; split_and!; done || lia | done |].
    intros time Ht. destruct (Z.le_gt_cases time T); [apply Hs; lia |]. assert (time = n) as -> by lia.
    rewrite shown_last by lia. congruence. }
  all: destruct (make_usage n (other k) (own k) Hn Ho Hw) as (u' & -> & Et' & Eo' & Ew'); cbn [mbind option_bind].
  all: eexists; (split; [reflexivity |]); split;
    [exists (pre ++ [u]), u'; split_and!; done || lia
    | apply compact_snoc; [done | lia | rewrite Eo', Ew'; congruence] |].
  all: intros time Ht; destruct (Z.le_gt_cases time T);
    [rewrite shown_before by lia; apply Hs; lia | assert (time = n) as -> by lia; rewrite shown_last by lia; congruence].
Qed.

Lemma counts_range curs k : counts 0 0 curs k -> Z.of_nat (length curs) <= cpucnt < 2 ^ 8 ->
  0 <= other k < 2 ^ 8 /\ 0 <= own k < 2 ^ 8.
Proof.
  intros [H1 H2 _] Hl. pose proof (tally_both curs). pose proof (tally_nonneg true curs). pose proof (tally_nonneg false curs). lia.
Qed.

Lemma busy_tally T time cpus gs k o : all_at T cpus gs -> map fst gs = all_slices -> counts 0 0 (map snd gs) k ->
  T <= time -> (forall c, c ∈ cpus -> before time c = true) -> busy_at o time = if o then own k else other k.
Proof.
  intros Hall Hg [H1 H2 _] HT Hb. unfold busy_at. rewrite <- Hg, (still_running T time cpus gs Hall HT Hb). destruct o; lia.
Qed.

Hypothesis Hcnt : 0 < cpucnt < 2 ^ 8.

Lemma sweep_spec fuel : forall T cpus gs k vec,
  -1 <= T -> all_at T cpus gs -> (forall c, c ∈ cpus -> before T c = true) -> map fst gs = all_slices ->
  counts 0 0 (map snd gs) k -> noted T k vec -> (lefts cpus < fuel)%nat ->
  exists vec', sweep m_pid w fuel cpus k vec = Some vec' /\ compact vec' /\
    forall time, 0 <= time -> shown vec' time = (busy_at false time, busy_at true time).
Proof.
  induction fuel as [| fuel IH]; intros T cpus gs k vec HT Hall Hb Hg Hk Hv Hf; [lia |]. cbn [sweep].
  destruct (fold_left look cpus (2 ^ 63 - 1, true)) as [n e] eqn:El. apply next_round in El.
  destruct e.
  { exists vec. split; [done |]. split; [apply Hv |]. intros time Ht.
    assert (Hend : forall time c, c ∈ cpus -> before time c = true) by (intros t0 c Hc; unfold before; now rewrite El).
    refine (no_shown _ _ _ (noted_until T (Z.max T time) k vec Hv ltac:(lia) _) time ltac:(lia)).
    intros t0 Ht0. split; apply (busy_tally T t0 cpus gs k); auto; lia. }
  destruct El as (Hn & Hbn & Hex).
  assert (HTn : T < n).
  { apply Exists_exists in Hex as (c & Hc & Hx). destruct (Z.lt_ge_cases T n) as [| Hge]; [done |].
    specialize (Hb c Hc). apply (before_mono _ n) in Hb; [congruence | done]. }
  assert (Hlen : length cpus = Z.to_nat cpucnt).
  { rewrite (Forall2_length _ _ _ Hall), <- (length_map fst gs), Hg. unfold all_slices. now rewrite length_map, length_seq. }
  assert (Hv1 : noted (n - 1) k vec).
  { apply (noted_until T); [done | lia |]. intros t0 Ht0.
    assert (Hbt : forall c, c ∈ cpus -> before t0 c = true) by (intros c Hc; apply (Hbn c); done || lia).
    split; [apply (busy_tally T t0 cpus gs k false) | apply (busy_tally T t0 cpus gs k true)]; auto; lia. }
  destruct (pass_all_spec n ltac:(lia) cpus gs 0 0 k) as (cpus' & gs' & k' & -> & F1 & F2 & F3 & F4 & F5 & F6); try done; try lia.
  { apply (all_at_later T); [done | lia |]. intros c time Hc Ht. now apply (Hbn c). }
  cbn [mbind option_bind fst snd]. rewrite Forall_forall in F4.
  assert (Hr : 0 <= other k' < 2 ^ 8 /\ 0 <= own k' < 2 ^ 8).
  { apply (counts_range (map snd gs')); [done |]. rewrite length_map, <- (length_map fst gs'), F2, length_map.
    rewrite <- (Forall2_length _ _ _ Hall). lia. }
  destruct (note_change_spec (n - 1) n k k' vec Hv1 eq_refl ltac:(lia) (proj1 Hr) (proj2 Hr)) as (vec' & -> & Hv').
  { apply (busy_tally n n cpus' gs' k' false); auto; [congruence | lia]. }
  { apply (busy_tally n n cpus' gs' k' true); auto; [congruence | lia]. }
  cbn [mbind option_bind]. apply (IH n cpus' gs' k' vec'); auto; [lia | congruence |]. specialize (F6 Hex). lia.
Qed.

Lemma cpu_at_begin cs : well 0 cs -> Forall known cs -> cpu_at (-1) cs (mkCpuIter false cs) None.
Proof.
  intros Hw Hk. split; cbn [it startDone]; [| eauto | done | now right |].
  - intros time Ht. unfold before. cbn [it startDone]. destruct cs as [| x r]; [done |]. destruct Hw as [Hw _].
    cbn [slice_time]. apply Z.ltb_lt. lia.
  - intros time _. unfold before. cbn [it startDone]. destruct cs as [| x r]; [done |]. cbn [slice_time].
    destruct (Z.ltb_spec time (Start x)); [| done]. apply (running_before (Start x)); [| done].
    destruct Hw as [_ Hw]. now split.
Qed.

Lemma lefts_rounds cpus : (lefts cpus < rounds cpus)%nat.
Proof.
  unfold rounds, lefts. induction cpus as [| c l IH]; cbn [map foldr]; [lia |].
  assert (left_ c < enough c)%nat by (unfold left_, enough; lia). lia.
Qed.

Lemma usage_spec : m_threadMap w !! 0 = None ->
  (forall i, well 0 (slices_of i) /\ Forall known (slices_of i)) ->
  exists vec, ReconstructContextSwitchUsage m_pid w = Some vec /\ compact vec /\
    forall time, 0 <= time -> shown vec time = (busy_at false time, busy_at true time).
Proof.
  intros H0 Hcs. unfold ReconstructContextSwitchUsage. rewrite (proj2 (Z.eqb_neq _ _)) by lia.
  destruct (make_usage 0 0 0 ltac:(lia) ltac:(lia) ltac:(lia)) as (u & -> & Et & Eo & Ew). cbn [mbind option_bind].
  set (n := Z.to_nat cpucnt).
  assert (Hall : all_at (-1) (cpu_iters w) (map (fun i => (slices_of i, None)) (seq 0 n))).
  { unfold cpu_iters. fold n. induction (seq 0 n) as [| i l IH]; [constructor |].
    constructor; [apply cpu_at_begin; apply (Hcs i) | exact IH]. }
  apply (sweep_spec _ (-1) _ _ _ _ ltac:(lia) Hall).
  - intros c (i & -> & _)%list_elem_of_fmap. unfold before. cbn [it startDone]. destruct (Hcs i) as [Hw _].
    unfold slices_of in Hw. destruct (default [] (cpuData (cpu w) !! Z.of_nat i)) as [| x r]; [done |].
    destruct Hw as [Hw _]. apply Z.ltb_lt. cbn. lia.
  - rewrite map_map. reflexivity.
  - assert (E : forall o, tally o (map snd (map (fun i => (slices_of i, @None t)) (seq 0 n))) = 0).
    { intros o. clear Hall. rewrite map_map. cbn [snd]. induction (seq 0 n) as [| i l IH]; [done |].
      cbn [map]. rewrite tally_cons, IH. reflexivity. }
    split; [rewrite E; reflexivity | rewrite E; reflexivity | exact H0].
  - split; [exists [], u; split_and!; done || lia | | intros; lia].
    intros i a b Ea Eb. destruct i; discriminate.
  - apply lefts_rounds.
Qed.
End Sweep.

(** C34: after loading a trace, the list of busy processors is right. If the slices of
    every processor follow each other, as the handlers of context switches leave them,
    and there are at most 255 processors, then the job ends, none of its assertions
    fails, and for every time the list shows how many processors had a slice of the
    program covering it, and how many a slice of another program; every entry tells
    something new. *)
Theorem ReconstructContextSwitchUsage_counts (m_pid T : Z) (w : W) :
  (forall c, exists r, on_cpu T w c r) -> 0 < cpuDataCount (cpu w) < 2 ^ 8 ->
  (forall i, Forall (known w) (slices_of w i)) ->
  (forall tid td, m_threadMap w !! tid = Some td -> is_Some (threads w !! td)) -> m_threadMap w !! 0 = None ->
  exists vec, ReconstructContextSwitchUsage m_pid w = Some vec /\ compact vec /\
    forall time, 0 <= time -> shown vec time = (busy_at m_pid w false time, busy_at m_pid w true time).
Proof.
  intros Hcpu Hcnt Hk Hth H0. apply usage_spec; auto. intros i. split; [| apply Hk].
  destruct (Hcpu (Z.of_nat i)) as [[th |] Hr]; unfold on_cpu in Hr; [destruct Hr as (j & _ & Hr) |];
    now apply slices_well in Hr.
Qed.

(** ** Witness *)

(** A processor that ran thread 7 of the program from time 5 to time 9. *)
Definition demo_usage_server : W := demo_ctx_server <| cpu ::= (fun c => c
  <| cpuData := {[0 := [mk (pack48 5 1) (Int48.make 9)]]} |> <| cpuDataCount := 1 |> <| tidToPid := {[7 := 100]} |>
  <| externalThreadCompress := snd (ThreadCompress.CompressThread 7 initial_threads) |>) |>.

Lemma ReconstructContextSwitchUsage_counts_witness : exists vec,
  ReconstructContextSwitchUsage 100 demo_usage_server = Some vec /\
  shown vec 4 = (0, 0) /\ shown vec 5 = (0, 1) /\ shown vec 8 = (0, 1) /\ shown vec 9 = (0, 0).
Proof.
  destruct (ReconstructContextSwitchUsage_counts 100 9 demo_usage_server) as (vec & E & _ & H).
  - intros c. exists None. change (slices 9 (default [] (({[0 := [mk (pack48 5 1) (Int48.make 9)]]} : gmap Z (list t)) !! c)) None).
    destruct (decide (c = 0)) as [-> | Hne].
    + rewrite lookup_singleton_eq. cbn. unfold s_end. repeat split; vm_compute; discriminate.
    + rewrite lookup_singleton_ne by done. cbn. lia.
  - cbn. lia.
  - intros i. change (Forall (known demo_usage_server)
      (default [] (({[0 := [mk (pack48 5 1) (Int48.make 9)]]} : gmap Z (list t)) !! Z.of_nat i))).
    destruct (decide (Z.of_nat i = 0)) as [-> | Hne].
    + rewrite lookup_singleton_eq. apply Forall_singleton. exists 7. vm_compute. reflexivity.
    + rewrite lookup_singleton_ne by done. apply Forall_nil_2.
  - intros tid td Et. change ((∅ : gmap Z nat) !! tid = Some td) in Et. now rewrite lookup_empty in Et.
  - reflexivity.
  - exists vec. split; [exact E |]. rewrite !H by lia. vm_compute. repeat split.
Defined.
