(* ===== verification/DequeueItems.v ===== *)
(** * The bytes of the items that a client sends

    What the loops of [Dequeue] send, byte by byte: which reference a time stamp
    belongs to and where it is in an item, how many bytes its difference takes, which
    address the text of a message has, which frames are left of a call stack.  None of
    this refers to the code, and the loops are shown to send exactly that, to stop only
    when a frame was refused, and to notice every frame that was. *)
From S2P Require Import Prelude Queue Wire Client Dequeue DequeueSpec.
Import QueueType(t(..)).

(** ** Time stamps *)
Inductive reference : Set := OfThread | OfSerial | OfCtx | OfGpu.

(** The reference of an item with a time stamp, and the first of its eight bytes. *)
Definition stamp (ty : QueueType.t) : option (reference * nat) :=
  match ty with
  | ZoneBegin | ZoneBeginCallstack | ZoneBeginAllocSrcLoc | ZoneBeginAllocSrcLocCallstack | ZoneEnd
  | GpuZoneBegin | GpuZoneBeginCallstack | GpuZoneBeginAllocSrcLoc | GpuZoneBeginAllocSrcLocCallstack
  | GpuZoneEnd | SectionEnter | SectionLeave | FiberEnter | FiberLeave => Some (OfThread, 1%nat)
  | PlotDataInt | PlotDataFloat | PlotDataDouble => Some (OfThread, 9%nat)
  | CallstackSample | CallstackSampleContextSwitch => Some (OfCtx, 5%nat)
  | ContextSwitch | ThreadWakeup => Some (OfCtx, 1%nat)
  | GpuTime => Some (OfGpu, 1%nat)
  | LockWait | LockSharedWait | LockObtain | LockSharedObtain => Some (OfSerial, 9%nat)
  | LockRelease | LockSharedRelease => Some (OfSerial, 5%nat)
  | MemAlloc | MemAllocNamed | MemAllocCallstack | MemAllocCallstackNamed
  | MemFree | MemFreeNamed | MemFreeCallstack | MemFreeCallstackNamed
  | MemDiscard | MemDiscardCallstack
  | GpuZoneBeginSerial | GpuZoneBeginCallstackSerial | GpuZoneBeginAllocSrcLocSerial
  | GpuZoneBeginAllocSrcLocCallstackSerial | GpuZoneEndSerial => Some (OfSerial, 1%nat)
  | _ => None
  end.

Definition read_ref (c : reference) (r : Refs) : Z :=
  match c with OfThread => refThread r | OfSerial => refSerial r | OfCtx => refCtx r | OfGpu => refGpu r end.
Definition set_ref (c : reference) (t : Z) (r : Refs) : Refs :=
  match c with
  | OfThread => mkRefs t (refSerial r) (refCtx r) (refGpu r)
  | OfSerial => mkRefs (refThread r) t (refCtx r) (refGpu r)
  | OfCtx => mkRefs (refThread r) (refSerial r) t (refGpu r)
  | OfGpu => mkRefs (refThread r) (refSerial r) (refCtx r) t
  end.

(** The types with the difference in four and in two bytes, and the number of bytes
    that follow the time stamp. *)
Definition short (ty : QueueType.t) : option (QueueType.t * QueueType.t * nat) :=
  match ty with
  | ZoneBegin => Some (ZoneBegin32, ZoneBegin16, 8%nat)
  | ZoneBeginCallstack => Some (ZoneBeginCallstack32, ZoneBeginCallstack16, 8%nat)
  | ZoneEnd => Some (ZoneEnd32, ZoneEnd16, O)
  | CallstackSample => Some (CallstackSample32, CallstackSample16, O)
  | CallstackSampleContextSwitch => Some (CallstackSampleContextSwitch32, CallstackSampleContextSwitch16, O)
  | _ => None
  end.

(** A difference that is not negative takes two bytes if it fits, or four bytes less
    what two bytes hold, or eight bytes less what the others hold. *)
Definition packed (dt : Z) (ty t32 t16 : QueueType.t) : QueueType.t * list Z :=
  if dt <? 0 then (ty, le_bytes 8 dt)
  else if dt <? 65536 then (t16, le_bytes 2 dt)
  else if dt <? 65536 + 4294967296 then (t32, le_bytes 4 (dt - 65536))
  else (ty, le_bytes 8 (dt - 65536 - 4294967296)).

(** The bytes of an item whose time stamp at [off] differs by [dt] from its reference. *)
Definition stamped_bytes (ty : QueueType.t) (off : nat) (dt : Z) (item : list Z) : list Z :=
  match short ty with
  | Some (t32, t16, keep) =>
      let '(ty', d) := packed dt ty t32 t16 in
      QueueType.idx ty' :: take (off - 1) (drop 1 item) ++ d ++ take keep (drop (off + 8) item)
  | None => take (QueueDataSize_at (QueueType.idx ty)) (take off item ++ le_bytes 8 dt ++ drop (off + 8) item)
  end.

(** The references after an item, and its bytes. *)
Definition item_sent (ty : QueueType.t) (r : Refs) (item : list Z) : Refs * list Z :=
  match stamp ty with
  | Some (c, off) =>
      let time := sint 64 (rd off 8 item) in
      (set_ref c time r, stamped_bytes ty off (sint 64 (time - read_ref c r)) item)
  | None => (r, take (QueueDataSize_at (QueueType.idx ty)) item)
  end.

(** ** The code sends them *)
Lemma take_wire ty item : item_ok ty item -> wire (MemReadHdr item) item = take (QueueDataSize_at (QueueType.idx ty)) item.
Proof. intros (Hh & _). now rewrite Hh. Qed.

Lemma sent_unstamped ty r item : item_ok ty item -> stamp ty = None -> sent_item ty r item = (r, item) ->
  item_sent ty r item = ((sent_item ty r item).1, wire (MemReadHdr (sent_item ty r item).2) (sent_item ty r item).2).
Proof. intros Hi Hs ->. unfold item_sent. rewrite Hs. cbn [fst snd]. now rewrite (take_wire ty). Qed.

Lemma sent_rebase (p : Refs -> Z) `{!FieldSet p} c ty l f off r item :
  item_ok ty item -> stamp ty = Some (c, off) -> short ty = None -> sent_item ty r item = rebase p l f r item ->
  (exists o, offset_of f l = Some (o, I64) /\ off = (1 + o)%nat) -> (sizeof l <= 31)%nat ->
  (forall t, r <| p := t |> = set_ref c t r) -> p r = read_ref c r ->
  item_sent ty r item = ((sent_item ty r item).1, wire (MemReadHdr (sent_item ty r item).2) (sent_item ty r item).2).
Proof.
  intros Hi Hs Hsh -> (o & Ho & ->) Hl Hset Hget. unfold item_sent. rewrite Hs. unfold stamped_bytes. rewrite Hsh.
  unfold rebase. cbn [fst snd].
  assert (Hw : item_ok ty (MemWrite l f (sint 64 (MemRead l f item - p r)) item)) by now apply item_ok_write.
  rewrite (take_wire ty _ Hw), Hset. unfold MemWrite, MemRead. rewrite Ho, Hget. reflexivity.
Qed.

(** An item is 32 bytes. *)
Ltac explode item Hlen :=
  do 32 (destruct item as [| ? item]; [discriminate Hlen |]); destruct item; [| discriminate Hlen].

Lemma le_bytes_mod n m z : (m <= n)%nat -> take m (le_bytes n z) = le_bytes m z.
Proof. revert n z. induction m as [| m IH]; intros [| n] z H; [done | done | lia |]. cbn. f_equal. apply IH. lia. Qed.

Lemma le_bytes_uint8 n z : le_bytes n (uint (8 * Z.of_nat n) z) = le_bytes n z.
Proof.
  revert z. induction n as [| n IH]; intros z; [done |]. cbn [le_bytes]. unfold uint in *.
  replace (8 * Z.of_nat (S n)) with (8 + 8 * Z.of_nat n) by lia. rewrite Z.pow_add_r by lia.
  change (2 ^ 8) with 256. assert (Hp : 0 < 2 ^ (8 * Z.of_nat n)) by lia. f_equal.
  - rewrite Z.rem_mul_r by lia. rewrite Z.mul_comm, Z.mod_add, Z.mod_mod by lia. done.
  - rewrite Z.rem_mul_r by lia. rewrite Z.mul_comm, Z.div_add, (Z.div_small (z mod 256)) by (try apply Z.mod_pos_bound; lia).
    rewrite Z.add_0_l. apply IH.
Qed.

(** The code and the specification pick the same width. *)
Lemma narrow_packed dt ty t32 t16 : in_sint 64 dt -> exists d,
  narrow dt ty t32 t16 = (ty, d) /\ packed dt ty t32 t16 = (ty, le_bytes 8 d) \/
  narrow dt ty t32 t16 = (t32, d) /\ packed dt ty t32 t16 = (t32, le_bytes 4 d) \/
  narrow dt ty t32 t16 = (t16, d) /\ packed dt ty t32 t16 = (t16, le_bytes 2 d).
Proof.
  intros [Hl Hh]. unfold narrow, packed, ProtocolOffset16Bit, ProtocolOffset32Bit.
  change (2 ^ 16 + 2 ^ 32) with (65536 + 4294967296). change (2 ^ 16) with 65536.
  destruct (Z.leb_spec 0 dt) as [H0 | H0].
  - rewrite (proj2 (Z.ltb_ge dt 0)) by lia.
    destruct (Z.ltb_spec dt 65536); [exists dt; tauto |].
    destruct (Z.ltb_spec dt (65536 + 4294967296)); rewrite (sint_small 64) by (lia || (red; lia)).
    + exists (dt - 65536). tauto.
    + exists (dt - 65536 - 4294967296). left. split; [f_equal; lia | done].
  - rewrite (proj2 (Z.ltb_lt dt 0)) by lia. exists dt. tauto.
Qed.

Definition sent_as (q : Refs * list Z) (p : Refs * list Z) : Prop := p = (q.1, wire (MemReadHdr q.2) q.2).

Lemma hdr_ok ty b item : item_ok ty (b :: item) -> b = QueueType.idx ty.
Proof. intros (Hh & _). change (b + 256 * 0 = QueueType.idx ty) in Hh. lia. Qed.

(** Both sides of [sent_as], as lists of 32 bytes. *)
Ltac bytes item Hi Hlen :=
  explode item Hlen; apply hdr_ok in Hi; subst; unfold sent_as; cbn [fst snd]; f_equal;
  cbn -[Z.modulo Z.div uint sint Z.mul Z.add le_val]; reflexivity.
Ltac widths dt :=
  match goal with |- context [narrow dt ?ty ?a ?b] =>
    let d := fresh "d" in
    destruct (narrow_packed dt ty a b ltac:(apply sint_range; lia)) as (d & [[-> ->] | [[-> ->] | [-> ->]]]) end;
  cbv beta iota; clear dt.

Lemma bytes_ZoneEnd r item : item_ok ZoneEnd item -> sent_as (ZoneEnd_case r item) (item_sent ZoneEnd r item).
Proof.
  intros Hi. destruct (Hi) as (_ & Hlen & _). rewrite QueueItemSize_32 in Hlen. unfold item_sent, ZoneEnd_case. cbn [stamp].
  change (MemRead QueueZoneEnd "time" item) with (sint 64 (rd 1 8 item)). set (time := sint 64 (rd 1 8 item)). clearbody time.
  cbn [read_ref]. set (dt := sint 64 (time - refThread r)). unfold stamped_bytes. cbn [short].
  widths dt; bytes item Hi Hlen.
Qed.

Lemma bytes_CallstackSample ty r item : ty = CallstackSample \/ ty = CallstackSampleContextSwitch -> item_ok ty item ->
  sent_as (CallstackSample_case ty r item) (item_sent ty r item).
Proof.
  intros Hty Hi. destruct (Hi) as (_ & Hlen & _). rewrite QueueItemSize_32 in Hlen. unfold item_sent, CallstackSample_case.
  change (MemRead QueueCallstackSampleFat "time" item) with (sint 64 (rd 5 8 item)).
  destruct Hty as [-> | ->]; cbn [stamp]; set (time := sint 64 (rd 5 8 item)); clearbody time;
    cbn [read_ref]; set (dt := sint 64 (time - refCtx r)); unfold stamped_bytes; cbn [short];
    match goal with |- context [packed _ _ ?a ?b] =>
      match goal with |- context [narrow _ _ ?x ?y] => change x with a; change y with b end end;
    widths dt; bytes item Hi Hlen.
Qed.

(** The number that follows the time stamp is written again. *)
Lemma rewritten_number item : length item = 32%nat -> Forall byte_ok item ->
  le_bytes 8 (uint 64 (rd 9 8 item)) = take 8 (drop 9 item).
Proof.
  intros Hlen Hb. change 64 with (8 * Z.of_nat 8). rewrite le_bytes_uint8. unfold rd.
  assert (Hl : length (take 8 (drop 9 item)) = 8%nat) by (rewrite length_take, length_drop; lia).
  rewrite <- Hl at 1. apply le_bytes_val. now apply Forall_take, Forall_drop.
Qed.

Lemma time16 d m : MemWrite QueueZoneBegin16 "time" (uint 16 d) m = MemWrite QueueZoneBegin16 "time" d m.
Proof. unfold MemWrite. change (offset_of "time" QueueZoneBegin16) with (Some (0%nat, U16)). unfold wr. f_equal. f_equal. exact (le_bytes_uint8 2 d). Qed.
Lemma time32 d m : MemWrite QueueZoneBegin32 "time" (uint 32 d) m = MemWrite QueueZoneBegin32 "time" d m.
Proof. unfold MemWrite. change (offset_of "time" QueueZoneBegin32) with (Some (0%nat, U32)). unfold wr. f_equal. f_equal. exact (le_bytes_uint8 4 d). Qed.

Lemma bytes_ZoneBegin ty r item : ty = ZoneBegin \/ ty = ZoneBeginCallstack -> item_ok ty item -> Forall byte_ok item ->
  sent_as (ZoneBegin_case ty r item) (item_sent ty r item).
Proof.
  intros Hty Hi Hb. destruct (Hi) as (_ & Hlen & _). rewrite QueueItemSize_32 in Hlen.
  pose proof (rewritten_number item Hlen Hb) as Hsrc. unfold item_sent, ZoneBegin_case.
  change (MemRead QueueZoneBegin "time" item) with (sint 64 (rd 1 8 item)).
  change (MemRead QueueZoneBegin "srcloc" item) with (uint 64 (rd 9 8 item)).
  set (src := uint 64 (rd 9 8 item)) in *. clearbody src. clear Hb.
  destruct Hty as [-> | ->]; cbn [stamp]; set (time := sint 64 (rd 1 8 item)); clearbody time;
    cbn [read_ref]; set (dt := sint 64 (time - refThread r)); unfold stamped_bytes; cbn [short];
    match goal with |- context [packed _ _ ?a ?b] =>
      match goal with |- context [narrow _ _ ?x ?y] => change x with a; change y with b end end;
    widths dt.
  all: cbn [Nat.add].
  all: first [rewrite time16, <- Hsrc | rewrite time32, <- Hsrc | idtac]; clear Hsrc.
  all: bytes item Hi Hlen.
Qed.

(** Every item: the references and bytes of the specification. *)
Lemma item_sent_code ty r item : item_ok ty item -> Forall byte_ok item -> sent_as (sent_item ty r item) (item_sent ty r item).
Proof.
  intros Hi Hb. destruct ty;
    lazymatch goal with
    | |- sent_as (sent_item ZoneBegin _ _) _ => apply bytes_ZoneBegin; auto
    | |- sent_as (sent_item ZoneBeginCallstack _ _) _ => apply bytes_ZoneBegin; auto
    | |- sent_as (sent_item ZoneEnd _ _) _ => now apply bytes_ZoneEnd
    | |- sent_as (sent_item CallstackSample _ _) _ => apply bytes_CallstackSample; auto
    | |- sent_as (sent_item CallstackSampleContextSwitch _ _) _ => apply bytes_CallstackSample; auto
    | |- sent_as (sent_item ?ty _ _) _ =>
        lazymatch eval cbn [sent_item] in (sent_item ty r item) with
        | @rebase ?p ?inst ?l ?f _ _ =>
            eapply (@sent_rebase p inst _ ty l f _ r item Hi);
              [reflexivity | reflexivity | reflexivity | eexists; split; reflexivity | vm_compute; lia | reflexivity | reflexivity]
        | _ => apply sent_unstamped; [exact Hi | reflexivity | reflexivity]
        end
    end.
Qed.

(** ** Payloads *)
Section Payload.
Context {P : Platform}.

(** The address of the text of a message: its low byte holds the metadata. *)
Definition text_address (l : layout) (item : list Z) : Z := MemRead l "textAndMetadata" item / 256.

(** The frames of a call stack, and those after the first one of [lua_pcall]; a call
    stack is not left without frames. *)
Definition frames_of (ptr : Z) (h : memory) : list Z :=
  map (fun i => ld 8 (ptr + 8 + 8 * Z.of_nat i) h) (seq 0 (Z.to_nat (ld 8 ptr h))).
Definition of_lua (frame : Z) : Prop := strstr (DecodeCallstackPtrFast frame) "lua_pcall" = true.
#[export] Instance of_lua_dec frame : Decision (of_lua frame) := bool_eq_dec _ _.
Definition host_frames (frames : list Z) : list Z :=
  if TRACY_HAS_CALLSTACK then
    match list_find of_lua frames with
    | Some (i, _) => match drop (S i) frames with [] => frames | rest => rest end
    | None => frames
    end
  else frames.
Definition frame_bytes (frames : list Z) : list Z := mjoin (le_bytes 8 <$> frames).

(** The memory after the item is sent: the call stack holds what is left of it. *)
Definition memory_after (ty : QueueType.t) (item : list Z) (h : memory) : memory :=
  match ty with
  | CallstackAlloc =>
      let ptr := MemRead QueueCallstackAllocFat "nativePtr" item in
      let frames := frames_of ptr h in
      let rest := host_frames frames in
      if (ptr =? 0) || Nat.eqb (length rest) (length frames) then h
      else memcpy ptr (le_bytes 8 (Z.of_nat (length rest))) (memcpy (ptr + 8) (frame_bytes rest) h)
  | _ => h
  end.

(** What is sent before the item. *)
Definition sent_before (ty : QueueType.t) (item : list Z) (h : memory) : list event :=
  match ty with
  | Message | MessageCallstack | MessageAppInfo =>
      [single h (text_address QueueMessageFat item) (MemRead QueueMessageFat "size" item)]
  | MessageColor | MessageColorCallstack =>
      [single h (text_address QueueMessageColorFat item) (MemRead QueueMessageColorFat "size" item)]
  | CallstackAlloc =>
      let native := MemRead QueueCallstackAllocFat "nativePtr" item in
      let ptr := MemRead QueueCallstackAllocFat "ptr" item in
      let h' := memory_after ty item h in
      (if native =? 0 then [] else [Transfer CallstackPayload native (frame_bytes (host_frames (frames_of native h)))]) ++
      [Transfer CallstackAllocPayload ptr (slice h' (ptr + 2) (Z.to_nat (ld 2 ptr h')))]
  | _ => payload ty item h
  end.

(** The blocks that are freed. *)
Definition freed_with (ty : QueueType.t) (item : list Z) (h : memory) : list Z :=
  match ty with
  | Message | MessageCallstack => free_of (text_address QueueMessageFat item)
  | MessageColor | MessageColorCallstack => free_of (text_address QueueMessageColorFat item)
  | MessageAppInfo => if TRACY_ON_DEMAND then [] else free_of (text_address QueueMessageFat item)
  | _ => item_frees ty item h
  end.

(** A list of items: the references afterwards, the events, the blocks that are freed
    and the memory. *)
Fixpoint items_sent (r : Refs) (items : list (list Z)) (h : memory) : Refs * list event * list Z * memory :=
  match items with
  | [] => (r, [], [], h)
  | item :: items =>
      let ty := item_type item in
      let '(r1, bytes) := item_sent ty r item in
      let '(r2, es, fr, h2) := items_sent r1 items (memory_after ty item h) in
      (r2, sent_before ty item h ++ (if no_item ty then [] else [Fixed bytes]) ++ es, freed_with ty item h ++ fr, h2)
  end.

(** ** The code sends them *)
Lemma message_ptr_address l item : message_ptr l item = text_address l item.
Proof. unfold message_ptr, text_address, TaggedUserlandAddress.GetAddress. now rewrite Z.shiftr_div_pow2. Qed.

Lemma slice_frames h a n : memory_ok h ->
  slice h a (8 * n) = frame_bytes (map (fun i => ld 8 (a + 8 * Z.of_nat i) h) (seq 0 n)).
Proof.
  intros Hm. revert a. induction n as [| n IH]; intros a; [done |].
  replace (8 * S n)%nat with (8 + 8 * n)%nat by lia. rewrite slice_app. cbn [seq map frame_bytes fmap list_fmap mjoin list_join].
  unfold frame_bytes in *. cbn [fmap list_fmap mjoin list_join]. f_equal.
  - unfold ld. rewrite Z.mul_0_r, Z.add_0_r. rewrite <- (length_slice h a 8) at 2. symmetry. apply le_bytes_val.
    now apply memory_ok_slice.
  - rewrite IH. do 2 f_equal. rewrite <- (seq_shift n 0), (map_map S). apply map_ext. intros i. f_equal. lia.
Qed.

Lemma skip_seq {A} (f g : nat -> A) k n : (forall i, f (k + i)%nat = g i) -> drop k (map f (seq 0 n)) = map g (seq 0 (n - k)).
Proof.
  intros H. apply list_eq. intros i. rewrite lookup_drop.
  change (map f (seq 0 n)) with (f <$> seq 0 n). change (map g (seq 0 (n - k))) with (g <$> seq 0 (n - k)).
  rewrite !list_lookup_fmap. destruct (decide (k + i < n)%nat).
  - rewrite !lookup_seq_lt by lia. cbn. now rewrite H.
  - rewrite !lookup_seq_ge by lia. done.
Qed.

Lemma frames_words ptr h : frames_of ptr h = words h (ptr + 8) (ld 8 ptr h).
Proof. reflexivity. Qed.

Lemma find_frame_list pat data i :
  find_frame pat data i = (fun r => i + Z.of_nat (fst r) + 1) <$> list_find (fun d => strstr (DecodeCallstackPtrFast d) pat = true) data.
Proof.
  revert i. induction data as [| d data IH]; intros i; [done |]. cbn [find_frame list_find].
  destruct (strstr _ pat) eqn:E.
  - rewrite decide_True by done. cbn. f_equal. lia.
  - rewrite decide_False by congruence. rewrite IH. destruct (list_find _ data) as [[j x] |]; [| done]. cbn. f_equal. lia.
Qed.

Lemma host_frames_cut ptr h : memory_ok h ->
  let frames := frames_of ptr h in let rest := host_frames frames in
  cut_callstack ptr ["lua_pcall"%string] h =
    if Nat.eqb (length rest) (length frames) then h
    else memcpy ptr (le_bytes 8 (Z.of_nat (length rest))) (memcpy (ptr + 8) (frame_bytes rest) h).
Proof.
  intros Hm frames rest. pose proof (ld_range 8 ptr h Hm) as Hsz.
  assert (Hlen : length frames = Z.to_nat (ld 8 ptr h)) by (unfold frames, frames_of; now rewrite length_map, length_seq).
  unfold cut_callstack. unfold rest, host_frames in *. destruct TRACY_HAS_CALLSTACK; [| now rewrite Nat.eqb_refl].
  rewrite <- frames_words. fold frames. cbn [cut_index]. rewrite find_frame_list. unfold of_lua.
  destruct (list_find _ frames) as [[j x] |] eqn:E; cbn [fmap option_fmap option_map fst]; [| now rewrite Nat.eqb_refl].
  apply list_find_Some in E as (E & _ & _). apply lookup_lt_Some in E as Hj.
  replace (0 + Z.of_nat j + 1) with (Z.of_nat (S j)) by lia.
  destruct (Z.eqb_spec (Z.of_nat (S j)) (ld 8 ptr h)) as [Ej | Ej].
  - rewrite drop_ge by lia. now rewrite Nat.eqb_refl.
  - destruct (drop (S j) frames) as [| y r] eqn:Ed; [apply (f_equal length) in Ed; rewrite length_drop in Ed; cbn in Ed; lia |].
    rewrite <- Ed, length_drop, Hlen. rewrite (proj2 (Nat.eqb_neq _ _)) by lia. unfold st.
    do 2 f_equal; [f_equal; lia |].
    replace (Z.to_nat (8 * (ld 8 ptr h - Z.of_nat (S j)))) with (8 * (Z.to_nat (ld 8 ptr h) - S j))%nat by lia.
    rewrite slice_frames by done. f_equal. unfold frames, frames_of. symmetry. apply skip_seq. intros i.
    f_equal. lia.
Qed.

Lemma memory_after_code ty item h : memory_ok h -> item_heap ty item h = memory_after ty item h.
Proof.
  intros Hm. destruct ty; try reflexivity. unfold item_heap, memory_after, native_ptr.
  destruct (_ =? 0); [done |]. exact (host_frames_cut _ h Hm).
Qed.

Lemma length_frame_bytes l : length (frame_bytes l) = (8 * length l)%nat.
Proof.
  induction l as [| x l IH]; [done |]. change (frame_bytes (x :: l)) with (le_bytes 8 x ++ frame_bytes l).
  rewrite length_app, IH, length_le_bytes. cbn. lia.
Qed.

Lemma host_frames_length frames : (length (host_frames frames) <= length frames)%nat.
Proof.
  unfold host_frames. destruct TRACY_HAS_CALLSTACK; [| done]. destruct (list_find _ _) as [[j x] |]; [| done].
  destruct (drop (S j) frames) as [| y r] eqn:E; [done |]. rewrite <- E, length_drop. lia.
Qed.

(** A shortened call stack is what is left of it. *)
Lemma cut_event ptr h : memory_ok h ->
  callstack_event ptr (cut_callstack ptr ["lua_pcall"%string] h) =
    Transfer CallstackPayload ptr (frame_bytes (host_frames (frames_of ptr h))).
Proof.
  intros Hm. rewrite host_frames_cut by done. cbv zeta. unfold callstack_event, transfer. f_equal.
  pose proof (ld_range 8 ptr h Hm) as Hsz. pose proof (host_frames_length (frames_of ptr h)) as Hle.
  assert (Hlen : length (frames_of ptr h) = Z.to_nat (ld 8 ptr h)) by (unfold frames_of; now rewrite length_map, length_seq).
  destruct (Nat.eqb_spec (length (host_frames (frames_of ptr h))) (length (frames_of ptr h))) as [E | E].
  - replace (Z.to_nat (ld 8 ptr h * 8)) with (8 * Z.to_nat (ld 8 ptr h))%nat by lia. rewrite slice_frames by done.
    fold (frames_of ptr h). f_equal. unfold host_frames in *. destruct TRACY_HAS_CALLSTACK; [| done].
    destruct (list_find _ _) as [[j x] |] eqn:Ef; [| done]. destruct (drop (S j) (frames_of ptr h)) as [| y r] eqn:Ed; [done |].
    rewrite <- Ed, length_drop in E. apply list_find_Some in Ef as (Ef & _ & _). apply lookup_lt_Some in Ef. lia.
  - set (rest := host_frames (frames_of ptr h)) in *.
    change (memcpy ptr (le_bytes 8 (Z.of_nat (length rest))) (memcpy (ptr + 8) (frame_bytes rest) h)) with
      (st 8 ptr (Z.of_nat (length rest)) (memcpy (ptr + 8) (frame_bytes rest) h)).
    rewrite ld_st, uint_small by (red; lia). unfold st.
    rewrite slice_memcpy_other by (rewrite length_le_bytes; lia).
    replace (Z.to_nat (Z.of_nat (length rest) * 8)) with (length (frame_bytes rest)) by (rewrite length_frame_bytes; lia).
    apply slice_memcpy_same.
Qed.

Lemma sent_before_code ty item h : memory_ok h -> payload ty item h = sent_before ty item h.
Proof.
  intros Hm. destruct ty; try reflexivity; unfold payload, sent_before; rewrite ?message_ptr_address; try reflexivity.
  rewrite <- memory_after_code by done. unfold item_heap, native_ptr. destruct (_ =? 0) eqn:E; [done |].
  rewrite <- (cut_event (MemRead QueueCallstackAllocFat "nativePtr" item)) by done. reflexivity.
Qed.

Lemma freed_with_code ty item h : item_frees ty item h = freed_with ty item h.
Proof. destruct ty; try reflexivity; unfold item_frees, freed_with; now rewrite !message_ptr_address. Qed.

Lemma items_sent_code queued items : forall r h, memory_ok h -> items_ok queued items h -> Forall (Forall byte_ok) items ->
  run_items r items h = items_sent r items h.
Proof.
  induction items as [| item items IH]; intros r h Hm Hok Hb; [done |]. destruct Hok as ((Hi & _ & _) & Hok).
  apply Forall_cons in Hb as [Hb Hbs]. cbn [run_items items_sent].
  pose proof (item_sent_code _ r item Hi Hb) as Hs. unfold sent_as in Hs. rewrite Hs. clear Hs.
  rewrite <- (memory_after_code _ item h Hm), <- (sent_before_code _ item h Hm), <- freed_with_code.
  rewrite <- IH; [| now apply item_heap_ok | exact Hok | exact Hbs].
  destruct (run_items _ items _) as [[[r2 es] fr] h2]. unfold item_events. destruct (no_item _); now rewrite <- ?app_assoc, ?app_nil_l.
Qed.
End Payload.

(** ** Frames that are refused *)
Section Refused.
Context {P : Platform}.

Definition sent_count (s : Profiler) : nat := length (m_sent s).
(** All frames that were sent between [s] and [s'] were accepted. *)
Definition accepted (s s' : Profiler) : bool := forallb send_ok (seq (sent_count s) (sent_count s' - sent_count s)).

Lemma accepted_same s s' : sent_count s' = sent_count s -> accepted s s' = true.
Proof. unfold accepted. intros ->. now rewrite Nat.sub_diag. Qed.
Lemma accepted_trans s s1 s2 : (sent_count s <= sent_count s1)%nat -> (sent_count s1 <= sent_count s2)%nat ->
  accepted s s2 = accepted s s1 && accepted s1 s2.
Proof.
  intros H1 H2. unfold accepted. rewrite <- forallb_app. f_equal.
  replace (sent_count s1) with (sent_count s + (sent_count s1 - sent_count s))%nat at 2 by lia.
  rewrite <- seq_app. f_equal. lia.
Qed.

(** Frames are not taken back. *)
Definition grows {A} (m : M Profiler A) : Prop := forall s a s', m s = Some (a, s') -> (sent_count s <= sent_count s')%nat.
Lemma grows_bind {A B} (m : M Profiler A) (k : A -> M Profiler B) : grows m -> (forall a, grows (k a)) -> grows (m ≫= k).
Proof.
  intros Hm Hk s b s' E. unfold mbind, M_bind in E. destruct (m s) as [[a s1] |] eqn:Em; [| discriminate E].
  etrans; [exact (Hm _ _ _ Em) | exact (Hk _ _ _ _ E)].
Qed.
Lemma grows_ret {A} (a : A) : grows (mret a).
Proof. intros s ? ? [= <- <-]. done. Qed.
Lemma grows_gets {A} (f : Profiler -> A) : grows (gets f).
Proof. intros s ? ? [= <- <-]. done. Qed.
Lemma grows_modify f : (forall s, (sent_count s <= sent_count (f s))%nat) -> grows (modify f).
Proof. intros H s ? ? [= <- <-]. apply H. Qed.
Lemma grows_assert b : grows (assert_ b).
Proof. intros s a s'. unfold assert_. destruct b; [intros [= <- <-]; done | discriminate]. Qed.
Lemma grows_expect {A} (o : option A) : grows (expect o).
Proof. intros s a s'. unfold expect. destruct o; [intros [= <- <-]; done | discriminate]. Qed.
Lemma grows_stop {A} : grows (stop (A := A)).
Proof. intros s a s' E. discriminate E. Qed.

Create HintDb grows.
#[local] Hint Resolve grows_ret grows_gets grows_assert grows_expect grows_stop : grows.
Ltac call_head m := lazymatch m with ?f _ => call_head f | ?f => f end.
Ltac grows_step :=
  lazymatch goal with
  | |- forall _, _ => intro
  | |- grows (_ ≫= _) => apply grows_bind
  | |- grows (match ?x with _ => _ end) => destruct x
  | |- grows (let '_ := ?x in _) => destruct x
  | |- grows (modify _) => apply grows_modify; intros ?; unfold sent_count; repeat case_match; cbn; rewrite ?length_app; lia
  | |- grows ?m => first [solve [auto with grows] | let h := call_head m in progress (unfold h; cbv beta zeta)]
  end.
Ltac grows_auto := repeat grows_step.

Lemma grows_append data : grows (AppendData data).
Proof. grows_auto. Qed.
Lemma grows_block hdr size data : grows (append_block hdr size data).
Proof. grows_auto. Qed.
#[local] Hint Resolve grows_append grows_block : grows.
Lemma grows_frames data n : grows (CallstackFrames data n).
Proof. revert data. induction n as [| n IH]; intros data; cbn [CallstackFrames]; [apply grows_ret |]. grows_auto. Qed.
#[local] Hint Resolve grows_frames : grows.
Lemma grows_switch ty r item : grows (Dequeue_switch_2 ty r item).
Proof. destruct ty; cbn [Dequeue_switch_2 Dequeue_switch_1]; grows_auto. Qed.
Lemma grows_serial ty r item : grows (DequeueSerial_switch_1 ty r item).
Proof. destruct ty; cbn [DequeueSerial_switch_1]; grows_auto. Qed.

Lemma bind_some {A B} (m : M Profiler A) (k : A -> M Profiler B) s b s' : (m ≫= k) s = Some (b, s') ->
  exists a s1, m s = Some (a, s1) /\ k a s1 = Some (b, s').
Proof. unfold mbind, M_bind. destruct (m s) as [[a s1] |]; [eauto | discriminate]. Qed.

(** Appending an item fails exactly if a frame was refused. *)
Lemma append_result data s ok s' : AppendData data s = Some (ok, s') -> ok = accepted s s'.
Proof.
  unfold AppendData, NeedDataSize, CommitData, SendData, AppendDataUnsafe, accepted, sent_count, mbind, M_bind, mret, M_ret,
    assert_, gets, modify. destruct (_ <=? _); [| done]. destruct (_ <? _).
  - intros [= <- <-]. assert (E : length (m_sent s ++ [slice (m_buffer s) (m_bufferStart s)
        (Z.to_nat (m_bufferOffset s - m_bufferStart s))]) = S (length (m_sent s))) by (rewrite length_app; cbn; lia).
    destruct (_ <? _); cbn; rewrite E; replace (S (length (m_sent s)) - length (m_sent s))%nat with 1%nat by lia;
      cbn; now rewrite andb_true_r.
  - intros [= <- <-]. cbn. now rewrite Nat.sub_diag.
Qed.

(** The types that are sent without anything before them. *)
Definition plain (ty : QueueType.t) : bool :=
  match ty with
  | ZoneText | ZoneName | Message | MessageColor | MessageCallstack | MessageColorCallstack | MessageAppInfo
  | ZoneBeginAllocSrcLoc | ZoneBeginAllocSrcLocCallstack | Callstack | CallstackSerial | CallstackAlloc
  | CallstackSample | CallstackSampleContextSwitch | FrameImage | GpuZoneBeginAllocSrcLoc
  | GpuZoneBeginAllocSrcLocCallstack | GpuZoneBeginAllocSrcLocSerial | GpuZoneBeginAllocSrcLocCallstackSerial
  | GpuContextName | GpuAnnotationName | LockName | CallstackFrameSize | SymbolInformation | SymbolCodeMetadata
  | ExternalNameMetadata | SourceCodeMetadata | SectionEnter | SectionSetup => false
  | _ => true
  end.
Lemma plain_switch ty r item s x s' : plain ty = true -> Dequeue_switch_2 ty r item s = Some (x, s') -> s' = s.
Proof.
  destruct ty; intros Hp; try discriminate Hp; cbn [Dequeue_switch_2 Dequeue_switch_1]; intros E;
    first [now injection E as <- <- | discriminate E].
Qed.
Lemma plain_serial ty r item s x s' : plain ty = true -> DequeueSerial_switch_1 ty r item s = Some (x, s') -> s' = s.
Proof.
  destruct ty; intros Hp; try discriminate Hp; cbn [DequeueSerial_switch_1]; intros E;
    first [now injection E as <- <- | discriminate E].
Qed.

(** A loop stops only if a frame was refused; without payloads, always if one was. *)
Definition stops_if_refused (plainly : Prop) (ok : bool) (s s' : Profiler) : Prop :=
  (sent_count s <= sent_count s')%nat /\ (ok = false -> accepted s s' = false) /\ (plainly -> ok = accepted s s').

Lemma item_result r item s a s' : Dequeue_item r item s = Some (a, s') ->
  stops_if_refused (plain (item_type item) = true) a.2 s s'.
Proof.
  unfold Dequeue_item. intros (out & s1 & E1 & E)%bind_some.
  assert (H1 : (sent_count s <= sent_count s1)%nat /\ (plain (item_type item) = true -> s1 = s)).
  { destruct (_ <? _); [| injection E1 as <- <-; done]. unfold item_type.
    apply bind_some in E1 as (ty' & s0 & E0 & E1). unfold expect in E0.
    destruct (QueueType.of_idx (MemReadHdr item)) as [ty |]; [| discriminate E0]. injection E0 as <- <-.
    cbn [default]. split; [exact (grows_switch _ _ _ _ _ _ E1) |]. intros Hp. exact (plain_switch ty _ _ _ _ _ Hp E1). }
  destruct H1 as [Hg Hp]. destruct out as [r1 [item1 |]].
  - apply bind_some in E as (ok & s2 & E2 & E). injection E as <- <-. pose proof (grows_append _ _ _ _ E2) as Hg2. pose proof (append_result _ _ _ _ E2) as ->. cbn [snd].
    split; [lia |]. rewrite (accepted_trans s s1 s2) by done. split; [intros ->; apply andb_false_r |].
    intros H. rewrite (Hp H), (accepted_same s s) by done. reflexivity.
  - injection E as <- <-. split; [done |]. split; [done |]. intros H. rewrite (Hp H). symmetry. now apply accepted_same.
Qed.

Definition all_plain (items : list (list Z)) : Prop := Forall (fun item => plain (item_type item) = true) items.

Lemma loop_result items : forall r s a s', Dequeue_loop r items s = Some (a, s') ->
  stops_if_refused (all_plain items) a.2 s s'.
Proof.
  induction items as [| item items IH]; intros r s a s' E; cbn [Dequeue_loop] in E.
  { injection E as <- <-. split; [done |]. split; [done |]. intros _. symmetry. now apply accepted_same. }
  apply bind_some in E as ([r1 ok] & s1 & E1 & E).
  destruct (item_result _ _ _ _ _ E1) as (A1 & A2 & A3). cbn [snd] in *. destruct ok.
  - destruct (IH _ _ _ _ E) as (B1 & B2 & B3). split; [lia |]. rewrite (accepted_trans s s1 s') by done. split.
    + intros H. rewrite (B2 H). apply andb_false_r.
    + intros H. apply Forall_cons in H as [H1 H2]. rewrite <- (A3 H1), <- (B3 H2). done.
  - injection E as <- <-. cbn [snd]. split; [done |]. split; [done |]. intros H. apply Forall_cons in H as [H1 _]. auto.
Qed.

Lemma block_result items s ok s' : Dequeue_block items s = Some (ok, s') ->
  stops_if_refused (all_plain items) ok s s'.
Proof.
  unfold Dequeue_block. intros E. unfold mbind, M_bind, assert_, get_refs, gets, modify, mret, M_ret in E.
  destruct (negb _); [| discriminate E].
  destruct (Dequeue_loop _ items s) as [[[r1 ok1] s1] |] eqn:E1; [| discriminate E]. injection E as <- <-.
  destruct (loop_result _ _ _ _ _ E1) as (A1 & A2 & A3). split; [exact A1 |]. split; [exact A2 | exact A3].
Qed.

(** The serial loop goes on after a refusal. *)
Definition dequeued (status : DequeueStatus) : bool := match status with DataDequeued => true | _ => false end.
Lemma serial_loop_result items : TRACY_FIBERS = false -> forall r status s r' status' s',
  status <> QueueEmpty -> DequeueSerial_loop r status items s = Some (Some (r', status'), s') ->
  (sent_count s <= sent_count s')%nat /\ status' <> QueueEmpty /\ (dequeued status = false -> dequeued status' = false) /\
  (dequeued status' = false -> dequeued status = false \/ accepted s s' = false) /\
  (all_plain items -> dequeued status = true -> dequeued status' = accepted s s').
Proof.
  intros Hf. induction items as [| item items IH]; intros r status s r' status' s' Hne E; cbn [DequeueSerial_loop] in E.
  { injection E as <- <- <-. split; [done |]. split; [done |]. split; [done |]. split; [auto |]. intros _ ->. symmetry. now apply accepted_same. }
  apply bind_some in E as (ty & s0 & E0 & E). unfold expect in E0.
  destruct (QueueType.of_idx (MemReadHdr item)) as [ty' |] eqn:Et; [| discriminate E0]. injection E0 as -> <-.
  apply bind_some in E as (out & s1 & E1 & E).
  assert (H1 : (sent_count s <= sent_count s1)%nat /\ (plain (item_type item) = true -> s1 = s)).
  { unfold item_type. rewrite Et. cbn [default]. destruct (_ <? _).
    - unfold DequeueSerial_switch_2 in E1. rewrite Hf in E1. cbn [negb] in E1.
      split; [exact (grows_serial _ _ _ _ _ _ E1) |]. intros Hp. exact (plain_serial ty _ _ _ _ _ Hp E1).
    - unfold DequeueSerial_other in E1. rewrite Hf in E1. cbn [negb] in E1. injection E1 as _ <-. split; [lia | done]. }
  destruct H1 as [Hg Hp]. destruct out as [[r1 item1] |]; [| discriminate E].
  assert (Hlost : DequeueSerial_loop r1 ConnectionLost items s1 = Some (Some (r', status'), s') -> dequeued status = false ->
    (sent_count s <= sent_count s')%nat /\ status' <> QueueEmpty /\ (dequeued status = false -> dequeued status' = false) /\
    (dequeued status' = false -> dequeued status = false \/ accepted s s' = false) /\
    (all_plain (item :: items) -> dequeued status = true -> dequeued status' = accepted s s')).
  { intros E' Hs. destruct (IH _ ConnectionLost _ _ _ _ ltac:(discriminate) E') as (B1 & B2 & B3 & B4 & B5). split; [lia |].
    split; [done |]. split; [auto |]. split; [auto | intros _ H; congruence]. }
  destruct status; [| now apply Hlost | done]. apply bind_some in E as (ok & s2 & E2 & E).
  pose proof (grows_append _ _ _ _ E2) as Hg2. pose proof (append_result _ _ _ _ E2) as Hok.
  assert (Hne2 : (if ok then DataDequeued else ConnectionLost) <> QueueEmpty) by (destruct ok; discriminate).
  destruct (IH _ _ _ _ _ _ Hne2 E) as (B1 & B2 & B3 & B4 & B5). split; [lia |]. split; [done |].
  split; [discriminate |]. rewrite (accepted_trans s s1 s') by lia. rewrite (accepted_trans s1 s2 s') by lia. rewrite <- Hok. split.
  - intros H. right. destruct (B4 H) as [H' | ->]; [destruct ok; [discriminate H' |] |]; now rewrite ?andb_false_r.
  - intros H _. apply Forall_cons in H as [H1 H2]. rewrite (Hp H1), (accepted_same s s) by done. cbn [andb].
    destruct ok; [now apply B5 | now apply B3].
Qed.

Lemma serial_goes_on ty r item s s' : DequeueSerial_switch_1 ty r item s <> Some (None, s').
Proof.
  destruct ty; cbn [DequeueSerial_switch_1]; unfold then_case, ret_case; intros E;
    first [discriminate E | apply bind_some in E as (? & ? & _ & E); discriminate E].
Qed.
Lemma serial_loop_goes_on items : TRACY_FIBERS = false -> forall r status s s',
  DequeueSerial_loop r status items s <> Some (None, s').
Proof.
  intros Hf. induction items as [| item items IH]; intros r status s s' E; cbn [DequeueSerial_loop] in E; [discriminate E |].
  apply bind_some in E as (ty & s0 & E0 & E). apply bind_some in E as (out & s1 & E1 & E).
  destruct out as [[r1 item1] |].
  - destruct status; [| now apply IH in E |]; apply bind_some in E as (ok & s2 & _ & E); now apply IH in E.
  - destruct (_ <? _).
    + unfold DequeueSerial_switch_2 in E1. rewrite Hf in E1. cbn [negb] in E1. now apply serial_goes_on in E1.
    + unfold DequeueSerial_other in E1. rewrite Hf in E1. discriminate E1.
Qed.

Lemma serial_result_refused s status s' : TRACY_FIBERS = false -> m_serialDequeue s = [] -> m_serialQueue s <> [] ->
  DequeueSerial s = Some (status, s') ->
  (dequeued status = false -> accepted s s' = false) /\ (all_plain (m_serialQueue s) -> dequeued status = accepted s s').
Proof.
  intros Hf Hd Hq E. unfold DequeueSerial in E. apply bind_some in E as ([] & s1 & E1 & E). injection E1 as <-.
  assert (En : Nat.eqb (length (m_serialQueue s)) 0 = false) by (destruct (m_serialQueue s); done). rewrite En in E.
  apply bind_some in E as (items & s1 & E1 & E). injection E1 as Ei <-. cbn in Ei. subst items. rewrite En in E.
  apply bind_some in E as (r & s1 & E1 & E). unfold get_refs, gets in E1. injection E1 as <- <-. apply bind_some in E as (out & s2 & E2 & E).
  destruct out as [[r' st] |]; [| now apply serial_loop_goes_on in E2].
  apply bind_some in E as ([] & s3 & E3 & E). unfold modify in E3. injection E3 as <-. unfold mret, M_ret in E. injection E as <- <-.
  destruct (serial_loop_result _ Hf _ DataDequeued _ _ _ _ ltac:(discriminate) E2) as (_ & _ & _ & B4 & B5).
  split; [intros H; destruct (B4 H) as [H' | H']; [discriminate H' | exact H'] | intros H; exact (B5 H eq_refl)].
Qed.
End Refused.

(** ** The loops *)
Section Claims.
Context {P : Platform} (m0 : memory).

Definition client_times (s : Profiler) : Refs :=
  mkRefs (m_refTimeThread s) (m_refTimeSerial s) (m_refTimeCtx s) (m_refTimeGpu s).

Lemma wp_and {A} (m : M Profiler A) (Q R : A -> Profiler -> Prop) s :
  wp m Q s -> (forall a s', m s = Some (a, s') -> R a s') -> wp m (fun a s' => Q a s' /\ R a s') s.
Proof. unfold wp. destruct (m s) as [[a s'] |]; auto. Qed.

Lemma items_ok_take queued n items h : items_ok queued items h -> items_ok queued (take n items) h.
Proof.
  revert items h. induction n as [| n IH]; intros [| item items] h H; try done. destruct H as [H1 H2]. split; [done | now apply IH].
Qed.

(** C1: draining a run of a thread's queue. Whatever its items are, as long as the
    memory they point to can be sent, no assertion fails and the client appends, to
    whole-event frames inside its buffer, exactly the bytes the specification gives for
    a prefix of the items: the difference of each time stamp to the reference before it,
    in as few bytes as it takes, the texts, call stacks and other blocks the items point
    to before them. It frees these blocks and leaves the time of the last item of each
    kind as its reference. The prefix is all of the items unless a frame was refused,
    and without such blocks the run fails exactly if one was. *)
Theorem Dequeue_block_refines (items : list (list Z)) (es : list event) (s : Profiler) :
  items <> [] -> memory_ok (heap s) -> items_ok thread_type items (heap s) -> Forall (Forall byte_ok) items ->
  logged m0 es [] s ->
  wp (Dequeue_block items) (fun ok s' => exists n,
    let '(r', new, fr, h') := items_sent (client_times s) (take n items) (heap s) in
    logged m0 (es ++ new) [] s' /\ heap s' = h' /\ freed s' = freed s ++ fr /\
    m_refTimeThread s' = refThread r' /\ m_refTimeCtx s' = refCtx r' /\
    m_refTimeGpu s' = refGpu r' /\ m_refTimeSerial s' = m_refTimeSerial s /\
    (ok = true -> take n items = items) /\ (ok = false -> accepted s s' = false) /\
    (all_plain items -> ok = accepted s s')) s.
Proof.
  intros Hne Hm Hok Hb H.
  eapply wp_mono; [eapply wp_and; [exact (Dequeue_block_wp m0 items es s Hne Hm Hok H) |
    intros ok s' E; exact (block_result _ _ _ _ E)] |].
  - intros ok s' [(n & Hn) (_ & R1 & R2)]. exists n. cbv zeta in Hn. fold (client_times s) in Hn.
    rewrite (items_sent_code thread_type) in Hn by (auto using items_ok_take, Forall_take).
    destruct (items_sent _ (take n items) _) as [[[r' new] fr] h'].
    destruct Hn as (A1 & A2 & A3 & A4 & A5 & A6 & A7 & A8). repeat (split; [done |]). done.
Qed.

(** C6: the serial queue, in builds without fibers: it is swapped out and drained
    completely. Unless a frame was refused, exactly the bytes the specification gives
    for its items are appended; the connection is reported lost only if a frame was
    refused, and, when no item points to a block, whenever one was. The serial and GPU
    references end at the times of the last items of their kinds, the thread and
    context-switch references are not touched. *)
Theorem DequeueSerial_refines (es : list event) (s : Profiler) :
  TRACY_FIBERS = false -> m_serialDequeue s = [] -> m_serialQueue s <> [] ->
  memory_ok (heap s) -> items_ok serial_type (m_serialQueue s) (heap s) -> Forall (Forall byte_ok) (m_serialQueue s) ->
  logged m0 es [] s ->
  wp DequeueSerial (fun status s' => exists sent,
    let '(r', new, fr, h') := items_sent (client_times s) (m_serialQueue s) (heap s) in
    logged m0 (es ++ sent) [] s' /\ heap s' = h' /\ freed s' = freed s ++ fr /\
    m_refTimeSerial s' = refSerial r' /\ m_refTimeGpu s' = refGpu r' /\
    m_refTimeThread s' = m_refTimeThread s /\ m_refTimeCtx s' = m_refTimeCtx s /\
    m_serialQueue s' = [] /\ m_serialDequeue s' = [] /\
    (status = DataDequeued /\ sent = new \/ status = ConnectionLost /\ accepted s s' = false) /\
    (all_plain (m_serialQueue s) -> accepted s s' = false -> status = ConnectionLost)) s.
Proof.
  intros Hf Hd Hq Hm Hok Hb H.
  eapply wp_mono; [eapply wp_and; [exact (DequeueSerial_wp m0 es s Hf Hd Hq Hm Hok H) |
    intros status s' E; exact (serial_result_refused _ _ _ Hf Hd Hq E)] |].
  - intros status s' [(sent & Hn) [R1 R2]]. exists sent. cbv zeta in Hn. fold (client_times s) in Hn.
    rewrite (items_sent_code serial_type) in Hn by auto.
    destruct (items_sent _ (m_serialQueue s) _) as [[[r' new] fr] h'].
    destruct Hn as (A1 & A2 & A3 & A4 & A5 & A6 & A7 & A8 & A9 & A10). repeat (split; [done |]).
    split; [destruct A10 as [A10 | ->]; [now left | right; split; [done | now apply R1]] |].
    intros Hp Ha. destruct A10 as [[-> _] | ->]; [| done]. specialize (R2 Hp). rewrite Ha in R2. discriminate R2.
Qed.
End Claims.

(** ** Witnesses *)
#[local] Existing Instance demo_platform.

Lemma demo_bytes_ok : Forall (Forall byte_ok) demo_items /\ Forall (Forall byte_ok) demo_serial.
Proof. split; vm_compute; repeat (first [apply Forall_nil_2 | apply Forall_cons_2]); split; discriminate || reflexivity. Qed.

(** A zone that begins at time 1000 and ends at 90000: two bytes, then four. *)
Example demo_bytes : (items_sent (mkRefs 0 0 0 0) demo_items demo_heap).1.1.2 =
  [Fixed (QueueType.idx ZoneBegin16 :: le_bytes 2 1000 ++ repeat 0 8);
   Single [104; 105]; Fixed [QueueType.idx ZoneText];
   Transfer CallstackPayload 0x2000 (le_bytes 8 77 ++ le_bytes 8 78); Fixed [QueueType.idx Callstack];
   Fixed (QueueType.idx ZoneEnd32 :: le_bytes 4 (89000 - 65536))].
Proof. vm_compute. reflexivity. Qed.

Lemma Dequeue_block_refines_witness :
  wp (Dequeue_block demo_items) (fun ok s' => exists n,
    let '(r', new, fr, h') := items_sent (mkRefs 0 0 0 0) (take n demo_items) demo_heap in
    logged (fun _ => 0) ([] ++ new) [] s' /\ heap s' = h' /\ freed s' = [] ++ fr /\
    m_refTimeThread s' = refThread r' /\ m_refTimeCtx s' = refCtx r' /\
    m_refTimeGpu s' = refGpu r' /\ m_refTimeSerial s' = 0 /\
    (ok = true -> take n demo_items = demo_items) /\ (ok = false -> accepted (demo_profiler []) s' = false) /\
    (all_plain demo_items -> ok = accepted (demo_profiler []) s')) (demo_profiler []).
Proof.
  apply (Dequeue_block_refines (fun _ => 0) demo_items [] (demo_profiler [])).
  - discriminate.
  - exact demo_heap_ok.
  - exact demo_items_ok.
  - exact (proj1 demo_bytes_ok).
  - exact (demo_logged []).
Defined.

Lemma DequeueSerial_refines_witness :
  wp DequeueSerial (fun status s' => exists sent,
    let '(r', new, fr, h') := items_sent (mkRefs 0 0 0 0) demo_serial demo_heap in
    logged (fun _ => 0) ([] ++ sent) [] s' /\ heap s' = h' /\ freed s' = [] ++ fr /\
    m_refTimeSerial s' = refSerial r' /\ m_refTimeGpu s' = refGpu r' /\
    m_refTimeThread s' = 0 /\ m_refTimeCtx s' = 0 /\
    m_serialQueue s' = [] /\ m_serialDequeue s' = [] /\
    (status = DataDequeued /\ sent = new \/ status = ConnectionLost /\ accepted (demo_profiler demo_serial) s' = false) /\
    (all_plain demo_serial -> accepted (demo_profiler demo_serial) s' = false -> status = ConnectionLost))
    (demo_profiler demo_serial).
Proof.
  apply (DequeueSerial_refines (fun _ => 0) [] (demo_profiler demo_serial)).
  - reflexivity.
  - reflexivity.
  - discriminate.
  - exact demo_heap_ok.
  - exact demo_serial_ok.
  - exact (proj2 demo_bytes_ok).
  - exact (demo_logged demo_serial).
Defined.
